(* ===== verification/_CoqProject ===== *)
-Q . S2P
Prelude.v
GoStrings.v
Strconv.v
Errors.v
Collection.v
RoomPattern.v
PatternMap.v
Pattern.v
Messages.v
Messager.v
MsgCbs.v
Contexts.v
Registry.v
Encoding.v
Auth.v
Token.v
Config.v
Log.v
Kafka.v
KafkaGroup.v
Redis.v
RedisClient.v
WsSignal.v
WsPeers.v
SocketIo.v
SampleBuilder.v
SampleRing.v
SampleWindow.v
SampleInv.v
SamplePush.v
SamplePop.v
Dts.v
SegmenterUtils.v
Segmenter.v
SegmenterProps.v
Recorder.v
RecordLoop.v
Templates.v
Packets.v
Routing.v
RoutingInv.v
RoutingAccept.v
RoutingProps.v
RoutingConc.v
Publication.v
Rooms.v
Forwarding.v
Session.v
SessionProps.v
Admission.v
Negotiation.v
PeerConn.v
Metrics.v
Server.v
Startup.v
Client.v
WaitPart.v
CustomMsg.v
Handlers.v
KeepAlive.v
ClientMsgs.v
ClientConn.v
RtpStats.v
RouterServer.v
Cluster.v
Facade.v
