(* ===== verification/Prelude.v ===== *)
(** * conference.go: a verification development

    conference.go is a WebRTC conference server in Go.  Clients connect
    through a signal channel (WebSocket or Socket.IO), join rooms, publish
    tracks and subscribe to the tracks of others by a pattern.  Several nodes
    form a cluster: they exchange messages through Kafka and forward the RTP
    packets of published tracks to each other over UDP.  Publications can be
    recorded: packets are reassembled into samples and written as segments.

    ** The parts and the files that model them

    - [Prelude]: the outcomes of Go code ([run]: a value, a panic, or no end
      within the fuel), slices, errors as codes, machine integers with their
      wrap-around written out, and the shared lemmas and tactics.
    - [GoStrings], [Strconv]: the functions of packages strings and strconv the
      program uses.
    - [Encoding]: base64, query strings and UTF-8, as packages encoding/base64,
      net/url and unicode/utf8 define them.
    - [Errors]: errors/main.go, and signal/utils.go and signal/main.go where
      they turn the failure of a handler into an answer ([FinallyResponse]).
    - [Collection]: utils/collection.go, every helper on slices and maps.  The
      in-place removals are modelled on the shared backing array.
    - [RoomPattern], [PatternMap]: signal/utils.go.  Room patterns with stars
      ([MatchRoom]) and the tree of patterns the messager's registries are kept
      in ([UpdatePatternData], [Collect]).
    - [Pattern]: model/pattern.go, the predicates by which a subscription
      selects tracks ([Validate], [Match], [MatchTracks]).
    - [Messages]: proto/message.ext.go, model/messages.go, model/common.go.
      The messages of the cluster behind the type class [RoomMessage] (the Go
      interface) with one instance per message, and the class
      [RoomMessageLaws] of what the clients of the interface rely on.
    - [Messager]: signal/messager.go with the topic names of signal/kafka.go.
      Registration of handlers by room pattern, delivery on the node, and the
      way of a message through Kafka.  One class ([Kind]) stands for the ten
      copies of the same code; each copy is an instance-level definition.
    - [MsgCbs]: signal/signal.go, the callbacks of a connection by event.
    - [Contexts]: utils/context.go, the context the servers run under, and the
      context that ends with the first of two.
    - [Registry]: signal/global.go, the contexts of the connected clients by id
      and by user.
    - [Auth]: auth/main.go, the tokens, and the two handlers that admit a client
      (signal/socketio.go, signal/websocket.go).
    - [Token]: client/token.go and the auth server (authserver/main.go with
      middleware/gin.go), from the request of a client to the token.
    - [Config]: config/model.go, settings, defaults, validation, replicas.
    - [Log]: log/main.go, the adapters of the logger, and the log of sent messages.
    - [Kafka]: signal/kafka.go, the options of the client and the consumers of
      the assigned partitions as a step relation; [KafkaGroup]: one partition
      over its assignments, revocations and losses, with the committed offset;
      [Cluster]: the options the messager gives its client, the loop that polls,
      and a cluster of nodes over one log, with the handlers of [Messager].
    - [Redis], [RedisClient]: signal/redis.go, addresses and credentials, and the
      options of the client of each mode, with pkg/common/reflect.go.
    - [WsSignal]: websocket/signal.go, one end of a WebSocket connection: the
      text format, the message ids, the calls that wait for an acknowledgement.
      [WsPeers] puts a client and a server together, with the texts under way
      between them, as a step relation.
    - [SocketIo]: the server's two implementations of a signal,
      signal/socketio.go and signal/websocket.go.
    - [Packets]: the datagrams of signal/router.go, and [NewUUID].
    - [Routing]: the accepters and the router of signal/router.go with the
      subscriptions of signal/model.go, on one shared store ([World]), because
      the two sides hold pointers to each other.  [RoutingInv],
      [RoutingAccept] and [RoutingProps] hold the invariant, the accepting of
      tracks, and the properties, where calls come one after the other.
      [RoutingConc]: accepting, updating and closing of subscriptions and the
      closing of accepters as goroutines that interleave at their mutexes.
      [RouterServer]: calls of the router that
      run at the same time, step by step under its mutex, with the start of its
      server and of the connections to other nodes.
    - [Publication]: the publications of signal/model.go: binding to the
      remote tracks, announcing, the consumers of a track and the forwarding
      of what is read to the router's channels.  [RecordLoop] is the goroutine
      that feeds a segmenter, against the interface [SegmenterOps].
    - [Rooms]: the room membership and the message handlers of
      [SignalContext] in signal/model.go.  [Forwarding]: its handlers of
      published tracks, and the way of a subscription between two nodes.
    - [Session]: the life of a [SignalContext] from [InitSignal] (signal/main.go)
      to [SelfClose] (signal/model.go), with [Subscribe] and the callbacks of
      signal/callback.go, over one node: messager, registry, router and the
      context.  [SessionProps] has the steps a context takes, the invariant and
      the properties.  [Admission] puts [Token], [Auth] and [Session] together:
      what the signal servers do with a new connection.
    - [Handlers]: the requests of a client, the functions [InitSignal] registers,
      from the parsed arguments through [Session] to the answer of [Errors].
    - [Negotiation]: the handlers of SDP descriptions and ICE candidates and
      [StartNegotiate], as goroutines that run step by step.  [PeerConn]: the
      codecs, and making, watching and closing the peer connection.
    - [Metrics]: signal/prom.go, the counters, driven by [PeerConn].
    - [Server]: signal/global.go ([NewGlobal], [NewMongo]), signalserver/main.go,
      authserver/main.go and entry/main.go, what each server sets up and how the
      program stops; [Startup]: config/main.go and cmd/server/main.go.
    - [Client]: the state of the client library, client/websocket.go: the
      participants of the rooms with their callbacks, the waiting
      acknowledgements and the ping channels.
    - [WaitPart]: waiting for a participant of a room, step by step.
    - [ClientMsgs]: messages, pings and the user of a client (client/websocket.go,
      client/client.go).
    - [CustomMsg]: custom messages and their acknowledgements, from one client
      over both contexts to the other and back.
    - [KeepAlive]: the watching of another client, in rounds, and the channels
      of pings with their mutex.
    - [ClientConn]: the connection the callers of a client share, step by step,
      and the calls that use it.
    - [Facade]: the interfaces [Signal] and [Client] (client/signal.go,
      client/client.go), the client that forwards, the signal that implements
      them, and the signal of a room.  The server is behind the class
      [SignalServer]; the node of [Session] with [Handlers] is an instance.
    - [SampleBuilder]: pkg/samplebuilder/samplebuilder.go, the whole file.
      [SampleRing] and [SampleWindow] relate the ring of slots to the list of
      slots between tail and head, [SampleInv] is the abstract state and its
      invariant, [SamplePush] and [SamplePop] the refinement of [Push] and
      [pop] and the properties.
    - [Dts]: pkg/segmenter/h264dtsextractor.go, decoding times from pictures.
    - [SegmenterUtils]: the functions of pkg/segmenter on bytes and times:
      splitting into NAL units, media times, bandwidth.
    - [Segmenter]: pkg/segmenter/segmenter.go and storage.go.  Samples live on a
      heap, since a sample in the queue is changed after it was put into a
      part; tracks and segmenter are one record.  [SegmenterProps] has the
      invariant and the properties.
    - [RtpStats]: signal/rtp.go, the statistics of a stream.
    - [Recorder]: signal/record.go, the database entry of a recording, fed by
      the announcements of the segmenter.
    - [Templates]: the tags in the paths of recordings and in record keys
      (pkg/segmenter/segmenter.go, signal/model.go, pkg/common/reflect.go).

    ** How state and operations correspond to the code

    A struct is a record, a pointer that may be nil an option, a map a
    [gmap], a Go map that is ranged over is enumerated in an arbitrary order
    given by a parameter with the hypothesis that it is a permutation of the
    entries.  One definition models one function or method, under its name
    where that is free (methods of several types carry the type's name).  Code
    that mutates takes and returns the state.  A loop that is not structural
    takes fuel; the properties about it prove that the fuel given is enough.
    Packages outside the repository are parameters: uuid and rtp ([Packets]),
    webrtc tracks and the answers of the peer connection ([Routing],
    [Publication]), the
    protobuf codec and the Kafka producer ([Messager]), the depacketizer
    ([SampleBuilder]), H.264 headers, fMP4 and playlist encoders and the file system
    ([Dts], [Segmenter]), JSON ([WsSignal], [Auth]), mapstructure ([CustomMsg],
    [Handlers]), HTTP ([Session], [Token]), AES-GCM and SHA-1 ([Auth]), the media
    engine ([PeerConn]), the structs of go-redis ([RedisClient]), the loader of
    settings ([Startup]), zap ([Log]), MongoDB ([Recorder], [Server]) and the template parser ([Templates]), each with its documented behaviour as the laws of a
    class.

    ** What the theorems show

    - Rooms and messages.  [MatchRoom] decides the glob relation and panics
      exactly on malformed input; [Collect] returns what is stored under the
      matching patterns; a message starts one goroutine for each handler
      registered under a matching pattern, and what is emitted is delivered
      once on every node ([Messager]).  A client is only in rooms its token
      entitles it to, announces itself once per room it joins, and gets exactly
      the messages of its rooms that are addressed to it, without the names of
      the nodes ([Rooms]).
    - Subscriptions and routing.  However the calls of subscriptions and
      the closing of accepters interleave, the references of an open accepter are
      exactly those of the tracks held of it, of the tracks about to be stored and
      of those that were lost, and its bindings are those of the holders when
      nothing is lost or under way ([routing_invariant]); closing a
      subscription on its own returns, releases one reference of each accepter it uses
      and disturbs nobody else; the end of a stream detaches every
      subscription; a packet reaches, unchanged, the accepter of every node
      that asked for its track; the datagram formats round trip and the
      receiver never confuses them.  Calls that run at the same time have the
      effect of calls one after the other, and return ([router_linearizable],
      [router_calls_return]).  From a request to subscribe on one node to the
      packets of the selected track on it: [subscription_flows].
    - The life of a context.  However it was opened, in parts, and used, a
      closed context is not registered, holds no track and has no publication,
      and leaves no handler unless it was closed while it was being opened; closing
      by id works as long as it is registered and releases exactly what its
      subscriptions hold ([nothing_left], [SelfClose_correct]).  Of the requests
      join, leave, publish, subscribe, user-info, ping and pong one that is
      served is acknowledged once when it can be, and one that fails is answered
      once and changes nothing ([requests_answered]).  No ICE candidate is lost or given twice, whatever
      the order of candidates and descriptions ([candidates_delivered]).  At most
      one peer connection is made, and its calls return ([one_peer],
      [peer_calls_return]).  The same messages reach the same callbacks over
      Socket.IO and over a WebSocket, apart from custom messages that cannot be
      decoded ([signals_agree]).
    - The way of a client ([client_joins]), from the query for a token
      ([GetToken_admitted]) through its admission to its place in a room.
    - The client library.  The participants a client knows do not depend on
      the order in which join and leave messages arrive; a custom message
      reaches its addressee and its answer the waiting call, once; undisturbed
      watching ends exactly when enough rounds in a row are missed
      ([keep_alive_detects]); a client has at most one signal that is not closed and
      one goroutine that connects, and a call is given what the client holds
      ([one_connection]); who waits for a participant
      misses no join ([no_missed_join]); a ping is answered ([ping_answered]);
      what a client says of its rooms is true of the server, whatever calls it
      made and connections it lost, as long as no answer to a leave was lost ([client_rooms_agree]).
    - Publications.  A request is answered with exactly the bound tracks it
      selects; what is read of a track goes once and in order to each consumer,
      and at the end of the stream every consumer is removed and the reader's
      channel is closed once ([track_read_through]); a recording writes each packet
      at most once and gives up no segmenter without closing it ([recording_safe]).
    - The sample builder.  Any sequence of operations keeps the ring well
      formed, as the code's own [check] defines it; no packet is lost; a
      popped sample is a frame.
    - Connections.  Whatever the interleaving, a call over a WebSocket returns
      only what the other end answered to that very call, and an answer on the
      wire reaches its call; callbacks run in order; the registry of contexts is a finite map by id, and
      by user as long as ids are not taken twice ([registry_refines]).
    - Recordings.  Decoding times increase strictly on any input; splitting
      undoes joining; in every reachable state of a segmenter the byte ranges
      of the playlists tile the files; what writing a sample, closing and
      announcing do; recording the announcements of a segmenter in order leaves
      one document, that of the last.
    - Running a node.  A token is decoded to the identity it was made from and
      admits its holder until its deadline; a configuration is accepted
      exactly when it is complete, and replicas do not clash; each assigned
      partition's records reach the worker in order and exactly these are
      marked, none is skipped over rebalances and each is given once as long as
      nothing is lost ([records_delivered]); the nodes of a cluster read one log, and a
      record starts at each other node what the message itself starts among the
      handlers registered there ([cluster_delivers]); the program stops exactly when a server ends after the
      start, fatally unless the cause is [context.Canceled] ([node_stops]).  Further theorems: the codec table is complete
      ([RegisterLeastCodecs_ok]), the client of Redis that is made
      ([MakeRedisClient_correct]), collectors never clash ([NewMetrics_ok],
      [NewGlobal_correct]), every route is under its middleware
      ([routes_covered]), the precedence of settings ([config_precedence]).
    - Statistics of a stream, which nothing in the program uses yet: the positions
      stay inside their rings as long as [Push] returns ([Push_wf]); it may
      panic or wait for its own mutex ([hole_panics], [gap_deadlocks]).
    - Helpers.  The removals of [Collection] are filters in order, or up to
      a permutation, and terminate; codecs and ids round trip.

    Some properties show behaviour the code does not mean to have: a client
    never leaves a room ([LeaveRoom_stays]), accepting a track after its stream
    ended does not return ([AcceptTrack_after_eof_diverges]), a setup is never
    taken as acknowledged ([setup_handshake]), the end of a stream is not sent
    to the other nodes ([eof_not_forwarded]), a record without router stops a
    Kafka worker ([onTopic_no_router]).  Further such facts are theorems beside
    them: [SortedSliceAppendNoRepeat_repeats], [SubscribeMessage_Validate_nil],
    [NewPacketFromBuf_overflow], [update_pattern_leaks_reference],
    [update_same_pattern_drops], [select_twice_duplicates],
    [bind_starves_second], [leave_callback_on_stale_leave], [impossible_reachable],
    [pop_wrapped_frame_cut], [force_pop_not_empty], [duplicated_sample],
    [av1_panics], [mixed_start_codes], [negative_offset],
    [average_bandwidth_overflow], [handler_blocks], [bad_id_panics],
    [evt_semicolon_panics], [bad_json_delivered], [early_custom_panics],
    [panic_duplicates], [early_failure_lost], [disabled_auth_stops],
    [id_taken_over], [websocket_ignores_deadline], [bad_id_both],
    [default_deadline], [nodeName_unchecked], [negative_replicas],
    [record_out_of_order], [addrs_of_commas], [auth_lost], [second_is_minute],
    [auth_field], [retries_in_vain], [init_again], [close_during_init],
    [unmatched_answer_locks], [double_unlock], [nil_signal_returned],
    [waits_on_nil], [failed_dial_kept], [handlers_doubled], [wake_race],
    [ping_deadlock], [pong_callbacks_leak], [ended_client_spins],
    [end_unnoticed], [io_answer_error], [late_answer_blocks], [node_auth_lost],
    [single_url_cluster], [sentinel_url_panics], [shallowCopy_missing],
    [gap_deadlocks], [hole_panics], [wrap_empties], [empty_size],
    [last_frame_lost], [timeout_lost], [closed_peer_uncounted],
    [reconnect_counted_twice], [failed_negative], [auth_health_ignored],
    [disabled_auth_race], [all_early_stuck], [close_param_lost],
    [server_log_extra], [unready_stays], [lost_redelivers],
    [self_lock_for_ever], [router_locks_up], [external_loop_error],
    [setup_loop_errors], [two_rooms_duplicate], [join_all_unknown],
    [offline_says_in], [close_deadlock], [accept_closed],
    [undecodable_differs], [failed_remote_strands].

    ** Bounds and fuel

    [matchRoom_loop] gets one unit of fuel per segment of the pattern and
    [MatchRoom_correct] shows that this is enough.  [Push] calls itself at most
    once, on an emptied builder: two levels.  The loops of the sample builder
    get the length of the ring plus one.  The invariant of the builder is
    proved for at most 16383 late packets, since for larger rings the 16-bit
    index arithmetic of [Push] wraps; the code's own constructor allows up to
    32767.  [Router_AcceptTrack] returns in its first iteration or never.
    Reference counts are unbounded integers.  [split_loop] gets one unit of fuel
    per byte and one more, and [split_join] shows that it always ends.  The two
    ends of a connection are modelled for less than 2^63 messages each, so that
    message ids do not wrap, and for events without a semicolon.  Times in
    templates are nanoseconds since 1970 in UTC.  The rings of [RtpStats] have
    less than 16384 places, so that int16 positions do not overflow.  The ids of
    callbacks in [WaitPart] stay below 2^63.  A call on the peer connection takes
    at most four steps, one on the router at most seven.  Tokens are dated before 2^62 seconds, and texts that go
    into one are UTF-8, which JSON keeps.

    ** Not modelled

    Log lines, apart from those of sent messages; the sockets, goroutines and
    channels themselves (one iteration of each loop is a step); the goroutine
    that repeats the setup datagram until it is acknowledged, which does nothing
    but send; gin, Socket.IO and nbio, whose handlers are modelled; the
    upgrade of a connection, which is taken to succeed; getters that only return a
    field; pkg/mpd, which declares the structs of a DASH manifest that nothing
    writes or reads; helpers of
    tests (utils/test.go) and experiments
    (cmd/try).  Operations that take a mutex are
    atomic steps, except in [RoutingConc], [Negotiation], [PeerConn], [WaitPart], [KeepAlive],
    [ClientConn] and [RouterServer]: so the operations of [Routing] are
    what a call does when no other touches the same subscription or accepter
    ([accept_alone]), and the requests and closings of a context in [SessionProps] run
    one after the other, except that closing may come between the parts of
    [InitSignal].  The theorems of [RoutingConc] are about safety: that the calls
    return does not hold, see [close_deadlock].  In [Facade] the calls of one client come one after the other, and the
    server changes the rooms of its context only for the requests of this client.
    The random ids of publications and subscriptions are lists given to
    the requests, one of which is new.

    ** What is left

    The passing of a signal's end to its context, which the libraries of the two
    transports do, and the calls of one client at the same time over [Facade]:
    [ClientConn] has them for the connection only. *)
From stdpp Require Export base gmap strings list fin_maps.
From Stdlib Require Export ZArith Lia.
From Stdlib Require Sorted.

Set Default Proof Using "Type".

(** ** Execution of Go code

    Go code may return, panic, or (for an unbounded loop modelled with
    fuel) fail to finish.  [run A] is the type of such executions; the
    two failing outcomes are kept apart so that a theorem can say that
    the code panics and not merely that it does not return. *)

(** Values a Go program panics with. *)
Inductive panic_value :=
  | PNilDeref                       (** nil pointer dereference *)
  | PIndex                          (** index or slice bound out of range *)
  | PCode (code : Z)                (** a [*errors.ConferenceError], by its code *)
  | PMsg (msg : string).            (** any other value *)

Inductive abort :=
  | Panic (v : panic_value)
  | NoFuel.

Inductive run (A : Type) :=
  | Ret (a : A)
  | Abort (x : abort).
Arguments Ret {A} _.
Arguments Abort {A} _.

#[global] Instance run_ret : MRet run := @Ret.
#[global] Instance run_bind : MBind run := fun A B f m =>
  match m with Ret a => f a | Abort x => Abort x end.
#[global] Instance run_fmap : FMap run := fun A B f m =>
  match m with Ret a => Ret (f a) | Abort x => Abort x end.

Definition go_panic {A} (v : panic_value) : run A := Abort (Panic v).

#[global] Instance panic_value_eq_dec : EqDecision panic_value.
Proof. solve_decision. Defined.
#[global] Instance abort_eq_dec : EqDecision abort.
Proof. solve_decision. Defined.
#[global] Instance run_eq_dec `{EqDecision A} : EqDecision (run A).
Proof. solve_decision. Defined.

(** [l[i]] of a Go slice: panics out of range. *)
Definition go_index {A} (l : list A) (i : Z) : run A :=
  if (i <? 0)%Z then go_panic PIndex
  else match l !! Z.to_nat i with
       | Some x => Ret x
       | None => go_panic PIndex
       end.

(** [l[a:b]] of a slice whose capacity is its length: panics out of range. *)
Definition go_slice {A} (l : list A) (a b : Z) : run (list A) :=
  if ((0 <=? a) && (a <=? b) && (b <=? Z.of_nat (length l)))%Z
  then Ret (take (Z.to_nat (b - a)) (drop (Z.to_nat a) l))
  else go_panic PIndex.

(** [copy(l[a:b], src)]: the new contents of [l]; callers keep
    [a <= b <= len(l)]. *)
Definition go_copy {A} (l : list A) (a b : nat) (src : list A) : list A :=
  let n := Nat.min (b - a) (length src) in
  take a l ++ take n src ++ drop (a + n) l.

(** [p.f] of a possibly nil pointer. *)
Definition go_deref {A} (p : option A) : run A :=
  match p with Some x => Ret x | None => go_panic PNilDeref end.

Lemma bind_ret_inv {A B} (f : A -> run B) (m : run A) b :
  (m ≫= f) = Ret b -> exists a, m = Ret a /\ f a = Ret b.
Proof. destruct m; cbn; [eauto | discriminate]. Qed.

Lemma bind_ret_l {A B} (f : A -> run B) a : (Ret a ≫= f) = f a.
Proof. reflexivity. Qed.

Lemma bind_abort {A B} (f : A -> run B) x : (Abort x ≫= f) = Abort x.
Proof. reflexivity. Qed.

Lemma go_index_some {A} (l : list A) (i : Z) x :
  (0 <= i)%Z -> l !! Z.to_nat i = Some x -> go_index l i = Ret x.
Proof. intros Hi H. unfold go_index. destruct (Z.ltb_spec i 0); [lia|]. by rewrite H. Qed.

Lemma go_slice_ok {A} (l : list A) (a b : nat) :
  a <= b <= length l -> go_slice l (Z.of_nat a) (Z.of_nat b) = Ret (take (b - a) (drop a l)).
Proof.
  intros H. unfold go_slice.
  destruct (Z.leb_spec 0 (Z.of_nat a)); [|lia].
  destruct (Z.leb_spec (Z.of_nat a) (Z.of_nat b)); [|lia].
  destruct (Z.leb_spec (Z.of_nat b) (Z.of_nat (length l))); [|lia]. cbn [andb]. repeat f_equal; lia.
Qed.

Lemma go_slice_panics {A} (l : list A) (a b : Z) :
  (b < a \/ Z.of_nat (length l) < b)%Z -> go_slice l a b = go_panic PIndex.
Proof.
  intros H. unfold go_slice.
  destruct (Z.leb_spec 0 a), (Z.leb_spec a b), (Z.leb_spec b (Z.of_nat (length l))); cbn [andb]; first [done | lia].
Qed.

Lemma length_go_copy {A} (l : list A) a b src :
  a <= b <= length l -> length (go_copy l a b src) = length l.
Proof. intros H. unfold go_copy. rewrite !length_app, !length_take, length_drop. lia. Qed.

(** Invert the monadic steps of a hypothesis that a computation returned. *)
Ltac run_inv :=
  repeat match goal with
  | H : (_ ≫= _) = Ret _ |- _ =>
      apply bind_ret_inv in H; let E := fresh "E" in destruct H as (? & E & H)
  | H : Ret _ = Ret _ |- _ => injection H as H; subst
  | H : go_panic _ = Ret _ |- _ => discriminate H
  | H : Abort _ = Ret _ |- _ => discriminate H
  end.

(** ** Go errors

    An [error] value is a [*ConferenceError] known by its code, or any
    other error, known by a tag.  The formatted message text is not
    modelled. *)
Inductive gerror :=
  | EConf (code : Z)
  | EOther (tag : string).

#[global] Instance gerror_eq_dec : EqDecision gerror.
Proof. solve_decision. Defined.

(** [panic(err)]. *)
Definition err_panic {A} (e : gerror) : run A := match e with EConf c => go_panic (PCode c) | EOther m => go_panic (PMsg m) end.

(** ** Machine integers

    A w-bit integer is the [Z] it denotes; the wrap-around of each
    arithmetic operation is written out with these functions. *)
Section Wrap.
Local Open Scope Z_scope.
#[local] Ltac Zify.zify_post_hook ::= Z.to_euclidean_division_equations.

Definition u8 (z : Z) : Z := z mod 256.
Definition u16 (z : Z) : Z := z mod 65536.
Definition u32 (z : Z) : Z := z mod 4294967296.
Definition u64 (z : Z) : Z := z mod 18446744073709551616.
Definition i16 (z : Z) : Z := (z + 32768) mod 65536 - 32768.
Definition i32 (z : Z) : Z := (z + 2147483648) mod 4294967296 - 2147483648.
Definition i64 (z : Z) : Z :=
  (z + 9223372036854775808) mod 18446744073709551616 - 9223372036854775808.

Definition is_u16 (z : Z) : Prop := 0 <= z < 65536.
Definition is_u32 (z : Z) : Prop := 0 <= z < 4294967296.
Definition is_u64 (z : Z) : Prop := 0 <= z < 18446744073709551616.
Definition is_i64 (z : Z) : Prop :=
  -9223372036854775808 <= z < 9223372036854775808.

Lemma u8_range z : 0 <= u8 z < 256.
Proof. unfold u8. lia. Qed.
Lemma u16_range z : 0 <= u16 z < 65536.
Proof. unfold u16. lia. Qed.
Lemma u32_range z : 0 <= u32 z < 4294967296.
Proof. unfold u32. lia. Qed.
Lemma u64_range z : 0 <= u64 z < 18446744073709551616.
Proof. unfold u64. lia. Qed.
Lemma i64_range z : is_i64 (i64 z).
Proof. unfold i64, is_i64. lia. Qed.
Lemma i32_range z : -2147483648 <= i32 z < 2147483648.
Proof. unfold i32. lia. Qed.

Lemma u8_id z : 0 <= z < 256 -> u8 z = z.
Proof. apply Z.mod_small. Qed.
Lemma u16_id z : 0 <= z < 65536 -> u16 z = z.
Proof. apply Z.mod_small. Qed.
Lemma u32_id z : 0 <= z < 4294967296 -> u32 z = z.
Proof. apply Z.mod_small. Qed.
Lemma u64_id z : 0 <= z < 18446744073709551616 -> u64 z = z.
Proof. apply Z.mod_small. Qed.
Lemma i64_id z : is_i64 z -> i64 z = z.
Proof. unfold is_i64, i64. intros. rewrite Z.mod_small; lia. Qed.
Lemma i32_id z : -2147483648 <= z < 2147483648 -> i32 z = z.
Proof. unfold i32. intros. rewrite Z.mod_small; lia. Qed.
Lemma i16_id z : -32768 <= z < 32768 -> i16 z = z.
Proof. unfold i16. intros. rewrite Z.mod_small; lia. Qed.
End Wrap.

Create HintDb goints.
Create Rewrite HintDb goints_rw.
#[export] Hint Resolve u8_range u16_range u32_range u64_range i64_range i32_range : goints.
#[export] Hint Rewrite u8_id u16_id u32_id u64_id i64_id i32_id i16_id using lia : goints_rw.

(** Linear arithmetic with the wrap-around functions unfolded. *)
Ltac wrap_lia :=
  unfold u8, u16, u32, u64, i16, i32, i64, is_u16, is_u32, is_u64, is_i64 in *;
  Z.to_euclidean_division_equations; lia.

(** ** Generic lemmas on lists *)
Section Lists.
Context {A : Type}.
Implicit Types l : list A.

Lemma filter_split (P : A -> Prop) `{forall x, Decision (P x)} l :
  filter P l ++ filter (fun x => ~ P x) l ≡ₚ l.
Proof.
  induction l as [|x l IH]; [done|].
  rewrite !filter_cons. destruct (decide (P x)) as [HP|HP].
  - rewrite decide_False by tauto. cbn. by rewrite IH.
  - rewrite decide_True by done. rewrite <- Permutation_middle. by rewrite IH.
Qed.

Lemma filter_all (P : A -> Prop) `{forall x, Decision (P x)} l : Forall P l -> filter P l = l.
Proof. induction 1 as [|x l Hx _ IH]; [done|]. by rewrite filter_cons, decide_True, IH. Qed.

Lemma StronglySorted_lookup (R : A -> A -> Prop) l i j x y :
  Stdlib.Sorting.Sorted.StronglySorted R l -> l !! i = Some x -> l !! j = Some y -> i < j -> R x y.
Proof.
  intros Hs. revert i j. induction Hs as [|z l Hs IH Hz]; intros i j Hx Hy Hij; [done|].
  destruct i as [|i], j as [|j]; try lia; cbn in *.
  - injection Hx as ->. eapply Forall_forall; [exact Hz|]. by eapply list_elem_of_lookup_2.
  - eapply IH; eauto. lia.
Qed.

(** What is found after writing to a place of a list. *)
Lemma lookup_put l i x j y : <[i := x]> l !! j = Some y -> (i = j /\ x = y) \/ (i <> j /\ l !! j = Some y).
Proof. intros Hj. apply list_lookup_insert_Some in Hj as [(? & ? & _)|[? ?]]; auto. Qed.

Lemma take_insert_drop l i x :
  i < length l -> <[i:=x]> l = take i l ++ x :: drop (S i) l.
Proof. intros Hi. by rewrite insert_take_drop. Qed.

End Lists.
