(* ===== verification/GoStrings.v ===== *)
(** * The part of Go's [strings] package the program uses

    Strings are Stdlib's [string] (bytes); separators are single
    characters, as at every call site of the program.  [Split] is
    characterised by [Join]: splitting loses nothing and no part holds
    the separator. *)
From S2P Require Import Prelude.
Local Open Scope string_scope.

(** [strings.Split(s, sep)] for a one-character separator. *)
Fixpoint Split (sep : Ascii.ascii) (s : string) : list string :=
  match s with
  | "" => [""]
  | String c s' =>
      if decide (c = sep) then "" :: Split sep s'
      else match Split sep s' with
           | p :: ps => String c p :: ps
           | [] => [String c ""]
           end
  end.

(** [strings.Join(l, sep)]. *)
Fixpoint Join (sep : string) (l : list string) : string :=
  match l with
  | [] => ""
  | [x] => x
  | x :: l' => x +:+ sep +:+ Join sep l'
  end.

(** [strings.HasPrefix(s, p)], [strings.HasSuffix(s, p)], [strings.Contains(s, p)]. *)
Definition HasPrefix (s p : string) : bool := String.prefix p s.

Fixpoint HasSuffix (s p : string) : bool :=
  if decide (s = p) then true
  else match s with "" => false | String _ s' => HasSuffix s' p end.

Fixpoint Contains (s p : string) : bool :=
  if String.prefix p s then true
  else match s with "" => false | String _ s' => Contains s' p end.

(** Does the character occur in the string. *)
Fixpoint has_char (c : Ascii.ascii) (s : string) : bool :=
  match s with
  | "" => false
  | String a s' => if decide (a = c) then true else has_char c s'
  end.

(** [strings.Index(s, c)] for a one-character needle, with the two
    substrings around it: [Some (s[:i], s[i+1:])]. *)
Fixpoint cut_at (c : Ascii.ascii) (s : string) : option (string * string) :=
  match s with
  | "" => None
  | String a s' =>
      if decide (a = c) then Some ("", s')
      else match cut_at c s' with
           | Some (l, r) => Some (String a l, r)
           | None => None
           end
  end.

(** [strings.ToLower] and [strings.TrimSpace] on ASCII text. *)
Definition lower_char (a : Ascii.ascii) : Ascii.ascii :=
  let n := Ascii.nat_of_ascii a in
  if decide (65 <= n <= 90) then Ascii.ascii_of_nat (n + 32) else a.

Fixpoint ToLower (s : string) : string :=
  match s with "" => "" | String a s' => String (lower_char a) (ToLower s') end.

Definition is_space (a : Ascii.ascii) : bool :=
  let n := Ascii.nat_of_ascii a in bool_decide (n = 32 \/ 9 <= n <= 13).

Fixpoint TrimLeft (s : string) : string :=
  match s with
  | "" => ""
  | String a s' => if is_space a then TrimLeft s' else s
  end.

Fixpoint TrimRight (s : string) : string :=
  match s with
  | "" => ""
  | String a s' =>
      match TrimRight s' with
      | "" => if is_space a then "" else String a ""
      | t => String a t
      end
  end.

Definition TrimSpace (s : string) : string := TrimRight (TrimLeft s).

(** ** Lemmas *)

Lemma app_string_nil_l (s : string) : "" +:+ s = s.
Proof. reflexivity. Qed.

Lemma app_string_cons c (s1 s2 : string) : String c s1 +:+ s2 = String c (s1 +:+ s2).
Proof. reflexivity. Qed.

Lemma app_string_assoc (s1 s2 s3 : string) : (s1 +:+ s2) +:+ s3 = s1 +:+ s2 +:+ s3.
Proof. induction s1; [done|]. rewrite !app_string_cons. congruence. Qed.

Lemma app_string_nil_r (s : string) : s +:+ "" = s.
Proof. induction s; [done|]. rewrite app_string_cons. congruence. Qed.

Lemma Split_ne sep s : Split sep s <> [].
Proof. destruct s; cbn; [done|]. case_decide; [done|]. by destruct (Split sep s). Qed.

Lemma Split_cons sep s : exists p ps, Split sep s = p :: ps.
Proof. destruct (Split sep s) eqn:E; [by apply Split_ne in E | eauto]. Qed.

(** Splitting and joining with the same separator is the identity. *)
Lemma Join_Split sep s : Join (String sep "") (Split sep s) = s.
Proof.
  induction s as [|c s IH]; [done|]. cbn [Split].
  destruct (Split_cons sep s) as (p & ps & E). rewrite E in *.
  case_decide as Hc.
  - subst c. change (Join (String sep "") ("" :: p :: ps))
      with (String sep (Join (String sep "") (p :: ps))). by rewrite IH.
  - rewrite <- IH. by destruct ps.
Qed.

Lemma Split_inj sep s1 s2 : Split sep s1 = Split sep s2 -> s1 = s2.
Proof. intros H. rewrite <- (Join_Split sep s1), H. apply Join_Split. Qed.

Lemma Split_no_sep sep s : Forall (fun p => has_char sep p = false) (Split sep s).
Proof.
  induction s as [|c s IH]; cbn [Split]; [by repeat constructor|].
  case_decide; [constructor; done|].
  destruct (Split sep s) as [|p ps]; [repeat constructor; cbn; by rewrite decide_False|].
  inversion IH; subst. constructor; [cbn; by rewrite decide_False | done].
Qed.

(** A character that is not in the string is in none of its parts. *)
Lemma Split_has_char sep c s :
  has_char c s = false -> Forall (fun p => has_char c p = false) (Split sep s).
Proof.
  induction s as [|a s IH]; cbn [Split has_char]; intros H; [by repeat constructor|].
  case_decide as Ha; [done|]. specialize (IH H).
  case_decide; [by constructor|].
  destruct (Split sep s) as [|p ps]; [repeat constructor; cbn; by rewrite decide_False|].
  inversion IH; subst. constructor; [cbn; by rewrite decide_False | done].
Qed.

Lemma Split_has_char_iff sep c s : c <> sep ->
  has_char c s = false <-> Forall (fun p => has_char c p = false) (Split sep s).
Proof.
  intros Hne. split; [apply Split_has_char|].
  induction s as [|a s IH]; [done|]. cbn [Split has_char].
  destruct (Split_cons sep s) as (p & ps & E). rewrite E in *.
  case_decide as Ha; inversion 1; subst; [rewrite decide_False by congruence; auto|].
  cbn in *. case_decide; [done|]. by apply IH; constructor.
Qed.

Lemma Contains_char c s : Contains s (String c "") = has_char c s.
Proof.
  induction s as [|a s IH]; [done|]. cbn [Contains has_char String.prefix].
  case_decide; destruct (Ascii.ascii_dec c a); try congruence. by destruct s.
Qed.

(** [cut_at] finds the first occurrence. *)
Lemma cut_at_spec c s l r :
  cut_at c s = Some (l, r) -> s = l +:+ String c r /\ has_char c l = false.
Proof.
  revert l r. induction s as [|a s IH]; cbn; intros l r H; [done|].
  case_decide as Ha; [injection H as <- <-; by subst|].
  destruct (cut_at c s) as [[l' r']|]; [|done]. injection H as <- <-.
  destruct (IH l' r' eq_refl) as [-> Hl]. cbn. by rewrite decide_False.
Qed.

Lemma cut_at_app c l r :
  has_char c l = false -> cut_at c (l +:+ String c r) = Some (l, r).
Proof.
  induction l as [|a l IH]; intros Hl.
  - rewrite app_string_nil_l. cbn. by rewrite decide_True.
  - rewrite app_string_cons. cbn in *. case_decide; [done|]. by rewrite IH.
Qed.

Lemma cut_at_none c s : cut_at c s = None <-> has_char c s = false.
Proof.
  induction s as [|a s IH]; cbn; [done|]. case_decide; [done|].
  destruct (cut_at c s) as [[]|]; [|done]. split; [done|]. intros H'. by apply IH in H'.
Qed.

Lemma substring_full s : String.substring 0 (String.length s) s = s.
Proof. induction s as [|a s IH]; cbn; congruence. Qed.
