(* ===== verification/Strconv.v ===== *)
(** * Strconv: decimal numbers as Go prints and parses them

    [strconv.FormatUint] / the verb [%d], and [strconv.ParseUint] in base 10,
    on the decimal numbers of the Standard Library. *)
From S2P Require Import Prelude GoStrings.
From Stdlib Require Import DecimalString DecimalN DecimalFacts.
Local Open Scope string_scope.

Definition FormatUint (z : Z) : string := NilZero.string_of_uint (N.to_uint (Z.to_N z)).

Definition FormatInt (z : Z) : string :=
  if decide (z < 0)%Z then "-" +:+ FormatUint (- z) else FormatUint z.

(** The digits of a number, then its range; [None] for an error. *)
Definition ParseUint (s : string) (bitSize : Z) : option Z :=
  d ← NilZero.uint_of_string s;
  let z := Z.of_N (N.of_uint d) in
  if decide (z < 2 ^ bitSize)%Z then Some z else None.

Definition is_digit (c : Ascii.ascii) : Prop := 48 <= Ascii.nat_of_ascii c <= 57.

Lemma string_of_uint_chars c d : ~ is_digit c -> has_char c (NilEmpty.string_of_uint d) = false.
Proof.
  intros Hc. assert (forall a, is_digit a -> a <> c) as Hne by (intros a Ha ->; done).
  induction d as [|d IH|d IH|d IH|d IH|d IH|d IH|d IH|d IH|d IH|d IH]; cbn [NilEmpty.string_of_uint has_char]; [done|..];
    (rewrite decide_False; [exact IH|apply Hne; split; apply Nat.leb_le; reflexivity]).
Qed.

Lemma FormatUint_chars c z : ~ is_digit c -> has_char c (FormatUint z) = false.
Proof.
  intros Hc. unfold FormatUint. destruct (N.to_uint _) as [|d|d|d|d|d|d|d|d|d|d]; try (by apply string_of_uint_chars).
  cbn. rewrite decide_False; [done|]. intros <-. apply Hc. split; apply Nat.leb_le; reflexivity.
Qed.

Lemma to_uint_nonnil n : N.to_uint n <> Decimal.Nil.
Proof.
  intros H. pose proof (DecimalN.Unsigned.to_of (N.to_uint n)) as E. rewrite DecimalN.Unsigned.of_to, H in E. discriminate E.
Qed.

Lemma ParseUint_FormatUint z bits : (0 <= z < 2 ^ bits)%Z -> ParseUint (FormatUint z) bits = Some z.
Proof.
  intros Hz. unfold ParseUint, FormatUint. rewrite NilZero.usu by apply to_uint_nonnil. cbn [mbind option_bind].
  rewrite DecimalN.Unsigned.of_to, Z2N.id by lia. by rewrite decide_True by lia.
Qed.

Lemma FormatUint_inj x y : (0 <= x)%Z -> (0 <= y)%Z -> FormatUint x = FormatUint y -> x = y.
Proof.
  intros Hx Hy He.
  assert (exists b, x < 2 ^ b /\ y < 2 ^ b)%Z as (b & Hb).
  { exists (Z.max x y + 1)%Z. split; (eapply Z.le_lt_trans; [|apply Z.pow_gt_lin_r]; lia). }
  pose proof (ParseUint_FormatUint x b) as Ex. pose proof (ParseUint_FormatUint y b) as Ey. rewrite He, Ey in Ex by lia.
  injection (Ex ltac:(lia)). done.
Qed.

(** The digits of a number. *)
Definition digits (s : string) : option Z := d ← NilZero.uint_of_string s; Some (Z.of_N (N.of_uint d)).

Lemma digits_FormatUint z : (0 <= z)%Z -> digits (FormatUint z) = Some z.
Proof.
  intros Hz. unfold digits, FormatUint. rewrite NilZero.usu by apply to_uint_nonnil. cbn [mbind option_bind].
  by rewrite DecimalN.Unsigned.of_to, Z2N.id by lia.
Qed.

(** [strconv.Atoi]: a sign is allowed, and an [int] has 64 bits. *)
Definition Atoi (s : string) : option Z :=
  z ← match s with
      | String c s' =>
          if decide (Ascii.nat_of_ascii c = 45%nat) then z ← digits s'; Some (- z)%Z
          else if decide (Ascii.nat_of_ascii c = 43%nat) then digits s'
          else digits s
      | EmptyString => None
      end;
  if decide (- 2 ^ 63 <= z < 2 ^ 63)%Z then Some z else None.

Lemma Atoi_FormatUint z : (0 <= z < 2 ^ 63)%Z -> Atoi (FormatUint z) = Some z.
Proof.
  intros Hz. unfold Atoi. pose proof (digits_FormatUint z ltac:(lia)) as Hd.
  assert (forall n, (n = 45 \/ n = 43)%nat -> has_char (Ascii.ascii_of_nat n) (FormatUint z) = false) as Hc.
  { intros n Hn. apply FormatUint_chars. unfold is_digit. destruct Hn as [-> | ->]; cbv; lia. }
  destruct (FormatUint z) as [|c s] eqn:E; [done|].
  assert (forall n, (n = 45 \/ n = 43)%nat -> Ascii.nat_of_ascii c <> n) as Hn.
  { intros n Hn Ec. specialize (Hc n Hn). rewrite <- Ec, Ascii.ascii_nat_embedding in Hc. cbn in Hc. by rewrite decide_True in Hc. }
  rewrite !decide_False by (apply Hn; lia). rewrite Hd. cbn [mbind option_bind]. by rewrite decide_True by lia.
Qed.
