(* ===== verification/Errors.v ===== *)
(** * Errors: [errors/main.go], and how a failed handler is answered

    An [error] interface holds a [*ConferenceError], which may be nil, or an
    error of another package.  The text of [fmt.Errorf] is an argument: what
    matters is the operand of the verb %w.  [FinallyResponse] of
    [signal/utils.go] turns the panic of a handler into an acknowledgement or
    into the closing of the connection. *)
From S2P Require Import Prelude Strconv.
Local Open Scope Z_scope.
Local Open Scope list_scope.

Definition ERR_OK : Z := 0.
Definition ERR_FATAL : Z := 1000.
Definition INVALID_STATE : Z := 10000000.

Record CallFrame := { Filename : string; Line : Z; FuncName : string }.

#[global] Instance CallFrame_eq_dec : EqDecision CallFrame.
Proof. solve_decision. Defined.

Section Errors.
(** [interface{}] *)
Context {any : Type}.

(** [go_error] is a non-nil [error]; [EPtr None] is the interface that holds a
    nil [*ConferenceError]. *)
Inductive go_error :=
  | EPtr (e : option ConferenceError)
  | EStd (msg : string)
with ConferenceError :=
  | mkError (code : Z) (msg : string) (data : option any) (callFrames : list CallFrame) (cause_msg : string)
      (cause : option go_error).

Definition Code (e : ConferenceError) : Z := match e with mkError c _ _ _ _ _ => c end.
Definition Msg (e : ConferenceError) : string := match e with mkError _ m _ _ _ _ => m end.
Definition Data (e : ConferenceError) : option any := match e with mkError _ _ d _ _ _ => d end.
Definition CallFrames (e : ConferenceError) : list CallFrame := match e with mkError _ _ _ f _ _ => f end.
Definition Cause (e : ConferenceError) : string := match e with mkError _ _ _ _ c _ => c end.
Definition Unwrap (e : ConferenceError) : option go_error := match e with mkError _ _ _ _ _ c => c end.

(** [Error()] of an interface. *)
Definition Error (e : go_error) : run string :=
  match e with
  | EPtr (Some e) => Ret (Msg e)
  | EPtr None => go_panic PNilDeref
  | EStd m => Ret m
  end.

(** [NewError(code, msg, args...)]: [msg] is the formatted text and [cause]
    the operand of %w, if there is one. *)
Definition NewError (code : Z) (msg : string) (cause : option go_error) : run ConferenceError :=
  cause_msg ← match cause with None => Ret ""%string | Some c => Error c end;
  let '(data, frames) := match cause with Some (EPtr (Some e)) => (Data e, CallFrames e) | _ => (None, []) end in
  Ret (mkError code msg data frames cause_msg cause).

Definition FatalError (msg : string) (cause : option go_error) : run ConferenceError := NewError ERR_FATAL msg cause.

Definition MaybeWrapError (cause : go_error) : run (option ConferenceError) :=
  match cause with
  | EPtr e => Ret e
  | EStd m => e ← NewError ERR_FATAL m (Some cause); Ret (Some e)
  end.

Definition IsOk (err : option go_error) : run bool :=
  match err with
  | Some (EPtr (Some e)) => Ret (Code e =? ERR_OK)
  | Some (EPtr None) => go_panic PNilDeref
  | _ => Ret false
  end.

(** [errors.Is], as far as the program uses it: the error is one of the
    chain [target] is compared with.  Errors of other packages are compared
    by their text. *)
Fixpoint Is_std (err : go_error) (target : string) : bool :=
  match err with
  | EStd m => bool_decide (m = target)
  | EPtr None => false
  | EPtr (Some e) => Is_std_conf e target
  end
with Is_std_conf (e : ConferenceError) (target : string) : bool :=
  match e with mkError _ _ _ _ _ (Some c) => Is_std c target | mkError _ _ _ _ _ None => false end.

(** What a handler panics with, or any value: [recover()]. *)
Inductive panicked := PErr (e : go_error) | PVal (v : string).

(** [defer errors.Ignore(errs...)]: the panic that is left. *)
Definition Ignore (errs : list string) (r : option panicked) : option panicked :=
  match r with
  | Some (PErr e) => if existsb (Is_std e) errs then None else r
  | _ => r
  end.

(** ** Answers *)

(** An [ErrorMessage], or the answer to a request. *)
Record ErrorMessage := { em_Msg : string; em_Fatal : bool; em_Cause : string; em_CallFrames : list CallFrame }.

Inductive response :=
  | RAck (args : list any) (err : option ConferenceError)
  | REmitError (m : ErrorMessage)
  | RClose.

(** [ErrToString] adds the stack to the text. *)
Definition ErrToMsg (err : panicked) (cause : string) : run ErrorMessage :=
  match err with
  | PErr (EPtr (Some e)) =>
      Ret {| em_Msg := Msg e; em_Fatal := Code e =? ERR_FATAL; em_CallFrames := CallFrames e; em_Cause := cause |}
  | PErr e => m ← Error e; Ret {| em_Msg := m; em_Fatal := false; em_CallFrames := []; em_Cause := cause |}
  | PVal v => Ret {| em_Msg := v; em_Fatal := false; em_CallFrames := []; em_Cause := cause |}
  end.

Definition FatalErrorAndClose (err : panicked) (cause : string) : run (list response) :=
  m ← ErrToMsg err cause;
  Ret [REmitError {| em_Msg := em_Msg m; em_Fatal := true; em_CallFrames := em_CallFrames m; em_Cause := em_Cause m |}; RClose].

Definition ErrToString (err : panicked) : run string :=
  match err with PErr e => Error e | PVal v => Ret v end.

(** [defer FinallyResponse(s, ack, arkArgs, cause, onlyErr)]; [ack_arg] is the
    string "ack" as an argument. *)
Definition FinallyResponse (ack_arg : any) (ack : bool) (arkArgs : list any) (cause : string) (onlyErr : bool) (rawErr : option panicked)
    : run (list response) :=
  match rawErr with
  | Some r =>
      if ack then
        match r with
        | PErr e => e ← MaybeWrapError e; Ret [RAck [] e]
        | PVal v => e ← FatalError v None; Ret [RAck [] (Some e)]
        end
      else m ← ErrToString r; FatalErrorAndClose (PVal m) cause
  | None =>
      if onlyErr then Ret []
      else if ack then Ret [RAck (match arkArgs with [] => [ack_arg] | _ => arkArgs end) None]
      else Ret []
  end.

(** ** A handler

    The handlers of [InitSignal] parse their argument, and then either run
    their body in place and answer, or answer only an error in place and run
    the body in a goroutine that answers ("publish", "subscribe", "sdp").  A
    part is what it panics with, or the arguments of its answer. *)
Definition part : Type := list any + panicked.

Definition answer (ack_arg : any) (ack : bool) (cause : string) (onlyErr : bool) (p : part) : run (list response) :=
  match p with
  | inl args => FinallyResponse ack_arg ack args cause onlyErr None
  | inr r => FinallyResponse ack_arg ack [] cause onlyErr (Some r)
  end.

Definition handle_in_place (ack_arg : any) (ack : bool) (cause : string) (parse : option go_error) (body : part) : run (list response) :=
  answer ack_arg ack cause false (match parse with Some e => inr (PErr e) | None => body end).

Definition handle_async (ack_arg : any) (ack : bool) (cause : string) (parse : option go_error) (body : part) : run (list response) :=
  match parse with
  | Some e => answer ack_arg ack cause true (inr (PErr e))
  | None => here ← answer ack_arg ack cause true (inl []); there ← answer ack_arg ack cause false body; Ret (here ++ there)
  end.

(** ** Properties *)

(** A panic value that can be shown. *)
Definition proper (r : panicked) : Prop := r <> PErr (EPtr None).

Lemma Error_proper e : proper (PErr e) -> exists m, Error e = Ret m.
Proof. destruct e as [[e|]|m]; [by eexists|done|by eexists]. Qed.

Lemma answer_ack ack_arg cause onlyErr p :
  (forall r, p = inr r -> proper r) ->
  exists out, answer ack_arg true cause onlyErr p = Ret out /\
    match p with
    | inr _ => exists e, out = [RAck [] (Some e)]
    | inl args => out = if onlyErr then [] else [RAck (match args with [] => [ack_arg] | _ => args end) None]
    end.
Proof.
  destruct p as [args|r]; intros Hp; cbn; [destruct onlyErr; by eexists|].
  specialize (Hp r eq_refl). destruct r as [[[e|]|m]|v]; [|done| |]; by repeat eexists.
Qed.

Lemma answer_no_ack ack_arg cause onlyErr p :
  (forall r, p = inr r -> proper r) ->
  exists out, answer ack_arg false cause onlyErr p = Ret out /\
    match p with
    | inr _ => exists m, out = [REmitError m; RClose] /\ em_Fatal m = true /\ em_Cause m = cause
    | inl _ => out = []
    end.
Proof.
  destruct p as [args|r]; intros Hp; cbn; [destruct onlyErr; by eexists|].
  specialize (Hp r eq_refl). destruct r as [[[e|]|m]|v]; [|done| |]; by repeat eexists.
Qed.

(** A request is answered exactly once.  With an acknowledgement: by the
    error of the parser or of the handler, or by its results; without one, a
    failure is told to the client as fatal and closes the connection, and a
    success is silent.  It does not matter whether the body runs in place or
    in a goroutine. *)
Theorem answered_once ack_arg ack cause parse body :
  (forall r, body = inr r -> proper r) -> (forall e, parse = Some e -> proper (PErr e)) ->
  exists out,
    handle_in_place ack_arg ack cause parse body = Ret out /\ handle_async ack_arg ack cause parse body = Ret out /\
    match ack, parse, body with
    | true, None, inl args => out = [RAck (match args with [] => [ack_arg] | _ => args end) None]
    | true, _, _ => exists e, out = [RAck [] (Some e)]
    | false, None, inl _ => out = []
    | false, _, _ => exists m, out = [REmitError m; RClose] /\ em_Fatal m = true /\ em_Cause m = cause
    end.
Proof.
  intros Hb Hp. unfold handle_in_place, handle_async. destruct parse as [e|].
  - assert (forall r, @inr (list any) panicked (PErr e) = inr r -> proper r) as Hr by (intros r [= <-]; by apply Hp).
    destruct ack;
      [destruct (answer_ack ack_arg cause false _ Hr) as (o1 & E1 & x1 & ->); destruct (answer_ack ack_arg cause true _ Hr) as (o2 & E2 & x2 & ->)
      |destruct (answer_no_ack ack_arg cause false _ Hr) as (o1 & E1 & x1 & -> & ?); destruct (answer_no_ack ack_arg cause true _ Hr) as (o2 & E2 & x2 & -> & ?)];
      (eexists; split; [exact E1|]; split; [|by eauto]; rewrite E2; cbn in E1, E2; by rewrite <- E1, <- E2).
  - destruct ack;
      [destruct (answer_ack ack_arg cause false body Hb) as (o1 & E1 & H1)|destruct (answer_no_ack ack_arg cause false body Hb) as (o1 & E1 & H1)];
      exists o1; (split; [exact E1|]; split; [cbn; by rewrite E1|]); destruct body; exact H1.
Qed.

(** Wrapping keeps what the client is shown of the cause; wrapping a nil
    [*ConferenceError] panics. *)
Lemma NewError_wrap code msg (e : ConferenceError) :
  exists e', NewError code msg (Some (EPtr (Some e))) = Ret e' /\ Code e' = code /\ Data e' = Data e /\ CallFrames e' = CallFrames e /\
    Cause e' = Msg e /\ Unwrap e' = Some (EPtr (Some e)).
Proof. by eexists. Qed.

Lemma NewError_nil code msg : NewError code msg (Some (EPtr None)) = go_panic PNilDeref.
Proof. reflexivity. Qed.

End Errors.

Arguments go_error : clear implicits.
Arguments ConferenceError : clear implicits.
Arguments panicked : clear implicits.
Arguments response : clear implicits.

Lemma answered_once_witness :
  exists e, handle_async (any := string) "ack" true "publish" None (inr (PErr (EStd "no such track"))) = Ret [RAck [] (Some e)] /\
    Code e = ERR_FATAL.
Proof.
  destruct (answered_once (any := string) "ack"%string true "publish" None (inr (PErr (EStd "no such track")))) as (out & _ & E & e & ->);
    [by intros r [= <-]|done|].
  exists e. split; [exact E|]. cbn in E. by injection E as <-.
Defined.

(** ** The kinds of errors, and their texts *)
Module Kinds.
Local Open Scope string_scope.
Definition CLIENT_ERR : Z := 5000.
Definition BAD_PACKET : Z := 10000.
Definition INVALID_PUB_PATTERN : Z := 11000.
Definition SUB_NOT_EXIST : Z := 12000.
Definition ROOM_NO_RIGHT : Z := 13000.
Definition INVALID_CONFIG : Z := 14000.
Definition INVALID_MESSAGE : Z := 15000.
Definition MSG_TIMEOUT : Z := 16000.
Definition SIGNAL_CONTEXT_CLOSED : Z := 20000.
(** [http.StatusUnauthorized], [http.StatusBadRequest] *)
Definition StatusUnauthorized : Z := 401.
Definition StatusBadRequest : Z := 400.

Section Kinds.
Context {any : Type}.
Implicit Type cause : option (go_error any).

Definition Ok : run (ConferenceError any) := NewError ERR_OK "" None.
Definition Unauthorized (msg : string) cause := NewError StatusUnauthorized msg cause.
Definition InvalidParam (msg : string) cause := NewError StatusBadRequest msg cause.
Definition BadPacket (msg : string) cause := NewError BAD_PACKET msg cause.
Definition ClientError (text : string) : run (ConferenceError any) := NewError CLIENT_ERR text None.
Definition InvalidPubPattern (msg : string) cause := NewError INVALID_PUB_PATTERN msg cause.
Definition RoomNoRight (room : string) : run (ConferenceError any) := NewError ROOM_NO_RIGHT ("no right for room " +:+ room) None.
Definition SubNotExist (subId : string) : run (ConferenceError any) := NewError SUB_NOT_EXIST ("the subscription " +:+ subId +:+ " does not exists") None.
Definition InvalidState (msg : string) cause := NewError INVALID_STATE msg cause.
Definition InvalidConfig (msg : string) cause := NewError INVALID_CONFIG msg cause.
Definition InvalidMessage (msg : string) cause := NewError INVALID_MESSAGE msg cause.
Definition MsgTimeout (msg : string) cause := NewError MSG_TIMEOUT msg cause.
Definition SignalContextClosed : run (ConferenceError any) := NewError SIGNAL_CONTEXT_CLOSED "the signal context is closed" None.
Definition ThisIsImpossible : run (ConferenceError any) := NewError INVALID_STATE "this is impossible, if happened, must be a bug" None.

(** [defer errors.Recover(doctors)]: the panic that is left; a doctor says whether it cured the error. *)
Definition Recover (doctors : list (string * (go_error any -> bool))) (r : option (panicked any)) : option (panicked any) :=
  match r with
  | Some (PErr e) => if existsb (fun d => Is_std e d.1 && d.2 e) doctors then None else r
  | _ => r
  end.

(** [GenCallStacks]: [frames] is what [runtime.CallersFrames] lists; the loop ends when [Next] says that no more
    follow, before it adds the frame it was given. *)
Fixpoint call_frames (frames : list CallFrame) : list CallFrame :=
  match frames with
  | [] => []
  | f :: rest => match rest with [] => [] | _ => f :: call_frames rest end
  end.
Definition GenCallStacks (frames : list CallFrame) (e : ConferenceError any) : ConferenceError any :=
  match e with mkError c m d _ cm ca => mkError c m d (call_frames frames) cm ca end.

Definition ToString (e : ConferenceError any) : string :=
  ("[" +:+ FormatInt (Code e) +:+ "] " +:+ Msg e +:+
   match CallFrames e with
   | [] => ""
   | fs => String (Ascii.ascii_of_nat 10)
             (fold_right String.append "" ((fun f => "  At " +:+ Filename f +:+ " - " +:+ FuncName f +:+ "[" +:+ FormatInt (Line f) +:+ "]") <$> fs))
   end)%string.

(** The outermost frame is lost. *)
Lemma last_frame_lost frames f e : CallFrames (GenCallStacks (frames ++ [f]) e) = frames.
Proof.
  destruct e as [c m d fs cm ca]. cbn. induction frames as [|g frames IH]; [done|]. cbn. destruct frames as [|h frames]; [done|]. cbn in *. by f_equal.
Qed.

(** An error without a cause, or with one that has a text, has its code. *)
Lemma NewError_code code msg cause e : NewError code msg cause = Ret e -> Code e = code /\ Msg e = msg /\ Unwrap e = cause.
Proof.
  unfold NewError. intros He. apply bind_ret_inv in He as (cm & _ & He). destruct cause as [[[?|]|?]|]; by injection He as <-.
Qed.
End Kinds.
End Kinds.
