(* ===== verification/Collection.v ===== *)
(** * Slices and maps: [utils/collection.go]

    The helpers the rest of the program edits its slices with.  A slice
    is a list; where a helper compacts the caller's slice in place, the
    backing array is threaded through the loop, the elements are read from
    the live array and the returned slice is a prefix of it.  A slice that
    may be nil is an option.  Go visits a map in an unspecified order: a
    function that ranges over a map takes the enumeration [range]. *)
From stdpp Require Import sorting.
From S2P Require Import Prelude.

(** The code [ERR_FATAL] of [errors.FatalError]. *)
Definition FatalError_code : Z := 1000.

(** ** Searching *)

Section Search.
Context {T : Type}.
Implicit Types (slice : list T).

Definition SimpleEqualer `{EqDecision T} (t1 t2 : T) : bool := bool_decide (t1 = t2).

Fixpoint InSlice2 slice (tester : T -> bool) : bool :=
  match slice with
  | [] => false
  | e :: slice' => if tester e then true else InSlice2 slice' tester
  end.

Definition InSlice `{EqDecision T} slice (target : T) (comparer : option (T -> T -> bool)) : bool :=
  let comparer := default SimpleEqualer comparer in
  InSlice2 slice (fun e => comparer e target).

Definition IndexOf `{EqDecision T} slice (target : T) (comparer : option (T -> T -> bool)) : Z :=
  let comparer := default SimpleEqualer comparer in
  (fix go i l := match l with
                 | [] => (-1)%Z
                 | e :: l' => if comparer e target then i else go (i + 1)%Z l'
                 end) 0%Z slice.

Fixpoint SliceAnyMatch slice (predicate : T -> bool) : bool :=
  match slice with
  | [] => false
  | v :: slice' => if predicate v then true else SliceAnyMatch slice' predicate
  end.

Fixpoint SliceAllMatch slice (predicate : T -> bool) : bool :=
  match slice with
  | [] => true
  | v :: slice' => if negb (predicate v) then false else SliceAllMatch slice' predicate
  end.

Fixpoint SliceAppendNoRepeat `{EqDecision T} slice (values : list T) : list T :=
  match values with
  | [] => slice
  | value :: values' =>
      SliceAppendNoRepeat (if bool_decide (value ∈ slice) then slice else slice ++ [value]) values'
  end.
End Search.

(** ** Sorted slices of ordered elements *)

(** [slices.BinarySearch]: the least position whose element is not below
    the target, by bisection of [i, j); [found] when it holds the target. *)
Fixpoint bisect (fuel : nat) (x : list Z) (target : Z) (i j : nat) : nat :=
  match fuel with
  | O => i
  | S fuel =>
      if (i <? j)%nat then
        let h := (i + j) / 2 in
        if (default 0%Z (x !! h) <? target)%Z then bisect fuel x target (S h) j
        else bisect fuel x target i h
      else i
  end.

Definition BinarySearch (x : list Z) (target : Z) : nat * bool :=
  let i := bisect (S (length x)) x target 0 (length x) in
  (i, bool_decide (x !! i = Some target)).

Definition SortedSliceAppendNoRepeat (slice values : list Z) : list Z :=
  merge_sort Z.le (fold_left (fun slice value =>
    if (BinarySearch slice value).2 then slice else slice ++ [value]) values slice).

(** ** Mapping *)

(** The loop of [SliceMapChange]: [pos] results are written over the
    array that is being read. *)
Fixpoint map_change_loop {T} (mapper : T -> T * bool) (n i pos : nat) (arr : list T)
    : list T * nat :=
  match n with
  | O => (arr, pos)
  | S n =>
      match arr !! i with
      | Some v =>
          let '(o, remove) := mapper v in
          if (remove : bool) then map_change_loop mapper n (S i) pos arr
          else map_change_loop mapper n (S i) (S pos) (<[pos := o]> arr)
      | None => (arr, pos)
      end
  end.

(** The caller's array afterwards, and the slice returned. *)
Definition SliceMapChange {T} (slice : option (list T)) (mapper : T -> T * bool)
    : option (list T) * option (list T) :=
  match slice with
  | None => (None, None)
  | Some arr =>
      let '(arr, pos) := map_change_loop mapper (length arr) 0 0 arr in
      (Some arr, if (0 <? pos)%nat then Some (take pos arr) else None)
  end.

Definition SliceMapNew {T O} (slice : option (list T)) (mapper : T -> O * bool) : option (list O) :=
  match slice with
  | None => None
  | Some l => Some (omap (fun v => let '(o, remove) := mapper v in
                     if (remove : bool) then None else Some o) l)
  end.

Definition SliceToMap {T V} `{Countable K} (slice : option (list T)) (mapper : T -> nat -> K * V * bool)
    (merger : option (V -> V -> V)) : option (gmap K V) :=
  let merger := default (fun _ v2 => v2) merger in
  match slice with
  | None => None
  | Some l =>
      Some (fold_left (fun out '(i, t) =>
        let '(k, v, remove) := mapper t i in
        if (remove : bool) then out
        else match out !! k with
             | Some old => <[k := merger old v]> out
             | None => <[k := v]> out
             end) (imap pair l) ∅)
  end.

(** ** Removing *)

(** Where a removal loop appends: a fresh slice ([copy]), or the first [k]
    cells of the slice that is being read. *)
Inductive out_slice (T : Type) := Fresh (l : list T) | Prefix (k : nat).
Arguments Fresh {T} _.
Arguments Prefix {T} _.

Definition out_value {T} (arr : list T) (out : out_slice T) : list T :=
  match out with Fresh l => l | Prefix k => take k arr end.

Definition out_append {T} (arr : list T) (out : out_slice T) (v : T) : list T * out_slice T :=
  match out with
  | Fresh l => (arr, Fresh (l ++ [v]))
  | Prefix k => (<[k := v]> arr, Prefix (S k))
  end.

(** [for i, v := range slice { if keep { out = append(out, v) } }] with
    the loop's own variables [st]. *)
Fixpoint append_loop {T S} (keep : S -> nat -> T -> run (bool * S)) (n i : nat) (st : S)
    (arr : list T) (out : out_slice T) : run (list T * out_slice T * S) :=
  match n with
  | O => Ret (arr, out, st)
  | Datatypes.S n =>
      v ← go_index arr (Z.of_nat i);
      '(b, st) ← keep st i v;
      let '(arr, out) := if (b : bool) then out_append arr out v else (arr, out) in
      append_loop keep n (Datatypes.S i) st arr out
  end.

(** The common shape of the removals: the caller's array afterwards, the
    slice returned and the loop's variables at the end. *)
Definition remove_loop {T S} (copy : bool) (slice : list T) (keep : S -> nat -> T -> run (bool * S))
    (st : S) : run (list T * list T * S) :=
  '(arr, out, st) ← append_loop keep (length slice) 0 st slice (if copy then Fresh [] else Prefix 0);
  Ret (arr, out_value arr out, st).

Section Remove.
Context {T : Type}.
Implicit Types (slice : list T).

Definition SliceRemoveIf slice (copy : bool) (cond : T -> bool) : run (list T * list T) :=
  if (length slice =? 0)%nat then Ret (slice, slice)
  else fst <$> remove_loop copy slice (fun _ _ v => Ret (negb (cond v), tt)) tt.

Definition SliceRemoveByValue `{EqDecision T} slice (copy : bool) (value : T)
    : run (list T * list T) :=
  if (length slice =? 0)%nat then Ret (slice, slice)
  else fst <$> remove_loop copy slice (fun _ _ v => Ret (bool_decide (v <> value), tt)) tt.

Definition SliceRemoveByValues `{EqDecision T} slice (copy : bool) (values : list T)
    : run (list T * list T) :=
  if (length slice =? 0)%nat then Ret (slice, slice)
  else fst <$> remove_loop copy slice (fun _ _ v => Ret (negb (InSlice values v None), tt)) tt.

(** Here the loop also collects what it removes. *)
Definition SliceRemoveByValuesAndReturnRemoved `{EqDecision T} slice (copy : bool) (values : list T)
    : run (list T * list T * option (list T)) :=
  if (length slice =? 0)%nat then Ret (slice, slice, None)
  else
    '(arr, out, removed) ← remove_loop copy slice (fun removed _ v =>
        if negb (InSlice values v None) then Ret (true, removed)
        else Ret (false, removed ++ [v])) [];
    Ret (arr, out, Some removed).

Definition SliceRemoveByIndex slice (copy : bool) (index : Z) : list T * list T * bool :=
  let l := length slice in
  if (l =? 0)%nat then (slice, slice, false)
  else if (index <? 0)%Z || (Z.of_nat l <=? index)%Z then (slice, slice, false)
  else
    let i := Z.to_nat index in
    if copy then (slice, take i slice ++ drop (S i) slice, true)
    else if (i =? 0)%nat then (slice, drop 1 slice, true)
    else if (i =? l - 1)%nat then (slice, take (l - 1) slice, true)
    else
      (* append(slice[0:index], slice[index+1:]...) moves the tail down by one *)
      let arr := take i slice ++ drop (S i) slice ++ drop (l - 1) slice in
      (arr, take (l - 1) arr, true).

(** The two scans of [SliceRemoveByIndexes] over the sorted indexes. *)
Fixpoint first_nonneg (indexes : list Z) (i : nat) : nat :=
  match indexes with
  | [] => 0
  | index :: indexes' => if (0 <=? index)%Z then i else first_nonneg indexes' (S i)
  end.

Fixpoint last_below (l : Z) (rev_indexes : list Z) : Z :=
  match rev_indexes with
  | [] => (-1)%Z
  | index :: rest => if (index <? l)%Z then Z.of_nat (length rest) else last_below l rest
  end.

(** [for p <= e && index == indexes[p] { p++ }] *)
Fixpoint skip_equal (fuel : nat) (indexes : list Z) (index e : Z) (p : nat) : nat :=
  match fuel with
  | O => p
  | S fuel =>
      if (Z.of_nat p <=? e)%Z && bool_decide (indexes !! p = Some index)
      then skip_equal fuel indexes index e (S p) else p
  end.

Definition indexes_keep (indexes : list Z) (e : Z) (st : nat * bool) (i : nat) (v : T)
    : run (bool * (nat * bool)) :=
  let '(p, skip) := st in
  if (skip : bool) then Ret (true, (p, skip))
  else
    index ← go_index indexes (Z.of_nat p);
    let '(b, p) :=
      if bool_decide (Z.of_nat i <> index) then (true, p)
      else (false, skip_equal (length indexes) indexes index e (S p)) in
    Ret (b, (p, (e <? Z.of_nat p)%Z)).

Definition SliceRemoveByIndexes slice (copy : bool) (indexes : list Z) : run (list T * list T) :=
  if (length indexes =? 0)%nat then Ret (slice, slice)
  else if (length slice =? 0)%nat then Ret (slice, slice)
  else
    let indexes := merge_sort Z.le indexes in
    let p := first_nonneg indexes 0 in
    let e := last_below (Z.of_nat (length slice)) (reverse indexes) in
    if (e =? -1)%Z then Ret (slice, slice)
    else fst <$> remove_loop copy slice (indexes_keep indexes e) (p, false).

(** [for (last > i && cond(slice[last])) || last == i { last--; removed++ }] *)
Fixpoint ignore_inner (fuel : nat) (cond : T -> bool) (arr : list T) (i last removed : Z)
    : run (Z * Z) :=
  match fuel with
  | O => Abort NoFuel
  | S fuel =>
      b ← (if (i <? last)%Z then v ← go_index arr last; Ret (cond v) else Ret false);
      if (b : bool) || (last =? i)%Z
      then ignore_inner fuel cond arr i (last - 1)%Z (removed + 1)%Z
      else Ret (last, removed)
  end.

Fixpoint ignore_outer (fuel : nat) (cond : T -> bool) (arr : list T) (i last removed : Z)
    : run (list T * Z) :=
  match fuel with
  | O => Abort NoFuel
  | S fuel =>
      if (i <=? last)%Z then
        v ← go_index arr i;
        if cond v then
          '(last, removed) ← ignore_inner (S (S (length arr))) cond arr i last removed;
          if (i <? last)%Z then
            x ← go_index arr last;
            ignore_outer fuel cond (<[Z.to_nat i := x]> arr) (i + 1) (last - 1) (removed + 1)
          else ignore_outer fuel cond arr (i + 1) last removed
        else ignore_outer fuel cond arr (i + 1) last removed
      else Ret (arr, removed)
  end%Z.

Definition SliceRemoveIfIgnoreOrder slice (cond : T -> bool) : run (list T * list T) :=
  let l := length slice in
  if (l =? 0)%nat then Ret (slice, slice)
  else
    '(arr, removed) ← ignore_outer (S l) cond slice 0 (Z.of_nat l - 1) 0;
    Ret (arr, take (Z.to_nat (Z.of_nat l - removed)) arr).
End Remove.

(** ** Maps *)

Section Maps.
Context {T : Type} `{Countable K}.
Context (range : gmap K T -> list (K * T)).
Implicit Types (m : gmap K T).

Definition InMap m (tester : T -> bool) : bool := InSlice2 (range m).*2 tester.

Definition MapValues (m : option (gmap K T)) : option (list T) := (fun m => (range m).*2) <$> m.

Definition MapKeys m : list K := (range m).*1.

Definition MapValuesTo {O} (m : option (gmap K T)) (mapper : K -> T -> O * bool) : option (list O) :=
  match m with
  | None => None
  | Some m => Some (omap (fun '(k, v) => let '(o, remove) := mapper k v in
                     if (remove : bool) then None else Some o) (range m))
  end.

Definition MapPutMap (src target : gmap K T) : gmap K T :=
  fold_left (fun target '(k, v) => <[k := v]> target) (range src) target.

Definition MapAnyMatch m (predicate : K -> T -> bool) : bool :=
  SliceAnyMatch (range m) (fun '(k, v) => predicate k v).

Definition MapAllMatch m (predicate : K -> T -> bool) : bool :=
  SliceAllMatch (range m) (fun '(k, v) => predicate k v).

Fixpoint find_first (l : list (K * T)) (predicate : K -> T -> bool) : option (K * T) :=
  match l with
  | [] => None
  | (k, v) :: l' => if predicate k v then Some (k, v) else find_first l' predicate
  end.

Definition MapFindFirst m (predicate : K -> T -> bool) : option (K * T) :=
  find_first (range m) predicate.
End Maps.

(** [XOrBytes] writes into [out]: the new contents of [out]. *)
Definition XOrBytes (bytes1 bytes2 : list Z) (out : option (list Z)) : run (list Z) :=
  match out with
  | None => go_panic (PCode FatalError_code)
  | Some out =>
      if negb (length bytes1 =? length bytes2)%nat then go_panic (PCode FatalError_code)
      else if (length out <? length bytes1)%nat then go_panic (PCode FatalError_code)
      else Ret (zip_with Z.lxor bytes1 bytes2 ++ drop (length bytes1) out)
  end.

(** ** The removals *)

Section RemoveSpec.
Context {T : Type}.
Implicit Types (l slice arr : list T).

(** The elements a predicate of position and value keeps, in order. *)
Fixpoint kept (P : nat -> T -> bool) (i : nat) l : list T :=
  match l with
  | [] => []
  | v :: l' => if P i v then v :: kept P (S i) l' else kept P (S i) l'
  end.

Lemma kept_app P i l1 l2 : kept P i (l1 ++ l2) = kept P i l1 ++ kept P (i + length l1) l2.
Proof.
  revert i. induction l1 as [|v l1 IH]; intros i; cbn.
  - by rewrite Nat.add_0_r.
  - rewrite IH, Nat.add_succ_r. by destruct (P i v).
Qed.

Lemma kept_length P i l : length (kept P i l) <= length l.
Proof. revert i. induction l as [|v l IH]; intros i; cbn; [lia|]. destruct (P i v); cbn; specialize (IH (S i)); lia. Qed.

Lemma kept_filter (p : T -> bool) i l : kept (fun _ v => p v) i l = filter (fun v => p v = true) l.
Proof.
  revert i. induction l as [|v l IH]; intros i; cbn [kept]; [done|].
  rewrite filter_cons, IH. by destruct (p v).
Qed.

Lemma kept_ext P Q i l : (forall j v, P j v = Q j v) -> kept P i l = kept Q i l.
Proof. intros H. revert i. induction l; intros i; cbn; [done|]. by rewrite H, IHl. Qed.

(** What a removal leaves in the caller's array. *)
Definition array_after (copy : bool) l (res : list T) : list T :=
  if copy then l else res ++ drop (length res) l.

Definition out_of (copy : bool) (res : list T) : out_slice T :=
  if copy then Fresh res else Prefix (length res).

Lemma out_append_after copy l res v :
  length res < length l ->
  out_append (array_after copy l res) (out_of copy res) v =
  (array_after copy l (res ++ [v]), out_of copy (res ++ [v])).
Proof.
  intros Hlt. destruct copy; cbn; [done|]. rewrite length_app. cbn [length].
  rewrite Nat.add_1_r. f_equal. rewrite insert_app_r_alt, Nat.sub_diag by lia.
  rewrite <- app_assoc. f_equal. destruct (drop (length res) l) as [|x d] eqn:E.
  - apply (f_equal length) in E. rewrite length_drop in E. cbn in E. lia.
  - cbn. f_equal. rewrite <- Nat.add_1_r, <- drop_drop, E. done.
Qed.

Lemma array_after_lookup copy l res i :
  length res <= i -> array_after copy l res !! i = l !! i.
Proof.
  intros Hi. destruct copy; cbn; [done|].
  rewrite lookup_app_r, lookup_drop by done. f_equal. lia.
Qed.

Lemma out_value_after copy l res : out_value (array_after copy l res) (out_of copy res) = res.
Proof. destruct copy; cbn; [done|]. apply take_app_length. Qed.

(** A loop whose test answers [P] at every element keeps what [P] keeps. *)
Lemma append_loop_spec {S} (keep : S -> nat -> T -> run (bool * S)) (P : nat -> T -> bool)
    (Inv : nat -> S -> Prop) copy l :
  (forall i st v, l !! i = Some v -> Inv i st ->
     exists st', keep st i v = Ret (P i v, st') /\ Inv (Datatypes.S i) st') ->
  forall n i st res, i + n = length l -> length res <= i -> Inv i st ->
  let res' := res ++ kept P i (drop i l) in
  exists st', append_loop keep n i st (array_after copy l res) (out_of copy res) =
      Ret (array_after copy l res', out_of copy res', st') /\ Inv (length l) st'.
Proof.
  intros Hk. induction n as [|n IH]; intros i st res Hi Hres HI; cbn [append_loop]; cbn zeta.
  { rewrite drop_ge by lia. cbn. rewrite app_nil_r. exists st. split; [done|].
    by replace (length l) with i by lia. }
  destruct (lookup_lt_is_Some_2 l i) as [v Hv]; [lia|].
  rewrite (go_index_some _ _ v); [|lia|by rewrite Nat2Z.id, array_after_lookup by lia].
  rewrite bind_ret_l. destruct (Hk i st v Hv HI) as (st' & -> & HI'). rewrite bind_ret_l.
  rewrite (drop_S _ _ _ Hv). cbn [kept]. destruct (P i v).
  - rewrite out_append_after by lia.
    destruct (IH (Datatypes.S i) st' (res ++ [v])) as (st'' & H & HI'');
      [lia|rewrite length_app; cbn; lia|done|].
    rewrite <- app_assoc in H. eauto.
  - apply IH; [lia..|done].
Qed.

Lemma remove_loop_spec {S} (keep : S -> nat -> T -> run (bool * S)) (P : nat -> T -> bool)
    (Inv : nat -> S -> Prop) copy l st :
  (forall i st v, l !! i = Some v -> Inv i st ->
     exists st', keep st i v = Ret (P i v, st') /\ Inv (Datatypes.S i) st') ->
  Inv 0 st ->
  exists st', remove_loop copy l keep st =
      Ret (array_after copy l (kept P 0 l), kept P 0 l, st') /\ Inv (length l) st'.
Proof.
  intros Hk HI. unfold remove_loop.
  destruct (append_loop_spec keep P Inv copy l Hk (length l) 0 st []) as (st' & H & HI');
    [lia|cbn; lia|done|].
  rewrite drop_0 in *. cbn [app] in *.
  replace (array_after copy l []) with l in H by (by destruct copy).
  replace (out_of copy []) with (if copy then Fresh [] else Prefix 0 : out_slice T) in H
    by (by destruct copy).
  exists st'. rewrite H, bind_ret_l. by rewrite out_value_after.
Qed.

(** A removal with a stateless test is the filter. *)
Lemma remove_filter copy l (p : T -> bool) :
  (fst <$> remove_loop copy l (fun _ _ v => Ret (p v, tt)) tt) =
  Ret (array_after copy l (filter (fun v => p v = true) l), filter (fun v => p v = true) l).
Proof.
  rewrite <- (kept_filter p 0 l).
  destruct (remove_loop_spec (fun _ _ v => Ret (p v, tt)) (fun _ v => p v) (fun _ _ => True) copy l tt)
    as (st & -> & _); [|done|done].
  intros i [] v _ _. by exists tt.
Qed.

(** *** Removal by indexes *)

Lemma first_nonneg_spec (xs : list Z) k :
  (Forall (fun x => x < 0)%Z xs /\ first_nonneg xs k = 0) \/
  (exists p x, first_nonneg xs k = k + p /\ xs !! p = Some x /\ (0 <= x)%Z /\
     forall q y, q < p -> xs !! q = Some y -> (y < 0)%Z).
Proof.
  revert k. induction xs as [|x xs IH]; intros k; cbn; [left; done|].
  destruct (Z.leb_spec 0 x).
  - right. exists 0, x. split_and!; [lia|done|done|]. intros; lia.
  - destruct (IH (S k)) as [[Hf ->]|(p & y & -> & Hy & Hy0 & Hq)].
    + left. split; [by constructor|done].
    + right. exists (S p), y. split_and!; [lia|done..|].
      intros [|q] z Hlt Hz; cbn in Hz; [by injection Hz as <-|]. eapply Hq; [|done]. lia.
Qed.

Lemma last_below_spec (n : Z) (xs : list Z) e :
  last_below n (reverse xs) = e ->
  (e < Z.of_nat (length xs))%Z /\
  (forall q x, (e < Z.of_nat q)%Z -> xs !! q = Some x -> (n <= x)%Z) /\
  (e = -1 \/ exists x, 0 <= e /\ xs !! Z.to_nat e = Some x /\ x < n)%Z.
Proof.
  intros <-. induction xs as [|x xs IH] using rev_ind; cbn.
  { split_and!; [lia|done|by left]. }
  rewrite reverse_app, length_app. cbn. rewrite length_reverse. destruct (Z.ltb_spec x n).
  - split_and!; [lia| |].
    + intros q y Hq Hy. apply lookup_lt_Some in Hy. rewrite length_app in Hy. cbn in Hy. lia.
    + right. exists x. split_and!; [lia| |done].
      by rewrite Nat2Z.id, lookup_app_r, Nat.sub_diag by lia.
  - destruct IH as (H1 & H2 & H3). split_and!; [lia| |].
    + intros q y Hq [Hy|[? Hy]]%lookup_app_Some; [by eapply H2|].
      apply list_lookup_singleton_Some in Hy as [_ <-]. done.
    + destruct H3 as [?|(y & ? & ? & ?)]; [by left|right].
      exists y. split_and!; [done|by apply lookup_app_l_Some|done].
Qed.

Lemma skip_equal_spec fuel (xs : list Z) x (e : Z) p :
  let p' := skip_equal fuel xs x e p in
  p <= p' /\ (forall q, p <= q < p' -> xs !! q = Some x) /\
  (p' = p + fuel \/ (e < Z.of_nat p')%Z \/ xs !! p' <> Some x).
Proof.
  revert p. induction fuel as [|fuel IH]; intros p; cbn; [split_and!; [lia|lia|left; lia]|].
  destruct (Z.leb_spec (Z.of_nat p) e); cbn; [|split_and!; [lia|lia|right; left; lia]].
  case_bool_decide as Hx; [|split_and!; [lia|lia|by right; right]].
  destruct (IH (S p)) as (H1 & H2 & H3). split_and!; [lia| |].
  - intros q Hq. destruct (decide (q = p)) as [->|]; [done|]. apply H2. lia.
  - destruct H3 as [?|[?|?]]; [left; lia|by right; left|by right; right].
Qed.

Section ByIndexes.
Context (xs : list Z) (n : nat) (e : Z).
Hypothesis Hsorted : StronglySorted Z.le xs.
Hypothesis He : (e < Z.of_nat (length xs))%Z.
Hypothesis Hafter : forall q x, (e < Z.of_nat q)%Z -> xs !! q = Some x -> (Z.of_nat n <= x)%Z.

(** The pointer [p] separates the indexes already passed from the others. *)
Definition indexes_inv (i : nat) (st : nat * bool) : Prop :=
  let '(p, skip) := st in
  if skip then forall x, x ∈ xs -> (Z.of_nat i <= x < Z.of_nat n)%Z -> False
  else p < length xs /\
    (Forall (fun x => x < 0)%Z xs \/
     (forall q x, xs !! q = Some x -> q < p -> (x < Z.of_nat i)%Z) /\
     (forall q x, xs !! q = Some x -> p <= q -> (Z.of_nat i <= x)%Z)).

Lemma indexes_inv_next i p p' x :
  (forall q y, xs !! q = Some y -> q < p' -> (y <= Z.of_nat i)%Z) ->
  xs !! p = Some x -> p <= p' ->
  ((Z.of_nat p' <= e)%Z -> forall q y, xs !! q = Some y -> p' <= q -> (Z.of_nat i < y)%Z) ->
  indexes_inv (S i) (p', (e <? Z.of_nat p')%Z).
Proof.
  intros Hlow Hx Hp Hhigh. destruct (Z.ltb_spec e (Z.of_nat p')); cbn.
  - intros y [q Hy]%list_elem_of_lookup_1 Hb.
    destruct (decide (q < p')) as [Hq|Hq]; [specialize (Hlow _ _ Hy Hq); lia|].
    specialize (Hafter q y ltac:(lia) Hy). lia.
  - split; [lia|]. right. split; intros q y Hy Hq.
    + specialize (Hlow _ _ Hy Hq). lia.
    + specialize (Hhigh ltac:(lia) q y Hy ltac:(lia)). lia.
Qed.

(** The pointer is past every index up to [i] once index [i] is consumed. *)
Lemma skip_equal_inv i p :
  xs !! p = Some (Z.of_nat i) ->
  (forall q x, xs !! q = Some x -> q < p -> (x < Z.of_nat i)%Z) ->
  let p' := skip_equal (length xs) xs (Z.of_nat i) e (S p) in
  indexes_inv (S i) (p', (e <? Z.of_nat p')%Z).
Proof.
  intros Hx Hlow p'.
  destruct (skip_equal_spec (length xs) xs (Z.of_nat i) e (S p)) as (H1 & H2 & H3). fold p' in H1, H2, H3.
  apply (indexes_inv_next i p p' (Z.of_nat i)); [|done|lia|].
  - intros q y Hy Hq. destruct (decide (q < p)); [by apply Z.lt_le_incl, (Hlow q)|].
    destruct (decide (q = p)) as [->|]; [naive_solver lia|].
    rewrite H2 in Hy by lia. naive_solver lia.
  - intros Hle q y Hy Hq. destruct (lookup_lt_is_Some_2 xs p') as [z Hz]; [lia|].
    assert (Z.of_nat i <= z)%Z by (eapply StronglySorted_lookup; [done|exact Hx|done|lia]).
    assert (z <> Z.of_nat i) by (destruct H3 as [?|[?|?]]; [lia|lia|congruence]).
    destruct (decide (q = p')) as [->|]; [naive_solver lia|].
    assert (z <= y)%Z by (eapply StronglySorted_lookup; [done|exact Hz|done|lia]). lia.
Qed.

Lemma indexes_keep_step i st (v : T) :
  i < n -> indexes_inv i st ->
  exists st', indexes_keep xs e st i v = Ret (negb (bool_decide (Z.of_nat i ∈ xs)), st') /\
    indexes_inv (S i) st'.
Proof.
  intros Hi HI. destruct st as [p [|]]; cbn in HI.
  { exists (p, true). cbn. rewrite bool_decide_false by (intros H; eapply HI; [done|lia]).
    split; [done|]. intros x Hx Hb. eapply HI; [done|lia]. }
  destruct HI as [Hp HI]. destruct (lookup_lt_is_Some_2 _ _ Hp) as [x Hx]. unfold indexes_keep.
  rewrite (go_index_some _ _ x), bind_ret_l by (rewrite ?Nat2Z.id; done || lia).
  destruct HI as [Hneg|[Hlow Hhigh]].
  - rewrite Forall_forall in Hneg.
    pose proof (Hneg x ltac:(by eapply list_elem_of_lookup_2)) as Hx0.
    rewrite bool_decide_true, bool_decide_false by (try intros ?%Hneg; lia).
    eexists. split; [done|]. cbn. case_match; cbn.
    + intros y Hy%Hneg. lia.
    + split; [done|]. left. by apply Forall_forall.
  - destruct (decide (Z.of_nat i = x)) as [<-|Hne].
    + rewrite bool_decide_false, (bool_decide_true (_ ∈ _))
        by (try (by eapply list_elem_of_lookup_2); tauto).
      eexists. split; [done|]. by apply skip_equal_inv.
    + assert (Z.of_nat i ∉ xs) as Hni.
      { intros [q Hq]%list_elem_of_lookup_1. destruct (decide (q < p)) as [Hlt|].
        - specialize (Hlow _ _ Hq Hlt). lia.
        - destruct (decide (q = p)) as [->|]; [congruence|].
          pose proof (StronglySorted_lookup Z.le xs p q _ _ Hsorted Hx Hq ltac:(lia)).
          pose proof (Hhigh _ _ Hx ltac:(lia)). lia. }
      rewrite bool_decide_true, bool_decide_false by done.
      eexists. split; [done|]. apply (indexes_inv_next i p p x); [|done|lia|].
      * intros q y Hy Hq. specialize (Hlow _ _ Hy Hq). lia.
      * intros _ q y Hy Hq. specialize (Hhigh _ _ Hy Hq).
        assert (y <> Z.of_nat i) by (intros ->; by eapply Hni, list_elem_of_lookup_2). lia.
Qed.
End ByIndexes.

End RemoveSpec.

Lemma kept_all {T} (P : nat -> T -> bool) i (l : list T) :
  (forall j v, l !! j = Some v -> P (i + j) v = true) -> kept P i l = l.
Proof.
  revert i. induction l as [|v l IH]; intros i H; cbn; [done|].
  rewrite <- (Nat.add_0_r i) at 1. rewrite (H 0 v) by done. f_equal. apply IH.
  intros j w Hj. rewrite Nat.add_succ_comm. by apply H.
Qed.

Lemma array_after_self {T} copy (l : list T) : array_after copy l l = l.
Proof. destruct copy; cbn; [done|]. by rewrite drop_all, app_nil_r. Qed.

(** The position is not listed. *)
Definition not_listed {T} (indexes : list Z) (i : nat) (_ : T) : bool :=
  negb (bool_decide (Z.of_nat i ∈ indexes)).

(** [SliceRemoveByIndexes] never panics and returns, in order, exactly
    the elements whose position is not listed; the indexes may be unsorted,
    repeated, negative or past the end.  With [copy] the caller's slice is
    left alone, without it the result is compacted into its first cells. *)
Theorem SliceRemoveByIndexes_correct {T} (slice : list T) copy indexes :
  let res := kept (not_listed indexes) 0 slice in
  SliceRemoveByIndexes slice copy indexes = Ret (array_after copy slice res, res).
Proof.
  cbn zeta. unfold SliceRemoveByIndexes.
  assert ((forall i, i < length slice -> Z.of_nat i ∉ indexes) ->
    Ret (slice, slice) = Ret (array_after copy slice (kept (not_listed indexes) 0 slice),
      kept (not_listed indexes) 0 slice)) as Hsame.
  { intros Hno. rewrite kept_all, array_after_self; [done|]. intros j v Hj. unfold not_listed.
    rewrite bool_decide_false; [done|]. by apply Hno, lookup_lt_Some with v. }
  destruct (Nat.eqb_spec (length indexes) 0) as [->%nil_length_inv|_].
  { apply Hsame. intros i _. apply not_elem_of_nil. }
  destruct (Nat.eqb_spec (length slice) 0) as [->%nil_length_inv|_]; [apply Hsame; cbn; lia|].
  set (xs := merge_sort Z.le indexes).
  assert (forall x, x ∈ xs <-> x ∈ indexes) as Hperm by (intros; unfold xs; by rewrite merge_sort_Permutation).
  assert (StronglySorted Z.le xs) as Hs by apply (StronglySorted_merge_sort Z.le).
  destruct (last_below_spec (Z.of_nat (length slice)) xs _ eq_refl) as (He & Hafter & He').
  set (e := last_below _ _) in *. destruct (Z.eqb_spec e (-1)) as [Em|Em].
  { apply Hsame. intros i Hi [q Hq]%Hperm%list_elem_of_lookup_1.
    specialize (Hafter q _ ltac:(lia) Hq). lia. }
  rewrite (kept_ext (not_listed indexes) (not_listed xs))
    by (intros; unfold not_listed; f_equal; by apply bool_decide_ext).
  destruct (remove_loop_spec (indexes_keep xs e) (not_listed xs) (indexes_inv xs (length slice))
    copy slice (first_nonneg xs 0, false)) as (st & -> & _); [| |done].
  { intros i st v Hv HI. apply indexes_keep_step with (n := length slice); try done.
    by eapply lookup_lt_Some. }
  split; [|destruct (first_nonneg_spec xs 0) as [[Hn ->]|(p & x & -> & Hx & H0 & Hq)]].
  - destruct (first_nonneg_spec xs 0) as [[Hn ->]|(p & x & -> & Hx & _)];
      [destruct He' as [|(? & ? & _)]; lia|by eapply lookup_lt_Some].
  - by left.
  - right. split; intros q y Hy Hlt; cbn in *; [by eapply Hq|].
    destruct (decide (q = p)) as [->|]; [naive_solver|].
    pose proof (StronglySorted_lookup Z.le xs p q _ _ Hs Hx Hy ltac:(lia)). lia.
Qed.

Lemma InSlice_iff {T} `{EqDecision T} (l : list T) x : InSlice l x None = true <-> x ∈ l.
Proof.
  unfold InSlice. cbn. induction l as [|y l IH]; cbn; [by rewrite elem_of_nil|].
  rewrite elem_of_cons. unfold SimpleEqualer at 1. case_bool_decide; naive_solver.
Qed.

(** Guarded by the test for the empty slice, a removal is the filter. *)
Lemma remove_guarded {T} copy (l : list T) (p : T -> bool) (P : T -> Prop) `{forall v, Decision (P v)} :
  (forall v, p v = true <-> P v) ->
  (if (length l =? 0)%nat then Ret (l, l)
   else fst <$> remove_loop copy l (fun _ _ v => Ret (p v, tt)) tt) =
  Ret (array_after copy l (filter P l), filter P l).
Proof.
  intros Hp. destruct (Nat.eqb_spec (length l) 0) as [->%nil_length_inv|_].
  - by destruct copy.
  - rewrite remove_filter. by rewrite (list_filter_iff (fun v => p v = true) P).
Qed.

(**  The removals by predicate and by values return the slice filtered,
    in order, copying it or compacting it in place; the variant that also
    reports what it removed splits the slice into the two filters. *)
Theorem SliceRemove_correct {T} `{EqDecision T} (slice : list T) copy (cond : T -> bool) value values :
  let good := filter (fun v => cond v = false) slice in
  let others := filter (fun v => v <> value) slice in
  let rest := filter (fun v => v ∉ values) slice in
  SliceRemoveIf slice copy cond = Ret (array_after copy slice good, good) /\
  SliceRemoveByValue slice copy value = Ret (array_after copy slice others, others) /\
  SliceRemoveByValues slice copy values = Ret (array_after copy slice rest, rest) /\
  exists removed,
    SliceRemoveByValuesAndReturnRemoved slice copy values =
      Ret (array_after copy slice rest, rest, removed) /\
    default [] removed = filter (fun v => v ∈ values) slice.
Proof.
  assert (forall v, negb (InSlice values v None) = true <-> v ∉ values) as Hin.
  { intros v. rewrite <- (InSlice_iff values v). destruct (InSlice values v None); naive_solver. }
  split_and!.
  - apply remove_guarded. intros v. apply negb_true_iff.
  - apply remove_guarded. intros v. apply bool_decide_eq_true.
  - by apply remove_guarded.
  - unfold SliceRemoveByValuesAndReturnRemoved.
    destruct (Nat.eqb_spec (length slice) 0) as [->%nil_length_inv|_].
    { exists None. by destruct copy. }
    destruct (remove_loop_spec (fun removed _ v => if negb (InSlice values v None)
        then Ret (true, removed) else Ret (false, removed ++ [v]))
      (fun _ v => negb (InSlice values v None))
      (fun i removed => removed = filter (fun v => v ∈ values) (take i slice)) copy slice [])
      as (st & -> & ->); [|done|].
    + intros i st v Hv ->. specialize (Hin v). rewrite (take_S_r _ _ _ Hv), filter_app, filter_cons.
      destruct (negb (InSlice values v None)); eexists; (split; [done|]).
      * rewrite decide_False by tauto. by rewrite filter_nil, app_nil_r.
      * rewrite decide_True; [done|]. destruct (decide (v ∈ values)); naive_solver.
    + rewrite bind_ret_l, firstn_all. exists (Some (filter (fun v => v ∈ values) slice)). split; [|done].
      rewrite (kept_filter (fun v => negb (InSlice values v None))).
      by rewrite (list_filter_iff (fun v => negb (InSlice values v None) = true) (fun v => v ∉ values)).
Qed.

(** ** Removal that does not keep the order *)

Section IgnoreOrder.
Context {T : Type} (cond : T -> bool).
Implicit Types (pre mid junk : list T).
Local Open Scope Z_scope.

Lemma go_index_middle pre v junk i : i = Z.of_nat (length pre) -> go_index (pre ++ v :: junk) i = Ret v.
Proof. intros ->. apply go_index_some; [lia|]. by rewrite Nat2Z.id, list_lookup_middle. Qed.

(** The inner loop stops at the last element to keep, or before the cell
    it wants to fill. *)
Lemma ignore_inner_spec pre v mid junk fuel i removed :
  i = Z.of_nat (length pre) -> (length mid + 2 <= fuel)%nat ->
  let last := i + Z.of_nat (length mid) in
  exists last',
    ignore_inner fuel cond (pre ++ v :: mid ++ junk) i last removed =
      Ret (last', removed + (last - last')) /\
    ((Forall (fun y => cond y = true) mid /\ last' = i - 1) \/
     exists m1 x m2, mid = m1 ++ x :: m2 /\ cond x = false /\ Forall (fun y => cond y = true) m2 /\
       last' = i + 1 + Z.of_nat (length m1)).
Proof.
  intros Hi. revert junk fuel removed.
  induction mid as [|y mid IH] using rev_ind; intros junk fuel removed Hf; cbn zeta.
  - destruct fuel as [|[|fuel]]; cbn in Hf; [lia..|]. cbn.
    rewrite Z.add_0_r, Z.ltb_irrefl, bind_ret_l, Z.eqb_refl. cbn.
    rewrite (proj2 (Z.ltb_ge i (i - 1))), bind_ret_l, (proj2 (Z.eqb_neq (i - 1) i)) by lia.
    exists (i - 1). split; [do 2 f_equal; lia|]. left. by split.
  - rewrite length_app in *. cbn in Hf. destruct fuel as [|fuel]; [lia|]. cbn [length ignore_inner].
    rewrite (proj2 (Z.ltb_lt _ _)), (proj2 (Z.eqb_neq _ _)) by lia.
    rewrite <- app_assoc. cbn [app].
    replace (pre ++ v :: mid ++ y :: junk) with ((pre ++ v :: mid) ++ y :: junk)
      by (by rewrite <- app_assoc).
    rewrite go_index_middle by (rewrite length_app; cbn; lia). rewrite !bind_ret_l.
    destruct (cond y) eqn:Ey; cbn [orb].
    + rewrite <- app_assoc. cbn [app].
      destruct (IH (y :: junk) fuel (removed + 1)) as (last' & Hr & Hl); [lia|].
      replace (i + Z.of_nat (length mid + 1) - 1) with (i + Z.of_nat (length mid)) by lia.
      exists last'. rewrite Hr. split; [do 2 f_equal; lia|].
      destruct Hl as [[Ha ->]|(m1 & x & m2 & -> & Hx & H2 & ->)]; [left|right].
      * split; [|done]. by apply Forall_app_2; [|constructor].
      * exists m1, x, (m2 ++ [y]). rewrite <- app_assoc. split_and!; [done..| |done].
        by apply Forall_app_2; [|constructor].
    + eexists. split; [do 2 f_equal; lia|]. right. exists mid, y, [].
      split_and!; [done..|lia].
Qed.

Lemma filter_cond_nil l : Forall (fun y => cond y = true) l -> filter (fun v => cond v = false) l = [].
Proof.
  induction 1 as [|y l Hy _ IH]; [done|]. rewrite filter_cons, IH, decide_False; [done|congruence].
Qed.

Lemma filter_cond_all l : Forall (fun y => cond y = false) l -> filter (fun v => cond v = false) l = l.
Proof. induction 1 as [|y l Hy _ IH]; [done|]. by rewrite filter_cons, IH, decide_True. Qed.

(** Filling cell [i] with the last element to keep. *)
Lemma ignore_swap pre v m1 x m2 junk i :
  i = Z.of_nat (length pre) ->
  go_index (pre ++ v :: (m1 ++ x :: m2) ++ junk) (i + 1 + Z.of_nat (length m1)) = Ret x /\
  <[Z.to_nat i := x]> (pre ++ v :: (m1 ++ x :: m2) ++ junk) = (pre ++ [x]) ++ m1 ++ x :: m2 ++ junk.
Proof.
  intros ->. rewrite <- !app_assoc. cbn [app]. split.
  - replace (pre ++ v :: m1 ++ x :: m2 ++ junk) with ((pre ++ v :: m1) ++ x :: m2 ++ junk)
      by (by rewrite <- app_assoc).
    apply go_index_middle. rewrite length_app. cbn. lia.
  - by rewrite Nat2Z.id, insert_app_r_alt, Nat.sub_diag by done.
Qed.

Lemma ignore_outer_spec n pre mid junk fuel i :
  i = Z.of_nat (length pre) -> (length pre + length mid + length junk)%nat = n ->
  (length mid < fuel)%nat -> Forall (fun y => cond y = false) pre ->
  exists arr removed,
    ignore_outer fuel cond (pre ++ mid ++ junk) i (i + Z.of_nat (length mid) - 1)
      (Z.of_nat (length junk)) = Ret (arr, removed) /\
    take (Z.to_nat (Z.of_nat n - removed)) arr ≡ₚ filter (fun v => cond v = false) (pre ++ mid).
Proof.
  revert pre mid junk i. induction fuel as [|fuel IH]; intros pre mid junk i Hi Hn Hf Hpre; [lia|].
  cbn [ignore_outer]. rewrite filter_app, (filter_cond_all pre) by done.
  destruct mid as [|v mid]; cbn [length] in *.
  { rewrite (proj2 (Z.leb_gt _ _)) by lia. eexists _, _. split; [done|].
    rewrite filter_nil, app_nil_r. cbn [app]. rewrite take_app_length'; [done|]. lia. }
  rewrite (proj2 (Z.leb_le _ _)) by lia. cbn [app].
  rewrite go_index_middle, bind_ret_l, filter_cons by done. destruct (cond v) eqn:Ev.
  2: { destruct (IH (pre ++ [v]) mid junk (i + 1)) as (arr & removed & Hr & Hp);
      [rewrite ?length_app; cbn; lia..|by apply Forall_app_2; [|constructor]|].
    rewrite <- app_assoc in Hr. cbn [app] in Hr. rewrite filter_app, filter_cond_all in Hp
      by (by apply Forall_app_2; [|constructor]). rewrite <- app_assoc in Hp.
    exists arr, removed. rewrite <- Hr. split; [f_equal; lia|exact Hp]. }
  replace (i + Z.of_nat (S (length mid)) - 1) with (i + Z.of_nat (length mid)) by lia.
  destruct (ignore_inner_spec pre v mid junk (S (S (length (pre ++ v :: mid ++ junk)))) i
    (Z.of_nat (length junk)) Hi) as (last' & -> & Hl);
    [rewrite length_app; cbn; rewrite length_app; lia|].
  rewrite bind_ret_l, decide_False by congruence.
  destruct Hl as [[Hmid ->]|(m1 & x & m2 & -> & Hx & H2 & ->)].
  - rewrite (proj2 (Z.ltb_ge _ _)) by lia. destruct fuel as [|fuel]; [lia|]. cbn [ignore_outer].
    rewrite (proj2 (Z.leb_gt _ _)) by lia. eexists _, _. split; [done|].
    rewrite filter_cond_nil, app_nil_r by done. rewrite take_app_length'; [done|]. lia.
  - rewrite (proj2 (Z.ltb_lt _ _)) by lia. destruct (ignore_swap pre v m1 x m2 junk i Hi) as [E1 E2]. rewrite E1, bind_ret_l, E2.
    rewrite length_app in *. cbn [length] in *.
    destruct (IH (pre ++ [x]) m1 (x :: m2 ++ junk) (i + 1)) as (arr & removed & Hr & Hp);
      [rewrite ?length_app; cbn; rewrite ?length_app; lia..|by apply Forall_app_2; [|constructor]|].
    rewrite filter_app, filter_cond_all in Hp by (by apply Forall_app_2; [|constructor]).
    exists arr, removed. split.
    + rewrite <- Hr. f_equal. cbn [length]. rewrite ?length_app. lia.
    + rewrite filter_app, filter_cons, decide_True, (filter_cond_nil m2), Hp, <- app_assoc by done.
      apply Permutation_app_head, Permutation_cons_append.
Qed.
End IgnoreOrder.

(** [SliceRemoveIfIgnoreOrder] terminates without a panic and returns
    the elements the condition rejects, each as often as it occurred, in
    some order. *)
Theorem SliceRemoveIfIgnoreOrder_correct {T} (slice : list T) (cond : T -> bool) :
  exists arr res, SliceRemoveIfIgnoreOrder slice cond = Ret (arr, res) /\
    res ≡ₚ filter (fun v => cond v = false) slice.
Proof.
  unfold SliceRemoveIfIgnoreOrder.
  destruct (Nat.eqb_spec (length slice) 0) as [->%nil_length_inv|_]; [by eexists _, _|].
  destruct (ignore_outer_spec cond (length slice) [] slice [] (S (length slice)) 0%Z) as (arr & removed & Hr & Hp);
    [done|cbn; lia|lia|constructor|].
  cbn [app] in *. rewrite app_nil_r in *. rewrite Z.add_0_l in Hr. change (Z.of_nat (length [])) with 0%Z in Hr.
  rewrite Hr, bind_ret_l. eauto.
Qed.

(** ** Appending to a sorted slice *)

(** Bisection finds the least position not below the target. *)
Lemma bisect_spec fuel (x : list Z) target i j :
  StronglySorted Z.le x -> i <= j <= length x -> j - i < fuel ->
  (forall k y, k < i -> x !! k = Some y -> (y < target)%Z) ->
  (forall k y, j <= k -> x !! k = Some y -> (target <= y)%Z) ->
  let r := bisect fuel x target i j in
  (forall k y, k < r -> x !! k = Some y -> (y < target)%Z) /\
  (forall k y, r <= k -> x !! k = Some y -> (target <= y)%Z).
Proof.
  intros Hs. revert i j. induction fuel as [|fuel IH]; intros i j Hij Hf Hlow Hhigh; [lia|].
  cbn [bisect]. destruct (Nat.ltb_spec i j) as [Hlt|Hge].
  2: { replace j with i in Hhigh by lia. by split. }
  assert (i <= (i + j) / 2 < j) as Hh.
  { pose proof (Nat.div_mod_eq (i + j) 2). pose proof (Nat.mod_upper_bound (i + j) 2). lia. }
  destruct (lookup_lt_is_Some_2 x ((i + j) / 2)) as [y Hy]; [lia|]. rewrite Hy. cbn [default from_option id].
  destruct (Z.ltb_spec y target) as [Hyt|Hyt]; apply IH; try (lia || done).
  - intros k z Hk Hz. destruct (decide (k = (i + j) / 2)) as [->|]; [naive_solver|].
    pose proof (StronglySorted_lookup Z.le x k _ _ _ Hs Hz Hy ltac:(lia)). lia.
  - intros k z Hk Hz. destruct (decide (k = (i + j) / 2)) as [->|]; [naive_solver|].
    pose proof (StronglySorted_lookup Z.le x _ k _ _ Hs Hy Hz ltac:(lia)). lia.
Qed.

Lemma BinarySearch_found x target :
  StronglySorted Z.le x -> (BinarySearch x target).2 = true <-> target ∈ x.
Proof.
  intros Hs. unfold BinarySearch. cbn [snd]. rewrite bool_decide_eq_true.
  destruct (bisect_spec (S (length x)) x target 0 (length x) Hs) as [Hlow Hhigh]; [lia..| | |].
  { intros k y Hk Hy. apply lookup_lt_Some in Hy. lia. }
  { intros k y Hk Hy. apply lookup_lt_Some in Hy. lia. }
  set (r := bisect _ _ _ _ _) in *. split; [by apply list_elem_of_lookup_2|].
  intros [k Hk]%list_elem_of_lookup_1. destruct (decide (k < r)) as [Hlt|Hge].
  { specialize (Hlow k _ Hlt Hk). lia. }
  destruct (decide (k = r)) as [->|]; [done|].
  destruct (lookup_lt_is_Some_2 x r) as [y Hy]; [apply lookup_lt_Some in Hk; lia|].
  pose proof (StronglySorted_lookup Z.le x r k _ _ Hs Hy Hk ltac:(lia)).
  specialize (Hhigh r y ltac:(lia) Hy). rewrite Hy. f_equal. lia.
Qed.

(** [SortedSliceAppendNoRepeat] inserts one value into a sorted slice
    without repeats as it should: the result is sorted, has no repeats and
    holds the old elements and the value. *)
Theorem SortedSliceAppendNoRepeat_one slice value :
  StronglySorted Z.le slice -> NoDup slice ->
  let res := SortedSliceAppendNoRepeat slice [value] in
  StronglySorted Z.le res /\ NoDup res /\ forall x, x ∈ res <-> x ∈ slice \/ x = value.
Proof.
  intros Hs Hnd. cbn zeta. unfold SortedSliceAppendNoRepeat. cbn [fold_left].
  pose proof (BinarySearch_found slice value Hs) as Hf.
  split; [apply (StronglySorted_merge_sort Z.le)|].
  destruct (BinarySearch slice value).2; rewrite merge_sort_Permutation;
    setoid_rewrite merge_sort_Permutation.
  - naive_solver.
  - setoid_rewrite elem_of_app. setoid_rewrite list_elem_of_singleton. split; [|done].
    apply NoDup_app. split; [done|]. split; [|apply NoDup_singleton].
    intros x Hx ->%list_elem_of_singleton. naive_solver.
Qed.

Lemma SortedSliceAppendNoRepeat_one_witness :
  let res := SortedSliceAppendNoRepeat [2; 5]%Z [4%Z] in
  StronglySorted Z.le res /\ NoDup res /\ forall x, x ∈ res <-> x ∈ [2; 5]%Z \/ x = 4%Z.
Proof.
  apply SortedSliceAppendNoRepeat_one.
  - repeat constructor; lia.
  - apply (bool_decide_unpack _). vm_compute. exact I.
Defined.

(** With several values it may not: the search runs on a slice whose
    tail is no longer sorted, so that a repeated value is appended twice. *)
Theorem SortedSliceAppendNoRepeat_repeats :
  exists slice values, StronglySorted Z.le slice /\ NoDup slice /\
    ~ NoDup (SortedSliceAppendNoRepeat slice values).
Proof.
  exists [5%Z], [1; 1]%Z. split_and!.
  - repeat constructor.
  - apply (bool_decide_unpack _). vm_compute. exact I.
  - apply (bool_decide_unpack _). vm_compute. exact I.
Qed.
