(* ===== verification/RoomPattern.v ===== *)
(** * Room patterns: [MatchRoom] of [signal/utils.go]

    A room is a dotted path, a pattern a dotted path whose segments may
    be ["*"] (one segment) or ["**"] (any number of segments).  The
    index-based loop of the source is modelled as it is written, with
    fuel, and shown to decide the relation [glob]. *)
From S2P Require Import Prelude GoStrings.
Local Open Scope string_scope.
Local Open Scope list_scope.

(** [errors.InvalidParam] carries [http.StatusBadRequest]. *)
Definition InvalidParam_code : Z := 400.

Definition dot : Ascii.ascii := Eval cbv in Ascii.ascii_of_nat 46.

(** ** The code *)

Definition CheckPattern (pattern : string) : run unit :=
  if decide (pattern = "") then go_panic (PCode InvalidParam_code)
  else if Contains pattern ".." || HasPrefix pattern "." || HasSuffix pattern "."
  then go_panic (PCode InvalidParam_code)
  else Ret tt.

Definition CheckRoom (room : string) : run unit :=
  if decide (room = "") then go_panic (PCode InvalidParam_code)
  else if Contains room "*" || Contains room ".." || HasPrefix room "." || HasSuffix room "."
  then go_panic (PCode InvalidParam_code)
  else Ret tt.

(** The loop [for ; i < len_pt; i++ { if pt_parts[i] != "**" { break } }],
    as the number of steps it takes from the first element of [l]. *)
Fixpoint skip_dstars (l : list string) : nat :=
  match l with
  | p :: l' => if decide (p = "**") then S (skip_dstars l') else 0
  | [] => 0
  end.

(** [for ... { if f(j) { return true } }; return false]. *)
Fixpoint run_any {A} (f : A -> run bool) (l : list A) : run bool :=
  match l with
  | [] => Ret false
  | x :: l' => b ← f x; if (b : bool) then Ret true else run_any f l'
  end.

(** One unit of fuel per iteration of the outer loop, the recursive
    calls included. *)
Fixpoint matchRoom_loop (fuel : nat) (pt_parts rm_parts : list string)
    (pt_i rm_i : nat) : run bool :=
  match fuel with
  | 0 => Abort NoFuel
  | S fuel =>
      let len_pt := length pt_parts in
      let len_rm := length rm_parts in
      pt_part ← go_index pt_parts (Z.of_nat pt_i);
      rm_part ← go_index rm_parts (Z.of_nat rm_i);
      if decide (pt_part = "**") then
        let i := (pt_i + 1 + skip_dstars (drop (pt_i + 1) pt_parts))%nat in
        if decide (i = len_pt) then Ret true
        else run_any (fun j => matchRoom_loop fuel (drop i pt_parts) (drop j rm_parts) 0 0)
               (seq rm_i (len_rm - rm_i))
      else if decide (pt_part = "*" \/ pt_part = rm_part) then
        let pt_i := S pt_i in
        let rm_i := S rm_i in
        if decide (len_pt <= pt_i) then Ret (bool_decide (rm_i = len_rm))
        else if decide (len_rm <= rm_i) then
          if decide (pt_i = len_pt) then Ret true
          else Ret (forallb (fun p => bool_decide (p = "**")) (drop pt_i pt_parts))
        else matchRoom_loop fuel pt_parts rm_parts pt_i rm_i
      else Ret false
  end.

Definition matchRoom (pt_parts rm_parts : list string) : run bool :=
  matchRoom_loop (S (length pt_parts)) pt_parts rm_parts 0 0.

Definition MatchRoom (pattern room : string) : run bool :=
  CheckPattern pattern;;
  CheckRoom room;;
  if decide (pattern = room \/ pattern = "**") then Ret true
  else matchRoom (Split dot pattern) (Split dot room).

(** ** The specification *)

(** [glob ps rs]: the segments [rs] are an instance of the pattern [ps]. *)
Inductive glob : list string -> list string -> Prop :=
  | glob_nil : glob [] []
  | glob_skip ps rs : glob ps rs -> glob ("**" :: ps) rs
  | glob_eat ps r rs : glob ("**" :: ps) rs -> glob ("**" :: ps) (r :: rs)
  | glob_star ps r rs : glob ps rs -> glob ("*" :: ps) (r :: rs)
  | glob_lit p ps rs : p <> "**" -> glob ps rs -> glob (p :: ps) (p :: rs).

Create HintDb glob.
#[export] Hint Constructors glob : glob.

(** ["**"] matches any suffix. *)
Lemma glob_dstar_iff ps rs : glob ("**" :: ps) rs <-> exists n, glob ps (drop n rs).
Proof.
  split.
  - remember ("**" :: ps) as q eqn:Eq. intros H. revert ps Eq.
    induction H; intros ps' Eq; simplify_eq.
    + by exists 0.
    + destruct (IHglob _ eq_refl) as [n Hn]. by exists (S n).
  - intros [n H]. revert rs H. induction n; intros rs H; [auto with glob|].
    destruct rs; [auto with glob|]. cbn in H. auto with glob.
Qed.

Lemma glob_dstar_nil ps : glob ps [] <-> Forall (fun p => p = "**") ps.
Proof.
  split.
  - remember [] as rs eqn:Ers. intros H. revert Ers. induction H; intros; simplify_eq; auto.
  - induction 1; subst; auto with glob.
Qed.

Lemma glob_nil_iff rs : glob [] rs <-> rs = [].
Proof. split; [by inversion 1 | intros ->; constructor]. Qed.

(** A segment that is not ["**"] consumes exactly one segment. *)
Lemma glob_cons_iff p ps r rs :
  p <> "**" -> glob (p :: ps) (r :: rs) <-> (p = "*" \/ p = r) /\ glob ps rs.
Proof.
  intros Hp. split.
  - inversion 1; subst; auto; congruence.
  - intros [[-> | ->] H]; auto with glob.
Qed.

Lemma glob_dstar_dup ps rs : glob ("**" :: "**" :: ps) rs <-> glob ("**" :: ps) rs.
Proof.
  split; [|apply glob_skip]. intros H. apply glob_dstar_iff in H as [m H].
  apply glob_dstar_iff in H as [k H]. rewrite drop_drop in H. apply glob_dstar_iff. eauto.
Qed.

Lemma glob_dstars n ps rs : glob ("**" :: replicate n "**" ++ ps) rs <-> glob ("**" :: ps) rs.
Proof. induction n as [|n IH]; [done|]. cbn [replicate app]. by rewrite glob_dstar_dup. Qed.

Lemma glob_self ps : Forall (fun p => p <> "**") ps -> glob ps ps.
Proof. induction 1; auto with glob. Qed.

(** ** Correctness of the loop *)

Lemma skip_dstars_split l :
  l = replicate (skip_dstars l) "**" ++ drop (skip_dstars l) l.
Proof. induction l as [|p l IH]; cbn; [done|]. case_decide; cbn; [by subst; f_equal|done]. Qed.

Lemma skip_dstars_le l : skip_dstars l <= length l.
Proof. induction l; cbn; [done|]. case_decide; lia. Qed.

Lemma skip_dstars_all l : skip_dstars l = length l -> Forall (fun p => p = "**") l.
Proof. induction l; cbn; [by constructor|]. case_decide; [constructor; auto|done]. Qed.

Lemma run_any_spec {A} (f : A -> run bool) (P : A -> Prop) l :
  (forall x, x ∈ l -> exists b, f x = Ret b /\ (b = true <-> P x)) ->
  exists b, run_any f l = Ret b /\ (b = true <-> exists x, x ∈ l /\ P x).
Proof.
  induction l as [|x l IH]; cbn; intros H.
  - exists false. split; [done|]. split; [done|]. intros (? & Hx & _). by apply not_elem_of_nil in Hx.
  - destruct (H x) as (b & Hf & Hb); [left|]. rewrite Hf. cbn. destruct b.
    + exists true. split; [done|]. split; [|done]. intros _. exists x. split; [left | by apply Hb].
    + destruct IH as (b & -> & Hb'); [intros; apply H; by right|]. exists b. split; [done|].
      rewrite Hb'. split; intros (y & Hy & HP).
      * exists y. split; [by right | done].
      * exists y. apply elem_of_cons in Hy as [-> | Hy]; [|done]. by apply Hb in HP.
Qed.

Lemma glob_all_dstar ps rs : ps <> [] -> Forall (fun p => p = "**") ps -> glob ps rs.
Proof.
  intros Hne H. destruct H as [|p ps -> H]; [done|].
  apply glob_dstar_iff. exists (length rs). rewrite drop_ge by lia. by apply glob_dstar_nil.
Qed.

Lemma glob_dstar_suffix ps rs m :
  Forall (fun p => p <> "**") (take 1 ps) -> ps <> [] ->
  glob ("**" :: ps) (drop m rs) <-> exists j, m <= j < length rs /\ glob ps (drop j rs).
Proof.
  intros H1 Hne. rewrite glob_dstar_iff. split.
  - intros [n H]. rewrite drop_drop in H. exists (m + n)%nat. split; [|done].
    assert (drop (m + n) rs <> []).
    { intros E. rewrite E in H. apply glob_dstar_nil in H.
      destruct ps; [done|]. cbn in H1. by inversion H1; inversion H; subst. }
    split; [lia|]. destruct (decide (m + n < length rs)); [done|]. by rewrite drop_ge in H0 by lia.
  - intros (j & Hj & H). exists (j - m)%nat. rewrite drop_drop. by replace (m + (j - m))%nat with j by lia.
Qed.

Lemma skip_dstars_next l : Forall (fun p => p <> "**") (take 1 (drop (skip_dstars l) l)).
Proof. induction l as [|p l IH]; cbn; [constructor|]. case_decide; cbn; [done|]. by repeat constructor. Qed.

(** The loop returns, and answers whether the rest of the room is an
    instance of the rest of the pattern. *)
Lemma matchRoom_loop_spec fuel pt rm pt_i rm_i :
  pt_i < length pt -> rm_i < length rm -> length pt - pt_i <= fuel ->
  exists b, matchRoom_loop fuel pt rm pt_i rm_i = Ret b /\
    (b = true <-> glob (drop pt_i pt) (drop rm_i rm)).
Proof.
  revert pt rm pt_i rm_i. induction fuel as [|fuel IH]; intros pt rm pt_i rm_i Hp Hr Hf; [lia|].
  destruct (lookup_lt_is_Some_2 pt pt_i Hp) as [p Ep].
  destruct (lookup_lt_is_Some_2 rm rm_i Hr) as [r Er].
  cbn [matchRoom_loop].
  rewrite (go_index_some pt _ p) by (rewrite ?Nat2Z.id; lia || done). rewrite bind_ret_l.
  rewrite (go_index_some rm _ r) by (rewrite ?Nat2Z.id; lia || done). rewrite bind_ret_l.
  rewrite (drop_S pt p pt_i Ep), (drop_S rm r rm_i Er).
  case_decide as Hds.
  - subst p. set (rest := drop (pt_i + 1) pt).
    replace (drop (S pt_i) pt) with rest by (unfold rest; f_equal; lia).
    pose proof (skip_dstars_le rest) as Hle.
    assert (length rest = length pt - pt_i - 1) as Hlen by (unfold rest; rewrite length_drop; lia).
    case_decide as Hend.
    + exists true. split; [done|]. split; [|done]. intros _. apply glob_all_dstar; [done|].
      constructor; [done|]. apply skip_dstars_all. lia.
    + set (k := skip_dstars rest) in *. set (tl := drop k rest).
      assert (drop (pt_i + 1 + k) pt = tl) as Etl by (unfold tl, rest; rewrite drop_drop; f_equal; lia).
      assert (length tl = length rest - k) as Htl by (unfold tl; by rewrite length_drop).
      rewrite Etl.
      destruct (run_any_spec
        (fun j => matchRoom_loop fuel tl (drop j rm) 0 0)
        (fun j => glob tl (drop j rm)) (seq rm_i (length rm - rm_i))) as (b & -> & Hb).
      { intros j Hj. rewrite elem_of_seq in Hj. destruct (IH tl (drop j rm) 0 0) as (b & Hb1 & Hb2);
          rewrite ?length_drop; try lia. exists b. split; [done|]. by rewrite !drop_0 in Hb2. }
      exists b. split; [done|]. rewrite Hb.
      rewrite (skip_dstars_split rest). fold k tl.
      trans (glob ("**" :: tl) (drop rm_i rm)).
      * rewrite glob_dstar_suffix; [|apply skip_dstars_next|].
        -- split; intros (j & Hj & H); exists j; (split; [|done]); [apply elem_of_seq in Hj|apply elem_of_seq]; lia.
        -- intros E. rewrite E in Htl. cbn in Htl. lia.
      * by rewrite (drop_S rm r rm_i Er), glob_dstars.
  - case_decide as Hm.
    + pose proof (glob_cons_iff p (drop (S pt_i) pt) r (drop (S rm_i) rm) Hds) as Hc.
      case_decide as He1.
      * eexists. split; [done|]. rewrite Hc, (drop_ge pt), glob_nil_iff, bool_decide_eq_true by lia.
        split; [intros ->; split; [done|]; apply drop_ge; lia|].
        intros [_ E]. apply (f_equal length) in E. rewrite length_drop in E. cbn in E. lia.
      * case_decide as He2.
        -- rewrite decide_False by lia. eexists. split; [done|].
           rewrite Hc, (drop_ge rm), glob_dstar_nil by lia.
           rewrite <- Is_true_true, forallb_True, !Forall_forall.
           setoid_rewrite bool_decide_spec. tauto.
        -- destruct (IH pt rm (S pt_i) (S rm_i)) as (b & -> & Hb); try lia.
           exists b. split; [done|]. tauto.
    + exists false. split; [done|]. split; [done|]. intros H. apply glob_cons_iff in H; tauto.
Qed.

Lemma matchRoom_spec pt rm : pt <> [] -> rm <> [] ->
  exists b, matchRoom pt rm = Ret b /\ (b = true <-> glob pt rm).
Proof.
  intros Hp Hr. unfold matchRoom.
  destruct (matchRoom_loop_spec (S (length pt)) pt rm 0 0) as (b & H1 & H2);
    [destruct pt; [done|cbn; lia] | destruct rm; [done|cbn; lia] | lia |].
  exists b. by rewrite !drop_0 in H2.
Qed.

(** ** What the two checks accept *)

Ltac case_ascii_dec c :=
  match goal with |- context [Ascii.ascii_dec ?a c] => destruct (Ascii.ascii_dec a c) end.

Lemma HasSuffix_dot_cons c s :
  HasSuffix (String c s) "." = (bool_decide (c = dot) && bool_decide (s = "")) || HasSuffix s ".".
Proof.
  cbn [HasSuffix]. case_decide as H.
  - injection H as -> ->. done.
  - destruct (decide (c = dot)) as [->|]; [|by rewrite bool_decide_false].
    destruct (decide (s = "")) as [->|]; [done|]. by rewrite (bool_decide_false (s = "")).
Qed.

Lemma Contains_dots_cons c s :
  Contains (String c s) ".." = (bool_decide (c = dot) && HasPrefix s ".") || Contains s "..".
Proof.
  cbn [Contains String.prefix HasPrefix]. unfold HasPrefix.
  case_ascii_dec c; subst.
  - rewrite bool_decide_true by done. by destruct (String.prefix "." s).
  - by rewrite (bool_decide_false (c = dot)) by (unfold dot; congruence).
Qed.

Lemma HasPrefix_dot_cons c s : HasPrefix (String c s) "." = bool_decide (c = dot).
Proof.
  unfold HasPrefix. cbn [String.prefix]. case_ascii_dec c; subst; [by destruct s|].
  by rewrite bool_decide_false by (unfold dot; congruence).
Qed.

Lemma Split_cons_ne c s : c <> dot ->
  exists p ps, Split dot s = p :: ps /\ Split dot (String c s) = String c p :: ps.
Proof.
  intros Hc. destruct (Split_cons dot s) as (p & ps & E). exists p, ps.
  split; [done|]. cbn [Split]. by rewrite decide_False, E.
Qed.

(** The segments after the first are nonempty iff there is no [".."]
    and no trailing dot; all are iff there is no leading dot either. *)
Lemma Split_nonempty_aux s :
  (Forall (fun p => p <> "") (tail (Split dot s)) <->
   Contains s ".." = false /\ HasSuffix s "." = false) /\
  (Forall (fun p => p <> "") (Split dot s) <->
   s <> "" /\ Contains s ".." = false /\ HasPrefix s "." = false /\ HasSuffix s "." = false).
Proof.
  induction s as [|c s [IHt IHa]].
  { cbn. split; [by repeat constructor|]. split; [by inversion 1|tauto]. }
  rewrite HasSuffix_dot_cons, Contains_dots_cons, HasPrefix_dot_cons, !orb_false_iff.
  destruct (decide (c = dot)) as [->|Hc].
  - cbn [Split]. rewrite decide_True by done. cbn [tail].
    rewrite (bool_decide_true (dot = dot)) by done. cbn [andb].
    rewrite bool_decide_eq_false. split; [rewrite IHa; tauto|]. split; [by inversion 1|naive_solver].
  - destruct (Split_cons_ne c s Hc) as (p & ps & E1 & E2). rewrite E2, E1 in *. cbn [tail] in *.
    rewrite (bool_decide_false (c = dot)) by done. cbn [andb]. rewrite Forall_cons, IHt.
    split; naive_solver.
Qed.

Lemma Split_nonempty s :
  Forall (fun p => p <> "") (Split dot s) <->
  s <> "" /\ Contains s ".." = false /\ HasPrefix s "." = false /\ HasSuffix s "." = false.
Proof. apply Split_nonempty_aux. Qed.

(** ** Properties *)

(** A pattern is accepted iff none of its dotted segments is empty. *)
Definition valid_pattern (pattern : string) : Prop :=
  Forall (fun p => p <> "") (Split dot pattern).

(** A room is accepted iff, moreover, no segment contains a star. *)
Definition valid_room (room : string) : Prop :=
  Forall (fun p => p <> "" /\ has_char (Ascii.ascii_of_nat 42) p = false) (Split dot room).

Lemma CheckPattern_spec pattern :
  (valid_pattern pattern /\ CheckPattern pattern = Ret tt) \/
  (~ valid_pattern pattern /\ CheckPattern pattern = go_panic (PCode InvalidParam_code)).
Proof.
  unfold valid_pattern, CheckPattern. rewrite Split_nonempty.
  case_decide; [right; naive_solver|].
  destruct (Contains pattern ".."), (HasPrefix pattern "."), (HasSuffix pattern "."); cbn;
    (right; split; [naive_solver|done]) || (left; done).
Qed.

Lemma CheckRoom_spec room :
  (valid_room room /\ CheckRoom room = Ret tt) \/
  (~ valid_room room /\ CheckRoom room = go_panic (PCode InvalidParam_code)).
Proof.
  assert (valid_room room <-> has_char (Ascii.ascii_of_nat 42) room = false /\
            Forall (fun p => p <> "") (Split dot room)) as ->.
  { unfold valid_room. rewrite Forall_and, <- Split_has_char_iff by done. tauto. }
  unfold CheckRoom. rewrite Split_nonempty.
  change (Contains room "*") with (Contains room (String (Ascii.ascii_of_nat 42) "")).
  rewrite Contains_char.
  case_decide; [right; naive_solver|].
  destruct (has_char _ room), (Contains room ".."), (HasPrefix room "."), (HasSuffix room ".");
    cbn; (right; split; [naive_solver|done]) || (left; naive_solver).
Qed.

Lemma MatchRoom_spec pattern room :
  valid_pattern pattern -> valid_room room ->
  exists b, MatchRoom pattern room = Ret b /\
    (b = true <-> glob (Split dot pattern) (Split dot room)).
Proof.
  intros Hp Hr. unfold MatchRoom.
  destruct (CheckPattern_spec pattern) as [[_ ->]|[? _]]; [|done]. cbn.
  destruct (CheckRoom_spec room) as [[_ ->]|[? _]]; [|done]. cbn.
  case_decide as Hs.
  - exists true. split; [done|]. split; [intros _|done]. destruct Hs as [-> | ->].
    + apply glob_self. eapply Forall_impl; [exact Hr|]. cbn. by intros ? [_ H] ->.
    + apply glob_all_dstar; [done|]. by repeat constructor.
  - apply matchRoom_spec; apply Split_ne.
Qed.

(** C34.  [MatchRoom] never crashes or loops on a valid pattern and a
    valid room, and answers exactly whether the room's segments are an
    instance of the pattern's, ["*"] standing for one segment and
    ["**"] for any number of them. *)
Theorem MatchRoom_correct pattern room :
  valid_pattern pattern -> valid_room room ->
  exists b, MatchRoom pattern room = Ret b /\
    (b = true <-> glob (Split dot pattern) (Split dot room)).
Proof. apply MatchRoom_spec. Qed.

Lemma MatchRoom_correct_witness :
  exists b, MatchRoom "a.**.e.*" "a.x.e.c" = Ret b /\
    (b = true <-> glob (Split dot "a.**.e.*") (Split dot "a.x.e.c")).
Proof. apply MatchRoom_correct; unfold valid_pattern, valid_room; cbn; repeat constructor; done. Defined.

(** [MatchRoom] panics with [InvalidParam] exactly when the pattern
    has an empty dotted segment, or the room has an empty segment or a
    star. *)
Theorem MatchRoom_panics pattern room :
  MatchRoom pattern room = go_panic (PCode InvalidParam_code) <->
  ~ valid_pattern pattern \/ ~ valid_room room.
Proof.
  destruct (CheckPattern_spec pattern) as [[Hp Ep]|[Hp Ep]];
    [|unfold MatchRoom; rewrite Ep; cbn; tauto].
  destruct (CheckRoom_spec room) as [[Hr Er]|[Hr Er]];
    [|unfold MatchRoom; rewrite Ep, Er; cbn; tauto].
  split; [|tauto]. intros H. exfalso.
  unfold MatchRoom in H. rewrite Ep, Er, !bind_ret_l in H. case_decide; [done|].
  destruct (matchRoom_spec (Split dot pattern) (Split dot room)) as (b & Hb & _);
    [apply Split_ne.. | by rewrite Hb in H].
Qed.
