(* ===== verification/PatternMap.v ===== *)
(** * The pattern trie: [PatternTree] and [PatternMap] of [signal/utils.go]

    Callbacks are registered under room patterns in a trie of pattern
    segments; [Collect] walks it with the segments of a room.  The walk is
    shown to return exactly the data stored under the patterns that
    [glob] accepts, i.e. to agree with [MatchRoom], and
    [UpdatePatternData] to be a pointwise update of the stored map.

    A node owns its children, so the pointers of the source are modelled
    by nesting.  [hasData]/[data] is an option: the source keeps [data] at
    its zero value whenever [hasData] is false.  A mapper
    [func(old T, found bool) (new T, remove bool)] is a function
    [option T -> option T]: the argument is [None] when nothing is found,
    the result [None] when [remove] is true. *)
From S2P Require Import Prelude GoStrings RoomPattern.
Local Open Scope string_scope.
Local Open Scope list_scope.

(** ** The code *)

#[warnings="-register-all"]
Inductive PatternTree (T : Type) :=
  PNode { children : gmap string (PatternTree T); data : option T }.
Arguments PNode {T} _ _.
Arguments children {T} _.
Arguments data {T} _.

Section Trie.
Context {T : Type}.
Implicit Types (t : PatternTree T) (inner : gmap string (PatternTree T)).

Definition IsEmpty t : bool :=
  bool_decide (data t = None) && bool_decide (children t = ∅).

Definition emptyTree : PatternTree T := PNode ∅ None.

(** [PatternTree.removePatternData]: clears the data at the path and
    prunes the children that became empty on the way back. *)
Fixpoint tree_remove (pList : list string) t : PatternTree T :=
  match pList with
  | [] => PNode (children t) None
  | key :: rest =>
      match children t !! key with
      | Some next =>
          let next' := tree_remove rest next in
          if IsEmpty next' then PNode (delete key (children t)) (data t)
          else PNode (<[key:=next']> (children t)) (data t)
      | None => t
      end
  end.

(** The loop [for found { ... pt, found = pt.children["**"] }]. *)
Fixpoint dstar_chain (fuel : nat) (cs : gmap string (PatternTree T)) (results : list T) : list T :=
  match fuel with
  | 0 => results
  | S fuel =>
      match cs !! "**" with
      | Some pt =>
          let results := match data pt with Some d => results ++ [d] | None => results end in
          dstar_chain fuel (children pt) results
      | None => results
      end
  end.

(** [PatternTree.collect].  Every call shortens the room or descends in
    the tree, so [height + length] bounds the depth of the recursion. *)
Fixpoint collect (fuel : nat) t (mList : list string) (doubleStar : bool) (results : list T)
    : list T :=
  match fuel with
  | 0 => results
  | S fuel =>
      match mList with
      | [] =>
          let results := match data t with Some d => results ++ [d] | None => results end in
          dstar_chain (S fuel) (children t) results
      | key :: rest =>
          let results :=
            if doubleStar then
              match data t with Some d => results ++ [d] | None => results end
            else results in
          let results := match children t !! "**" with
            | Some pt => collect fuel pt mList true results | None => results end in
          let results := match children t !! "*" with
            | Some pt => collect fuel pt rest false results | None => results end in
          let results := match children t !! key with
            | Some pt => collect fuel pt rest false results | None => results end in
          if doubleStar then
            fold_left (fun results i => collect fuel t (drop i mList) false results)
              (seq 1 (length mList - 1)) results
          else results
      end
  end.

Fixpoint height t : nat :=
  match t with
  | PNode cs _ => S (map_fold (fun _ c acc => Nat.max (height c) acc) 0 cs)
  end.

End Trie.

(** A [PatternMap]: [inner] may be nil ([None]). *)
Record PatternMap (T : Type) := { inner : option (gmap string (PatternTree T)) }.
Arguments Build_PatternMap {T} _.
Arguments inner {T} _.

Section Map.
Context {T : Type}.

Definition NewPatternMap : PatternMap T := {| inner := None |}.

(** [PatternMap.removePatternData]; the root's children are not pruned. *)
Definition removePatternData (pm : PatternMap T) (pList : list string) : run (PatternMap T) :=
  match inner pm with
  | None => Ret pm
  | Some m =>
      match pList with
      | [] => go_panic (PCode 10000000)
      | key :: rest =>
          match m !! key with
          | Some pt => Ret {| inner := Some (<[key := tree_remove rest pt]> m) |}
          | None => Ret pm
          end
      end
  end.

(** The descent of [UpdatePatternData], from the map of children reached so
    far: missing intermediate nodes are created; at the last segment the
    mapper decides.  The second component tells that it asked for removal. *)
Fixpoint update_walk (pList : list string) (mapper : option T -> option T)
    (m : gmap string (PatternTree T)) : gmap string (PatternTree T) * bool :=
  match pList with
  | [] => (m, false)
  | [p] =>
      match m !! p with
      | Some pt =>
          match mapper (data pt) with
          | Some new => (<[p := PNode (children pt) (Some new)]> m, false)
          | None => (m, true)
          end
      | None =>
          match mapper None with
          | Some new => (<[p := PNode ∅ (Some new)]> m, false)
          | None => (m, true)
          end
      end
  | p :: rest =>
      let pt := default emptyTree (m !! p) in
      let '(cs, remove) := update_walk rest mapper (children pt) in
      (<[p := PNode cs (data pt)]> m, remove)
  end.

Definition UpdatePatternData (pm : PatternMap T) (pattern : string)
    (mapper : option T -> option T) : run (PatternMap T) :=
  CheckPattern pattern;;
  let pList := Split dot pattern in
  let m := default ∅ (inner pm) in
  let '(m', remove) := update_walk pList mapper m in
  let pm' := {| inner := Some m' |} in
  if (remove : bool) then removePatternData pm' pList else Ret pm'.

Definition Collect (pm : PatternMap T) (toMatch : string) : run (list T) :=
  CheckRoom toMatch;;
  match inner pm with
  | None => Ret []
  | Some m =>
      match Split dot toMatch with
      | [] => go_panic PIndex
      | key :: leftKeys =>
          let fuel := (height (PNode m None) + length (key :: leftKeys))%nat in
          let results := match m !! "**" with
            | Some pt => collect fuel pt (key :: leftKeys) true [] | None => [] end in
          let results := match m !! "*" with
            | Some pt => collect fuel pt leftKeys false results | None => results end in
          Ret (match m !! key with
            | Some pt => collect fuel pt leftKeys false results | None => results end)
      end
  end.
End Map.

(** ** The abstract map *)

Section Spec.
Context {T : Type}.
Implicit Types (t : PatternTree T) (m : gmap string (PatternTree T)) (d : T).

(** The data stored at a path of segments. *)
Fixpoint tree_get t (path : list string) : option T :=
  match path with
  | [] => data t
  | k :: path' => children t !! k ≫= fun c => tree_get c path'
  end.

Definition pm_get (pm : PatternMap T) (path : list string) : option T :=
  tree_get (PNode (default ∅ (inner pm)) None) path.

Lemma root_get_cons m x k q :
  tree_get (PNode m x) (k :: q) = m !! k ≫= fun c => tree_get c q.
Proof. reflexivity. Qed.

Lemma height_child m k c x : m !! k = Some c -> height c < height (PNode m x).
Proof.
  intros H. cbn. cut (height c <= map_fold (fun _ c acc => Nat.max (height c) acc) 0 m); [lia|].
  rewrite (map_fold_delete_L _ _ k c m); [lia | intros; lia | done].
Qed.

(** ** [collect] finds the matching patterns *)

Definition matches t (ml : list string) d : Prop :=
  exists path, tree_get t path = Some d /\ glob path ml.

Definition dmatches t (ml : list string) d : Prop :=
  exists path, tree_get t path = Some d /\ glob ("**" :: path) ml.

Lemma matches_cons t key rest d :
  matches t (key :: rest) d <->
  (exists pt, children t !! "**" = Some pt /\ dmatches pt (key :: rest) d) \/
  (exists pt, children t !! "*" = Some pt /\ matches pt rest d) \/
  (exists pt, children t !! key = Some pt /\ matches pt rest d).
Proof.
  split.
  - intros ([|k path] & Hg & Hm); [by apply glob_nil_iff in Hm|].
    cbn in Hg. apply bind_Some in Hg as (pt & Hk & Hg).
    destruct (decide (k = "**")) as [->|Hne]; [left; exists pt; split; [done|by exists path]|].
    apply glob_cons_iff in Hm as [[-> | ->] Hm]; [..|done].
    + right; left. exists pt. split; [done|by exists path].
    + right; right. exists pt. split; [done|by exists path].
  - intros [(pt & Hk & path & Hg & Hm)|[(pt & Hk & path & Hg & Hm)|(pt & Hk & path & Hg & Hm)]].
    + exists ("**" :: path). cbn. by rewrite Hk.
    + exists ("*" :: path). cbn. rewrite Hk. auto with glob.
    + exists (key :: path). cbn. rewrite Hk. split; [done|].
      destruct (decide (key = "**")) as [->|]; auto with glob.
Qed.

Lemma dmatches_iff t ml d :
  dmatches t ml d <->
  data t = Some d \/ matches t ml d \/
  exists i, i ∈ seq 1 (length ml - 1) /\ matches t (drop i ml) d.
Proof.
  split.
  - intros (path & Hg & Hm). destruct path as [|k path]; [by left|right].
    apply glob_dstar_iff in Hm as [n Hm]. destruct (decide (length ml <= n)) as [Hn|Hn].
    + rewrite drop_ge in Hm by done. apply glob_dstar_nil in Hm.
      left. exists (k :: path). split; [done|]. by apply glob_all_dstar.
    + destruct n as [|n]; [left; exists (k :: path); by rewrite drop_0 in Hm|].
      right. exists (S n). split; [apply elem_of_seq; lia|]. by exists (k :: path).
  - intros [Hd|[(path & Hg & Hm)|(i & _ & path & Hg & Hm)]].
    + exists []. split; [done|]. apply glob_all_dstar; [done|by repeat constructor].
    + exists path. auto with glob.
    + exists path. split; [done|]. apply glob_dstar_iff. eauto.
Qed.

Lemma matches_nil t d :
  matches t [] d <-> exists n, tree_get t (replicate n "**") = Some d.
Proof.
  split.
  - intros (path & Hg & Hm). apply glob_dstar_nil in Hm. exists (length path).
    replace (replicate (length path) "**") with path; [done|].
    clear Hg. induction Hm; cbn; congruence.
  - intros [n Hn]. exists (replicate n "**"). split; [done|]. apply glob_dstar_nil.
    by apply Forall_replicate.
Qed.

Lemma elem_of_option_app (o : option T) (l : list T) d :
  d ∈ match o with Some x => l ++ [x] | None => l end <-> d ∈ l \/ o = Some d.
Proof. destruct o; [rewrite elem_of_app, list_elem_of_singleton|]; naive_solver. Qed.

Lemma dstar_chain_spec fuel m res d :
  height (PNode m None) <= S fuel ->
  d ∈ dstar_chain fuel m res <->
  d ∈ res \/ exists n, tree_get (PNode m None) (replicate (S n) "**") = Some d.
Proof.
  revert m res. induction fuel as [|fuel IH]; intros m res Hf; cbn [dstar_chain].
  - split; [tauto|]. intros [?|(n & Hn)]; [done|]. cbn in Hn. apply bind_Some in Hn as (c & Hc & _).
    apply (height_child _ _ _ None) in Hc. cbn in *. destruct c; cbn in *; lia.
  - cbn [replicate tree_get children]. destruct (m !! "**") as [pt|] eqn:E.
    + cbn. rewrite IH.
      2: { apply (height_child _ _ _ None) in E. destruct pt; cbn in *; lia. }
      rewrite elem_of_option_app. destruct pt as [cs x]. cbn [children data]. split.
      * intros [[?|?]|(n & Hn)]; [by left|right; by exists 0|right; by exists (S n)].
      * intros [?|([|n] & Hn)]; [by left; left|by left; right|right; by exists n].
    + split; [tauto|]. by intros [?|(n & Hn)].
Qed.

Lemma fold_collect_spec {A} (f : A -> list T -> list T) (Q : A -> T -> Prop) l res d :
  (forall a r, a ∈ l -> d ∈ f a r <-> d ∈ r \/ Q a d) ->
  d ∈ fold_left (fun r a => f a r) l res <-> d ∈ res \/ exists a, a ∈ l /\ Q a d.
Proof.
  revert res. induction l as [|a l IH]; intros res H; cbn.
  - split; [tauto|]. intros [?|(a & Ha & _)]; [done|]. by apply not_elem_of_nil in Ha.
  - rewrite IH by (intros; apply H; by right). rewrite H by left.
    setoid_rewrite elem_of_cons. naive_solver.
Qed.

Lemma opt_collect (o : option (PatternTree T)) (f : PatternTree T -> list T -> list T)
    (Q : PatternTree T -> Prop) res d :
  (forall c, o = Some c -> d ∈ f c res <-> d ∈ res \/ Q c) ->
  d ∈ match o with Some c => f c res | None => res end <->
  d ∈ res \/ exists c, o = Some c /\ Q c.
Proof. destruct o; intros H; [rewrite H by done|]; naive_solver. Qed.

Lemma collect_spec fuel t ml ds res d :
  height t + length ml <= fuel -> (ds = true -> ml <> []) ->
  d ∈ collect fuel t ml ds res <->
  d ∈ res \/ (if ds then dmatches t ml d else matches t ml d).
Proof.
  revert t ml ds res. induction fuel as [|fuel IH]; intros t ml ds res Hf Hds.
  { destruct t; cbn in Hf; lia. }
  destruct ml as [|key rest].
  { destruct ds; [by destruct Hds|]. cbn [collect]. destruct t as [cs x]. cbn [data children].
    rewrite dstar_chain_spec by (cbn in *; lia). rewrite elem_of_option_app, matches_nil. split.
    - intros [[?|?]|[n Hn]]; [by left|right; by exists 0|right; by exists (S n)].
    - intros [?|([|n] & Hn)]; [by left; left|by left; right|right; by exists n]. }
  assert (forall k c, children t !! k = Some c -> height c < height t) as Hh.
  { intros k c. destruct t. apply height_child. }
  cbn [collect]. set (r0 := if ds then _ else res).
  set (r3 := match children t !! key with Some pt => collect fuel pt rest false _ | None => _ end).
  assert (d ∈ r0 <-> d ∈ res \/ (ds = true /\ data t = Some d)) as H0.
  { unfold r0. destruct ds; [rewrite elem_of_option_app|]; naive_solver. }
  assert (d ∈ r3 <-> d ∈ r0 \/ matches t (key :: rest) d) as H3.
  { unfold r3. cbn in Hf.
    rewrite (opt_collect _ (fun pt r => collect fuel pt rest false r) (fun c => matches c rest d))
      by (intros c Hc; apply IH; [apply Hh in Hc; lia|done]).
    rewrite (opt_collect _ (fun pt r => collect fuel pt rest false r) (fun c => matches c rest d))
      by (intros c Hc; apply IH; [apply Hh in Hc; lia|done]).
    rewrite (opt_collect _ (fun pt r => collect fuel pt (key :: rest) true r)
               (fun c => dmatches c (key :: rest) d))
      by (intros c Hc; apply IH; [apply Hh in Hc; cbn; lia|done]).
    rewrite matches_cons. tauto. }
  destruct ds; [|naive_solver].
  rewrite (fold_collect_spec (fun i r => collect fuel t (drop i (key :: rest)) false r)
             (fun i d => matches t (drop i (key :: rest)) d)).
  - rewrite H3, H0, dmatches_iff. naive_solver.
  - intros i r Hi. apply IH; [|done]. apply elem_of_seq in Hi. rewrite length_drop. cbn in *. lia.
Qed.

Lemma collect_child_plain fuel (o : option (PatternTree T)) ml res d :
  (forall c, o = Some c -> height c + length ml <= fuel) ->
  d ∈ match o with Some pt => collect fuel pt ml false res | None => res end <->
  d ∈ res \/ exists c, o = Some c /\ matches c ml d.
Proof.
  intros H. apply (opt_collect o (fun pt r => collect fuel pt ml false r)).
  intros c Hc. by apply (collect_spec fuel c ml false); [apply H|].
Qed.

Lemma collect_child_dstar fuel (o : option (PatternTree T)) ml res d :
  (forall c, o = Some c -> height c + length ml <= fuel) -> ml <> [] ->
  d ∈ match o with Some pt => collect fuel pt ml true res | None => res end <->
  d ∈ res \/ exists c, o = Some c /\ dmatches c ml d.
Proof.
  intros H Hne. apply (opt_collect o (fun pt r => collect fuel pt ml true r)).
  intros c Hc. by apply (collect_spec fuel c ml true); [apply H|].
Qed.
End Spec.

Section Update.
Context {T : Type}.
Implicit Types (t : PatternTree T) (m : gmap string (PatternTree T)) (d : T).

Lemma tree_get_empty t q : IsEmpty t = true -> tree_get t q = None.
Proof.
  unfold IsEmpty. intros [Hd Hc]%andb_true_iff. apply bool_decide_eq_true in Hd, Hc.
  destruct q; cbn; [done|]. by rewrite Hc, lookup_empty.
Qed.

(** [removePatternData] clears the one path and keeps the others, the
    pruning of empty nodes included. *)
Lemma tree_remove_get p t q :
  tree_get (tree_remove p t) q = if decide (q = p) then None else tree_get t q.
Proof.
  revert t q. induction p as [|k p IH]; intros t q; cbn [tree_remove].
  { destruct q; cbn; [done|]. by rewrite decide_False. }
  destruct (children t !! k) as [next|] eqn:Hk.
  - destruct q as [|k' q]; [destruct (IsEmpty _); cbn; by rewrite decide_False|].
    assert (tree_get (if IsEmpty (tree_remove p next)
        then PNode (delete k (children t)) (data t)
        else PNode (<[k:=tree_remove p next]> (children t)) (data t)) (k' :: q)
      = if decide (k' = k) then tree_get (tree_remove p next) q else tree_get t (k' :: q)) as ->.
    { destruct (IsEmpty (tree_remove p next)) eqn:He; cbn.
      - case_decide as Hkk; [subst; by rewrite lookup_delete_eq, tree_get_empty|].
        by rewrite lookup_delete_ne.
      - case_decide as Hkk; [subst; by rewrite lookup_insert_eq|]. by rewrite lookup_insert_ne. }
    rewrite IH. cbn. repeat case_decide; simplify_eq; try done. by rewrite Hk.
  - case_decide as Hq; [|done]. subst. cbn. by rewrite Hk.
Qed.

Lemma update_walk_get p mapper m :
  p <> [] ->
  let get m q := tree_get (PNode m None) q in
  let '(m', remove) := update_walk p mapper m in
  match mapper (get m p) with
  | Some new => remove = false /\ forall q, get m' q = if decide (q = p) then Some new else get m q
  | None => remove = true /\ forall q, get m' q = get m q
  end.
Proof.
  revert m. induction p as [|k p IH]; intros m Hne; [done|]. clear Hne.
  destruct p as [|k2 p].
  { cbn. destruct (m !! k) as [pt|] eqn:Hk; cbn.
    - destruct (mapper (data pt)) as [new|]; [|done]. split; [done|].
      intros [|k' q]; cbn; [done|]. destruct (decide (k = k')) as [<-|Hkk].
      + rewrite lookup_insert_eq, Hk. cbn. destruct q; cbn; repeat case_decide; simplify_eq; done.
      + rewrite lookup_insert_ne by done. by rewrite decide_False by congruence.
    - destruct (mapper None) as [new|]; [|done]. split; [done|].
      intros [|k' q]; cbn; [done|]. destruct (decide (k = k')) as [<-|Hkk].
      + rewrite lookup_insert_eq, Hk. cbn. destruct q; cbn; repeat case_decide; simplify_eq; done.
      + rewrite lookup_insert_ne by done. by rewrite decide_False by congruence. }
  set (p' := k2 :: p) in *. cbn [update_walk]. fold p'.
  set (pt := default emptyTree (m !! k)).
  assert (forall q, tree_get (PNode m None) (k :: q) = tree_get pt q) as Hpt.
  { intros q. unfold pt. cbn. destruct (m !! k); cbn; [done|]. by rewrite tree_get_empty. }
  assert (forall q, q <> [] -> tree_get pt q = tree_get (PNode (children pt) None) q) as Hroot.
  { by intros [|? ?]. }
  specialize (IH (children pt) ltac:(done)). cbn zeta in *.
  assert (forall cs k' q, tree_get (PNode (<[k := PNode cs (data pt)]> m) None) (k' :: q) =
    if decide (k' = k) then tree_get (PNode cs (data pt)) q else tree_get (PNode m None) (k' :: q)) as Hins.
  { intros cs k' q. cbn. case_decide as Hkk; [subst; by rewrite lookup_insert_eq|].
    by rewrite lookup_insert_ne. }
  rewrite Hpt, Hroot by done.
  change (update_walk (k :: p') mapper m) with
    (let '(cs, remove) := update_walk p' mapper (children pt) in
     (<[k := PNode cs (data pt)]> m, remove)).
  destruct (update_walk p' mapper (children pt)) as [cs remove].
  assert (forall cs q, q <> [] -> tree_get (PNode cs (data pt)) q = tree_get (PNode cs None) q) as Hd
    by (by intros ? [|? ?]).
  destruct (mapper (tree_get (PNode (children pt) None) p')) as [new|];
    destruct IH as [-> IH]; (split; [done|]); intros [|k' q]; try done; rewrite Hins;
    (case_decide as Hkk; [subst k'; rewrite Hpt | by rewrite ?decide_False by congruence]);
    (destruct q as [|k3 q]; [by rewrite ?decide_False|]); rewrite Hd, IH, <- ?Hroot by done.
  - destruct (decide (k3 :: q = p')) as [->|]; [by rewrite decide_True|].
    by rewrite decide_False by congruence.
  - done.
Qed.
End Update.

(** ** Properties *)
Section Properties.
Context {T : Type}.
Implicit Types (pm : PatternMap T) (d : T).

Lemma Collect_spec pm room :
  valid_room room ->
  exists l, Collect pm room = Ret l /\
    forall d, d ∈ l <-> exists path, pm_get pm path = Some d /\ glob path (Split dot room).
Proof.
  intros Hr. unfold Collect, pm_get.
  destruct (CheckRoom_spec room) as [[_ ->]|[? _]]; [|done]. rewrite bind_ret_l.
  destruct (inner pm) as [m|].
  2: { exists []. split; [done|]. intros d. split; [by intros ?%not_elem_of_nil|].
       intros ([|k q] & Hg & _); [done|]. cbn in Hg. by rewrite lookup_empty in Hg. }
  destruct (Split_cons dot room) as (key & rest & ->). eexists. split; [reflexivity|].
  intros d. change (exists path, tree_get (PNode (default ∅ (Some m)) None) path = Some d /\
    glob path (key :: rest)) with (matches (PNode m None) (key :: rest) d).
  rewrite matches_cons. cbn [children].
  assert (forall k c, m !! k = Some c -> height c < height (PNode m None)) as Hh
    by (intros; by eapply height_child).
  set (fuel := (height (PNode m None) + _)%nat). cbn [length] in fuel.
  rewrite !collect_child_plain, collect_child_dstar;
    try done; try (intros c Hc; apply Hh in Hc; unfold fuel; cbn [length]; lia).
  rewrite elem_of_nil. tauto.
Qed.

Lemma UpdatePatternData_spec pm pattern mapper :
  valid_pattern pattern ->
  exists pm', UpdatePatternData pm pattern mapper = Ret pm' /\
    forall path, pm_get pm' path =
      if decide (path = Split dot pattern) then mapper (pm_get pm path) else pm_get pm path.
Proof.
  intros Hv. unfold UpdatePatternData.
  destruct (CheckPattern_spec pattern) as [[_ ->]|[? _]]; [|done]. rewrite bind_ret_l.
  pose proof (update_walk_get (Split dot pattern) mapper (default ∅ (inner pm)) (Split_ne _ _)) as H.
  cbn zeta in H. destruct (update_walk _ _ _) as [m' remove].
  destruct (Split_cons dot pattern) as (key & rest & E). rewrite E in *.
  destruct (mapper _) as [new|] eqn:Em; destruct H as [-> H].
  - eexists. split; [reflexivity|]. intros path. unfold pm_get. cbn. rewrite H.
    case_decide; [by subst|done].
  - unfold removePatternData. cbn.
    set (m0 := default ∅ (inner pm)) in *.
    destruct (m' !! key) as [pt|] eqn:Hk.
    + eexists. split; [reflexivity|]. intros [|k q]; unfold pm_get; cbn [inner default from_option id];
        fold m0; [done|].
      rewrite root_get_cons. destruct (decide (k = key)) as [->|Hne].
      * rewrite lookup_insert_eq. cbn [mbind option_bind]. rewrite tree_remove_get.
        destruct (decide (q = rest)) as [->|Hq]; [by rewrite decide_True|].
        rewrite (decide_False (P := key :: q = _)) by congruence.
        by rewrite <- (H (key :: q)), root_get_cons, Hk.
      * rewrite lookup_insert_ne by done. rewrite decide_False by congruence. by rewrite <- H.
    + eexists. split; [reflexivity|]. intros path. unfold pm_get. cbn [inner default from_option id].
      fold m0. rewrite H. case_decide; [subst|done].
      rewrite Em. by rewrite <- H, root_get_cons, Hk.
Qed.

(** [Collect] on a valid room returns (without running out of fuel or
    crashing) exactly the data stored under the patterns that match the
    room: the trie walk agrees with pattern matching. *)
Theorem Collect_correct pm room :
  valid_room room ->
  exists l, Collect pm room = Ret l /\
    forall d, d ∈ l <-> exists path, pm_get pm path = Some d /\ glob path (Split dot room).
Proof. apply Collect_spec. Qed.

(**  [UpdatePatternData] on a valid pattern applies the mapper at that
    pattern (removal included) and leaves the data of every other pattern
    as it was. *)
Theorem UpdatePatternData_correct pm pattern mapper :
  valid_pattern pattern ->
  exists pm', UpdatePatternData pm pattern mapper = Ret pm' /\
    forall path, pm_get pm' path =
      if decide (path = Split dot pattern) then mapper (pm_get pm path) else pm_get pm path.
Proof. apply UpdatePatternData_spec. Qed.
End Properties.

Definition sample_pm : run (PatternMap nat) :=
  pm ← UpdatePatternData NewPatternMap "a.**.b" (fun _ => Some 1);
  pm ← UpdatePatternData pm "a.*" (fun _ => Some 2);
  UpdatePatternData pm "c" (fun _ => Some 3).

Lemma Collect_correct_witness :
  exists pm, sample_pm = Ret pm /\ valid_room "a.b" /\
  exists l, Collect pm "a.b" = Ret l /\
    forall d, d ∈ l <-> exists path, pm_get pm path = Some d /\ glob path (Split dot "a.b").
Proof.
  eexists. split; [vm_compute; reflexivity|].
  assert (valid_room "a.b") as Hv by (unfold valid_room; cbn; repeat constructor; done).
  split; [exact Hv|]. apply Collect_correct. exact Hv.
Defined.

Lemma UpdatePatternData_correct_witness :
  exists pm', UpdatePatternData (T := nat) NewPatternMap "a.*" (fun _ => Some 7) = Ret pm' /\
    forall path, pm_get pm' path =
      if decide (path = Split dot "a.*") then Some 7 else pm_get (T := nat) NewPatternMap path.
Proof.
  apply (UpdatePatternData_correct NewPatternMap "a.*" (fun _ => Some 7)).
  unfold valid_pattern. cbn. repeat constructor; done.
Defined.

(** The two patterns that match are found, in trie order. *)
Example sample_collect : (pm ← sample_pm; Collect pm "a.b") = Ret [1; 2].
Proof. vm_compute. reflexivity. Qed.
