(* ===== verification/Pattern.v ===== *)
(** * Publication patterns: [model/pattern.go]

    A subscriber selects tracks with a tree of predicates.  [Validate]
    is the check made when a subscription arrives, [Match] the evaluation
    on a track, [MatchTracks] the selection of whole publications.  The
    pointers of the source that may be nil ([Children] and the labels
    map) are options; reading [Args[i+1]] past the end panics, as in Go. *)
From S2P Require Import Prelude Collection.
Local Open Scope string_scope.
Local Open Scope list_scope.

(** [errors.INVALID_PUB_PATTERN] *)
Definition INVALID_PUB_PATTERN : Z := 11000.

(** ** Data *)

(** The enum of the protocol; [PATTERN_OP_other] is any other number. *)
Inductive PatternOp :=
  | PATTERN_OP_ALL
  | PATTERN_OP_SOME
  | PATTERN_OP_NONE
  | PATTERN_OP_PUBLISH_ID
  | PATTERN_OP_STREAM_ID
  | PATTERN_OP_TRACK_ID
  | PATTERN_OP_TRACK_RID
  | PATTERN_OP_TRACK_LABEL_ALL_MATCH
  | PATTERN_OP_TRACK_LABEL_SOME_MATCH
  | PATTERN_OP_TRACK_LABEL_NONE_MATCH
  | PATTERN_OP_TRACK_LABEL_ALL_HAS
  | PATTERN_OP_TRACK_LABEL_SOME_HAS
  | PATTERN_OP_TRACK_LABEL_NONE_HAS
  | PATTERN_OP_TRACK_TYPE
  | PATTERN_OP_other (n : Z).

(** [PatternOp.String]. *)
Definition PatternOp_String (op : PatternOp) : string :=
  match op with
  | PATTERN_OP_ALL => "ALL"
  | PATTERN_OP_SOME => "SOME"
  | PATTERN_OP_NONE => "NONE"
  | PATTERN_OP_PUBLISH_ID => "PUBLISH_ID"
  | PATTERN_OP_STREAM_ID => "STREAM_ID"
  | PATTERN_OP_TRACK_ID => "TRACK_ID"
  | PATTERN_OP_TRACK_RID => "TRACK_RID"
  | PATTERN_OP_TRACK_LABEL_ALL_MATCH => "TRACK_LABEL_ALL_MATCH"
  | PATTERN_OP_TRACK_LABEL_SOME_MATCH => "TRACK_LABEL_SOME_MATCH"
  | PATTERN_OP_TRACK_LABEL_NONE_MATCH => "TRACK_LABEL_NONE_MATCH"
  | PATTERN_OP_TRACK_LABEL_ALL_HAS => "TRACK_LABEL_ALL_HAS"
  | PATTERN_OP_TRACK_LABEL_SOME_HAS => "TRACK_LABEL_SOME_HAS"
  | PATTERN_OP_TRACK_LABEL_NONE_HAS => "TRACK_LABEL_NONE_HAS"
  | PATTERN_OP_TRACK_TYPE => "TRACK_TYPE"
  | PATTERN_OP_other _ => "UNKNOWN"
  end.

#[warnings="-register-all"]
Inductive PublicationPattern :=
  Pat (Op : PatternOp) (Args : list string) (Children : list (option PublicationPattern)).

Record RTCPFeedback := { FbType : string; Parameter_ : string }.

Record RTPCodecParameters := {
  MimeType : string;
  ClockRate : Z;
  Channels : Z;
  SdpFmtpLine : string;
  RtcpFeedback : option (list RTCPFeedback);
  PayloadType : Z
}.

Record Track := {
  Type_ : string;
  PubId : string;
  GlobalId : string;
  LocalId : string;
  BindId : string;
  Rid : string;
  StreamId : string;
  Codec : option RTPCodecParameters;
  Labels : option (gmap string string)
}.

#[global] Instance RTCPFeedback_eq_dec : EqDecision RTCPFeedback.
Proof. solve_decision. Defined.
#[global] Instance RTPCodecParameters_eq_dec : EqDecision RTPCodecParameters.
Proof. solve_decision. Defined.
#[global] Instance Track_eq_dec : EqDecision Track.
Proof. solve_decision. Defined.

(** ** The code *)

(** [utils.InSlice(slice, target, nil)] at strings. *)
Definition in_slice (slice : list string) (target : string) : bool :=
  InSlice slice target None.

Definition checkArgsNum (args : list string) (n : nat) (atLeast : bool) : option gerror :=
  if negb atLeast && negb (length args =? n)%nat then Some (EConf INVALID_PUB_PATTERN)
  else if atLeast && (length args <? n)%nat then Some (EConf INVALID_PUB_PATTERN)
  else None.

(** Loop over the children: [f] is called until it reports an error. *)
Definition first_error {A} (f : A -> run (option gerror)) : list A -> run (option gerror) :=
  fix go l :=
    match l with
    | [] => Ret None
    | x :: l' => e ← f x; match e with Some e => Ret (Some e) | None => go l' end
    end.

(** Return [hit] at the first element that passes the test, [last] at the end. *)
Definition loop_until {A} (test : A -> run bool) (hit last : bool) : list A -> run bool :=
  fix go l :=
    match l with
    | [] => Ret last
    | x :: l' => b ← test x; if (b : bool) then Ret hit else go l'
    end.

(** The loop [for i := 0; i < len(args); { args[i], args[i+1]; i += 2 }]. *)
Fixpoint pairs_until (test : string -> string -> bool) (hit last : bool) (args : list string)
    : run bool :=
  match args with
  | [] => Ret last
  | [_] => go_panic PIndex
  | k :: v :: args' => if test k v then Ret hit else pairs_until test hit last args'
  end.

Fixpoint Validate (me : PublicationPattern) : run (option gerror) :=
  let 'Pat op args childs := me in
  let leaf (check : option gerror) : run (option gerror) :=
    if (0 <? length childs)%nat then Ret (Some (EConf INVALID_PUB_PATTERN)) else Ret check in
  let err := Some (EConf INVALID_PUB_PATTERN) in
  match op with
  | PATTERN_OP_ALL | PATTERN_OP_SOME | PATTERN_OP_NONE =>
      match checkArgsNum args 0 false with
      | Some e => Ret (Some e)
      | None =>
          first_error (fun c => match c with
                                | Some c => Validate c
                                | None => go_panic PNilDeref
                                end) childs
      end
  | PATTERN_OP_PUBLISH_ID | PATTERN_OP_STREAM_ID | PATTERN_OP_TRACK_ID | PATTERN_OP_TRACK_RID
  | PATTERN_OP_TRACK_LABEL_ALL_HAS | PATTERN_OP_TRACK_LABEL_SOME_HAS
  | PATTERN_OP_TRACK_LABEL_NONE_HAS => leaf (checkArgsNum args 1 true)
  | PATTERN_OP_TRACK_TYPE =>
      leaf (match checkArgsNum args 1 true with
            | Some e => Some e
            | None =>
                match args with
                | t :: _ => if decide (t <> "video" /\ t <> "audio") then err else None
                | [] => None
                end
            end)
  | PATTERN_OP_TRACK_LABEL_ALL_MATCH | PATTERN_OP_TRACK_LABEL_SOME_MATCH
  | PATTERN_OP_TRACK_LABEL_NONE_MATCH =>
      leaf (if (length args <? 2)%nat || negb (length args mod 2 =? 0)%nat then err else None)
  | PATTERN_OP_other _ => leaf err
  end.

Definition MatchLabel (me : Track) (name value : string) : bool :=
  match default ∅ (Labels me) !! name with
  | Some v => bool_decide (v = value)
  | None => false
  end.

Definition HasLabel (me : Track) (name : string) : bool :=
  match Labels me with
  | None => false
  | Some labels => bool_decide (is_Some (labels !! name))
  end.

Fixpoint Match (me : PublicationPattern) (track : Track) : run bool :=
  let 'Pat op args childs := me in
  let child c := match c with Some c => Match c track | None => go_panic PNilDeref end in
  match op with
  | PATTERN_OP_ALL => loop_until (fun c => negb <$> child c) false true childs
  | PATTERN_OP_SOME => loop_until child true false childs
  | PATTERN_OP_NONE => loop_until child false true childs
  | PATTERN_OP_PUBLISH_ID => Ret (in_slice args (PubId track))
  | PATTERN_OP_STREAM_ID => Ret (in_slice args (StreamId track))
  | PATTERN_OP_TRACK_ID => Ret (in_slice args (GlobalId track))
  | PATTERN_OP_TRACK_RID => Ret (in_slice args (Rid track))
  | PATTERN_OP_TRACK_LABEL_ALL_MATCH =>
      pairs_until (fun k v => negb (MatchLabel track k v)) false true args
  | PATTERN_OP_TRACK_LABEL_SOME_MATCH => pairs_until (MatchLabel track) true false args
  | PATTERN_OP_TRACK_LABEL_NONE_MATCH => pairs_until (MatchLabel track) false true args
  | PATTERN_OP_TRACK_LABEL_ALL_HAS =>
      loop_until (fun n => Ret (negb (HasLabel track n))) false true args
  | PATTERN_OP_TRACK_LABEL_SOME_HAS => loop_until (fun n => Ret (HasLabel track n)) true false args
  | PATTERN_OP_TRACK_LABEL_NONE_HAS => loop_until (fun n => Ret (HasLabel track n)) false true args
  | PATTERN_OP_TRACK_TYPE => Ret (in_slice args (Type_ track))
  | PATTERN_OP_other _ => Ret false
  end.

(** The inner loop of [MatchTracks] over the tracks of one publication,
    with its early [break]. *)
Fixpoint scan_conds (ts : list Track) (videoCond audioCond : bool) : bool * bool :=
  match ts with
  | [] => (videoCond, audioCond)
  | t :: ts' =>
      let '(v, a) :=
        if decide (Type_ t = "video") then (true, audioCond)
        else if decide (Type_ t = "audio") then (videoCond, true)
        else (videoCond, audioCond) in
      if v && a then (v, a) else scan_conds ts' v a
  end.

(** The first loop of [MatchTracks]: group the matching tracks by
    publication. *)
Fixpoint group_tracks (me : PublicationPattern) (tracks : list Track)
    (tracksByPub : gmap string (list Track)) (unmatched : list Track)
    : run (gmap string (list Track) * list Track) :=
  match tracks with
  | [] => Ret (tracksByPub, unmatched)
  | track :: tracks' =>
      b ← Match me track;
      if (b : bool) then
        let ts := default [] (tracksByPub !! PubId track) in
        group_tracks me tracks' (<[PubId track := ts ++ [track]]> tracksByPub) unmatched
      else group_tracks me tracks' tracksByPub (unmatched ++ [track])
  end.

(** The second loop, over the groups in the order [range] visits them;
    [split_group] is its body. *)
Definition split_group (reqVideo reqAudio : bool) (acc : list Track * list Track)
    (group : string * list Track) : list Track * list Track :=
  let '(matched, unmatched) := acc in
  let ts := group.2 in
  let '(videoCond, audioCond) :=
    if negb (negb reqVideo) || negb (negb reqAudio)
    then scan_conds ts (negb reqVideo) (negb reqAudio)
    else (negb reqVideo, negb reqAudio) in
  if negb videoCond || negb audioCond then (matched, unmatched ++ ts)
  else (matched ++ ts, unmatched).

Definition split_groups (reqVideo reqAudio : bool) (groups : list (string * list Track))
    (unmatched : list Track) : list Track * list Track :=
  fold_left (split_group reqVideo reqAudio) groups ([], unmatched).

(** Go visits the entries of a map in an unspecified order: [range] is
    any enumeration of the entries. *)
Definition MatchTracks (range : gmap string (list Track) -> list (string * list Track))
    (me : PublicationPattern) (tracks : list Track) (reqTypes : list string)
    : run (list Track * list Track) :=
  '(tracksByPub, unmatched) ← group_tracks me tracks ∅ [];
  let reqVideo := in_slice reqTypes "video" in
  let reqAudio := in_slice reqTypes "audio" in
  Ret (split_groups reqVideo reqAudio (range tracksByPub) unmatched).

(** ** Meaning of a pattern *)

Lemma pattern_ind (P : PublicationPattern -> Prop) :
  (forall op args cs, (forall c, Some c ∈ cs -> P c) -> P (Pat op args cs)) -> forall p, P p.
Proof.
  intros H.
  assert (forall p, P p /\ True) as Hall; [|intros p; apply Hall].
  fix IH 1. intros [op args cs]. split; [|exact I]. apply H.
  assert (Forall (fun o => match o with Some c => P c | None => True end) cs) as Hcs.
  { induction cs as [|[c|] cs IHcs]; constructor; [apply IH|exact IHcs|exact I|exact IHcs]. }
  intros c Hc. rewrite Forall_forall in Hcs. apply (Hcs _ Hc).
Qed.

(** The pairs [(args[0], args[1]), (args[2], args[3]), ...]. *)
Fixpoint arg_pairs (args : list string) : list (string * string) :=
  match args with k :: v :: args' => (k, v) :: arg_pairs args' | _ => [] end.

Definition label_is (t : Track) (kv : string * string) : Prop :=
  exists labels, Labels t = Some labels /\ labels !! kv.1 = Some kv.2.

Definition label_set (t : Track) (k : string) : Prop :=
  exists labels, Labels t = Some labels /\ is_Some (labels !! k).

(** What a pattern says of a track. *)
Fixpoint sat (p : PublicationPattern) (t : Track) : Prop :=
  let 'Pat op args cs := p in
  let some_child := foldr (fun c acc => from_option (fun c => sat c t) False c \/ acc) False cs in
  match op with
  | PATTERN_OP_ALL => foldr (fun c acc => from_option (fun c => sat c t) False c /\ acc) True cs
  | PATTERN_OP_SOME => some_child
  | PATTERN_OP_NONE => ~ some_child
  | PATTERN_OP_PUBLISH_ID => PubId t ∈ args
  | PATTERN_OP_STREAM_ID => StreamId t ∈ args
  | PATTERN_OP_TRACK_ID => GlobalId t ∈ args
  | PATTERN_OP_TRACK_RID => Rid t ∈ args
  | PATTERN_OP_TRACK_LABEL_ALL_MATCH => Forall (label_is t) (arg_pairs args)
  | PATTERN_OP_TRACK_LABEL_SOME_MATCH => Exists (label_is t) (arg_pairs args)
  | PATTERN_OP_TRACK_LABEL_NONE_MATCH => ~ Exists (label_is t) (arg_pairs args)
  | PATTERN_OP_TRACK_LABEL_ALL_HAS => Forall (label_set t) args
  | PATTERN_OP_TRACK_LABEL_SOME_HAS => Exists (label_set t) args
  | PATTERN_OP_TRACK_LABEL_NONE_HAS => ~ Exists (label_set t) args
  | PATTERN_OP_TRACK_TYPE => Type_ t ∈ args
  | PATTERN_OP_other _ => False
  end.

(** ** Correctness of [Match] *)

(** [c] returns a boolean that decides [P]. *)
Definition decides (c : run bool) (P : Prop) : Prop :=
  exists b, c = Ret b /\ (b = true <-> P).

Lemma decides_ret b P : (b = true <-> P) -> decides (Ret b) P.
Proof. by exists b. Qed.

Lemma decides_iff c P Q : decides c P -> (P <-> Q) -> decides c Q.
Proof. intros (b & -> & H) HPQ. exists b. by rewrite H. Qed.

Lemma decides_negb c P : decides c P -> decides (negb <$> c) (~ P).
Proof. intros (b & -> & H). exists (negb b). split; [done|]. destruct b; naive_solver. Qed.

Lemma loop_until_spec {A} (test : A -> run bool) (P : A -> Prop) hit last l :
  (forall x, x ∈ l -> decides (test x) (P x)) ->
  exists b, loop_until test hit last l = Ret b /\
    ((Exists P l /\ b = hit) \/ (Forall (fun x => ~ P x) l /\ b = last)).
Proof.
  induction l as [|x l IH]; intros H; cbn; [exists last; auto|].
  destruct (H x) as (b & -> & Hb); [left|]. cbn. destruct b.
  - exists hit. split; [done|]. left. split; [|done]. left. by apply Hb.
  - destruct IH as (b & -> & IH); [intros; apply H; by right|]. exists b. split; [done|].
    destruct IH as [[? ->]|[? ->]]; [left; split; [by right|done]|right].
    split; [|done]. constructor; [|done]. by rewrite <- Hb.
Qed.

Lemma loop_all {A} (test : A -> run bool) (P : A -> Prop) l :
  (forall x, x ∈ l -> decides (test x) (P x)) ->
  decides (loop_until (fun x => negb <$> test x) false true l) (Forall P l).
Proof.
  intros H. destruct (loop_until_spec (fun x => negb <$> test x) (fun x => ~ P x) false true l)
    as (b & -> & Hb); [intros; by apply decides_negb, H|].
  exists b. split; [done|]. destruct Hb as [[He ->]|[Hf ->]].
  - split; [done|]. intros Hf. by apply Exists_not_Forall in He.
  - split; [intros _|done]. rewrite Forall_forall in *. intros x Hx.
    destruct (H x Hx) as ([] & _ & Hb); [by apply Hb|]. exfalso. apply (Hf x Hx). by rewrite <- Hb.
Qed.

Lemma loop_some {A} (test : A -> run bool) (P : A -> Prop) l :
  (forall x, x ∈ l -> decides (test x) (P x)) ->
  decides (loop_until test true false l) (Exists P l).
Proof.
  intros H. destruct (loop_until_spec test P true false l H) as (b & -> & Hb). exists b.
  split; [done|]. destruct Hb as [[? ->]|[Hf ->]]; [done|]. split; [done|].
  intros He. exfalso. by apply (Forall_not_Exists _ _ Hf).
Qed.

Lemma loop_none {A} (test : A -> run bool) (P : A -> Prop) l :
  (forall x, x ∈ l -> decides (test x) (P x)) ->
  decides (loop_until test false true l) (~ Exists P l).
Proof.
  intros H. destruct (loop_until_spec test P false true l H) as (b & -> & Hb). exists b.
  split; [done|]. destruct Hb as [[? ->]|[Hf ->]]; [done|]. split; [|done].
  intros _ He. by apply (Forall_not_Exists _ _ Hf).
Qed.

(** On an even number of arguments the pair loop is the loop over the pairs. *)
Lemma pairs_until_loop test hit last args :
  length args mod 2 = 0 ->
  pairs_until test hit last args =
  loop_until (fun kv => Ret (test kv.1 kv.2)) hit last (arg_pairs args).
Proof.
  revert args. fix IH 1. intros [|k [|v args]] H; [done| |].
  - done.
  - cbn. destruct (test k v); [done|]. apply IH.
    cbn [length] in H. rewrite <- (Nat.Div0.mod_add (length args) 1 2).
    by replace (length args + 1 * 2) with (S (S (length args))) by lia.
Qed.

Lemma MatchLabel_iff t kv : MatchLabel t kv.1 kv.2 = true <-> label_is t kv.
Proof.
  unfold MatchLabel, label_is. destruct (Labels t) as [ls|]; cbn.
  - destruct (ls !! kv.1) eqn:E; [rewrite bool_decide_eq_true|]; naive_solver.
  - rewrite lookup_empty. naive_solver.
Qed.

Lemma HasLabel_iff t k : HasLabel t k = true <-> label_set t k.
Proof.
  unfold HasLabel, label_set. destruct (Labels t) as [ls|]; [rewrite bool_decide_eq_true|];
    naive_solver.
Qed.

Lemma in_slice_iff l x : in_slice l x = true <-> x ∈ l.
Proof. apply InSlice_iff. Qed.

Lemma first_error_none {A} (f : A -> run (option gerror)) l :
  first_error f l = Ret None -> forall x, x ∈ l -> f x = Ret None.
Proof.
  induction l as [|y l IH]; cbn; intros H x Hx; [by apply not_elem_of_nil in Hx|].
  run_inv. case_match; [done|]. subst. apply elem_of_cons in Hx as [->|Hx]; auto.
Qed.

Lemma foldr_and_Forall {A} (P : A -> Prop) l : foldr (fun c acc => P c /\ acc) True l <-> Forall P l.
Proof. induction l; cbn; [by split; [constructor|]|]. by rewrite Forall_cons, IHl. Qed.

Lemma foldr_or_Exists {A} (P : A -> Prop) l : foldr (fun c acc => P c \/ acc) False l <-> Exists P l.
Proof. induction l; cbn; [by rewrite Exists_nil|]. by rewrite Exists_cons, IHl. Qed.

(** The two guards of a leaf operator. *)
Lemma leaf_none (cs : list (option PublicationPattern)) (e : option gerror) :
  (if (0 <? length cs)%nat then Ret (Some (EConf INVALID_PUB_PATTERN)) else Ret e) = Ret None ->
  e = None.
Proof. destruct (0 <? length cs)%nat; [done|]. by intros [= ->]. Qed.

Lemma even_args (args : list string) :
  (if (length args <? 2)%nat || negb (length args mod 2 =? 0)%nat
   then Some (EConf INVALID_PUB_PATTERN) else None) = None ->
  length args mod 2 = 0.
Proof.
  destruct (length args <? 2)%nat; [done|].
  by destruct (Nat.eqb_spec (length args mod 2) 0).
Qed.

Lemma label_pairs_decides t args : length args mod 2 = 0 ->
  decides (pairs_until (fun k v => negb (MatchLabel t k v)) false true args)
    (Forall (label_is t) (arg_pairs args)) /\
  decides (pairs_until (MatchLabel t) true false args) (Exists (label_is t) (arg_pairs args)) /\
  decides (pairs_until (MatchLabel t) false true args) (~ Exists (label_is t) (arg_pairs args)).
Proof.
  intros Hk. rewrite !pairs_until_loop by done.
  assert (forall kv, kv ∈ arg_pairs args ->
    decides (Ret (MatchLabel t kv.1 kv.2)) (label_is t kv)) as H
    by (intros; apply decides_ret, MatchLabel_iff).
  split_and!; [apply (loop_all (fun kv => Ret (MatchLabel t kv.1 kv.2))) | apply loop_some
    | apply loop_none]; exact H.
Qed.

Lemma label_has_decides t args :
  decides (loop_until (fun n => Ret (negb (HasLabel t n))) false true args) (Forall (label_set t) args) /\
  decides (loop_until (fun n => Ret (HasLabel t n)) true false args) (Exists (label_set t) args) /\
  decides (loop_until (fun n => Ret (HasLabel t n)) false true args) (~ Exists (label_set t) args).
Proof.
  assert (forall n, n ∈ args -> decides (Ret (HasLabel t n)) (label_set t n)) as H
    by (intros; apply decides_ret, HasLabel_iff).
  split_and!; [apply (loop_all (fun n => Ret (HasLabel t n))) | apply loop_some | apply loop_none];
    exact H.
Qed.

Lemma Match_decides p t : Validate p = Ret None -> decides (Match p t) (sat p t).
Proof.
  induction p as [op args cs IH] using pattern_ind. intros Hv.
  set (sat_o := fun o => from_option (fun c => sat c t) False o).
  set (val_o := fun o : option PublicationPattern =>
    match o with Some c => Validate c | None => go_panic PNilDeref end).
  set (match_o := fun o => match o with Some c => Match c t | None => go_panic PNilDeref end).
  assert (match checkArgsNum args 0 false with
          | Some e => Ret (Some e) | None => first_error val_o cs end = Ret None ->
    forall c, c ∈ cs -> decides (match_o c) (sat_o c)) as Hc.
  { destruct (checkArgsNum args 0 false); [done|]. intros Hall o Ho.
    pose proof (first_error_none _ _ Hall o Ho) as He. destruct o; [by apply IH|done]. }
  destruct (label_has_decides t args) as (Hh1 & Hh2 & Hh3).
  destruct op; cbn [sat Match]; fold match_o sat_o;
    try (by apply decides_ret, in_slice_iff); try done.
  - eapply decides_iff; [apply (loop_all match_o), Hc, Hv|]. by rewrite foldr_and_Forall.
  - eapply decides_iff; [apply loop_some, Hc, Hv|]. by rewrite foldr_or_Exists.
  - eapply decides_iff; [apply loop_none, Hc, Hv|]. by rewrite foldr_or_Exists.
  - by apply label_pairs_decides, even_args, (leaf_none cs).
  - by apply label_pairs_decides, even_args, (leaf_none cs).
  - by apply label_pairs_decides, even_args, (leaf_none cs).
  - by apply decides_ret.
Qed.

(**  A pattern that [Validate] accepts is evaluated by [Match] without
    a crash on every track, and the answer is the meaning of the pattern:
    conjunction, disjunction and joint negation of the children, membership
    tests of the identifiers, and the label tests read pairwise. *)
Theorem Match_correct p t :
  Validate p = Ret None -> exists b, Match p t = Ret b /\ (b = true <-> sat p t).
Proof. apply Match_decides. Qed.

Definition sample_track (pub ty : string) : Track :=
  {| Type_ := ty; PubId := pub; GlobalId := "g"; LocalId := "l"; BindId := "b"; Rid := "";
     StreamId := "s"; Codec := None; Labels := Some {["uid" := "7"]} |}.

Definition sample_pattern : PublicationPattern :=
  Pat PATTERN_OP_ALL [] [Some (Pat PATTERN_OP_TRACK_LABEL_ALL_MATCH ["uid"; "7"] []);
    Some (Pat PATTERN_OP_NONE [] [Some (Pat PATTERN_OP_TRACK_TYPE ["audio"] [])])].

Lemma Match_correct_witness :
  Validate sample_pattern = Ret None /\
  exists b, Match sample_pattern (sample_track "p" "video") = Ret b /\
    (b = true <-> sat sample_pattern (sample_track "p" "video")).
Proof. split; [reflexivity|]. apply Match_correct. reflexivity. Defined.

(** ** Correctness of [MatchTracks] *)

(** The tracks that [Match] selects. *)
Definition selected (me : PublicationPattern) (t : Track) : bool := bool_decide (Match me t = Ret true).

Definition has_type (ty : string) (ts : list Track) : Prop := exists t, t ∈ ts /\ Type_ t = ty.

Lemma has_type_cons ty t ts : has_type ty (t :: ts) <-> Type_ t = ty \/ has_type ty ts.
Proof. unfold has_type. setoid_rewrite elem_of_cons. naive_solver. Qed.

Lemma has_type_nil ty : ~ has_type ty [].
Proof. intros (t & Ht & _). by apply not_elem_of_nil in Ht. Qed.

Lemma scan_conds_spec ts v a v' a' :
  scan_conds ts v a = (v', a') ->
  v' && a' = true <-> (v = true \/ has_type "video" ts) /\ (a = true \/ has_type "audio" ts).
Proof.
  revert v a. induction ts as [|t ts IH]; intros v a; cbn [scan_conds].
  - intros [= <- <-]. rewrite andb_true_iff. pose proof has_type_nil. naive_solver.
  - rewrite !has_type_cons.
    assert ("video" <> "audio") as Hne by done.
    destruct (decide (Type_ t = "video")) as [Hv|Hv]; [|destruct (decide (Type_ t = "audio")) as [Ha|Ha]];
      (case_match; [intros [= <- <-]|intros ->%IH]; destruct v, a; naive_solver congruence).
Qed.

Definition group_ok (reqVideo reqAudio : bool) (ts : list Track) : Prop :=
  (reqVideo = true -> has_type "video" ts) /\ (reqAudio = true -> has_type "audio" ts).

(** The test the code makes on a group decides [group_ok]. *)
Definition group_okb (reqVideo reqAudio : bool) (ts : list Track) : bool :=
  let '(v, a) := if negb (negb reqVideo) || negb (negb reqAudio)
                 then scan_conds ts (negb reqVideo) (negb reqAudio)
                 else (negb reqVideo, negb reqAudio) in v && a.

Lemma group_okb_spec rv ra ts : group_okb rv ra ts = true <-> group_ok rv ra ts.
Proof.
  unfold group_okb, group_ok. destruct (scan_conds ts (negb rv) (negb ra)) eqn:E.
  pose proof (scan_conds_spec _ _ _ _ _ E) as H.
  destruct rv, ra; cbn in *; rewrite ?E, ?H; naive_solver.
Qed.

Lemma split_group_spec rv ra m u g :
  split_group rv ra (m, u) g =
  if group_okb rv ra g.2 then (m ++ g.2, u) else (m, u ++ g.2).
Proof.
  unfold split_group, group_okb. destruct (if _ || _ then _ else _) as [v a].
  by destruct v, a.
Qed.

Lemma split_groups_spec rv ra groups un :
  split_groups rv ra groups un =
  (filter (fun g => group_okb rv ra g.2 = true) groups ≫= snd,
   un ++ (filter (fun g => ~ group_okb rv ra g.2 = true) groups ≫= snd)).
Proof.
  unfold split_groups.
  assert (forall m0 u0, fold_left (split_group rv ra) groups (m0, u0) =
    (m0 ++ (filter (fun g => group_okb rv ra g.2 = true) groups ≫= snd),
     u0 ++ (filter (fun g => ~ group_okb rv ra g.2 = true) groups ≫= snd))) as H; [|apply H].
  induction groups as [|g gs IH]; intros m0 u0; cbn [fold_left].
  { by rewrite !filter_nil, !app_nil_r. }
  rewrite split_group_spec, !filter_cons. destruct (group_okb rv ra g.2); rewrite IH.
  - rewrite decide_True, (decide_False (P := ~ true = true)) by naive_solver.
    rewrite bind_cons. by rewrite (assoc_L (++)).
  - rewrite decide_False, (decide_True (P := ~ false = true)) by naive_solver.
    rewrite bind_cons. by rewrite (assoc_L (++)).
Qed.

Lemma bind_insert_snoc (m : gmap string (list Track)) k t :
  map_to_list (<[k := default [] (m !! k) ++ [t]]> m) ≫= snd ≡ₚ t :: (map_to_list m ≫= snd).
Proof.
  rewrite <- insert_delete_eq, map_to_list_insert by apply lookup_delete_eq.
  rewrite bind_cons. cbn [snd]. destruct (m !! k) as [ts|] eqn:E; cbn.
  - rewrite <- (map_to_list_delete m k ts E), bind_cons. cbn [snd].
    rewrite <- app_assoc. apply Permutation_sym, Permutation_middle.
  - by rewrite delete_id.
Qed.

Lemma group_tracks_spec me tracks m0 un0 :
  Validate me = Ret None ->
  exists m, group_tracks me tracks m0 un0 =
      Ret (m, un0 ++ filter (fun t => ~ selected me t = true) tracks) /\
    (forall pub, default [] (m !! pub) =
       default [] (m0 !! pub) ++ filter (fun t => selected me t = true /\ PubId t = pub) tracks) /\
    map_to_list m ≫= snd ≡ₚ (map_to_list m0 ≫= snd) ++ filter (fun t => selected me t = true) tracks.
Proof.
  intros Hv. revert m0 un0. induction tracks as [|t ts IH]; intros m0 un0; cbn [group_tracks].
  { exists m0. rewrite !filter_nil, !app_nil_r. split_and!; [done| |done].
    intros pub. by rewrite filter_nil, app_nil_r. }
  destruct (Match_decides me t Hv) as (b & Hb & _). rewrite Hb, bind_ret_l.
  assert (selected me t = b) as Hs by (unfold selected; rewrite Hb; by destruct b).
  rewrite !filter_cons, Hs. destruct b.
  - destruct (IH (<[PubId t := default [] (m0 !! PubId t) ++ [t]]> m0) un0) as (m & -> & Hg & Hp).
    exists m. rewrite (decide_False (P := ~ true = true)), (decide_True (P := true = true)) by tauto.
    split_and!; [done| |].
    + intros pub. rewrite Hg, filter_cons, Hs. destruct (decide (PubId t = pub)) as [<-|Hne].
      * rewrite lookup_insert_eq, decide_True by done. cbn. by rewrite <- app_assoc.
      * rewrite lookup_insert_ne by done. by rewrite decide_False by tauto.
    + rewrite Hp, bind_insert_snoc. cbn. by rewrite Permutation_middle.
  - destruct (IH m0 (un0 ++ [t])) as (m & -> & Hg & Hp). exists m.
    rewrite (decide_True (P := ~ false = true)), (decide_False (P := false = true)) by naive_solver.
    split_and!; [by rewrite <- app_assoc| |done].
    intros pub. rewrite Hg, filter_cons, Hs. by rewrite decide_False by naive_solver.
Qed.

Lemma MatchTracks_spec range me tracks reqTypes :
  (forall m, range m ≡ₚ map_to_list m) -> Validate me = Ret None ->
  exists matched unmatched,
    MatchTracks range me tracks reqTypes = Ret (matched, unmatched) /\
    matched ++ unmatched ≡ₚ tracks /\
    forall t, t ∈ matched <-> t ∈ tracks /\ sat me t /\
      forall ty, ty = "video" \/ ty = "audio" -> ty ∈ reqTypes ->
        exists t', t' ∈ tracks /\ PubId t' = PubId t /\ sat me t' /\ Type_ t' = ty.
Proof.
  intros Hrange Hv. unfold MatchTracks.
  destruct (group_tracks_spec me tracks ∅ [] Hv) as (m & -> & Hg & Hp). rewrite bind_ret_l. cbn [app].
  set (rv := in_slice reqTypes "video"). set (ra := in_slice reqTypes "audio").
  rewrite split_groups_spec. eexists _, _. split; [reflexivity|].
  assert (forall t, selected me t = true <-> sat me t) as Hsel.
  { intros t. destruct (Match_decides me t Hv) as (b & Hb & Hs). unfold selected. rewrite Hb.
    rewrite bool_decide_eq_true, <- Hs. naive_solver. }
  split.
  - rewrite (Permutation_app_comm (filter _ tracks)), (assoc_L (++)), <- bind_app, filter_split.
    rewrite Hrange, Hp, map_to_list_empty. cbn. apply filter_split.
  - intros t.
    assert (forall pub ts, m !! pub = Some ts ->
      forall x, x ∈ ts <-> x ∈ tracks /\ sat me x /\ PubId x = pub) as Hts.
    { intros pub ts Hm x. specialize (Hg pub). rewrite Hm, lookup_empty in Hg. cbn in Hg.
      rewrite Hg, list_elem_of_filter, Hsel. tauto. }
    rewrite list_elem_of_bind. setoid_rewrite list_elem_of_filter.
    setoid_rewrite group_okb_spec. setoid_rewrite Hrange. split.
    + intros ([pub ts] & Ht & [Hv' Ha'] & Hin). cbn in *. apply elem_of_map_to_list in Hin.
      pose proof (Hts pub ts Hin) as Hx. destruct (proj1 (Hx t) Ht) as (H1 & H2 & <-).
      split_and!; [done..|]. intros ty [-> | ->] Hty; apply in_slice_iff in Hty.
      * destruct (Hv' Hty) as (t' & Ht' & ?). apply Hx in Ht'. naive_solver.
      * destruct (Ha' Hty) as (t' & Ht' & ?). apply Hx in Ht'. naive_solver.
    + intros (H1 & H2 & H3). specialize (Hg (PubId t)). rewrite lookup_empty in Hg. cbn in Hg.
      destruct (m !! PubId t) as [ts|] eqn:Hm; cbn in Hg.
      2: { exfalso. eapply (not_elem_of_nil t). rewrite Hg. apply list_elem_of_filter. by rewrite Hsel. }
      pose proof (Hts _ _ Hm) as Hx.
      exists (PubId t, ts). split; [by apply Hx|]. split; [|by apply elem_of_map_to_list].
      cbn. split; intros Hr; apply in_slice_iff in Hr.
      * destruct (H3 "video" ltac:(auto) Hr) as (t' & ?). exists t'. rewrite Hx. naive_solver.
      * destruct (H3 "audio" ltac:(auto) Hr) as (t' & ?). exists t'. rewrite Hx. naive_solver.
Qed.

(** C35.  On a validated pattern [MatchTracks] returns a partition of the
    tracks, whatever order Go visits the groups in, and selects all or none of
    the accepted tracks of a publication: a track is matched iff the pattern accepts it and, for
    each required type among video and audio, an accepted track of the same
    publication has that type. *)
Theorem MatchTracks_correct range me tracks reqTypes :
  (forall m, range m ≡ₚ map_to_list m) -> Validate me = Ret None ->
  exists matched unmatched,
    MatchTracks range me tracks reqTypes = Ret (matched, unmatched) /\
    matched ++ unmatched ≡ₚ tracks /\
    forall t, t ∈ matched <-> t ∈ tracks /\ sat me t /\
      forall ty, ty = "video" \/ ty = "audio" -> ty ∈ reqTypes ->
        exists t', t' ∈ tracks /\ PubId t' = PubId t /\ sat me t' /\ Type_ t' = ty.
Proof. apply MatchTracks_spec. Qed.

Lemma MatchTracks_correct_witness :
  let tracks := [sample_track "p" "video"; sample_track "q" "audio"] in
  exists matched unmatched,
    MatchTracks map_to_list sample_pattern tracks ["video"] = Ret (matched, unmatched) /\
    matched ++ unmatched ≡ₚ tracks /\
    forall t, t ∈ matched <-> t ∈ tracks /\ sat sample_pattern t /\
      forall ty, ty = "video" \/ ty = "audio" -> ty ∈ ["video"] ->
        exists t', t' ∈ tracks /\ PubId t' = PubId t /\ sat sample_pattern t' /\ Type_ t' = ty.
Proof. apply MatchTracks_correct; reflexivity. Defined.
