(* ===== verification/Messages.v ===== *)
(** * Messages: [proto/message.ext.go], [model/messages.go], [model/common.go]

    The messages the nodes exchange, with the interface [RoomMessage] every
    one of them implements, and the validation of the client's publish and
    subscribe requests.  The records are those of [proto/message.proto]; a
    pointer is an option and the generated getters answer the zero value on
    nil.  [any] values of [ToMap] are [gval]. *)
From S2P Require Import Prelude GoStrings Collection RoomPattern Pattern.
Local Open Scope string_scope.
Local Open Scope list_scope.

Definition INVALID_MESSAGE : Z := 15000.

(** ** Data *)

Record Router := {
  Room : string;
  NodeFrom : string;
  NodeTo : string;
  SocketFrom : string;
  SocketTo : string
}.

#[global] Instance Router_eq_dec : EqDecision Router.
Proof. solve_decision. Defined.

Definition zero_router : Router := Build_Router "" "" "" "" "".

Record WantMessage := {
  Want_Router : option Router;
  Want_ReqTypes : list string;
  Want_Pattern : option PublicationPattern;
  Want_TransportId : string
}.

Record StateMessage := {
  State_Router : option Router;
  State_PubId : string;
  State_Addr : string;
  State_Tracks : list Track
}.

Record SelectMessage := {
  Select_Router : option Router;
  Select_PubId : string;
  Select_TransportId : string;
  Select_Tracks : list Track
}.

Record WantParticipantMessage := { WantParticipant_Router : option Router }.

Record StateParticipantMessage := {
  StateParticipant_Router : option Router;
  StateParticipant_UserId : string;
  StateParticipant_UserName : string;
  StateParticipant_SocketId : string;
  StateParticipant_JoinId : Z
}.

Record StateLeaveMessage := {
  StateLeave_Router : option Router;
  StateLeave_UserId : string;
  StateLeave_SocketId : string;
  StateLeave_JoinId : Z
}.

Record PingMessage := { Ping_Router : option Router; Ping_MsgId : Z }.
Record PongMessage := { Pong_Router : option Router; Pong_MsgId : Z }.

Record CustomMessage := {
  Custom_Router : option Router;
  Custom_Content : string;
  Custom_MsgId : Z;
  Custom_Ack : bool
}.

Record CustomClusterMessage := {
  CustomCluster_Evt : string;
  CustomCluster_Msg : option CustomMessage
}.

Record CustomAckMessage := {
  CustomAck_Router : option Router;
  CustomAck_MsgId : Z;
  CustomAck_Content : string;
  CustomAck_Err : bool
}.

(** The values a [map[string]any] built by [ToMap] holds; a map is nil or
    a finite map. *)
#[warnings="-register-all"]
Inductive gval :=
  | GStr (s : string)
  | GU32 (z : Z)
  | GBool (b : bool)
  | GMap (m : option (gmap string gval)).

(** ** The interface

    [RoomMessage] with the optional [CanToMap].  A receiver may be nil.
    [with_router f m] is the assignment of fields of [*m.GetRouter()]. *)
Class RoomMessage (M : Type) := {
  GetRouter : option M -> option Router;
  FixRouter : option M -> string -> string -> string -> option M;
  CopyPlain : option M -> M;
  with_router : (Router -> Router) -> M -> M;
  CanToMap : option (option M -> option (gmap string gval))
}.

(** ** The code: routers *)

Definition Router_ToMap (x : option Router) : option (gmap string gval) :=
  match x with
  | None => None
  | Some x => Some (list_to_map [
      ("room", GStr (Room x)); ("nodeFrom", GStr (NodeFrom x)); ("nodeTo", GStr (NodeTo x));
      ("socketFrom", GStr (SocketFrom x)); ("socketTo", GStr (SocketTo x))])
  end.

Definition Router_CopyPlain (x : option Router) : Router :=
  let x := default zero_router x in
  {| Room := Room x; NodeFrom := NodeFrom x; NodeTo := NodeTo x;
     SocketFrom := SocketFrom x; SocketTo := SocketTo x |}.

Definition fixRouter (router : Router) (room socketId node : string) : Router :=
  {| Room := if decide (Room router = "") then room else Room router;
     NodeFrom := node; NodeTo := NodeTo router;
     SocketFrom := socketId; SocketTo := SocketTo router |}.

(** [if x.Router == nil { x.Router = &Router{} }; fixRouter(x.Router, ...)] *)
Definition fix_router_field (r : option Router) (room socketId node : string) : option Router :=
  Some (fixRouter (default zero_router r) room socketId node).

Definition router_entry (r : option Router) : string * gval := ("router", GMap (Router_ToMap r)).

(** ** The code: one instance per message *)

#[global] Instance WantMessage_room : RoomMessage WantMessage := {
  GetRouter x := x ≫= Want_Router;
  FixRouter x room socketId node := (fun x =>
    {| Want_Router := fix_router_field (Want_Router x) room socketId node;
       Want_ReqTypes := Want_ReqTypes x; Want_Pattern := Want_Pattern x;
       Want_TransportId := Want_TransportId x |}) <$> x;
  CopyPlain x :=
    {| Want_Router := Some (Router_CopyPlain (x ≫= Want_Router));
       Want_ReqTypes := from_option Want_ReqTypes [] x;
       Want_Pattern := x ≫= Want_Pattern;
       Want_TransportId := from_option Want_TransportId "" x |};
  with_router f x :=
    {| Want_Router := f <$> Want_Router x; Want_ReqTypes := Want_ReqTypes x;
       Want_Pattern := Want_Pattern x; Want_TransportId := Want_TransportId x |};
  CanToMap := None
}.

#[global] Instance StateMessage_room : RoomMessage StateMessage := {
  GetRouter x := x ≫= State_Router;
  FixRouter x room socketId node := (fun x =>
    {| State_Router := fix_router_field (State_Router x) room socketId node;
       State_PubId := State_PubId x; State_Addr := State_Addr x;
       State_Tracks := State_Tracks x |}) <$> x;
  CopyPlain x :=
    {| State_Router := Some (Router_CopyPlain (x ≫= State_Router));
       State_PubId := from_option State_PubId "" x;
       State_Addr := from_option State_Addr "" x;
       State_Tracks := from_option State_Tracks [] x |};
  with_router f x :=
    {| State_Router := f <$> State_Router x; State_PubId := State_PubId x;
       State_Addr := State_Addr x; State_Tracks := State_Tracks x |};
  CanToMap := None
}.

#[global] Instance SelectMessage_room : RoomMessage SelectMessage := {
  GetRouter x := x ≫= Select_Router;
  FixRouter x room socketId node := (fun x =>
    {| Select_Router := fix_router_field (Select_Router x) room socketId node;
       Select_PubId := Select_PubId x; Select_TransportId := Select_TransportId x;
       Select_Tracks := Select_Tracks x |}) <$> x;
  CopyPlain x :=
    {| Select_Router := Some (Router_CopyPlain (x ≫= Select_Router));
       Select_PubId := from_option Select_PubId "" x;
       Select_TransportId := from_option Select_TransportId "" x;
       Select_Tracks := from_option Select_Tracks [] x |};
  with_router f x :=
    {| Select_Router := f <$> Select_Router x; Select_PubId := Select_PubId x;
       Select_TransportId := Select_TransportId x; Select_Tracks := Select_Tracks x |};
  CanToMap := None
}.

#[global] Instance WantParticipantMessage_room : RoomMessage WantParticipantMessage := {
  GetRouter x := x ≫= WantParticipant_Router;
  FixRouter x room socketId node := (fun x =>
    {| WantParticipant_Router :=
         fix_router_field (WantParticipant_Router x) room socketId node |}) <$> x;
  CopyPlain x :=
    {| WantParticipant_Router := Some (Router_CopyPlain (x ≫= WantParticipant_Router)) |};
  with_router f x := {| WantParticipant_Router := f <$> WantParticipant_Router x |};
  CanToMap := None
}.

#[global] Instance StateParticipantMessage_room : RoomMessage StateParticipantMessage := {
  GetRouter x := x ≫= StateParticipant_Router;
  FixRouter x room socketId node := (fun x =>
    {| StateParticipant_Router := fix_router_field (StateParticipant_Router x) room socketId node;
       StateParticipant_UserId := StateParticipant_UserId x;
       StateParticipant_UserName := StateParticipant_UserName x;
       StateParticipant_SocketId := StateParticipant_SocketId x;
       StateParticipant_JoinId := StateParticipant_JoinId x |}) <$> x;
  CopyPlain x :=
    {| StateParticipant_Router := Some (Router_CopyPlain (x ≫= StateParticipant_Router));
       StateParticipant_UserId := from_option StateParticipant_UserId "" x;
       StateParticipant_UserName := from_option StateParticipant_UserName "" x;
       StateParticipant_SocketId := from_option StateParticipant_SocketId "" x;
       StateParticipant_JoinId := from_option StateParticipant_JoinId 0%Z x |};
  with_router f x :=
    {| StateParticipant_Router := f <$> StateParticipant_Router x;
       StateParticipant_UserId := StateParticipant_UserId x;
       StateParticipant_UserName := StateParticipant_UserName x;
       StateParticipant_SocketId := StateParticipant_SocketId x;
       StateParticipant_JoinId := StateParticipant_JoinId x |};
  CanToMap := Some (fun x => (fun x => list_to_map [
    router_entry (StateParticipant_Router x); ("userId", GStr (StateParticipant_UserId x));
    ("userName", GStr (StateParticipant_UserName x));
    ("socketId", GStr (StateParticipant_SocketId x));
    ("joinId", GU32 (StateParticipant_JoinId x))]) <$> x)
}.

#[global] Instance StateLeaveMessage_room : RoomMessage StateLeaveMessage := {
  GetRouter x := x ≫= StateLeave_Router;
  FixRouter x room socketId node := (fun x =>
    {| StateLeave_Router := fix_router_field (StateLeave_Router x) room socketId node;
       StateLeave_UserId := StateLeave_UserId x; StateLeave_SocketId := StateLeave_SocketId x;
       StateLeave_JoinId := StateLeave_JoinId x |}) <$> x;
  CopyPlain x :=
    {| StateLeave_Router := Some (Router_CopyPlain (x ≫= StateLeave_Router));
       StateLeave_UserId := from_option StateLeave_UserId "" x;
       StateLeave_SocketId := from_option StateLeave_SocketId "" x;
       StateLeave_JoinId := from_option StateLeave_JoinId 0%Z x |};
  with_router f x :=
    {| StateLeave_Router := f <$> StateLeave_Router x;
       StateLeave_UserId := StateLeave_UserId x; StateLeave_SocketId := StateLeave_SocketId x;
       StateLeave_JoinId := StateLeave_JoinId x |};
  CanToMap := Some (fun x => (fun x => list_to_map [
    router_entry (StateLeave_Router x); ("userId", GStr (StateLeave_UserId x));
    ("socketId", GStr (StateLeave_SocketId x));
    ("joinId", GU32 (StateLeave_JoinId x))]) <$> x)
}.

#[global] Instance PingMessage_room : RoomMessage PingMessage := {
  GetRouter x := x ≫= Ping_Router;
  FixRouter x room socketId node := (fun x =>
    {| Ping_Router := fix_router_field (Ping_Router x) room socketId node;
       Ping_MsgId := Ping_MsgId x |}) <$> x;
  CopyPlain x :=
    {| Ping_Router := Some (Router_CopyPlain (x ≫= Ping_Router));
       Ping_MsgId := from_option Ping_MsgId 0%Z x |};
  with_router f x := {| Ping_Router := f <$> Ping_Router x; Ping_MsgId := Ping_MsgId x |};
  CanToMap := Some (fun x => (fun x => list_to_map [
    router_entry (Ping_Router x); ("msgId", GU32 (Ping_MsgId x))]) <$> x)
}.

#[global] Instance PongMessage_room : RoomMessage PongMessage := {
  GetRouter x := x ≫= Pong_Router;
  FixRouter x room socketId node := (fun x =>
    {| Pong_Router := fix_router_field (Pong_Router x) room socketId node;
       Pong_MsgId := Pong_MsgId x |}) <$> x;
  CopyPlain x :=
    {| Pong_Router := Some (Router_CopyPlain (x ≫= Pong_Router));
       Pong_MsgId := from_option Pong_MsgId 0%Z x |};
  with_router f x := {| Pong_Router := f <$> Pong_Router x; Pong_MsgId := Pong_MsgId x |};
  CanToMap := Some (fun x => (fun x => list_to_map [
    router_entry (Pong_Router x); ("msgId", GU32 (Pong_MsgId x))]) <$> x)
}.

Definition CustomMessage_ToMap (x : option CustomMessage) : option (gmap string gval) :=
  (fun x => list_to_map [
    router_entry (Custom_Router x); ("content", GStr (Custom_Content x));
    ("msgId", GU32 (Custom_MsgId x)); ("ack", GBool (Custom_Ack x))]) <$> x.

#[global] Instance CustomMessage_room : RoomMessage CustomMessage := {
  GetRouter x := x ≫= Custom_Router;
  FixRouter x room socketId node := (fun x =>
    {| Custom_Router := fix_router_field (Custom_Router x) room socketId node;
       Custom_Content := Custom_Content x; Custom_MsgId := Custom_MsgId x;
       Custom_Ack := Custom_Ack x |}) <$> x;
  CopyPlain x :=
    {| Custom_Router := Some (Router_CopyPlain (x ≫= Custom_Router));
       Custom_Content := from_option Custom_Content "" x;
       Custom_MsgId := from_option Custom_MsgId 0%Z x;
       Custom_Ack := from_option Custom_Ack false x |};
  with_router f x :=
    {| Custom_Router := f <$> Custom_Router x; Custom_Content := Custom_Content x;
       Custom_MsgId := Custom_MsgId x; Custom_Ack := Custom_Ack x |};
  CanToMap := Some CustomMessage_ToMap
}.

Definition zero_custom : CustomMessage := Build_CustomMessage (Some zero_router) "" 0 false.

#[global] Instance CustomClusterMessage_room : RoomMessage CustomClusterMessage := {
  GetRouter x := (x ≫= CustomCluster_Msg) ≫= Custom_Router;
  FixRouter x room socketId node := (fun x =>
    {| CustomCluster_Evt := CustomCluster_Evt x;
       CustomCluster_Msg :=
         FixRouter (M := CustomMessage) (Some (default zero_custom (CustomCluster_Msg x))) room socketId node |}) <$> x;
  CopyPlain x :=
    {| CustomCluster_Evt := from_option CustomCluster_Evt "" x;
       CustomCluster_Msg := Some (CopyPlain (M := CustomMessage) (x ≫= CustomCluster_Msg)) |};
  with_router f x :=
    {| CustomCluster_Evt := CustomCluster_Evt x;
       CustomCluster_Msg := with_router (M := CustomMessage) f <$> CustomCluster_Msg x |};
  CanToMap := Some (fun x => (fun x => list_to_map [
    ("evt", GStr (CustomCluster_Evt x));
    ("msg", GMap (CustomMessage_ToMap (CustomCluster_Msg x)))]) <$> x)
}.

#[global] Instance CustomAckMessage_room : RoomMessage CustomAckMessage := {
  GetRouter x := x ≫= CustomAck_Router;
  FixRouter x room socketId node := (fun x =>
    {| CustomAck_Router := fix_router_field (CustomAck_Router x) room socketId node;
       CustomAck_MsgId := CustomAck_MsgId x; CustomAck_Content := CustomAck_Content x;
       CustomAck_Err := CustomAck_Err x |}) <$> x;
  CopyPlain x :=
    {| CustomAck_Router := Some (Router_CopyPlain (x ≫= CustomAck_Router));
       CustomAck_MsgId := from_option CustomAck_MsgId 0%Z x;
       CustomAck_Content := from_option CustomAck_Content "" x;
       CustomAck_Err := from_option CustomAck_Err false x |};
  with_router f x :=
    {| CustomAck_Router := f <$> CustomAck_Router x; CustomAck_MsgId := CustomAck_MsgId x;
       CustomAck_Content := CustomAck_Content x; CustomAck_Err := CustomAck_Err x |};
  CanToMap := Some (fun x => (fun x => list_to_map [
    router_entry (CustomAck_Router x); ("msgId", GU32 (CustomAck_MsgId x));
    ("content", GStr (CustomAck_Content x)); ("err", GBool (CustomAck_Err x))]) <$> x)
}.

(** ** The code: what leaves the server *)

Definition GetRoom `{RoomMessage M} (msg : option M) : string :=
  match GetRouter msg with
  | Some router => Room router
  | None => ""
  end.

(** What [ToClientMessage] returns: a map, or a message. *)
Inductive client_value (M : Type) :=
  | ClientMap (m : option (gmap string gval))
  | ClientMsg (m : M).
Arguments ClientMap {M} _.
Arguments ClientMsg {M} _.

Definition strip_node (r : Router) : Router :=
  {| Room := Room r; NodeFrom := ""; NodeTo := ""; SocketFrom := SocketFrom r; SocketTo := SocketTo r |}.

(** [delete(router_map, ...)] where the entry "router" is a map. *)
Definition strip_entry (m : gmap string gval) : gmap string gval :=
  match m !! "router" with
  | Some (GMap (Some r)) => <["router" := GMap (Some (delete "nodeTo" (delete "nodeFrom" r)))]> m
  | _ => m
  end.

Definition ToClientMessage `{RoomMessage M} (message : option M) : run (client_value M) :=
  match CanToMap with
  | Some ToMap => Ret (ClientMap (strip_entry <$> ToMap message))
  | None =>
      let msg := CopyPlain message in
      _ ← go_deref (GetRouter (Some msg));
      Ret (ClientMsg (with_router strip_node msg))
  end.

(** ** The code: requests of the client *)

Definition PUB_OP_ADD : Z := 0.
Definition PUB_OP_REMOVE : Z := 1.
Definition SUB_OP_ADD : Z := 0.
Definition SUB_OP_UPDATE : Z := 1.
Definition SUB_OP_REMOVE : Z := 2.

Definition PublishOp_String (op : Z) : string :=
  if (op =? PUB_OP_ADD)%Z then "add" else if (op =? PUB_OP_REMOVE)%Z then "remove" else "unknown".

Definition SubscribeOp_String (op : Z) : string :=
  if (op =? SUB_OP_ADD)%Z then "add"
  else if (op =? SUB_OP_UPDATE)%Z then "update"
  else if (op =? SUB_OP_REMOVE)%Z then "remove"
  else "unknown".

Record TrackToPublish := {
  TP_Type : string;
  TP_BindId : string;
  TP_Rid : string;
  TP_Sid : string;
  TP_Labels : option (gmap string string)
}.

Record PublishMessage := {
  Pub_Op : Z;
  Pub_Id : string;
  Pub_Tracks : list TrackToPublish
}.

Record SubscribeMessage := {
  Sub_Op : Z;
  Sub_Id : string;
  Sub_ReqTypes : list string;
  Sub_Pattern : option PublicationPattern;
  Sub_Room : string
}.

(** [errors.InvalidParam(...)] *)
Definition invalid_param : option gerror := Some (EConf InvalidParam_code).

Definition PublishMessage_Validate (m : PublishMessage) : option gerror :=
  if (Pub_Op m =? PUB_OP_ADD)%Z then
    if negb (bool_decide (Pub_Id m = "")) then invalid_param
    else if (length (Pub_Tracks m) =? 0)%nat then invalid_param
    else if SliceAnyMatch (Pub_Tracks m) (fun t => bool_decide (TP_BindId t = "")) then invalid_param
    else None
  else if (Pub_Op m =? PUB_OP_REMOVE)%Z then
    if bool_decide (Pub_Id m = "") then invalid_param
    else if (0 <? length (Pub_Tracks m))%nat then invalid_param
    else None
  else invalid_param.

(** [Validate(m.Pattern)] reads the fields of the pattern: nil panics. *)
Definition validate_pattern (p : option PublicationPattern) : run (option gerror) :=
  p ← go_deref p; Validate p.

Definition SubscribeMessage_Validate (m : SubscribeMessage) : run (option gerror) :=
  if (Sub_Op m =? SUB_OP_ADD)%Z then
    if negb (bool_decide (Sub_Id m = "")) then Ret invalid_param else validate_pattern (Sub_Pattern m)
  else if (Sub_Op m =? SUB_OP_UPDATE)%Z then
    if bool_decide (Sub_Id m = "") then Ret invalid_param else validate_pattern (Sub_Pattern m)
  else if (Sub_Op m =? SUB_OP_REMOVE)%Z then
    if bool_decide (Sub_Id m = "") then Ret invalid_param else Ret None
  else Ret invalid_param.

(** ** The code: codecs *)

(** [webrtc.RTPCodecParameters], with its 16-bit channels and 8-bit
    payload type. *)
Record WebrtcCodec := {
  w_MimeType : string;
  w_ClockRate : Z;
  w_Channels : Z;
  w_SDPFmtpLine : string;
  w_RTCPFeedback : option (list RTCPFeedback);
  w_PayloadType : Z
}.

(** One iteration of the loop over the feedback entries. *)
Definition copy_feedback (f : RTCPFeedback) : RTCPFeedback :=
  {| FbType := FbType f; Parameter_ := Parameter_ f |}.

Definition NewRTPCodecParameters (source : WebrtcCodec) : RTPCodecParameters :=
  {| MimeType := w_MimeType source; ClockRate := w_ClockRate source;
     Channels := u32 (w_Channels source); SdpFmtpLine := w_SDPFmtpLine source;
     RtcpFeedback := option_map (map copy_feedback) (w_RTCPFeedback source);
     PayloadType := u32 (w_PayloadType source) |}.

Definition RTPCodecParametersToWebrtc (me : RTPCodecParameters) : WebrtcCodec :=
  {| w_MimeType := MimeType me; w_ClockRate := ClockRate me; w_Channels := u16 (Channels me);
     w_SDPFmtpLine := SdpFmtpLine me;
     w_RTCPFeedback := option_map (map copy_feedback) (RtcpFeedback me);
     w_PayloadType := u8 (PayloadType me) |}.

Definition CopyTrack (src : Track) : Track :=
  {| Type_ := Type_ src; PubId := PubId src; GlobalId := GlobalId src; LocalId := LocalId src;
     BindId := BindId src; Rid := Rid src; StreamId := StreamId src; Codec := Codec src;
     Labels := Labels src |}.

Record Participant := {
  P_Id : string;
  P_Name : string;
  P_SourceId : string;
  P_JoinId : Z
}.

#[global] Instance Participant_eq_dec : EqDecision Participant.
Proof. solve_decision. Defined.

(** ** What an implementation of the interface promises *)

Class RoomMessageLaws (M : Type) `{RoomMessage M} : Prop := {
  fix_router_router (m : M) room socketId node :
    GetRouter (FixRouter (Some m) room socketId node) =
    Some (fixRouter (default zero_router (GetRouter (Some m))) room socketId node);
  copy_plain_router (x : option M) :
    GetRouter (Some (CopyPlain x)) = Some (Router_CopyPlain (GetRouter x));
  copy_plain_id (m : M) : is_Some (GetRouter (Some m)) -> CopyPlain (Some m) = m;
  with_router_router f (m : M) : GetRouter (Some (with_router f m)) = f <$> GetRouter (Some m);
  fix_router_some (m : M) room socketId node : is_Some (FixRouter (Some m) room socketId node)
}.

(** A message whose map, if it has one, carries the router at its top. *)
Class FlatMessage (M : Type) `{RoomMessage M} : Prop :=
  to_map_router (m : M) ToMap : CanToMap = Some ToMap ->
    exists mp, ToMap (Some m) = Some mp /\ mp !! "router" = Some (GMap (Router_ToMap (GetRouter (Some m)))).

Lemma Router_CopyPlain_id r : Router_CopyPlain (Some r) = r.
Proof. by destruct r. Qed.

Ltac message_laws :=
  split;
  [ by intros [] *
  | by intros [[]|]
  | intros []; intros [r Hr]; cbn in Hr; subst; cbn; by rewrite ?Router_CopyPlain_id
  | by intros ? []
  | intros []; eauto ].

#[global] Instance WantMessage_laws : RoomMessageLaws WantMessage.
Proof. message_laws. Qed.
#[global] Instance StateMessage_laws : RoomMessageLaws StateMessage.
Proof. message_laws. Qed.
#[global] Instance SelectMessage_laws : RoomMessageLaws SelectMessage.
Proof. message_laws. Qed.
#[global] Instance WantParticipantMessage_laws : RoomMessageLaws WantParticipantMessage.
Proof. message_laws. Qed.
#[global] Instance StateParticipantMessage_laws : RoomMessageLaws StateParticipantMessage.
Proof. message_laws. Qed.
#[global] Instance StateLeaveMessage_laws : RoomMessageLaws StateLeaveMessage.
Proof. message_laws. Qed.
#[global] Instance PingMessage_laws : RoomMessageLaws PingMessage.
Proof. message_laws. Qed.
#[global] Instance PongMessage_laws : RoomMessageLaws PongMessage.
Proof. message_laws. Qed.
#[global] Instance CustomMessage_laws : RoomMessageLaws CustomMessage.
Proof. message_laws. Qed.
#[global] Instance CustomAckMessage_laws : RoomMessageLaws CustomAckMessage.
Proof. message_laws. Qed.

#[global] Instance CustomClusterMessage_laws : RoomMessageLaws CustomClusterMessage.
Proof.
  split.
  - by intros [? [[]|]] *.
  - by intros [[? [[]|]]|].
  - intros [evt [m|]]; intros [r Hr]; [|done]. cbn -[CopyPlain].
    change (Build_CustomClusterMessage evt (Some (CopyPlain (Some m))) =
            Build_CustomClusterMessage evt (Some m)).
    rewrite (copy_plain_id m); [done|]. by exists r.
  - by intros ? [? [[]|]].
  - intros [? [[]|]]; cbn; eauto.
Qed.

Ltac flat_message := intros m ToMap HM; cbn in HM; (discriminate HM || (injection HM as <-;
  eexists; split; [reflexivity|]; unfold router_entry;
  by rewrite ?list_to_map_cons, lookup_insert_eq)).

#[global] Instance WantMessage_flat : FlatMessage WantMessage.
Proof. flat_message. Qed.
#[global] Instance StateMessage_flat : FlatMessage StateMessage.
Proof. flat_message. Qed.
#[global] Instance SelectMessage_flat : FlatMessage SelectMessage.
Proof. flat_message. Qed.
#[global] Instance WantParticipantMessage_flat : FlatMessage WantParticipantMessage.
Proof. flat_message. Qed.
#[global] Instance StateParticipantMessage_flat : FlatMessage StateParticipantMessage.
Proof. flat_message. Qed.
#[global] Instance StateLeaveMessage_flat : FlatMessage StateLeaveMessage.
Proof. flat_message. Qed.
#[global] Instance PingMessage_flat : FlatMessage PingMessage.
Proof. flat_message. Qed.
#[global] Instance PongMessage_flat : FlatMessage PongMessage.
Proof. flat_message. Qed.
#[global] Instance CustomMessage_flat : FlatMessage CustomMessage.
Proof. flat_message. Qed.
#[global] Instance CustomAckMessage_flat : FlatMessage CustomAckMessage.
Proof. flat_message. Qed.

(** ** Properties *)

(**  Whatever a client wrote into the router of a message, after
    [FixRouter] the message names the socket and the node it really comes
    from; the room is filled in when it was missing, and the addressee is
    kept. *)
Theorem FixRouter_correct `{RoomMessageLaws M} (m : M) room socketId node :
  let old := default zero_router (GetRouter (Some m)) in
  exists r, GetRouter (FixRouter (Some m) room socketId node) = Some r /\
    SocketFrom r = socketId /\ NodeFrom r = node /\
    Room r = (if decide (Room old = "") then room else Room old) /\
    NodeTo r = NodeTo old /\ SocketTo r = SocketTo old.
Proof. cbn zeta. rewrite fix_router_router. eexists. by split. Qed.

Definition sample_ping : PingMessage :=
  {| Ping_Router := Some (Build_Router "" "evil" "n2" "s9" ""); Ping_MsgId := 7 |}.

Lemma FixRouter_correct_witness :
  let old := default zero_router (GetRouter (Some sample_ping)) in
  exists r, GetRouter (FixRouter (Some sample_ping) "room" "s1" "n1") = Some r /\
    SocketFrom r = "s1" /\ NodeFrom r = "n1" /\
    Room r = (if decide (Room old = "") then "room" else Room old) /\
    NodeTo r = NodeTo old /\ SocketTo r = SocketTo old.
Proof. apply FixRouter_correct. Defined.

(** The value carries no node name, and the rest of the router [r]. *)
Definition hides_nodes `{RoomMessage M} (r : Router) (v : client_value M) : Prop :=
  match v with
  | ClientMap mp => exists mp' rm, mp = Some mp' /\ mp' !! "router" = Some (GMap (Some rm)) /\
      rm !! "nodeFrom" = None /\ rm !! "nodeTo" = None /\
      forall k, k <> "nodeFrom" -> k <> "nodeTo" ->
        rm !! k = (from_option id ∅ (Router_ToMap (Some r)) : gmap string gval) !! k
  | ClientMsg m => GetRouter (Some m) = Some (strip_node r)
  end.

Lemma ToClientMessage_spec `{RoomMessageLaws M, !FlatMessage M} (m : M) r :
  GetRouter (Some m) = Some r ->
  exists v, ToClientMessage (Some m) = Ret v /\ hides_nodes r v.
Proof.
  intros Hr. unfold ToClientMessage. destruct CanToMap as [ToMap|] eqn:HM.
  - destruct (to_map_router m ToMap HM) as (mp & -> & Hmp). rewrite Hr in Hmp.
    eexists. split; [done|]. cbn -[Router_ToMap]. unfold strip_entry. rewrite Hmp. cbn -[list_to_map].
    eexists _, _. split; [done|]. rewrite lookup_insert_eq. split; [done|].
    split_and!; [by rewrite lookup_delete_ne, lookup_delete_eq|by rewrite lookup_delete_eq|].
    intros k ??. by rewrite !lookup_delete_ne.
  - rewrite copy_plain_id by (by exists r). rewrite Hr. eexists. split; [done|].
    cbn. by rewrite with_router_router, Hr.
Qed.

(** [ToClientMessage] sends a routed message to a client without the
    names of the cluster's nodes and with the rest of the router as it was;
    it does not fail. *)
Theorem ToClientMessage_correct `{RoomMessageLaws M, !FlatMessage M} (m : M) r :
  GetRouter (Some m) = Some r ->
  exists v, ToClientMessage (Some m) = Ret v /\ hides_nodes r v.
Proof. apply ToClientMessage_spec. Qed.

Lemma ToClientMessage_correct_witness :
  exists v, ToClientMessage (Some sample_ping) = Ret v /\
    hides_nodes (Build_Router "" "evil" "n2" "s9" "") v.
Proof. apply ToClientMessage_correct. reflexivity. Defined.

(** What a validated subscription is. *)
Definition subscription_ok (m : SubscribeMessage) : Prop :=
  let evaluates := exists p, Sub_Pattern m = Some p /\ forall t, exists b, Match p t = Ret b /\ (b = true <-> sat p t) in
  (Sub_Op m = SUB_OP_ADD /\ Sub_Id m = "" /\ evaluates) \/
  (Sub_Op m = SUB_OP_UPDATE /\ Sub_Id m <> "" /\ evaluates) \/
  (Sub_Op m = SUB_OP_REMOVE /\ Sub_Id m <> "").

Lemma validate_pattern_ok p :
  validate_pattern p = Ret None ->
  exists q, p = Some q /\ forall t, exists b, Match q t = Ret b /\ (b = true <-> sat q t).
Proof.
  destruct p as [q|]; cbn; [|done]. intros Hv. exists q. split; [done|].
  intros t. by apply Match_decides.
Qed.

(** A subscription request that passes [Validate] is one of the three
    operations with an id exactly when the operation needs one, and its
    pattern, when it needs one, is evaluated on every track without a
    crash. *)
Theorem SubscribeMessage_Validate_ok m :
  SubscribeMessage_Validate m = Ret None -> subscription_ok m.
Proof.
  unfold SubscribeMessage_Validate, subscription_ok.
  destruct (Z.eqb_spec (Sub_Op m) SUB_OP_ADD); [case_bool_decide; [|done]; intros ?%validate_pattern_ok; auto|].
  destruct (Z.eqb_spec (Sub_Op m) SUB_OP_UPDATE); [case_bool_decide; [done|]; intros ?%validate_pattern_ok; auto|].
  destruct (Z.eqb_spec (Sub_Op m) SUB_OP_REMOVE); [case_bool_decide; [done|]; auto|done].
Qed.

Definition sample_subscribe : SubscribeMessage :=
  {| Sub_Op := SUB_OP_ADD; Sub_Id := ""; Sub_ReqTypes := []; Sub_Pattern := Some sample_pattern; Sub_Room := "r" |}.

Lemma SubscribeMessage_Validate_ok_witness : subscription_ok sample_subscribe.
Proof. apply SubscribeMessage_Validate_ok. reflexivity. Defined.

(** A subscription request without a pattern is not rejected: adding
    one dereferences the missing pattern and panics. *)
Theorem SubscribeMessage_Validate_nil types room :
  SubscribeMessage_Validate
    {| Sub_Op := SUB_OP_ADD; Sub_Id := ""; Sub_ReqTypes := types; Sub_Pattern := None; Sub_Room := room |}
  = go_panic PNilDeref.
Proof. reflexivity. Qed.

(** A codec survives the trip through the message format: channels and
    payload type fit their machine widths in [webrtc], and nothing else is
    converted. *)
Theorem codec_roundtrip c :
  (0 <= w_Channels c < 65536)%Z -> (0 <= w_PayloadType c < 256)%Z ->
  RTPCodecParametersToWebrtc (NewRTPCodecParameters c) = c.
Proof.
  intros Hc Hp. destruct c as [mime rate ch fmtp fb pt]. cbn in *.
  unfold RTPCodecParametersToWebrtc. cbn.
  rewrite u32_id, u16_id, u32_id, u8_id by lia. f_equal.
  destruct fb as [l|]; cbn; [|done]. f_equal. induction l as [|[] l IH]; cbn; [done|by rewrite IH].
Qed.

Lemma codec_roundtrip_witness :
  let c := {| w_MimeType := "video/H264"; w_ClockRate := 90000; w_Channels := 0; w_SDPFmtpLine := "";
              w_RTCPFeedback := Some [{| FbType := "nack"; Parameter_ := "pli" |}]; w_PayloadType := 102 |} in
  RTPCodecParametersToWebrtc (NewRTPCodecParameters c) = c.
Proof. apply codec_roundtrip; cbn; lia. Defined.
