(* ===== verification/Messager.v ===== *)
(** * The cluster messager: [signal/messager.go]

    Every node keeps, for each kind of message, the handlers registered
    under room patterns.  A message emitted by a node is handed to the local
    handlers and produced to Kafka; the record comes back to every node,
    which ignores its own.  The ten kinds differ only in their types, so that
    each handler of the source is an instance of a generic one.  The lock of
    each kind makes its operations atomic; a handler is started with [go],
    so that running one amounts to adding it to the goroutines spawned. *)
From S2P Require Import Prelude GoStrings Collection RoomPattern PatternMap Pattern Messages.
Local Open Scope string_scope.
Local Open Scope list_scope.

(** ** Kafka topics *)

Record KafkaClient := { TopicPrefix : string }.

Definition MakeKafkaTopic (conf : KafkaClient) (topic : string) : string :=
  let prefix := TrimSpace (TopicPrefix conf) in
  if decide (prefix = "") then topic else prefix +:+ topic.

(** The receiver may be nil. *)
Definition MakeTopic (s : option KafkaClient) (topic : string) : string :=
  match s with None => "" | Some conf => MakeKafkaTopic conf topic end.

Definition TOPIC_STATE := "cluster_state".
Definition TOPIC_WANT := "cluster_want".
Definition TOPIC_SELECT := "cluster_select".
Definition TOPIC_WANT_PARTICIPANT := "cluster_want_participant".
Definition TOPIC_STATE_PARTICIPANT := "cluster_state_participant".
Definition TOPIC_STATE_LEAVE := "cluster_state_leave".
Definition TOPIC_PING := "cluster_ping".
Definition TOPIC_PONG := "cluster_pong".
Definition TOPIC_CUSTOM := "cluster_custom".
Definition TOPIC_CUSTOM_ACK := "cluster_custom_ack".

Record krecord := { Key : string; Topic : string; Value : list Z }.

Section Messager.
(** What a goroutine running a handler does is not modelled: [R] is the
    type of such goroutines. *)
Context {R : Type}.

(** The order in which Go visits a map. *)
Context (range : forall A : Type, gmap string A -> list (string * A)).
Arguments range {A} _.

(** ** The registry of one kind of message *)

Record messagerCallbackBox (M : Type) := { box_id : string; box_fun : M -> R }.
Arguments box_id {M} _.
Arguments box_fun {M} _ _.

Abbreviation FuncBoxes M := (gmap string (messagerCallbackBox M)).

Fixpoint onMessage {M} (pm : PatternMap (FuncBoxes M)) (funId : string) (fun_ : M -> R)
    (roomPattern : list string) : run (PatternMap (FuncBoxes M)) :=
  let box := {| box_id := funId; box_fun := fun_ |} in
  match roomPattern with
  | [] => Ret pm
  | rp :: roomPattern' =>
      pm ← UpdatePatternData pm rp (fun old => Some (<[funId := box]> (default ∅ old)));
      onMessage pm funId fun_ roomPattern'
  end.

Fixpoint offMessage {M} (pm : PatternMap (FuncBoxes M)) (funId : string) (roomPattern : list string)
    : run (PatternMap (FuncBoxes M)) :=
  match roomPattern with
  | [] => Ret pm
  | rp :: roomPattern' =>
      pm ← UpdatePatternData pm rp (fun old =>
        match old with
        | Some old => Some (delete funId old)
        | None => None
        end);
      offMessage pm funId roomPattern'
  end.

(** [for key, box := range boxes { bm[key] = box.fun }] for each collected
    map of boxes. *)
Definition merge_boxes {M} (collected : list (FuncBoxes M)) : gmap string (M -> R) :=
  fold_left (fun bm boxes =>
    fold_left (fun bm '(key, box) => <[key := box_fun box]> bm) (range boxes) bm) collected ∅.

Definition consumeMessage `{RoomMessage M} (pm : PatternMap (FuncBoxes M)) (msg : M)
    (nodeName : string) : run (list (M -> R)) :=
  match GetRouter (Some msg) with
  | None => Ret []
  | Some target =>
      if decide (Room target = "") then Ret []
      else if decide (NodeTo target <> "" /\ NodeTo target <> nodeName) then Ret []
      else
        collected ← Collect pm (Room target);
        Ret (default [] (MapValues range (Some (merge_boxes collected))))
  end.

(** ** The messager *)

Record Messager := {
  nodeName : string;
  kafka : option KafkaClient;
  onStateCallbacks : PatternMap (FuncBoxes StateMessage);
  onWantCallbacks : PatternMap (FuncBoxes WantMessage);
  onSelectCallbacks : PatternMap (FuncBoxes SelectMessage);
  onWantParticipantCallbacks : PatternMap (FuncBoxes WantParticipantMessage);
  onStateParticipantCallbacks : PatternMap (FuncBoxes StateParticipantMessage);
  onStateLeaveCallbacks : PatternMap (FuncBoxes StateLeaveMessage);
  onPingCallbacks : PatternMap (FuncBoxes PingMessage);
  onPongCallbacks : PatternMap (FuncBoxes PongMessage);
  onCustomCallbacks : PatternMap (FuncBoxes CustomClusterMessage);
  onCustomAckCallbacks : PatternMap (FuncBoxes CustomAckMessage)
}.

(** [kafkaConf] is the client [NewKafkaClient] makes of the configuration,
    nil when no address is configured. *)
Definition NewMessager (clusterEnable : bool) (clusterNodeName : string)
    (kafkaConf : option KafkaClient) : Messager :=
  {| nodeName := if clusterEnable then clusterNodeName else "";
     kafka := if clusterEnable then kafkaConf else None;
     onStateCallbacks := NewPatternMap; onWantCallbacks := NewPatternMap;
     onSelectCallbacks := NewPatternMap; onWantParticipantCallbacks := NewPatternMap;
     onStateParticipantCallbacks := NewPatternMap; onStateLeaveCallbacks := NewPatternMap;
     onPingCallbacks := NewPatternMap; onPongCallbacks := NewPatternMap;
     onCustomCallbacks := NewPatternMap; onCustomAckCallbacks := NewPatternMap |}.

(** The encoding of the generated protobuf code, which is not part of the
    sources: one decoder per kind, and the encoders. *)
Record Codec (M : Type) := {
  Marshal : M -> option (list Z);
  Unmarshal : list Z -> option M
}.
Arguments Marshal {M} _ _.
Arguments Unmarshal {M} _ _.

(** What the ten kinds have in common. *)
Class Kind (M : Type) `{RoomMessage M} := {
  callbacks : Messager -> PatternMap (FuncBoxes M);
  set_callbacks : PatternMap (FuncBoxes M) -> Messager -> Messager;
  topic_name : string
}.

#[local] Instance State_kind : Kind StateMessage := {
  callbacks := onStateCallbacks;
  set_callbacks pm m := {| nodeName := nodeName m; kafka := kafka m;
    onStateCallbacks := pm;
    onWantCallbacks := onWantCallbacks m;
    onSelectCallbacks := onSelectCallbacks m;
    onWantParticipantCallbacks := onWantParticipantCallbacks m;
    onStateParticipantCallbacks := onStateParticipantCallbacks m;
    onStateLeaveCallbacks := onStateLeaveCallbacks m;
    onPingCallbacks := onPingCallbacks m;
    onPongCallbacks := onPongCallbacks m;
    onCustomCallbacks := onCustomCallbacks m;
    onCustomAckCallbacks := onCustomAckCallbacks m |};
  topic_name := TOPIC_STATE
}.

#[local] Instance Want_kind : Kind WantMessage := {
  callbacks := onWantCallbacks;
  set_callbacks pm m := {| nodeName := nodeName m; kafka := kafka m;
    onStateCallbacks := onStateCallbacks m;
    onWantCallbacks := pm;
    onSelectCallbacks := onSelectCallbacks m;
    onWantParticipantCallbacks := onWantParticipantCallbacks m;
    onStateParticipantCallbacks := onStateParticipantCallbacks m;
    onStateLeaveCallbacks := onStateLeaveCallbacks m;
    onPingCallbacks := onPingCallbacks m;
    onPongCallbacks := onPongCallbacks m;
    onCustomCallbacks := onCustomCallbacks m;
    onCustomAckCallbacks := onCustomAckCallbacks m |};
  topic_name := TOPIC_WANT
}.

#[local] Instance Select_kind : Kind SelectMessage := {
  callbacks := onSelectCallbacks;
  set_callbacks pm m := {| nodeName := nodeName m; kafka := kafka m;
    onStateCallbacks := onStateCallbacks m;
    onWantCallbacks := onWantCallbacks m;
    onSelectCallbacks := pm;
    onWantParticipantCallbacks := onWantParticipantCallbacks m;
    onStateParticipantCallbacks := onStateParticipantCallbacks m;
    onStateLeaveCallbacks := onStateLeaveCallbacks m;
    onPingCallbacks := onPingCallbacks m;
    onPongCallbacks := onPongCallbacks m;
    onCustomCallbacks := onCustomCallbacks m;
    onCustomAckCallbacks := onCustomAckCallbacks m |};
  topic_name := TOPIC_SELECT
}.

#[local] Instance WantParticipant_kind : Kind WantParticipantMessage := {
  callbacks := onWantParticipantCallbacks;
  set_callbacks pm m := {| nodeName := nodeName m; kafka := kafka m;
    onStateCallbacks := onStateCallbacks m;
    onWantCallbacks := onWantCallbacks m;
    onSelectCallbacks := onSelectCallbacks m;
    onWantParticipantCallbacks := pm;
    onStateParticipantCallbacks := onStateParticipantCallbacks m;
    onStateLeaveCallbacks := onStateLeaveCallbacks m;
    onPingCallbacks := onPingCallbacks m;
    onPongCallbacks := onPongCallbacks m;
    onCustomCallbacks := onCustomCallbacks m;
    onCustomAckCallbacks := onCustomAckCallbacks m |};
  topic_name := TOPIC_WANT_PARTICIPANT
}.

#[local] Instance StateParticipant_kind : Kind StateParticipantMessage := {
  callbacks := onStateParticipantCallbacks;
  set_callbacks pm m := {| nodeName := nodeName m; kafka := kafka m;
    onStateCallbacks := onStateCallbacks m;
    onWantCallbacks := onWantCallbacks m;
    onSelectCallbacks := onSelectCallbacks m;
    onWantParticipantCallbacks := onWantParticipantCallbacks m;
    onStateParticipantCallbacks := pm;
    onStateLeaveCallbacks := onStateLeaveCallbacks m;
    onPingCallbacks := onPingCallbacks m;
    onPongCallbacks := onPongCallbacks m;
    onCustomCallbacks := onCustomCallbacks m;
    onCustomAckCallbacks := onCustomAckCallbacks m |};
  topic_name := TOPIC_STATE_PARTICIPANT
}.

#[local] Instance StateLeave_kind : Kind StateLeaveMessage := {
  callbacks := onStateLeaveCallbacks;
  set_callbacks pm m := {| nodeName := nodeName m; kafka := kafka m;
    onStateCallbacks := onStateCallbacks m;
    onWantCallbacks := onWantCallbacks m;
    onSelectCallbacks := onSelectCallbacks m;
    onWantParticipantCallbacks := onWantParticipantCallbacks m;
    onStateParticipantCallbacks := onStateParticipantCallbacks m;
    onStateLeaveCallbacks := pm;
    onPingCallbacks := onPingCallbacks m;
    onPongCallbacks := onPongCallbacks m;
    onCustomCallbacks := onCustomCallbacks m;
    onCustomAckCallbacks := onCustomAckCallbacks m |};
  topic_name := TOPIC_STATE_LEAVE
}.

#[local] Instance Ping_kind : Kind PingMessage := {
  callbacks := onPingCallbacks;
  set_callbacks pm m := {| nodeName := nodeName m; kafka := kafka m;
    onStateCallbacks := onStateCallbacks m;
    onWantCallbacks := onWantCallbacks m;
    onSelectCallbacks := onSelectCallbacks m;
    onWantParticipantCallbacks := onWantParticipantCallbacks m;
    onStateParticipantCallbacks := onStateParticipantCallbacks m;
    onStateLeaveCallbacks := onStateLeaveCallbacks m;
    onPingCallbacks := pm;
    onPongCallbacks := onPongCallbacks m;
    onCustomCallbacks := onCustomCallbacks m;
    onCustomAckCallbacks := onCustomAckCallbacks m |};
  topic_name := TOPIC_PING
}.

#[local] Instance Pong_kind : Kind PongMessage := {
  callbacks := onPongCallbacks;
  set_callbacks pm m := {| nodeName := nodeName m; kafka := kafka m;
    onStateCallbacks := onStateCallbacks m;
    onWantCallbacks := onWantCallbacks m;
    onSelectCallbacks := onSelectCallbacks m;
    onWantParticipantCallbacks := onWantParticipantCallbacks m;
    onStateParticipantCallbacks := onStateParticipantCallbacks m;
    onStateLeaveCallbacks := onStateLeaveCallbacks m;
    onPingCallbacks := onPingCallbacks m;
    onPongCallbacks := pm;
    onCustomCallbacks := onCustomCallbacks m;
    onCustomAckCallbacks := onCustomAckCallbacks m |};
  topic_name := TOPIC_PONG
}.

#[local] Instance Custom_kind : Kind CustomClusterMessage := {
  callbacks := onCustomCallbacks;
  set_callbacks pm m := {| nodeName := nodeName m; kafka := kafka m;
    onStateCallbacks := onStateCallbacks m;
    onWantCallbacks := onWantCallbacks m;
    onSelectCallbacks := onSelectCallbacks m;
    onWantParticipantCallbacks := onWantParticipantCallbacks m;
    onStateParticipantCallbacks := onStateParticipantCallbacks m;
    onStateLeaveCallbacks := onStateLeaveCallbacks m;
    onPingCallbacks := onPingCallbacks m;
    onPongCallbacks := onPongCallbacks m;
    onCustomCallbacks := pm;
    onCustomAckCallbacks := onCustomAckCallbacks m |};
  topic_name := TOPIC_CUSTOM
}.

#[local] Instance CustomAck_kind : Kind CustomAckMessage := {
  callbacks := onCustomAckCallbacks;
  set_callbacks pm m := {| nodeName := nodeName m; kafka := kafka m;
    onStateCallbacks := onStateCallbacks m;
    onWantCallbacks := onWantCallbacks m;
    onSelectCallbacks := onSelectCallbacks m;
    onWantParticipantCallbacks := onWantParticipantCallbacks m;
    onStateParticipantCallbacks := onStateParticipantCallbacks m;
    onStateLeaveCallbacks := onStateLeaveCallbacks m;
    onPingCallbacks := onPingCallbacks m;
    onPongCallbacks := onPongCallbacks m;
    onCustomCallbacks := onCustomCallbacks m;
    onCustomAckCallbacks := pm |};
  topic_name := TOPIC_CUSTOM_ACK
}.

(** ** The generic operations *)

Definition On `{Kind M} (funId : string) (fun_ : M -> R) (roomPattern : list string) (m : Messager)
    : run Messager :=
  pm ← onMessage (callbacks m) funId fun_ roomPattern;
  Ret (set_callbacks pm m).

Definition Off `{Kind M} (funId : string) (roomPattern : list string) (m : Messager) : run Messager :=
  pm ← offMessage (callbacks m) funId roomPattern;
  Ret (set_callbacks pm m).

(** The goroutines a message starts. *)
Definition consume `{Kind M} (m : Messager) (msg : M) : run (list R) :=
  funs ← consumeMessage (callbacks m) msg (nodeName m);
  Ret (map (fun f => f msg) funs).

(** A record from Kafka.  A message without a router is only logged before
    its router is read. *)
Definition onTopic `{Kind M} (codec : Codec M) (m : Messager) (record : krecord) : run (list R) :=
  match Unmarshal codec (Value record) with
  | None => Ret []
  | Some msg =>
      router ← go_deref (GetRouter (Some msg));
      if decide (NodeFrom router <> nodeName m) then consume m msg else Ret []
  end.

(** ** The operations of each kind *)

Definition OnState := On (M := StateMessage).
Definition OffState := Off (M := StateMessage).
Definition consumeState := consume (M := StateMessage).
Definition onTopicState := onTopic (M := StateMessage).

Definition OnWant := On (M := WantMessage).
Definition OffWant := Off (M := WantMessage).
Definition consumeWant := consume (M := WantMessage).
Definition onTopicWant := onTopic (M := WantMessage).

Definition OnSelect := On (M := SelectMessage).
Definition OffSelect := Off (M := SelectMessage).
Definition consumeSelect := consume (M := SelectMessage).
Definition onTopicSelect := onTopic (M := SelectMessage).

Definition OnWantParticipant := On (M := WantParticipantMessage).
Definition OffWantParticipant := Off (M := WantParticipantMessage).
Definition consumeWantParticipant := consume (M := WantParticipantMessage).
Definition onTopicWantParticipant := onTopic (M := WantParticipantMessage).

Definition OnStateParticipant := On (M := StateParticipantMessage).
Definition OffStateParticipant := Off (M := StateParticipantMessage).
Definition consumeStateParticipant := consume (M := StateParticipantMessage).
Definition onTopicStateParticipant := onTopic (M := StateParticipantMessage).

Definition OnStateLeave := On (M := StateLeaveMessage).
Definition OffStateLeave := Off (M := StateLeaveMessage).
Definition consumeStateLeave := consume (M := StateLeaveMessage).
Definition onTopicStateLeave := onTopic (M := StateLeaveMessage).

Definition OnPing := On (M := PingMessage).
Definition OffPing := Off (M := PingMessage).
Definition consumePing := consume (M := PingMessage).
Definition onTopicPing := onTopic (M := PingMessage).

Definition OnPong := On (M := PongMessage).
Definition OffPong := Off (M := PongMessage).
Definition consumePong := consume (M := PongMessage).
Definition onTopicPong := onTopic (M := PongMessage).

Definition OnCustom := On (M := CustomClusterMessage).
Definition OffCustom := Off (M := CustomClusterMessage).
Definition consumeCustom := consume (M := CustomClusterMessage).
Definition onTopicCustom := onTopic (M := CustomClusterMessage).

Definition OnCustomAck := On (M := CustomAckMessage).
Definition OffCustomAck := Off (M := CustomAckMessage).
Definition consumeCustomAck := consume (M := CustomAckMessage).
Definition onTopicCustomAck := onTopic (M := CustomAckMessage).

(** ** Emitting *)

(** A value of the interface [RoomMessage]: the ten kinds, and
    [CustomMessage], which is one but is not handled. *)
Inductive AnyMessage :=
  | AnyState (msg : StateMessage)
  | AnyWant (msg : WantMessage)
  | AnySelect (msg : SelectMessage)
  | AnyWantParticipant (msg : WantParticipantMessage)
  | AnyStateParticipant (msg : StateParticipantMessage)
  | AnyStateLeave (msg : StateLeaveMessage)
  | AnyPing (msg : PingMessage)
  | AnyPong (msg : PongMessage)
  | AnyCustom (msg : CustomClusterMessage)
  | AnyCustomAck (msg : CustomAckMessage)
  | AnyPlainCustom (msg : CustomMessage).

Record Codecs := {
  codec_State : Codec StateMessage;
  codec_Want : Codec WantMessage;
  codec_Select : Codec SelectMessage;
  codec_WantParticipant : Codec WantParticipantMessage;
  codec_StateParticipant : Codec StateParticipantMessage;
  codec_StateLeave : Codec StateLeaveMessage;
  codec_Ping : Codec PingMessage;
  codec_Pong : Codec PongMessage;
  codec_Custom : Codec CustomClusterMessage;
  codec_CustomAck : Codec CustomAckMessage
}.

(** Apply a polymorphic function to the message inside. *)
Definition any_router (msg : AnyMessage) : option Router :=
  match msg with
  | AnyState msg => GetRouter (Some msg)
  | AnyWant msg => GetRouter (Some msg)
  | AnySelect msg => GetRouter (Some msg)
  | AnyWantParticipant msg => GetRouter (Some msg)
  | AnyStateParticipant msg => GetRouter (Some msg)
  | AnyStateLeave msg => GetRouter (Some msg)
  | AnyPing msg => GetRouter (Some msg)
  | AnyPong msg => GetRouter (Some msg)
  | AnyCustom msg => GetRouter (Some msg)
  | AnyCustomAck msg => GetRouter (Some msg)
  | AnyPlainCustom msg => GetRouter (Some msg)
  end.

Definition any_with_router (f : Router -> Router) (msg : AnyMessage) : AnyMessage :=
  match msg with
  | AnyState msg => AnyState (with_router f msg)
  | AnyWant msg => AnyWant (with_router f msg)
  | AnySelect msg => AnySelect (with_router f msg)
  | AnyWantParticipant msg => AnyWantParticipant (with_router f msg)
  | AnyStateParticipant msg => AnyStateParticipant (with_router f msg)
  | AnyStateLeave msg => AnyStateLeave (with_router f msg)
  | AnyPing msg => AnyPing (with_router f msg)
  | AnyPong msg => AnyPong (with_router f msg)
  | AnyCustom msg => AnyCustom (with_router f msg)
  | AnyCustomAck msg => AnyCustomAck (with_router f msg)
  | AnyPlainCustom msg => AnyPlainCustom (with_router f msg)
  end.

(** The switch of [Emit]: the topic and the goroutines started, none for
    an unknown type. *)
Definition emit_local (m : Messager) (msg : AnyMessage) : option (string * run (list R)) :=
  match msg with
  | AnyState msg => Some (MakeTopic (kafka m) TOPIC_STATE, consumeState m msg)
  | AnyWant msg => Some (MakeTopic (kafka m) TOPIC_WANT, consumeWant m msg)
  | AnySelect msg => Some (MakeTopic (kafka m) TOPIC_SELECT, consumeSelect m msg)
  | AnyWantParticipant msg => Some (MakeTopic (kafka m) TOPIC_WANT_PARTICIPANT, consumeWantParticipant m msg)
  | AnyStateParticipant msg => Some (MakeTopic (kafka m) TOPIC_STATE_PARTICIPANT, consumeStateParticipant m msg)
  | AnyStateLeave msg => Some (MakeTopic (kafka m) TOPIC_STATE_LEAVE, consumeStateLeave m msg)
  | AnyPing msg => Some (MakeTopic (kafka m) TOPIC_PING, consumePing m msg)
  | AnyPong msg => Some (MakeTopic (kafka m) TOPIC_PONG, consumePong m msg)
  | AnyCustom msg => Some (MakeTopic (kafka m) TOPIC_CUSTOM, consumeCustom m msg)
  | AnyCustomAck msg => Some (MakeTopic (kafka m) TOPIC_CUSTOM_ACK, consumeCustomAck m msg)
  | AnyPlainCustom _ => None
  end.

Definition any_marshal (cs : Codecs) (msg : AnyMessage) : option (list Z) :=
  match msg with
  | AnyState msg => Marshal (codec_State cs) msg
  | AnyWant msg => Marshal (codec_Want cs) msg
  | AnySelect msg => Marshal (codec_Select cs) msg
  | AnyWantParticipant msg => Marshal (codec_WantParticipant cs) msg
  | AnyStateParticipant msg => Marshal (codec_StateParticipant cs) msg
  | AnyStateLeave msg => Marshal (codec_StateLeave cs) msg
  | AnyPing msg => Marshal (codec_Ping cs) msg
  | AnyPong msg => Marshal (codec_Pong cs) msg
  | AnyCustom msg => Marshal (codec_Custom cs) msg
  | AnyCustomAck msg => Marshal (codec_CustomAck cs) msg
  | AnyPlainCustom _ => None
  end.

Definition set_node_from (n : string) (r : Router) : Router :=
  {| Room := Room r; NodeFrom := n; NodeTo := NodeTo r; SocketFrom := SocketFrom r;
     SocketTo := SocketTo r |}.

(** The result of [Emit]: the message as it is afterwards (its router is
    completed), the goroutines started, the record produced and the error.
    [produce] is the answer of the Kafka client to a record. *)
Record emitted := {
  em_msg : AnyMessage;
  em_spawned : list R;
  em_produced : option krecord;
  em_err : option gerror
}.

Definition Emit (cs : Codecs) (produce : krecord -> option gerror) (m : Messager) (msg : AnyMessage)
    : run emitted :=
  let fail msg spawned :=
    Ret {| em_msg := msg; em_spawned := spawned; em_produced := None;
           em_err := Some (EConf INVALID_MESSAGE) |} in
  match any_router msg with
  | None => fail msg []
  | Some target =>
      if decide (Room target = "") then fail msg []
      else if decide (NodeFrom target <> "" /\ NodeFrom target <> nodeName m) then fail msg []
      else
        let msg := if decide (NodeFrom target = "") then any_with_router (set_node_from (nodeName m)) msg
                   else msg in
        match emit_local m msg with
        | None => fail msg []
        | Some (topic, local) =>
            spawned ← local;
            match any_marshal cs msg with
            | None => fail msg spawned
            | Some data =>
                let record := {| Key := Room target; Topic := topic; Value := data |} in
                Ret {| em_msg := msg; em_spawned := spawned;
                       em_produced := match kafka m with Some _ => Some record | None => None end;
                       em_err := match kafka m with Some _ => produce record | None => None end |}
            end
        end
  end.

(** A record is given to the handler of its topic. *)
Definition dispatch (cs : Codecs) (m : Messager) (record : krecord) : run (list R) :=
  let on t := bool_decide (Topic record = MakeTopic (kafka m) t) in
  if on TOPIC_STATE then onTopicState (codec_State cs) m record
  else if on TOPIC_WANT then onTopicWant (codec_Want cs) m record
  else if on TOPIC_SELECT then onTopicSelect (codec_Select cs) m record
  else if on TOPIC_WANT_PARTICIPANT then onTopicWantParticipant (codec_WantParticipant cs) m record
  else if on TOPIC_STATE_PARTICIPANT then onTopicStateParticipant (codec_StateParticipant cs) m record
  else if on TOPIC_STATE_LEAVE then onTopicStateLeave (codec_StateLeave cs) m record
  else if on TOPIC_PING then onTopicPing (codec_Ping cs) m record
  else if on TOPIC_PONG then onTopicPong (codec_Pong cs) m record
  else if on TOPIC_CUSTOM then onTopicCustom (codec_Custom cs) m record
  else if on TOPIC_CUSTOM_ACK then onTopicCustomAck (codec_CustomAck cs) m record
  else Ret [].

(** ** The registry *)

Context (range_perm : forall A (m : gmap string A), range m ≡ₚ map_to_list m).

Definition registered {M} (pm : PatternMap (FuncBoxes M)) (path : list string) (id : string)
    : option (messagerCallbackBox M) :=
  pm_get pm path ≫= fun boxes => boxes !! id.

Lemma registered_new {M} path id : registered (M := M) NewPatternMap path id = None.
Proof. unfold registered, pm_get. destruct path; cbn; [done|]. by rewrite lookup_empty. Qed.

Lemma onMessage_spec {M} (pm : PatternMap (FuncBoxes M)) funId fun_ pats :
  Forall valid_pattern pats ->
  exists pm', onMessage pm funId fun_ pats = Ret pm' /\
    forall path id, registered pm' path id =
      if decide (id = funId /\ path ∈ map (Split dot) pats)
      then Some {| box_id := funId; box_fun := fun_ |} else registered pm path id.
Proof using Type.
  intros Hp. revert pm. induction Hp as [|rp pats Hrp Hp IH]; intros pm; cbn [onMessage map].
  { exists pm. split; [done|]. intros. rewrite decide_False; [done|]. intros [_ ?%not_elem_of_nil]. done. }
  destruct (UpdatePatternData_spec pm rp (fun old => Some (<[funId :=
    {| box_id := funId; box_fun := fun_ |}]> (default ∅ old))) Hrp) as (pm1 & -> & H1).
  rewrite bind_ret_l. destruct (IH pm1) as (pm2 & -> & H2). exists pm2. split; [done|].
  intros path id. rewrite H2. unfold registered. rewrite H1.
  pose proof (elem_of_cons (map (Split dot) pats) path (Split dot rp)) as Hc.
  destruct (decide (path = Split dot rp)) as [->|]; cbn [mbind option_bind].
  - destruct (decide (id = funId)) as [->|].
    + rewrite lookup_insert_eq. case_decide; (case_decide; [done|tauto]).
    + rewrite !decide_False by tauto. rewrite lookup_insert_ne by done.
      destruct (pm_get pm _) as [boxes|]; cbn; [done|]. by rewrite lookup_empty.
  - apply decide_ext. tauto.
Qed.

Lemma offMessage_spec {M} (pm : PatternMap (FuncBoxes M)) funId pats :
  Forall valid_pattern pats ->
  exists pm', offMessage pm funId pats = Ret pm' /\
    forall path id, registered pm' path id =
      if decide (id = funId /\ path ∈ map (Split dot) pats) then None else registered pm path id.
Proof using Type.
  intros Hp. revert pm. induction Hp as [|rp pats Hrp Hp IH]; intros pm; cbn [offMessage map].
  { exists pm. split; [done|]. intros. rewrite decide_False; [done|]. intros [_ ?%not_elem_of_nil]. done. }
  destruct (UpdatePatternData_spec pm rp (fun old =>
    match old with Some old => Some (delete funId old) | None => None end) Hrp) as (pm1 & -> & H1).
  rewrite bind_ret_l. destruct (IH pm1) as (pm2 & -> & H2). exists pm2. split; [done|].
  intros path id. rewrite H2. unfold registered. rewrite H1.
  pose proof (elem_of_cons (map (Split dot) pats) path (Split dot rp)) as Hc.
  destruct (decide (path = Split dot rp)) as [->|]; cbn [mbind option_bind].
  - destruct (pm_get pm _) as [boxes|]; cbn [mbind option_bind]; [|by repeat case_decide].
    destruct (decide (id = funId)) as [->|].
    + rewrite lookup_delete_eq. case_decide; (case_decide; [done|tauto]).
    + rewrite !decide_False by tauto. by rewrite lookup_delete_ne.
  - apply decide_ext. tauto.
Qed.

Lemma merge_inner {M} (l : list (string * messagerCallbackBox M)) (bm : gmap string (M -> R)) k :
  let bm' := fold_left (fun bm '(key, box) => <[key := box_fun box]> bm) l bm in
  (forall f, bm' !! k = Some f -> bm !! k = Some f \/ exists box, (k, box) ∈ l /\ box_fun box = f) /\
  ((is_Some (bm !! k) \/ exists box, (k, box) ∈ l) -> is_Some (bm' !! k)).
Proof using Type.
  revert bm. induction l as [|[key box] l IH]; intros bm; cbn.
  { split; [by left|]. intros [?|[? ?%not_elem_of_nil]]; done. }
  destruct (IH (<[key := box_fun box]> bm)) as [H1 H2].
  setoid_rewrite elem_of_cons. split.
  - intros f Hf. destruct (H1 f Hf) as [Hi|(b & Hb & <-)]; [|naive_solver].
    destruct (decide (key = k)) as [->|].
    + rewrite lookup_insert_eq in Hi. naive_solver.
    + rewrite lookup_insert_ne in Hi by done. by left.
  - intros Hd. apply H2. destruct (decide (key = k)) as [->|].
    + left. rewrite lookup_insert_eq. eauto.
    + rewrite lookup_insert_ne by done. naive_solver.
Qed.

Lemma merge_boxes_spec {M} (collected : list (FuncBoxes M)) k :
  (forall f, merge_boxes collected !! k = Some f ->
     exists boxes box, boxes ∈ collected /\ boxes !! k = Some box /\ box_fun box = f) /\
  (forall boxes, boxes ∈ collected -> is_Some (boxes !! k) -> is_Some (merge_boxes collected !! k)).
Proof.
  assert (forall bm : gmap string (M -> R),
    let bm' := fold_left (fun bm boxes =>
      fold_left (fun bm '(key, box) => <[key := box_fun box]> bm) (range boxes) bm) collected bm in
    (forall f, bm' !! k = Some f -> bm !! k = Some f \/
       exists boxes box, boxes ∈ collected /\ boxes !! k = Some box /\ box_fun box = f) /\
    ((is_Some (bm !! k) \/ exists boxes, boxes ∈ collected /\ is_Some (boxes !! k)) -> is_Some (bm' !! k)))
    as H.
  { induction collected as [|boxes l IH]; intros bm; cbn.
    { split; [by left|]. intros [?|[? [?%not_elem_of_nil _]]]; done. }
    set (bm1 := fold_left _ (range boxes) bm). destruct (IH bm1) as [H1 H2].
    destruct (merge_inner (range boxes) bm k) as [H3 H4]. fold bm1 in H3, H4.
    setoid_rewrite range_perm in H3. setoid_rewrite range_perm in H4.
    setoid_rewrite elem_of_map_to_list in H3. setoid_rewrite elem_of_map_to_list in H4.
    setoid_rewrite elem_of_cons. split.
    - intros f Hf. destruct (H1 f Hf) as [Hi|?]; [|naive_solver].
      destruct (H3 f Hi) as [?|?]; [by left|naive_solver].
    - intros Hd. apply H2. unfold is_Some in *. naive_solver. }
  destruct (H ∅) as [H1 H2]. split; [|by eauto 10].
  intros f Hf. destruct (H1 f Hf) as [Hi|?]; [by rewrite lookup_empty in Hi|done].
Qed.

(** ** Delivery *)

(** The kinds keep their registries apart from the rest of the messager. *)
Class KindLaws (M : Type) `{Kind M} : Prop := {
  callbacks_set pm m : callbacks (set_callbacks pm m) = pm;
  nodeName_set pm m : nodeName (set_callbacks pm m) = nodeName m;
  callbacks_new b n k : callbacks (NewMessager b n k) = NewPatternMap
}.

Definition matching {M} (reg : list string -> string -> option (messagerCallbackBox M))
    (room id : string) (box : messagerCallbackBox M) : Prop :=
  exists path, reg path id = Some box /\ glob path (Split dot room).

(** [bm] has one handler for each id that has one under a matching
    pattern, and it is one of them. *)
Definition chooses {M} (reg : list string -> string -> option (messagerCallbackBox M))
    (room : string) (bm : gmap string (M -> R)) : Prop :=
  forall id, (is_Some (bm !! id) <-> exists box, matching reg room id box) /\
    forall f, bm !! id = Some f -> exists box, matching reg room id box /\ box_fun box = f.

Lemma consumeMessage_spec `{RoomMessage M} (pm : PatternMap (FuncBoxes M)) msg node r :
  GetRouter (Some msg) = Some r -> valid_room (Room r) -> NodeTo r = "" \/ NodeTo r = node ->
  exists bm, consumeMessage pm msg node = Ret ((range bm).*2) /\ chooses (registered pm) (Room r) bm.
Proof.
  intros Hr Hv Hto. unfold consumeMessage. rewrite Hr.
  rewrite decide_False by (intros E; rewrite E in Hv; inversion Hv; naive_solver).
  rewrite decide_False by naive_solver.
  destruct (Collect_spec pm (Room r) Hv) as (l & -> & Hl). rewrite bind_ret_l.
  exists (merge_boxes l). split; [done|]. intros id. destruct (merge_boxes_spec l id) as [H1 H2].
  assert (forall boxes box, boxes ∈ l -> boxes !! id = Some box ->
    matching (registered pm) (Room r) id box) as Hm.
  { intros boxes box (path & Hg & Hm)%Hl Hb. exists path. split; [|done].
    unfold registered. by rewrite Hg. }
  split; [split|].
  - intros [f Hf]. destruct (H1 f Hf) as (boxes & box & Hb & Hid & _). eauto.
  - intros (box & path & Hg & Hm'). unfold registered in Hg. apply bind_Some in Hg as (boxes & Hp & Hb).
    apply (H2 boxes); [|eauto]. apply Hl. eauto.
  - intros f Hf. destruct (H1 f Hf) as (boxes & box & Hb & Hid & <-). eauto.
Qed.

(** Histories of registrations of one kind. *)
Inductive reg_op (M : Type) :=
  | OpOn (funId : string) (fun_ : M -> R) (roomPattern : list string)
  | OpOff (funId : string) (roomPattern : list string).
Arguments OpOn {M} _ _ _.
Arguments OpOff {M} _ _.

Definition op_patterns {M} (op : reg_op M) : list string :=
  match op with OpOn _ _ ps | OpOff _ ps => ps end.

Fixpoint run_ops `{Kind M} (ops : list (reg_op M)) (m : Messager) : run Messager :=
  match ops with
  | [] => Ret m
  | op :: ops =>
      m ← match op with OpOn id f ps => On id f ps m | OpOff id ps => Off id ps m end;
      run_ops ops m
  end.

(** The registry as a function of pattern and id. *)
Definition reg_step {M} (op : reg_op M) (reg : list string -> string -> option (messagerCallbackBox M))
    : list string -> string -> option (messagerCallbackBox M) :=
  fun path id =>
    match op with
    | OpOn funId f ps =>
        if decide (id = funId /\ path ∈ map (Split dot) ps)
        then Some {| box_id := funId; box_fun := f |} else reg path id
    | OpOff funId ps =>
        if decide (id = funId /\ path ∈ map (Split dot) ps) then None else reg path id
    end.

Lemma reg_step_ext {M} (op : reg_op M) reg1 reg2 :
  (forall path id, reg1 path id = reg2 path id) ->
  forall path id, reg_step op reg1 path id = reg_step op reg2 path id.
Proof using Type. intros E path id. destruct op; cbn; case_decide; auto. Qed.

Lemma run_ops_spec `{KindLaws M} (ops : list (reg_op M)) m reg :
  Forall (fun op => Forall valid_pattern (op_patterns op)) ops ->
  (forall path id, registered (callbacks m) path id = reg path id) ->
  exists m', run_ops ops m = Ret m' /\ nodeName m' = nodeName m /\
    forall path id, registered (callbacks m') path id = fold_left (fun reg op => reg_step op reg) ops reg path id.
Proof using Type.
  intros Hv. revert m reg. induction Hv as [|op ops Hop Hv IH]; intros m reg Hreg; cbn [run_ops fold_left].
  { by exists m. }
  assert (exists m1, (match op with OpOn id f ps => On id f ps m | OpOff id ps => Off id ps m end) = Ret m1 /\
    nodeName m1 = nodeName m /\
    forall path id, registered (callbacks m1) path id = reg_step op reg path id) as (m1 & -> & Hn & Hm1).
  { destruct op as [fid f ps|fid ps]; cbn in Hop |- *; unfold On, Off.
    - destruct (onMessage_spec (callbacks m) fid f ps Hop) as (pm & -> & Hpm). eexists.
      rewrite bind_ret_l. split_and!; [done|apply nodeName_set|]. intros. rewrite callbacks_set, Hpm, Hreg. done.
    - destruct (offMessage_spec (callbacks m) fid ps Hop) as (pm & -> & Hpm). eexists.
      rewrite bind_ret_l. split_and!; [done|apply nodeName_set|]. intros. rewrite callbacks_set, Hpm, Hreg. done. }
  rewrite bind_ret_l. destruct (IH m1 (reg_step op reg) Hm1) as (m' & -> & Hn' & Hm').
  exists m'. by rewrite Hn', Hn.
Qed.

(** C33.  After any history of registrations and removals with valid
    patterns, a message for a valid room of this node starts exactly one
    goroutine for each handler id that is then registered under a pattern
    matching the room (however many match), running one of its handlers. *)
Theorem consume_delivers `{KindLaws M} (ops : list (reg_op M)) enable node kconf msg r :
  Forall (fun op => Forall valid_pattern (op_patterns op)) ops ->
  GetRouter (Some msg) = Some r -> valid_room (Room r) ->
  NodeTo r = "" \/ NodeTo r = nodeName (NewMessager enable node kconf) ->
  exists m bm, run_ops ops (NewMessager enable node kconf) = Ret m /\
    consume m msg = Ret (map (fun f => f msg) (range bm).*2) /\
    chooses (fold_left (fun reg op => reg_step op reg) ops (fun _ _ => None)) (Room r) bm.
Proof.
  intros Hv Hr Hroom Hto.
  destruct (run_ops_spec ops (NewMessager enable node kconf) (fun _ _ => None) Hv) as (m & Hm & Hn & Hreg).
  { intros path id. rewrite callbacks_new. apply registered_new. }
  destruct (consumeMessage_spec (callbacks m) msg (nodeName m) r Hr Hroom) as (bm & Hc & Hb).
  { rewrite Hn. exact Hto. }
  exists m, bm. split_and!; [done| |].
  - unfold consume. by rewrite Hc.
  - intros id. destruct (Hb id) as [H1' H2']. unfold matching in *. setoid_rewrite <- Hreg. auto.
Qed.

(** A message without a router or a room, or for another node, starts
    nothing. *)
Theorem consume_ignores `{Kind M} m (msg : M) :
  match GetRouter (Some msg) with
  | None => True
  | Some r => Room r = "" \/ (NodeTo r <> "" /\ NodeTo r <> nodeName m)
  end -> consume m msg = Ret [].
Proof using Type.
  unfold consume, consumeMessage. destruct (GetRouter (Some msg)) as [r|]; [|done].
  intros Hr. case_decide; [done|]. rewrite decide_True by naive_solver. done.
Qed.

(** A record whose message has no router is not skipped: after the
    error is logged the router is read and the worker panics. *)
Theorem onTopic_no_router `{Kind M} (codec : Codec M) m record msg :
  Unmarshal codec (Value record) = Some msg -> GetRouter (Some msg) = None ->
  onTopic codec m record = go_panic PNilDeref.
Proof using Type. unfold onTopic. by intros -> ->. Qed.

(** ** Emission *)

(** Decoding undoes encoding, as protobuf documents. *)
Definition codec_ok {M} (c : Codec M) : Prop :=
  forall m b, Marshal c m = Some b -> Unmarshal c b = Some m.

Record codecs_ok (cs : Codecs) : Prop := {
  ok_State : codec_ok (codec_State cs);
  ok_Want : codec_ok (codec_Want cs);
  ok_Select : codec_ok (codec_Select cs);
  ok_WantParticipant : codec_ok (codec_WantParticipant cs);
  ok_StateParticipant : codec_ok (codec_StateParticipant cs);
  ok_StateLeave : codec_ok (codec_StateLeave cs);
  ok_Ping : codec_ok (codec_Ping cs);
  ok_Pong : codec_ok (codec_Pong cs);
  ok_Custom : codec_ok (codec_Custom cs);
  ok_CustomAck : codec_ok (codec_CustomAck cs)
}.

Lemma append_inj p a b : p +:+ a = p +:+ b -> a = b.
Proof using Type. induction p as [|c p IH]; [done|]. rewrite !app_string_cons. intros [=]. auto. Qed.

Lemma MakeTopic_inj k a b : MakeTopic (Some k) a = MakeTopic (Some k) b -> a = b.
Proof using Type. cbn. unfold MakeKafkaTopic. case_decide; [done|]. apply append_inj. Qed.

(** The goroutines a message starts at a node. *)
Definition consume_any (m : Messager) (msg : AnyMessage) : run (list R) :=
  match emit_local m msg with Some (_, local) => local | None => Ret [] end.

Lemma any_with_router_router f msg : any_router (any_with_router f msg) = f <$> any_router msg.
Proof using Type. destruct msg; apply with_router_router. Qed.

Lemma onTopic_marshalled `{Kind M} (c : Codec M) m (msg : M) record r :
  codec_ok c -> Marshal c msg = Some (Value record) -> GetRouter (Some msg) = Some r ->
  onTopic c m record = if decide (NodeFrom r <> nodeName m) then consume m msg else Ret [].
Proof using Type. intros Hc Hm Hr. unfold onTopic. by rewrite (Hc _ _ Hm), Hr. Qed.

(** What comes out of Kafka reaches the handlers of its kind, except at
    the node it names as its origin. *)
Lemma dispatch_spec cs m k msg data r :
  codecs_ok cs -> kafka m = Some k -> any_router msg = Some r -> any_marshal cs msg = Some data ->
  forall topic local, emit_local m msg = Some (topic, local) ->
  dispatch cs m {| Key := Room r; Topic := topic; Value := data |} =
  if decide (NodeFrom r <> nodeName m) then local else Ret [].
Proof using Type.
  intros Hok Hk Hr Hd topic local Hl. unfold dispatch. cbn [Topic]. rewrite Hk in *.
  destruct msg; cbn in Hr, Hd; try discriminate Hd; injection Hl as <- <-;
    rewrite Hk;
    repeat (rewrite bool_decide_false by (intros E%MakeTopic_inj; discriminate E));
    rewrite bool_decide_true by done;
    (eapply onTopic_marshalled; [apply Hok|exact Hd|exact Hr]).
Qed.

(** The record of an emission: nothing at the node it comes from, and at any other what the message itself would do. *)
Lemma Emit_record cs produce m msg em record :
  codecs_ok cs -> Emit cs produce m msg = Ret em -> em_produced em = Some record ->
  consume_any m (em_msg em) = Ret (em_spawned em) /\ is_Some (kafka m) /\
  (exists r, any_router (em_msg em) = Some r /\ Room r = Key record /\ NodeFrom r = nodeName m) /\
  forall m', kafka m' = kafka m ->
    dispatch cs m' record = if decide (nodeName m' = nodeName m) then Ret [] else consume_any m' (em_msg em).
Proof using Type.
  intros Hok He Hp. unfold Emit in He.
  destruct (any_router msg) as [target|] eqn:Hr; [|by run_inv].
  case_decide; [by run_inv|]. case_decide as Hfrom; [by run_inv|].
  set (msg' := if decide (NodeFrom target = "") then _ else msg) in He.
  destruct (emit_local m msg') as [[topic local]|] eqn:Hl; [|by run_inv]. run_inv.
  destruct (any_marshal cs msg') as [data|] eqn:Hd; [|by run_inv]. run_inv. cbn in *.
  destruct (kafka m) as [k|] eqn:Hk; [|done]. injection Hp as <-.
  assert (exists r, any_router msg' = Some r /\ Room r = Room target /\ NodeFrom r = nodeName m)
    as (r & Hr' & <- & Hn).
  { unfold msg'. case_decide; [rewrite any_with_router_router, Hr; eexists; split; [done|]; by cbn|].
    exists target. split_and!; [done..|]. destruct (decide (NodeFrom target = nodeName m)); naive_solver. }
  split_and!; [unfold consume_any; by rewrite Hl|done|by exists r|].
  intros m' Hk'.
  assert (exists local', emit_local m' msg' = Some (topic, local')) as [local' Hl'].
  { revert Hl. clear -Hk Hk'. destruct msg'; cbn; rewrite ?Hk, ?Hk'; intros [= <- _]; eauto. }
  rewrite (dispatch_spec cs m' k msg' data r Hok Hk' Hr' Hd topic local' Hl'). unfold consume_any. rewrite Hl', Hn.
  destruct (decide (nodeName m' = nodeName m)) as [E|E]; [rewrite decide_False; [done|by rewrite E; auto]|by rewrite decide_True by auto].
Qed.

(**  What a node emits is delivered once per node: the emitter hands it
    to its own handlers and ignores the record that comes back from Kafka,
    and any other node of the cluster that receives the record does with it
    what it would do with the message. *)
Theorem Emit_once cs produce m msg em record :
  codecs_ok cs -> Emit cs produce m msg = Ret em -> em_produced em = Some record ->
  consume_any m (em_msg em) = Ret (em_spawned em) /\
  dispatch cs m record = Ret [] /\
  forall m', kafka m' = kafka m -> nodeName m' <> nodeName m ->
    dispatch cs m' record = consume_any m' (em_msg em).
Proof using Type.
  intros Hok He Hp. destruct (Emit_record cs produce m msg em record Hok He Hp) as (H1 & _ & _ & H2). split_and!; [done| |].
  - rewrite H2 by done. by rewrite decide_True.
  - intros m' Hk Hn. rewrite H2 by done. by rewrite decide_False.
Qed.

(** [Emit] rejects a message without a room or claiming another origin
    before anything is started or produced. *)
Theorem Emit_rejects cs produce m msg :
  match any_router msg with
  | None => True
  | Some r => Room r = "" \/ (NodeFrom r <> "" /\ NodeFrom r <> nodeName m)
  end ->
  Emit cs produce m msg =
    Ret {| em_msg := msg; em_spawned := []; em_produced := None; em_err := Some (EConf INVALID_MESSAGE) |}.
Proof using Type.
  unfold Emit. destruct (any_router msg) as [r|]; [|done]. intros Hr.
  case_decide; [done|]. rewrite decide_True by naive_solver. done.
Qed.

End Messager.

Arguments OpOn {R M} _ _ _.
Arguments OpOff {R M} _ _.
Arguments box_id {R M} _.
Arguments box_fun {R M} _ _.
Arguments Marshal {M} _ _.
Arguments Unmarshal {M} _ _.

#[export] Existing Instances State_kind Want_kind Select_kind WantParticipant_kind
  StateParticipant_kind StateLeave_kind Ping_kind Pong_kind Custom_kind CustomAck_kind.

Ltac kind_laws := by split.

#[export] Instance State_laws {R} : KindLaws (R := R) StateMessage.
Proof. kind_laws. Qed.
#[export] Instance Want_laws {R} : KindLaws (R := R) WantMessage.
Proof. kind_laws. Qed.
#[export] Instance Select_laws {R} : KindLaws (R := R) SelectMessage.
Proof. kind_laws. Qed.
#[export] Instance WantParticipant_laws {R} : KindLaws (R := R) WantParticipantMessage.
Proof. kind_laws. Qed.
#[export] Instance StateParticipant_laws {R} : KindLaws (R := R) StateParticipantMessage.
Proof. kind_laws. Qed.
#[export] Instance StateLeave_laws {R} : KindLaws (R := R) StateLeaveMessage.
Proof. kind_laws. Qed.
#[export] Instance Ping_laws {R} : KindLaws (R := R) PingMessage.
Proof. kind_laws. Qed.
#[export] Instance Pong_laws {R} : KindLaws (R := R) PongMessage.
Proof. kind_laws. Qed.
#[export] Instance Custom_laws {R} : KindLaws (R := R) CustomClusterMessage.
Proof. kind_laws. Qed.
#[export] Instance CustomAck_laws {R} : KindLaws (R := R) CustomAckMessage.
Proof. kind_laws. Qed.

(** ** Witnesses *)

Definition a_ping (room node : string) : PingMessage :=
  {| Ping_Router := Some (Build_Router room node "" "" ""); Ping_MsgId := 1 |}.

#[global] Instance PingMessage_eq_dec : EqDecision PingMessage.
Proof. solve_decision. Defined.

(** Goroutines are named by numbers. *)
Definition ping_ops : list (reg_op (R := nat) PingMessage) :=
  [OpOn "h1" (fun _ => 1) ["a.*"; "a.**"]; OpOn "h2" (fun _ => 2) ["a.b"]; OpOff "h2" ["a.b"]].

Lemma consume_delivers_witness :
  exists m bm, run_ops ping_ops (NewMessager true "n1" None) = Ret m /\
    consume (fun A => map_to_list (K := string) (A := A)) m (a_ping "a.b" "n2") =
      Ret (map (fun f => f (a_ping "a.b" "n2")) (map_to_list bm).*2) /\
    chooses (fold_left (fun reg op => reg_step op reg) ping_ops (fun _ _ => None)) "a.b" bm.
Proof.
  apply (consume_delivers (fun A => map_to_list (K := string) (A := A)) (fun A m => reflexivity _)
    ping_ops true "n1" None (a_ping "a.b" "n2") (Build_Router "a.b" "n2" "" "" "")).
  - unfold valid_pattern. cbn. repeat constructor; done.
  - reflexivity.
  - unfold valid_room. cbn. repeat constructor; done.
  - by left.
Defined.

Lemma consume_ignores_witness :
  consume (R := nat) (fun A => map_to_list (K := string) (A := A)) (NewMessager true "n1" None) (a_ping "" "n2") = Ret [].
Proof. apply consume_ignores. left. reflexivity. Defined.

(** An encoding that knows one message. *)
Definition ping_codec (msg : PingMessage) : Codec PingMessage :=
  {| Marshal m := if decide (m = msg) then Some [1%Z] else None; Unmarshal _ := Some msg |}.

Definition no_codec (M : Type) : Codec M := {| Marshal _ := None; Unmarshal _ := None |}.

Definition ping_codecs (msg : PingMessage) : Codecs :=
  {| codec_State := no_codec _; codec_Want := no_codec _; codec_Select := no_codec _;
     codec_WantParticipant := no_codec _; codec_StateParticipant := no_codec _;
     codec_StateLeave := no_codec _; codec_Ping := ping_codec msg; codec_Pong := no_codec _;
     codec_Custom := no_codec _; codec_CustomAck := no_codec _ |}.

Lemma onTopic_no_router_witness :
  onTopic (R := nat) (fun A => map_to_list (K := string) (A := A)) (ping_codec {| Ping_Router := None; Ping_MsgId := 1 |})
    (NewMessager true "n1" None) {| Key := ""; Topic := ""; Value := [1%Z] |} = go_panic PNilDeref.
Proof. eapply onTopic_no_router; reflexivity. Defined.

Lemma Emit_once_witness :
  let range := fun A => map_to_list (K := string) (A := A) in
  let m := NewMessager (R := nat) true "n1" (Some {| TopicPrefix := "" |}) in
  let cs := ping_codecs (a_ping "a.b" "n1") in
  exists em record, Emit range cs (fun _ => None) m (AnyPing (a_ping "a.b" "")) = Ret em /\
    em_produced em = Some record /\
    consume_any range m (em_msg em) = Ret (em_spawned em) /\
    dispatch range cs m record = Ret [] /\
    forall m' : Messager (R := nat), kafka m' = kafka m -> nodeName m' <> nodeName m ->
      dispatch (R := nat) range cs m' record = consume_any range m' (em_msg em).
Proof.
  eexists _, _. split; [vm_compute; reflexivity|]. split; [reflexivity|].
  apply (Emit_once (fun A => map_to_list (K := string) (A := A)) (ping_codecs (a_ping "a.b" "n1"))
    (fun _ => None) (NewMessager true "n1" (Some {| TopicPrefix := "" |})) (AnyPing (a_ping "a.b" ""))).
  - split; try by intros ?? [=]. intros m1 b. cbn. by case_decide; intros [= <-]; subst.
  - vm_compute. reflexivity.
  - reflexivity.
Defined.

Lemma Emit_rejects_witness :
  Emit (R := nat) (fun A => map_to_list (K := string) (A := A)) (ping_codecs (a_ping "r" "n1")) (fun _ => None)
    (NewMessager true "n1" None) (AnyPing (a_ping "r" "n2")) =
  Ret {| em_msg := AnyPing (a_ping "r" "n2"); em_spawned := []; em_produced := None;
         em_err := Some (EConf INVALID_MESSAGE) |}.
Proof. apply Emit_rejects. right. split; discriminate. Defined.
