(* ===== verification/MsgCbs.v ===== *)
(** * MsgCbs: the callbacks of a signal ([signal/signal.go])

    Several callbacks may wait for one event; a callback says whether it stays
    registered.  [Run] filters the slice in place while it calls, so a panic
    leaves the slice half filtered: the array is explicit in the model.  What a
    callback does with a message is the argument [inv]. *)
From S2P Require Import Prelude Collection.
Local Open Scope list_scope.

Section MsgCbs.
Context {A : Type}.

Inductive outcome := Returned (remained : bool) | Panicked (v : panic_value).

Record MsgCbs := { cbs : gmap string (list A); panic_cb : option (panic_value -> string -> bool) }.

Definition NewMsgCbs : MsgCbs := {| cbs := ∅; panic_cb := None |}.
Definition set_cbs (c : gmap string (list A)) (mc : MsgCbs) : MsgCbs := {| cbs := c; panic_cb := panic_cb mc |}.

Variable inv : A -> outcome.

(** A recovered panic returns the zero value of [remained]. *)
Definition invokeMsgCb (mc : MsgCbs) (evt : string) (cb : A) : outcome :=
  match inv cb with
  | Returned b => Returned b
  | Panicked v =>
      match panic_cb mc with
      | None => Panicked v
      | Some f => if f v evt then Returned false else Panicked v
      end
  end.

(** The loop of [SliceMapChange] around the calls: the array, the number of
    callbacks kept, those called, and the panic it ends with. *)
Fixpoint run_loop (mc : MsgCbs) (evt : string) (n i pos : nat) (arr : list A) (called : list A)
    : list A * nat * list A * option panic_value :=
  match n with
  | O => (arr, pos, called, None)
  | S n =>
      match arr !! i with
      | None => (arr, pos, called, None)
      | Some cb =>
          match invokeMsgCb mc evt cb with
          | Panicked v => (arr, pos, called ++ [cb], Some v)
          | Returned true => run_loop mc evt n (S i) (S pos) (<[pos := cb]> arr) (called ++ [cb])
          | Returned false => run_loop mc evt n (S i) pos arr (called ++ [cb])
          end
      end
  end.

(** The callbacks called, in order, and the panic that leaves [Run]. *)
Definition Run (mc : MsgCbs) (evt : string) : MsgCbs * list A * option panic_value :=
  match cbs mc !! evt with
  | None => (mc, [], None)
  | Some arr =>
      let '(arr, pos, called, p) := run_loop mc evt (length arr) 0 0 arr [] in
      match p with
      | Some v => (set_cbs (<[evt := arr]> (cbs mc)) mc, called, Some v)
      | None =>
          if (pos =? 0)%nat then (set_cbs (delete evt (cbs mc)) mc, called, None)
          else (set_cbs (<[evt := take pos arr]> (cbs mc)) mc, called, None)
      end
  end.

Definition AddCallback (mc : MsgCbs) (evt : string) (cb : A) : MsgCbs :=
  match cbs mc !! evt with
  | Some l => set_cbs (<[evt := l ++ [cb]]> (cbs mc)) mc
  | None => set_cbs (<[evt := [cb]]> (cbs mc)) mc
  end.

(** ** Properties *)

(** What is registered for an event, in order. *)
Definition registered (mc : MsgCbs) (evt : string) : list A := default [] (cbs mc !! evt).

Definition stays (mc : MsgCbs) (evt : string) (cb : A) : Prop := invokeMsgCb mc evt cb = Returned true.
#[local] Instance stays_dec mc evt cb : Decision (stays mc evt cb).
Proof. unfold stays. destruct (invokeMsgCb mc evt cb) as [[]|]; [left; done|right; done|right; done]. Defined.

(** The callbacks before the first one that panics, and that one. *)
Fixpoint before_panic (mc : MsgCbs) (evt : string) (l : list A) : list A * option (A * panic_value) :=
  match l with
  | [] => ([], None)
  | cb :: l =>
      match invokeMsgCb mc evt cb with
      | Panicked v => ([], Some (cb, v))
      | Returned _ => let '(b, p) := before_panic mc evt l in (cb :: b, p)
      end
  end.

(** The loop from position [i], with [kept] already at the front. *)
Lemma run_loop_spec mc evt : forall l n arr kept mid called,
  arr = kept ++ mid ++ l -> n = length l ->
  let '(b, p) := before_panic mc evt l in
  let kept' := kept ++ filter (stays mc evt) b in
  run_loop mc evt n (length kept + length mid) (length kept) arr called =
  (kept' ++ drop (length kept') arr, length kept', called ++ b ++ option_list (fst <$> p), snd <$> p).
Proof.
  induction l as [|cb l IH]; intros n arr kept mid called Ha ->; cbn [before_panic length run_loop]; cbv zeta.
  - subst arr. cbn. rewrite !app_nil_r, drop_app_length. done.
  - subst arr. assert ((kept ++ mid ++ cb :: l) !! (length kept + length mid)%nat = Some cb) as ->
      by (rewrite app_assoc; apply list_lookup_middle; rewrite length_app; lia).
    destruct (invokeMsgCb mc evt cb) as [[]|v] eqn:Hi.
    + assert (<[length kept := cb]> (kept ++ mid ++ cb :: l) = (kept ++ [cb]) ++ (tail (mid ++ [cb])) ++ l) as Ea.
      { rewrite insert_app_r_alt, Nat.sub_diag by lia. rewrite <- app_assoc. f_equal. destruct mid as [|m mid]; cbn; [done|].
        f_equal. by rewrite <- app_assoc. }
      rewrite Ea. assert (length (tail (mid ++ [cb])) = length mid) as Em by (destruct mid; cbn; rewrite ?length_app; cbn; lia).
      pose proof (IH (length l) _ (kept ++ [cb]) (tail (mid ++ [cb])) (called ++ [cb]) eq_refl eq_refl) as E.
      destruct (before_panic mc evt l) as [b p]. rewrite length_app, Em in E. cbn [length] in E.
      replace (length kept + 1)%nat with (S (length kept)) in E by lia.
      replace (S (length kept) + length mid)%nat with (S (length kept + length mid)) in E by lia. rewrite E.
      rewrite filter_cons, decide_True by exact Hi. rewrite <- !app_assoc. cbn [app].
      replace (kept ++ cb :: tail (mid ++ [cb]) ++ l) with ((kept ++ [cb]) ++ tail (mid ++ [cb]) ++ l) by (by rewrite <- app_assoc).
      rewrite <- Ea, drop_insert_lt; [done|]. rewrite length_app. cbn. lia.
    + assert (kept ++ mid ++ cb :: l = kept ++ (mid ++ [cb]) ++ l) as Ea by (by rewrite <- (app_assoc mid)).
      pose proof (IH (length l) _ kept (mid ++ [cb]) (called ++ [cb]) Ea eq_refl) as E.
      destruct (before_panic mc evt l) as [b p]. rewrite length_app in E. cbn [length] in E.
      replace (length kept + (length mid + 1))%nat with (S (length kept + length mid)) in E by lia. rewrite E.
      rewrite filter_cons, decide_False by (unfold stays; by rewrite Hi). by rewrite <- (app_assoc called).
    + cbn. rewrite app_nil_r, drop_app_length. done.
Qed.

(** A message is given, in the order of registration, to each callback
    registered for its event, up to the first one whose panic is not
    recovered; without a panic exactly those stay registered that asked to,
    and an event without callbacks has no entry.  A panic leaves the slice as
    it was filtered so far.  Other events are not touched. *)
Theorem Run_correct mc evt :
  let l := registered mc evt in
  let '(b, p) := before_panic mc evt l in
  let kept := filter (stays mc evt) b in
  exists mc', Run mc evt = (mc', b ++ option_list (fst <$> p), snd <$> p) /\ panic_cb mc' = panic_cb mc /\
    (forall evt', evt' <> evt -> cbs mc' !! evt' = cbs mc !! evt') /\
    match p with
    | None => registered mc' evt = kept /\ cbs mc' !! evt <> Some []
    | Some _ => registered mc' evt = kept ++ drop (length kept) l
    end.
Proof.
  unfold Run, registered. destruct (cbs mc !! evt) as [arr|] eqn:Ha; cbn [default].
  2:{ cbn. exists mc. split_and!; try done; rewrite Ha; done. }
  pose proof (run_loop_spec mc evt arr (length arr) arr [] [] [] eq_refl eq_refl) as E. cbn [id].
  destruct (before_panic mc evt arr) as [b p]. cbv zeta in E. cbn [length app Nat.add] in E. rewrite E. cbv zeta.
  set (kept := filter (stays mc evt) b). destruct p as [[cb v]|]; cbn [fmap option_fmap option_map snd fst option_list].
  - eexists. split; [done|]. split; [done|]. split; [intros e He; cbn; by rewrite lookup_insert_ne|]. cbn. by rewrite lookup_insert_eq.
  - destruct (Nat.eqb_spec (length kept) 0) as [E0|E0].
    + apply nil_length_inv in E0. eexists. split; [done|]. split; [done|].
      split; [intros e He; cbn; by rewrite lookup_delete_ne|]. cbn. by rewrite lookup_delete_eq, E0.
    + eexists. split; [done|]. split; [done|]. split; [intros e He; cbn; by rewrite lookup_insert_ne|]. cbn.
      rewrite lookup_insert_eq, take_app_length. split; [done|]. intros [= Hk]. by rewrite Hk in E0.
Qed.

End MsgCbs.

(** A callback that panics after another one left: the callback between them is
    registered twice. *)
Lemma panic_duplicates :
  let inv (n : nat) := match n with 0 => Returned false | 1 => Returned true | _ => Panicked PNilDeref end in
  registered (Run inv {| cbs := {["join"%string := [0; 1; 2]%nat]}; panic_cb := None |} "join").1.1 "join" = [1; 1; 2]%nat.
Proof. reflexivity. Qed.
