(* ===== verification/Contexts.v ===== *)
(** * Contexts: a context that ends with its children ([utils/context.go])

    [WithAutoCancel] gives a context, [spawn] for child contexts each with its
    [done], and [start].  The state is shared by the three functions; a
    cancellation keeps the first cause (nil is [None]).  [entry.Run] starts the
    servers of the program under one such context. *)
From S2P Require Import Prelude Collection.
Local Open Scope list_scope.

Inductive AutoCancelType := AutoCancelAll | AutoCancelAny.

(** [self] is the cause of the cancelled context; children are numbered, and
    [child_cause] has those cancelled by their own [done]. *)
Record autoCancelContext := {
  children : list nat; start : bool; cause : option gerror; self : option (option gerror);
  spawned : nat; child_cause : gmap nat (option gerror)
}.

Definition WithAutoCancel : autoCancelContext :=
  {| children := []; start := false; cause := None; self := None; spawned := 0; child_cause := ∅ |}.

(** The first cancellation wins. *)
Definition cancel_self (c : option gerror) (s : autoCancelContext) : autoCancelContext :=
  {| children := children s; start := start s; cause := cause s;
     self := match self s with None => Some c | Some c0 => Some c0 end;
     spawned := spawned s; child_cause := child_cause s |}.

Definition spawn (s : autoCancelContext) : autoCancelContext * nat :=
  ({| children := children s ++ [spawned s]; start := start s; cause := cause s; self := self s;
      spawned := S (spawned s); child_cause := child_cause s |}, spawned s).

Definition done (ty : AutoCancelType) (k : nat) (c : option gerror) (s : autoCancelContext) : run autoCancelContext :=
  let cc := match child_cause s !! k with Some _ => child_cause s | None => <[k := c]> (child_cause s) end in
  l ← match ty with
      | AutoCancelAll => '(_, l) ← SliceRemoveByValue (children s) false k; Ret l
      | AutoCancelAny => Ret (children s)
      end;
  let s := {| children := l; start := start s; cause := cause s; self := self s; spawned := spawned s; child_cause := cc |} in
  if match ty with AutoCancelAny => true | AutoCancelAll => false end || (length l =? 0)%nat then
    if start s then Ret (cancel_self c s)
    else Ret {| children := children s; start := start s;
                cause := match cause s with None => c | Some _ => cause s end;
                self := self s; spawned := spawned s; child_cause := child_cause s |}
  else Ret s.

Definition start_ (s : autoCancelContext) : autoCancelContext :=
  let s := {| children := children s; start := true; cause := cause s; self := self s; spawned := spawned s; child_cause := child_cause s |} in
  if (length (children s) =? 0)%nat then cancel_self (cause s) s else s.

(** A child is over when it or the parent is. *)
Definition child_done (s : autoCancelContext) (k : nat) : bool :=
  match self s, child_cause s !! k with None, None => false | _, _ => true end.

(** ** Runs *)

Inductive op := OSpawn | ODone (k : nat) (c : option gerror) | OStart | OParent (c : option gerror).

Definition apply_op (ty : AutoCancelType) (o : op) (s : autoCancelContext) : run autoCancelContext :=
  match o with
  | OSpawn => Ret (spawn s).1
  | ODone k c => done ty k c s
  | OStart => Ret (start_ s)
  | OParent c => Ret (cancel_self c s)
  end.

Fixpoint apply_ops (ty : AutoCancelType) (l : list op) (s : autoCancelContext) : run autoCancelContext :=
  match l with [] => Ret s | o :: l => s ← apply_op ty o s; apply_ops ty l s end.

(** The children whose [done] was not called yet, and whether [start] was. *)
Definition open_after (l : list op) : list nat * nat :=
  fold_left (fun '(open, n) o => match o with
                                 | OSpawn => (open ++ [n], S n)
                                 | ODone k _ => (filter (fun j => j <> k) open, n)
                                 | _ => (open, n)
                                 end) l ([], 0%nat).
Definition started_in (l : list op) : bool := existsb (fun o => match o with OStart => true | _ => false end) l.

(** The step after which a context is over: its parent ends, or [start] or a
    [done] finds the condition of its type. *)
Definition ends_at (ty : AutoCancelType) (l1 : list op) (o : op) : Prop :=
  match ty, o with
  | _, OParent _ => True
  | _, OSpawn => False
  | AutoCancelAll, OStart => (open_after (l1 ++ [o])).1 = []
  | AutoCancelAll, ODone _ _ => started_in l1 = true /\ (open_after (l1 ++ [o])).1 = []
  | AutoCancelAny, OStart => (open_after (l1 ++ [o])).2 = 0%nat
  | AutoCancelAny, ODone _ _ => started_in l1 = true
  end.

Definition ends (ty : AutoCancelType) (l : list op) : Prop :=
  exists l1 o l2, l = l1 ++ o :: l2 /\ ends_at ty l1 o.

(** ** Properties *)

Lemma ends_snoc ty l o : ends ty (l ++ [o]) <-> ends ty l \/ ends_at ty l o.
Proof.
  split.
  - intros (l1 & o1 & l2 & El & He). destruct l2 as [|o2 l2 _] using rev_ind.
    + apply app_inj_tail in El as [-> ->]. by right.
    + left. rewrite app_comm_cons, app_assoc in El. apply app_inj_tail in El as [-> _]. by exists l1, o1, l2.
  - intros [(l1 & o1 & l2 & -> & He)|He]; [exists l1, o1, (l2 ++ [o])|exists l, o, []]; (split; [|done]); [|done].
    by rewrite <- app_assoc.
Qed.

Lemma apply_ops_snoc ty l o s : apply_ops ty (l ++ [o]) s = (s ← apply_ops ty l s; apply_op ty o s).
Proof.
  revert s. induction l as [|x l IH]; intros s; cbn; [by destruct (apply_op ty o s)|].
  destruct (apply_op ty x s); cbn; [apply IH|done].
Qed.

Lemma open_after_snoc l o :
  open_after (l ++ [o]) =
  match o with
  | OSpawn => ((open_after l).1 ++ [(open_after l).2], S (open_after l).2)
  | ODone k _ => (filter (fun j => j <> k) (open_after l).1, (open_after l).2)
  | _ => open_after l
  end.
Proof. unfold open_after. rewrite fold_left_app. cbn. by destruct (fold_left _ _ _), o. Qed.

Lemma started_snoc l o : started_in (l ++ [o]) = started_in l || match o with OStart => true | _ => false end.
Proof. unfold started_in. rewrite existsb_app. cbn. by rewrite orb_false_r. Qed.

(** The state after a run. *)
Record tracks (ty : AutoCancelType) (l : list op) (s : autoCancelContext) : Prop := {
  tr_start : start s = started_in l;
  tr_spawned : spawned s = (open_after l).2;
  tr_children : children s = match ty with AutoCancelAll => (open_after l).1 | AutoCancelAny => seq 0 (open_after l).2 end;
  tr_self : is_Some (self s) <-> ends ty l
}.

Lemma cancel_is_some c s : is_Some (self (cancel_self c s)).
Proof. cbn. by destruct (self s). Qed.

Lemma step_tracks ty l s o : tracks ty l s -> exists s', apply_op ty o s = Ret s' /\ tracks ty (l ++ [o]) s'.
Proof.
  intros [H1 H2 H3 H4]. destruct o as [|k c| |c]; cbn [apply_op].
  - eexists. split; [done|]. split; rewrite ?started_snoc, ?open_after_snoc, ?orb_false_r; cbn [spawn fst snd start spawned children self];
      [done|congruence|destruct ty|rewrite ends_snoc, H4; by destruct ty; cbn; tauto]; rewrite H3, H2; [done|].
    by rewrite seq_S.
  - unfold done. assert (exists l', match ty with
        | AutoCancelAll => '(_, l) ← SliceRemoveByValue (children s) false k; Ret l | AutoCancelAny => Ret (children s) end = Ret l' /\
        l' = match ty with AutoCancelAll => (open_after (l ++ [ODone k c])).1 | AutoCancelAny => seq 0 (open_after (l ++ [ODone k c])).2 end) as (l' & -> & El').
    { destruct ty; rewrite open_after_snoc; cbn [fst snd]; [|by eexists]. unfold SliceRemoveByValue.
      rewrite (remove_guarded _ _ _ (fun v => v <> k)) by (intros v; apply bool_decide_eq_true). rewrite H3. by eexists. }
    rewrite bind_ret_l. cbn [start self children].
    assert (forall s' : autoCancelContext, start s' = start s -> spawned s' = spawned s -> children s' = l' ->
      (is_Some (self s') <-> is_Some (self s) \/ ends_at ty l (ODone k c)) -> tracks ty (l ++ [ODone k c]) s') as Hmk.
    { intros s' E1 E2 E3 E4. split; [rewrite started_snoc, orb_false_r; congruence|rewrite open_after_snoc; cbn; congruence|congruence|].
      rewrite ends_snoc, <- H4. exact E4. }
    assert ((length l' =? 0)%nat = true <-> l' = []) as Hl by (rewrite Nat.eqb_eq; apply length_zero_iff_nil).
    destruct (_ || _) eqn:Hcond; [destruct (start s) eqn:Hst|].
    + eexists. split; [done|]. apply Hmk; try done. split; [|by intros _; apply cancel_is_some]. intros _. right. unfold ends_at.
      destruct ty; [split; [congruence|]|congruence]. rewrite <- El'. by apply Hl.
    + eexists. split; [done|]. apply Hmk; try done. cbn. split; [by left|]. intros [?|He]; [done|].
      assert (started_in l = true) by (by destruct ty; cbn in He; [destruct He|]). congruence.
    + eexists. split; [done|]. apply Hmk; try done. cbn. split; [by left|]. intros [?|He]; [done|]. destruct ty; [|done]. destruct He as [_ He].
      rewrite <- El' in He. apply Hl in He. cbn in Hcond. congruence.
  - unfold start_. cbn [children start cause self]. assert ((length (children s) =? 0)%nat = true <-> ends_at ty l OStart) as Hc.
    { rewrite Nat.eqb_eq, H3. unfold ends_at. rewrite open_after_snoc. destruct ty; [apply length_zero_iff_nil|]. by rewrite length_seq. }
    assert (forall s' : autoCancelContext, start s' = true -> spawned s' = spawned s -> children s' = children s ->
      (is_Some (self s') <-> is_Some (self s) \/ ends_at ty l OStart) -> tracks ty (l ++ [OStart]) s') as Hmk.
    { intros s' E1 E2 E3 E4. split; [by rewrite started_snoc, orb_true_r|rewrite open_after_snoc; congruence|rewrite open_after_snoc; congruence|].
      rewrite ends_snoc, <- H4. exact E4. }
    destruct (length (children s) =? 0)%nat; (eexists; split; [done|]); apply Hmk; try done.
    + split; [|by intros _; apply cancel_is_some]. intros _. right. by apply Hc.
    + cbn. split; [by left|]. intros [?|He]; [done|]. by apply Hc in He.
  - eexists. split; [done|]. split; rewrite ?started_snoc, ?open_after_snoc, ?orb_false_r; [done..|].
    rewrite ends_snoc. split; [by right; destruct ty|]. intros _. apply cancel_is_some.
Qed.

(** A context of type All, whatever the order of spawning, finishing and
    starting: it never panics, and it is cancelled exactly when its parent was,
    or once it was started and no child was left (when it was started, or by
    the [done] of the last child).  A context of type Any is cancelled exactly
    when its parent was, when it was started before any child was spawned, or
    by a [done] after the start. *)
Theorem auto_cancel_correct ty l :
  exists s, apply_ops ty l WithAutoCancel = Ret s /\ (is_Some (self s) <-> ends ty l) /\
    (forall k, is_Some (self s) -> child_done s k = true).
Proof.
  assert (exists s, apply_ops ty l WithAutoCancel = Ret s /\ tracks ty l s) as (s & E & Ht).
  { induction l as [|o l IH] using rev_ind.
    - eexists. split; [done|]. split; [done|done|by destruct ty|]. split; [by intros []|]. intros (l1 & o & l2 & El & _). by destruct l1.
    - destruct IH as (s & E & Ht). destruct (step_tracks ty l s o Ht) as (s' & E' & Ht'). exists s'. split; [|done].
      by rewrite apply_ops_snoc, E. }
  exists s. split; [done|]. split; [by apply tr_self|]. intros k [c Hc]. unfold child_done. by rewrite Hc.
Qed.

(** [entry.Run] spawns a context of type Any for each server before it calls
    [start]: a server that fails at once is forgotten, and the program waits
    for ever. *)
Lemma early_failure_lost :
  exists s, apply_ops AutoCancelAny [OSpawn; OSpawn; ODone 1 (Some (EOther "listen")); OStart] WithAutoCancel = Ret s /\
    self s = None /\ cause s = Some (EOther "listen").
Proof. eexists. split; [reflexivity|]. by split. Qed.

(** The auth server reports that it is disabled with [done(nil)]: after the
    start, this ends the context of every other server. *)
Lemma disabled_auth_stops :
  exists s, apply_ops AutoCancelAny [OSpawn; OSpawn; OStart; ODone 0 None] WithAutoCancel = Ret s /\
    self s = Some None /\ child_done s 1 = true.
Proof. eexists. split; [reflexivity|]. by split. Qed.

(** ** [WithOrContext] and [MakeTimeoutChan] *)

(** The context ends with the first of its parents that ends, for the cause of that one.  [ends] lists the parents as
    they end, with their causes. *)
Definition or_cancel (self : option (option gerror)) (x : nat * option gerror) : option (option gerror) :=
  match self with None => Some x.2 | Some c => Some c end.
Definition WithOrContext (parents : nat) (ends : list (nat * option gerror)) : option (option gerror) :=
  fold_left or_cancel (filter (fun x => x.1 < parents) ends) None.

Lemma or_context_first parents ends :
  WithOrContext parents ends = snd <$> head (filter (fun x => x.1 < parents) ends).
Proof.
  unfold WithOrContext. destruct (filter _ ends) as [|x l]; [done|]. cbn. generalize (x.2). intros c. clear x.
  induction l as [|y l IH]; [done|]. exact IH.
Qed.

(** When the channel has something to read: never for a timeout that is not positive. *)
Definition MakeTimeoutChan (timeout : Z) : option Z := if (0 <? timeout)%Z then Some timeout else None.
