(* ===== verification/Registry.v ===== *)
(** * Registry: the signal contexts of a node ([signal/global.go])

    A node finds its contexts by id and by user.  A context is its address
    with the fields the registry reads; closing one is an effect
    ([SelfClose] with the flag that disables the close callback). *)
From S2P Require Import Prelude Collection.
Local Open Scope list_scope.

Record sctx := { ptr : nat; Id : string; UID : string }.

#[global] Instance sctx_eq_dec : EqDecision sctx.
Proof. solve_decision. Defined.

Record Global := { sig_map : gmap string sctx; sig_map_by_user : gmap string (list sctx) }.

Definition NewGlobal : Global := {| sig_map := ∅; sig_map_by_user := ∅ |}.

Definition RegisterSignalContext (g : Global) (ctx : sctx) : Global :=
  {| sig_map := <[Id ctx := ctx]> (sig_map g);
     sig_map_by_user := match sig_map_by_user g !! UID ctx with
                        | None => <[UID ctx := [ctx]]> (sig_map_by_user g)
                        | Some ctxs => <[UID ctx := ctxs ++ [ctx]]> (sig_map_by_user g)
                        end |}.

(** The registry, and the context that is closed. *)
Definition CloseSignalContext (g : Global) (id : string) : run (Global * option sctx) :=
  match sig_map g !! id with
  | None => Ret (g, None)
  | Some ctx =>
      by_user ← match sig_map_by_user g !! UID ctx with
                | None => Ret (sig_map_by_user g)
                | Some ctxs =>
                    '(_, ctxs) ← SliceRemoveIfIgnoreOrder ctxs (fun v => bool_decide (Id v = id));
                    Ret (match ctxs with
                         | [] => delete (UID ctx) (sig_map_by_user g)
                         | _ => <[UID ctx := ctxs]> (sig_map_by_user g)
                         end)
                end;
      Ret ({| sig_map := delete id (sig_map g); sig_map_by_user := by_user |}, Some ctx)
  end.

Definition FindSignalContextById (g : Global) (id : string) : option sctx := sig_map g !! id.
Definition FindSignalContextByUser (g : Global) (uid : string) : list sctx := default [] (sig_map_by_user g !! uid).

(** [Close] of a context goes through its id. *)
Definition SignalContext_Close (g : Global) (ctx : sctx) : run (Global * option sctx) := CloseSignalContext g (Id ctx).

(** ** The live contexts *)

(** The registry holds the contexts of [live]. *)
Record holds (g : Global) (live : list sctx) : Prop := {
  ho_ids : NoDup (Id <$> live);
  ho_id id c : sig_map g !! id = Some c <-> c ∈ live /\ Id c = id;
  ho_user uid : FindSignalContextByUser g uid ≡ₚ filter (fun c => UID c = uid) live;
  ho_entries uid : sig_map_by_user g !! uid <> Some []
}.

Inductive op := ORegister (c : sctx) | OClose (id : string).

Definition apply_op (o : op) (g : Global) : run (Global * option sctx) :=
  match o with ORegister c => Ret (RegisterSignalContext g c, None) | OClose id => CloseSignalContext g id end.

(** What the operations mean. *)
Definition spec_op (o : op) (live : list sctx) : list sctx * option sctx :=
  match o with
  | ORegister c => (live ++ [c], None)
  | OClose id => (filter (fun c => Id c <> id) live, head (filter (fun c => Id c = id) live))
  end.

Definition fresh (o : op) (live : list sctx) : Prop :=
  match o with ORegister c => Id c ∉ Id <$> live | OClose _ => True end.

Lemma lookup_insert_append {V} (m : gmap string (list V)) (k : string) (x : V) uid :
  default [] (match m !! k with None => <[k := [x]]> m | Some l => <[k := l ++ [x]]> m end !! uid) =
  default [] (m !! uid) ++ (if decide (uid = k) then [x] else []).
Proof.
  case_decide as Hk; [subst uid|]; destruct (m !! k) eqn:E; rewrite ?lookup_insert_eq, ?lookup_insert_ne by done; cbn; rewrite ?E; cbn;
    rewrite ?app_nil_r; done.
Qed.

Lemma register_holds g live c : holds g live -> Id c ∉ Id <$> live -> holds (RegisterSignalContext g c) (live ++ [c]).
Proof.
  intros [H1 H2 H3 H4] Hf. split.
  - rewrite fmap_app. apply NoDup_app. split_and!; [done| |by apply NoDup_singleton].
    intros x Hx Hin. apply list_elem_of_singleton in Hin as ->. done.
  - intros id d. cbn. rewrite elem_of_app, list_elem_of_singleton. destruct (decide (id = Id c)) as [->|Hne].
    + rewrite lookup_insert_eq. split; [intros [= <-]; auto|]. intros [[Hd| ->] Hid]; [|done]. exfalso. apply Hf. rewrite <- Hid.
      by apply list_elem_of_fmap_2.
    + rewrite lookup_insert_ne by done. rewrite H2. split; [intros []; auto|]. intros [[Hd| ->] Hid]; [done|congruence].
  - intros uid. unfold FindSignalContextByUser, RegisterSignalContext. cbn [sig_map_by_user].
    rewrite lookup_insert_append, filter_app, filter_cons, filter_nil. fold (FindSignalContextByUser g uid). rewrite H3.
    repeat case_decide; congruence || done.
  - intros uid. cbn. destruct (sig_map_by_user g !! UID c) as [l|]; (destruct (decide (uid = UID c)) as [->|Hne];
      [rewrite lookup_insert_eq; intros [= Hl]; by try destruct l|rewrite lookup_insert_ne by done; apply H4]).
Qed.

Lemma filter_user_id (live : list sctx) uid id :
  filter (fun c => bool_decide (Id c = id) = false) (filter (fun c => UID c = uid) live) =
  filter (fun c => UID c = uid) (filter (fun c => Id c <> id) live).
Proof.
  rewrite !list_filter_filter. apply list_filter_iff. intros c. rewrite bool_decide_eq_false. tauto.
Qed.

Lemma filter_ext_in (P Q : sctx -> Prop) `{!forall x, Decision (P x), !forall x, Decision (Q x)} (l : list sctx) :
  (forall x, x ∈ l -> P x <-> Q x) -> filter P l = filter Q l.
Proof.
  induction l as [|x l IH]; intros Hx; [done|]. rewrite !filter_cons, IH by (intros y Hy; apply Hx; by right).
  destruct (Hx x) as [H1 H2]; [left|]. repeat case_decide; tauto.
Qed.

Lemma same_id live c d : NoDup (Id <$> live) -> c ∈ live -> d ∈ live -> Id c = Id d -> c = d.
Proof.
  intros Hnd Hc Hd He. apply list_elem_of_lookup in Hc as [i Hi]. apply list_elem_of_lookup in Hd as [j Hj].
  assert (i = j) as -> by (eapply (NoDup_lookup _ i j (Id c) Hnd); rewrite list_lookup_fmap, ?Hi, ?Hj; cbn; congruence). congruence.
Qed.

Lemma close_holds g live id :
  holds g live -> exists g' c, CloseSignalContext g id = Ret (g', c) /\ holds g' (filter (fun c => Id c <> id) live) /\
    c = head (filter (fun c => Id c = id) live).
Proof.
  intros [H1 H2 H3 H4]. unfold CloseSignalContext.
  assert (NoDup (Id <$> filter (fun c => Id c <> id) live)) as Hnd.
  { eapply sublist_NoDup; [exact H1|]. apply fmap_sublist, sublist_filter. }
  destruct (sig_map g !! id) as [c|] eqn:Hc.
  - apply H2 in Hc as [Hin Hid].
    assert (head (filter (fun c => Id c = id) live) = Some c) as ->.
    { assert (c ∈ filter (fun c => Id c = id) live) as Hf by (by apply list_elem_of_filter).
      destruct (filter (fun c => Id c = id) live) as [|d l] eqn:Ef; [by inversion Hf|]. cbn. f_equal.
      assert (d ∈ filter (fun c => Id c = id) live) as Hd by (rewrite Ef; left). apply list_elem_of_filter in Hd as [Hdi Hd].
      apply (same_id live); [done..|congruence]. }
    assert (exists l, sig_map_by_user g !! UID c = Some l) as [l Hl].
    { destruct (sig_map_by_user g !! UID c) eqn:E; [by eexists|]. exfalso. specialize (H3 (UID c)). unfold FindSignalContextByUser in H3.
      rewrite E in H3. cbn in H3. apply Permutation_nil_l in H3. assert (c ∈ filter (fun d => UID d = UID c) live) as Hf by (by apply list_elem_of_filter).
      rewrite <- H3 in Hf. by inversion Hf. }
    rewrite Hl. destruct (SliceRemoveIfIgnoreOrder_correct l (fun v => bool_decide (Id v = id))) as (arr & res & -> & Hp).
    rewrite !bind_ret_l. eexists _, _. split; [done|]. split; [|done].
    assert (res ≡ₚ filter (fun d => UID d = UID c) (filter (fun d => Id d <> id) live)) as Hres.
    { rewrite Hp, <- filter_user_id. apply filter_Permutation. specialize (H3 (UID c)). unfold FindSignalContextByUser in H3. by rewrite Hl in H3. }
    split; [done| | |].
    + intros id' d. cbn. rewrite lookup_delete_Some, H2, list_elem_of_filter. naive_solver.
    + intros uid. unfold FindSignalContextByUser. cbn [sig_map_by_user]. destruct (decide (uid = UID c)) as [->|Hne].
      * rewrite <- Hres. destruct res; [by rewrite lookup_delete_eq|by rewrite lookup_insert_eq].
      * replace (default [] ((match res with [] => delete (UID c) (sig_map_by_user g) | _ => <[UID c := res]> (sig_map_by_user g) end) !! uid))
          with (FindSignalContextByUser g uid) by (destruct res; [by rewrite lookup_delete_ne|by rewrite lookup_insert_ne]).
        rewrite H3, list_filter_filter. rewrite (filter_ext_in _ (fun d => UID d = uid /\ Id d <> id)); [done|].
        intros d Hd. split; [|tauto]. intros Hu. split; [done|]. intros Hdi. apply Hne. rewrite <- Hu. f_equal.
        apply (same_id live); [done..|congruence].
    + intros uid. cbn. destruct (decide (uid = UID c)) as [->|Hne];
        [destruct res; [by rewrite lookup_delete_eq|by rewrite lookup_insert_eq]
        |destruct res; [rewrite lookup_delete_ne by done|rewrite lookup_insert_ne by done]; apply H4].
  - eexists _, _. split; [done|].
    assert (forall c, c ∈ live -> Id c <> id) as Hno by (intros c Hin Hid; by rewrite (proj2 (H2 id c) (conj Hin Hid)) in Hc).
    assert (filter (fun c => Id c = id) live = []) as ->.
    { destruct (filter (fun c => Id c = id) live) as [|d l] eqn:Ef; [done|]. exfalso.
      assert (d ∈ filter (fun c => Id c = id) live) as Hd by (rewrite Ef; left). apply list_elem_of_filter in Hd as [Hdi Hd]. by apply (Hno d). }
    split; [|done]. by rewrite (filter_all _ live) by (by apply Forall_forall).
Qed.

(** ** Runs of the registry *)

(** The registry after a run, and what each of its operations closed. *)
Fixpoint apply_ops (l : list op) (g : Global) : run (Global * list (option sctx)) :=
  match l with
  | [] => Ret (g, [])
  | o :: l => '(g, c) ← apply_op o g; '(g, cs) ← apply_ops l g; Ret (g, c :: cs)
  end.

(** The finite map from ids to contexts. *)
Definition map_op (o : op) (m : gmap string sctx) : gmap string sctx * option sctx :=
  match o with ORegister c => (<[Id c := c]> m, None) | OClose id => (delete id m, m !! id) end.
Fixpoint map_ops (l : list op) (m : gmap string sctx) : gmap string sctx * list (option sctx) :=
  match l with
  | [] => (m, [])
  | o :: l => let '(m, c) := map_op o m in let '(m, cs) := map_ops l m in (m, c :: cs)
  end.

(** The contexts that are registered, and that every context comes with an id no registered one has. *)
Fixpoint live_after (l : list op) (live : list sctx) : list sctx :=
  match l with [] => live | o :: l => live_after l (spec_op o live).1 end.
Fixpoint fresh_ids (l : list op) (live : list sctx) : Prop :=
  match l with [] => True | o :: l => fresh o live /\ fresh_ids l (spec_op o live).1 end.

Lemma close_returns g id : exists by_user, CloseSignalContext g id =
  Ret ({| sig_map := delete id (sig_map g); sig_map_by_user := by_user |}, sig_map g !! id).
Proof.
  unfold CloseSignalContext. destruct (sig_map g !! id) as [c|] eqn:Hc.
  - destruct (sig_map_by_user g !! UID c) as [l|]; [|by eexists].
    destruct (SliceRemoveIfIgnoreOrder_correct l (fun v => bool_decide (Id v = id))) as (arr & res & -> & _). rewrite !bind_ret_l. by eexists.
  - exists (sig_map_by_user g). rewrite delete_id by done. by destruct g.
Qed.

Lemma op_maps o g : exists g', apply_op o g = Ret (g', (map_op o (sig_map g)).2) /\ sig_map g' = (map_op o (sig_map g)).1.
Proof.
  destruct o as [c|id]; cbn; [by eexists|]. destruct (close_returns g id) as [by_user ->]. by eexists.
Qed.

Lemma op_refines o g live g' c : holds g live -> fresh o live -> apply_op o g = Ret (g', c) -> holds g' (spec_op o live).1.
Proof.
  intros Hg Hf Ho. destruct o as [d|id]; cbn in Ho |- *; [injection Ho as <- _; by apply register_holds|].
  destruct (close_holds g live id Hg) as (g2 & c2 & E & Hh & _). rewrite E in Ho. by injection Ho as <- _.
Qed.

Lemma ops_refine l : forall g live,
  exists g', apply_ops l g = Ret (g', (map_ops l (sig_map g)).2) /\ sig_map g' = (map_ops l (sig_map g)).1 /\
    (holds g live -> fresh_ids l live -> holds g' (live_after l live)).
Proof.
  induction l as [|o l IH]; intros g live; [by exists g|]. cbn [apply_ops map_ops live_after fresh_ids].
  destruct (op_maps o g) as (g1 & E1 & M1). destruct (IH g1 (spec_op o live).1) as (g2 & E2 & M2 & H2). rewrite M1 in E2, M2.
  exists g2. rewrite E1, bind_ret_l. destruct (map_op o (sig_map g)) as [m c]. cbn in *. rewrite E2, bind_ret_l.
  destruct (map_ops l m) as [m' cs]. cbn in *. split; [done|]. split; [done|]. intros Hg [Hf Hfs]. apply H2; [|done]. by eapply op_refines.
Qed.

Lemma new_holds : holds NewGlobal [].
Proof. split; try done; [constructor|]. intros id c. split; [done|]. intros [Hc _]. by inversion Hc. Qed.

(** C17. The registry against a finite map.  Whatever is registered and closed, in whatever order: every operation returns; the contexts found by id are
    those of the finite map from ids to contexts, in which a registration replaces what was there; and closing an id closes the context of this map, if any.
    When no context is registered with an id that a registered one has, then in addition the contexts found for a user are the registered ones of that user,
    each once, and no user without contexts keeps an entry.  An id is chosen by the client, so that this is not given: see [id_taken_over]. *)
Theorem registry_refines ops :
  exists g, apply_ops ops NewGlobal = Ret (g, (map_ops ops ∅).2) /\
    (forall id, FindSignalContextById g id = (map_ops ops ∅).1 !! id) /\
    (fresh_ids ops [] ->
       (forall c, c ∈ live_after ops [] <-> FindSignalContextById g (Id c) = Some c) /\
       (forall uid, FindSignalContextByUser g uid ≡ₚ filter (fun c => UID c = uid) (live_after ops [])) /\
       NoDup (live_after ops []) /\ forall uid, sig_map_by_user g !! uid <> Some []).
Proof.
  destruct (ops_refine ops NewGlobal []) as (g & E & M & Hh). exists g. split; [exact E|].
  split; [intros id; unfold FindSignalContextById; by rewrite M|]. intros Hf. destruct (Hh new_holds Hf) as [H1 H2 H3 H4].
  split; [intros c; unfold FindSignalContextById; rewrite H2; tauto|]. split; [done|]. split; [by apply NoDup_fmap_1 in H1|done].
Qed.

Definition alice : sctx := {| ptr := 1; Id := "a"; UID := "alice" |}.
Definition bob : sctx := {| ptr := 2; Id := "b"; UID := "bob" |}.

Lemma registry_refines_witness :
  exists g, apply_ops [ORegister alice; ORegister bob; OClose "a"] NewGlobal = Ret (g, [None; None; Some alice]) /\
    FindSignalContextByUser g "bob" ≡ₚ [bob] /\ FindSignalContextById g "a" = None.
Proof.
  destruct (registry_refines [ORegister alice; ORegister bob; OClose "a"]) as (g & E & Hi & Hf). exists g. split; [exact E|].
  split; [|exact (Hi "a"%string)]. destruct Hf as (_ & Hu & _); [cbn; set_solver|]. exact (Hu "bob"%string).
Defined.

(** A client names its own id (the header Signal-Id).  With the id of another
    client it takes that client's place: when the first one disconnects, the
    second one is closed, and the first stays registered for its user. *)
Lemma id_taken_over :
  let mallory := {| ptr := 3; Id := "a"; UID := "mallory" |} in
  let g := RegisterSignalContext (RegisterSignalContext NewGlobal alice) mallory in
  exists g', SignalContext_Close g alice = Ret (g', Some mallory) /\ FindSignalContextByUser g' "alice" = [alice] /\
    FindSignalContextById g' "a" = None.
Proof. eexists. split; [reflexivity|]. by split. Qed.
