(* ===== verification/Encoding.v ===== *)
(** * Encoding: base64, query strings and UTF-8

    The functions of packages encoding/base64 ([StdEncoding]), net/url
    ([QueryEscape], [QueryUnescape], [ParseQuery]) and unicode/utf8
    ([ValidString]) that tokens pass through.  Bytes are integers, texts
    strings of characters of one byte. *)
From S2P Require Import Prelude GoStrings.
From Stdlib Require Import Ascii.
Local Open Scope string_scope.
Local Open Scope Z_scope.
Local Open Scope list_scope.

#[local] Ltac Zify.zify_post_hook ::= Z.to_euclidean_division_equations.

Definition byte (z : Z) : Prop := 0 <= z < 256.
Definition code (c : ascii) : Z := Z.of_nat (nat_of_ascii c).
Definition chr (z : Z) : ascii := ascii_of_nat (Z.to_nat z).

Lemma code_byte c : byte (code c).
Proof. unfold byte, code. pose proof (nat_ascii_bounded c). lia. Qed.

Lemma chr_code c : chr (code c) = c.
Proof. unfold chr, code. rewrite Nat2Z.id. apply ascii_nat_embedding. Qed.

Lemma code_chr z : byte z -> code (chr z) = z.
Proof. intros Hz. unfold byte, code, chr in *. rewrite nat_ascii_embedding; lia. Qed.

(** A fact about the first [n] numbers, by computing it for each. *)
Lemma all_below (n : nat) (f : Z -> bool) : forallb f (seqZ 0 (Z.of_nat n)) = true -> forall z, 0 <= z < Z.of_nat n -> f z = true.
Proof. intros Hf z Hz. rewrite forallb_forall in Hf. apply Hf, list_elem_of_In, elem_of_seqZ. lia. Qed.

(** ** base64 *)

Definition alphabet : list ascii := String.list_ascii_of_string "ABCDEFGHIJKLMNOPQRSTUVWXYZabcdefghijklmnopqrstuvwxyz0123456789+/".
Definition pad : ascii := "="%char.

Definition enc_char (n : Z) : ascii := default pad (alphabet !! Z.to_nat n).

Definition dec_char (c : ascii) : option Z :=
  let n := code c in
  if (65 <=? n) && (n <=? 90) then Some (n - 65)
  else if (97 <=? n) && (n <=? 122) then Some (n - 71)
  else if (48 <=? n) && (n <=? 57) then Some (n + 4)
  else if n =? 43 then Some 62 else if n =? 47 then Some 63 else None.

(** The four characters of 24 bits. *)
Definition sextet (v i : Z) : ascii := enc_char (v / 2 ^ (6 * i) mod 64).

Fixpoint base64_enc (l : list Z) : list ascii :=
  match l with
  | [] => []
  | [a] => let v := a * 65536 in [sextet v 3; sextet v 2; pad; pad]
  | [a; b] => let v := a * 65536 + b * 256 in [sextet v 3; sextet v 2; sextet v 1; pad]
  | a :: b :: c :: l => let v := a * 65536 + b * 256 + c in [sextet v 3; sextet v 2; sextet v 1; sextet v 0] ++ base64_enc l
  end.

Definition base64_Encode (l : list Z) : string := String.string_of_list_ascii (base64_enc l).

(** The characters come in fours; the last ones may be padding.  Unused bits are not looked at. *)
Fixpoint base64_dec (s : list ascii) : option (list Z) :=
  match s with
  | [] => Some []
  | c1 :: c2 :: c3 :: c4 :: rest =>
      x1 ← dec_char c1; x2 ← dec_char c2;
      if decide (c3 = pad) then
        if decide (c4 = pad /\ rest = []) then Some [x1 * 4 + x2 / 16] else None
      else
        x3 ← dec_char c3;
        if decide (c4 = pad) then
          if decide (rest = []) then Some [x1 * 4 + x2 / 16; x2 mod 16 * 16 + x3 / 4] else None
        else
          x4 ← dec_char c4; l ← base64_dec rest;
          Some (x1 * 4 + x2 / 16 :: x2 mod 16 * 16 + x3 / 4 :: x3 mod 4 * 64 + x4 :: l)
  | _ => None
  end.

(** Line ends are skipped wherever they are. *)
Definition newline (c : ascii) : bool := (code c =? 10) || (code c =? 13).
Definition base64_Decode (s : string) : list Z + gerror :=
  match base64_dec (filter (fun c => newline c = false) (String.list_ascii_of_string s)) with
  | Some l => inl l
  | None => inr (EOther "base64.CorruptInputError")
  end.

Lemma dec_enc_char n : 0 <= n < 64 -> dec_char (enc_char n) = Some n /\ enc_char n <> pad /\ newline (enc_char n) = false /\ enc_char n <> " "%char.
Proof.
  intros Hn. pose (f n := bool_decide (dec_char (enc_char n) = Some n /\ enc_char n <> pad /\ newline (enc_char n) = false /\ enc_char n <> " "%char)).
  enough (f n = true) as Hf by (by apply bool_decide_eq_true in Hf). apply (all_below 64); [vm_compute; reflexivity|lia].
Qed.

Lemma sextet_range v i : 0 <= v / 2 ^ (6 * i) mod 64 < 64.
Proof. apply Z.mod_pos_bound. lia. Qed.

Lemma dec_sextet v i : dec_char (sextet v i) = Some (v / 2 ^ (6 * i) mod 64).
Proof. apply dec_enc_char, sextet_range. Qed.
Lemma sextet_pad v i : sextet v i <> pad.
Proof. apply dec_enc_char, sextet_range. Qed.

(** Induction in steps of three. *)
Lemma list_ind3 {A} (P : list A -> Prop) :
  P [] -> (forall a, P [a]) -> (forall a b, P [a; b]) -> (forall a b c l, P l -> P (a :: b :: c :: l)) -> forall l, P l.
Proof.
  intros P0 P1 P2 P3. assert (forall n l, (length l < n)%nat -> P l) as Hl; [|intros l; by apply (Hl (S (length l))); lia].
  induction n as [|n IH]; [lia|]. intros [|a [|b [|c l]]] Hn; [done..|]. apply P3, IH. cbn in Hn. lia.
Qed.

Lemma base64_chars l : Forall (fun c => newline c = false /\ c <> " "%char) (base64_enc l).
Proof.
  assert (forall v i, newline (sextet v i) = false /\ sextet v i <> " "%char) as Hs by (intros v i; apply (dec_enc_char _ (sextet_range v i))).
  induction l as [|a|a b|a b c l IH] using list_ind3; cbn; repeat (apply Forall_cons; split); auto; by split.
Qed.

Lemma base64_dec_enc l : Forall byte l -> base64_dec (base64_enc l) = Some l.
Proof.
  induction l as [|a|a b|a b c l IH] using list_ind3; intros Hl; [done|..]; unfold byte in *; decompose_Forall_hyps;
    cbn [base64_enc base64_dec app]; rewrite !dec_sextet; cbn [mbind option_bind];
    rewrite ?(decide_False (P := sextet _ _ = pad)) by apply sextet_pad.
  - do 2 f_equal. lia.
  - repeat f_equal; lia.
  - rewrite IH by done. cbn. repeat f_equal; lia.
Qed.

(** Decoding undoes encoding. *)
Lemma base64_roundtrip l : Forall byte l -> base64_Decode (base64_Encode l) = inl l.
Proof.
  intros Hl. unfold base64_Decode, base64_Encode. rewrite String.list_ascii_of_string_of_list_ascii, filter_all.
  - by rewrite base64_dec_enc.
  - eapply Forall_impl; [apply base64_chars|]. by intros c [? _].
Qed.

Lemma has_char_list c s : has_char c s = bool_decide (c ∈ String.list_ascii_of_string s).
Proof.
  induction s as [|d s IH]; cbn; [by rewrite bool_decide_eq_false_2 by apply not_elem_of_nil|]. destruct (decide (d = c)) as [->|Hd].
  - by rewrite bool_decide_eq_true_2 by left.
  - rewrite IH. apply bool_decide_ext. rewrite elem_of_cons. naive_solver.
Qed.

Lemma base64_no_space l : has_char " " (base64_Encode l) = false.
Proof.
  rewrite has_char_list. unfold base64_Encode. rewrite String.list_ascii_of_string_of_list_ascii. apply bool_decide_eq_false_2. intros Hc.
  pose proof (base64_chars l) as Hl. rewrite Forall_forall in Hl. by destruct (Hl _ Hc).
Qed.

(** ** Query strings *)

Definition unreserved (c : ascii) : bool :=
  let n := code c in
  (65 <=? n) && (n <=? 90) || (97 <=? n) && (n <=? 122) || (48 <=? n) && (n <=? 57) || bool_decide (c ∈ ["-"; "_"; "."; "~"]%char).

Definition upperhex (n : Z) : ascii := chr (if n <? 10 then 48 + n else 55 + n).

Definition unhex (c : ascii) : option Z :=
  let n := code c in
  if (48 <=? n) && (n <=? 57) then Some (n - 48)
  else if (97 <=? n) && (n <=? 102) then Some (n - 87)
  else if (65 <=? n) && (n <=? 70) then Some (n - 55) else None.

Fixpoint QueryEscape (s : string) : string :=
  match s with
  | "" => ""
  | String c s =>
      if unreserved c then String c (QueryEscape s)
      else if decide (c = " "%char) then String "+" (QueryEscape s)
      else String "%" (String (upperhex (code c / 16)) (String (upperhex (code c mod 16)) (QueryEscape s)))
  end%string.

Fixpoint QueryUnescape (s : string) : option string :=
  match s with
  | "" => Some ""
  | String c s =>
      if decide (c = "%"%char) then
        match s with
        | String h (String l s) => h ← unhex h; l ← unhex l; r ← QueryUnescape s; Some (String (chr (h * 16 + l)) r)
        | _ => None
        end
      else r ← QueryUnescape s; Some (String (if decide (c = "+"%char) then " "%char else c) r)
  end%string.

(** The unescaping of a path: a plus sign is not a space. *)
Fixpoint PathUnescape (s : string) : option string :=
  match s with
  | "" => Some ""
  | String c s =>
      if decide (c = "%"%char) then
        match s with
        | String h (String l s) => h ← unhex h; l ← unhex l; r ← PathUnescape s; Some (String (chr (h * 16 + l)) r)
        | _ => None
        end
      else r ← PathUnescape s; Some (String c r)
  end%string.

(** The key and the value of one pair; [None] for an error. *)
Definition parse_pair (p : string) : option (string * string) :=
  if has_char ";" p then None
  else let '(k, v) := match cut_at "=" p with Some kv => kv | None => (p, ""%string) end in
       k ← QueryUnescape k; v ← QueryUnescape v; Some (k, v).

(** [ParseQuery]: the values of each key in order, and whether a pair was in error; such pairs are left out. *)
Definition add_pair (acc : gmap string (list string) * bool) (p : string) : gmap string (list string) * bool :=
  if decide (p = ""%string) then acc
  else match parse_pair p with
       | None => (acc.1, true)
       | Some (k, v) => (<[k := default [] (acc.1 !! k) ++ [v]]> acc.1, acc.2)
       end.
Definition ParseQuery (q : string) : gmap string (list string) * bool := foldl add_pair (∅, false) (Split "&" q).

Lemma unhex_upperhex n : 0 <= n < 16 -> unhex (upperhex n) = Some n /\ upperhex n <> "%"%char /\ unreserved (upperhex n) = true.
Proof.
  intros Hn. pose (f n := bool_decide (unhex (upperhex n) = Some n /\ upperhex n <> "%"%char /\ unreserved (upperhex n) = true)).
  enough (f n = true) as Hf by (by apply bool_decide_eq_true in Hf). apply (all_below 16); [vm_compute; reflexivity|lia].
Qed.

Lemma unreserved_plain c : unreserved c = true -> c <> "%"%char /\ c <> "+"%char.
Proof. intros Hc. split; intros ->; vm_compute in Hc; discriminate. Qed.

Lemma code_nibbles c : 0 <= code c / 16 < 16 /\ 0 <= code c mod 16 < 16 /\ code c / 16 * 16 + code c mod 16 = code c.
Proof. pose proof (code_byte c) as Hb. unfold byte in Hb. lia. Qed.

(** Unescaping undoes escaping. *)
Lemma query_roundtrip s : QueryUnescape (QueryEscape s) = Some s.
Proof.
  induction s as [|c s IH]; [done|]. cbn [QueryEscape]. destruct (unreserved c) eqn:Hu.
  - apply unreserved_plain in Hu as [H1 H2]. cbn [QueryUnescape]. rewrite decide_False, IH by done. cbn [mbind option_bind]. by rewrite decide_False by done.
  - destruct (decide (c = " "%char)) as [->|Hs]; [by cbn [QueryUnescape decide]; rewrite IH|].
    destruct (code_nibbles c) as (Hh & Hl & Hc). cbn [QueryUnescape]. rewrite decide_True by done.
    rewrite (proj1 (unhex_upperhex _ Hh)), (proj1 (unhex_upperhex _ Hl)), IH. cbn [mbind option_bind]. by rewrite Hc, chr_code.
Qed.

Definition plus_spaces (c : ascii) : ascii := if decide (c = " "%char) then "+"%char else c.

(** A text escaped for a query and unescaped as a path: its spaces have become plus signs. *)
Lemma path_of_query s : PathUnescape (QueryEscape s) = Some (String.string_of_list_ascii (plus_spaces <$> String.list_ascii_of_string s)).
Proof.
  induction s as [|c s IH]; [done|]. cbn [QueryEscape String.list_ascii_of_string fmap list_fmap String.string_of_list_ascii]. unfold plus_spaces at 1.
  destruct (unreserved c) eqn:Hu.
  - destruct (unreserved_plain c Hu) as [H1 _]. cbn [PathUnescape]. rewrite decide_False, IH by done. cbn [mbind option_bind].
    rewrite decide_False; [done|]. intros ->. vm_compute in Hu. discriminate.
  - destruct (decide (c = " "%char)) as [->|Hs].
    + cbn [PathUnescape]. rewrite decide_False by discriminate. by rewrite IH.
    + destruct (code_nibbles c) as (Hh & Hl & Hc). cbn [PathUnescape]. rewrite decide_True by done.
      rewrite (proj1 (unhex_upperhex _ Hh)), (proj1 (unhex_upperhex _ Hl)), IH. cbn [mbind option_bind]. by rewrite Hc, chr_code.
Qed.

(** The characters an escaped text consists of. *)
Definition query_char (c : ascii) : Prop := unreserved c = true \/ c = "%"%char \/ c = "+"%char.

Lemma QueryEscape_chars s : Forall query_char (String.list_ascii_of_string (QueryEscape s)).
Proof.
  unfold query_char. induction s as [|c s IH]; [done|]. cbn [QueryEscape]. destruct (code_nibbles c) as (Hh & Hl & _).
  destruct (unreserved c) eqn:Hu; [|destruct (decide _)]; cbn; repeat (apply Forall_cons; split); auto;
    left; by apply unhex_upperhex.
Qed.

Lemma escaped_no_char c s : ~ query_char c -> has_char c (QueryEscape s) = false.
Proof.
  intros Hc. rewrite has_char_list. apply bool_decide_eq_false_2. intros He. pose proof (QueryEscape_chars s) as Hq.
  rewrite Forall_forall in Hq. by apply Hc, Hq.
Qed.

(** ** UTF-8 *)

Definition between (a b z : Z) : bool := (a <=? z) && (z <=? b).
Definition cont : Z -> bool := between 128 191.

(** The length of the first character, 0 when there is none. *)
Definition utf8_head (l : list Z) : nat :=
  match l with
  | a :: l =>
      if a <? 128 then 1%nat
      else match l with
           | b :: l =>
               if between 194 223 a && cont b then 2%nat
               else match l with
                    | c :: l =>
                        if ((a =? 224) && between 160 191 b || (a =? 237) && between 128 159 b ||
                            (between 225 236 a || between 238 239 a) && cont b) && cont c then 3%nat
                        else match l with
                             | d :: l =>
                                 if ((a =? 240) && between 144 191 b || between 241 243 a && cont b ||
                                     (a =? 244) && between 128 143 b) && cont c && cont d then 4%nat else 0%nat
                             | [] => 0%nat
                             end
                    | [] => 0%nat
                    end
           | [] => 0%nat
           end
  | [] => 0%nat
  end.

Fixpoint utf8_valid (fuel : nat) (l : list Z) : bool :=
  match l, fuel with
  | [], _ => true
  | _, O => false
  | _, S fuel => match utf8_head l with O => false | n => utf8_valid fuel (drop n l) end
  end.

Definition ValidString (s : string) : bool :=
  let l := code <$> String.list_ascii_of_string s in utf8_valid (length l) l.

Example valid_ascii : ValidString "room-1" = true.
Proof. reflexivity. Qed.
Example invalid_byte : ValidString (String (chr 255) "") = false.
Proof. reflexivity. Qed.

(** A text of ASCII characters is valid. *)
Lemma utf8_valid_ascii l n : (length l <= n)%nat -> Forall (fun z => z < 128) l -> utf8_valid n l = true.
Proof.
  revert n. induction l as [|a l IH]; intros n Hn Hl; [by destruct n|]. destruct n as [|n]; cbn in Hn; [lia|]. decompose_Forall_hyps.
  cbn. rewrite (proj2 (Z.ltb_lt _ _)) by done. apply IH; [lia|done].
Qed.
