(* ===== verification/Auth.v ===== *)
(** * Auth: tokens ([auth/main.go]) and who may connect ([signal/socketio.go], [signal/websocket.go])

    The auth server turns a form into an [AuthInfo] and seals it into a token
    ([GET /token]); the two signal servers open the token of a connection.
    SHA-1, AES-GCM and JSON are parameters with their documented
    inverses; the random nonce is an argument of [Encode] and the clock one of
    the checks.  Bytes are integers. *)
From S2P Require Import Prelude GoStrings Strconv Encoding.
Local Open Scope Z_scope.
Local Open Scope list_scope.

Definition AUTH_USAGE : string := "conference".

Record AuthInfo := {
  Usage : string;
  Auth_Key : string;
  UID : string;
  UName : string;
  Role : string;
  Auth_Rooms : list string;
  AutoJoin : bool;
  auth_Timestamp : Z;
  Deadline : Z;
  Nonce : Z
}.

(** [url.Values]: [Get] is the first value or the empty string. *)
Definition Values : Type := gmap string (list string).
Definition Get (form : Values) (k : string) : string := match form !! k with Some (v :: _) => v | _ => ""%string end.

Definition InvalidParam : gerror := EConf 400.

(** [now] is [time.Now().Unix()]. *)
Definition NewAuthInfoFromForm (form : Values) (now : Z) : AuthInfo + gerror :=
  let key := Get form "key" in
  if decide (key = ""%string) then inr InvalidParam else
  let uid := Get form "uid" in
  if decide (uid = ""%string) then inr InvalidParam else
  let uname := Get form "uname" in
  if decide (uname = ""%string) then inr InvalidParam else
  let role := Get form "role" in
  if decide (role = ""%string) then inr InvalidParam else
  match form !! "room"%string with
  | None => inr InvalidParam
  | Some rooms =>
      let autoJoinStr := ToLower (Get form "autojoin") in
      let autoJoin := bool_decide (autoJoinStr ∈ ["1"; "on"; "true"; "yes"]%string) in
      let deadlineStr := Get form "deadline" in
      match (if decide (deadlineStr = ""%string) then Some (5 * 60 * 1000) else ParseUint deadlineStr 64) with
      | None => inr InvalidParam
      | Some deadline =>
          let strNonce := Get form "nonce" in
          if decide (strNonce = ""%string) then inr InvalidParam else
          match Atoi strNonce with
          | None => inr (EOther "strconv.Atoi")
          | Some nonce =>
              inl {| Usage := AUTH_USAGE; Auth_Key := key; UID := uid; UName := uname; Role := role; Auth_Rooms := rooms;
                     AutoJoin := autoJoin; auth_Timestamp := now; Deadline := deadline; Nonce := i32 nonce |}
          end
      end
  end.

(** ** Tokens *)

Class Crypto := {
  sha1 : list Z -> list Z;
  NonceSize : nat;
  gcm_Seal : list Z -> list Z -> list Z -> list Z;
  gcm_Open : list Z -> list Z -> list Z -> list Z + gerror;
  json_Marshal : AuthInfo -> list Z + gerror;
  json_Unmarshal : list Z -> AuthInfo + gerror
}.

(** The texts of an identity are UTF-8; others JSON does not keep. *)
Definition utf8_info (a : AuthInfo) : Prop :=
  Forall (fun s => ValidString s = true) ([Usage a; Auth_Key a; UID a; UName a; Role a] ++ Auth_Rooms a).

(** A sealed text opens with its key and nonce, and only such a text does. *)
Class CryptoLaws `{Crypto} := {
  sha1_length l : length (sha1 l) = 20%nat;
  open_seal k n p : gcm_Open k n (gcm_Seal k n p) = inl p;
  open_only k n c p : gcm_Open k n c = inl p -> c = gcm_Seal k n p;
  seal_bytes k n p : Forall byte p -> Forall byte (gcm_Seal k n p);
  marshal_bytes a : exists b, json_Marshal a = inl b /\ Forall byte b;
  unmarshal_marshal a b : utf8_info a -> json_Marshal a = inl b -> json_Unmarshal b = inl a
}.

Section Tokens.
Context `{HC : Crypto}.

Definition bytes_of (s : string) : list Z := Z.of_nat ∘ Ascii.nat_of_ascii <$> String.list_ascii_of_string s.

Definition GenAesKey (pass : string) : run (list Z) := go_slice (sha1 (sha1 (bytes_of pass))) 0 16.

(** [Seal(nonce, nonce, plaintext, nil)] appends to the nonce. *)
Definition encrypt (plaintext key nonce : list Z) : list Z := nonce ++ gcm_Seal key nonce plaintext.

Definition decrypt (ciphertext key : list Z) : list Z + gerror :=
  if (length ciphertext <? NonceSize)%nat then inr (EConf 1000)
  else gcm_Open key (take NonceSize ciphertext) (drop NonceSize ciphertext).

Definition Encode (secret : string) (nonce : list Z) (authInfo : AuthInfo) : run (string + gerror) :=
  match json_Marshal authInfo with
  | inr e => Ret (inr e)
  | inl bytes => key ← GenAesKey secret; Ret (inl (base64_Encode (encrypt bytes key nonce)))
  end.

Definition Decode (secret : string) (token : string) : run (AuthInfo + gerror) :=
  match base64_Decode token with
  | inr e => Ret (inr e)
  | inl bytes =>
      key ← GenAesKey secret;
      match decrypt bytes key with inr e => Ret (inr e) | inl bytes => Ret (json_Unmarshal bytes) end
  end.

(** ** Connecting *)

(** A value of the handshake, and what the handler calls: [next], and the
    identity and id it keeps for the socket. *)
Inductive auth_value := VString (s : string) | VOther.

Record socket := { s_next : list (option gerror); s_data : option (AuthInfo * string) }.

(** The condition under which a decoded token is refused. *)
Definition refused (a : AuthInfo) (now : Z) : bool :=
  negb (bool_decide (Usage a = AUTH_USAGE)) || bool_decide (Auth_Key a = ""%string) || bool_decide (UID a = ""%string) ||
  (i64 (auth_Timestamp a + i64 (Deadline a)) <? now).

Definition Unauthorized : gerror := EOther "Unauthorized".

(** [SocketIOAuthHandler] for a socket that is [authed] or brings the map
    [auth]; [uuid] is a new id.  A wrong type is reported and the handler goes
    on. *)
Definition SocketIOAuthHandler (secret uuid : string) (now : Z) (authed : bool) (auth : option (gmap string auth_value)) : run socket :=
  if authed then Ret {| s_next := [None]; s_data := None |}
  else
    let unauthorized := {| s_next := [Some Unauthorized]; s_data := None |} in
    match auth with
    | None => Ret unauthorized
    | Some m =>
        match m !! "token"%string with
        | None => Ret unauthorized
        | Some tokenAny =>
            let '(token, n1) := match tokenAny with VString t => (t, []) | VOther => (""%string, [Some (EOther "Invalid token type")]) end in
            let '(signalId, n2) := match m !! "id"%string with
                                   | None => (uuid, [])
                                   | Some (VString i) => (i, [])
                                   | Some VOther => (""%string, [Some (EOther "Invalid signal id type")])
                                   end in
            d ← Decode secret token;
            match d with
            | inr _ => Ret {| s_next := n1 ++ n2 ++ [Some Unauthorized]; s_data := None |}
            | inl a =>
                if refused a now then Ret {| s_next := n1 ++ n2 ++ [Some Unauthorized]; s_data := None |}
                else Ret {| s_next := n1 ++ n2 ++ [None]; s_data := Some (a, signalId) |}
            end
        end
    end.

(** The headers of [GET /ws]: the first one whose token decodes. *)
Fixpoint first_token (secret : string) (headers : list string) : run (option AuthInfo) :=
  match headers with
  | [] => Ret None
  | h :: headers =>
      let token := match cut_at (Ascii.ascii_of_nat 32) h with Some (_, t) => t | None => h end in
      d ← Decode secret token;
      match d with inl a => Ret (Some a) | inr _ => first_token secret headers end
  end.

(** The identity and the id of the connection, or 401. *)
Definition websocket_handler (secret uuid : string) (authorization signal_id : option (list string)) : run (option (AuthInfo * string)) :=
  match authorization with
  | None => Ret None
  | Some hs =>
      a ← first_token secret hs;
      Ret (a ← a; Some (a, match signal_id with Some (i :: _) => i | _ => uuid end))
  end.

(** ** Properties *)

Context {HL : CryptoLaws}.

Lemma GenAesKey_ret pass : GenAesKey pass = Ret (take 16 (sha1 (sha1 (bytes_of pass)))).
Proof. unfold GenAesKey, go_slice. by rewrite sha1_length. Qed.

(** A random nonce of the cipher's size. *)
Definition nonce_ok (nonce : list Z) : Prop := length nonce = NonceSize /\ Forall byte nonce.

Lemma Encode_ok secret nonce a : exists t, Encode secret nonce a = Ret (inl t) /\ has_char (Ascii.ascii_of_nat 32) t = false.
Proof.
  destruct (marshal_bytes a) as (b & Hb & _). unfold Encode. rewrite Hb, GenAesKey_ret, bind_ret_l. eexists. split; [done|apply base64_no_space].
Qed.

Lemma Decode_Encode secret nonce a t :
  nonce_ok nonce -> utf8_info a -> Encode secret nonce a = Ret (inl t) -> Decode secret t = Ret (inl a).
Proof.
  intros [Hn Hnb] Hu. unfold Encode, Decode. destruct (marshal_bytes a) as (b & Hb & Hbb). rewrite Hb, GenAesKey_ret, !bind_ret_l. intros [= <-].
  rewrite base64_roundtrip by (apply Forall_app; split; [done|by apply seal_bytes]). unfold decrypt, encrypt. rewrite length_app, (proj2 (Nat.ltb_ge _ _)) by lia.
  rewrite <- Hn, take_app_length, drop_app_length, bind_ret_l, open_seal. by rewrite (unmarshal_marshal a b Hu Hb).
Qed.

(** A token opens to the identity it was made for; and a token that opens
    was sealed with the secret of the server. *)
Theorem token_roundtrip secret nonce a token t :
  nonce_ok nonce -> utf8_info a -> Encode secret nonce a = Ret (inl t) ->
  Decode secret t = Ret (inl a) /\
  (forall b, Decode secret token = Ret (inl b) ->
     exists n p, base64_Decode token = inl (n ++ gcm_Seal (take 16 (sha1 (sha1 (bytes_of secret)))) n p) /\ length n = NonceSize /\ json_Unmarshal p = inl b).
Proof.
  intros Hn Hu He. split; [by eapply Decode_Encode|]. intros b. unfold Decode. destruct (base64_Decode token) as [c|] eqn:Hd; [|done].
  rewrite GenAesKey_ret, bind_ret_l. unfold decrypt. destruct (Nat.ltb_spec (length c) NonceSize) as [|Hl]; [done|].
  destruct (gcm_Open _ _ _) as [p|] eqn:Ho; [|done]. intros [= Hb]. exists (take NonceSize c), p.
  rewrite <- (open_only _ _ _ _ Ho), take_drop. split_and!; [done|rewrite length_take; lia|done].
Qed.

Lemma form_fields form now a :
  NewAuthInfoFromForm form now = inl a ->
  Usage a = AUTH_USAGE /\ Auth_Key a <> ""%string /\ UID a <> ""%string /\ auth_Timestamp a = now /\ 0 <= Deadline a < 2 ^ 64.
Proof.
  unfold NewAuthInfoFromForm. cbv zeta. repeat (case_decide; [done|]). destruct (form !! _) as [rooms|]; [|done].
  destruct (if decide (Get form "deadline" = ""%string) then _ else _) as [d|] eqn:Hd; [|done].
  destruct (decide (Get form "nonce" = ""%string)); [done|].
  destruct (Atoi _); [|done]. intros [= <-]. cbn. split_and!; try done.
  all: revert Hd; case_decide; [intros [= <-]; lia|]; unfold ParseUint; destruct (DecimalString.NilZero.uint_of_string _); cbn; [|done];
    case_decide; [|done]; intros [= <-]; lia.
Qed.

(** The token of an identity that is not refused for its texts lets its holder in until the deadline. *)
Lemma token_opens secret uuid id nonce t0 now a t :
  nonce_ok nonce -> utf8_info a -> Usage a = AUTH_USAGE -> Auth_Key a <> ""%string -> UID a <> ""%string -> auth_Timestamp a = t0 ->
  0 <= t0 -> 0 <= Deadline a -> t0 + Deadline a < 2 ^ 63 -> Encode secret nonce a = Ret (inl t) ->
  SocketIOAuthHandler secret uuid now false (Some {["token"%string := VString t; "id"%string := VString id]}) =
  Ret (if now <=? t0 + Deadline a then {| s_next := [None]; s_data := Some (a, id) |}
       else {| s_next := [Some Unauthorized]; s_data := None |}).
Proof.
  intros Hn Hu8 Hu Hk Hid Hts Ht Hd Hb He. unfold SocketIOAuthHandler.
  change ({["token"%string := VString t; "id"%string := VString id]} !! "token"%string) with (Some (VString t)).
  change ({["token"%string := VString t; "id"%string := VString id]} !! "id"%string) with (Some (VString id)).
  cbn beta iota. rewrite (Decode_Encode _ _ _ _ Hn Hu8 He), bind_ret_l.
  unfold refused. rewrite bool_decide_eq_true_2, !bool_decide_eq_false_2 by done. cbn [negb orb]. rewrite Hts.
  rewrite (i64_id (Deadline a)), i64_id by (unfold is_i64; lia).
  destruct (Z.ltb_spec (t0 + Deadline a) now), (Z.leb_spec now (t0 + Deadline a)); done || lia.
Qed.

Lemma websocket_opens secret uuid nonce a t ids :
  nonce_ok nonce -> utf8_info a -> Encode secret nonce a = Ret (inl t) ->
  websocket_handler secret uuid (Some [t]) ids = Ret (Some (a, match ids with Some (i :: _) => i | _ => uuid end)).
Proof.
  intros Hn Hu He. destruct (Encode_ok secret nonce a) as (t' & He' & Hs). assert (t' = t) as -> by congruence.
  unfold websocket_handler. cbn [first_token]. by rewrite (proj2 (cut_at_none _ _) Hs), (Decode_Encode _ _ _ _ Hn Hu He).
Qed.

(** From the form to the connection: the token made from an accepted form
    at [t0] lets its holder in over Socket.IO exactly until the deadline of the form,
    counted in seconds, and as exactly the identity of the form. *)
Theorem token_admits secret uuid id nonce form t0 now a t :
  nonce_ok nonce -> utf8_info a -> NewAuthInfoFromForm form t0 = inl a -> 0 <= t0 -> t0 + Deadline a < 2 ^ 63 ->
  Encode secret nonce a = Ret (inl t) ->
  SocketIOAuthHandler secret uuid now false (Some {["token"%string := VString t; "id"%string := VString id]}) =
  Ret (if now <=? t0 + Deadline a then {| s_next := [None]; s_data := Some (a, id) |}
       else {| s_next := [Some Unauthorized]; s_data := None |}).
Proof.
  intros Hn Hu8 Hf Ht Hb He. destruct (form_fields _ _ _ Hf) as (Hu & Hk & Hid & Hts & Hd). apply token_opens with nonce; try done. lia.
Qed.

(** The WebSocket handler checks neither the deadline nor anything else of the
    token. *)
Lemma websocket_ignores_deadline secret uuid nonce a t :
  nonce_ok nonce -> utf8_info a -> Encode secret nonce a = Ret (inl t) ->
  websocket_handler secret uuid (Some [t]) None = Ret (Some (a, uuid)).
Proof.
  intros Hn Hu He. by rewrite (websocket_opens _ _ nonce a).
Qed.

(** A handshake whose id is not a string is refused and then let in. *)
Lemma bad_id_both secret uuid nonce a t now :
  nonce_ok nonce -> utf8_info a -> Encode secret nonce a = Ret (inl t) -> refused a now = false ->
  SocketIOAuthHandler secret uuid now false (Some {["token"%string := VString t; "id"%string := VOther]}) =
  Ret {| s_next := [Some (EOther "Invalid signal id type"); None]; s_data := Some (a, ""%string) |}.
Proof.
  intros Hn Hu He Hr. unfold SocketIOAuthHandler. change ({["token"%string := VString t; "id"%string := VOther]} !! "token"%string)
    with (Some (VString t)). change ({["token"%string := VString t; "id"%string := VOther]} !! "id"%string) with (Some VOther).
  cbn beta iota. by rewrite (Decode_Encode _ _ _ _ Hn Hu He), bind_ret_l, Hr.
Qed.

End Tokens.

(** ** Witnesses *)

(** No encryption: a sealed text is the text with the key in front; an
    identity is written as the bits of a number. *)
Module Toy.

Definition fields_of (a : AuthInfo) : list positive :=
  [encode (Usage a); encode (Auth_Key a); encode (UID a); encode (UName a); encode (Role a); encode (Auth_Rooms a); encode (AutoJoin a);
   encode (auth_Timestamp a); encode (Deadline a); encode (Nonce a)].
Definition of_fields (l : list positive) : option AuthInfo :=
  match l with
  | [u; k; i; n; r; rs; j; ts; d; c] =>
      u ← decode u; k ← decode k; i ← decode i; n ← decode n; r ← decode r; rs ← decode rs; j ← decode j; ts ← decode ts; d ← decode d; c ← decode c;
      Some {| Usage := u; Auth_Key := k; UID := i; UName := n; Role := r; Auth_Rooms := rs; AutoJoin := j; auth_Timestamp := ts; Deadline := d; Nonce := c |}
  | _ => None
  end.

Lemma of_fields_of a : of_fields (fields_of a) = Some a.
Proof. unfold of_fields, fields_of. rewrite !countable.decode_encode. by destruct a. Qed.

Fixpoint bits (p : positive) : list Z := match p with xH => [2] | xO p => 0 :: bits p | xI p => 1 :: bits p end.
Fixpoint number (l : list Z) : option positive :=
  match l with [2] => Some xH | 0 :: l => xO <$> number l | 1 :: l => xI <$> number l | _ => None end.

Lemma number_bits p : number (bits p) = Some p.
Proof. induction p as [p IH|p IH|]; cbn; [by rewrite IH..|done]. Qed.

#[local] Instance crypto : Crypto :=
  {| sha1 := fun _ => replicate 20 0; NonceSize := 1; gcm_Seal := fun k _ p => map u8 k ++ p;
     gcm_Open := fun k _ c => if decide (take (length k) c = map u8 k) then inl (drop (length k) c) else inr (EOther "gcm");
     json_Marshal := fun a => inl (bits (encode (fields_of a)));
     json_Unmarshal := fun l => match (p ← number l; t ← decode p; of_fields t) with Some a => inl a | None => inr (EOther "json") end |}.

#[local] Instance crypto_laws : CryptoLaws.
Proof.
  split; cbn.
  - done.
  - intros k _ p. replace (length k) with (length (map u8 k)) by apply length_map. by rewrite take_app_length, decide_True, drop_app_length.
  - intros k _ c p. case_decide as Hk; [|done]. intros [= <-]. by rewrite <- Hk, take_drop.
  - intros k _ p Hp. apply Forall_app. split; [|done]. apply Forall_forall. intros z [y [-> _]]%list_elem_of_fmap. apply u8_range.
  - intros a. eexists. split; [done|]. generalize (encode (fields_of a)). intros p. induction p; cbn; repeat (constructor; [unfold byte; lia|]); done.
  - intros a b _ [= <-]. rewrite number_bits. cbn [mbind option_bind]. rewrite countable.decode_encode. cbn [mbind option_bind]. by rewrite of_fields_of.
Qed.

Definition info (n : Z) : AuthInfo :=
  {| Usage := AUTH_USAGE; Auth_Key := "k"; UID := "u"; UName := "n"; Role := "r"; Auth_Rooms := ["room"%string]; AutoJoin := false;
     auth_Timestamp := 1000; Deadline := 300000; Nonce := n |}.

Lemma info_utf8 n : utf8_info (info n).
Proof. repeat constructor. Qed.
Lemma nonce5 : nonce_ok [5].
Proof. split; [done|]. repeat constructor; lia. Qed.

Definition form : Values :=
  {["key"%string := ["k"%string]; "uid"%string := ["u"%string]; "uname"%string := ["n"%string]; "role"%string := ["r"%string];
    "room"%string := ["room"%string]; "nonce"%string := ["7"%string]]}.

Definition token : string := Eval vm_compute in match Encode "secret" [5] (info 7) with Ret (inl t) => t | _ => ""%string end.

Lemma token_roundtrip_witness :
  Encode "secret" [5] (info 7) = Ret (inl token) /\ Decode "secret" token = Ret (inl (info 7)).
Proof.
  assert (Encode "secret" [5] (info 7) = Ret (inl token)) as He by (vm_compute; reflexivity).
  split; [exact He|]. destruct (token_roundtrip (HC := crypto) "secret" [5] (info 7) token token nonce5 (info_utf8 7) He) as [Hd _]. exact Hd.
Defined.

Lemma token_admits_witness :
  NewAuthInfoFromForm form 1000 = inl (info 7) /\
  SocketIOAuthHandler "secret" "x" 301000 false (Some {["token"%string := VString token; "id"%string := VString "me"]}) =
    Ret {| s_next := [None]; s_data := Some (info 7, "me"%string) |}.
Proof.
  split; [reflexivity|].
  apply (token_admits (HC := crypto) "secret" "x" "me" [5] form 1000 301000 (info 7) token); [exact nonce5|exact (info_utf8 7)|reflexivity|lia|cbn; lia|vm_compute; reflexivity].
Defined.

(** The default deadline is written as five minutes in milliseconds and counted in seconds: a
    token is good for more than three days. *)
Lemma default_deadline :
  refused (info 7) (1000 + 3 * 24 * 3600) = false.
Proof. reflexivity. Qed.

End Toy.
