(* ===== verification/Token.v ===== *)
(** * Token: from the client's request for a token to its admission

    [client/token.go] asks the auth server ([authserver/main.go], with the
    middleware of [middleware/gin.go]) for a token over HTTP; the token is then
    shown to a signal server ([Auth]).  The query string is modelled with its
    escaping ([Encoding]); the HTTP exchange is a parameter of the client, with
    the law that the server is asked with the query of the url.  Texts of
    errors are not modelled. *)
From S2P Require Import Prelude GoStrings Strconv Encoding Auth.
From Stdlib Require Import Ascii.
Local Open Scope string_scope.
Local Open Scope Z_scope.
Local Open Scope list_scope.

(** ** The auth server *)

(** A request for /token. *)
Record request := { method : string; origin : string; rawQuery : string }.

(** The body of an answer: text, or the JSON object of an error with its code. *)
Inductive body := BEmpty | BText (s : string) | BJson (code : Z).
Record answer := { status : Z; headers : list (string * string); a_body : body }.

(** [Cors]: the headers it sets, and whether it ends the request. *)
Definition Cors (cors : string) (r : request) : list (string * string) * bool :=
  (if decide (origin r = "") then []
   else [("Access-Control-Allow-Origin", cors);
         ("Access-Control-Allow-Methods", "POST, GET, OPTIONS, PUT, DELETE, UPDATE");
         ("Access-Control-Allow-Headers", "Origin, X-Requested-With, Content-Type, Accept, Authorization");
         ("Access-Control-Expose-Headers",
          "Content-Length, Access-Control-Allow-Origin, Access-Control-Allow-Headers, Cache-Control, Content-Language, Content-Type");
         ("Access-Control-Allow-Credentials", "true")],
   bool_decide (method r = "OPTIONS")).

(** [ErrorHandler]: status and code for what a handler panicked with. *)
Definition ErrorHandler (err : panic_value) : Z * Z :=
  match err with
  | PCode code => (if 600 <? code then 500 else code, code)
  | _ => (500, 500)
  end.

Section AuthServer.
Context `{HC : Crypto}.

(** The handler of GET /token; [now] is the clock and [nonce] the random bytes of the cipher. *)
Definition token_handler (secret : string) (nonce : list Z) (now : Z) (r : request) : run string :=
  let '(form, _) := ParseQuery (rawQuery r) in
  match NewAuthInfoFromForm form now with
  | inr err => err_panic err
  | inl authInfo =>
      token ← Encode secret nonce authInfo;
      match token with inr err => err_panic err | inl token => Ret token end
  end.

(** The middleware and the route; [cors] is empty when it is not used. *)
Definition auth_serve (cors secret : string) (nonce : list Z) (now : Z) (r : request) : answer :=
  let '(hs, ended) := if decide (cors = "") then ([], false) else Cors cors r in
  if ended : bool then {| status := 204; headers := hs; a_body := BEmpty |}
  else if decide (method r = "GET") then
    match token_handler secret nonce now r with
    | Ret token => {| status := 200; headers := hs; a_body := BText token |}
    | Abort (Panic v) => let '(st, code) := ErrorHandler v in {| status := st; headers := hs; a_body := BJson code |}
    | Abort NoFuel => {| status := 500; headers := hs; a_body := BJson 500 |}
    end
  else {| status := 404; headers := hs; a_body := BEmpty |}.
End AuthServer.

(** ** The client *)

(** The answer [http.Get] gives, with the outcome of reading its body. *)
Record http_response := { StatusCode : Z; Body : string + gerror }.

Definition token_query (key uid uname room role : string) (nonce : Z) (autoJoin : bool) : string :=
  "key=" +:+ QueryEscape key +:+ "&uid=" +:+ QueryEscape uid +:+ "&uname=" +:+ QueryEscape uname +:+ "&room=" +:+ QueryEscape room +:+
  "&role=" +:+ QueryEscape role +:+ "&nonce=" +:+ FormatUint nonce +:+ "&autojoin=" +:+ (if autoJoin then "true" else "false").

Definition GetToken (get : string -> http_response + gerror) (authUrl key uid uname room role : string) (nonce : Z) (autoJoin : bool) : string + gerror :=
  match get (authUrl +:+ "/token?" +:+ token_query key uid uname room role nonce autoJoin) with
  | inr _ => inr (EOther "unable to get token")
  | inl resp =>
      if decide (StatusCode resp <> 200) then inr (EOther ("unable to get token, got status code " +:+ FormatUint (StatusCode resp)))
      else match Body resp with inr _ => inr (EOther "unable to get token") | inl token => inl token end
  end.

(** ** Query strings of pairs *)

Definition pair_text (kv : string * string) : string := QueryEscape kv.1 +:+ String "=" (QueryEscape kv.2).

Lemma Split_app sep p s : has_char sep p = false -> Split sep (p +:+ String sep s) = p :: Split sep s.
Proof.
  induction p as [|c p IH]; intros Hp.
  - rewrite app_string_nil_l. cbn. by rewrite decide_True.
  - cbn in Hp. destruct (decide (c = sep)) as [|Hc]; [done|]. rewrite app_string_cons. cbn [Split]. rewrite decide_False by done. by rewrite IH.
Qed.

Lemma Split_whole sep p : has_char sep p = false -> Split sep p = [p].
Proof.
  induction p as [|c p IH]; intros Hp; [done|]. cbn in Hp. destruct (decide (c = sep)) as [|Hc]; [done|].
  cbn [Split]. rewrite decide_False by done. by rewrite IH.
Qed.

Lemma has_char_app c s t : has_char c (s +:+ t) = has_char c s || has_char c t.
Proof. induction s as [|d s IH]; [done|]. rewrite app_string_cons. cbn. by case_decide. Qed.

Lemma pair_text_chars c kv : ~ query_char c -> c <> "="%char -> has_char c (pair_text kv) = false.
Proof.
  intros Hc He. unfold pair_text. rewrite has_char_app, escaped_no_char by done. cbn. rewrite decide_False by (by intros <-). by apply escaped_no_char.
Qed.

Lemma sep_not_query : ~ query_char "&" /\ ~ query_char ";" /\ ~ query_char "=".
Proof. unfold query_char. split_and!; (intros [H|[H|H]]; [vm_compute in H|..]; discriminate). Qed.

Lemma parse_pair_text kv : parse_pair (pair_text kv) = Some kv.
Proof.
  destruct sep_not_query as (_ & H2 & H3). unfold parse_pair. rewrite pair_text_chars by done. unfold pair_text.
  rewrite cut_at_app by (by apply escaped_no_char). rewrite !query_roundtrip. by destruct kv.
Qed.

Lemma add_pair_text acc kv : add_pair acc (pair_text kv) = (<[kv.1 := default [] (acc.1 !! kv.1) ++ [kv.2]]> acc.1, acc.2).
Proof.
  unfold add_pair. rewrite decide_False.
  - rewrite parse_pair_text. by destruct kv.
  - unfold pair_text. destruct (QueryEscape kv.1); discriminate.
Qed.

(** The query string of a list of pairs is parsed to the pairs, without error. *)
Lemma ParseQuery_pairs kv l :
  ParseQuery (Join "&" (pair_text <$> kv :: l)) =
  (foldl (fun m kv => <[kv.1 := default [] (m !! kv.1) ++ [kv.2]]> m) ∅ (kv :: l), false).
Proof.
  destruct sep_not_query as (H1 & _ & _).
  assert (Split "&" (Join "&" (pair_text <$> kv :: l)) = pair_text <$> kv :: l) as Hs.
  { revert kv. induction l as [|kv' l IH]; intros kv.
    - cbn. apply Split_whole, pair_text_chars; [done|discriminate].
    - change (Join "&" (pair_text <$> kv :: kv' :: l)) with (pair_text kv +:+ String "&" (Join "&" (pair_text <$> kv' :: l))).
      rewrite Split_app, IH; [done|]. apply pair_text_chars; [done|discriminate]. }
  unfold ParseQuery. rewrite Hs. generalize (kv :: l). clear. intros l. generalize (∅ : gmap string (list string)) at 1 2. generalize false.
  induction l as [|kv l IH]; intros b m; [done|]. cbn [fmap list_fmap foldl]. rewrite add_pair_text. apply IH.
Qed.

Lemma FormatUint_unreserved z : Forall (fun c => unreserved c = true) (String.list_ascii_of_string (FormatUint z)).
Proof.
  apply Forall_forall. intros c Hc. destruct (unreserved c) eqn:Hu; [done|].
  assert (has_char c (FormatUint z) = false) as Hf.
  { apply FormatUint_chars. intros Hd. unfold is_digit in Hd. unfold unreserved, code in Hu.
    rewrite (proj2 (Z.leb_le 48 _)), (proj2 (Z.leb_le _ 57)) in Hu by lia. rewrite !orb_true_r in Hu. discriminate. }
  rewrite has_char_list in Hf. by apply bool_decide_eq_false in Hf.
Qed.

Lemma QueryEscape_plain s : Forall (fun c => unreserved c = true) (String.list_ascii_of_string s) -> QueryEscape s = s.
Proof. induction s as [|c s IH]; [done|]. intros Hs. cbn in Hs. apply Forall_cons in Hs as [Hc Hs]. cbn. by rewrite Hc, IH. Qed.

Definition token_form (key uid uname room role : string) (nonce : Z) (autoJoin : bool) : list (string * string) :=
  [("key", key); ("uid", uid); ("uname", uname); ("room", room); ("role", role); ("nonce", FormatUint nonce);
   ("autojoin", if autoJoin then "true" else "false")].

Lemma token_query_pairs key uid uname room role nonce autoJoin :
  token_query key uid uname room role nonce autoJoin = Join "&" (pair_text <$> token_form key uid uname room role nonce autoJoin).
Proof.
  unfold token_query, token_form. cbn [fmap list_fmap Join]. unfold pair_text. cbn [fst snd].
  rewrite (QueryEscape_plain (FormatUint nonce)) by apply FormatUint_unreserved.
  replace (QueryEscape (if autoJoin then _ else _)) with (if autoJoin then "true" else "false") by (by destruct autoJoin).
  cbn [QueryEscape unreserved]. rewrite !app_string_assoc. reflexivity.
Qed.

Lemma ParseQuery_token key uid uname room role nonce autoJoin :
  ParseQuery (token_query key uid uname room role nonce autoJoin) =
  (foldl (fun m kv => <[kv.1 := default [] (m !! kv.1) ++ [kv.2]]> m) ∅ (token_form key uid uname room role nonce autoJoin), false).
Proof. rewrite token_query_pairs. apply ParseQuery_pairs. Qed.

(** ** The way of a token *)

Section Way.
Context `{HL : CryptoLaws} (cors secret authUrl : string) (aes_nonce : list Z) (t0 : Z) (json_text : Z -> string).

(** The answer of the auth server as the client reads it. *)
Definition text_of (b : body) : string := match b with BEmpty => "" | BText s => s | BJson code => json_text code end.
Definition wire (a : answer) : http_response := {| StatusCode := status a; Body := inl (text_of (a_body a)) |}.

(** [http.Get] of the url of the auth server with a query asks it with this query. *)
Class HttpGet (get : string -> http_response + gerror) := {
  get_query q : Forall (fun c => query_char c \/ c = "="%char \/ c = "&"%char) (String.list_ascii_of_string q) ->
    get (authUrl +:+ "/token?" +:+ q) = inl (wire (auth_serve cors secret aes_nonce t0 {| method := "GET"; origin := ""; rawQuery := q |}))
}.

(** The identity a token is made for. *)
Definition identity (key uid uname room role : string) (nonce : Z) (autoJoin : bool) : AuthInfo :=
  {| Usage := AUTH_USAGE; Auth_Key := key; UID := uid; UName := uname; Role := role; Auth_Rooms := [room]; AutoJoin := autoJoin;
     auth_Timestamp := t0; Deadline := 300000; Nonce := nonce |}.

Definition fields (form : Values) (key uid uname room role : string) (nonce : Z) (autoJoin : bool) : Prop :=
  Get form "key" = key /\ Get form "uid" = uid /\ Get form "uname" = uname /\ form !! "room" = Some [room] /\ Get form "role" = role /\
  Get form "nonce" = FormatUint nonce /\ Get form "autojoin" = (if autoJoin then "true" else "false") /\ Get form "deadline" = "".

Lemma form_identity key uid uname room role nonce autoJoin :
  0 <= nonce < 100000 ->
  NewAuthInfoFromForm (foldl (fun m kv => <[kv.1 := default [] (m !! kv.1) ++ [kv.2]]> m) ∅ (token_form key uid uname room role nonce autoJoin)) t0 =
  if decide (Forall (fun s => s <> "") [key; uid; uname; role]) then inl (identity key uid uname room role nonce autoJoin) else inr InvalidParam.
Proof using Type.
  intros Hn. set (form := foldl _ _ _). assert (fields form key uid uname room role nonce autoJoin) as Hf by (by split_and!). clearbody form.
  destruct Hf as (Hk & Hu & Hun & Hr & Hro & Hno & Haj & Hd). unfold NewAuthInfoFromForm. rewrite Hk, Hu, Hun, Hro, Hr, Haj, Hd, Hno. cbv zeta.
  destruct (decide (Forall _ _)) as [Ha|Ha].
  - apply Forall_cons in Ha as [? Ha]. apply Forall_cons in Ha as [? Ha]. apply Forall_cons in Ha as [? Ha]. apply Forall_cons in Ha as [? Ha].
    rewrite !decide_False by done. rewrite (decide_True (P := "" = "")) by done. rewrite Atoi_FormatUint by lia. rewrite decide_False.
    + f_equal. unfold identity. rewrite i32_id by lia. by destruct autoJoin.
    + intros He. pose proof (Atoi_FormatUint nonce ltac:(lia)) as Hp. rewrite He in Hp. discriminate Hp.
  - repeat (case_decide; [done|]). exfalso. apply Ha. repeat constructor; done.
Qed.

Lemma query_legal key uid uname room role nonce autoJoin :
  Forall (fun c => query_char c \/ c = "="%char \/ c = "&"%char) (String.list_ascii_of_string (token_query key uid uname room role nonce autoJoin)).
Proof using Type.
  assert (forall s t (P : ascii -> Prop), Forall P (String.list_ascii_of_string s) -> Forall P (String.list_ascii_of_string t) ->
    Forall P (String.list_ascii_of_string (s +:+ t))) as Happ.
  { intros s t P Hs Ht. induction s as [|c s IH]; [done|]. cbn in Hs. apply Forall_cons in Hs as [? ?]. rewrite app_string_cons. constructor; auto. }
  assert (forall s, Forall (fun c => query_char c \/ c = "="%char \/ c = "&"%char) (String.list_ascii_of_string (QueryEscape s))) as Hq.
  { intros s. eapply Forall_impl; [apply QueryEscape_chars|]. auto. }
  unfold token_query. repeat apply Happ; auto.
  all: try (by repeat (constructor; [unfold query_char; vm_compute; auto|])).
  - eapply Forall_impl; [apply FormatUint_unreserved|]. unfold query_char. auto.
  - destruct autoJoin; by repeat (constructor; [unfold query_char; vm_compute; auto|]).
Qed.

Lemma token_way get key uid uname room role nonce autoJoin :
  HttpGet get -> nonce_ok aes_nonce -> 0 <= t0 < 2 ^ 62 -> 0 <= nonce < 100000 ->
  Forall (fun s => ValidString s = true) [key; uid; uname; room; role] ->
  let a := identity key uid uname room role nonce autoJoin in
  let res := GetToken get authUrl key uid uname room role nonce autoJoin in
  if decide (Forall (fun s => s <> "") [key; uid; uname; role]) then
    exists t, res = inl t /\
      (forall uuid id now,
         SocketIOAuthHandler secret uuid now false (Some {["token" := VString t; "id" := VString id]}) =
         Ret (if now <=? t0 + 300000 then {| s_next := [None]; s_data := Some (a, id) |}
              else {| s_next := [Some Unauthorized]; s_data := None |})) /\
      (forall uuid id, websocket_handler secret uuid (Some [t]) (Some [id]) = Ret (Some (a, id)))
  else res = inr (EOther "unable to get token, got status code 400").
Proof using HL.
  intros Hget Hnonce Ht Hn Hutf. cbv zeta. unfold GetToken. rewrite get_query by apply query_legal. unfold auth_serve. cbn [origin method rawQuery].
  replace (if decide (cors = "") then _ else _) with ([] : list (string * string), false) by (unfold Cors; by case_decide).
  rewrite (decide_True (P := "GET" = "GET")) by done. unfold token_handler. cbn [rawQuery]. rewrite ParseQuery_token, form_identity by done.
  destruct (decide (Forall _ _)) as [Ha|Ha]; [|reflexivity].
  set (a := identity _ _ _ _ _ _ _). destruct (Encode_ok secret aes_nonce a) as (t & He & Hsp). rewrite He, bind_ret_l.
  assert (utf8_info a) as Hu by (unfold utf8_info; decompose_Forall_hyps; repeat (constructor; [done|]); done).
  pose proof (form_identity key uid uname room role nonce autoJoin Hn) as Hf. rewrite decide_True in Hf by done.
  exists t. split_and!; [reflexivity| |].
  - intros uuid id now. decompose_Forall_hyps. apply (token_opens secret uuid id aes_nonce t0 now a t); done || cbn; lia.
  - intros uuid id. by apply (websocket_opens secret uuid aes_nonce a t (Some [id])).
Qed.

(** C37. The way of a token, for texts in UTF-8, a date below 2^62 and a random number below 100000: [GetToken] sends the texts of a user through a query
    string to the auth server, which seals them into a token.  When neither the key nor the id, the name and the role of the user are
    empty the call returns it, whatever characters they have and also for an empty room; Socket.IO admits
    its holder until the deadline, WebSocket always, with exactly the identity
    that was asked for.  When one of these four is empty the call fails with the status 400
    of the server. *)
Theorem GetToken_admitted get key uid uname room role nonce autoJoin :
  HttpGet get -> nonce_ok aes_nonce -> 0 <= t0 < 2 ^ 62 -> 0 <= nonce < 100000 ->
  Forall (fun s => ValidString s = true) [key; uid; uname; room; role] ->
  let a := identity key uid uname room role nonce autoJoin in
  let res := GetToken get authUrl key uid uname room role nonce autoJoin in
  if decide (Forall (fun s => s <> "") [key; uid; uname; role]) then
    exists t, res = inl t /\
      (forall uuid id now,
         SocketIOAuthHandler secret uuid now false (Some {["token" := VString t; "id" := VString id]}) =
         Ret (if now <=? t0 + 300000 then {| s_next := [None]; s_data := Some (a, id) |}
              else {| s_next := [Some Unauthorized]; s_data := None |})) /\
      (forall uuid id, websocket_handler secret uuid (Some [t]) (Some [id]) = Ret (Some (a, id)))
  else res = inr (EOther "unable to get token, got status code 400").
Proof using HL. apply token_way. Qed.
End Way.

(** ** Witness *)

(** An exchange with the server: the query is what follows the url. *)
Fixpoint strip (p s : string) : option string :=
  match p, s with
  | "", s => Some s
  | String c p, String d s => if decide (c = d) then strip p s else None
  | _, _ => None
  end%string.

Lemma strip_app p s : strip p (p +:+ s) = Some s.
Proof. induction p as [|c p IH]; [by destruct s|]. rewrite app_string_cons. cbn. by rewrite decide_True. Qed.

Module Toy.
Import Auth.Toy.
#[local] Existing Instance crypto.
#[local] Existing Instance crypto_laws.

Definition serve (q : string) : http_response :=
  wire (fun _ => "{}") (auth_serve "*" "secret" [5] 1000 {| method := "GET"; origin := ""; rawQuery := q |}).
Definition get (url : string) : http_response + gerror :=
  match strip "http://auth/token?" url with Some q => inl (serve q) | None => inr (EOther "no such host") end.

Lemma get_law : HttpGet "*" "secret" "http://auth" [5] 1000 (fun _ => "{}") get.
Proof. split. intros q _. unfold get. change ("http://auth" +:+ "/token?" +:+ q) with ("http://auth/token?" +:+ q). by rewrite strip_app. Qed.

(** A name with an ampersand, a plus sign and a space, and a missing name. *)
Lemma GetToken_admitted_witness :
  (exists t, GetToken get "http://auth" "k" "u" "Tom & J+y" "room 1" "r" 7 true = inl t /\
     websocket_handler "secret" "x" (Some [t]) (Some ["me"]) = Ret (Some (identity 1000 "k" "u" "Tom & J+y" "room 1" "r" 7 true, "me"))) /\
  GetToken get "http://auth" "k" "u" "" "room 1" "r" 7 true = inr (EOther "unable to get token, got status code 400").
Proof.
  split.
  - destruct (GetToken_admitted "*" "secret" "http://auth" [5] 1000 (fun _ => "{}") get "k" "u" "Tom & J+y" "room 1" "r" 7 true
      get_law nonce5 ltac:(lia) ltac:(lia) ltac:(repeat constructor)) as (t & Ht & _ & Hw).
    exists t. split; [exact Ht|apply Hw].
  - exact (GetToken_admitted "*" "secret" "http://auth" [5] 1000 (fun _ => "{}") get "k" "u" "" "room 1" "r" 7 true
      get_law nonce5 ltac:(lia) ltac:(lia) ltac:(repeat constructor)).
Defined.
End Toy.
