(* ===== verification/Config.v ===== *)
(** * Config: the configuration and what is derived from it ([config/model.go])

    The structs field by field; an [int] is a 64-bit integer.  Loading is done
    by a library, so [Validate] is the only check; [Split] makes the nodes of a
    cluster that runs in one process for debugging. *)
From S2P Require Import Prelude GoStrings Strconv.
Local Open Scope Z_scope.
Local Open Scope list_scope.

Record RedisConfigure := {
  rd_Mode : string; rd_Addrs : string; rd_Users : string; rd_Passes : string; rd_KeyPrefix : string; rd_MasterName : string
}.
Record PrometheusConfigure := { pr_Enable : bool; pr_Namespace : string; pr_Subsystem : string; pr_GoCollectors : bool }.
Record SaslConfigure := { sl_Enable : bool; sl_Method : string; sl_User : string; sl_Pass : string }.
Record KafkaTls := { kt_Enable : bool; kt_Ca : string; kt_Cert : string; kt_Key : string }.
Record KafkaConfigure := {
  kf_Addrs : string; kf_TopicPrefix : string; kf_Sasl : SaslConfigure; kf_Tls : KafkaTls; kf_Prometheus : PrometheusConfigure;
  MaxBufferedRecords : Z; MaxBufferedBytes : Z; MaxConcurrentFetches : Z; FetchMaxBytes : Z; BatchMaxBytes : Z;
  NoIdempotency : bool; LingerMs : Z; Compression : string
}.
Record DebugConfigure := { db_Enable : bool; Replicas : Z; PortOffset : Z }.
Record ClusterConfigure := {
  cl_Enable : bool; Kafka : KafkaConfigure; Redis : RedisConfigure; NodeName : string; Debug : DebugConfigure
}.
Record RouterConfigure := { ro_HostOrIp : string; ro_Port : Z }.
Record ICEServerConfigure := { URLs : string; ic_Username : string; ic_Credential : string; ic_CredentialType : string }.
Record WebRTCConfigure := { JitterBuffer : bool; ICEServer : ICEServerConfigure; ICETransportPolicy : string }.
Record HealthyConfigure := { he_Enable : bool; FailureThreshold : Z; he_Path : string }.
Record AuthServerConfigure := {
  au_Enable : bool; au_Host : string; au_Port : Z; Ssl : bool; CertPath : string; KeyPath : string; au_Cors : string;
  au_Healthy : HealthyConfigure
}.
Record LogConfigure := { Profile : string; Level : string; lg_File : string }.
Record DBIndexConfigure := {
  di_Enable : bool; MongoUrl : string; Database : string; Collection : string; di_Key : string; di_User : string; di_Pass : string
}.
Record RecordConfigure := {
  rc_Enable : bool; BasePath : string; DirPath : string; IndexName : string; SegmentDuration : Z; GopSize : Z; DBIndex : DBIndexConfigure
}.
Record CallbackConfigure := { OnStart : string; OnClose : string; OnConnecting : string; IntervalMs : Z }.
Record SignalTls := { st_Enable : bool; st_Cert : string; st_Key : string }.
Record SignalConfigure := {
  sg_Enable : bool; sg_HostOrIp : string; sg_Port : Z; sg_Cors : string; AsyncSendMsg : bool; sg_Tls : SignalTls; MsgTimeoutMs : Z;
  MsgTimeoutRetries : Z; gin_Debug : bool; gin_NoRequestLog : bool; sg_Healthy : HealthyConfigure; sg_Prometheus : PrometheusConfigure
}.
Record ConferenceConfigure := {
  HostOrIp : string; Router_ : RouterConfigure; WebRTC : WebRTCConfigure; Prometheus : PrometheusConfigure; AuthServer : AuthServerConfigure;
  SecretKey : string; Log : LogConfigure; Record_ : RecordConfigure; Callback : CallbackConfigure; Signal : SignalConfigure;
  Cluster : ClusterConfigure
}.

(** ** Derived values *)

Inductive LogProfile_ := LOG_PROFILE_DEVELOPMENT | LOG_PROFILE_PRODUCTION.

Definition invalid_param {A} : run A := go_panic (PCode 400).

Definition NewLogProfile (s : string) : run LogProfile_ :=
  let s := ToLower s in
  if decide (s = "development"%string) then Ret LOG_PROFILE_DEVELOPMENT
  else if decide (s = "production"%string \/ s = ""%string) then Ret LOG_PROFILE_PRODUCTION
  else invalid_param.

Definition LogProfile_String (p : LogProfile_) : string :=
  match p with LOG_PROFILE_DEVELOPMENT => "development" | LOG_PROFILE_PRODUCTION => "production" end.

Inductive ICECredentialType := ICECredentialTypePassword | ICECredentialTypeOauth.

Definition parseCredentialType (ct : string) : run ICECredentialType :=
  if decide (ct = "password"%string \/ ct = ""%string) then Ret ICECredentialTypePassword
  else if decide (ct = "oauth"%string) then Ret ICECredentialTypeOauth
  else invalid_param.

Inductive credential := CredPassword (s : string) | CredOauth (MACKey AccessToken : string).
Record ICEServer_ := { is_URLs : list string; is_Username : string; is_Credential : credential; is_CredentialType : ICECredentialType }.

Definition space : Ascii.ascii := Ascii.ascii_of_nat 32.

(** The policy is parsed by the webrtc package. *)
Definition GetWebrtcConfiguration (c : ConferenceConfigure) : run (list ICEServer_ * string) :=
  let ice := ICEServer (WebRTC c) in
  servers ← (if decide (URLs ice = ""%string) then Ret []
             else
               let urls := Split space (URLs ice) in
               ct ← parseCredentialType (ic_CredentialType ice);
               let rawCredential := ic_Credential ice in
               let cred := match ct with
                           | ICECredentialTypeOauth =>
                               if decide (rawCredential = ""%string) then CredOauth "" ""
                               else match cut_at space rawCredential with
                                    | Some (mac, tok) => CredOauth mac tok
                                    | None => CredOauth rawCredential ""
                                    end
                           | ICECredentialTypePassword => CredPassword rawCredential
                           end in
               Ret [{| is_URLs := urls; is_Username := ic_Username ice; is_Credential := cred; is_CredentialType := ct |}]);
  Ret (servers, ICETransportPolicy (WebRTC c)).

Definition LogProfile (c : ConferenceConfigure) : run LogProfile_ := NewLogProfile (Profile (Log c)).
Definition PromEnable (c : ConferenceConfigure) : bool :=
  pr_Enable (Prometheus c) || pr_Enable (sg_Prometheus (Signal c)) || pr_Enable (kf_Prometheus (Kafka (Cluster c))).
Definition ExternalHostOrIp (c : ConferenceConfigure) : string := HostOrIp c.
Definition RouterListenHostOrIp (c : ConferenceConfigure) : string :=
  if decide (ro_HostOrIp (Router_ c) <> ""%string) then ro_HostOrIp (Router_ c) else ExternalHostOrIp c.
Definition RouterPort (c : ConferenceConfigure) : Z := ro_Port (Router_ c).
Definition RouterListenAddress (c : ConferenceConfigure) : string := (RouterListenHostOrIp c +:+ ":" +:+ FormatInt (RouterPort c))%string.
Definition RouterExternalAddress (c : ConferenceConfigure) : string := (ExternalHostOrIp c +:+ ":" +:+ FormatInt (RouterPort c))%string.
Definition SignalListenHostOrIp (c : ConferenceConfigure) : string :=
  if decide (sg_HostOrIp (Signal c) <> ""%string) then sg_HostOrIp (Signal c) else ExternalHostOrIp c.
Definition SignalPort (c : ConferenceConfigure) : Z :=
  let port := sg_Port (Signal c) in
  if port =? 0 then (if st_Enable (sg_Tls (Signal c)) then 4430 else 8080) else port.
Definition SignalListenAddress (c : ConferenceConfigure) : string := (SignalListenHostOrIp c +:+ ":" +:+ FormatInt (SignalPort c))%string.
Definition SignalExternalAddress (c : ConferenceConfigure) : string :=
  let port := SignalPort c in
  if st_Enable (sg_Tls (Signal c)) then
    if negb (port =? 443) then ("https://" +:+ ExternalHostOrIp c +:+ ":" +:+ FormatInt port)%string else ("https://" +:+ ExternalHostOrIp c)%string
  else
    if negb (port =? 80) then ("http://" +:+ ExternalHostOrIp c +:+ ":" +:+ FormatInt port)%string else ("http://" +:+ ExternalHostOrIp c)%string.
Definition ClusterEnable (c : ConferenceConfigure) : bool := cl_Enable (Cluster c) || db_Enable (Debug (Cluster c)).
Definition GetNodeName (c : ClusterConfigure) : string := if decide (NodeName c = ""%string) then "node0"%string else NodeName c.
Definition ClusterNodeName (c : ConferenceConfigure) : string := GetNodeName (Cluster c).

(** ** Validation *)

Definition InvalidConfig : gerror := EConf 14000.
Definition requiredString (value : string) : option gerror := if decide (value = ""%string) then Some InvalidConfig else None.
Definition requiredInt (value : Z) : option gerror := if value =? 0 then Some InvalidConfig else None.
Definition Kafka_Validate (c : KafkaConfigure) : option gerror := requiredString (kf_Addrs c).

(** [if err != nil { return err }] *)
Definition or_else (err : option gerror) (k : option gerror) : option gerror := match err with Some e => Some e | None => k end.

Definition Validate (c : ConferenceConfigure) : option gerror :=
  or_else (requiredString (HostOrIp c))
  (or_else (if ClusterEnable c then
              or_else (requiredInt (RouterPort c))
              (or_else (if cl_Enable (Cluster c) then requiredString (ClusterNodeName c) else None)
               (Kafka_Validate (Kafka (Cluster c))))
            else None)
   (if rc_Enable (Record_ c) && di_Enable (DBIndex (Record_ c)) then
      or_else (requiredString (MongoUrl (DBIndex (Record_ c)))) (requiredString (Database (DBIndex (Record_ c))))
    else None)).

(** ** Splitting *)

Definition set_node (enable : bool) (name : string) (rport sport : Z) (c : ConferenceConfigure) : ConferenceConfigure :=
  {| HostOrIp := HostOrIp c; Router_ := {| ro_HostOrIp := ro_HostOrIp (Router_ c); ro_Port := rport |}; WebRTC := WebRTC c;
     Prometheus := Prometheus c; AuthServer := AuthServer c; SecretKey := SecretKey c; Log := Log c; Record_ := Record_ c;
     Callback := Callback c;
     Signal := let s := Signal c in
       {| sg_Enable := sg_Enable s; sg_HostOrIp := sg_HostOrIp s; sg_Port := sport; sg_Cors := sg_Cors s; AsyncSendMsg := AsyncSendMsg s;
          sg_Tls := sg_Tls s; MsgTimeoutMs := MsgTimeoutMs s; MsgTimeoutRetries := MsgTimeoutRetries s; gin_Debug := gin_Debug s;
          gin_NoRequestLog := gin_NoRequestLog s; sg_Healthy := sg_Healthy s; sg_Prometheus := sg_Prometheus s |};
     Cluster := let k := Cluster c in
       {| cl_Enable := enable; Kafka := Kafka k; Redis := Redis k; NodeName := name; Debug := Debug k |} |}.

(** The configuration of replica [i]. *)
Definition replica (c : ConferenceConfigure) (offsetMult i : Z) : ConferenceConfigure :=
  set_node true
    (if decide (NodeName (Cluster c) = ""%string) then ("node" +:+ FormatInt i)%string else (NodeName (Cluster c) +:+ "-" +:+ FormatInt i)%string)
    (i64 (RouterPort c + i64 (offsetMult * i))) (i64 (SignalPort c + i64 (offsetMult * i))) c.

Definition Split_ (c : ConferenceConfigure) : run (list ConferenceConfigure) :=
  if negb (db_Enable (Debug (Cluster c))) then Ret [c]
  else
    let replicas := if Replicas (Debug (Cluster c)) =? 0 then 2 else Replicas (Debug (Cluster c)) in
    let offsetMult := if PortOffset (Debug (Cluster c)) =? 0 then 1 else PortOffset (Debug (Cluster c)) in
    if replicas <? 0 then go_panic (PMsg "makeslice: len out of range")
    else Ret ((fun i => replica c offsetMult (Z.of_nat i)) <$> seq 0 (Z.to_nat replicas)).

(** The flags the command line takes. *)
Definition KEYS : list string := [
  "hostOrIp:string";
  "prometheus.enable:bool";
  "prometheus.namespace:string";
  "prometheus.subsystem:string";
  "prometheus.goCollectors:bool";
  "signal.enable:bool";
  "signal.hostOrIp:string";
  "signal.port:int";
  "signal.tls.enable:bool";
  "signal.tls.cert:string";
  "signal.tls.key:string";
  "signal.cors:string";
  "signal.asyncSendMsg:bool";
  "signal.msgTimeoutMs:int";
  "signal.msgTimeoutRetries:int";
  "signal.gin.debug:bool";
  "signal.gin.noRequestLog:bool";
  "signal.healthy.enable:bool";
  "signal.healthy.failureThreshold:int";
  "signal.healthy.path:string";
  "signal.prometheus.enable:bool";
  "signal.prometheus.namespace:string";
  "signal.prometheus.subsystem:string";
  "router.hostOrIp:string";
  "router.port:int";
  "webrtc.iceServer.urls:string";
  "webrtc.iceServer.username:string";
  "webrtc.iceServer.credential:string";
  "webrtc.iceServer.credentialType:string";
  "webrtc.iceTransportPolicy:string";
  "authServer.enable:bool";
  "authServer.host:string";
  "authServer.port:int";
  "authServer.ssl:bool";
  "authServer.certPath:string";
  "authServer.keyPath:string";
  "authServer.cors:string";
  "authServer.healthy.enable:bool";
  "authServer.healthy.failureThreshold:int";
  "authServer.healthy.path:string";
  "secretKey:string";
  "log.profile:string";
  "log.level:string";
  "log.file:string";
  "record.enable:bool";
  "record.basePath:string";
  "record.dirPath:string";
  "record.indexName:string";
  "record.segmentDuration:int";
  "record.gopSize:int";
  "record.dbIndex.enable:bool";
  "record.dbIndex.mongoUrl:string";
  "record.dbIndex.database:string";
  "record.dbIndex.collection:string";
  "record.dbIndex.key:string";
  "record.dbIndex.auth.user:string";
  "record.dbIndex.auth.pass:string";
  "callback.onStart:string";
  "callback.onClose:string";
  "callback.onConnecting:string";
  "callback.intervalMs:int";
  "cluster.enable:bool";
  "cluster.nodeName:string";
  "cluster.kafka.addrs:string";
  "cluster.kafka.topicPrefix:string";
  "cluster.kafka.sasl.enable:bool";
  "cluster.kafka.sasl.method:string";
  "cluster.kafka.sasl.user:string";
  "cluster.kafka.sasl.pass:string";
  "cluster.kafka.tls.enable:bool";
  "cluster.kafka.tls.ca:string";
  "cluster.kafka.tls.cert:string";
  "cluster.kafka.tls.key:string";
  "cluster.kafka.prometheus.enable:bool";
  "cluster.kafka.prometheus.namespace:string";
  "cluster.kafka.prometheus.subsystem:string";
  "cluster.kafka.maxBufferedRecords:int";
  "cluster.kafka.maxBufferedBytes:int";
  "cluster.kafka.maxConcurrentFetches:int";
  "cluster.kafka.fetchMaxBytes:int";
  "cluster.kafka.batchMaxBytes:int";
  "cluster.kafka.noIdempotency:bool";
  "cluster.kafka.lingerMs:int";
  "cluster.kafka.compression:string";
  "cluster.redis.mode:string";
  "cluster.redis.addrs:string";
  "cluster.redis.users:string";
  "cluster.redis.passes:string";
  "cluster.redis.keyPrefix:string";
  "cluster.redis.masterName:string";
  "cluster.debug.enable:bool";
  "cluster.debug.replicas:int";
  "cluster.debug.portOffset:int"
]%string.

(** ** Properties *)

Lemma requiredString_none v : requiredString v = None <-> v <> ""%string.
Proof. unfold requiredString. case_decide; naive_solver. Qed.
Lemma requiredInt_none v : requiredInt v = None <-> v <> 0.
Proof. unfold requiredInt. destruct (Z.eqb_spec v 0); naive_solver. Qed.
Lemma or_else_none a b : or_else a b = None <-> a = None /\ b = None.
Proof. destruct a; naive_solver. Qed.

Lemma GetNodeName_ne k : GetNodeName k <> ""%string.
Proof. unfold GetNodeName. by case_decide. Qed.

(** What a configuration needs. *)
Definition complete (c : ConferenceConfigure) : Prop :=
  HostOrIp c <> ""%string /\
  (ClusterEnable c = true -> RouterPort c <> 0 /\ kf_Addrs (Kafka (Cluster c)) <> ""%string) /\
  (rc_Enable (Record_ c) = true -> di_Enable (DBIndex (Record_ c)) = true ->
     MongoUrl (DBIndex (Record_ c)) <> ""%string /\ Database (DBIndex (Record_ c)) <> ""%string).

Lemma Validate_none c : Validate c = None <-> complete c.
Proof.
  assert (requiredString (ClusterNodeName c) = None) as Hn by (apply requiredString_none, GetNodeName_ne).
  unfold Validate, complete. rewrite Hn, or_else_none, requiredString_none, or_else_none.
  destruct (ClusterEnable c), (cl_Enable (Cluster c)), (rc_Enable (Record_ c)), (di_Enable (DBIndex (Record_ c))); cbn [andb];
    unfold Kafka_Validate; rewrite ?or_else_none, ?requiredString_none, ?requiredInt_none; naive_solver.
Qed.

(** A configuration is accepted exactly when it has an external host; in a
    cluster, a router port and the addresses of Kafka; and, when recordings
    are indexed, the url and the name of the database ([complete]).  Every
    error is an invalid configuration.  The node name is never missing, since
    it has a default. *)
Theorem Validate_correct c :
  (Validate c = None <-> complete c) /\ (forall e, Validate c = Some e -> e = InvalidConfig).
Proof.
  split; [apply Validate_none|]. intros e. unfold Validate, Kafka_Validate, or_else, requiredString, requiredInt.
  repeat case_match; naive_solver.
Qed.

Lemma app_string_inj (a x y : string) : (a +:+ x)%string = (a +:+ y)%string -> x = y.
Proof. induction a as [|c a IH]; [done|]. rewrite !app_string_cons. intros [= H]. auto. Qed.

Lemma FormatInt_inj x y : 0 <= x -> 0 <= y -> FormatInt x = FormatInt y -> x = y.
Proof. unfold FormatInt. intros Hx Hy. rewrite !decide_False by lia. by apply FormatUint_inj. Qed.

Lemma replica_name c k i j : 0 <= i -> 0 <= j -> ClusterNodeName (replica c k i) = ClusterNodeName (replica c k j) -> i = j.
Proof.
  intros Hi Hj. unfold ClusterNodeName, GetNodeName, replica, set_node. cbn [Cluster NodeName].
  set (pre := if decide (NodeName (Cluster c) = ""%string) then "node"%string else (NodeName (Cluster c) +:+ "-")%string).
  assert (forall n, (if decide (NodeName (Cluster c) = ""%string) then ("node" +:+ FormatInt n)%string
                     else (NodeName (Cluster c) +:+ "-" +:+ FormatInt n)%string) = (pre +:+ FormatInt n)%string) as E.
  { intros n. subst pre. case_decide; [done|]. by rewrite app_string_assoc. }
  assert (forall n, (pre +:+ FormatInt n)%string <> ""%string) as Hne.
  { intros n. subst pre. case_decide; [done|]. by destruct (NodeName (Cluster c)). }
  rewrite !E, !decide_False by apply Hne. intros H. by apply FormatInt_inj, (app_string_inj pre).
Qed.

Lemma NoDup_replicas {B} (g : Z -> B) n :
  (forall i j, 0 <= i < Z.of_nat n -> 0 <= j < Z.of_nat n -> g i = g j -> i = j) -> NoDup ((fun i => g (Z.of_nat i)) <$> seq 0 n).
Proof.
  intros Hg. apply NoDup_fmap_2_strong; [|apply NoDup_seq]. intros i j Hi%elem_of_seq Hj%elem_of_seq He.
  apply Nat2Z.inj, Hg; [lia..|done].
Qed.

(** A cluster in one process.  A valid configuration whose ports stay in
    the range of port numbers splits into as many nodes as it asks for (two by
    default); each is valid and in cluster mode, and no two share a node name, a router
    address or a listening address.  Without debugging it stays one. *)
Theorem Split_correct c :
  let d := Debug (Cluster c) in
  let n := if Replicas d =? 0 then 2 else Replicas d in
  let k := if PortOffset d =? 0 then 1 else PortOffset d in
  Validate c = None -> 0 < n -> 0 < k -> 0 < RouterPort c -> RouterPort c + k * n <= 65536 -> 0 < SignalPort c -> SignalPort c + k * n <= 65536 ->
  (db_Enable d = false -> Split_ c = Ret [c]) /\
  (db_Enable d = true ->
   exists cfgs, Split_ c = Ret cfgs /\ Z.of_nat (length cfgs) = n /\
     Forall (fun c' => Validate c' = None /\ cl_Enable (Cluster c') = true) cfgs /\
     NoDup (ClusterNodeName <$> cfgs) /\ NoDup (RouterExternalAddress <$> cfgs) /\ NoDup (SignalListenAddress <$> cfgs)).
Proof.
  intros d n k Hv Hn Hk Hr Hrb Hs Hsb. unfold Split_. fold d. fold n k. split; [by intros ->|]. intros Hd. rewrite Hd. cbn [negb].
  rewrite (proj2 (Z.ltb_ge n 0)) by lia. eexists. split; [done|]. split; [rewrite length_fmap, length_seq; lia|].
  assert (forall i, 0 <= i < Z.of_nat (Z.to_nat n) ->
    RouterPort (replica c k i) = RouterPort c + k * i /\ SignalPort (replica c k i) = SignalPort c + k * i /\
    0 < RouterPort c + k * i /\ 0 < SignalPort c + k * i) as Hp.
  { intros i Hi. assert (0 <= k * i <= k * n) by nia. unfold replica, set_node.
    assert (i64 (k * i) = k * i) as -> by (apply i64_id; unfold is_i64; lia).
    assert (i64 (SignalPort c + k * i) = SignalPort c + k * i) as Es by (apply i64_id; unfold is_i64; lia). rewrite Es.
    assert (i64 (RouterPort c + k * i) = RouterPort c + k * i) as -> by (apply i64_id; unfold is_i64; lia). split_and!; [done| |lia..].
    unfold SignalPort at 1. cbn [Signal sg_Port sg_Tls]. by rewrite (proj2 (Z.eqb_neq _ 0)) by lia. }
  split.
  - apply Forall_fmap, Forall_forall. intros i Hi%elem_of_seq. split; [|done]. destruct (Hp (Z.of_nat i)) as (E1 & _ & H1 & _); [lia|].
    apply Validate_none in Hv as (V1 & V2 & V3). apply Validate_none. split_and!; [done| |done]. intros _.
    assert (ClusterEnable c = true) as Hc by (unfold ClusterEnable; fold d; by rewrite Hd, orb_true_r).
    split; [rewrite E1; lia|by apply V2].
  - rewrite <- !list_fmap_compose. split_and!; apply (NoDup_replicas (fun i => _ (replica c k i))); intros i j Hi Hj.
    + apply replica_name; lia.
    + destruct (Hp i Hi) as (Ei & _ & ? & _), (Hp j Hj) as (Ej & _ & ? & _). unfold RouterExternalAddress. rewrite Ei, Ej. intros He.
      apply (app_string_inj (HostOrIp c)), (app_string_inj ":"), FormatInt_inj in He; nia.
    + destruct (Hp i Hi) as (_ & Ei & _ & ?), (Hp j Hj) as (_ & Ej & _ & ?). unfold SignalListenAddress. rewrite Ei, Ej. intros He.
      apply (app_string_inj (SignalListenHostOrIp c)), (app_string_inj ":"), FormatInt_inj in He; nia.
Qed.

(** The paths of the flags are all different, and each names its type. *)
Definition colon : Ascii.ascii := Ascii.ascii_of_nat 58.

Lemma KEYS_ok :
  NoDup (fst <$> omap (cut_at colon) KEYS) /\ length (omap (cut_at colon) KEYS) = length KEYS /\
  Forall (fun k => k.2 ∈ ["string"; "int"; "bool"]%string) (omap (cut_at colon) KEYS).
Proof. apply (bool_decide_unpack _). vm_compute. exact I. Qed.

(** ** Witnesses *)

Definition no_prom : PrometheusConfigure := {| pr_Enable := false; pr_Namespace := ""; pr_Subsystem := ""; pr_GoCollectors := false |}.
Definition no_health : HealthyConfigure := {| he_Enable := false; FailureThreshold := 3; he_Path := "" |}.
Definition debug_config : ConferenceConfigure :=
  {| HostOrIp := "10.0.0.1"; Router_ := {| ro_HostOrIp := ""; ro_Port := 4321 |};
     WebRTC := {| JitterBuffer := true; ICEServer := {| URLs := ""; ic_Username := ""; ic_Credential := ""; ic_CredentialType := "" |};
                  ICETransportPolicy := "" |};
     Prometheus := no_prom;
     AuthServer := {| au_Enable := true; au_Host := "localhost"; au_Port := 3100; Ssl := false; CertPath := ""; KeyPath := ""; au_Cors := "";
                      au_Healthy := no_health |};
     SecretKey := "123456"; Log := {| Profile := ""; Level := "info"; lg_File := "" |};
     Record_ := {| rc_Enable := false; BasePath := ""; DirPath := ""; IndexName := ""; SegmentDuration := 6; GopSize := 3;
                   DBIndex := {| di_Enable := false; MongoUrl := ""; Database := ""; Collection := ""; di_Key := ""; di_User := ""; di_Pass := "" |} |};
     Callback := {| OnStart := ""; OnClose := ""; OnConnecting := ""; IntervalMs := 60000 |};
     Signal := {| sg_Enable := true; sg_HostOrIp := ""; sg_Port := 0; sg_Cors := ""; AsyncSendMsg := false;
                  sg_Tls := {| st_Enable := false; st_Cert := ""; st_Key := "" |}; MsgTimeoutMs := 6000; MsgTimeoutRetries := 10;
                  gin_Debug := false; gin_NoRequestLog := false; sg_Healthy := no_health; sg_Prometheus := no_prom |};
     Cluster := {| cl_Enable := false;
                   Kafka := {| kf_Addrs := "k:9092"; kf_TopicPrefix := "cfgo_";
                               kf_Sasl := {| sl_Enable := false; sl_Method := ""; sl_User := ""; sl_Pass := "" |};
                               kf_Tls := {| kt_Enable := false; kt_Ca := ""; kt_Cert := ""; kt_Key := "" |}; kf_Prometheus := no_prom;
                               MaxBufferedRecords := 0; MaxBufferedBytes := 0; MaxConcurrentFetches := 0; FetchMaxBytes := 0;
                               BatchMaxBytes := 0; NoIdempotency := false; LingerMs := 0; Compression := "none" |};
                   Redis := {| rd_Mode := "auto"; rd_Addrs := ""; rd_Users := ""; rd_Passes := ""; rd_KeyPrefix := ""; rd_MasterName := "" |};
                   NodeName := ""; Debug := {| db_Enable := true; Replicas := 3; PortOffset := 10 |} |} |}.

Lemma Split_correct_witness :
  exists cfgs, Split_ debug_config = Ret cfgs /\ SignalListenAddress <$> cfgs = ["10.0.0.1:8080"; "10.0.0.1:8090"; "10.0.0.1:8100"]%string /\
    NoDup (ClusterNodeName <$> cfgs).
Proof.
  destruct (Split_correct debug_config) as [_ Hs]; [reflexivity|cbn; lia..|].
  destruct (Hs eq_refl) as (cfgs & E & _ & _ & Hn & _). exists cfgs. split; [exact E|]. split; [|exact Hn].
  cbn in E. injection E as <-. vm_compute. reflexivity.
Defined.

(** The check of the node name never fails: two nodes of a cluster that are
    not named are both called node0. *)
Lemma nodeName_unchecked :
  forall c, NodeName (Cluster c) = ""%string -> ClusterNodeName c = "node0"%string /\ requiredString (ClusterNodeName c) = None.
Proof. intros c Hc. unfold ClusterNodeName, GetNodeName. by rewrite Hc. Qed.

(** A negative number of replicas panics. *)
Lemma negative_replicas c :
  db_Enable (Debug (Cluster c)) = true -> Replicas (Debug (Cluster c)) < 0 -> Split_ c = go_panic (PMsg "makeslice: len out of range").
Proof.
  intros Hd Hn. unfold Split_. rewrite Hd. cbn [negb]. rewrite (proj2 (Z.eqb_neq _ 0)) by lia. by rewrite (proj2 (Z.ltb_lt _ 0)).
Qed.
