(* ===== verification/Log.v ===== *)
(** * Log: the adapters of the logger ([log/main.go]) and the log of sent messages ([signal/messager.go])

    A logger is the list of the entries it has written, above its level.  The
    libraries pion and franz-go log through adapters, which translate levels
    and fields.  [fmt.Sprintf] is a parameter; a call of a formatting function
    is the format with its operands. *)
From S2P Require Import Prelude GoStrings Errors Config Messages.
Local Open Scope string_scope.
Local Open Scope Z_scope.
Local Open Scope list_scope.

(** [zapcore.Level] and [kgo.LogLevel]. *)
Inductive zap_level := DebugLevel | InfoLevel | WarnLevel | ErrorLevel | DPanicLevel | PanicLevel | FatalLevel.
Inductive kgo_level := LogLevelNone | LogLevelError | LogLevelWarn | LogLevelInfo | LogLevelDebug.

#[global] Instance zap_level_eq_dec : EqDecision zap_level.
Proof. solve_decision. Defined.

Definition zap_rank (l : zap_level) : Z :=
  match l with DebugLevel => -1 | InfoLevel => 0 | WarnLevel => 1 | ErrorLevel => 2 | DPanicLevel => 3 | PanicLevel => 4 | FatalLevel => 5 end.
Definition kgo_rank (l : kgo_level) : Z :=
  match l with LogLevelNone => 0 | LogLevelError => 1 | LogLevelWarn => 2 | LogLevelInfo => 3 | LogLevelDebug => 4 end.

Definition zapLvl2KgoLevel (lvl : zap_level) : kgo_level :=
  if decide (lvl = DebugLevel) then LogLevelDebug
  else if decide (lvl = InfoLevel) then LogLevelInfo
  else if decide (lvl = WarnLevel) then LogLevelWarn
  else LogLevelError.

(** The zero value of a level is [InfoLevel]. *)
Definition kgoLevel2ZapLvl (level : kgo_level) : zap_level :=
  match level with
  | LogLevelDebug => DebugLevel | LogLevelInfo => InfoLevel | LogLevelWarn => WarnLevel | LogLevelError => ErrorLevel | LogLevelNone => InfoLevel
  end.

(** Levels survive the way through franz-go, and the two orders, which run in opposite directions, agree. *)
Lemma level_roundtrip l : l <> LogLevelNone -> zapLvl2KgoLevel (kgoLevel2ZapLvl l) = l.
Proof. by destruct l. Qed.

Lemma level_order lvl l :
  l <> LogLevelNone -> zap_rank lvl <= zap_rank ErrorLevel -> (zap_rank lvl <= zap_rank (kgoLevel2ZapLvl l) <-> kgo_rank l <= kgo_rank (zapLvl2KgoLevel lvl)).
Proof. intros Hl He. destruct l, lvl; cbn in *; done || lia. Qed.

Section Adapters.
Context {any : Type} (as_string : any -> option string) (Sprintf : string -> list any -> string).

(** ** Loggers *)

Record entry := { e_level : zap_level; e_msg : string; e_fields : list (string * any) }.
Record logger := { lg_level : zap_level; lg_entries : list entry }.

Definition zap_Log (lvl : zap_level) (msg : string) (fields : list (string * any)) (l : logger) : logger :=
  if decide (zap_rank (lg_level l) <= zap_rank lvl)
  then {| lg_level := lg_level l; lg_entries := lg_entries l ++ [{| e_level := lvl; e_msg := msg; e_fields := fields |}] |} else l.

(** A sugared logger formats only when there are operands. *)
Definition sugar_Logf (lvl : zap_level) (format : string) (args : list any) (l : logger) : logger :=
  zap_Log lvl (match args with [] => format | _ => Sprintf format args end) [] l.

(** ** pion *)

(** The ten methods of [logging.LeveledLogger], with a message or a format. *)
Inductive pion_level := PTrace | PDebug | PInfo | PWarn | PError.
Definition pion_zap (l : pion_level) : zap_level :=
  match l with PTrace => DebugLevel | PDebug => DebugLevel | PInfo => InfoLevel | PWarn => WarnLevel | PError => ErrorLevel end.

(** A pointer to the adapter and the pointer in it; either may be nil. *)
Definition PionLogger_log (lvl : pion_level) (msg : string) (pl : option (option logger)) : option (option logger) :=
  match pl with Some (Some l) => Some (Some (zap_Log (pion_zap lvl) msg [] l)) | _ => pl end.
Definition PionLogger_logf (lvl : pion_level) (format : string) (args : list any) (pl : option (option logger)) : option (option logger) :=
  match pl with Some (Some l) => Some (Some (zap_Log (pion_zap lvl) (Sprintf format args) [] l)) | _ => pl end.
Definition PionSugar_log (lvl : pion_level) (msg : string) (ps : option (option logger)) : option (option logger) :=
  match ps with Some (Some l) => Some (Some (zap_Log (pion_zap lvl) msg [] l)) | _ => ps end.
Definition PionSugar_logf (lvl : pion_level) (format : string) (args : list any) (ps : option (option logger)) : option (option logger) :=
  match ps with Some (Some l) => Some (Some (sugar_Logf (pion_zap lvl) format args l)) | _ => ps end.

(** The two adapters write the same entries, given that a format without operands stands for itself. *)
Lemma pion_adapters_agree lvl format args p :
  (args = [] -> Sprintf format [] = format) -> PionLogger_logf lvl format args p = PionSugar_logf lvl format args p.
Proof. intros Hf. destruct p as [[l|]|]; [|done..]. cbn. unfold sugar_Logf. destruct args; [by rewrite Hf|done]. Qed.

(** ** franz-go *)

(** The pairs of keys and values, two by two. *)
Fixpoint kv_fields (keyvals : list any) : list (string * any) + gerror :=
  match keyvals with
  | [] => inl []
  | k :: v :: keyvals =>
      match as_string k with
      | None => inr (EOther "key must be string")
      | Some key => match kv_fields keyvals with inl fs => inl ((key, v) :: fs) | inr e => inr e end
      end
  | _ => inr (EOther "wrong keyvals num")
  end.

Definition kgoKeyVals2ZapFields (keyvals : list any) : list (string * any) + gerror :=
  if Nat.odd (length keyvals) then inr (EOther "wrong keyvals num") else kv_fields keyvals.

Definition KgoLogger_Level (kl : logger) : kgo_level := zapLvl2KgoLevel (lg_level kl).
Definition KgoLogger_Log (level : kgo_level) (msg : string) (keyvals : list any) (kl : logger) : run logger :=
  match kgoKeyVals2ZapFields keyvals with
  | inr err => err_panic err
  | inl fields => Ret (zap_Log (kgoLevel2ZapLvl level) msg fields kl)
  end.

(** A list of an even length whose keys are strings is logged with its pairs in order; any other list ends the program. *)
Lemma kv_fields_pairs (kvs : list (string * any)) (str : string -> any) :
  (forall s, as_string (str s) = Some s) -> kgoKeyVals2ZapFields (kvs ≫= fun kv => [str kv.1; kv.2]) = inl kvs.
Proof.
  intros Hs. unfold kgoKeyVals2ZapFields. replace (Nat.odd _) with false.
  - induction kvs as [|[k v] kvs IH]; [done|]. cbn. by rewrite Hs, IH.
  - symmetry. induction kvs as [|[k v] kvs IH]; [done|]. cbn. exact IH.
Qed.

Lemma kv_fields_panics k v keyvals msg level kl :
  Nat.odd (length keyvals) = false -> as_string k = None -> KgoLogger_Log level msg (k :: v :: keyvals) kl = go_panic (PMsg "key must be string").
Proof. intros Hl Hk. unfold KgoLogger_Log, kgoKeyVals2ZapFields. replace (Nat.odd (length (k :: v :: keyvals))) with false by done. cbn. by rewrite Hk. Qed.

(** [KgoSugar], which nothing uses: zap makes the fields of the list itself, and what it does with a list that is not
    one of pairs is zap's own ([sweeten]). *)
Section Sugar.
Context (sweeten : list any -> list (string * any)).

Definition KgoSugar_Level (kl : logger) : kgo_level := zapLvl2KgoLevel (lg_level kl).
Definition KgoSugar_Log (level : kgo_level) (msg : string) (keyvals : list any) (kl : logger) : logger :=
  zap_Log (kgoLevel2ZapLvl level) msg (sweeten keyvals) kl.

(** On pairs, which zap documents to become fields, both adapters log the same. *)
Lemma kgo_adapters_agree (str : string -> any) level msg (kvs : list (string * any)) kl :
  (forall s, as_string (str s) = Some s) -> (forall l, sweeten (l ≫= fun kv => [str kv.1; kv.2]) = l) ->
  KgoLogger_Log level msg (kvs ≫= fun kv => [str kv.1; kv.2]) kl = Ret (KgoSugar_Log level msg (kvs ≫= fun kv => [str kv.1; kv.2]) kl).
Proof. intros Hs Hz. unfold KgoLogger_Log, KgoSugar_Log. by rewrite kv_fields_pairs, Hz by done. Qed.
End Sugar.
End Adapters.

(** ** Starting the log *)

Record zap_config := { zc_development : bool; zc_level : zap_level; zc_outputs : option (list string) }.

(** [log.Init]: the level is parsed by zap, the logger built by it; both may fail. *)
Definition log_Init (level : zap_level + gerror) (profile : LogProfile_) (file : string) (build : zap_config -> option gerror) : run zap_config :=
  match level with
  | inr err => err_panic err
  | inl lvl =>
      let cfg := {| zc_development := match profile with LOG_PROFILE_DEVELOPMENT => true | LOG_PROFILE_PRODUCTION => false end;
                    zc_level := lvl; zc_outputs := if decide (file = "") then None else Some [file] |} in
      match build cfg with Some err => err_panic err | None => Ret cfg end
  end.

(** ** The log of sent messages *)

(** [logEmitMsg]: the format and its operands for the router of a message; the type of the message and the message itself are [ty] and [m]. *)
Definition logEmitMsg {any : Type} (str : string -> any) (ty : string) (m : any) (router : option Router) : string * list any :=
  let r := default zero_router router in
  let s f := str (f r) in
  if decide (NodeTo r <> "") then
    if decide (SocketFrom r <> "") then
      if decide (SocketTo r <> "") then
        ("send %s msg from socket %s in node %s to socket %s in room %s of node %s, msg: %v",
         [str ty; s SocketFrom; s NodeFrom; s SocketTo; s Room; s NodeTo; m])
      else ("send %s msg from socket %s in node %s to room %s of node %s, msg: %v", [str ty; s SocketFrom; s NodeFrom; s Room; s NodeTo; m])
    else
      if decide (SocketTo r <> "") then
        ("send %s msg from node %s to socket %s in room %s of node %s, msg: %v", [str ty; s NodeFrom; s SocketTo; s Room; s NodeTo; m])
      else ("send %s msg from node %s to room %s of node %s, msg: %v", [str ty; s NodeFrom; s Room; s NodeTo; m])
  else
    if decide (SocketFrom r <> "") then
      if decide (SocketTo r <> "") then
        ("send %s msg from socket %s in node %s to socket %s in room %s, msg: %v", [str ty; s SocketFrom; s NodeFrom; s SocketTo; s Room; m])
      else ("send %s msg from socket %s in node %s to room %s, msg: %v", [str ty; s SocketFrom; s NodeFrom; s Room; m])
    else
      if decide (SocketTo r <> "") then
        ("send %s msg from node %s to socket %s in room %s, msg: %v", [str ty; s NodeFrom; s SocketTo; s Room; m])
      else ("send %s msg from node %s to room %s, msg: %v", [str ty; s NodeFrom; s Room; m]).

(** The verbs of a format. *)
Fixpoint verbs (s : string) : nat :=
  match s with
  | "" => 0
  | String c s =>
      if decide (c = Ascii.ascii_of_nat 37) then
        match s with String d s => if decide (d = Ascii.ascii_of_nat 37) then verbs s else S (verbs s) | "" => 0 end
      else verbs s
  end%string%nat.

(** Every format has as many verbs as operands. *)
Lemma logEmitMsg_operands {any} (str : string -> any) ty m router :
  let '(format, args) := logEmitMsg str ty m router in verbs format = length args.
Proof. unfold logEmitMsg. cbv zeta. repeat case_decide; reflexivity. Qed.

(** The sockets and nodes that are known are named in the entry, and each in the order of the format. *)
Lemma logEmitMsg_names {any} (str : string -> any) ty m r :
  let args := (logEmitMsg str ty m (Some r)).2 in
  (SocketFrom r <> "" -> str (SocketFrom r) ∈ args) /\ (SocketTo r <> "" -> str (SocketTo r) ∈ args) /\
  (NodeTo r <> "" -> str (NodeTo r) ∈ args) /\ str (NodeFrom r) ∈ args /\ str (Room r) ∈ args.
Proof. unfold logEmitMsg. cbn [default]. cbv zeta. repeat case_decide; cbn [snd]; split_and!; intros; try done; set_solver. Qed.

(** The message that the router's server has started has an operand and no verb for it; that of a bad configuration has %w, which only [fmt.Errorf] knows. *)
Lemma server_log_extra : verbs "start server on " = 0%nat.
Proof. reflexivity. Qed.
