(* ===== verification/Kafka.v ===== *)
(** * Kafka: the options of the client and the consumers of partitions ([signal/kafka.go])

    One goroutine consumes each assigned partition.  A step of the model is a
    call-back of the Kafka library ([assigned], [revoked], [lost]), one
    partition of one poll, or one iteration of a consumer.  A closed consumer
    may still take some of its batches before it sees that it has to quit, so
    [killConsumers] is given how many each takes.  The session of a partition
    is kept after it ended ([sessions]); its fields [polled] and [marked] are
    what came from the library and what was marked for commit. *)
From S2P Require Import Prelude GoStrings Collection Config.
Local Open Scope Z_scope.
Local Open Scope list_scope.

(** ** The client's options *)

Definition comma : Ascii.ascii := Ascii.ascii_of_nat 44.

Definition parseKafkaAddrs (addrs : string) : list string :=
  default [] (SliceMapNew (Some (Split comma addrs))
    (fun addr => let addr := TrimSpace addr in if decide (addr = ""%string) then (addr, true) else (addr, false))).

Definition NormStringOpt (opt : string) : string := TrimSpace (ToLower opt).

(** [strings.ReplaceAll(s, c, "")] *)
Fixpoint remove_char (c : Ascii.ascii) (s : string) : string :=
  match s with
  | EmptyString => EmptyString
  | String a s => if decide (a = c) then remove_char c s else String a (remove_char c s)
  end.

Inductive compression := NoCompression | Gzip | Snappy | Lz4 | Zstd.
Inductive mechanism := Plain | ScramSha256 | ScramSha512 | AwsMskIam.

Inductive kopt :=
  | SeedBrokers (addrs : list string)
  | OMaxBufferedRecords (n : Z) | OMaxBufferedBytes (n : Z) | OFetchMaxBytes (n : Z) | OBatchMaxBytes (n : Z)
  | DisableIdempotentWrite | ProducerLinger (ns : Z) | ProducerBatchCompression (c : compression)
  | DialTLSConfig | DialTLS | SASL (m : mechanism) (user pass : string)
  | Callbacks | ConsumerGroup (g : string) | ConsumeTopics (l : list string).

Definition opt_if (b : bool) (o : kopt) : list kopt := if b then [o] else [].

Definition compression_of (s : string) : option compression :=
  let s := NormStringOpt s in
  if decide (s = ""%string \/ s = "none"%string) then Some NoCompression
  else if decide (s = "gzip"%string) then Some Gzip
  else if decide (s = "snappy"%string) then Some Snappy
  else if decide (s = "lz4"%string) then Some Lz4
  else if decide (s = "zstd"%string) then Some Zstd
  else None.

Definition dash : Ascii.ascii := Ascii.ascii_of_nat 45.
Definition underscore : Ascii.ascii := Ascii.ascii_of_nat 95.

Definition mechanism_of (s : string) : option mechanism :=
  let s := remove_char underscore (remove_char dash s) in
  if decide (s = "plain"%string) then Some Plain
  else if decide (s = "scramsha256"%string) then Some ScramSha256
  else if decide (s = "scramsha512"%string) then Some ScramSha512
  else if decide (s = "awsmskiam"%string) then Some AwsMskIam
  else None.

(** The options, [inl None] for the nil client without addresses, or the error.
    [tls_ok] is whether the files of the TLS configuration can be used. *)
Definition NewKafkaClient (conf : KafkaConfigure) (tls_ok : bool) (group : string) (topics : list string) : option (list kopt) + gerror :=
  let addrs := parseKafkaAddrs (kf_Addrs conf) in
  match addrs with
  | [] => inl None
  | _ =>
      let opts := [SeedBrokers addrs] ++
        opt_if (0 <? MaxBufferedRecords conf) (OMaxBufferedRecords (MaxBufferedRecords conf)) ++
        opt_if (0 <? MaxBufferedBytes conf) (OMaxBufferedBytes (MaxBufferedBytes conf)) ++
        opt_if (0 <? FetchMaxBytes conf) (OFetchMaxBytes (i32 (FetchMaxBytes conf))) ++
        opt_if (0 <? BatchMaxBytes conf) (OBatchMaxBytes (i32 (BatchMaxBytes conf))) ++
        opt_if (NoIdempotency conf) DisableIdempotentWrite ++
        opt_if (0 <? LingerMs conf) (ProducerLinger (i64 (i64 (LingerMs conf * 1000) * 1000))) in
      match compression_of (Compression conf) with
      | None => inr InvalidConfig
      | Some c =>
          let opts := opts ++ [ProducerBatchCompression c] in
          let tls := kf_Tls conf in
          let files := negb (bool_decide (kt_Ca tls = ""%string)) || negb (bool_decide (kt_Cert tls = ""%string)) ||
                       negb (bool_decide (kt_Key tls = ""%string)) in
          if kt_Enable tls && files && negb tls_ok then inr InvalidConfig
          else
            let opts := opts ++ opt_if (kt_Enable tls) (if files then DialTLSConfig else DialTLS) in
            let sasl := kf_Sasl conf in
            let rest := [Callbacks] ++ opt_if (negb (bool_decide (group = ""%string))) (ConsumerGroup group) ++
                        match topics with [] => [] | _ => [ConsumeTopics topics] end in
            if sl_Enable sasl then
              let method := NormStringOpt (sl_Method sasl) in
              if decide (method = ""%string \/ sl_User sasl = ""%string \/ sl_Pass sasl = ""%string) then inr InvalidConfig
              else match mechanism_of method with
                   | None => inr InvalidConfig
                   | Some m => inl (Some (opts ++ [SASL m (sl_User sasl) (sl_Pass sasl)] ++ rest))
                   end
            else inl (Some (opts ++ rest))
      end
  end.

(** ** Consumers *)

Section Consumers.
(** A record of a partition. *)
Context {R : Type}.

Definition tp : Type := string * Z.

(** [recs] is the buffered channel: at most five batches. *)
Record session := { polled : list R; processed : list R; marked : list R; recs : list (list R) }.
Definition new_session : session := {| polled := []; processed := []; marked := []; recs := [] |}.

Record KafkaClient := { consumers : gmap tp session; workers : option (gset string); sessions : list (tp * session) }.

Definition set_consumers (c : gmap tp session) (k : KafkaClient) : KafkaClient :=
  {| consumers := c; workers := workers k; sessions := sessions k |}.

Definition pairs (l : list (string * list Z)) : list tp := l ≫= fun x => pair x.1 <$> x.2.

Definition assigned (l : list (string * list Z)) (k : KafkaClient) : KafkaClient :=
  match workers k with
  | None => k
  | Some ws => set_consumers (foldr (fun x m => if decide ((x : tp).1 ∈ ws) then <[x := new_session]> m else m) (consumers k) (pairs l)) k
  end.

(** One iteration of [consume]: the worker gets the records one by one, then
    they are marked. *)
Definition take_batch (s : session) : option session :=
  match recs s with
  | [] => None
  | b :: rest => Some {| polled := polled s; processed := processed s ++ b; marked := marked s ++ b; recs := rest |}
  end.

Fixpoint take_batches (n : nat) (s : session) : session :=
  match n with O => s | S n => match take_batch s with Some s => take_batches n s | None => s end end.

(** [killConsumers]: [taken] batches are still taken by a consumer that quits. *)
Fixpoint kill (taken : tp -> nat) (l : list tp) (k : KafkaClient) : run KafkaClient :=
  match l with
  | [] => Ret k
  | x :: l =>
      s ← go_deref (consumers k !! x);
      kill taken l {| consumers := delete x (consumers k); workers := workers k; sessions := sessions k ++ [(x, take_batches (taken x) s)] |}
  end.

Definition killConsumers (taken : tp -> nat) (lost : list (string * list Z)) (k : KafkaClient) : run KafkaClient := kill taken (pairs lost) k.

(** The body of the poll for one partition: [None] when the channel is full
    and the poll waits. *)
Definition poll_partition (x : tp) (batch : list R) (k : KafkaClient) : run (option KafkaClient) :=
  s ← go_deref (consumers k !! x);
  Ret (if (5 <=? length (recs s))%nat then None
       else Some (set_consumers (<[x := {| polled := polled s ++ batch; processed := processed s; marked := marked s; recs := recs s ++ [batch] |}]> (consumers k)) k)).

Definition consume_step (x : tp) (k : KafkaClient) : option KafkaClient :=
  s ← consumers k !! x; s ← take_batch s; Some (set_consumers (<[x := s]> (consumers k)) k).

(** ** Runs: [owned] are the partitions the library has assigned *)

Record world := { client : KafkaClient; owned : gset tp }.

(** The library assigns partitions of the subscribed topics, which are those
    with a worker ([NewMessager] subscribes to the keys of its workers); it
    assigns no partition twice, and polls and revokes only assigned ones. *)
Inductive kstep (w : world) : world -> Prop :=
  | KAssign l ws : workers (client w) = Some ws -> NoDup (pairs l) -> (forall x, x ∈ pairs l -> (x ∉ owned w) /\ x.1 ∈ ws) ->
      kstep w {| client := assigned l (client w); owned := owned w ∪ list_to_set (pairs l) |}
  | KKill taken l k : NoDup (pairs l) -> (forall x, x ∈ pairs l -> x ∈ owned w) -> killConsumers taken l (client w) = Ret k ->
      kstep w {| client := k; owned := owned w ∖ list_to_set (pairs l) |}
  | KPoll x batch k : x ∈ owned w -> poll_partition x batch (client w) = Ret (Some k) -> kstep w {| client := k; owned := owned w |}
  | KConsume x k : consume_step x (client w) = Some k -> kstep w {| client := k; owned := owned w |}.

Definition start (ws : gset string) : world := {| client := {| consumers := ∅; workers := Some ws; sessions := [] |}; owned := ∅ |}.

(** ** Properties *)

(** Nothing is lost, repeated or reordered in a session. *)
Definition session_ok (s : session) : Prop := processed s ++ concat (recs s) = polled s /\ marked s = processed s.

Record world_ok (ws : gset string) (w : world) : Prop := {
  wo_workers : workers (client w) = Some ws;
  wo_owned x : is_Some (consumers (client w) !! x) <-> x ∈ owned w;
  wo_live x s : consumers (client w) !! x = Some s -> session_ok s;
  wo_over x s : (x, s) ∈ sessions (client w) -> session_ok s
}.

Lemma take_batch_ok s s' : session_ok s -> take_batch s = Some s' -> session_ok s' /\ polled s' = polled s.
Proof.
  unfold take_batch, session_ok. destruct (recs s) as [|b rest]; [done|]. intros [H1 H2] [= <-]. cbn in *. split; [|done].
  rewrite <- app_assoc. split; [done|congruence].
Qed.

Lemma take_batches_ok n : forall s, session_ok s -> session_ok (take_batches n s).
Proof.
  induction n as [|n IH]; intros s Hs; cbn; [done|]. destruct (take_batch s) as [s'|] eqn:E; [|done]. apply IH. by eapply take_batch_ok.
Qed.

Lemma assigned_lookup (ws : gset string) (l : list tp) (m : gmap tp session) (x : tp) :
  foldr (fun x m => if decide ((x : tp).1 ∈ ws) then <[x := new_session]> m else m) m l !! x =
  if decide (x ∈ l /\ x.1 ∈ ws) then Some new_session else m !! x.
Proof.
  induction l as [|y l IH]; cbn [foldr]; [rewrite decide_False; [done|]; intros [Hx _]; by inversion Hx|].
  destruct (decide (x = y)) as [->|Hne].
  - destruct (decide (y.1 ∈ ws)) as [Hw|Hw]; [rewrite lookup_insert_eq, decide_True; [done|split; [left|done]]|].
    rewrite IH, !decide_False by tauto. done.
  - assert ((x ∈ l /\ x.1 ∈ ws) <-> (x ∈ y :: l /\ x.1 ∈ ws)) as Hiff by (rewrite elem_of_cons; tauto).
    destruct (decide (y.1 ∈ ws)); [rewrite lookup_insert_ne by done|]; rewrite IH; repeat case_decide; tauto || done.
Qed.

Lemma kill_spec taken l : forall k,
  NoDup l -> (forall x, x ∈ l -> is_Some (consumers k !! x)) -> (forall x s, consumers k !! x = Some s -> session_ok s) ->
  (forall x s, (x, s) ∈ sessions k -> session_ok s) ->
  exists k', kill taken l k = Ret k' /\ workers k' = workers k /\
    (forall x, consumers k' !! x = if decide (x ∈ l) then None else consumers k !! x) /\
    (forall x s, (x, s) ∈ sessions k' -> session_ok s).
Proof.
  induction l as [|x l IH]; intros k Hnd Hall Hlive Hover; cbn [kill].
  - exists k. split_and!; try done.
  - apply NoDup_cons in Hnd as [Hx Hnd]. destruct (Hall x (list_elem_of_here _ _)) as [s Hs]. rewrite Hs. cbn [go_deref]. rewrite bind_ret_l.
    destruct (IH {| consumers := delete x (consumers k); workers := workers k; sessions := sessions k ++ [(x, take_batches (taken x) s)] |})
      as (k' & -> & Hw & Hc & Ho); [done| | | |].
    + intros y Hy. cbn. rewrite lookup_delete_ne by (intros ->; done). apply Hall. by right.
    + intros y s'. cbn. rewrite lookup_delete_Some. intros [_ ?]. by eapply Hlive.
    + intros y s' [Hin|Hin%list_elem_of_singleton]%elem_of_app; [by eapply Hover|]. injection Hin as -> ->.
      apply take_batches_ok. by eapply Hlive.
    + exists k'. split_and!; try done. intros y. rewrite Hc. cbn. destruct (decide (y = x)) as [->|Hne].
      * rewrite lookup_delete_eq, (decide_True (P := x ∈ x :: l)) by left. by case_decide.
      * rewrite lookup_delete_ne by done. repeat case_decide; try done; rewrite elem_of_cons in *; tauto.
Qed.

Lemma kstep_ok ws w w' : world_ok ws w -> kstep w w' -> world_ok ws w'.
Proof.
  intros [W1 W2 W3 W4] Hst. destruct Hst as [l ws' Hws Hnd Hl|taken l k Hnd Hl Hk|x batch k Hx Hk|x k Hk].
  - rewrite W1 in Hws. injection Hws as <-. unfold assigned. rewrite W1.
    split; cbn [client owned consumers workers sessions set_consumers]; [done| | |done].
    + intros x. rewrite assigned_lookup, elem_of_union, elem_of_list_to_set. case_decide as Hd; [split; [tauto|by eexists]|].
      rewrite W2. split; [tauto|]. intros [?|Hin]; [done|]. destruct (Hl x Hin). tauto.
    + intros x s. rewrite assigned_lookup. case_decide; [intros [= <-]; done|apply W3].
  - unfold killConsumers in Hk. destruct (kill_spec taken (pairs l) (client w)) as (k' & Hk' & Hw & Hc & Ho); try done.
    { intros x Hin. apply W2. by apply Hl. }
    rewrite Hk in Hk'. injection Hk' as <-. split; cbn; [congruence| | |done].
    + intros x. rewrite Hc, elem_of_difference, elem_of_list_to_set. case_decide; [split; [by intros []|tauto]|]. rewrite W2. tauto.
    + intros x s. rewrite Hc. case_decide; [done|apply W3].
  - unfold poll_partition in Hk. apply bind_ret_inv in Hk as (s & Hs & Hk). destruct (consumers (client w) !! x) as [s0|] eqn:Hc; [|done].
    injection Hs as ->. destruct (5 <=? length (recs s))%nat; [done|]. injection Hk as <-.
    split; cbn [client owned consumers workers sessions set_consumers]; [done| | |done].
    + intros y. rewrite <- W2. destruct (decide (y = x)) as [->|Hne]; [rewrite lookup_insert_eq, Hc|rewrite lookup_insert_ne by done; done].
      split; intros _; by eexists.
    + intros y s'. destruct (decide (y = x)) as [->|Hne]; [|rewrite lookup_insert_ne by done; apply W3]. rewrite lookup_insert_eq.
      intros [= <-]. destruct (W3 x s Hc) as [H1 H2]. split; [|done]. cbn [processed recs polled]. rewrite concat_app, app_assoc, H1. cbn. by rewrite app_nil_r.
  - unfold consume_step in Hk. destruct (consumers (client w) !! x) as [s|] eqn:Hc; [|done]. cbn in Hk.
    destruct (take_batch s) as [s'|] eqn:Ht; [|done]. cbn in Hk. injection Hk as <-.
    split; cbn [client owned consumers workers sessions set_consumers]; [done| | |done].
    + intros y. rewrite <- W2. destruct (decide (y = x)) as [->|Hne]; [rewrite lookup_insert_eq, Hc|rewrite lookup_insert_ne by done; done].
      split; intros _; by eexists.
    + intros y s0. destruct (decide (y = x)) as [->|Hne]; [|rewrite lookup_insert_ne by done; apply W3]. rewrite lookup_insert_eq.
      intros [= <-]. by eapply take_batch_ok; [apply (W3 x)|].
Qed.

Lemma reachable_world_ok ws w : rtc kstep (start ws) w -> world_ok ws w.
Proof.
  revert w. apply (rtc_ind_r (R := kstep) (world_ok ws) (start ws)); [|intros w w' _ Hst Hw; by eapply kstep_ok].
  split; cbn; [done| |done|intros x s Hin; by inversion Hin]. intros x. rewrite lookup_empty. split; [by intros []|set_solver].
Qed.

(** Records of a partition.  In every reachable state, the worker of an
    assigned partition has been given, in order and without gaps, the records
    polled since the assignment, except those still in the channel; what is
    marked for commit is what the worker has been given, also for partitions
    that were revoked; and polling or revoking any assigned partitions does not
    panic. *)
Theorem partitions_consumed ws w :
  rtc kstep (start ws) w ->
  (forall x s, consumers (client w) !! x = Some s -> processed s ++ concat (recs s) = polled s /\ marked s = processed s) /\
  (forall x s, (x, s) ∈ sessions (client w) -> (exists dropped, processed s ++ dropped = polled s) /\ marked s = processed s) /\
  (forall x batch, x ∈ owned w -> exists r, poll_partition x batch (client w) = Ret r) /\
  (forall taken l, NoDup (pairs l) -> (forall x, x ∈ pairs l -> x ∈ owned w) -> exists k, killConsumers taken l (client w) = Ret k).
Proof.
  intros Hr. apply reachable_world_ok in Hr as [W1 W2 W3 W4]. split_and!.
  - exact W3.
  - intros x s Hin. destruct (W4 x s Hin) as [H1 H2]. split; [by eexists|done].
  - intros x batch Hx. apply W2 in Hx as [s Hs]. unfold poll_partition. rewrite Hs. by eexists.
  - intros taken l Hnd Hl. destruct (kill_spec taken (pairs l) (client w)) as (k & Hk & _); try done; [|by exists k].
    intros x Hin. apply W2. by apply Hl.
Qed.

End Consumers.

Arguments KafkaClient : clear implicits.
Arguments world : clear implicits.

(** ** Witness and further facts *)

Definition part0 : tp := ("cluster_ping"%string, 0).

Lemma partitions_consumed_witness :
  exists w : world nat, rtc kstep (start {["cluster_ping"%string]}) w /\
    exists s, consumers (client w) !! part0 = Some s /\ processed s = [1; 2]%nat /\ processed s ++ concat (recs s) = polled s.
Proof.
  set (ws := {["cluster_ping"%string]} : gset string).
  set (w1 := {| client := assigned [("cluster_ping"%string, [0])] (client (R := nat) (start ws)); owned := ∅ ∪ list_to_set [part0] |}).
  set (s2 := {| polled := [1; 2]%nat; processed := []; marked := []; recs := [[1; 2]%nat] |}).
  set (w2 := {| client := set_consumers (<[part0 := s2]> (consumers (client w1))) (client w1); owned := owned w1 |}).
  set (s3 := {| polled := [1; 2]%nat; processed := [1; 2]%nat; marked := [1; 2]%nat; recs := [] |}).
  set (w3 := {| client := set_consumers (<[part0 := s3]> (consumers (client w2))) (client w2); owned := owned w2 |}).
  assert (rtc kstep (start ws) w3) as Hr.
  { eapply (rtc_l _ _ w1); [apply (KAssign (start ws) [("cluster_ping"%string, [0])] ws); [done|apply NoDup_singleton|]|].
    { intros x Hx. apply list_elem_of_singleton in Hx as ->. cbn. set_solver. }
    eapply (rtc_l _ _ w2); [apply (KPoll w1 part0 [1; 2]%nat); [cbn; set_solver|reflexivity]|].
    apply rtc_once. apply (KConsume w2 part0). reflexivity. }
  exists w3. split; [exact Hr|]. exists s3. split; [reflexivity|]. split; [reflexivity|].
  destruct (partitions_consumed ws w3 Hr) as (Hc & _). exact (proj1 (Hc part0 s3 eq_refl)).
Defined.

(** Addresses that are only commas pass the validation of the configuration
    and give no client at all: the node runs alone. *)
Lemma addrs_of_commas conf ok group topics :
  kf_Addrs conf = ","%string -> Kafka_Validate conf = None /\ NewKafkaClient conf ok group topics = inl None.
Proof. intros Ha. unfold Kafka_Validate, NewKafkaClient. rewrite Ha. by split. Qed.
