(* ===== verification/KafkaGroup.v ===== *)
(** * KafkaGroup: a partition over rebalances ([signal/kafka.go])

    The records of one partition, as the group of a node reads them while the
    partition is assigned, revoked, lost and assigned again.  A session starts
    at the committed offset; what it does is [Kafka]: batches are polled into
    its channel, taken by the worker and marked.  The marks are committed now and
    then ([AutoCommitMarks]) and when the partition is revoked; a lost partition
    commits nothing. *)
From S2P Require Import Prelude Kafka.
Local Open Scope list_scope.

Section Group.
Context {R : Type}.
Implicit Types (s : @session R).

(** [past]: the sessions that are over, each with the offset it began at and
    the records its worker was given; [lossless]: no partition was lost and no commit failed. *)
Record part := {
  plog : list R; committed : nat; holder : option (nat * @session R); past : list (nat * list R); lossless : bool
}.

Definition part0 : part := {| plog := []; committed := 0; holder := None; past := []; lossless := true |}.

Definition put_holder (h : option (nat * @session R)) (p : part) : part :=
  {| plog := plog p; committed := committed p; holder := h; past := past p; lossless := lossless p |}.

(** [revoked]: the consumer quits, after [taken] more batches, and what is marked is committed; [ok] tells whether that succeeds. *)
Definition revoked (taken : nat) (ok : bool) (b : nat) (s : @session R) (p : part) : part :=
  let s := take_batches taken s in
  {| plog := plog p; committed := if ok then b + length (marked s) else committed p; holder := None;
     past := past p ++ [(b, processed s)]; lossless := lossless p && ok |}.

(** [lost]: the consumer quits, and nothing is committed. *)
Definition lost (taken : nat) (b : nat) (s : @session R) (p : part) : part :=
  let s := take_batches taken s in
  {| plog := plog p; committed := committed p; holder := None; past := past p ++ [(b, processed s)]; lossless := false |}.

(** The batch of a poll goes to the channel when there is room. *)
Definition push_batch (batch : list R) (s : @session R) : option (@session R) :=
  if (5 <=? length (recs s))%nat then None
  else Some {| polled := polled s ++ batch; processed := processed s; marked := marked s; recs := recs s ++ [batch] |}.

Inductive gstep (p : part) : part -> Prop :=
  | GProduce r : gstep p {| plog := plog p ++ [r]; committed := committed p; holder := holder p; past := past p; lossless := lossless p |}
  | GAssign : holder p = None -> gstep p (put_holder (Some (committed p, new_session)) p)
  | GPoll b s s' n :
      holder p = Some (b, s) -> push_batch (take n (drop (b + length (polled s)) (plog p))) s = Some s' -> gstep p (put_holder (Some (b, s')) p)
  | GConsume b s s' : holder p = Some (b, s) -> take_batch s = Some s' -> gstep p (put_holder (Some (b, s')) p)
  | GCommit b s :
      holder p = Some (b, s) ->
      gstep p {| plog := plog p; committed := b + length (marked s); holder := holder p; past := past p; lossless := lossless p |}
  | GRevoke b s taken ok : holder p = Some (b, s) -> gstep p (revoked taken ok b s p)
  | GLose b s taken : holder p = Some (b, s) -> gstep p (lost taken b s p).

(** ** The invariant *)

(** All sessions: those that are over and the current one. *)
Definition all_sessions (p : part) : list (nat * list R) :=
  past p ++ match holder p with Some (b, s) => [(b, processed s)] | None => [] end.

(** The records [l] are those of the log from offset [b]. *)
Definition slice (log : list R) (b : nat) (l : list R) : Prop := l = take (length l) (drop b log).

Definition covered (p : part) (n : nat) : Prop :=
  forall i, i < n -> exists b l, (b, l) ∈ all_sessions p /\ b <= i < b + length l.

Record part_ok (p : part) : Prop := {
  po_past : Forall (fun x => slice (plog p) x.1 x.2 /\ x.1 + length x.2 <= length (plog p)) (past p);
  po_holder b s : holder p = Some (b, s) ->
    session_ok s /\ slice (plog p) b (polled s) /\ b + length (polled s) <= length (plog p) /\
    b <= committed p <= b + length (marked s) /\ covered p b;
  po_covered : covered p (committed p);
  po_lossless : lossless p = true ->
    concat (past p).*2 = take (match holder p with Some (b, _) => b | None => committed p end) (plog p) /\
    (match holder p with Some (b, _) => b | None => committed p end) <= length (plog p)
}.

Lemma slice_app_log log b l r : slice log b l -> b + length l <= length log -> slice (log ++ r) b l.
Proof. unfold slice. intros Hs Hl. rewrite drop_app_le by lia. rewrite take_app_le; [done|]. rewrite length_drop. lia. Qed.

Lemma slice_prefix log b l1 l2 : slice log b (l1 ++ l2) -> slice log b l1.
Proof.
  unfold slice. intros Hs. rewrite <- (take_app_length l1 l2) at 1. rewrite Hs at 1. rewrite take_take. f_equal. rewrite length_app. lia.
Qed.

Lemma slice_extend log b l n : slice log b l -> b + length l <= length log -> slice log b (l ++ take n (drop (b + length l) log)).
Proof.
  unfold slice. intros Hs Hl. rewrite length_app, length_take, length_drop. set (m := n `min` _).
  rewrite <- (take_take_drop (drop b log) (length l) m), <- Hs, drop_drop. f_equal.
  destruct (decide (n <= length log - (b + length l))); [f_equal; lia|]. rewrite !take_ge by (rewrite length_drop; lia). done.
Qed.

Lemma slice_concat (log : list R) b l : slice log b l -> b <= length log -> take b log ++ l = take (b + length l) log.
Proof. unfold slice. intros Hs Hb. rewrite Hs at 1. by rewrite take_take_drop. Qed.

(** A session that takes batches stays as it should, and its marks only grow. *)
Lemma take_batches_spec n : forall s, session_ok s -> session_ok (take_batches n s) /\ polled (take_batches n s) = polled s /\
  length (marked s) <= length (marked (take_batches n s)).
Proof.
  induction n as [|n IH]; intros s Hs; cbn [take_batches]; [done|]. destruct (take_batch s) as [s'|] eqn:Ht; [|done].
  destruct (take_batch_ok s s' Hs Ht) as [Hs' Hp]. destruct (IH s' Hs') as (H1 & H2 & H3). split_and!; [done|congruence|].
  unfold take_batch in Ht. destruct (recs s); [done|]. injection Ht as <-. cbn in H3. rewrite length_app in H3. cbn. lia.
Qed.

Lemma session_processed log b s : session_ok s -> slice log b (polled s) -> b + length (polled s) <= length log ->
  slice log b (processed s) /\ b + length (processed s) <= length log /\ length (marked s) = length (processed s).
Proof.
  intros [H1 H2] Hs Hl. rewrite <- H1 in Hs, Hl. rewrite length_app in Hl. split_and!; [by eapply slice_prefix|lia|by rewrite H2].
Qed.

(** The current session ends with the records it has processed. *)
Lemma covered_more p q n :
  covered p n -> (forall x, x ∈ all_sessions p -> exists l, (x.1, l) ∈ all_sessions q /\ length x.2 <= length l) -> covered q n.
Proof.
  intros Hc Hs i Hi. destruct (Hc i Hi) as (b & l & Hin & Hb). destruct (Hs _ Hin) as (l' & Hin' & Hl). cbn in *. exists b, l'. split; [done|lia].
Qed.

Lemma covered_session p b l n : covered p b -> (b, l) ∈ all_sessions p -> n <= b + length l -> covered p n.
Proof.
  intros Hc Hin Hn i Hi. destruct (decide (i < b)) as [Hb|Hb]; [by apply Hc|]. exists b, l. split; [done|lia].
Qed.

Lemma in_holder p b s : holder p = Some (b, s) -> (b, processed s) ∈ all_sessions p.
Proof. intros Hh. unfold all_sessions. rewrite Hh. apply elem_of_app. right. by apply list_elem_of_singleton. Qed.

(** A session that goes on: it may only have processed more. *)
Lemma holder_step p b s s' :
  part_ok p -> holder p = Some (b, s) -> session_ok s' -> slice (plog p) b (polled s') -> b + length (polled s') <= length (plog p) ->
  length (marked s) <= length (marked s') -> part_ok (put_holder (Some (b, s')) p).
Proof.
  intros Hok Hh Hs' Hsl Hlen Hm. destruct Hok as [P1 P2 P3 P4]. destruct (P2 b s Hh) as (Q1 & Q2 & Q3 & Q4 & Q5).
  assert (forall n, covered p n -> covered (put_holder (Some (b, s')) p) n) as Hcov.
  { intros n Hn. apply (covered_more p); [done|]. intros [b0 l0]. unfold all_sessions. rewrite Hh. cbn. intros [Hin|Hin%list_elem_of_singleton]%elem_of_app.
    - exists l0. split; [apply elem_of_app; by left|done].
    - injection Hin as -> ->. exists (processed s'). split; [apply elem_of_app; right; by apply list_elem_of_singleton|].
      destruct Q1 as [_ <-], Hs' as [_ <-]. done. }
  split; cbn; [done| |by apply Hcov|].
  - intros b0 s0 [= <- <-]. split_and!; try done; [lia|lia|by apply Hcov].
  - rewrite Hh in P4. exact P4.
Qed.

(** A session that ends, with its marks committed or not. *)
Lemma holder_ends p b s taken ok c :
  part_ok p -> holder p = Some (b, s) -> c = committed p \/ c = b + length (marked (take_batches taken s)) ->
  (ok = true -> c = b + length (marked (take_batches taken s))) ->
  part_ok {| plog := plog p; committed := c; holder := None; past := past p ++ [(b, processed (take_batches taken s))]; lossless := lossless p && ok |}.
Proof.
  intros [P1 P2 P3 P4] Hh Hc Ho. destruct (P2 b s Hh) as (Q1 & Q2 & Q3 & Q4 & Q5). destruct (take_batches_spec taken s Q1) as (T1 & T2 & T3).
  rewrite <- T2 in Q2, Q3. destruct (session_processed _ _ _ T1 Q2 Q3) as (S1 & S2 & S3). set (s' := take_batches taken s) in *.
  set (q := {| plog := plog p; committed := c; holder := None; past := past p ++ [(b, processed s')]; lossless := lossless p && ok |}).
  assert (forall n, covered p n -> covered q n) as Hcov.
  { intros n Hn. apply (covered_more p); [done|]. intros [b0 l0]. unfold all_sessions. rewrite Hh. cbn. rewrite app_nil_r.
    intros [Hin|Hin%list_elem_of_singleton]%elem_of_app.
    - exists l0. split; [apply elem_of_app; by left|done].
    - injection Hin as -> ->. exists (processed s'). split; [apply elem_of_app; right; by apply list_elem_of_singleton|].
      rewrite <- S3. destruct Q1 as [_ <-]. done. }
  split; cbn [plog committed holder past lossless q].
  - apply Forall_app. split; [done|]. repeat constructor; done.
  - done.
  - destruct Hc as [->| ->]; [by apply Hcov|]. apply (covered_session q b (processed s')); [by apply Hcov| |lia].
    unfold all_sessions. cbn. rewrite app_nil_r. apply elem_of_app. right. by apply list_elem_of_singleton.
  - intros [Hl Hok]%andb_true_iff. rewrite (Ho Hok). rewrite Hh in P4. destruct (P4 Hl) as [E Hb]. split; [|lia].
    rewrite fmap_app, concat_app, E. cbn. rewrite app_nil_r, S3. by apply slice_concat.
Qed.

Lemma produce_ok p r :
  part_ok p -> part_ok {| plog := plog p ++ [r]; committed := committed p; holder := holder p; past := past p; lossless := lossless p |}.
Proof.
  intros [P1 P2 P3 P4]. split; cbn.
  - eapply Forall_impl; [exact P1|]. intros [b l] [H1 H2]; cbn in *. split; [by apply slice_app_log|rewrite length_app; lia].
  - intros b s Hh. destruct (P2 b s Hh) as (Q1 & Q2 & Q3 & Q4 & Q5). split_and!; [done|by apply slice_app_log|rewrite length_app; lia|lia|lia|done].
  - done.
  - intros Hl. destruct (P4 Hl) as [E Hb]. split; [|rewrite length_app; lia]. by rewrite take_app_le.
Qed.

Lemma gstep_ok p p' : part_ok p -> gstep p p' -> part_ok p'.
Proof.
  intros Hok Hst. destruct Hst as [r|Hh|b s s' n Hh Hp|b s s' Hh Ht|b s Hh|b s taken ok Hh|b s taken Hh].
  - by apply produce_ok.
  - destruct Hok as [P1 P2 P3 P4]. assert (covered (put_holder (Some (committed p, new_session)) p) (committed p)) as Hc.
    { apply (covered_more p); [done|]. intros [b0 l0]. unfold all_sessions. rewrite Hh. cbn. rewrite app_nil_r. intros Hin.
      exists l0. split; [apply elem_of_app; by left|done]. }
    split; cbn; [done| |done|by rewrite Hh in P4]. intros b s [= <- <-].
    assert (committed p <= length (plog p)) as Hb.
    { destruct (decide (committed p = 0)) as [->|Hz]; [lia|]. destruct (P3 (committed p - 1)) as (b & l & Hin & Hb); [lia|].
      unfold all_sessions in Hin. rewrite Hh, app_nil_r in Hin. rewrite Forall_forall in P1. destruct (P1 _ Hin). cbn in *. lia. }
    split_and!; cbn; try done; lia.
  - destruct (po_holder p Hok b s Hh) as (Q1 & Q2 & Q3 & _). unfold push_batch in Hp. destruct (5 <=? _)%nat; [done|]. injection Hp as <-.
    apply holder_step with s; [done|done|..]; cbn; [| | |lia].
    + destruct Q1 as [H1 H2]. split; [|done]. cbn. rewrite concat_app, app_assoc, H1. cbn. by rewrite app_nil_r.
    + by apply slice_extend.
    + rewrite length_app, length_take, length_drop. lia.
  - destruct (po_holder p Hok b s Hh) as (Q1 & Q2 & Q3 & _). destruct (take_batch_ok s s' Q1 Ht) as [Hs' Hpo].
    apply holder_step with s; [done|done|done|by rewrite Hpo..|]. unfold take_batch in Ht. destruct (recs s); [done|]. injection Ht as <-. cbn. rewrite length_app. lia.
  - destruct Hok as [P1 P2 P3 P4]. destruct (P2 b s Hh) as (Q1 & Q2 & Q3 & Q4 & Q5).
    destruct (session_processed _ _ _ Q1 Q2 Q3) as (S1 & S2 & S3). split; cbn; try done.
    + intros b0 s0 Hh0. assert ((b0, s0) = (b, s)) as [= -> ->] by congruence. split_and!; try done; lia.
    + apply (covered_session p b (processed s)); [done|by apply in_holder|lia].
    + by rewrite Hh in *.
  - unfold revoked. apply holder_ends with (c := if ok then b + length (marked (take_batches taken s)) else committed p) (ok := ok); [done|done|destruct ok; auto|by destruct ok].
  - unfold lost. pose proof (holder_ends p b s taken false (committed p) Hok Hh) as He. rewrite andb_false_r in He. apply He; [by left|done].
Qed.

Lemma reachable_part_ok p : rtc gstep part0 p -> part_ok p.
Proof.
  revert p. apply (rtc_ind_r (R := gstep) part_ok part0); [|intros p p' _ Hst Hp; by eapply gstep_ok].
  split; cbn; try done. intros i Hi. lia.
Qed.

(** As long as nothing was lost and no commit failed, the sessions together are a beginning of the log. *)
Lemma lossless_prefix p :
  part_ok p -> lossless p = true -> exists n, concat (all_sessions p).*2 = take n (plog p) /\ committed p <= n.
Proof.
  intros [P1 P2 P3 P4] Hl. destruct (P4 Hl) as [Ec Hb]. unfold all_sessions. destruct (holder p) as [[b s]|].
  - destruct (P2 b s eq_refl) as (Q1 & Q2 & Q3 & Q4 & _). destruct (session_processed _ _ _ Q1 Q2 Q3) as (S1 & S2 & S3).
    exists (b + length (processed s)). split; [|lia]. rewrite fmap_app, concat_app, Ec. cbn. rewrite app_nil_r. by apply slice_concat.
  - exists (committed p). by rewrite app_nil_r.
Qed.

(** Whatever happens to a partition but a new record, what its workers were given is only added to. *)
Lemma gstep_extends p p' :
  gstep p p' -> (exists r, plog p' = plog p ++ [r] /\ concat (all_sessions p').*2 = concat (all_sessions p).*2) \/
    (plog p' = plog p /\ exists new, concat (all_sessions p').*2 = concat (all_sessions p).*2 ++ new).
Proof.
  assert (forall n s, exists new, processed (take_batches n s) = processed s ++ new) as Ht.
  { intros n. induction n as [|n IH]; intros s; cbn [take_batches]; [exists []; by rewrite app_nil_r|].
    unfold take_batch at 1. destruct (recs s) as [|b l]; [exists []; by rewrite app_nil_r|]. edestruct IH as [new ->]. cbn. rewrite <- app_assoc. by eexists. }
  intros Hst. destruct Hst as [r|Hh|b s s' n Hh Hp|b s s' Hh Hc|b s Hh|b s taken ok Hh|b s taken Hh].
  - left. by exists r.
  - right. split; [done|]. exists []. unfold all_sessions. rewrite Hh. cbn. rewrite !fmap_app, !concat_app. cbn. by rewrite !app_nil_r.
  - right. split; [done|]. exists []. unfold all_sessions. rewrite Hh. cbn. unfold push_batch in Hp. destruct (5 <=? _)%nat; [done|]. injection Hp as <-.
    by rewrite app_nil_r, !fmap_app.
  - right. split; [done|]. unfold all_sessions. rewrite Hh. cbn. unfold take_batch in Hc. destruct (recs s) as [|batch l]; [done|]. injection Hc as <-.
    exists batch. by rewrite !fmap_app, !concat_app, <- app_assoc; cbn; rewrite !app_nil_r.
  - right. split; [done|]. exists []. by rewrite app_nil_r.
  - right. split; [done|]. destruct (Ht taken s) as [new En]. exists new. unfold all_sessions. rewrite Hh. cbn.
    rewrite En, app_nil_r, !fmap_app, !concat_app, <- app_assoc. cbn. by rewrite !app_nil_r.
  - right. split; [done|]. destruct (Ht taken s) as [new En]. exists new. unfold all_sessions. rewrite Hh. cbn.
    rewrite En, app_nil_r, !fmap_app, !concat_app, <- app_assoc. cbn. by rewrite !app_nil_r.
Qed.

(** ** Catching up *)

Lemma drain p b s :
  holder p = Some (b, s) -> exists s', rtc gstep p (put_holder (Some (b, s')) p) /\ recs s' = [] /\ polled s' = polled s.
Proof.
  remember (recs s) as l eqn:El. revert p s El. induction l as [|batch l IH]; intros p s El Hh.
  - exists s. split_and!; try done. replace (put_holder _ p) with p; [done|]. destruct p; cbn in *. by rewrite Hh.
  - set (s1 := {| polled := polled s; processed := processed s ++ batch; marked := marked s ++ batch; recs := l |}).
    destruct (IH (put_holder (Some (b, s1)) p) s1 eq_refl eq_refl) as (s' & Hr & Hs' & Hp). exists s'. split_and!; [|done|done].
    eapply rtc_l; [|exact Hr]. eapply GConsume; [done|]. unfold take_batch. by rewrite <- El.
Qed.

Lemma catch_up p :
  part_ok p -> exists p' b s, rtc gstep p p' /\ plog p' = plog p /\ holder p' = Some (b, s) /\ b + length (processed s) = length (plog p).
Proof.
  intros Hok. assert (exists p1 b s, rtc gstep p p1 /\ plog p1 = plog p /\ holder p1 = Some (b, s)) as (p1 & b & s & R1 & L1 & Hh1).
  { destruct (holder p) as [[b s]|] eqn:Hh; [by exists p, b, s|]. eexists _, _, _. split; [apply rtc_once; by apply GAssign|done]. }
  destruct (drain p1 b s Hh1) as (s1 & R2 & E1 & Ep1). set (p2 := put_holder (Some (b, s1)) p1) in *.
  set (batch := take (length (plog p)) (drop (b + length (polled s1)) (plog p2))).
  set (s2 := {| polled := polled s1 ++ batch; processed := processed s1; marked := marked s1; recs := [batch] |}).
  assert (gstep p2 (put_holder (Some (b, s2)) p2)) as R3.
  { eapply (GPoll p2 b s1 s2 (length (plog p))); [done|]. unfold push_batch. rewrite E1. done. }
  set (s3 := {| polled := polled s1 ++ batch; processed := processed s1 ++ batch; marked := marked s1 ++ batch; recs := [] |}).
  assert (rtc gstep p (put_holder (Some (b, s1)) p1)) as R12 by (by etrans).
  exists (put_holder (Some (b, s3)) p2), b, s3. split_and!; [|done|done|].
  - etrans; [exact R12|]. eapply rtc_l; [exact R3|]. apply rtc_once.
    change (put_holder (Some (b, s3)) p2) with (put_holder (Some (b, s3)) (put_holder (Some (b, s2)) p2)). by apply GConsume with s2.
  - assert (part_ok p2) as Hok2.
    { clear - Hok R12. revert Hok. induction R12 as [|x y z Hst _ IH]; intros Hok; [done|]. apply IH. by eapply gstep_ok. }
    destruct (po_holder p2 Hok2 b s1 eq_refl) as ([Q1 _] & _ & Q3 & _). rewrite E1 in Q1. cbn in Q1. rewrite app_nil_r in Q1.
    cbn. subst batch. rewrite length_app, length_take, length_drop, Q1. change (plog p2) with (plog p1) in *. rewrite L1 in *. lia.
Qed.

(** Records over rebalances.  However a partition is assigned, revoked and
    lost again: each session gives its worker consecutive records in the order of
    the log; every record before the committed offset was given to a worker;
    as long as nothing was lost and no commit failed, all sessions together gave
    each record exactly once and in order; and whatever happened, the reader can
    go on and reach the end of the log. *)
Theorem records_delivered p :
  rtc gstep part0 p ->
  (forall b l, (b, l) ∈ all_sessions p -> l = take (length l) (drop b (plog p))) /\
  (forall i, i < committed p -> exists b l, (b, l) ∈ all_sessions p /\ b <= i < b + length l) /\
  (lossless p = true -> exists n, concat (all_sessions p).*2 = take n (plog p) /\ committed p <= n) /\
  (exists p' b s, rtc gstep p p' /\ plog p' = plog p /\ holder p' = Some (b, s) /\ b + length (processed s) = length (plog p)).
Proof.
  intros Hr. pose proof (reachable_part_ok p Hr) as Hok. pose proof Hok as [P1 P2 P3 P4]. split_and!; [|done| |by apply catch_up].
  - intros b l [Hin|Hin]%elem_of_app; [rewrite Forall_forall in P1; by apply (P1 _ Hin)|].
    destruct (holder p) as [[b' s]|]; [|by apply not_elem_of_nil in Hin]. apply list_elem_of_singleton in Hin as [= -> ->].
    destruct (P2 b' s eq_refl) as (Q1 & Q2 & Q3 & _). by apply session_processed.
  - by apply lossless_prefix.
Qed.
End Group.

(** ** Witness *)

Module Toy.
(** Two records are produced, read and committed by revoking; a third follows in the next session. *)
Definition moves : list (@part nat -> option (@part nat)) :=
  let h f := fun p => '(b, s) ← holder p; f b s p in
  let produce r := fun p => Some {| plog := plog p ++ [r]; committed := committed p; holder := holder p; past := past p; lossless := lossless p |} in
  let assign := fun p : @part nat => match holder p with None => Some (put_holder (Some (committed p, new_session)) p) | Some _ => None end in
  let poll := h (fun b s p => s' ← push_batch (take 10 (drop (b + length (polled s)) (plog p))) s; Some (put_holder (Some (b, s')) p)) in
  let consume := h (fun b s p => s' ← take_batch s; Some (put_holder (Some (b, s')) p)) in
  [produce 1; produce 2; assign; poll; consume; h (fun b s p => Some (revoked 0 true b s p)); produce 3; assign; poll; consume]%nat.

Definition sound (f : @part nat -> option (@part nat)) : Prop := forall p p', f p = Some p' -> gstep p p'.
Lemma moves_sound : Forall sound moves.
Proof.
  unfold moves, sound. repeat constructor; intros p p'.
  all: try (intros [= <-]; apply GProduce).
  all: destruct (holder p) as [[b s]|] eqn:Hh; cbn; rewrite ?Hh; cbn; try done.
  all: try (intros [= <-]; by apply GAssign).
  all: try (intros [= <-]; by apply (GRevoke p b s 0 true)).
  all: try (destruct (push_batch _ s) as [s'|] eqn:Hp; [|done]; cbn; intros [= <-]; by eapply (GPoll p b s s' 10)).
  all: try (destruct (take_batch s) as [s'|] eqn:Ht; [|done]; cbn; intros [= <-]; by eapply (GConsume p b s s')).
Qed.

Fixpoint exec (l : list (@part nat -> option (@part nat))) (p : @part nat) : option (@part nat) :=
  match l with [] => Some p | f :: l => p ← f p; exec l p end.
Lemma exec_steps l : Forall sound l -> forall p p', exec l p = Some p' -> rtc gstep p p'.
Proof.
  induction 1 as [|f l Hf _ IH]; intros p p'; cbn; [by intros [= ->]|]. destruct (f p) as [p1|] eqn:E; [|done]. cbn. intros He.
  eapply rtc_l; [by apply Hf|by apply IH].
Qed.

Definition final : @part nat := Eval vm_compute in default part0 (exec moves part0).

Lemma records_delivered_witness :
  all_sessions final = [(0, [1; 2]); (2, [3])]%nat /\ committed final = 2%nat /\
  exists n, concat (all_sessions final).*2 = take n (plog final) /\ (committed final <= n)%nat.
Proof.
  assert (rtc gstep part0 final) as Hr by (apply (exec_steps moves moves_sound); vm_compute; reflexivity).
  split; [reflexivity|]. split; [reflexivity|].
  destruct (records_delivered final Hr) as (_ & _ & Hl & _). exact (Hl eq_refl).
Defined.
End Toy.

(** A lost partition: its records are given to a worker again. *)
Lemma lost_redelivers (x : nat) :
  let s : session := {| polled := [x]; processed := [x]; marked := [x]; recs := [] |} in
  let p := {| plog := [x]; committed := 0; holder := Some (0, s); past := []; lossless := true |} in
  exists p', rtc gstep p p' /\ all_sessions p' = [(0, [x]); (0, [x])].
Proof.
  cbv zeta. set (s := {| polled := [x]; processed := [x]; marked := [x]; recs := [] |}).
  set (s' := {| polled := [x]; processed := []; marked := []; recs := [[x]] |}).
  set (p := {| plog := [x]; committed := 0; holder := Some (0, s); past := []; lossless := true |}).
  eexists. split; [|shelve]. eapply rtc_l; [by apply (GLose p 0 s 0)|]. eapply rtc_l; [by apply GAssign|].
  eapply rtc_l; [by apply (GPoll _ 0 new_session s' 1)|]. apply rtc_once. by apply (GConsume _ 0 s' s).
  Unshelve. reflexivity.
Qed.
