(* ===== verification/Redis.v ===== *)
(** * Redis: the configuration of Redis ([signal/redis.go])

    The parts of a configuration: the mode, the addresses and the
    credentials.  The parsers of the redis package are parameters:
    [ParseClusterURL] gives the options of a cluster url, [ParseURL] those of
    a single one. *)
From S2P Require Import Prelude GoStrings Collection Config.
Local Open Scope Z_scope.
Local Open Scope list_scope.

Record redisAuth := { User : string; Pass : string }.

#[global] Instance redisAuth_eq_dec : EqDecision redisAuth.
Proof. solve_decision. Defined.

(** What the code reads and sets of the options of the redis package. *)
Record Options := { Addr : string; o_ClientName : string; o_Username : string; o_Password : string }.

(** [NewClient] is set to a function that holds the addresses and the credentials. *)
Record ClusterOptions := {
  c_Addrs : list string; c_ClientName : string; c_Username : string; c_Password : string;
  c_NewClient : option (list string * list redisAuth)
}.

Class RedisLib := {
  ParseClusterURL : string -> option ClusterOptions;
  ParseURL : string -> option Options
}.

Inductive redis_mode := MAuto | MStandalone | MCluster | MSentinel | MRing.

#[global] Instance redis_mode_eq_dec : EqDecision redis_mode.
Proof. solve_decision. Defined.

Definition checkRedisMode (mode : string) : redis_mode + gerror :=
  let m := ToLower (TrimSpace mode) in
  if decide (m = "auto"%string) then inl MAuto
  else if decide (m = "standalone"%string) then inl MStandalone
  else if decide (m = "cluster"%string) then inl MCluster
  else if decide (m = "sentinel"%string) then inl MSentinel
  else if decide (m = "ring"%string) then inl MRing
  else inr InvalidConfig.

Section Redis.
Context `{RedisLib}.

Definition comma : Ascii.ascii := Ascii.ascii_of_nat 44.
Definition blank : Ascii.ascii := Ascii.ascii_of_nat 32.

(** The options of an address, under the address. *)
Definition addr_opts (addr : string) : string * Options :=
  let addr := TrimSpace addr in
  match ParseURL addr with
  | Some opts => (Addr opts, opts)
  | None => (addr, {| Addr := addr; o_ClientName := ""; o_Username := ""; o_Password := "" |})
  end.

Definition parseRedisOpts (addrs : string) : (gmap string Options * option ClusterOptions) + gerror :=
  if decide (addrs = ""%string) then inr InvalidConfig
  else match ParseClusterURL addrs with
       | Some c => inl (∅, Some c)
       | None =>
           let m : gmap string Options := fold_left (fun m a => let '(k, o) := addr_opts a in <[k := o]> m) (Split comma addrs) ∅ in
           if decide (m = ∅) then inr InvalidConfig else inl (m, None)
       end.

(** The words of a list of users or passwords. *)
Definition words (s : string) : list string :=
  default [] (SliceMapNew (Some (Split blank s))
    (fun w => let w := TrimSpace w in if decide (w = ""%string) then (w, true) else (w, false))).

Definition map_new {A B} (f : A -> B) (l : list A) : list B := default [] (SliceMapNew (Some l) (fun x => (f x, false))).

Definition parseRedisAuth (users_s passes_s : string) : list redisAuth + gerror :=
  let users := words users_s in
  let passes := words passes_s in
  match users, passes with
  | [], [] => inl []
  | [], _ => inl (map_new (fun user => {| User := user; Pass := "" |}) users)
  | _, [] => inl (map_new (fun pass => {| User := ""; Pass := pass |}) passes)
  | [u], _ => inl (map_new (fun pass => {| User := u; Pass := pass |}) passes)
  | _, [p] => inl (map_new (fun user => {| User := user; Pass := p |}) users)
  | _, _ => if (length users =? length passes)%nat then inl (zip_with Build_redisAuth users passes) else inr InvalidConfig
  end.

Definition MakeRedisKey (prefix key : string) : string :=
  let prefix := TrimSpace prefix in if decide (prefix = ""%string) then key else (prefix +:+ key)%string.
(** ** Properties *)

Lemma map_new_map {A B} (f : A -> B) l : map_new f l = f <$> l.
Proof. unfold map_new. cbn. induction l as [|x l IH]; cbn; [done|]. by f_equal. Qed.

Lemma words_ok s : Forall (fun w => w <> ""%string) (words s).
Proof.
  unfold words. cbn. apply Forall_forall. intros w Hw. apply list_elem_of_omap in Hw as (x & _ & Hx).
  destruct (decide (TrimSpace x = ""%string)); [done|]. by injection Hx as <-.
Qed.

(** The credentials: one user for all passwords, one password for all users, or
    one password per user; only when both lists are longer and differ in
    length is it an error. *)
Lemma parseRedisAuth_correct us ps :
  words us <> [] -> words ps <> [] ->
  match parseRedisAuth us ps with
  | inl l =>
      Forall (fun a => User a ∈ words us /\ Pass a ∈ words ps) l /\
      (length l = Nat.max (length (words us)) (length (words ps)))%nat
  | inr e => e = InvalidConfig /\ length (words us) <> length (words ps) /\ (1 < length (words us))%nat /\ (1 < length (words ps))%nat
  end.
Proof.
  unfold parseRedisAuth. intros Hu Hp. destruct (words us) as [|u [|u2 us']], (words ps) as [|p [|p2 ps']]; try done;
    rewrite ?map_new_map.
  - split; [repeat constructor; cbn; set_solver|done].
  - split; [|rewrite length_fmap; cbn; lia]. apply Forall_fmap, Forall_forall. intros x Hx. cbn. set_solver.
  - split; [|rewrite length_fmap; cbn; lia]. apply Forall_fmap, Forall_forall. intros x Hx. cbn. set_solver.
  - destruct (Nat.eqb_spec (length (u :: u2 :: us')) (length (p :: p2 :: ps'))) as [E|E]; [|cbn in *; split_and!; try done; lia].
    split; [|rewrite length_zip_with; lia]. apply Forall_lookup. intros i a Ha.
    apply lookup_zip_with_Some in Ha as (x & y & -> & Hx & Hy). cbn. split; by eapply list_elem_of_lookup_2.
Qed.

(** With users only, or passwords only, the credentials are lost: the empty
    one of the two lists is mapped. *)
Lemma auth_lost us ps : words us = [] \/ words ps = [] -> parseRedisAuth us ps = inl [].
Proof.
  unfold parseRedisAuth. intros [Hx|Hx]; rewrite Hx; [by destruct (words ps)|].
  destruct (words us) as [|u [|]]; reflexivity.
Qed.
End Redis.
