(* ===== verification/RedisClient.v ===== *)
(** * RedisClient: copying structs ([pkg/common/reflect.go]) and making a Redis client ([signal/redis.go])

    [ShallowCopy] copies the fields of a struct to those of the same names of another; [MakeRedisClient] uses it
    to turn the options of a cluster url into those of another kind of client.  The structs of the redis package
    are outside: the class [RedisStructs] gives their fields. *)
From S2P Require Import Prelude GoStrings Strconv Collection Config Redis.
Local Open Scope Z_scope.
Local Open Scope string_scope.
Local Open Scope list_scope.

(** ** [ShallowCopy] *)

(** A value as [reflect] shows it, with the name of its type; the flag of a field says that it is exported. *)
#[warnings="-register-all"]
Inductive fval :=
  | FStruct (typ : string) (fields : list (string * (bool * fval)))
  | FPtr (elem : string) (o : option fval)
  | FOther (typ : string) (x : string).

Definition type_of (v : fval) : bool * string :=
  match v with FStruct t _ => (false, t) | FPtr t _ => (true, t) | FOther t _ => (false, t) end.

Fixpoint FieldByName (n : string) (fs : list (string * (bool * fval))) : option (bool * fval) :=
  match fs with [] => None | (k, x) :: fs => if decide (k = n) then Some x else FieldByName n fs end.
Fixpoint set_field (n : string) (v : fval) (fs : list (string * (bool * fval))) : list (string * (bool * fval)) :=
  match fs with
  | [] => []
  | (k, (e, x)) :: fs => if decide (k = n) then (k, (e, v)) :: fs else (k, (e, x)) :: set_field n v fs
  end.

Definition zero_value {A} : run A := go_panic (PMsg "reflect: call of reflect.Value.Type on zero Value").

(** A pointer field is followed when the target has another type. *)
Definition indirect (x t : fval) : run fval :=
  if decide (type_of x = type_of t) then Ret x
  else match x with FPtr _ (Some y) => Ret y | FPtr _ None => zero_value | _ => Ret x end.

(** [shallowCopy] into the fields of a struct: a field whose target cannot be set is passed over, a struct is
    copied into the struct, its error dropped, and a difference of types ends the copy.  The error is the name of
    the field.  [shallowCopy] follows the pointers of its source, as [unwrapPointer] does. *)
Fixpoint shallowCopy (src : fval) (tfs : list (string * (bool * fval))) {struct src} : run (list (string * (bool * fval)) * option string) :=
  match src with
  | FPtr _ (Some v) => shallowCopy v tfs
  | FStruct _ fields =>
      (fix go (fs : list (string * (bool * fval))) (tfs : list (string * (bool * fval))) {struct fs} :=
         match fs with
         | [] => Ret (tfs, None)
         | (n, (_, x)) :: fs =>
             match FieldByName n tfs with
             | None => zero_value
             | Some (can, t) =>
                 y ← indirect x t;
                 if negb can then go fs tfs
                 else if decide (type_of y <> type_of t) then Ret (tfs, Some n)
                 else match t with
                      | FStruct tn sub => '(sub, _) ← shallowCopy x sub; go fs (set_field n (FStruct tn sub) tfs)
                      | _ => go fs (set_field n y tfs)
                      end
             end
         end) fields tfs
  | _ => Ret (tfs, Some "src must be a struct")
  end.

(** Pointers of the target are followed to a struct. *)
Fixpoint copy_into (src target : fval) {struct target} : run (fval * option string) :=
  match target with
  | FPtr e (Some t) => '(t, err) ← copy_into src t; Ret (FPtr e (Some t), err)
  | FStruct n tfs => '(tfs, err) ← shallowCopy src tfs; Ret (FStruct n tfs, err)
  | _ => Ret (target, Some "target must be a pointer to a struct")
  end.

(** The arguments are nil or values; the target is a pointer. *)
Definition ShallowCopy (src target : option fval) : run (option fval * option string) :=
  match src, target with
  | None, _ | _, None => Ret (target, None)
  | Some src, Some (FPtr e o) => '(t, err) ← copy_into src (FPtr e o); Ret (Some t, err)
  | Some _, Some _ => Ret (target, Some "target must be a pointer to a struct")
  end.

(** *** Properties *)

Definition settable (fs : list (string * (bool * fval))) (n : string) (ty : bool * string) : Prop :=
  exists t, FieldByName n fs = Some (true, t) /\ type_of t = ty /\ forall tn sub, t <> FStruct tn sub.

Lemma set_field_same n v fs e x : FieldByName n fs = Some (e, x) -> FieldByName n (set_field n v fs) = Some (e, v).
Proof.
  induction fs as [|[k [e' x']] fs IH]; [done|]. cbn. case_decide as E; cbn; [|rewrite decide_False by done; apply IH].
  intros [= <- <-]. by rewrite decide_True.
Qed.
Lemma set_field_other n m v fs : n <> m -> FieldByName m (set_field n v fs) = FieldByName m fs.
Proof.
  intros Hn. induction fs as [|[k [e' x']] fs IH]; [done|]. cbn. case_decide as E; cbn; case_decide; [|done|done|done]. congruence.
Qed.

(** With a settable field of the same name and type for each field, no struct among them, every value is copied and
    the other fields stay. *)
Lemma shallowCopy_correct t fields : forall tfs,
  NoDup fields.*1 -> Forall (fun f => settable tfs f.1 (type_of f.2.2)) fields ->
  exists tfs', shallowCopy (FStruct t fields) tfs = Ret (tfs', None) /\
    (forall n e x, (n, (e, x)) ∈ fields -> FieldByName n tfs' = Some (true, x)) /\
    (forall n, n ∉ fields.*1 -> FieldByName n tfs' = FieldByName n tfs).
Proof.
  induction fields as [|[n [e x]] fields IH]; intros tfs Hn Hf.
  - exists tfs. split; [done|]. split; [|done]. intros n e x Hx. by apply not_elem_of_nil in Hx.
  - apply NoDup_cons in Hn as [Hn Hnd]. apply Forall_cons in Hf as [(y & Hy & Ht & Hs) Hf]. cbn in Hy, Ht.
    destruct (IH (set_field n x tfs) Hnd) as (tfs' & Hc & Hin & Hout).
    { rewrite Forall_forall in Hf |- *. intros [m [e' z]] Hm. cbn. destruct (Hf _ Hm) as (y' & Hy' & Ht' & Hs'). cbn in Hy', Ht'.
      exists y'. split; [|done]. rewrite set_field_other; [done|]. intros ->. apply Hn. by apply (list_elem_of_fmap_2 fst) in Hm. }
    exists tfs'. split.
    + cbn in Hc |- *. rewrite Hy. unfold indirect. rewrite decide_True by done. rewrite bind_ret_l. cbn [negb].
      rewrite decide_False by (intros E; by apply E). destruct y; [by destruct (Hs typ fields0)|exact Hc|exact Hc].
    + split.
      * intros m e' z Hm. apply elem_of_cons in Hm as [[= -> -> ->]|Hm]; [|by eapply Hin].
        rewrite Hout by done. by eapply set_field_same.
      * intros m Hm. cbn in Hm. apply not_elem_of_cons in Hm as [Hm1 Hm2]. rewrite Hout by done. by rewrite set_field_other.
Qed.

(** A field the target does not have is a panic: the type of no value is asked for. *)
Lemma shallowCopy_missing t n e x fields tfs : FieldByName n tfs = None -> shallowCopy (FStruct t ((n, (e, x)) :: fields)) tfs = zero_value.
Proof. intros Hn. cbn. by rewrite Hn. Qed.

(** ** [MakeRedisClient] *)

Record FailoverOptions := {
  f_MasterName : string; f_SentinelAddrs : list string; f_ClientName : string; f_Username : string; f_Password : string
}.
Record RingOptions := {
  r_Addrs : gmap string string; r_ClientName : string; r_Username : string; r_Password : string;
  r_NewClient : option (list string * list redisAuth)
}.

(** The structs of the package as [reflect] shows them. *)
Class RedisStructs := {
  reflect_cluster : ClusterOptions -> fval;
  failover_zero : fval; failover_of : fval -> FailoverOptions;
  ring_zero : fval; ring_of : fval -> RingOptions
}.

Inductive redis_client :=
  | CStandalone (o : Options) | CCluster (o : ClusterOptions) | CSentinel (o : FailoverOptions) | CRing (o : RingOptions).

Section Client.
Context `{RedisLib, RedisStructs}.
(** [config.Conf().ClusterNodeName()], and the order of a map. *)
Context (clientName : string) (range : gmap string Options -> list (string * Options)).

Definition over (v dflt : string) : string := if decide (v <> "") then v else dflt.
Definition one_auth (auths : list redisAuth) : redisAuth := match auths with [a] => a | _ => {| User := ""; Pass := "" |} end.

(** The mode [auto] stands for. *)
Definition auto_mode (masterName : string) (m : gmap string Options) (c : option ClusterOptions) : redis_mode :=
  if decide (masterName <> "") then MSentinel
  else if match c with Some c => (0 <? length (c_Addrs c))%nat | None => false end || (1 <? size m)%nat then MCluster
  else MStandalone.

Definition make_standalone (cfg : RedisConfigure) (m : gmap string Options) (c : option ClusterOptions) (addrs : list string) (auths : list redisAuth)
    : run (redis_client + gerror) :=
  if negb (length addrs =? 1)%nat then Ret (inr InvalidConfig)
  else if (1 <? length auths)%nat then Ret (inr InvalidConfig)
  else
    let a := one_auth auths in
    opts ← match c with
           | Some _ =>
               let addr := TrimSpace (rd_Addrs cfg) in
               Ret (default {| Addr := addr; o_ClientName := ""; o_Username := ""; o_Password := "" |} (ParseURL addr))
           | None => match m !! hd "" addrs with Some o => Ret o | None => go_panic PNilDeref end
           end;
    Ret (inl (CStandalone {| Addr := Addr opts; o_ClientName := clientName; o_Username := over (User a) (o_Username opts);
                             o_Password := over (Pass a) (o_Password opts) |})).

Definition make_cluster (c : option ClusterOptions) (addrs : list string) (auths : list redisAuth) : redis_client + gerror :=
  let finish o := let a := one_auth auths in
    inl (CCluster {| c_Addrs := c_Addrs o; c_ClientName := clientName; c_Username := over (User a) (c_Username o);
                     c_Password := over (Pass a) (c_Password o); c_NewClient := c_NewClient o |}) in
  match c with
  | Some o => if (1 <? length auths)%nat then inr InvalidConfig else finish o
  | None =>
      let o n := {| c_Addrs := addrs; c_ClientName := ""; c_Username := ""; c_Password := ""; c_NewClient := n |} in
      if (1 <? length auths)%nat then
        if negb (length auths =? length addrs)%nat then inr InvalidConfig else finish (o (Some (addrs, auths)))
      else finish (o None)
  end.

(** The function given as [NewClient]: it is called with the options of a node, and sets those of the
    cluster, [shared]. *)
Definition NewClient (addrs : list string) (auths : list redisAuth) (shared : string * string) (opt : Options)
    : run ((string * string) * Options) :=
  let i := IndexOf addrs (Addr opt) None in
  if (i =? -1)%Z then go_panic (PCode 10000000)
  else match auths !! Z.to_nat i with
       | None => go_panic PIndex
       | Some auth => Ret ((over (User auth) shared.1, over (Pass auth) shared.2), opt)
       end.

Definition make_sentinel (cfg : RedisConfigure) (c : option ClusterOptions) (addrs : list string) (auths : list redisAuth)
    : run (redis_client + gerror) :=
  if decide (rd_MasterName cfg = "") then Ret (inr InvalidConfig)
  else if (1 <? length auths)%nat then Ret (inr InvalidConfig)
  else
    let a := one_auth auths in
    let finish o := Ret (inl (CSentinel {| f_MasterName := rd_MasterName cfg; f_SentinelAddrs := f_SentinelAddrs o; f_ClientName := clientName;
                                           f_Username := over (User a) (f_Username o); f_Password := over (Pass a) (f_Password o) |})) in
    match c with
    | Some c =>
        '(t, err) ← ShallowCopy (Some (FPtr "ClusterOptions" (Some (reflect_cluster c)))) (Some (FPtr "FailoverOptions" (Some failover_zero)));
        match err, t with
        | None, Some (FPtr _ (Some v)) => finish (failover_of v)
        | _, _ => Ret (inr (EConf 1000))
        end
    | None => finish {| f_MasterName := ""; f_SentinelAddrs := addrs; f_ClientName := ""; f_Username := ""; f_Password := "" |}
    end.

(** The addresses of a ring are numbered; the error of the copy is dropped. *)
Definition ring_addrs (addrs : list string) : gmap string string :=
  default ∅ (SliceToMap (Some addrs) (fun s index => (FormatInt (Z.of_nat index), s, false)) None).

Definition make_ring (c : option ClusterOptions) (addrs : list string) (auths : list redisAuth) : run (redis_client + gerror) :=
  let finish o := let a := one_auth auths in
    Ret (inl (CRing {| r_Addrs := r_Addrs o; r_ClientName := clientName; r_Username := over (User a) (r_Username o);
                       r_Password := over (Pass a) (r_Password o); r_NewClient := r_NewClient o |})) in
  match c with
  | Some c =>
      if (1 <? length auths)%nat then Ret (inr InvalidConfig)
      else '(t, _) ← ShallowCopy (Some (FPtr "ClusterOptions" (Some (reflect_cluster c)))) (Some (FPtr "RingOptions" (Some ring_zero)));
           finish (ring_of (match t with Some (FPtr _ (Some v)) => v | _ => ring_zero end))
  | None =>
      let o n := {| r_Addrs := ring_addrs addrs; r_ClientName := ""; r_Username := ""; r_Password := ""; r_NewClient := n |} in
      if (1 <? length auths)%nat then
        if negb (length auths =? length addrs)%nat then Ret (inr InvalidConfig) else finish (o (Some (addrs, auths)))
      else finish (o None)
  end.

Definition MakeRedisClient (cfg : RedisConfigure) : run (redis_client + gerror) :=
  match checkRedisMode (rd_Mode cfg) with
  | inr e => Ret (inr e)
  | inl mode =>
      match parseRedisOpts (rd_Addrs cfg) with
      | inr e => Ret (inr e)
      | inl (m, c) =>
          let mode := if decide (mode = MAuto) then auto_mode (rd_MasterName cfg) m c else mode in
          let addrs := match c with Some c => c_Addrs c | None => (range m).*1 end in
          match parseRedisAuth (rd_Users cfg) (rd_Passes cfg) with
          | inr e => Ret (inr e)
          | inl auths =>
              match mode with
              | MStandalone => make_standalone cfg m c addrs auths
              | MCluster => Ret (make_cluster c addrs auths)
              | MSentinel => make_sentinel cfg c addrs auths
              | MRing => make_ring c addrs auths
              | MAuto => Ret (inr (EConf 10000000))
              end
          end
      end
  end.
End Client.

(** ** Properties *)

Definition client_has (cl : redis_client) (a : string) : Prop :=
  match cl with
  | CStandalone o => a = Addr o
  | CCluster o => a ∈ c_Addrs o
  | CSentinel o => a ∈ f_SentinelAddrs o
  | CRing o => exists i, r_Addrs o !! i = Some a
  end.

Definition client_auth (cl : redis_client) : string * string * string :=
  match cl with
  | CStandalone o => (o_ClientName o, o_Username o, o_Password o)
  | CCluster o => (c_ClientName o, c_Username o, c_Password o)
  | CSentinel o => (f_ClientName o, f_Username o, f_Password o)
  | CRing o => (r_ClientName o, r_Username o, r_Password o)
  end.

Section ClientProps.
Context `{RedisLib, RedisStructs} (clientName : string) (range : gmap string Options -> list (string * Options)).
Context (range_perm : forall m, range m ≡ₚ map_to_list m).

Definition configured (addrs : string) (a : string) : Prop := exists x, x ∈ Split comma addrs /\ a = (addr_opts x).1.

Lemma addr_opts_key x : Addr (addr_opts x).2 = (addr_opts x).1.
Proof using Type. unfold addr_opts. by destruct (ParseURL _). Qed.

(** The map of options holds the configured addresses, each with options for itself. *)
Lemma parse_map addrs m :
  parseRedisOpts addrs = inl (m, None) -> (forall a, is_Some (m !! a) <-> configured addrs a) /\ forall a o, m !! a = Some o -> Addr o = a.
Proof using Type.
  unfold parseRedisOpts. case_decide; [done|]. destruct (ParseClusterURL addrs); [done|]. case_decide; [done|]. intros [= <-].
  unfold configured. generalize (Split comma addrs). intros l.
  assert (forall (m : gmap string Options) (P : string -> Prop),
    (forall a, is_Some (m !! a) <-> P a) -> (forall a o, m !! a = Some o -> Addr o = a) ->
    let m' := fold_left (fun m a => let '(k, o) := addr_opts a in <[k := o]> m) l m in
    (forall a, is_Some (m' !! a) <-> P a \/ exists x, x ∈ l /\ a = (addr_opts x).1) /\ (forall a o, m' !! a = Some o -> Addr o = a)) as Hg.
  { induction l as [|x l IH]; intros m P Hd1 Hd2; cbn.
    - split; [|done]. intros a. rewrite Hd1. split; [by left|]. intros [?|(x & Hx & _)]; [done|]. by apply not_elem_of_nil in Hx.
    - pose proof (addr_opts_key x) as Hk. destruct (addr_opts x) as [k o] eqn:Ex. cbn in Hk.
      destruct (IH (<[k := o]> m) (fun a => P a \/ a = k)) as [G1 G2].
      + intros a. rewrite lookup_insert_is_Some', Hd1. naive_solver.
      + intros a o'. rewrite lookup_insert_Some. intros [[<- <-]|[_ Ho]]; [done|by apply Hd2].
      + split; [|done]. intros a. rewrite G1. split.
        * intros [[?| ->]|(y & Hy & ->)]; [by left|right; exists x; rewrite Ex; split; [by left|done]|right; exists y; split; [by right|done]].
        * intros [?|(y & Hy & ->)]; [by left; left|]. apply elem_of_cons in Hy as [->|Hy]; [left; right; by rewrite Ex|right; by exists y]. }
  destruct (Hg ∅ (fun _ => False)) as [G1 G2]; [intros a; rewrite lookup_empty; split; [by intros [? ?]|done]|done|].
  split; [|done]. intros a. rewrite G1. naive_solver.
Qed.

(** The numbers of the addresses of a ring differ. *)
Lemma ring_addrs_has addrs a : (exists i, ring_addrs addrs !! i = Some a) <-> a ∈ addrs.
Proof using Type.
  unfold ring_addrs, SliceToMap. cbn [default id].
  set (f := fun (out : gmap string string) '(i, t) => _).
  assert (forall l k (m : gmap string string),
    (forall i, (k <= i)%nat -> m !! FormatInt (Z.of_nat i) = None) ->
    let m' := fold_left f (imap (fun j x => ((k + j)%nat, x)) l) m in
    (exists i, m' !! i = Some a) <-> (exists i, m !! i = Some a) \/ a ∈ l) as Hg.
  { induction l as [|x l IH]; intros k m Hm; cbn.
    - split; [by left|]. intros [?|Hx]; [done|]. by apply not_elem_of_nil in Hx.
    - rewrite Nat.add_0_r. rewrite (Hm k) by done.
      assert (imap ((fun j x => ((k + j)%nat, x)) ∘ S) l = imap (fun j x => ((S k + j)%nat, x)) l) as ->
        by (apply imap_ext; intros j y _; cbn; by rewrite Nat.add_succ_r).
      assert (forall i, (k < i)%nat -> FormatInt (Z.of_nat i) <> FormatInt (Z.of_nat k)) as Hne.
      { intros i Hi. unfold FormatInt. rewrite !decide_False by lia. intros E. apply FormatUint_inj in E; lia. }
      rewrite IH by (intros i Hi; rewrite lookup_insert_ne by (intros E; by apply (Hne i)); apply Hm; lia).
      rewrite elem_of_cons. split.
      + intros [(i & Hi)|?]; [|by right; right]. apply lookup_insert_Some in Hi as [[_ <-]|[_ Hi]]; [by right; left|left; by exists i].
      + intros [(i & Hi)|[->|?]]; [|left; eexists; apply lookup_insert_eq|by right].
        left. exists i. rewrite lookup_insert_ne; [done|]. intros <-. by rewrite Hm in Hi. }
  specialize (Hg addrs 0%nat ∅ (fun i _ => lookup_empty _)). cbn [Nat.add] in Hg.
  transitivity ((exists i, (∅ : gmap string string) !! i = Some a) \/ a ∈ addrs); [exact Hg|].
  split; [|by right]. intros [(i & Hi)|?]; [by rewrite lookup_empty in Hi|done].
Qed.

Lemma range_keys m a : a ∈ (range m).*1 <-> is_Some (m !! a).
Proof using range_perm.
  rewrite list_elem_of_fmap. split.
  - intros ([k o] & -> & Hk). rewrite range_perm in Hk. apply elem_of_map_to_list in Hk. by exists o.
  - intros [o Ho]. exists (a, o). split; [done|]. rewrite range_perm. by apply elem_of_map_to_list.
Qed.

Lemma over_some v d : v <> "" -> over v d = v.
Proof using Type. intros Hv. unfold over. by rewrite decide_True. Qed.

(** What a client made of a list of addresses must be. *)
Definition client_ok (addrs : list string) (auths : list redisAuth) (r : run (redis_client + gerror)) : Prop :=
  exists x, r = Ret x /\ forall cl, x = inl cl ->
    (forall a, client_has cl a <-> a ∈ addrs) /\ (client_auth cl).1.1 = clientName /\
    forall a, auths = [a] -> User a <> "" -> Pass a <> "" -> client_auth cl = (clientName, User a, Pass a).

Lemma client_ok_err addrs auths e : client_ok addrs auths (Ret (inr e)).
Proof using Type. by exists (inr e). Qed.

Lemma standalone_ok cfg m addrs auths :
  (forall a, a ∈ addrs -> is_Some (m !! a)) -> (forall a o, m !! a = Some o -> Addr o = a) ->
  client_ok addrs auths (make_standalone clientName cfg m None addrs auths).
Proof using Type.
  intros Hm Ha. unfold make_standalone. destruct addrs as [|a0 [|]]; cbn [length Nat.eqb negb hd]; try apply client_ok_err.
  destruct (Nat.ltb _ _); [apply client_ok_err|]. destruct (Hm a0 ltac:(by left)) as [o Ho]. rewrite Ho, bind_ret_l. eexists. split; [done|].
  intros cl [= <-]. cbn. split; [|split; [done|]].
  - intros a. rewrite (Ha a0 o Ho), list_elem_of_singleton. done.
  - intros a -> Hu Hp. cbn. by rewrite !over_some.
Qed.

Lemma cluster_ok addrs auths : client_ok addrs auths (Ret (make_cluster clientName None addrs auths)).
Proof using Type.
  unfold make_cluster. destruct (Nat.ltb _ _).
  - destruct (negb _); [apply client_ok_err|]. eexists. split; [done|]. intros cl [= <-]. cbn. split; [done|]. split; [done|].
    intros a -> Hu Hp. cbn. by rewrite !over_some.
  - eexists. split; [done|]. intros cl [= <-]. cbn. split; [done|]. split; [done|]. intros a -> Hu Hp. cbn. by rewrite !over_some.
Qed.

Lemma sentinel_ok cfg addrs auths : client_ok addrs auths (make_sentinel clientName cfg None addrs auths).
Proof using Type.
  unfold make_sentinel. case_decide; [apply client_ok_err|]. destruct (Nat.ltb _ _); [apply client_ok_err|].
  eexists. split; [done|]. intros cl [= <-]. cbn. split; [done|]. split; [done|]. intros a -> Hu Hp. cbn. by rewrite !over_some.
Qed.

Lemma ring_ok addrs auths : client_ok addrs auths (make_ring clientName None addrs auths).
Proof using Type.
  unfold make_ring. destruct (Nat.ltb _ _).
  - destruct (negb _); [apply client_ok_err|]. eexists. split; [done|]. intros cl [= <-]. cbn. split; [apply ring_addrs_has|]. split; [done|].
    intros a -> Hu Hp. cbn. by rewrite !over_some.
  - eexists. split; [done|]. intros cl [= <-]. cbn. split; [apply ring_addrs_has|]. split; [done|]. intros a -> Hu Hp. cbn. by rewrite !over_some.
Qed.

(** A list of addresses that is no cluster url.  [MakeRedisClient] does not panic; a client it makes, whatever the mode, connects to
    exactly the configured addresses, under the name of the node, and with the credentials when there is one user
    and one password. *)
Theorem MakeRedisClient_correct cfg :
  ParseClusterURL (rd_Addrs cfg) = None ->
  exists x, MakeRedisClient clientName range cfg = Ret x /\ forall cl, x = inl cl ->
    (forall a, client_has cl a <-> configured (rd_Addrs cfg) a) /\ (client_auth cl).1.1 = clientName /\
    forall a, parseRedisAuth (rd_Users cfg) (rd_Passes cfg) = inl [a] -> User a <> "" -> Pass a <> "" -> client_auth cl = (clientName, User a, Pass a).
Proof using range_perm.
  intros Hc. unfold MakeRedisClient. destruct (checkRedisMode _) as [mode|e]; [|by exists (inr e)].
  destruct (parseRedisOpts _) as [[m c]|e] eqn:Hp; [|by exists (inr e)].
  assert (c = None) as ->.
  { unfold parseRedisOpts in Hp. rewrite Hc in Hp. case_decide; [done|]. case_decide; [done|]. by injection Hp as _ <-. }
  destruct (parse_map _ _ Hp) as [Hm Ha]. destruct (parseRedisAuth _ _) as [auths|e]; [|by exists (inr e)].
  match goal with |- exists x, ?r = _ /\ _ => assert (client_ok (range m).*1 auths r) as (x & -> & Hx) end.
  { destruct (if decide (mode = MAuto) then _ else mode).
    - apply client_ok_err.
    - apply standalone_ok; [intros a; apply range_keys|done].
    - apply cluster_ok.
    - apply sentinel_ok.
    - apply ring_ok. }
  exists x. split; [done|]. intros cl ->. destruct (Hx cl eq_refl) as (Hh & Hn & Hau). split; [|split; [done|]].
  - intros a. by rewrite Hh, range_keys, Hm.
  - intros a [= ->]. by apply Hau.
Qed.

(** The credentials of a node are not given to its client: the options that are changed are those of the
    cluster. *)
Lemma node_auth_lost addrs auths shared opt shared' opt' : NewClient addrs auths shared opt = Ret (shared', opt') -> opt' = opt.
Proof using Type. unfold NewClient. destruct (_ =? _)%Z; [done|]. destruct (auths !! _); [|done]. by intros [= _ <-]. Qed.

(** A single url is a cluster to the mode [auto]. *)
Lemma single_url_cluster cfg c :
  c_Addrs c <> [] -> rd_MasterName cfg = "" -> auto_mode (rd_MasterName cfg) ∅ (Some c) = MCluster.
Proof using Type. intros Hc Hm. unfold auto_mode. rewrite Hm. cbn. by destruct (c_Addrs c). Qed.

(** The options of a cluster url cannot be turned into those of a sentinel: they begin with a field the latter do not have. *)
Lemma sentinel_url_panics cfg c addrs t e x fields n tfs :
  rd_MasterName cfg <> "" -> reflect_cluster c = FStruct t (("Addrs", (e, x)) :: fields) -> failover_zero = FStruct n tfs ->
  FieldByName "Addrs" tfs = None -> make_sentinel clientName cfg (Some c) addrs [] = zero_value.
Proof using Type.
  intros Hm Hr Hz Hf. unfold make_sentinel. rewrite decide_False by done. cbn [length Nat.ltb Nat.leb]. unfold ShallowCopy. rewrite Hr, Hz.
  cbn. by rewrite Hf.
Qed.
End ClientProps.
