(* ===== verification/WsSignal.v ===== *)
(** * WsSignal: messages and acknowledgements over a WebSocket ([websocket/signal.go])

    One side of a connection is the record [WebSocketSignal]; a Go channel is
    its number.  [SendMsg] is cut where it waits: [SendMsg_send] is the code up
    to the write, [SendMsg_wait] lists what its [select] may return.  The
    handler of incoming text is [msg_handler]; a callback it calls and a value
    it sends on a channel are effects.  [encoding/json] and [mapstructure] are
    parameters. *)
From S2P Require Import Prelude GoStrings Strconv Errors.
Local Open Scope Z_scope.
Local Open Scope list_scope.

Class JSON := {
  any : Type;
  any_nil : any;
  IsNilInterface : any -> bool;
  json_Marshal : any -> string + gerror;
  json_Unmarshal : string -> any + gerror;
  (** the JSON object of an error, and [mapstructure.Decode] into one *)
  any_of_error : ConferenceError any -> any;
  decode_error : any -> ConferenceError any + gerror
}.

(** Values are JSON values, and what is decoded is what was encoded. *)
Class JSONLaws `{JSON} := {
  unmarshal_marshal x s : json_Marshal x = inl s -> json_Unmarshal s = inl x;
  marshal_nonempty x : json_Marshal x <> inl ""%string
}.

Section Signal.
Context `{JSON}.

(** ** The text format: evt;msg_id;flag;json *)

Definition semicolon : Ascii.ascii := Ascii.ascii_of_nat 59.

Definition WS_MSG_FLAG_IS_ACK_NORMAL : Z := 0.
Definition WS_MSG_FLAG_IS_ACK_ERR : Z := 1.
Definition WS_MSG_FLAG_NEED_ACK : Z := 2.
Definition WS_MSG_FLAG_NO_ACK : Z := 4.

Definition isValidWsMsgFlag (flag : Z) : bool := (flag =? 0) || (flag =? 1) || (flag =? 2) || (flag =? 4).
Definition is_normal_ack (flag : Z) : bool := flag =? WS_MSG_FLAG_IS_ACK_NORMAL.
Definition is_err_ack (flag : Z) : bool := flag =? WS_MSG_FLAG_IS_ACK_ERR.
Definition is_ack (flag : Z) : bool := is_normal_ack flag || is_err_ack flag.
Definition need_ack (flag : Z) : bool := flag =? WS_MSG_FLAG_NEED_ACK.

Definition ws_text (evt : string) (msg_id flag : Z) (data : string) : string :=
  (evt +:+ String semicolon (FormatUint msg_id +:+ String semicolon (FormatInt flag +:+ String semicolon data)))%string.

Definition encodeWsTextData (evt : string) (msg_id flag : Z) (data : any) : string + gerror :=
  match json_Marshal data with
  | inr e => inr e
  | inl data_str => inl (ws_text evt msg_id flag data_str)
  end.

(** [err] is the named result, nil until it is set, also where it is wrapped. *)
Definition decodeWsTextData (s : string) : run ((string * Z * Z * string) + ConferenceError any) :=
  let err : option (ConferenceError any) := None in
  let invalid := e ← FatalError "invalid ws msg format" None; Ret (inr e) in
  match cut_at semicolon s with
  | None => invalid
  | Some (evt, s) =>
      match cut_at semicolon s with
      | None => invalid
      | Some (id_str, s) =>
          match ParseUint id_str 64 with
          | None => e ← FatalError "unable to parse msg id when decoding msg" (Some (EPtr err)); Ret (inr e)
          | Some msg_id =>
              match cut_at semicolon s with
              | None => invalid
              | Some (flag_str, data) =>
                  match ParseUint flag_str 8 with
                  | None => e ← FatalError "unable to parse ack flag when decoding msg" (Some (EPtr err)); Ret (inr e)
                  | Some flag =>
                      if isValidWsMsgFlag flag then Ret (inl (evt, msg_id, flag, data))
                      else e ← FatalError "invalid flag in ws msg" None; Ret (inr e)
                  end
              end
          end
      end
  end.

(** ** The signal *)

Inductive WsSignalMode := WS_SIGNAL_MODE_CLIENT | WS_SIGNAL_MODE_SERVER.

Record ackArgs := { aa_arg : any; aa_err : option (ConferenceError any) }.

(** A callback is only there or not; [conn_ch] and [close_ch] tell whether the
    channel is closed.  [next_ch] numbers the channels made so far. *)
Record WebSocketSignal := {
  mode : WsSignalMode; conn : bool; conn_ch : bool; next_msg_id : Z; closed : bool; close_err : option gerror;
  close_cb : bool; close_ch : bool; msg_cb : bool; custom_msg_cb : bool; custom_ack_msg_cb : bool; acks : gmap Z nat;
  next_ch : nat
}.

Definition set_acks (a : gmap Z nat) (s : WebSocketSignal) : WebSocketSignal :=
  {| mode := mode s; conn := conn s; conn_ch := conn_ch s; next_msg_id := next_msg_id s; closed := closed s;
     close_err := close_err s; close_cb := close_cb s; close_ch := close_ch s; msg_cb := msg_cb s;
     custom_msg_cb := custom_msg_cb s; custom_ack_msg_cb := custom_ack_msg_cb s; acks := a; next_ch := next_ch s |}.
Definition set_ids (id : Z) (ch : nat) (s : WebSocketSignal) : WebSocketSignal :=
  {| mode := mode s; conn := conn s; conn_ch := conn_ch s; next_msg_id := id; closed := closed s;
     close_err := close_err s; close_cb := close_cb s; close_ch := close_ch s; msg_cb := msg_cb s;
     custom_msg_cb := custom_msg_cb s; custom_ack_msg_cb := custom_ack_msg_cb s; acks := acks s; next_ch := ch |}.
Definition set_conn (s : WebSocketSignal) : WebSocketSignal :=
  {| mode := mode s; conn := true; conn_ch := true; next_msg_id := next_msg_id s; closed := closed s;
     close_err := close_err s; close_cb := close_cb s; close_ch := close_ch s; msg_cb := msg_cb s;
     custom_msg_cb := custom_msg_cb s; custom_ack_msg_cb := custom_ack_msg_cb s; acks := acks s; next_ch := next_ch s |}.
Definition set_closed (cl : bool) (e : option gerror) (s : WebSocketSignal) : WebSocketSignal :=
  {| mode := mode s; conn := conn s; conn_ch := conn_ch s; next_msg_id := next_msg_id s; closed := cl;
     close_err := e; close_cb := close_cb s; close_ch := true; msg_cb := msg_cb s;
     custom_msg_cb := custom_msg_cb s; custom_ack_msg_cb := custom_ack_msg_cb s; acks := acks s; next_ch := next_ch s |}.
Definition set_cbs (cl m c ca : bool) (s : WebSocketSignal) : WebSocketSignal :=
  {| mode := mode s; conn := conn s; conn_ch := conn_ch s; next_msg_id := next_msg_id s; closed := closed s;
     close_err := close_err s; close_cb := cl; close_ch := close_ch s; msg_cb := m;
     custom_msg_cb := c; custom_ack_msg_cb := ca; acks := acks s; next_ch := next_ch s |}.

Definition NewWebSocketSignal (m : WsSignalMode) : WebSocketSignal :=
  {| mode := m; conn := false; conn_ch := false;
     next_msg_id := match m with WS_SIGNAL_MODE_CLIENT => 1 | WS_SIGNAL_MODE_SERVER => 0 end;
     closed := false; close_err := None; close_cb := false; close_ch := false; msg_cb := false; custom_msg_cb := false;
     custom_ack_msg_cb := false; acks := ∅; next_ch := 0 |}.

Inductive effect :=
  | ToChan (ch : nat) (a : ackArgs)
  | CallMsg (evt : string) (ack : option Z) (data : any)
  | CallCustom (evt : string) (data : any)
  | CallCustomAck (data : any)
  | CallClose (err : option gerror).

Definition close_of_closed {A} : run A := go_panic (PMsg "close of closed channel").

(** The handlers given to the upgrader. *)
Definition on_open (s : WebSocketSignal) : run WebSocketSignal :=
  if conn_ch s then close_of_closed else Ret (set_conn s).

Definition on_close (s : WebSocketSignal) (err : option gerror) : run (WebSocketSignal * list effect) :=
  if close_ch s then close_of_closed
  else if closed s then Ret (set_closed true (close_err s) s, [])
  else Ret (set_closed true err s, if close_cb s then [CallClose err] else []).

(** The payload of a message: its value, and the error found in it. *)
Definition read_data (flag : Z) (data_str : string) : run (any * option (ConferenceError any)) :=
  if decide (data_str = ""%string) then Ret (any_nil, None)
  else match json_Unmarshal data_str with
       | inr _ => e ← FatalError "unable to decode message" None; Ret (any_nil, Some e)
       | inl data =>
           if is_err_ack flag then
             match decode_error data with
             | inr _ => e ← FatalError "unable to decode the ack err" (Some (EStd "mapstructure")); Ret (data, Some e)
             | inl ce => Ret (data, Some ce)
             end
           else Ret (data, None)
       end.

Definition msg_handler (s : WebSocketSignal) (text : bool) (b : string) : run (WebSocketSignal * list effect) :=
  if negb text then Ret (s, [])
  else
    d ← decodeWsTextData b;
    match d with
    | inr _ => Ret (s, [])
    | inl (evt, msg_id, flag, data_str) =>
        '(data, err) ← read_data flag data_str;
        if is_ack flag then
          match acks s !! msg_id with
          | None => Ret (s, [])
          | Some ch =>
              a ← match err with
                  | Some e => Ret {| aa_arg := any_nil; aa_err := Some e |}
                  | None =>
                      if is_err_ack flag then
                        e ← NewError INVALID_STATE "this is impossible, if happened, must be a bug" None;
                        Ret {| aa_arg := any_nil; aa_err := Some e |}
                      else Ret {| aa_arg := data; aa_err := None |}
                  end;
              Ret (set_acks (delete msg_id (acks s)) s, [ToChan ch a])
          end
        else if HasPrefix evt "custom:" then
          if custom_msg_cb s then Ret (s, [CallCustom (String.substring 7 (String.length evt - 7) evt) data]) else go_panic PNilDeref
        else if decide (evt = "custom-ack"%string) then
          if custom_ack_msg_cb s then Ret (s, [CallCustomAck data]) else go_panic PNilDeref
        else if msg_cb s then Ret (s, [CallMsg evt (if need_ack flag then Some msg_id else None) data])
        else Ret (s, [])
    end.

(** The acknowledgement function given to a callback: the text it writes, or
    nothing when the value cannot be encoded. *)
Definition ack_fun (msg_id : Z) (args : list any) (err : option (ConferenceError any)) : option string :=
  let r := match err with
           | Some e => encodeWsTextData "" msg_id WS_MSG_FLAG_IS_ACK_ERR (any_of_error e)
           | None => encodeWsTextData "" msg_id WS_MSG_FLAG_IS_ACK_NORMAL (hd any_nil args)
           end in
  match r with inl msg => Some msg | inr _ => None end.

(** ** Sending *)

(** What a [select] may do; no outcome means that it blocks. *)
Definition waitConn (s : WebSocketSignal) (ctx_done : option gerror) : list (option gerror) :=
  if conn s then [None]
  else (match ctx_done with Some e => [Some e] | None => [] end) ++
       (if conn_ch s then [None] else []) ++ (if close_ch s then [Some (EOther "net.ErrClosed")] else []).

Definition release (msg_id : Z) (s : WebSocketSignal) : WebSocketSignal := set_acks (delete msg_id (acks s)) s.

(** Up to the write, once there is a connection; [write] is the result of
    [WriteMessage].  The channel is there when the call will wait. *)
Definition SendMsg_send (s : WebSocketSignal) (ack : bool) (evt : string) (args : list any) (write : string -> option gerror)
    : WebSocketSignal * ((string * Z * option nat) + gerror) :=
  match args with
  | _ :: _ :: _ => (s, inr (EConf 15000))
  | _ =>
      let arg := hd any_nil args in
      let msg_id := u64 (next_msg_id s + 2) in
      let ch := if ack then Some (next_ch s) else None in
      let flag := if ack then WS_MSG_FLAG_NEED_ACK else WS_MSG_FLAG_NO_ACK in
      let s1 := set_ids msg_id (if ack then S (next_ch s) else next_ch s) s in
      let s2 := if ack then set_acks (<[msg_id := next_ch s]> (acks s1)) s1 else s1 in
      let released := if ack then release msg_id s2 else s2 in
      match encodeWsTextData evt msg_id flag arg with
      | inr e => (released, inr e)
      | inl msg => match write msg with
                   | Some e => (released, inr e)
                   | None => (s2, inl (msg, msg_id, ch))
                   end
      end
  end.

Definition ack_result (a : ackArgs) : list any + go_error any :=
  match aa_err a with
  | Some e => inr (EPtr (Some e))
  | None => if IsNilInterface (aa_arg a) then inl [] else inl [aa_arg a]
  end.

(** [EStd] errors of the three cases that are not an answer. *)
Definition SendMsg_wait (s : WebSocketSignal) (msg_id : Z) (ctx_done : option string) (sent : option ackArgs)
    : list (WebSocketSignal * (list any + go_error any)) :=
  (if close_ch s then [(s, inr (EStd (match close_err s with Some _ => "close_err" | None => "net.ErrClosed" end)))] else []) ++
  (match ctx_done with Some e => [(release msg_id s, inr (EStd e))] | None => [] end) ++
  (match sent with Some a => [(s, ack_result a)] | None => [] end).

(** ** Registration *)

Definition On (s : WebSocketSignal) : WebSocketSignal := set_cbs (close_cb s) true (custom_msg_cb s) (custom_ack_msg_cb s) s.
Definition OnCustom (s : WebSocketSignal) : WebSocketSignal := set_cbs (close_cb s) (msg_cb s) true (custom_ack_msg_cb s) s.
Definition OnCustomAck (s : WebSocketSignal) : WebSocketSignal := set_cbs (close_cb s) (msg_cb s) (custom_msg_cb s) true s.
Definition OnClose (s : WebSocketSignal) : WebSocketSignal * list effect :=
  if closed s then (s, [CallClose (close_err s)]) else (set_cbs true (msg_cb s) (custom_msg_cb s) (custom_ack_msg_cb s) s, []).

(** ** Decoding what was encoded *)

Lemma semicolon_not_digit : ~ is_digit semicolon.
Proof. unfold is_digit, semicolon. cbv. lia. Qed.

Lemma isValid_range flag : isValidWsMsgFlag flag = true -> 0 <= flag < 256.
Proof. unfold isValidWsMsgFlag. intros Hf. repeat (apply orb_prop in Hf as [Hf|Hf]); apply Z.eqb_eq in Hf; lia. Qed.

Lemma decode_text evt msg_id flag data :
  has_char semicolon evt = false -> is_u64 msg_id -> isValidWsMsgFlag flag = true ->
  decodeWsTextData (ws_text evt msg_id flag data) = Ret (inl (evt, msg_id, flag, data)).
Proof.
  intros He Hid Hf. pose proof (isValid_range flag Hf) as Hr. unfold decodeWsTextData, ws_text. rewrite cut_at_app by done.
  rewrite cut_at_app by (apply FormatUint_chars, semicolon_not_digit). rewrite ParseUint_FormatUint by exact Hid.
  unfold FormatInt. rewrite decide_False by lia. rewrite cut_at_app by (apply FormatUint_chars, semicolon_not_digit).
  rewrite ParseUint_FormatUint by lia. by rewrite Hf.
Qed.

End Signal.
