(* ===== verification/WsPeers.v ===== *)
(** * WsPeers: the two ends of a WebSocket connection

    A client and a server exchange text over two FIFO links.  Every [SendMsg]
    of either end is an entry of [calls], with its result once it returned;
    the handler of incoming text runs one message at a time and blocks on the
    unbuffered channel of a call ([hand]) until the call receives from it; the
    acknowledgement functions handed to callbacks are kept ([helds]), since a
    callback may call one at any time and more than once ([ackeds]).  All
    interleavings of the two ends are runs of [sys_step]. *)
From S2P Require Import Prelude GoStrings Strconv Errors WsSignal.
Local Open Scope Z_scope.
Local Open Scope list_scope.

Section Peers.
Context `{HJ : JSON}.

Record call := { c_evt : string; c_arg : any; c_id : Z; c_ch : option nat }.
Record held := { h_evt : string; h_data : any; h_id : Z }.
Record acked := { a_req : held; a_args : list any; a_err : option (ConferenceError any) }.

Record peer := {
  sig : WebSocketSignal; calls : list call; results : gmap nat (list any + go_error any);
  hand : option (nat * ackArgs); helds : list held; ackeds : list acked; inbox : list string
}.

Definition set_sig (s : WebSocketSignal) (p : peer) : peer :=
  {| sig := s; calls := calls p; results := results p; hand := hand p; helds := helds p; ackeds := ackeds p; inbox := inbox p |}.
Definition add_call (s : WebSocketSignal) (c : call) (p : peer) : peer :=
  {| sig := s; calls := calls p ++ [c]; results := results p; hand := hand p; helds := helds p; ackeds := ackeds p; inbox := inbox p |}.
Definition received (s : WebSocketSignal) (rest : list string) (h : option (nat * ackArgs)) (hs : list held) (p : peer) : peer :=
  {| sig := s; calls := calls p; results := results p; hand := h; helds := helds p ++ hs; ackeds := ackeds p; inbox := rest |}.
Definition add_acked (a : acked) (p : peer) : peer :=
  {| sig := sig p; calls := calls p; results := results p; hand := hand p; helds := helds p; ackeds := ackeds p ++ [a]; inbox := inbox p |}.
Definition returned (s : WebSocketSignal) (i : nat) (r : list any + go_error any) (h : option (nat * ackArgs)) (p : peer) : peer :=
  {| sig := s; calls := calls p; results := <[i := r]> (results p); hand := h; helds := helds p; ackeds := ackeds p; inbox := inbox p |}.
Definition push_in (out : list string) (p : peer) : peer :=
  {| sig := sig p; calls := calls p; results := results p; hand := hand p; helds := helds p; ackeds := ackeds p; inbox := inbox p ++ out |}.

Definition to_hand (effs : list effect) : option (nat * ackArgs) := head (omap (fun e => match e with ToChan ch a => Some (ch, a) | _ => None end) effs).
Definition to_held (effs : list effect) : list held :=
  omap (fun e => match e with CallMsg evt (Some id) d => Some {| h_evt := evt; h_data := d; h_id := id |} | _ => None end) effs.

(** One step of one end, and what it puts on the wire.  Ids do not wrap
    around, and event names have no semicolon. *)
Inductive peer_step (p : peer) : peer -> list string -> Prop :=
  | PSend ctx_done ack evt args write s' msg id ch :
      None ∈ waitConn (sig p) ctx_done -> has_char semicolon evt = false -> next_msg_id (sig p) + 2 < 18446744073709551616 ->
      SendMsg_send (sig p) ack evt args write = (s', inl (msg, id, ch)) ->
      peer_step p (add_call s' {| c_evt := evt; c_arg := hd any_nil args; c_id := id; c_ch := ch |} p) [msg]
  | PSendFails ctx_done ack evt args write s' e :
      None ∈ waitConn (sig p) ctx_done -> next_msg_id (sig p) + 2 < 18446744073709551616 ->
      SendMsg_send (sig p) ack evt args write = (s', inr e) -> peer_step p (set_sig s' p) []
  | PRecv b rest s' effs :
      inbox p = b :: rest -> hand p = None -> msg_handler (sig p) true b = Ret (s', effs) ->
      peer_step p (received s' rest (to_hand effs) (to_held effs) p) []
  | PAck h args err :
      h ∈ helds p ->
      peer_step p (add_acked {| a_req := h; a_args := args; a_err := err |} p) (option_list (ack_fun (h_id h) args err))
  | PDeliver i c ch a :
      hand p = Some (ch, a) -> calls p !! i = Some c -> c_ch c = Some ch -> results p !! i = None ->
      (sig p, ack_result a) ∈ SendMsg_wait (sig p) (c_id c) None (Some a) ->
      peer_step p (returned (sig p) i (ack_result a) None p) []
  | PGiveUp i c ch ctx_done s' r :
      calls p !! i = Some c -> c_ch c = Some ch -> results p !! i = None ->
      (s', r) ∈ SendMsg_wait (sig p) (c_id c) ctx_done None ->
      peer_step p (returned s' i r (hand p) p) []
  | POpen s' : on_open (sig p) = Ret s' -> peer_step p (set_sig s' p) []
  | PClosed err s' effs : on_close (sig p) err = Ret (s', effs) -> peer_step p (set_sig s' p) []
  | PRegister s' : s' ∈ [On (sig p); OnCustom (sig p); OnCustomAck (sig p); (OnClose (sig p)).1] -> peer_step p (set_sig s' p) [].

Inductive sys_step : peer * peer -> peer * peer -> Prop :=
  | SClient p q p' out : peer_step p p' out -> sys_step (p, q) (p', push_in out q)
  | SServer p q q' out : peer_step q q' out -> sys_step (p, q) (push_in out p, q').

Definition new_peer (m : WsSignalMode) : peer :=
  {| sig := NewWebSocketSignal m; calls := []; results := ∅; hand := None; helds := []; ackeds := []; inbox := [] |}.
Definition sys0 : peer * peer := (new_peer WS_SIGNAL_MODE_CLIENT, new_peer WS_SIGNAL_MODE_SERVER).

(** ** What the ends know of each other *)

Definition flag_of (c : call) : Z := match c_ch c with Some _ => WS_MSG_FLAG_NEED_ACK | None => WS_MSG_FLAG_NO_ACK end.

(** What the caller receives of an acknowledgement. *)
Definition answer_args (a : acked) : ackArgs :=
  match a_err a with
  | None => {| aa_arg := hd any_nil (a_args a); aa_err := None |}
  | Some e => {| aa_arg := any_nil;
                 aa_err := Some (match decode_error (any_of_error e) with
                                 | inl e' => e'
                                 | inr _ => mkError ERR_FATAL "unable to decode the ack err" None [] "mapstructure" (Some (EStd "mapstructure"))
                                 end) |}
  end.

Definition text_of_call (p : peer) (m : string) : Prop :=
  exists c str, c ∈ calls p /\ has_char semicolon (c_evt c) = false /\ json_Marshal (c_arg c) = inl str /\
    m = ws_text (c_evt c) (c_id c) (flag_of c) str.
Definition text_of_ack (p : peer) (m : string) : Prop :=
  exists a, a ∈ ackeds p /\ ack_fun (h_id (a_req a)) (a_args a) (a_err a) = Some m.

Definition parity (m : WsSignalMode) : Z := match m with WS_SIGNAL_MODE_CLIENT => 1 | WS_SIGNAL_MODE_SERVER => 0 end.

(** The ids and channels of one end. *)
Record ids_ok (p : peer) : Prop := {
  io_next : 0 <= next_msg_id (sig p) < 18446744073709551616;
  io_parity : next_msg_id (sig p) mod 2 = parity (mode (sig p));
  io_range c : c ∈ calls p -> 0 <= c_id c <= next_msg_id (sig p) /\ c_id c mod 2 = parity (mode (sig p));
  io_unique i j c c' : calls p !! i = Some c -> calls p !! j = Some c' -> c_id c = c_id c' -> i = j;
  io_chan i j c c' ch : calls p !! i = Some c -> calls p !! j = Some c' -> c_ch c = Some ch -> c_ch c' = Some ch -> i = j;
  io_fresh c ch : c ∈ calls p -> c_ch c = Some ch -> (ch < next_ch (sig p))%nat;
  io_acks id ch : acks (sig p) !! id = Some ch -> exists c, c ∈ calls p /\ c_id c = id /\ c_ch c = Some ch
}.

(** What [q] and the wire hold of the calls of [p]. *)
Record linked (p q : peer) : Prop := {
  li_wire m : m ∈ inbox q -> text_of_call p m \/ text_of_ack p m;
  li_held h : h ∈ helds q -> exists c, c ∈ calls p /\ c_evt c = h_evt h /\ c_arg c = h_data h /\ c_id c = h_id h;
  li_acked a : a ∈ ackeds q -> a_req a ∈ helds q;
  li_hand ch x : hand p = Some (ch, x) ->
    exists c a, c ∈ calls p /\ c_ch c = Some ch /\ a ∈ ackeds q /\ h_id (a_req a) = c_id c /\ x = answer_args a;
  li_result i r : results p !! i = Some r ->
    exists c, calls p !! i = Some c /\
      ((exists a, a ∈ ackeds q /\ h_id (a_req a) = c_id c /\ r = ack_result (answer_args a)) \/ exists m, r = inr (EStd m))
}.

(** ** Receiving *)

Context {HL : JSONLaws}.

Lemma read_call_data flag x str : json_Marshal x = inl str -> is_err_ack flag = false -> read_data flag str = Ret (x, None).
Proof.
  intros Hs Hf. unfold read_data. rewrite decide_False by (intros ->; by apply (marshal_nonempty x)).
  by rewrite (unmarshal_marshal x str Hs), Hf.
Qed.

(** A message that is not an acknowledgement reaches no channel, and a
    callback is given its event, value and id. *)
Lemma recv_call s c str s' effs :
  has_char semicolon (c_evt c) = false -> is_u64 (c_id c) -> json_Marshal (c_arg c) = inl str ->
  msg_handler s true (ws_text (c_evt c) (c_id c) (flag_of c) str) = Ret (s', effs) ->
  s' = s /\ to_hand effs = None /\ (forall h, h ∈ to_held effs -> h = {| h_evt := c_evt c; h_data := c_arg c; h_id := c_id c |}).
Proof.
  intros He Hid Hs. unfold msg_handler. cbn [negb].
  rewrite decode_text by (done || (by unfold flag_of; destruct (c_ch c))). rewrite bind_ret_l.
  rewrite (read_call_data _ (c_arg c)), bind_ret_l by (done || (by unfold flag_of; destruct (c_ch c))).
  replace (is_ack (flag_of c)) with false by (unfold flag_of; by destruct (c_ch c)).
  destruct (HasPrefix _ _); [destruct (custom_msg_cb s); [|done]; intros [= <- <-]; cbn; set_solver|].
  case_decide; [destruct (custom_ack_msg_cb s); [|done]; intros [= <- <-]; cbn; set_solver|].
  destruct (msg_cb s); intros [= <- <-]; [|cbn; set_solver]. split_and!; [done..|].
  destruct (need_ack _); cbn; set_solver.
Qed.

(** An acknowledgement goes to the channel waiting for its id, once. *)
Lemma recv_ack s (a : acked) b :
  let id := h_id (a_req a) in
  is_u64 id -> ack_fun id (a_args a) (a_err a) = Some b ->
  msg_handler s true b = Ret (match acks s !! id with
                              | Some ch => (set_acks (delete id (acks s)) s, [ToChan ch (answer_args a)])
                              | None => (s, [])
                              end).
Proof.
  intros id Hid. unfold ack_fun, encodeWsTextData, answer_args, msg_handler. cbn [negb]. fold id.
  destruct (a_err a) as [e|].
  - destruct (json_Marshal (any_of_error e)) as [str|] eqn:Hs; [|done]. intros [= <-].
    rewrite decode_text by done. rewrite bind_ret_l. unfold read_data.
    rewrite decide_False by (intros ->; by eapply marshal_nonempty). rewrite (unmarshal_marshal _ _ Hs).
    change (is_err_ack WS_MSG_FLAG_IS_ACK_ERR) with true. change (is_ack WS_MSG_FLAG_IS_ACK_ERR) with true. cbn beta iota.
    destruct (decode_error (any_of_error e)) as [e'|ge]; cbn; by destruct (acks s !! id).
  - destruct (json_Marshal (hd any_nil (a_args a))) as [str|] eqn:Hs; [|done]. intros [= <-].
    rewrite decode_text by done. rewrite bind_ret_l, (read_call_data _ _ _ Hs), bind_ret_l by done.
    change (is_ack WS_MSG_FLAG_IS_ACK_NORMAL) with true. change (is_err_ack WS_MSG_FLAG_IS_ACK_NORMAL) with false. cbn beta iota.
    by destruct (acks s !! id).
Qed.

(** ** Sending *)

Lemma send_inv s ack evt args write s' r :
  SendMsg_send s ack evt args write = (s', r) ->
  mode s' = mode s /\
  match r with
  | inl (msg, id, ch) =>
      id = u64 (next_msg_id s + 2) /\ next_msg_id s' = id /\ ch = (if ack then Some (next_ch s) else None) /\
      next_ch s' = (if ack then S (next_ch s) else next_ch s) /\ acks s' = (if ack then <[id := next_ch s]> (acks s) else acks s) /\
      exists str, json_Marshal (hd any_nil args) = inl str /\
        msg = ws_text evt id (if ack then WS_MSG_FLAG_NEED_ACK else WS_MSG_FLAG_NO_ACK) str
  | inr _ => (next_msg_id s' = u64 (next_msg_id s + 2) \/ next_msg_id s' = next_msg_id s) /\ (next_ch s <= next_ch s')%nat /\
      (forall k ch, acks s' !! k = Some ch -> acks s !! k = Some ch)
  end.
Proof.
  assert (forall k ch, delete (u64 (next_msg_id s + 2)) (<[u64 (next_msg_id s + 2):=next_ch s]> (acks s)) !! k = Some ch -> acks s !! k = Some ch) as Hdel.
  { intros k ch. rewrite lookup_delete_Some. intros [Hne Hk]. by rewrite lookup_insert_ne in Hk. }
  unfold SendMsg_send, encodeWsTextData.
  destruct args as [|x [|y args]]; [| |intros [= <- <-]; split_and!; [done|by right|lia|done]];
    (destruct (json_Marshal _) as [str|e] eqn:Hs;
      [destruct (write _); [|destruct ack; intros [= <- <-]; split_and!; try done; by eexists]|];
      destruct ack; intros [= <- <-]; cbn; (split; [done|]; split; [by left|]; split; [lia|]); intros k ch Hk;
      (by apply Hdel) || done).
Qed.

Lemma wait_inv s id ctx_done s' r :
  (s', r) ∈ SendMsg_wait s id ctx_done None -> (s' = s \/ s' = release id s) /\ exists m, r = inr (EStd m).
Proof.
  unfold SendMsg_wait. rewrite app_nil_r. destruct (close_ch s), ctx_done; cbn; intros Hin;
    repeat (apply elem_of_cons in Hin as [Hin|Hin]); try (by inversion Hin); simplify_eq; eauto.
Qed.

(** ** Preservation *)

Lemma lookup_snoc_inv {A} (l : list A) i x y : (l ++ [x]) !! i = Some y -> l !! i = Some y \/ (i = length l /\ y = x).
Proof. rewrite lookup_app_Some. intros [?|[Hi Hx]]; [by left|]. right. apply list_lookup_singleton_Some in Hx as [? ->]. split; [lia|done]. Qed.

(** Only the acknowledgement table and the callbacks change. *)
Lemma ids_ok_sig p p' :
  calls p' = calls p -> mode (sig p') = mode (sig p) -> next_msg_id (sig p) <= next_msg_id (sig p') < 18446744073709551616 ->
  next_msg_id (sig p') mod 2 = next_msg_id (sig p) mod 2 -> (next_ch (sig p) <= next_ch (sig p'))%nat ->
  (forall k ch, acks (sig p') !! k = Some ch -> acks (sig p) !! k = Some ch) -> ids_ok p -> ids_ok p'.
Proof.
  intros Ec Em En Ep Eh Ea [H1 H2 H3 H4 H5 H6 H7]. split; rewrite ?Ec, ?Em, ?Ep; try done; [lia|..].
  - intros c Hc. destruct (H3 c Hc). lia.
  - intros c ch Hc Hch. specialize (H6 c ch Hc Hch). lia.
  - intros id ch Hid. apply H7. by apply Ea.
Qed.

Lemma next_id (n : Z) (m : WsSignalMode) :
  0 <= n -> n + 2 < 18446744073709551616 -> n mod 2 = parity m ->
  u64 (n + 2) = n + 2 /\ (n + 2) mod 2 = parity m.
Proof. intros Hn Hb Hp. rewrite u64_id by lia. split; [done|]. rewrite <- Hp. Z.to_euclidean_division_equations. lia. Qed.

Lemma add_call_ids p ack evt args write s' msg id ch :
  ids_ok p -> next_msg_id (sig p) + 2 < 18446744073709551616 ->
  SendMsg_send (sig p) ack evt args write = (s', inl (msg, id, ch)) ->
  ids_ok (add_call s' {| c_evt := evt; c_arg := hd any_nil args; c_id := id; c_ch := ch |} p).
Proof.
  intros [H1 H2 H3 H4 H5 H6 H7] Hb Hs. apply send_inv in Hs as (Em & Eid & En & Ech & Enc & Ea & _).
  destruct (next_id _ _ (proj1 H1) Hb H2) as [Eu Hp]. rewrite Eu in Eid. subst id.
  assert (forall c, c ∈ calls p -> c_id c <> next_msg_id (sig p) + 2) as Hne by (intros c Hc; destruct (H3 c Hc); lia).
  assert (forall c, c ∈ calls p -> c_ch c <> Some (next_ch (sig p))) as Hnc by (intros c Hc Hx; specialize (H6 c _ Hc Hx); lia).
  split; cbn [sig calls add_call]; rewrite ?Em, ?En.
  - lia.
  - done.
  - intros c [Hc|Hc%list_elem_of_singleton]%elem_of_app; [destruct (H3 c Hc); lia|]. subst c. cbn. lia.
  - intros i j c c' [Hi|[-> ->]]%lookup_snoc_inv [Hj|[-> ->]]%lookup_snoc_inv He; cbn in He; [by eapply H4|..|done];
      exfalso; [apply (Hne c)|apply (Hne c')]; eauto using list_elem_of_lookup_2.
  - subst ch. intros i j c c' ch [Hi|[-> ->]]%lookup_snoc_inv [Hj|[-> ->]]%lookup_snoc_inv E1 E2; cbn in *; [by eapply H5|..|done];
      exfalso; destruct ack; try done; [apply (Hnc c)|apply (Hnc c')]; eauto using list_elem_of_lookup_2; congruence.
  - subst ch. intros c ch [Hc|Hc%list_elem_of_singleton]%elem_of_app Hx; rewrite Enc.
    + specialize (H6 c ch Hc Hx). destruct ack; lia.
    + subst c. cbn in Hx. destruct ack; [|done]. injection Hx as <-. lia.
  - subst ch. rewrite Ea. intros k ch Hk.
    assert (acks (sig p) !! k = Some ch \/ (ack = true /\ k = next_msg_id (sig p) + 2 /\ ch = next_ch (sig p))) as [Ho|(-> & -> & ->)].
    { destruct ack; [|by left]. apply lookup_insert_Some in Hk as [[<- <-]|[_ Hk]]; [by right|by left]. }
    + destruct (H7 k ch Ho) as (c & Hc & ?). exists c. split; [|done]. apply elem_of_app. by left.
    + eexists. split; [apply elem_of_app; right; by apply list_elem_of_singleton|done].
Qed.

Lemma handler_frame s b s' effs :
  msg_handler s true b = Ret (s', effs) -> s' = s \/ exists id, s' = set_acks (delete id (acks s)) s.
Proof.
  unfold msg_handler. cbn [negb]. intros He. apply bind_ret_inv in He as (d & _ & He).
  destruct d as [[[[evt id] flag] str]|]; [|by simplify_eq; left].
  apply bind_ret_inv in He as ([data err] & _ & He). destruct (is_ack flag).
  - destruct (acks s !! id); [|by simplify_eq; left]. apply bind_ret_inv in He as (a & _ & He). simplify_eq. right. by eexists.
  - left. repeat case_match; by simplify_eq.
Qed.

Lemma step_ids p p' out : ids_ok p -> peer_step p p' out -> ids_ok p'.
Proof.
  intros Hok Hst. pose proof Hok as [H1 H2 _ _ _ _ _].
  destruct Hst as [cd ack evt args write s' msg id ch Hcn He Hb Hs|cd ack evt args write s' e Hcn Hb Hs|b rest s' effs Hin Hh Hm|
                   h args err Hh|i c ch a Hh Hc Hch Hr Hw|i c ch ctx_done s' r Hc Hch Hr Hw|s' Ho|err s' effs Ho|s' Ho].
  - by eapply add_call_ids.
  - apply send_inv in Hs as (Em & Hn & Hch & Ha). destruct (next_id _ _ (proj1 H1) Hb H2) as [Eu Hp]. rewrite Eu in Hn.
    apply (ids_ok_sig p); try done; cbn; [lia|]. destruct Hn as [->| ->]; [congruence|done].
  - apply handler_frame in Hm as [->|[id ->]]; (apply (ids_ok_sig p); try done; cbn; [lia|..]).
    intros k ch. rewrite lookup_delete_Some. by intros [_ ?].
  - (apply (ids_ok_sig p); try done; cbn; lia).
  - (apply (ids_ok_sig p); try done; cbn; lia).
  - apply wait_inv in Hw as [[->| ->] _]; (apply (ids_ok_sig p); try done; cbn; [lia|..]).
    intros k ch'. rewrite lookup_delete_Some. by intros [_ ?].
  - unfold on_open in Ho. destruct (conn_ch (sig p)); [done|]. injection Ho as <-. (apply (ids_ok_sig p); try done; cbn; lia).
  - unfold on_close in Ho. destruct (close_ch (sig p)); [done|]. destruct (closed (sig p)); injection Ho as <- _; (apply (ids_ok_sig p); try done; cbn; lia).
  - unfold OnClose in Ho. repeat (apply elem_of_cons in Ho as [Ho|Ho]); try (by inversion Ho); subst s'; try destruct (closed (sig p));
      (apply (ids_ok_sig p); try done; cbn; lia).
Qed.

Lemma call_u64 p c : ids_ok p -> c ∈ calls p -> is_u64 (c_id c).
Proof. intros Hp Hc. pose proof (io_next p Hp). destruct (io_range p Hp c Hc). unfold is_u64. lia. Qed.

(** An end only adds to what it sent. *)
Lemma step_grows p p' out :
  peer_step p p' out -> (forall c, c ∈ calls p -> c ∈ calls p') /\ (forall i c, calls p !! i = Some c -> calls p' !! i = Some c) /\
  (forall a, a ∈ ackeds p -> a ∈ ackeds p') /\ (forall m, text_of_call p m -> text_of_call p' m) /\ (forall m, text_of_ack p m -> text_of_ack p' m).
Proof.
  intros Hst. assert ((forall c, c ∈ calls p -> c ∈ calls p') /\ (forall i c, calls p !! i = Some c -> calls p' !! i = Some c) /\
    (forall a, a ∈ ackeds p -> a ∈ ackeds p')) as (Hc & Hi & Ha).
  { destruct Hst; cbn; split_and!; try done; try set_solver. intros i c Hi. by apply lookup_app_l_Some. }
  split_and!; [done..| |].
  - intros m (c & str & Hin & ?). exists c, str. split; [by apply Hc|done].
  - intros m (a & Hin & ?). exists a. split; [by apply Ha|done].
Qed.

(** What comes off the wire at [p]. *)
Lemma recv_inv p q b rest s' effs :
  ids_ok p -> ids_ok q -> linked q p -> linked p q -> inbox p = b :: rest -> msg_handler (sig p) true b = Ret (s', effs) ->
  (forall ch x, to_hand effs = Some (ch, x) ->
     exists c a, c ∈ calls p /\ c_ch c = Some ch /\ a ∈ ackeds q /\ h_id (a_req a) = c_id c /\ x = answer_args a) /\
  (forall h, h ∈ to_held effs -> exists c, c ∈ calls q /\ c_evt c = h_evt h /\ c_arg c = h_data h /\ c_id c = h_id h).
Proof.
  intros Hp Hq Hqp Hpq Hb Hm. destruct (li_wire q p Hqp b) as [(c & str & Hc & He & Hs & ->)|(a & Ha & Hf)]; [rewrite Hb; by left|..].
  - apply recv_call in Hm as (-> & Hn & Hh); [|done|by eapply call_u64|done]. rewrite Hn. split; [done|].
    intros h Hin. rewrite (Hh h Hin). by exists c.
  - destruct (li_held p q Hpq (a_req a) (li_acked p q Hpq a Ha)) as (c & Hc & _ & _ & Eid).
    assert (is_u64 (h_id (a_req a))) as Hid by (rewrite <- Eid; by apply (call_u64 p)).
    rewrite (recv_ack _ a b Hid Hf) in Hm. destruct (acks (sig p) !! h_id (a_req a)) as [ch|] eqn:Hk; injection Hm as <- <-;
      (split; [|cbn; set_solver]); [|done].
    intros ch' x [= <- <-]. destruct (io_acks p Hp _ _ Hk) as (c' & Hc' & Eid' & Hch). exists c', a. by split_and!.
Qed.

Lemma linked_sender p q p' out :
  ids_ok p -> ids_ok q -> linked p q -> linked q p -> peer_step p p' out -> linked p' (push_in out q).
Proof.
  intros Hp Hq Hpq Hqp Hst. destruct (step_grows _ _ _ Hst) as (Gc & Gi & Ga & Gm & Gk). pose proof Hpq as [L1 L2 L3 L4 L5].
  split; cbn [push_in inbox helds ackeds].
  - intros m [Hm|Hm]%elem_of_app; [destruct (L1 m Hm); auto|].
    destruct Hst as [cd ack evt args write s' msg id ch Hcn He Hb Hs| | |h args err Hh| | | | |]; try by inversion Hm.
    + apply list_elem_of_singleton in Hm. subst m. left. apply send_inv in Hs as (_ & _ & _ & -> & _ & _ & str & Hstr & ->).
      eexists _, str. split; [apply elem_of_app; right; by apply list_elem_of_singleton|]. cbn. split_and!; try done. by destruct ack.
    + right. eexists. split; [apply elem_of_app; right; by apply list_elem_of_singleton|]. cbn.
      destruct (ack_fun (h_id h) args err); cbn in Hm; [|by inversion Hm]. apply list_elem_of_singleton in Hm. congruence.
  - intros h Hh. destruct (L2 h Hh) as (c & Hc & ?). exists c. split; [by apply Gc|done].
  - exact L3.
  - assert (forall ch x, hand p = Some (ch, x) -> exists c a, c ∈ calls p' /\ c_ch c = Some ch /\ a ∈ ackeds q /\ h_id (a_req a) = c_id c /\ x = answer_args a) as Hold.
    { intros ch x Hx. destruct (L4 ch x Hx) as (c & a & Hc & ?). exists c, a. split; [by apply Gc|done]. }
    destruct Hst as [cd ack evt args write s' msg id ch Hcn He Hb Hs|cd ack evt args write s' e Hcn Hb Hs|b rest s' effs Hin Hh Hm|
                     h args err Hh|i c ch a Hh Hc Hch Hr Hw|i c ch ctx_done s' r Hc Hch Hr Hw|s' Ho|err s' effs Ho|s' Ho]; try exact Hold.
    + by destruct (recv_inv p q b rest s' effs Hp Hq Hqp Hpq Hin Hm).
    + done.
  - intros i r Hr. assert (forall r, results p !! i = Some r -> exists c, calls p' !! i = Some c /\
      ((exists a, a ∈ ackeds q /\ h_id (a_req a) = c_id c /\ r = ack_result (answer_args a)) \/ exists m, r = inr (EStd m))) as Hold.
    { intros r0 Hr0. destruct (L5 i r0 Hr0) as (c & Hc & ?). exists c. split; [by apply Gi|done]. }
    destruct Hst as [cd ack evt args write s' msg id ch Hcn He Hb Hs|cd ack evt args write s' e Hcn Hb Hs|b rest s' effs Hin Hh Hm|
                     h args err Hh|k c ch a Hh Hc Hch Hk Hw|k c ch ctx_done s' r0 Hc Hch Hk Hw|s' Ho|err s' effs Ho|s' Ho]; try by apply Hold.
    + cbn in Hr. apply lookup_insert_Some in Hr as [[<- <-]|[_ Hr]]; [|by apply Hold]. exists c. split; [exact Hc|]. left.
      destruct (L4 ch a Hh) as (c' & a' & Hc' & Hch' & Ha' & Eid & ->). exists a'. split; [done|]. split; [|done].
      apply list_elem_of_lookup in Hc' as [j Hj]. assert (j = k) as -> by (by eapply (io_chan p Hp j k)). congruence.
    + cbn in Hr. apply lookup_insert_Some in Hr as [[<- <-]|[_ Hr]]; [|by apply Hold]. exists c. split; [exact Hc|]. right.
      by apply wait_inv in Hw as [_ ?].
Qed.

Lemma linked_receiver p q p' out :
  ids_ok p -> ids_ok q -> linked p q -> linked q p -> peer_step p p' out -> linked (push_in out q) p'.
Proof.
  intros Hp Hq Hpq Hqp Hst. destruct (step_grows _ _ _ Hst) as (_ & _ & Ga & _ & _). pose proof Hqp as [L1 L2 L3 L4 L5]. split.
  - intros m Hm. apply L1. destruct Hst as [| |b rest s' effs Hin Hh Hmh| | | | | |]; try exact Hm. cbn in Hm. rewrite Hin. by right.
  - intros h Hh. destruct Hst as [| |b rest s' effs Hin Hhd Hmh| | | | | |]; try by apply L2.
    cbn in Hh. apply elem_of_app in Hh as [Hh|Hh]; [by apply L2|]. by apply (recv_inv p q b rest s' effs Hp Hq Hqp Hpq Hin Hmh).
  - intros a Ha. destruct Hst as [| |b rest s' effs Hin Hhd Hmh|h args err Hh| | | | |]; try by apply L3.
    + cbn. apply elem_of_app. left. by apply L3.
    + cbn in Ha. apply elem_of_app in Ha as [Ha|Ha%list_elem_of_singleton]; [by apply L3|]. by subst a.
  - intros ch x Hx. destruct (L4 ch x Hx) as (c & a & Hc & Hch & Ha & ?). exists c, a. split_and!; try done; [|tauto..]. by apply Ga.
  - intros i r Hr. destruct (L5 i r Hr) as (c & Hc & [(a & Ha & ?)|?]); exists c; (split; [done|]); [left|by right].
    exists a. split; [by apply Ga|done].
Qed.

Definition sys_ok (x : peer * peer) : Prop :=
  ids_ok x.1 /\ ids_ok x.2 /\ linked x.1 x.2 /\ linked x.2 x.1 /\
  mode (sig x.1) = WS_SIGNAL_MODE_CLIENT /\ mode (sig x.2) = WS_SIGNAL_MODE_SERVER.

Lemma push_in_ids out p : ids_ok p -> ids_ok (push_in out p).
Proof. intros Hp. pose proof (io_next p Hp). apply (ids_ok_sig p); try done; cbn; lia. Qed.

Lemma step_mode p p' out : peer_step p p' out -> mode (sig p') = mode (sig p).
Proof.
  destruct 1 as [cd ack evt args write s' msg id ch Hcn He Hb Hs|cd ack evt args write s' e Hcn Hb Hs|b rest s' effs Hin Hh Hm|
                 h args err Hh|i c ch a Hh Hc Hch Hr Hw|i c ch ctx_done s' r Hc Hch Hr Hw|s' Ho|err s' effs Ho|s' Ho]; cbn; try done.
  - by apply send_inv in Hs as [? _].
  - by apply send_inv in Hs as [? _].
  - by apply handler_frame in Hm as [->|[id ->]].
  - by apply wait_inv in Hw as [[->| ->] _].
  - unfold on_open in Ho. destruct (conn_ch (sig p)); [done|]. by injection Ho as <-.
  - unfold on_close in Ho. destruct (close_ch (sig p)); [done|]. by destruct (closed (sig p)); injection Ho as <- _.
  - unfold OnClose in Ho. repeat (apply elem_of_cons in Ho as [Ho|Ho]); try (by inversion Ho); subst s'; by try destruct (closed (sig p)).
Qed.

Lemma sys_ok_step x y : sys_ok x -> sys_step x y -> sys_ok y.
Proof.
  intros (Hp & Hq & Hpq & Hqp & Mp & Mq) Hst. destruct Hst as [p q p' out Hst|p q q' out Hst]; cbn in *; pose proof (step_mode _ _ _ Hst) as Em.
  - split_and!; cbn; [by apply (step_ids p p' out)|by apply push_in_ids|by eapply linked_sender; [..|exact Hst]|by eapply linked_receiver; [..|exact Hst]|congruence|done].
  - split_and!; cbn; [by apply push_in_ids|by apply (step_ids q q' out)|by eapply linked_receiver; [..|exact Hst]|by eapply linked_sender; [..|exact Hst]|done|congruence].
Qed.

Lemma sys0_ok : sys_ok sys0.
Proof. split_and!; try done; split; cbn; try done; try (intros; set_solver). Qed.

Lemma reachable_sys_ok x : rtc sys_step sys0 x -> sys_ok x.
Proof.
  revert x. apply (rtc_ind_r (R := sys_step) sys_ok sys0); [apply sys0_ok|]. intros x y _ Hst Hx. by eapply sys_ok_step.
Qed.

(** ** Properties *)

Lemma result_of_ack p q i c r :
  ids_ok p -> linked p q -> calls p !! i = Some c -> results p !! i = Some r -> (forall m, r <> inr (EStd m)) ->
  exists a, a ∈ ackeds q /\ a_req a ∈ helds q /\ h_evt (a_req a) = c_evt c /\ h_data (a_req a) = c_arg c /\
    h_id (a_req a) = c_id c /\ r = ack_result (answer_args a).
Proof.
  intros Hp Hl Hc Hr Hne. destruct (li_result p q Hl i r Hr) as (c0 & Hc0 & [(a & Ha & Eid & ->)|[m ->]]); [|by destruct (Hne m)].
  rewrite Hc in Hc0. injection Hc0 as <-. exists a. pose proof (li_acked p q Hl a Ha) as Hh.
  destruct (li_held p q Hl _ Hh) as (c' & Hc' & E1 & E2 & E3). apply list_elem_of_lookup in Hc' as [j Hj].
  assert (j = i) as -> by (eapply (io_unique p Hp); [exact Hj|exact Hc|congruence]). rewrite Hc in Hj. injection Hj as <-. by split_and!.
Qed.

(** C8. Answers go to the right caller.  In every reachable state of a client
    and a server, whatever the interleaving, for events without a semicolon and
    as long as the 64-bit message ids do not wrap around: what a call of either
    end returned, unless it gave up, is what a callback of the other end passed
    to the acknowledgement function of the message of that very call, with the id,
    the event and the value of the call.  The ids tell the calls apart: no two
    calls of an end have the same id, nor have two calls of the two ends. *)
Theorem answers_match p q :
  rtc sys_step sys0 (p, q) ->
  (forall i c r, calls p !! i = Some c -> results p !! i = Some r -> (forall m, r <> inr (EStd m)) ->
     exists a, a ∈ ackeds q /\ a_req a ∈ helds q /\ h_evt (a_req a) = c_evt c /\ h_data (a_req a) = c_arg c /\
       h_id (a_req a) = c_id c /\ r = ack_result (answer_args a)) /\
  (forall i c r, calls q !! i = Some c -> results q !! i = Some r -> (forall m, r <> inr (EStd m)) ->
     exists a, a ∈ ackeds p /\ a_req a ∈ helds p /\ h_evt (a_req a) = c_evt c /\ h_data (a_req a) = c_arg c /\
       h_id (a_req a) = c_id c /\ r = ack_result (answer_args a)) /\
  (forall i j c d, calls p !! i = Some c -> calls p !! j = Some d -> c_id c = c_id d -> i = j) /\
  (forall i j c d, calls q !! i = Some c -> calls q !! j = Some d -> c_id c = c_id d -> i = j) /\
  (forall c d, c ∈ calls p -> d ∈ calls q -> c_id c <> c_id d).
Proof.
  intros Hr. apply reachable_sys_ok in Hr as (Hp & Hq & Hpq & Hqp & Mp & Mq). cbn in *. split_and!.
  - intros i c r. by apply result_of_ack.
  - intros i c r. by apply result_of_ack.
  - intros i j c d. by apply (io_unique p Hp).
  - intros i j c d. by apply (io_unique q Hq).
  - intros c d Hc Hd. destruct (io_range p Hp c Hc) as [_ Pc]. destruct (io_range q Hq d Hd) as [_ Pd]. rewrite Mp in Pc. rewrite Mq in Pd.
    cbn in Pc, Pd. congruence.
Qed.

(** An acknowledgement that is next on the wire reaches the call that
    waits for it: when the handler is not blocked, the client gets in two
    steps to a state in which the call has returned what was acknowledged. *)
Theorem answer_delivered p q i c ch (a : acked) b rest :
  rtc sys_step sys0 (p, q) -> calls p !! i = Some c -> results p !! i = None -> c_ch c = Some ch ->
  acks (sig p) !! c_id c = Some ch -> hand p = None -> inbox p = b :: rest ->
  h_id (a_req a) = c_id c -> ack_fun (c_id c) (a_args a) (a_err a) = Some b ->
  exists p', rtc sys_step (p, q) (p', q) /\ results p' !! i = Some (ack_result (answer_args a)) /\ hand p' = None /\
    inbox p' = rest /\ acks (sig p') !! c_id c = None.
Proof.
  intros Hr Hc Hn Hch Hk Hh Hb Eid Hf. apply reachable_sys_ok in Hr as (Hp & _). cbn in Hp.
  assert (is_u64 (h_id (a_req a))) as Hid by (rewrite Eid; apply (call_u64 p); [done|by eapply list_elem_of_lookup_2]).
  rewrite <- Eid in Hf, Hk. pose proof (recv_ack (sig p) a b Hid Hf) as Hm. cbv zeta in Hm. rewrite Hk in Hm.
  assert (forall x : peer, push_in [] x = x) as Hpush by (intros []; unfold push_in; cbn; by rewrite app_nil_r).
  set (p1 := received (set_acks (delete (h_id (a_req a)) (acks (sig p))) (sig p)) rest (Some (ch, answer_args a)) [] p).
  assert (sys_step (p, q) (p1, q)) as S1.
  { rewrite <- (Hpush q) at 2. apply SClient. exact (PRecv p b rest _ _ Hb Hh Hm). }
  set (p2 := returned (sig p1) i (ack_result (answer_args a)) None p1).
  assert (sys_step (p1, q) (p2, q)) as S2.
  { rewrite <- (Hpush q) at 2. apply SClient. apply (PDeliver p1 i c ch); try done.
    unfold SendMsg_wait. rewrite !elem_of_app. right. right. by apply list_elem_of_singleton. }
  exists p2. split; [by eapply rtc_l, rtc_once|]. cbn. rewrite lookup_insert_eq, <- Eid, lookup_delete_eq. by split_and!.
Qed.

(** The handler of a peer that is blocked on a channel nobody receives
    from. *)
Definition stuck (p : peer) : Prop :=
  exists ch a, hand p = Some (ch, a) /\ (ch < next_ch (sig p))%nat /\
    forall i c, calls p !! i = Some c -> c_ch c = Some ch -> is_Some (results p !! i).

Lemma stuck_step p p' out : stuck p -> peer_step p p' out -> stuck p'.
Proof.
  intros (ch0 & a0 & Hh0 & Hlt & Hall) Hst.
  assert ((next_ch (sig p) <= next_ch (sig p'))%nat) as Hn.
  { destruct Hst as [cd ack evt args write s' msg id ch Hcn He Hb Hs|cd ack evt args write s' e Hcn Hb Hs|b rest s' effs Hin Hh Hm|
                     h args err Hh|i c ch a Hh Hc Hch Hr Hw|i c ch ctx_done s' r Hc Hch Hr Hw|s' Ho|err s' effs Ho|s' Ho]; cbn; try done.
    - apply send_inv in Hs as (_ & _ & _ & _ & -> & _). destruct ack; lia.
    - by apply send_inv in Hs as (_ & _ & ? & _).
    - by apply handler_frame in Hm as [->|[id ->]].
    - by apply wait_inv in Hw as [[->| ->] _].
    - unfold on_open in Ho. destruct (conn_ch (sig p)); [done|]. by injection Ho as <-.
    - unfold on_close in Ho. destruct (close_ch (sig p)); [done|]. by destruct (closed (sig p)); injection Ho as <- _.
    - unfold OnClose in Ho. repeat (apply elem_of_cons in Ho as [Ho|Ho]); try (by inversion Ho); subst s'; by try destruct (closed (sig p)). }
  destruct Hst as [cd ack evt args write s' msg id ch Hcn He Hb Hs|cd ack evt args write s' e Hcn Hb Hs|b rest s' effs Hin Hh Hm|
                   h args err Hh|i c ch a Hh Hc Hch Hr Hw|i c ch ctx_done s' r Hc Hch Hr Hw|s' Ho|err s' effs Ho|s' Ho];
    try (exists ch0, a0; split_and!; [done|cbn in *; lia|done]).
  - exists ch0, a0. split_and!; [done|cbn in *; lia|]. cbn. intros j d [Hj|[-> ->]]%lookup_snoc_inv Hd; [by eapply Hall|].
    apply send_inv in Hs as (_ & _ & _ & -> & _). cbn in Hd. destruct ack; [injection Hd as Hd; lia|done].
  - congruence.
  - rewrite Hh0 in Hh. injection Hh as <- <-. destruct (Hall i c Hc Hch) as [? Hx]. congruence.
  - exists ch0, a0. split_and!; [done|cbn in *; lia|]. cbn. intros j d Hj Hd. destruct (decide (j = i)) as [->|Hne];
      [rewrite lookup_insert_eq; by eexists|]. rewrite lookup_insert_ne by done. by eapply Hall.
Qed.

Lemma stuck_push out p : stuck p -> stuck (push_in out p).
Proof. done. Qed.

(** A client whose handler is stuck handles no message ever again. *)
Lemma stuck_forever x y : stuck x.1 -> rtc sys_step x y -> stuck y.1.
Proof.
  intros Hs. induction 1 as [|x y z Hst _ IH]; [done|]. apply IH. destruct Hst; [by eapply stuck_step|by apply stuck_push].
Qed.

End Peers.

(** ** A concrete connection

    Values are strings; the JSON text of one is a quote and the value. *)
Module Toy.

Definition quote : Ascii.ascii := Ascii.ascii_of_nat 39.

#[local] Instance json : JSON :=
  {| any := string; any_nil := ""%string; IsNilInterface := fun x => bool_decide (x = ""%string);
     json_Marshal := fun x => inl (String quote x);
     json_Unmarshal := fun s => match s with String c x => if decide (c = quote) then inl x else inr (EOther "json") | _ => inr (EOther "json") end;
     any_of_error := fun e => Msg e; decode_error := fun m => inl (mkError ERR_FATAL m None [] "" None) |}.

#[local] Instance json_laws : JSONLaws.
Proof. split; [|done]. intros x s [= <-]. done. Qed.

Local Open Scope string_scope.

Definition opened (p : peer) : peer := set_sig (On (set_conn (sig p))) p.
Definition get {A} (d : A) (r : run A) : A := match r with Ret a => a | Abort _ => d end.

(** The client asks to join, the server's callback answers, and the answer is
    next on the wire. *)
Definition c0 : peer := opened (new_peer WS_SIGNAL_MODE_CLIENT).
Definition q0 : peer := opened (new_peer WS_SIGNAL_MODE_SERVER).
Definition join : call := {| c_evt := "join"; c_arg := "room"; c_id := 3; c_ch := Some 0%nat |}.
Definition request : string := "join;3;2;'room".
Definition c1 : peer := add_call (SendMsg_send (sig c0) true "join" ["room"] (fun _ => None)).1 join c0.
Definition hold : held := {| h_evt := "join"; h_data := "room"; h_id := 3 |}.
Definition q1 : peer := received (sig q0) [] None [hold] q0.
Definition ok : acked := {| a_req := hold; a_args := ["done"]; a_err := None |}.
Definition q2 : peer := add_acked ok q1.
Definition c2 : peer := push_in [";3;0;'done"] c1.

Lemma steps_on s s' out p q : peer_step p s out -> push_in out q = s' -> sys_step (p, q) (s, s').
Proof. intros Hs <-. by apply SClient. Qed.

Lemma run_c2 : rtc sys_step sys0 (c2, q2).
Proof.
  set (nc := new_peer WS_SIGNAL_MODE_CLIENT). set (ns := new_peer WS_SIGNAL_MODE_SERVER).
  set (co := set_sig (set_conn (sig nc)) nc). set (so := set_sig (set_conn (sig ns)) ns).
  apply (rtc_l _ _ (co, ns)); [exact (SClient nc ns co [] (POpen nc (set_conn (sig nc)) eq_refl))|].
  apply (rtc_l _ _ (c0, ns)); [exact (SClient co ns c0 [] (PRegister co (On (sig co)) (list_elem_of_here _ _)))|].
  apply (rtc_l _ _ (c0, so)); [exact (SServer c0 ns so [] (POpen ns (set_conn (sig ns)) eq_refl))|].
  apply (rtc_l _ _ (c0, q0)); [exact (SServer c0 so q0 [] (PRegister so (On (sig so)) (list_elem_of_here _ _)))|].
  apply (rtc_l _ _ (c1, push_in [request] q0)).
  { apply SClient. eapply (PSend c0 None true "join" ["room"] (fun _ => None)); [left|reflexivity|reflexivity|reflexivity]. }
  apply (rtc_l _ _ (c1, q1)).
  { exact (SServer c1 (push_in [request] q0) q1 [] (PRecv (push_in [request] q0) request [] (sig q0) [CallMsg "join" (Some 3) "room"] eq_refl eq_refl eq_refl)). }
  apply rtc_once. exact (SServer c1 q1 q2 _ (PAck q1 hold ["done"] None (list_elem_of_here _ _))).
Qed.

Lemma answer_delivered_witness :
  exists p', rtc sys_step (c2, q2) (p', q2) /\ results p' !! 0%nat = Some (inl ["done"]) /\ inbox p' = [].
Proof.
  destruct (answer_delivered c2 q2 0 join 0 ok ";3;0;'done" [] run_c2) as (p' & H1 & H2 & _ & H3 & _); try reflexivity.
  by exists p'.
Defined.

Definition done_args : ackArgs (H := json) := {| aa_arg := "done"; aa_err := None |}.
Definition c3 : peer := received (set_acks ∅ (sig c2)) [] (Some (0%nat, done_args)) [] c2.
Definition c4 : peer := returned (sig c3) 0 (inl ["done" : any]) None c3.

Lemma run_c3 : rtc sys_step sys0 (c3, q2).
Proof. eapply rtc_r; [exact run_c2|]. apply (steps_on _ _ []); [|reflexivity]. 
  exact (PRecv c2 ";3;0;'done" [] (set_acks ∅ (sig c2)) [ToChan 0 done_args] eq_refl eq_refl eq_refl).
Qed.

Lemma run_c4 : rtc sys_step sys0 (c4, q2).
Proof.
  eapply rtc_r; [exact run_c3|]. apply (steps_on _ _ []); [|reflexivity].
  apply (PDeliver c3 0 join 0 done_args); try reflexivity. apply list_elem_of_singleton. reflexivity.
Qed.

Lemma answers_match_witness :
  calls c4 !! 0%nat = Some join /\ results c4 !! 0%nat = Some (inl ["done"]) /\
  exists a, a ∈ ackeds q2 /\ h_evt (a_req a) = "join" /\ h_data (a_req a) = "room" /\ h_id (a_req a) = 3 /\ ack_result (answer_args a) = inl ["done"].
Proof.
  destruct (answers_match c4 q2 run_c4) as (Hc & _ & _).
  destruct (Hc 0%nat join (inl ["done"])) as (a & Ha & _ & E1 & E2 & E3 & E4); [reflexivity|reflexivity|done|].
  split_and!; [reflexivity|reflexivity|]. exists a. by split_and!.
Defined.

(** The call may give up (its context ends) between the moment the handler takes its
    channel from the table and the moment it sends on it: the handler then
    waits for ever, and no further message of the connection is handled. *)
Definition c5 : peer := returned (release 3 (sig c3)) 0 (inr (EStd "context canceled")) (hand c3) c3.

Lemma handler_blocks :
  rtc sys_step sys0 (c5, q2) /\ forall y, rtc sys_step (c5, q2) y -> stuck y.1.
Proof.
  split.
  - eapply rtc_r; [exact run_c3|]. apply (steps_on _ _ []); [|reflexivity].
    apply (PGiveUp c3 0 join 0 (Some "context canceled")); try reflexivity. apply list_elem_of_singleton. reflexivity.
  - intros y Hy. eapply stuck_forever; [|exact Hy]. exists 0%nat, done_args.
    split_and!; [reflexivity|cbn; lia|]. intros i c Hc Hch. destruct i as [|i]; [by eexists|done].
Qed.

(** A message id that is not a number panics, since the nil result is wrapped
    instead of the error of the parser; so does an event name with a
    semicolon. *)
Lemma bad_id_panics : decodeWsTextData "join;x;2;" = go_panic PNilDeref.
Proof. reflexivity. Qed.

Lemma evt_semicolon_panics :
  exists m, encodeWsTextData "custom:a;b" 3 WS_MSG_FLAG_NO_ACK "v" = inl m /\ decodeWsTextData m = go_panic PNilDeref.
Proof. eexists. split; [reflexivity|reflexivity]. Qed.

(** A payload that is not JSON is reported nowhere: the callback runs without
    it. *)
Lemma bad_json_delivered : msg_handler (sig q0) true "join;3;2;{" = Ret (sig q0, [CallMsg "join" (Some 3) ""]).
Proof. reflexivity. Qed.

(** A custom message that comes before its callback is set panics. *)
Lemma early_custom_panics : msg_handler (sig q0) true "custom:hi;3;4;'x" = go_panic PNilDeref.
Proof. reflexivity. Qed.

End Toy.
