(* ===== verification/SocketIo.v ===== *)
(** * SocketIo: the Socket.IO signal ([signal/socketio.go]) and the server's WebSocket signal ([signal/websocket.go])

    Both implement the interface [Signal] the server is written against.  What arrives is given to the
    callbacks registered with [On], [OnCustom] and [OnCustomAck]; the theorem of this file is that the two
    transports give them the same calls.  The Socket.IO library is outside: it calls the listener [OnAny]
    with the arguments of a packet, the last of which is a function when an answer is wanted. *)
From S2P Require Import Prelude GoStrings Strconv Errors MsgCbs WsSignal WsPeers.
Local Open Scope Z_scope.
Local Open Scope string_scope.
Local Open Scope list_scope.

Section SocketIo.
Context `{JSON} {A : Type}.

(** ** Arguments *)

(** A value of the packet, the [n]th acknowledgement function ([IOSocketAckFunc]), or a function of another type. *)
Inductive io_arg := AVal (v : any) | AAck (n : nat) | AFunc.

(** What the type assertion [.(string)] gives, and whether [mapstructure.Decode] into a [CustomMessage] or a
    [CustomAckMessage] succeeds. *)
Context (as_string : any -> option string) (custom_decodes custom_ack_decodes : any -> bool).

Definition arg_string (a : io_arg) : option string := match a with AVal v => as_string v | _ => None end.
Definition arg_decodes (f : any -> bool) (a : io_arg) : bool := match a with AVal v => f v | _ => false end.

(** ** What the callbacks are given *)

Inductive delivery :=
  | GotMsg (cb : A) (ack : option nat) (args : list io_arg)
  | GotCustom (evt : string) (data : io_arg)
  | GotCustomAck (data : io_arg).

(** What the registered callbacks do: one of [On] with the arguments it is given, the custom ones with the panic
    they may end with. *)
Context (inv : A -> bool -> list io_arg -> outcome).
Context (custom_inv : string -> io_arg -> option panic_value) (custom_ack_inv : io_arg -> option panic_value).

Record SocketIOSignal := {
  msg_cbs : MsgCbs (A := A); io_custom_msg_cb : bool; io_custom_ack_msg_cb : bool;
  on_panic : option (bool -> panic_value -> string -> bool)
}.

Definition NewSocketIOSingal : SocketIOSignal :=
  {| msg_cbs := NewMsgCbs; io_custom_msg_cb := false; io_custom_ack_msg_cb := false; on_panic := None |}.

Definition set_msg_cbs (m : MsgCbs) (s : SocketIOSignal) : SocketIOSignal :=
  {| msg_cbs := m; io_custom_msg_cb := io_custom_msg_cb s; io_custom_ack_msg_cb := io_custom_ack_msg_cb s; on_panic := on_panic s |}.

(** The deferred function around a custom callback: the panic that leaves it. *)
Definition guarded (s : SocketIOSignal) (p : option panic_value) (evt : string) : option panic_value :=
  match p, on_panic s with
  | Some v, Some f => if f true v evt then None else Some v
  | p, _ => p
  end.

(** [MsgCbs.Run], as both signals call it. *)
Definition run_cbs (m : MsgCbs) (evt : string) (ack : option nat) (args : list io_arg) : MsgCbs * list delivery * option panic_value :=
  let '(m, called, p) := Run (fun cb => inv cb (bool_decide (is_Some ack)) args) m evt in
  (m, (fun cb => GotMsg cb ack args) <$> called, p).

(** The arguments without the event, split into those of the callback and the acknowledgement. *)
Definition split_ack (args : list io_arg) : (list io_arg * option nat) + panic_value :=
  match last args with
  | Some (AAck n) => inl (take (length args - 1) args, Some n)
  | Some AFunc => inr (PMsg "Invalid ack param")
  | _ => inl (args, None)
  end.

(** The listener of [OnAny]: the signal, the calls in order, and the panic that leaves it. *)
Definition OnAny (s : SocketIOSignal) (args : list io_arg) : SocketIOSignal * list delivery * option panic_value :=
  match args with
  | [] => (s, [], None)
  | a :: rest =>
      match arg_string a with
      | None => (s, [], None)
      | Some evt =>
          if HasPrefix evt "custom:" then
            let evt := String.substring 7 (String.length evt - 7) evt in
            match rest with
            | [] => (s, [], None)
            | d :: _ =>
                if arg_decodes custom_decodes d && io_custom_msg_cb s
                then (s, [GotCustom evt d], guarded s (custom_inv evt d) evt)
                else (s, [], None)
            end
          else if decide (evt = "custom-ack") then
            match rest with
            | [] => (s, [], None)
            | d :: _ =>
                if arg_decodes custom_ack_decodes d && io_custom_ack_msg_cb s
                then (s, [GotCustomAck d], guarded s (custom_ack_inv d) evt)
                else (s, [], None)
            end
          else
            match split_ack rest with
            | inr v => (s, [], Some v)
            | inl (real_args, ack) =>
                let '(m, called, p) := run_cbs (msg_cbs s) evt ack real_args in
                (set_msg_cbs m s, called, p)
            end
      end
  end.

(** What the library's function is called with by an [AckFunc]: the pointer becomes an [error]. *)
Definition io_answer (args : list any) (err : option (ConferenceError any)) : list any * option (go_error any) :=
  (args, Some (EPtr err)).

Definition io_On (s : SocketIOSignal) (evt : string) (cb : A) : SocketIOSignal := set_msg_cbs (AddCallback (msg_cbs s) evt cb) s.
Definition io_OnCustom (s : SocketIOSignal) : SocketIOSignal :=
  {| msg_cbs := msg_cbs s; io_custom_msg_cb := true; io_custom_ack_msg_cb := io_custom_ack_msg_cb s; on_panic := on_panic s |}.
Definition io_OnCustomAck (s : SocketIOSignal) : SocketIOSignal :=
  {| msg_cbs := msg_cbs s; io_custom_msg_cb := io_custom_msg_cb s; io_custom_ack_msg_cb := true; on_panic := on_panic s |}.

(** ** The WebSocket signal of the server *)

Record WsServerSignal := { ws_signal : WebSocketSignal; ws_msg_cbs : MsgCbs (A := A) }.

Definition newWebSocketSignal : WsServerSignal :=
  {| ws_signal := WsSignal.On (NewWebSocketSignal WS_SIGNAL_MODE_SERVER); ws_msg_cbs := NewMsgCbs |}.

Definition ws_On (s : WsServerSignal) (evt : string) (cb : A) : WsServerSignal :=
  {| ws_signal := ws_signal s; ws_msg_cbs := AddCallback (ws_msg_cbs s) evt cb |}.
Definition ws_OnCustom (s : WsServerSignal) : WsServerSignal :=
  {| ws_signal := WsSignal.OnCustom (ws_signal s); ws_msg_cbs := ws_msg_cbs s |}.
Definition ws_OnCustomAck (s : WsServerSignal) : WsServerSignal :=
  {| ws_signal := WsSignal.OnCustomAck (ws_signal s); ws_msg_cbs := ws_msg_cbs s |}.

(** The callbacks of the inner signal: [ws.msg_cbs.Run(evt, ack, args...)], with one argument, and the custom ones. *)
Definition ws_effect (s : WsServerSignal) (e : effect) : WsServerSignal * list delivery * option panic_value :=
  match e with
  | CallMsg evt ack data =>
      let '(m, called, p) := run_cbs (ws_msg_cbs s) evt (Z.to_nat <$> ack) [AVal data] in
      ({| ws_signal := ws_signal s; ws_msg_cbs := m |}, called, p)
  | CallCustom evt data => (s, [GotCustom evt (AVal data)], custom_inv evt (AVal data))
  | CallCustomAck data => (s, [GotCustomAck (AVal data)], custom_ack_inv (AVal data))
  | _ => (s, [], None)
  end.

(** A text that arrives: [msg_handler] calls at most one callback. *)
Definition ws_message (s : WsServerSignal) (b : string) : WsServerSignal * list delivery * option panic_value :=
  match msg_handler (ws_signal s) true b with
  | Ret (sig, effs) =>
      let s := {| ws_signal := sig; ws_msg_cbs := ws_msg_cbs s |} in
      match effs with e :: _ => ws_effect s e | [] => (s, [], None) end
  | Abort (Panic v) => (s, [], Some v)
  | Abort NoFuel => (s, [], None)
  end.

(** ** Several messages, up to a panic *)

Definition serve {S M} (f : S -> M -> S * list delivery * option panic_value) :=
  fix go (s : S) (l : list M) : S * list delivery * option panic_value :=
    match l with
    | [] => (s, [], None)
    | m :: l =>
        let '(s, c, p) := f s m in
        match p with
        | Some v => (s, c, Some v)
        | None => let '(s, c', p) := go s l in (s, c ++ c', p)
        end
    end.

(** ** The transports agree *)

(** A message: event, value, and the id when an answer is wanted. *)
Record message := { m_evt : string; m_data : any; m_id : Z; m_ack : bool }.

Definition io_args (ev : string -> any) (m : message) : list io_arg :=
  AVal (ev (m_evt m)) :: AVal (m_data m) :: (if m_ack m then [AAck (Z.to_nat (m_id m))] else []).

Definition ws_flag (m : message) : Z := if m_ack m then WS_MSG_FLAG_NEED_ACK else WS_MSG_FLAG_NO_ACK.

Definition ws_wire (m : message) (b : string) : Prop := encodeWsTextData (m_evt m) (m_id m) (ws_flag m) (m_data m) = inl b.

(** The same callbacks are registered, the custom ones too, and no recovery is installed. *)
Record same (s : SocketIOSignal) (w : WsServerSignal) : Prop := {
  sa_cbs : msg_cbs s = ws_msg_cbs w;
  sa_msg : WsSignal.msg_cb (ws_signal w) = true;
  sa_custom : io_custom_msg_cb s = true /\ WsSignal.custom_msg_cb (ws_signal w) = true;
  sa_custom_ack : io_custom_ack_msg_cb s = true /\ WsSignal.custom_ack_msg_cb (ws_signal w) = true;
  sa_panic : on_panic s = None
}.

(** The event has no semicolon and the id fits its field. *)
Definition wired (m : message) : Prop := has_char semicolon (m_evt m) = false /\ is_u64 (m_id m).

(** The payload of a custom message, or of an acknowledgement of one, can be decoded. *)
Definition decodable (m : message) : bool :=
  if HasPrefix (m_evt m) "custom:" then custom_decodes (m_data m)
  else if decide (m_evt m = "custom-ack") then custom_ack_decodes (m_data m)
  else true.

Context {HL : JSONLaws} (ev : string -> any) (Hev : forall s, as_string (ev s) = Some s).

(** Registration keeps the signals the same: the server registers through the interface. *)
Lemma same_new : same (io_OnCustomAck (io_OnCustom NewSocketIOSingal)) (ws_OnCustomAck (ws_OnCustom newWebSocketSignal)).
Proof using Type. by split. Qed.

Lemma same_On s w evt cb : same s w -> same (io_On s evt cb) (ws_On w evt cb).
Proof using Type. intros [E1 E2 E3 E4 E5]. split; cbn; [by rewrite E1|done..]. Qed.

(** The WebSocket handler, on a message that was encoded. *)
Lemma ws_message_wired w m b :
  wired m -> ws_wire m b ->
  WsSignal.msg_cb (ws_signal w) = true -> WsSignal.custom_msg_cb (ws_signal w) = true -> WsSignal.custom_ack_msg_cb (ws_signal w) = true ->
  ws_message w b =
    ws_effect w (if HasPrefix (m_evt m) "custom:" then CallCustom (String.substring 7 (String.length (m_evt m) - 7) (m_evt m)) (m_data m)
                 else if decide (m_evt m = "custom-ack") then CallCustomAck (m_data m)
                 else CallMsg (m_evt m) (if m_ack m then Some (m_id m) else None) (m_data m)).
Proof using HL.
  intros (He & Hid) Hb H1 H2 H3. unfold ws_wire, encodeWsTextData in Hb. destruct (json_Marshal (m_data m)) as [str|] eqn:Hs; [|done].
  injection Hb as <-. unfold ws_message, msg_handler. cbn [negb].
  rewrite decode_text by (done || (by unfold ws_flag; destruct (m_ack m))). rewrite bind_ret_l.
  rewrite (read_call_data _ (m_data m)), bind_ret_l by (done || (by unfold ws_flag; destruct (m_ack m))).
  replace (is_ack (ws_flag m)) with false by (unfold ws_flag; by destruct (m_ack m)). rewrite H1, H2, H3.
  replace (need_ack (ws_flag m)) with (m_ack m) by (unfold ws_flag; by destruct (m_ack m)). destruct w as [sig cbs]. cbn [ws_signal ws_msg_cbs].
  destruct (HasPrefix _ _); [done|]. by case_decide.
Qed.

Lemma split_ack_args m :
  split_ack (AVal (m_data m) :: (if m_ack m then [AAck (Z.to_nat (m_id m))] else [])) =
  inl ([AVal (m_data m)], Z.to_nat <$> (if m_ack m then Some (m_id m) else None)).
Proof using Type. by destruct (m_ack m). Qed.

(** One message that can be decoded. *)
Lemma message_agrees s w m b :
  same s w -> wired m -> decodable m = true -> ws_wire m b ->
  exists s' w' c p, OnAny s (io_args ev m) = (s', c, p) /\ ws_message w b = (w', c, p) /\ same s' w'.
Proof using HL Hev.
  intros [E1 E2 [E3 E3'] [E4 E4'] E5] Hm Hd Hb. rewrite (ws_message_wired w m b Hm Hb E2 E3' E4').
  unfold OnAny, io_args, decodable in *. cbn [arg_string]. rewrite Hev. clear Hb. destruct (HasPrefix _ _).
  - cbn [arg_decodes]. rewrite Hd, E3. cbn [andb ws_effect]. do 4 eexists. split; [done|]. unfold guarded. rewrite E5.
    split; [by destruct (custom_inv _ _)|by split].
  - case_decide.
    + cbn [arg_decodes]. rewrite Hd, E4. cbn [andb ws_effect]. do 4 eexists. split; [done|]. unfold guarded. rewrite E5.
      split; [by destruct (custom_ack_inv _)|by split].
    + rewrite split_ack_args. cbn [ws_effect]. rewrite E1. destruct (run_cbs _ _ _ _) as [[m' c] p]. do 4 eexists. split; [done|]. split; [done|by split].
Qed.

(** One that cannot: Socket.IO drops it, and the WebSocket signal calls the callback all the same. *)
Lemma undecodable_differs s w m b :
  same s w -> wired m -> decodable m = false -> ws_wire m b ->
  OnAny s (io_args ev m) = (s, [], None) /\
  exists evt, (ws_message w b).1.2 = [GotCustom evt (AVal (m_data m))] \/ (ws_message w b).1.2 = [GotCustomAck (AVal (m_data m))].
Proof using HL Hev.
  intros [E1 E2 [E3 E3'] [E4 E4'] E5] Hm Hd Hb. rewrite (ws_message_wired w m b Hm Hb E2 E3' E4').
  unfold OnAny, io_args, decodable in *. cbn [arg_string]. rewrite Hev. clear Hb. destruct (HasPrefix _ _).
  - cbn [arg_decodes]. rewrite Hd. split; [done|]. eexists. by left.
  - case_decide; [|done]. cbn [arg_decodes]. rewrite Hd. split; [done|]. exists "". by right.
Qed.

(** The texts of the messages that can be decoded. *)
Definition decodable_texts (ms : list message) (bs : list string) : list string := (filter (fun x => decodable x.1 = true) (zip ms bs)).*2.

Lemma all_decodable ms bs : Forall2 ws_wire ms bs -> Forall (fun m => decodable m = true) ms -> decodable_texts ms bs = bs.
Proof using Type.
  unfold decodable_texts. induction 1 as [|m b ms bs _ _ IH]; intros Hd; [done|]. apply Forall_cons in Hd as [Hm Hd]. cbn [zip zip_with].
  rewrite filter_cons, decide_True by done. cbn. by rewrite IH.
Qed.

(** C22. The two transports to the server.  A message has an event without semicolon, one value (a text over a WebSocket holds no more), and the means to
    answer it or none.  With the same callbacks registered, a sequence of messages sent over Socket.IO gives the callbacks the same calls in the
    same order, with or without the means to answer, ends with the same panic if one ends it, and leaves the same callbacks registered, as over a WebSocket the
    sequence without the custom messages and acknowledgements whose payload cannot be decoded; that is the same sequence when all can be.  Socket.IO drops the
    others, and for each of them a WebSocket calls the callback nevertheless. *)
Theorem signals_agree s w ms bs :
  same s w -> Forall wired ms -> Forall2 ws_wire ms bs ->
  (exists s' w' c p, serve OnAny s (io_args ev <$> ms) = (s', c, p) /\ serve ws_message w (decodable_texts ms bs) = (w', c, p) /\ same s' w') /\
  (Forall (fun m => decodable m = true) ms -> decodable_texts ms bs = bs) /\
  (forall m b, m ∈ ms -> ws_wire m b -> decodable m = false -> (OnAny s (io_args ev m)).1.2 = [] /\ (ws_message w b).1.2 <> []).
Proof using HL Hev.
  intros Hs Hp Hw. split; [|split; [by apply all_decodable|]].
  - revert s w Hs. unfold decodable_texts. induction Hw as [|m b ms bs Hb Hw IH]; intros s w Hs; cbn [serve fmap list_fmap zip zip_with].
    + by exists s, w, [], None.
    + apply Forall_cons in Hp as [Hm Hp]. rewrite filter_cons. cbn [fst]. destruct (decodable m) eqn:Hd; [rewrite decide_True by done|rewrite decide_False by done].
      * cbn [serve fmap list_fmap snd]. destruct (message_agrees s w m b Hs Hm Hd Hb) as (s1 & w1 & c & [v|] & -> & -> & H1).
        -- by exists s1, w1, c, (Some v).
        -- destruct (IH Hp s1 w1 H1) as (s2 & w2 & c' & p & E1 & E2 & H2). rewrite E1, E2. by exists s2, w2, (c ++ c'), p.
      * destruct (undecodable_differs s w m b Hs Hm Hd Hb) as [-> _]. destruct (IH Hp s w Hs) as (s2 & w2 & c' & p & E1 & E2 & H2).
        rewrite E1. by exists s2, w2, c', p.
  - intros m b Hm Hb Hd. rewrite Forall_forall in Hp. destruct (undecodable_differs s w m b Hs (Hp m Hm) Hd Hb) as [-> (evt & [-> | ->])]; done.
Qed.

(** ** Where they differ *)

(** Before [OnCustom] a custom message is ignored by Socket.IO. *)
Lemma io_early_custom s d evt :
  as_string evt = Some "custom:hi" -> io_custom_msg_cb s = false -> OnAny s [AVal evt; AVal d] = (s, [], None).
Proof using Type. intros He Hc. unfold OnAny. cbn [arg_string]. rewrite He. cbn. by rewrite Hc, andb_false_r. Qed.

(** The error an [AckFunc] passes on is never nil, not even for a success. *)
Lemma io_answer_error args err : (io_answer args err).2 <> None.
Proof using Type. done. Qed.

(** ** Sending *)

(** [SendMsg] up to the emission: the timeout set on the socket, the arguments, and, when the call does not wait, the error it
    returns.  [remaining] is the time until the deadline of the context, if it has one; [emit] is the error of [Emit]. *)
Definition io_emit (remaining : option Z) (ack : bool) (n : nat) (args : list io_arg) (emit : option gerror)
    : option Z * list io_arg * option (option gerror) :=
  (match remaining with Some t => if (0 <? t)%Z then Some t else None | None => None end,
   if ack then args ++ [AAck n] else args,
   match emit with Some e => Some (Some e) | None => if ack then None else Some None end).

(** A call that waits for its answer, and the goroutines that call its function: the channel has no buffer. *)
Record pending := { p_result : option ((list any * option (go_error any)) + unit); p_blocked : list (list any * option (go_error any)) }.

Inductive send_event := CtxDone | Answered (res : list any) (err : option (go_error any)).

Definition send_step (e : send_event) (p : pending) : pending :=
  match p_result p, e with
  | None, CtxDone => {| p_result := Some (inr tt); p_blocked := p_blocked p |}
  | None, Answered res err => {| p_result := Some (inl (res, err)); p_blocked := p_blocked p |}
  | Some r, CtxDone => p
  | Some r, Answered res err => {| p_result := Some r; p_blocked := p_blocked p ++ [(res, err)] |}
  end.

Definition send_run (l : list send_event) : pending := foldl (fun p e => send_step e p) {| p_result := None; p_blocked := [] |} l.

(** An answer that comes after the context is done blocks its goroutine for ever. *)
Lemma late_answer_blocks res err l : (res, err) ∈ p_blocked (send_run (CtxDone :: Answered res err :: l)).
Proof using Type.
  unfold send_run. cbn.
  assert (forall p, (res, err) ∈ p_blocked p -> (res, err) ∈ p_blocked (foldl (fun p e => send_step e p) p l)) as Hl.
  { induction l as [|e l IH]; intros p Hp; [done|]. cbn. apply IH. destruct p as [r b]. destruct r, e; cbn in *; try done. apply elem_of_app. by left. }
  apply Hl. cbn. by apply list_elem_of_here.
Qed.
End SocketIo.

(** ** Witness *)
Module Toy.
Import WsPeers.Toy.
#[local] Existing Instances json json_laws.

Definition inv0 (cb : string) (ack : bool) (args : list (io_arg (H := json))) : outcome := Returned ack.
Definition m0 : message (H := json) := {| m_evt := "join"; m_data := "room"; m_id := 3; m_ack := true |}.
Definition m1 : message (H := json) := {| m_evt := "custom:hi"; m_data := "all"; m_id := 5; m_ack := false |}.
Definition io0 : SocketIOSignal := io_On (io_OnCustomAck (io_OnCustom NewSocketIOSingal)) "join" "cb".
Definition ws0 : WsServerSignal := ws_On (ws_OnCustomAck (ws_OnCustom newWebSocketSignal)) "join" "cb".

Lemma same0 : same io0 ws0.
Proof. apply same_On, same_new. Qed.

Definition str (x : any (JSON := json)) : option string := Some (x : string).
Definition io_serve := serve (OnAny str (fun _ => true) (fun _ => true) inv0 (fun _ _ => None) (fun _ => None)).

Lemma signals_agree_witness :
  exists c, (io_serve io0 (io_args id <$> [m0; m1])).1.2 = c /\
    (serve (ws_message inv0 (fun _ _ => None) (fun _ => None)) ws0 ["join;3;2;'room"; "custom:hi;5;4;'all"]).1.2 = c /\
    c = [GotMsg "cb" (Some 3%nat) [AVal "room"]; GotCustom "hi" (AVal "all")].
Proof.
  destruct (signals_agree str (fun _ => true) (fun _ => true) inv0 (fun _ _ => None) (fun _ => None) id (fun _ => eq_refl) io0 ws0 [m0; m1]
              ["join;3;2;'room"; "custom:hi;5;4;'all"] same0) as ((s' & w' & c & p & E1 & E2 & _) & Hall & _).
  - repeat constructor; cbn; unfold is_u64; try lia; reflexivity.
  - repeat constructor.
  - rewrite Hall in E2 by (repeat constructor). exists c. unfold io_serve. rewrite E1, E2. split; [done|]. split; [done|]. vm_compute in E1. by injection E1 as _ <- _.
Defined.
End Toy.
