(* ===== verification/SampleBuilder.v ===== *)
(** * The sample builder: [pkg/samplebuilder/samplebuilder.go]

    Reordering of RTP packets and assembly of frames.  The ring buffer, its
    16-bit indices and sequence numbers are those of the source.  The
    packet-release callback is a call whose argument is recorded in
    [released]; a buffer is known by its address.  The depacketizer is an
    argument: it is chosen by the codec and comes from a library. *)
From Stdlib Require Import Floats.SpecFloat.
From S2P Require Import Prelude.
Local Open Scope Z_scope.

(** ** Data *)

Record rtp_packet := {
  SequenceNumber : Z;
  Timestamp : Z;
  Marker : bool;
  Payload : list Z
}.

(** A slot of the ring. *)
Record packet := {
  start : bool;
  end_ : bool;
  packet_ : option rtp_packet;
  buff : Z
}.

Definition empty_packet : packet := {| start := false; end_ := false; packet_ := None; buff := 0 |}.

#[global] Instance rtp_packet_eq_dec : EqDecision rtp_packet.
Proof. solve_decision. Defined.
#[global] Instance packet_eq_dec : EqDecision packet.
Proof. solve_decision. Defined.

Record SampleBuilder := {
  packets : list packet;
  head : Z;
  tail : Z;
  maxLate : Z;
  packetReleaseHandler : bool;
  sampleRate : Z;
  lastSeqnoValid : bool;
  lastSeqno : Z;
  lastTimestampValid : bool;
  lastTimestamp : Z;
  released : list (rtp_packet * Z)
}.

#[global] Instance SampleBuilder_eq_dec : EqDecision SampleBuilder.
Proof. solve_decision. Defined.

Record Sample := {
  Data : list Z;
  PacketTimestamp : Z;
  Duration : Z
}.

(** Assignments to the fields. *)
Definition set_packets (l : list packet) (s : SampleBuilder) : SampleBuilder :=
  {| packets := l; head := head s; tail := tail s; maxLate := maxLate s;
     packetReleaseHandler := packetReleaseHandler s; sampleRate := sampleRate s;
     lastSeqnoValid := lastSeqnoValid s; lastSeqno := lastSeqno s;
     lastTimestampValid := lastTimestampValid s; lastTimestamp := lastTimestamp s;
     released := released s |}.

Definition set_head_tail (h t : Z) (s : SampleBuilder) : SampleBuilder :=
  {| packets := packets s; head := h; tail := t; maxLate := maxLate s;
     packetReleaseHandler := packetReleaseHandler s; sampleRate := sampleRate s;
     lastSeqnoValid := lastSeqnoValid s; lastSeqno := lastSeqno s;
     lastTimestampValid := lastTimestampValid s; lastTimestamp := lastTimestamp s;
     released := released s |}.

Definition set_tail (t : Z) (s : SampleBuilder) : SampleBuilder := set_head_tail (head s) t s.
Definition set_head (h : Z) (s : SampleBuilder) : SampleBuilder := set_head_tail h (tail s) s.

Definition set_lastSeqno (valid : bool) (n : Z) (s : SampleBuilder) : SampleBuilder :=
  {| packets := packets s; head := head s; tail := tail s; maxLate := maxLate s;
     packetReleaseHandler := packetReleaseHandler s; sampleRate := sampleRate s;
     lastSeqnoValid := valid; lastSeqno := n;
     lastTimestampValid := lastTimestampValid s; lastTimestamp := lastTimestamp s;
     released := released s |}.

Definition set_lastTimestamp (ts : Z) (s : SampleBuilder) : SampleBuilder :=
  {| packets := packets s; head := head s; tail := tail s; maxLate := maxLate s;
     packetReleaseHandler := packetReleaseHandler s; sampleRate := sampleRate s;
     lastSeqnoValid := lastSeqnoValid s; lastSeqno := lastSeqno s;
     lastTimestampValid := true; lastTimestamp := ts; released := released s |}.

(** [if s.packetReleaseHandler != nil { s.packetReleaseHandler(p, buf) }] *)
Definition call_release (p : rtp_packet) (buf : Z) (s : SampleBuilder) : SampleBuilder :=
  if packetReleaseHandler s then
    {| packets := packets s; head := head s; tail := tail s; maxLate := maxLate s;
       packetReleaseHandler := packetReleaseHandler s; sampleRate := sampleRate s;
       lastSeqnoValid := lastSeqnoValid s; lastSeqno := lastSeqno s;
       lastTimestampValid := lastTimestampValid s; lastTimestamp := lastTimestamp s;
       released := released s ++ [(p, buf)] |}
  else s.

(** [s.packets[i]] and [s.packets[i] = x] *)
Definition slot (s : SampleBuilder) (i : Z) : run packet := go_index (packets s) i.

Definition set_slot (i : Z) (x : packet) (s : SampleBuilder) : run SampleBuilder :=
  if (0 <=? i) && (i <? Z.of_nat (length (packets s)))
  then Ret (set_packets (<[Z.to_nat i := x]> (packets s)) s)
  else go_panic PIndex.

(** ** The code *)

(** [uint16(len(s.packets))] *)
Definition len16 (s : SampleBuilder) : Z := u16 (Z.of_nat (length (packets s))).

(** [x & 0x8000 == 0] *)
Definition nonneg16 (x : Z) : bool := Z.land x 32768 =? 0.

Section Builder.
Context (IsPartitionHead : list Z -> bool).
Context (IsPartitionTail : bool -> list Z -> bool).
Context (Unmarshal : list Z -> option (list Z)).

Definition New (late : Z) (rate : Z) (handler : bool) : SampleBuilder :=
  let late := if late <? 2 then 2 else late in
  let late := if 32767 <? late then 32767 else late in
  {| packets := replicate (Z.to_nat (u16 (2 * late + 1))) empty_packet;
     head := 0; tail := 0; maxLate := late; packetReleaseHandler := handler;
     sampleRate := rate; lastSeqnoValid := false; lastSeqno := 0;
     lastTimestampValid := false; lastTimestamp := 0; released := [] |}.

Definition Len (s : SampleBuilder) : Z :=
  if tail s <=? head s then u16 (head s - tail s) else u16 (head s + len16 s - tail s).

Definition cap (s : SampleBuilder) : Z := u16 (len16 s - 1).

Definition inc (s : SampleBuilder) (n : Z) : Z := if n <? u16 (len16 s - 1) then u16 (n + 1) else 0.

Definition dec (s : SampleBuilder) (n : Z) : Z := if 0 <? n then u16 (n - 1) else u16 (len16 s - 1).

Definition isStart (p : rtp_packet) : bool := IsPartitionHead (Payload p).
Definition isEnd (p : rtp_packet) : bool := IsPartitionTail (Marker p) (Payload p).

(** [s.packets[i].packet], with its fields read. *)
Definition packet_at (s : SampleBuilder) (i : Z) : run rtp_packet :=
  x ← slot s i; go_deref (packet_ x).

Definition oldestPacket (s : SampleBuilder) : run rtp_packet := packet_at s (tail s).

(** [for s.tail != s.head && s.packets[s.tail].packet == nil { s.tail = s.inc(s.tail) }] *)
Fixpoint skip_missing (fuel : nat) (s : SampleBuilder) : run SampleBuilder :=
  match fuel with
  | O => Abort NoFuel
  | S fuel =>
      if tail s =? head s then Ret s
      else
        x ← slot s (tail s);
        match packet_ x with
        | None => skip_missing fuel (set_tail (inc s (tail s)) s)
        | Some _ => Ret s
        end
  end.

Definition release (s : SampleBuilder) : run (SampleBuilder * bool) :=
  if head s =? tail s then Ret (s, false)
  else
    x ← slot s (tail s);
    p ← go_deref (packet_ x);
    let s := set_lastSeqno true (SequenceNumber p) s in
    let s := call_release p (buff x) s in
    s ← set_slot (tail s) empty_packet s;
    let s := set_tail (inc s (tail s)) s in
    s ← skip_missing (S (length (packets s))) s;
    Ret (if tail s =? head s then set_head_tail 0 0 s else s, true).

Fixpoint releaseAll_loop (fuel : nat) (s : SampleBuilder) : run SampleBuilder :=
  match fuel with
  | O => Abort NoFuel
  | S fuel =>
      if tail s =? head s then Ret s
      else '(s, _) ← release s; releaseAll_loop fuel s
  end.

Definition releaseAll (s : SampleBuilder) : run SampleBuilder :=
  releaseAll_loop (S (length (packets s))) s.

(** The loop of [drop]: release up to the next frame. *)
Fixpoint drop_loop (fuel : nat) (ts : Z) (s : SampleBuilder) : run SampleBuilder :=
  match fuel with
  | O => Abort NoFuel
  | S fuel =>
      if tail s =? head s then Ret s
      else
        x ← slot s (tail s);
        if start x then Ret s
        else
          p ← oldestPacket s;
          if negb (Timestamp p =? ts) then Ret s
          else '(s, _) ← release s; drop_loop fuel ts s
  end.

Definition drop (s : SampleBuilder) : run (SampleBuilder * bool * Z) :=
  if tail s =? head s then Ret (s, false, 0)
  else
    p ← oldestPacket s;
    let ts := Timestamp p in
    '(s, _) ← release s;
    s ← drop_loop (S (length (packets s))) ts s;
    let s := if negb (lastTimestampValid s) then set_lastTimestamp ts s else s in
    Ret (s, true, ts).

(** *** [Push] *)

(** The first block: drop a late packet, or move [lastSeqno] forward.
    [None] when the packet is dropped. *)
Definition push_late (p : rtp_packet) (s : SampleBuilder) : run (option SampleBuilder) :=
  if lastSeqnoValid s then
    let back := u16 (lastSeqno s - SequenceNumber p) in
    if nonneg16 back then
      if maxLate s <? back then Ret (Some (set_lastSeqno false (lastSeqno s) s)) else Ret None
    else
      let last := u16 (SequenceNumber p - maxLate s) in
      if nonneg16 (u16 (last - lastSeqno s)) then
        last ← (if negb (head s =? tail s) then
                  q ← oldestPacket s;
                  let seqno := u16 (SequenceNumber q - 1) in
                  Ret (if nonneg16 (u16 (last - seqno)) then seqno else last)
                else Ret last);
        Ret (Some (set_lastSeqno true last s))
      else Ret (Some s)
  else Ret (Some s).

(** The builder becomes the one packet [p]. *)
Definition push_first (p : rtp_packet) (buf : Z) (s : SampleBuilder) : run SampleBuilder :=
  s ← set_slot 0 {| start := isStart p; end_ := isEnd p; packet_ := Some p; buff := buf |} s;
  Ret (set_head_tail 1 0 s).

Definition push_sequential (p : rtp_packet) (buf : Z) (newest : Z) (s : SampleBuilder)
    : run SampleBuilder :=
  let put (start_ : bool) (s : SampleBuilder) :=
    s ← set_slot (head s) {| start := start_; end_ := isEnd p; packet_ := Some p; buff := buf |} s;
    Ret (set_head (inc s (head s)) s) in
  '(s, dropped, droppedTs) ←
    (if tail s =? inc s (head s) then drop s else Ret (s, false, 0));
  if (dropped : bool) && (droppedTs =? Timestamp p) then
    if negb (tail s =? head s) then go_panic (PMsg "this is impossible")
    else Ret (call_release p buf s)
  else if negb (tail s =? head s) then
    x ← slot s newest;
    q ← go_deref (packet_ x);
    let start_ := end_ x || negb (Timestamp q =? Timestamp p) || isStart p in
    s ← (if start_
         then set_slot newest {| start := start x; end_ := true; packet_ := packet_ x; buff := buff x |} s
         else Ret s);
    put start_ s
  else put (isStart p) s.

(** [for uint16(s.Len()) + count > s.cap() { dropped, _ := s.drop() ... }];
    the flag tells that nothing could be dropped. *)
Fixpoint make_space (fuel : nat) (count : Z) (s : SampleBuilder) : run (SampleBuilder * bool) :=
  match fuel with
  | O => Abort NoFuel
  | S fuel =>
      if cap s <? u16 (u16 (Len s) + count) then
        '(s, dropped, _) ← drop s;
        if (dropped : bool) then make_space fuel count s else Ret (s, true)
      else Ret (s, false)
  end.

(** A packet in the future, within the capacity. *)
Definition push_future (p : rtp_packet) (buf : Z) (offset : Z) (s : SampleBuilder) : run SampleBuilder :=
  let count := u16 (offset + 1) in
  '(s, stuck) ← make_space (S (length (packets s))) count s;
  if (stuck : bool) then Ret (call_release p buf s)
  else if tail s =? head s then push_first p buf s
  else
    let index := u16 (head s + offset) mod len16 s in
    s ← set_slot index {| start := isStart p; end_ := isEnd p; packet_ := Some p; buff := buf |} s;
    Ret (set_head (inc s index) s).

(** The end of [Push]: compute the flags of the new slot and adjust those
    of its neighbours, then store the packet. *)
Definition fill (p : rtp_packet) (buf : Z) (index : Z) (s : SampleBuilder) : run SampleBuilder :=
  '(start_, s) ←
    (if negb (index =? tail s) then
       let prev := dec s index in
       y ← slot s prev;
       match packet_ y with
       | Some q =>
           let start_ := isStart p || negb (Timestamp q =? Timestamp p) in
           if negb start_ then Ret (end_ y, s)
           else
             s ← set_slot prev {| start := start y; end_ := true; packet_ := packet_ y; buff := buff y |} s;
             Ret (true, s)
       | None => Ret (isStart p, s)
       end
     else Ret (isStart p, s));
  '(end__, s) ←
    (let next := inc s index in
     y ← slot s next;
     match packet_ y with
     | Some q =>
         let end__ := isEnd p || negb (Timestamp q =? Timestamp p) in
         if negb end__ then Ret (start y, s)
         else
           s ← set_slot next {| start := true; end_ := end_ y; packet_ := packet_ y; buff := buff y |} s;
           Ret (true, s)
     | None => Ret (isEnd p, s)
     end);
  set_slot index {| start := start_; end_ := end__; packet_ := Some p; buff := buf |} s.

(** A packet in the past. *)
Definition push_past (p : rtp_packet) (buf : Z) (offset : Z) (s : SampleBuilder) : run SampleBuilder :=
  let index := if offset <=? head s then u16 (head s - offset)
               else u16 (head s + len16 s - offset) in
  let extend := if tail s <? head s then (index <? tail s) || (head s <? index)
                else (index <? tail s) && (head s <? index) in
  let s := if extend then set_tail index s else s in
  x ← slot s index;
  match packet_ x with
  | Some _ => Ret (call_release p buf s)
  | None => fill p buf index s
  end.

(** [Push] calls itself once, on the emptied builder: two levels suffice. *)
Fixpoint push_fuel (fuel : nat) (p : rtp_packet) (buf : Z) (s : SampleBuilder) : run SampleBuilder :=
  match fuel with
  | O => Abort NoFuel
  | S fuel =>
      o ← push_late p s;
      match o with
      | None => Ret s
      | Some s =>
          if head s =? tail s then push_first p buf s
          else
            let seqno := SequenceNumber p in
            let newest := dec s (head s) in
            q ← packet_at s newest;
            let newestSeqno := SequenceNumber q in
            if seqno =? newestSeqno then Ret (call_release p buf s)
            else if seqno =? u16 (newestSeqno + 1) then push_sequential p buf newest s
            else if nonneg16 (u16 (seqno - newestSeqno)) then
              let offset := u16 (u16 (seqno - newestSeqno) - 1) in
              if cap s <? u16 (offset + 1) then
                s ← releaseAll s; push_fuel fuel p buf s
              else push_future p buf offset s
            else
              let offset := u16 (u16 (newestSeqno - seqno) + 1) in
              if cap s <=? offset then Ret (call_release p buf s)
              else push_past p buf offset s
      end
  end.

Definition Push (p : rtp_packet) (buf : Z) (s : SampleBuilder) : run SampleBuilder :=
  push_fuel 2 p buf s.

(** *** [pop] *)

Inductive scan_result := ScanEnd (last : Z) | ScanGap | ScanNone.

(** [for last != s.head && !s.packets[last].end]: the end of the frame, a
    missing packet, or neither. *)
Fixpoint find_end (fuel : nat) (s : SampleBuilder) (last : Z) : run scan_result :=
  match fuel with
  | O => Abort NoFuel
  | S fuel =>
      if last =? head s then Ret ScanNone
      else
        x ← slot s last;
        if end_ x then Ret (ScanEnd last)
        else match packet_ x with
             | None => Ret ScanGap
             | Some _ => find_end fuel s (inc s last)
             end
  end.

(** The loop over the packets of the frame; [None] when a packet cannot be
    depacketized. *)
Fixpoint take_frame (count : nat) (data : list Z) (s : SampleBuilder)
    : run (SampleBuilder * option (list Z)) :=
  match count with
  | O => Ret (s, Some data)
  | S count =>
      p ← oldestPacket s;
      let buf := Unmarshal (Payload p) in
      '(s, _) ← release s;
      match buf with
      | None => Ret (s, None)
      | Some b => take_frame count (data ++ b) s
      end
  end.

(** [time.Duration(float64(samples) / float64(rate) * float64(time.Second))]
    in IEEE double precision; the conversion to an integer truncates. *)
Definition float64 (z : Z) : spec_float := binary_normalize 53 1024 z 0 false.

Definition to_int64 (f : spec_float) : Z :=
  match f with
  | S754_finite sgn m e =>
      let a := Z.shiftl (Zpos m) e in
      if sgn then - a else a
  | _ => 0
  end.

Definition sample_duration (samples rate : Z) : Z :=
  to_int64 (SFmul 53 1024 (SFdiv 53 1024 (float64 samples) (float64 rate)) (float64 1000000000)).

Fixpoint pop_loop (fuel : nat) (force : bool) (s : SampleBuilder) : run (SampleBuilder * option Sample) :=
  match fuel with
  | O => Abort NoFuel
  | S fuel =>
      if tail s =? head s then Ret (s, None)
      else
        x ← slot s (tail s);
        if negb (start x) then
          newest ← packet_at s (dec s (head s));
          oldest ← oldestPacket s;
          let diff := u16 (SequenceNumber newest - SequenceNumber oldest) in
          if force || (maxLate s <? diff) then
            '(s, _, _) ← drop s; pop_loop fuel force s
          else Ret (s, None)
        else
          oldest ← oldestPacket s;
          if negb force && lastSeqnoValid s && negb (u16 (lastSeqno s + 1) =? SequenceNumber oldest)
          then Ret (s, None)
          else
            let ts := Timestamp oldest in
            r ← find_end (S (length (packets s))) s (tail s);
            match r with
            | ScanGap => if force then '(s, _, _) ← drop s; pop_loop fuel force s else Ret (s, None)
            | ScanNone => Ret (s, None)
            | ScanEnd last =>
                let count := if last <? tail s then u16 (u16 (u16 (cap s + last) - tail s) + 1)
                             else u16 (u16 (last - tail s) + 1) in
                '(s, data) ← take_frame (Z.to_nat count) [] s;
                match data with
                | None => Ret (s, None)
                | Some data =>
                    let samples := if lastTimestampValid s then u32 (ts - lastTimestamp s) else 0 in
                    let s := set_lastTimestamp ts s in
                    Ret (s, Some {| Data := data; PacketTimestamp := ts;
                                    Duration := sample_duration samples (sampleRate s) |})
                end
            end
  end.

Definition pop (force : bool) (s : SampleBuilder) : run (SampleBuilder * option Sample) :=
  pop_loop (S (length (packets s))) force s.

Definition Pop (s : SampleBuilder) := pop false s.
Definition ForcePop (s : SampleBuilder) := pop true s.
Definition Close (s : SampleBuilder) : run SampleBuilder := releaseAll s.

(** *** [check] *)

(** One iteration of the loop of [check] over the window. *)
Definition check_slot (s : SampleBuilder) (tailSeqno i : Z) : run unit :=
  let index := u16 (tail s + i) mod len16 s in
  x ← slot s index;
  match packet_ x with
  | None => Ret tt
  | Some p =>
      if negb (SequenceNumber p =? u16 (tailSeqno + i)) then go_panic (PMsg "wrong seqno")
      else
        (if negb (index =? tail s) && negb (start x) then
           y ← slot s (dec s index);
           match packet_ y with
           | Some q => if negb (Timestamp q =? Timestamp p) then go_panic (PMsg "start is not set") else Ret tt
           | None => Ret tt
           end
         else Ret tt);;
        (if negb (index =? dec s (head s)) && negb (end_ x) then
           y ← slot s (inc s index);
           match packet_ y with
           | Some q => if negb (Timestamp q =? Timestamp p) then go_panic (PMsg "end is not set") else Ret tt
           | None => Ret tt
           end
         else Ret tt)
  end.

Fixpoint check_window (n : nat) (s : SampleBuilder) (tailSeqno i : Z) : run unit :=
  match n with
  | O => Ret tt
  | S n => check_slot s tailSeqno i;; check_window n s tailSeqno (u16 (i + 1))
  end.

Fixpoint check_outside (fuel : nat) (s : SampleBuilder) (i : Z) : run unit :=
  match fuel with
  | O => Abort NoFuel
  | S fuel =>
      if i =? tail s then Ret tt
      else
        x ← slot s i;
        match packet_ x with
        | Some _ => go_panic (PMsg "packet is set")
        | None => check_outside fuel s (inc s i)
        end
  end.

Definition check (s : SampleBuilder) : run unit :=
  if head s =? tail s then Ret tt
  else
    t ← slot s (tail s);
    match packet_ t with
    | None => go_panic (PMsg "tail is missing")
    | Some oldest =>
        h ← slot s (dec s (head s));
        match packet_ h with
        | None => go_panic (PMsg "head is missing")
        | Some _ =>
            (if lastSeqnoValid s then
               let diff := u16 (SequenceNumber oldest - lastSeqno s) in
               if (diff =? 0) || negb (nonneg16 diff) then go_panic (PMsg "lastSeqno is after tail")
               else Ret tt
             else Ret tt);;
            check_window (Z.to_nat (u16 (Len s))) s (SequenceNumber oldest) 0;;
            check_outside (S (length (packets s))) s (head s)
        end
    end.

End Builder.
