(* ===== verification/SampleRing.v ===== *)
(** * The sample builder: the ring as a window

    The part of the ring between [tail] and [head] is a list of slots, the
    window; every slot outside is empty.  [rep s w] relates the two, and the
    lemmas of this file say what each access of the code does to the window. *)
From S2P Require Import Prelude SampleBuilder.
Local Open Scope Z_scope.

(** The sizes for which the 16-bit index arithmetic does not wrap. *)
Definition sized (s : SampleBuilder) : Prop :=
  2 <= maxLate s <= 16383 /\ Z.of_nat (length (packets s)) = 2 * maxLate s + 1.

Definition nslots (s : SampleBuilder) : Z := Z.of_nat (length (packets s)).

(** The slot at a distance from the tail; empty beyond the window. *)
Definition wat (w : list packet) (i : Z) : packet := default empty_packet (w !! Z.to_nat i).

Record rep (s : SampleBuilder) (w : list packet) : Prop := {
  rep_sized : sized s;
  rep_tail : 0 <= tail s < nslots s;
  rep_len : Z.of_nat (length w) < nslots s;
  rep_head : head s = (tail s + Z.of_nat (length w)) mod nslots s;
  rep_view i : 0 <= i < nslots s ->
    packets s !! Z.to_nat ((tail s + i) mod nslots s) = Some (wat w i)
}.

(** ** Index arithmetic *)

Lemma nonneg16_spec x : 0 <= x < 65536 -> nonneg16 x = (x <? 32768).
Proof.
  intros Hx. unfold nonneg16. change 32768 with (2 ^ 15) at 1.
  assert (Z.land x (2 ^ 15) = if x <? 32768 then 0 else 2 ^ 15) as ->.
  { apply Z.bits_inj'. intros k Hk. rewrite Z.land_spec, Z.pow2_bits_eqb by lia.
    destruct (Z.eqb_spec 15 k) as [<-|Hne].
    - rewrite andb_true_r. destruct (Z.ltb_spec x 32768).
      + rewrite Z.bits_0. apply Z.testbit_false; [lia|]. rewrite Z.div_small; [done|lia].
      + rewrite Z.pow2_bits_eqb, Z.eqb_refl by lia. apply Z.testbit_true; [lia|].
        change (2 ^ 15) with 32768. replace (x / 32768) with 1; [done|].
        apply (Z.div_unique x 32768 1 (x - 32768)); lia.
    - rewrite andb_false_r. destruct (x <? 32768); [by rewrite Z.bits_0|].
      rewrite Z.pow2_bits_eqb by lia. symmetry. by apply Z.eqb_neq. }
  by destruct (x <? 32768).
Qed.

Lemma mod_inj n t i j :
  0 <= i < n -> 0 <= j < n -> (t + i) mod n = (t + j) mod n -> i = j.
Proof.
  intros Hi Hj H.
  assert ((t + i - t) mod n = (t + j - t) mod n) as E
    by (rewrite <- (Zminus_mod_idemp_l (t + i)), H, Zminus_mod_idemp_l; done).
  replace (t + i - t) with i in E by lia. replace (t + j - t) with j in E by lia.
  by rewrite !Z.mod_small in E by lia.
Qed.

Section Ring.
Context (s : SampleBuilder) (Hs : sized s).

Lemma sized_nslots : 5 <= nslots s <= 32767 /\ nslots s = 2 * maxLate s + 1.
Proof using Hs. destruct Hs. unfold nslots. lia. Qed.

Lemma len16_nslots : len16 s = nslots s.
Proof using Hs. pose proof sized_nslots. unfold len16. fold (nslots s). apply u16_id. lia. Qed.

Lemma cap_nslots : cap s = nslots s - 1.
Proof using Hs. pose proof sized_nslots. unfold cap. rewrite len16_nslots. apply u16_id. lia. Qed.

Lemma inc_mod x : 0 <= x < nslots s -> inc s x = (x + 1) mod nslots s.
Proof using Hs.
  pose proof sized_nslots. intros Hx. unfold inc. rewrite len16_nslots, u16_id by lia.
  destruct (Z.ltb_spec x (nslots s - 1)).
  - rewrite u16_id, Z.mod_small by lia. done.
  - replace x with (nslots s - 1) by lia. replace (nslots s - 1 + 1) with (nslots s) by lia.
    by rewrite Z.mod_same by lia.
Qed.

Lemma dec_mod x : 0 <= x < nslots s -> dec s x = (x - 1) mod nslots s.
Proof using Hs.
  pose proof sized_nslots. intros Hx. unfold dec. rewrite len16_nslots.
  destruct (Z.ltb_spec 0 x).
  - rewrite u16_id, Z.mod_small by lia. done.
  - replace x with 0 by lia. rewrite u16_id by lia.
    apply (Z.mod_unique (0 - 1) (nslots s) (-1)); lia.
Qed.

Lemma mod_range x : 0 <= x mod nslots s < nslots s.
Proof using Hs. pose proof sized_nslots. apply Z.mod_pos_bound. lia. Qed.
End Ring.

(** ** Reading and writing slots *)

Section Access.
Context (s : SampleBuilder) (w : list packet) (Hr : rep s w).
Implicit Types (i : Z) (x : packet).

Lemma rep_pos : 0 < nslots s.
Proof using Hr. destruct (sized_nslots s (rep_sized _ _ Hr)). lia. Qed.

Lemma slot_at i : 0 <= i < nslots s -> slot s ((tail s + i) mod nslots s) = Ret (wat w i).
Proof using Hr.
  intros Hi. apply go_index_some; [|by apply (rep_view _ _ Hr)].
  apply mod_range, (rep_sized _ _ Hr).
Qed.

Lemma tail_at : tail s = (tail s + 0) mod nslots s.
Proof using Hr. rewrite Z.add_0_r. symmetry. apply Z.mod_small, (rep_tail _ _ Hr). Qed.

Lemma slot_tail : slot s (tail s) = Ret (wat w 0).
Proof using Hr. rewrite tail_at. apply slot_at. pose proof rep_pos. lia. Qed.

Lemma newest_at : w <> [] -> dec s (head s) = (tail s + (Z.of_nat (length w) - 1)) mod nslots s.
Proof using Hr.
  intros Hw. pose proof (rep_len _ _ Hr). pose proof rep_pos.
  rewrite dec_mod; [|apply (rep_sized _ _ Hr)|rewrite (rep_head _ _ Hr); apply mod_range, (rep_sized _ _ Hr)].
  rewrite (rep_head _ _ Hr), Zminus_mod_idemp_l. f_equal. lia.
Qed.

Lemma slot_newest : w <> [] -> slot s (dec s (head s)) = Ret (wat w (Z.of_nat (length w) - 1)).
Proof using Hr.
  intros Hw. rewrite newest_at by done. apply slot_at. pose proof (rep_len _ _ Hr).
  destruct w; [done|]. cbn [length] in *. lia.
Qed.

Lemma empty_iff : head s = tail s <-> w = [].
Proof using Hr.
  pose proof (rep_len _ _ Hr). rewrite (rep_head _ _ Hr). split.
  - intros E. rewrite tail_at in E at 2. apply mod_inj in E; [|pose proof rep_pos; lia..].
    apply nil_length_inv. lia.
  - intros E. rewrite E. symmetry. apply tail_at.
Qed.

Lemma head_tail_eqb : (head s =? tail s) = bool_decide (w = []).
Proof using Hr.
  destruct (Z.eqb_spec (head s) (tail s)) as [E|E]; rewrite empty_iff in E.
  - by rewrite bool_decide_true.
  - by rewrite bool_decide_false.
Qed.

Lemma tail_head_eqb : (tail s =? head s) = bool_decide (w = []).
Proof using Hr. rewrite Z.eqb_sym. apply head_tail_eqb. Qed.

Lemma Len_length : Len s = Z.of_nat (length w).
Proof using Hr.
  destruct Hr as [Hs Ht Hl Hh _]. pose proof (sized_nslots s Hs). unfold Len. rewrite (len16_nslots s Hs).
  destruct (Z.ltb_spec (tail s + Z.of_nat (length w)) (nslots s)).
  - rewrite Z.mod_small in Hh by lia. rewrite (proj2 (Z.leb_le _ _)), u16_id by lia. lia.
  - rewrite <- (Z.mod_unique _ _ 1 (tail s + Z.of_nat (length w) - nslots s)) in Hh by lia.
    rewrite (proj2 (Z.leb_gt _ _)), u16_id by lia. lia.
Qed.

(** Writing a slot, in terms of distances from the tail. *)
Definition write_at i x : SampleBuilder :=
  set_packets (<[Z.to_nat ((tail s + i) mod nslots s) := x]> (packets s)) s.

Lemma set_slot_at i x : set_slot ((tail s + i) mod nslots s) x s = Ret (write_at i x).
Proof using Hr.
  pose proof (mod_range s (rep_sized _ _ Hr) (tail s + i)). unfold set_slot. fold (nslots s).
  rewrite (proj2 (Z.leb_le _ _)), (proj2 (Z.ltb_lt _ _)) by lia. done.
Qed.

Lemma set_slot_tail x : set_slot (tail s) x s = Ret (write_at 0 x).
Proof using Hr. pose proof (set_slot_at 0 x) as H. by rewrite <- tail_at in H. Qed.

Lemma write_at_nslots i x : nslots (write_at i x) = nslots s.
Proof using Type. unfold nslots. cbn. by rewrite length_insert. Qed.

Lemma write_at_inc i x j : inc (write_at i x) j = inc s j.
Proof using Type. unfold inc, len16. cbn. by rewrite length_insert. Qed.

Lemma write_at_sized i x : sized (write_at i x).
Proof using Hr. destruct (rep_sized _ _ Hr). split; [done|]. cbn. by rewrite length_insert. Qed.

Lemma write_at_view i x j : 0 <= i < nslots s -> 0 <= j < nslots s ->
  packets (write_at i x) !! Z.to_nat ((tail s + j) mod nslots s) = Some (if i =? j then x else wat w j).
Proof using Hr.
  intros Hi Hj. pose proof (mod_range s (rep_sized _ _ Hr) (tail s + i)).
  pose proof (mod_range s (rep_sized _ _ Hr) (tail s + j)). cbn.
  destruct (Z.eqb_spec i j) as [<-|Hne].
  - rewrite list_lookup_insert_eq; [done|]. unfold nslots in *. lia.
  - rewrite list_lookup_insert_ne; [by apply (rep_view _ _ Hr)|].
    intros E. apply Hne, (mod_inj (nslots s) (tail s)); [done..|]. lia.
Qed.

Lemma wat_insert i x j : 0 <= i < Z.of_nat (length w) -> 0 <= j ->
  wat (<[Z.to_nat i := x]> w) j = if i =? j then x else wat w j.
Proof using Type.
  intros Hi Hj. unfold wat. destruct (Z.eqb_spec i j) as [<-|Hne].
  - by rewrite list_lookup_insert_eq by lia.
  - by rewrite list_lookup_insert_ne by lia.
Qed.

Lemma rep_write i x : 0 <= i < Z.of_nat (length w) -> rep (write_at i x) (<[Z.to_nat i := x]> w).
Proof using Hr.
  intros Hi. pose proof (rep_len _ _ Hr). split.
  - apply write_at_sized.
  - rewrite write_at_nslots. apply (rep_tail _ _ Hr).
  - rewrite write_at_nslots, length_insert. done.
  - rewrite write_at_nslots, length_insert. apply (rep_head _ _ Hr).
  - intros j. rewrite write_at_nslots. intros Hj. rewrite wat_insert by lia.
    apply (write_at_view i x j); lia.
Qed.
End Access.

(** ** Moving the ends of the window *)

Lemma wat_cons_0 x w : wat (x :: w) 0 = x.
Proof. reflexivity. Qed.

Lemma wat_cons_S x w i : 0 <= i -> wat (x :: w) (i + 1) = wat w i.
Proof. intros Hi. unfold wat. by replace (Z.to_nat (i + 1)) with (S (Z.to_nat i)) by lia. Qed.

Lemma wat_ge w i : Z.of_nat (length w) <= i -> wat w i = empty_packet.
Proof. intros Hi. unfold wat. by rewrite lookup_ge_None_2 by lia. Qed.

Lemma wat_app_l w1 w2 i : 0 <= i < Z.of_nat (length w1) -> wat (w1 ++ w2) i = wat w1 i.
Proof. intros Hi. unfold wat. by rewrite lookup_app_l by lia. Qed.

Lemma wat_app_r w1 w2 i : Z.of_nat (length w1) <= i ->
  wat (w1 ++ w2) i = wat w2 (i - Z.of_nat (length w1)).
Proof. intros Hi. unfold wat. rewrite lookup_app_r by lia. do 2 f_equal. lia. Qed.

Lemma wat_replicate n i : wat (replicate n empty_packet) i = empty_packet.
Proof.
  unfold wat. destruct (replicate n empty_packet !! Z.to_nat i) eqn:E; [|done].
  by apply lookup_replicate in E as [-> _].
Qed.

(** The window loses its first slot, which is emptied. *)
Lemma rep_tl s x w : rep s (x :: w) ->
  rep (set_tail (inc s (tail s)) (write_at s 0 empty_packet)) w.
Proof.
  intros Hr. pose proof Hr as [Hs Ht Hl Hh Hv]. pose proof (sized_nslots s Hs). cbn [length] in *.
  rewrite inc_mod by done. set (s' := write_at s 0 empty_packet).
  assert (nslots s' = nslots s) as Hn by apply write_at_nslots.
  split; unfold set_tail; cbn [tail head packets set_head_tail]; fold (nslots s') in *;
    change (nslots (set_head_tail (head s') ((tail s + 1) mod nslots s) s')) with (nslots s'); rewrite ?Hn.
  - apply (write_at_sized s _ Hr).
  - by apply mod_range.
  - lia.
  - change (head s') with (head s). rewrite Hh, Z.add_mod_idemp_l by lia. f_equal. lia.
  - intros i Hi. rewrite Z.add_mod_idemp_l by lia. unfold s'.
    destruct (decide (i = nslots s - 1)) as [->|Hne].
    + assert ((tail s + 1 + (nslots s - 1)) mod nslots s = (tail s + 0) mod nslots s) as ->.
      { replace (tail s + 1 + (nslots s - 1)) with (tail s + 0 + 1 * nslots s) by lia. apply Z.mod_add. lia. }
      rewrite (write_at_view s _ Hr) by lia. by rewrite (wat_ge w) by lia.
    + replace (tail s + 1 + i) with (tail s + (i + 1)) by lia.
      rewrite (write_at_view s _ Hr), wat_cons_S by lia. by rewrite (proj2 (Z.eqb_neq _ _)) by lia.
Qed.

(** Writing back what is there changes nothing. *)
Lemma set_packets_id s : set_packets (packets s) s = s.
Proof. by destruct s. Qed.

Lemma write_at_id s w i : rep s w -> 0 <= i < nslots s -> write_at s i (wat w i) = s.
Proof.
  intros Hr Hi. unfold write_at. rewrite list_insert_id; [apply set_packets_id|]. by apply (rep_view _ _ Hr).
Qed.

Lemma rep_skip s w : rep s (empty_packet :: w) -> rep (set_tail (inc s (tail s)) s) w.
Proof.
  intros Hr. pose proof (rep_tl s _ w Hr) as H. pose proof (rep_pos _ _ Hr).
  change empty_packet with (wat (empty_packet :: w) 0) in H at 1.
  by rewrite (write_at_id s (empty_packet :: w)) in H by (done || lia).
Qed.

(** An empty window may be anywhere. *)
Lemma rep_nil_any s t l h : rep s [] -> l = packets s -> 0 <= t < nslots s -> h = t ->
  forall s', packets s' = l -> maxLate s' = maxLate s -> tail s' = t -> head s' = h -> rep s' [].
Proof.
  intros [Hs Ht Hl Hh Hv] -> Ht' -> s' Hp Hm Htl Hhd.
  assert (nslots s' = nslots s) as Hn by (unfold nslots; by rewrite Hp).
  pose proof (sized_nslots s Hs). split.
  - destruct Hs. split; [by rewrite Hm|]. by rewrite Hp, Hm.
  - by rewrite Hn, Htl.
  - rewrite Hn. cbn. lia.
  - rewrite Hn, Htl, Hhd. cbn. by rewrite Z.add_0_r, Z.mod_small.
  - intros i Hi. rewrite Hn, Hp, Htl in *. rewrite (wat_ge []) by (cbn; lia).
    pose proof (mod_range s Hs (t + i)) as Hj. set (j := (t + i) mod nslots s) in *.
    specialize (Hv ((j - tail s) mod nslots s)). rewrite (wat_ge []) in Hv by (cbn; apply mod_range, Hs).
    rewrite <- Hv by (by apply mod_range). rewrite Z.add_mod_idemp_r by lia. do 2 f_equal.
    replace (tail s + (j - tail s)) with j by lia. by rewrite Z.mod_small.
Qed.

Lemma rep_reset s : rep s [] -> rep (set_head_tail 0 0 s) [].
Proof.
  intros Hr. pose proof (rep_pos _ _ Hr). by apply (rep_nil_any s 0 (packets s) 0).
Qed.

(** Fields outside the ring do not matter. *)
Lemma rep_ext s s' w : rep s w -> packets s' = packets s -> head s' = head s -> tail s' = tail s ->
  maxLate s' = maxLate s -> rep s' w.
Proof.
  intros [Hs Ht Hl Hh Hv] Hp Hhd Htl Hm.
  assert (nslots s' = nslots s) as Hn by (unfold nslots; by rewrite Hp).
  split; rewrite ?Hn, ?Hp, ?Htl, ?Hhd; try done. destruct Hs. split; [by rewrite Hm|]. by rewrite Hp, Hm.
Qed.

(** The window grows at its front by [k] missing packets. *)
Lemma rep_extend s w k : rep s w -> w <> [] -> Z.of_nat k + Z.of_nat (length w) < nslots s ->
  rep (set_tail ((tail s - Z.of_nat k) mod nslots s) s) (replicate k empty_packet ++ w).
Proof.
  intros Hr Hw Hk. pose proof Hr as [Hs Ht Hl Hh Hv]. pose proof (sized_nslots s Hs).
  set (t := (tail s - Z.of_nat k) mod nslots s). set (s' := set_tail t s).
  assert (forall i, (t + i) mod nslots s = (tail s + (i - Z.of_nat k)) mod nslots s) as Ht'.
  { intros i. unfold t. rewrite Z.add_mod_idemp_l by lia. f_equal. lia. }
  split; change (nslots s') with (nslots s); change (tail s') with t;
    change (head s') with (head s); change (packets s') with (packets s).
  - done.
  - by apply mod_range.
  - rewrite length_app, length_replicate. lia.
  - rewrite Ht', Hh, length_app, length_replicate. f_equal. lia.
  - intros i Hi. rewrite Ht'. destruct (Z.ltb_spec i (Z.of_nat k)).
    + rewrite <- (Z.mod_add (tail s + (i - Z.of_nat k)) 1), Z.mul_1_l by lia.
      replace (tail s + (i - Z.of_nat k) + nslots s) with (tail s + (i - Z.of_nat k + nslots s)) by lia.
      rewrite Hv, wat_app_l, wat_replicate by (rewrite ?length_replicate; lia). by rewrite wat_ge by lia.
    + rewrite Hv, wat_app_r by (rewrite ?length_replicate; lia). by rewrite length_replicate.
Qed.

(** The window grows at its end by [k] missing packets and one slot. *)
Lemma rep_append s w k x : rep s w -> Z.of_nat k + Z.of_nat (length w) + 1 < nslots s ->
  let i := Z.of_nat (length w) + Z.of_nat k in
  rep (set_head (inc s ((tail s + i) mod nslots s)) (write_at s i x)) (w ++ replicate k empty_packet ++ [x]).
Proof.
  intros Hr Hk i. pose proof Hr as [Hs Ht Hl Hh Hv]. pose proof (sized_nslots s Hs).
  rewrite inc_mod by (done || by apply mod_range). set (s1 := write_at s i x).
  assert (nslots s1 = nslots s) as Hn by apply write_at_nslots.
  set (s' := set_head _ s1). change (nslots s') with (nslots s1) in *.
  split; change (nslots s') with (nslots s1); change (tail s') with (tail s); rewrite ?Hn.
  - apply (write_at_sized s _ Hr).
  - done.
  - rewrite !length_app, length_replicate. cbn. lia.
  - cbn [head s' set_head set_head_tail]. rewrite Z.add_mod_idemp_l by lia.
    f_equal. rewrite !length_app, length_replicate. cbn. lia.
  - intros j Hj. change (packets s') with (packets s1). unfold s1.
    rewrite (write_at_view s _ Hr) by lia. destruct (Z.eqb_spec i j) as [<-|Hne].
    + rewrite !wat_app_r by (rewrite ?length_replicate; lia).
      rewrite length_replicate. by replace (i - Z.of_nat (length w) - Z.of_nat k) with 0 by lia.
    + destruct (Z.ltb_spec j (Z.of_nat (length w))); [by rewrite wat_app_l by lia|].
      rewrite (wat_ge w) by lia. rewrite wat_app_r by lia.
      destruct (Z.ltb_spec j i).
      * by rewrite wat_app_l, wat_replicate by (rewrite ?length_replicate; lia).
      * rewrite (wat_ge _ (j - _)); [done|]. rewrite length_app, length_replicate. cbn. lia.
Qed.
