(* ===== verification/SampleWindow.v ===== *)
(** * The sample builder: releasing and dropping

    The abstract builder keeps the window, the last sequence number and
    timestamp, and what was released; [refines] relates the ring to it.  The
    code that shortens the window is a function of the abstract builder. *)
From S2P Require Import Prelude SampleBuilder SampleRing.
Local Open Scope Z_scope.

(** ** The abstract builder *)

Record astate := {
  win : list packet;
  a_last : option Z;
  a_ts : option Z;
  a_rel : list (rtp_packet * Z)
}.

Definition with_win (w : list packet) (a : astate) : astate :=
  {| win := w; a_last := a_last a; a_ts := a_ts a; a_rel := a_rel a |}.

Definition with_last (l : option Z) (a : astate) : astate :=
  {| win := win a; a_last := l; a_ts := a_ts a; a_rel := a_rel a |}.

Definition with_ts (ts : Z) (a : astate) : astate :=
  {| win := win a; a_last := a_last a; a_ts := Some ts; a_rel := a_rel a |}.

(** What the construction fixes: the maximal lateness, whether there is a
    release handler, and the clock rate. *)
Definition const (s : SampleBuilder) : Z * bool * Z :=
  (maxLate s, packetReleaseHandler s, sampleRate s).

Definition give (c : Z * bool * Z) (p : rtp_packet) (buf : Z) (a : astate) : astate :=
  {| win := win a; a_last := a_last a; a_ts := a_ts a;
     a_rel := a_rel a ++ (if c.1.2 then [(p, buf)] else []) |}.

Record refines (c : Z * bool * Z) (s : SampleBuilder) (a : astate) : Prop := {
  R_const : const s = c;
  R_rep : rep s (win a);
  R_last : (if lastSeqnoValid s then Some (lastSeqno s) else None) = a_last a;
  R_ts : (if lastTimestampValid s then Some (lastTimestamp s) else None) = a_ts a;
  R_rel : released s = a_rel a
}.

(** Missing packets leave no trace in their slot. *)
Definition clean (w : list packet) : Prop := Forall (fun x => packet_ x = None -> x = empty_packet) w.

(** Drop the missing packets at the front. *)
Fixpoint trim (w : list packet) : list packet :=
  match w with
  | [] => []
  | x :: w' => match packet_ x with None => trim w' | Some _ => w end
  end.

Definition a_release (c : Z * bool * Z) (a : astate) : astate :=
  match win a with
  | [] => a
  | x :: w =>
      match packet_ x with
      | Some p => with_win (trim w) (with_last (Some (SequenceNumber p)) (give c p (buff x) a))
      | None => a
      end
  end.

(** Release the front of the window up to a start or another timestamp. *)
Fixpoint a_drop_loop (fuel : nat) (c : Z * bool * Z) (ts : Z) (a : astate) : astate :=
  match fuel, win a with
  | S fuel, x :: _ =>
      if start x then a
      else match packet_ x with
           | Some p => if Timestamp p =? ts then a_drop_loop fuel c ts (a_release c a) else a
           | None => a
           end
  | _, _ => a
  end.

Definition front_ts (w : list packet) : Z :=
  match w with x :: _ => from_option Timestamp 0 (packet_ x) | [] => 0 end.

Definition a_drop (c : Z * bool * Z) (a : astate) : astate :=
  let ts := front_ts (win a) in
  let a := a_drop_loop (length (win a)) c ts (a_release c a) in
  match a_ts a with None => with_ts ts a | Some _ => a end.

Fixpoint a_release_all (fuel : nat) (c : Z * bool * Z) (a : astate) : astate :=
  match fuel, win a with
  | S fuel, _ :: _ => a_release_all fuel c (a_release c a)
  | _, _ => a
  end.

(** ** Simple facts *)

Lemma const_sub c s : const s = c -> maxLate s = c.1.1 /\ packetReleaseHandler s = c.1.2 /\ sampleRate s = c.2.
Proof. by intros <-. Qed.

Lemma refines_set_last c s a v n : refines c s a ->
  refines c (set_lastSeqno v n s) (with_last (if v then Some n else None) a).
Proof. intros [? ? ? ? ?]. split; try done. eapply rep_ext; [eassumption|reflexivity..]. Qed.

Lemma refines_set_ts c s a ts : refines c s a -> refines c (set_lastTimestamp ts s) (with_ts ts a).
Proof. intros [? ? ? ? ?]. split; try done. eapply rep_ext; [eassumption|reflexivity..]. Qed.

Lemma refines_give c s a p buf : refines c s a -> refines c (call_release p buf s) (give c p buf a).
Proof.
  intros [Hc Hr Hl Ht Hrel]. pose proof (const_sub _ _ Hc) as (_ & Hh & _). unfold call_release, give.
  rewrite Hh. destruct c as [[ml []] rate]; cbn in *.
  - split; cbn; try done; [by rewrite <- Hc; unfold const; rewrite Hh| |by rewrite Hrel].
    eapply rep_ext; [eassumption|reflexivity..].
  - split; cbn; try done. by rewrite app_nil_r.
Qed.

Lemma call_release_head p buf s : head (call_release p buf s) = head s.
Proof. unfold call_release. by destruct (packetReleaseHandler s). Qed.

Lemma trim_length w : (length (trim w) <= length w)%nat.
Proof. induction w as [|x w IH]; cbn; [lia|]. destruct (packet_ x); cbn; lia. Qed.

Lemma trim_suffix w : exists k, trim w = List.skipn k w /\
  forall i x, w !! i = Some x -> (i < k)%nat -> packet_ x = None.
Proof.
  induction w as [|x w (k & Hk & Hn)]; cbn; [by exists 0%nat|].
  destruct (packet_ x) eqn:E.
  - exists 0%nat. split; [done|]. intros; lia.
  - exists (S k). split; [done|]. intros [|i] y Hy Hi; cbn in Hy; [by injection Hy as <-|].
    eapply Hn; [done|lia].
Qed.

Lemma trim_front w x w' : trim w = x :: w' -> is_Some (packet_ x).
Proof. induction w as [|y w IH]; cbn; [done|]. destruct (packet_ y) eqn:E; [|done]. intros [= <- _]. by rewrite E. Qed.

Lemma clean_skipn k w : clean w -> clean (List.skipn k w).
Proof. apply Forall_drop. Qed.

Lemma clean_trim w : clean w -> clean (trim w).
Proof. intros Hc. destruct (trim_suffix w) as (k & -> & _). by apply clean_skipn. Qed.

(** ** The code refines the abstract operations *)

Lemma skip_missing_spec c fuel s a :
  refines c s a -> clean (win a) -> (length (win a) < fuel)%nat ->
  exists s', skip_missing fuel s = Ret s' /\ refines c s' (with_win (trim (win a)) a) /\ head s' = head s.
Proof.
  revert s a. induction fuel as [|fuel IH]; intros s a HR Hc Hf; [lia|]. cbn [skip_missing].
  pose proof (R_rep _ _ _ HR) as Hr. rewrite (tail_head_eqb _ _ Hr).
  destruct a as [[|x w] l t rel]; cbn [win] in *.
  { rewrite bool_decide_true by done. by exists s. }
  rewrite bool_decide_false by done. rewrite (slot_tail _ _ Hr), bind_ret_l, wat_cons_0.
  cbn [trim]. destruct (packet_ x) eqn:Ex; [by exists s|].
  apply Forall_cons in Hc as [Hx Hc]. rewrite (Hx Ex) in Hr. cbn [length] in Hf.
  destruct (IH (set_tail (inc s (tail s)) s) {| win := w; a_last := l; a_ts := t; a_rel := rel |})
    as (s' & Hs' & HR' & Hh'); [|done|cbn; lia|by exists s'].
  destruct HR. split; try done. by apply rep_skip.
Qed.

Lemma release_spec c s a x w p :
  refines c s a -> win a = x :: w -> packet_ x = Some p -> clean w ->
  exists s', release s = Ret (s', true) /\ refines c s' (a_release c a) /\
    (win (a_release c a) <> [] -> head s' = head s).
Proof.
  intros HR Hw Hx Hc. pose proof (R_rep _ _ _ HR) as Hr. unfold release, a_release.
  rewrite (head_tail_eqb _ _ Hr), bool_decide_false by (by rewrite Hw).
  rewrite (slot_tail _ _ Hr), bind_ret_l, Hw, wat_cons_0, Hx. cbn [go_deref]. rewrite bind_ret_l.
  pose proof (refines_give c _ _ p (buff x) (refines_set_last c s a true (SequenceNumber p) HR)) as H1.
  set (s1 := call_release p (buff x) (set_lastSeqno true (SequenceNumber p) s)) in *.
  pose proof (R_rep _ _ _ H1) as Hr1. cbn [win give with_last] in Hr1. rewrite Hw in Hr1.
  cbn zeta. fold s1. rewrite (set_slot_tail _ _ Hr1), bind_ret_l.
  pose proof (rep_tl _ _ _ Hr1) as Hr2. set (s2 := write_at s1 0 empty_packet) in *.
  assert (tail s2 = tail s1) as -> by done.
  assert (inc s2 (tail s1) = inc s1 (tail s1)) as ->.
  { unfold inc, len16. cbn. by rewrite length_insert. }
  set (s3 := set_tail (inc s1 (tail s1)) s2) in *.
  assert (refines c s3 (with_win w (with_last (Some (SequenceNumber p)) (give c p (buff x) a)))) as H3.
  { destruct H1. by split. }
  destruct (skip_missing_spec c (S (length (packets s3))) s3 _ H3) as (s4 & -> & H4 & Hh4).
  { done. }
  { pose proof (rep_len _ _ Hr2) as Hlen. unfold nslots in Hlen. cbn [win with_win]. lia. }
  rewrite bind_ret_l. eexists. split; [done|]. cbn [win with_win] in H4.
  assert (head s3 = head s) as Hh3 by (change (head s3) with (head s1); unfold s1; by rewrite call_release_head).
  rewrite (tail_head_eqb _ _ (R_rep _ _ _ H4)). case_bool_decide as Ht; cbn [win with_win].
  - split; [|intros Hne; by destruct (Hne Ht)]. destruct H4. split; try done. cbn in *. rewrite Ht in *. by apply rep_reset.
  - split; [exact H4|]. by rewrite Hh4, Hh3.
Qed.

(** The front of a nonempty window is a packet. *)
Definition fronted (w : list packet) : Prop := match w with x :: _ => is_Some (packet_ x) | [] => True end.

Lemma fronted_lookup w : fronted w <-> forall x, w !! 0%nat = Some x -> is_Some (packet_ x).
Proof. destruct w; cbn; naive_solver. Qed.

Lemma a_release_win c a x w p :
  win a = x :: w -> packet_ x = Some p -> win (a_release c a) = trim w.
Proof. intros Hw Hx. unfold a_release. by rewrite Hw, Hx. Qed.

Lemma fronted_trim w : fronted (trim w).
Proof. destruct (trim w) eqn:E; cbn; [done|]. by eapply trim_front. Qed.

Lemma release_refines c s a :
  refines c s a -> clean (win a) -> fronted (win a) -> win a <> [] ->
  exists s', release s = Ret (s', true) /\ refines c s' (a_release c a) /\
    clean (win (a_release c a)) /\ fronted (win (a_release c a)) /\
    (length (win (a_release c a)) < length (win a))%nat /\
    (win (a_release c a) <> [] -> head s' = head s).
Proof.
  intros HR Hc Hf Hne. destruct (win a) as [|x w] eqn:Hw; [done|]. destruct Hf as [p Hp].
  apply Forall_cons in Hc as [_ Hc].
  destruct (release_spec c s a x w p HR Hw Hp Hc) as (s' & -> & HR' & Hh'). exists s'.
  rewrite (a_release_win c a x w p Hw Hp) in *.
  split_and!; [done..|by apply clean_trim|apply fronted_trim| |done].
  pose proof (trim_length w). cbn. lia.
Qed.

Lemma drop_loop_refines c fuel ts s a :
  refines c s a -> clean (win a) -> fronted (win a) -> (length (win a) < fuel)%nat ->
  forall fuel', (length (win a) <= fuel')%nat ->
  let a' := a_drop_loop fuel' c ts a in
  exists s', drop_loop fuel ts s = Ret s' /\ refines c s' a' /\ clean (win a') /\ fronted (win a') /\
    (win a' <> [] -> head s' = head s).
Proof.
  revert s a. induction fuel as [|fuel IH]; intros s a HR Hc Hf Hl fuel' Hl'; [lia|]. cbn [drop_loop].
  pose proof (R_rep _ _ _ HR) as Hr. rewrite (tail_head_eqb _ _ Hr).
  destruct (win a) as [|x w] eqn:Hw.
  { rewrite bool_decide_true by done. exists s. cbn zeta.
    assert (a_drop_loop fuel' c ts a = a) as -> by (destruct fuel'; cbn; by rewrite ?Hw). by rewrite Hw. }
  destruct fuel' as [|fuel']; [cbn in Hl'; lia|]. rewrite bool_decide_false by done. unfold oldestPacket, packet_at.
  rewrite !(slot_tail _ _ Hr), !bind_ret_l, wat_cons_0. cbn [a_drop_loop]. rewrite Hw.
  destruct (start x); [exists s; rewrite Hw; by split_and!|]. destruct Hf as [p Hp]. rewrite Hp. cbn [go_deref].
  rewrite bind_ret_l. destruct (Timestamp p =? ts); cbn [negb]; [|exists s; rewrite Hw; split_and!; [done|done|done|by exists p|done]].
  rewrite <- Hw in Hc. destruct (release_refines c s a HR Hc) as (s1 & -> & HR1 & Hc1 & Hf1 & Hl1 & Hh1);
    [rewrite Hw; by exists p|by rewrite Hw|].
  rewrite bind_ret_l. rewrite Hw in Hl1. cbn in Hl1, Hl, Hl'.
  destruct (IH s1 (a_release c a) HR1 Hc1 Hf1 ltac:(lia) fuel' ltac:(lia)) as (s2 & -> & HR2 & Hc2 & Hf2 & Hh2).
  exists s2. split_and!; [done..|]. intros Hne. rewrite Hh2 by done. apply Hh1.
  intros E. apply Hne. destruct fuel'; cbn; by rewrite ?E.
Qed.

Lemma drop_refines c s a :
  refines c s a -> clean (win a) -> fronted (win a) -> win a <> [] ->
  let a' := a_drop c a in
  exists s', drop s = Ret (s', true, front_ts (win a)) /\ refines c s' a' /\
    clean (win a') /\ fronted (win a') /\ (win a' <> [] -> head s' = head s).
Proof.
  intros HR Hc Hf Hne. unfold drop. pose proof (R_rep _ _ _ HR) as Hr.
  rewrite (tail_head_eqb _ _ Hr), bool_decide_false by done. unfold oldestPacket, packet_at.
  rewrite (slot_tail _ _ Hr), bind_ret_l.
  destruct (release_refines c s a HR Hc Hf Hne) as (s1 & E1 & HR1 & Hc1 & Hf1 & Hl1 & Hh1).
  assert (go_deref (packet_ (wat (win a) 0)) = Ret (default (Build_rtp_packet 0 0 false []) (packet_ (wat (win a) 0)))) as ->.
  { destruct (win a) as [|x w]; [done|]. destruct Hf as [p Hp]. rewrite wat_cons_0, Hp. done. }
  rewrite bind_ret_l, E1, bind_ret_l.
  assert (Timestamp (default (Build_rtp_packet 0 0 false []) (packet_ (wat (win a) 0))) = front_ts (win a)) as ->.
  { destruct (win a) as [|x w]; [done|]. destruct Hf as [p Hp]. rewrite wat_cons_0. cbn. by rewrite Hp. }
  destruct (drop_loop_refines c (S (length (packets s1))) (front_ts (win a)) s1 (a_release c a) HR1 Hc1 Hf1)
    with (fuel' := length (win a)) as (s2 & -> & HR2 & Hc2 & Hf2 & Hh2).
  { pose proof (rep_len _ _ (R_rep _ _ _ HR1)). unfold nslots in *. lia. }
  { lia. }
  assert (win (a_drop_loop (length (win a)) c (front_ts (win a)) (a_release c a)) <> [] -> head s2 = head s) as Hh.
  { intros Hne2. rewrite Hh2 by done. apply Hh1. intros E. apply Hne2.
    destruct (length (win a)); cbn; by rewrite ?E. }
  rewrite bind_ret_l. eexists. split; [done|]. unfold a_drop.
  pose proof (R_ts _ _ _ HR2) as Hts. destruct (lastTimestampValid s2); cbn [negb]; rewrite <- Hts.
  - by split_and!.
  - split_and!; [by apply refines_set_ts|done..].
Qed.

Lemma releaseAll_refines c s a :
  refines c s a -> clean (win a) -> fronted (win a) ->
  exists s', releaseAll s = Ret s' /\ refines c s' (a_release_all (length (win a)) c a) /\
    win (a_release_all (length (win a)) c a) = [].
Proof.
  intros HR Hc Hf. unfold releaseAll.
  assert (length (win a) < S (length (packets s)))%nat as Hl.
  { pose proof (rep_len _ _ (R_rep _ _ _ HR)). unfold nslots in *. lia. }
  assert (forall fuel fuel' s a, refines c s a -> clean (win a) -> fronted (win a) ->
    (length (win a) < fuel)%nat -> (length (win a) <= fuel')%nat ->
    exists s', releaseAll_loop fuel s = Ret s' /\ refines c s' (a_release_all fuel' c a) /\
      win (a_release_all fuel' c a) = []) as Hgen; [|by apply Hgen].
  clear. induction fuel as [|fuel IH]; intros fuel' s a HR Hc Hf Hl Hl'; [lia|]. cbn [releaseAll_loop].
  rewrite (tail_head_eqb _ _ (R_rep _ _ _ HR)). destruct (win a) as [|x w] eqn:Hw.
  { rewrite bool_decide_true by done. exists s. destruct fuel'; cbn; by rewrite ?Hw. }
  rewrite bool_decide_false by done. rewrite <- Hw in *.
  destruct (release_refines c s a HR Hc Hf) as (s1 & -> & HR1 & Hc1 & Hf1 & Hl1 & _); [by rewrite Hw|].
  rewrite bind_ret_l. destruct fuel' as [|fuel']; [rewrite Hw in Hl'; cbn in Hl'; lia|].
  cbn [a_release_all]. rewrite Hw. apply IH; done || lia.
Qed.
