(* ===== verification/SampleInv.v ===== *)
(** * The sample builder: the invariant

    What the builder keeps true of its window: sequence numbers follow the
    positions, both ends are packets, the frame flags of neighbours agree,
    and the window lies after the last sequence number given up.  Releasing
    and dropping preserve it and lose no packet. *)
From S2P Require Import Prelude SampleBuilder SampleRing SampleWindow.
Local Open Scope Z_scope.

(** ** The invariant *)

(** Slots whose first one stands for sequence number [base]. *)
Record wfp (base : Z) (w : list packet) : Prop := {
  wf_base : 0 <= base < 65536;
  wf_clean : clean w;
  wf_seq i x p : w !! i = Some x -> packet_ x = Some p -> SequenceNumber p = u16 (base + Z.of_nat i);
  wf_flags i x y p q : w !! i = Some x -> w !! S i = Some y ->
    packet_ x = Some p -> packet_ y = Some q ->
    end_ x = start y /\ (Timestamp p <> Timestamp q -> end_ x = true)
}.

(** A window: both ends are packets. *)
Record wfw (base : Z) (w : list packet) : Prop := {
  wf_pre :> wfp base w;
  wf_front : fronted w;
  wf_back w' x : w = w' ++ [x] -> is_Some (packet_ x)
}.

(** The window is after the last sequence number given up. *)
Definition after (base : Z) (w : list packet) (last : option Z) : Prop :=
  forall l, last = Some l -> 0 <= l < 65536 /\ (w <> [] -> 1 <= u16 (base - l) < 32768).

(** The packets in a window, with their buffers. *)
Definition contents (w : list packet) : list (rtp_packet * Z) :=
  omap (fun x => (fun p => (p, buff x)) <$> packet_ x) w.

Definition bag (a : astate) : list (rtp_packet * Z) := contents (win a) ++ a_rel a.

Definition good (a : astate) : Prop :=
  exists base, wfw base (win a) /\ after base (win a) (a_last a).

(** Invariant of a sequence of releases: [e] is the sequence number after
    the newest packet. *)
Definition shrinking (c : Z * bool * Z) (e : Z) (b : list (rtp_packet * Z)) (a : astate) : Prop :=
  (exists base, wfw base (win a) /\ after base (win a) (a_last a) /\
    Z.of_nat (length (win a)) < 32767 /\
    (win a <> [] -> u16 (base + Z.of_nat (length (win a))) = e) /\
    (win a = [] -> a_last a = Some (u16 (e - 1)))) /\
  (c.1.2 = true -> bag a ≡ₚ b).

(** ** Windows *)

Lemma wfp_nil base : 0 <= base < 65536 -> wfp base [].
Proof.
  intros Hb. split; [done|constructor| |].
  - intros i x p Hi. discriminate Hi.
  - intros i x y p q Hi. discriminate Hi.
Qed.

Lemma wfp_skipn base w k : wfp base w -> wfp (u16 (base + Z.of_nat k)) (List.skipn k w).
Proof.
  intros [Hb Hc Hs Hfl]. split.
  - apply u16_range.
  - by apply clean_skipn.
  - intros i x p Hi Hp. rewrite lookup_drop in Hi. rewrite (Hs _ _ _ Hi Hp). wrap_lia.
  - intros i x y p q Hx Hy. rewrite lookup_drop in Hx, Hy. rewrite Nat.add_succ_r in Hy.
    exact (Hfl _ _ _ _ _ Hx Hy).
Qed.

Lemma wfw_skipn base w k : wfw base w -> fronted (List.skipn k w) ->
  wfw (u16 (base + Z.of_nat k)) (List.skipn k w).
Proof.
  intros [Hp Hf Hl] Hf'. split; [by apply wfp_skipn|done|].
  intros w' x E. apply (Hl (List.firstn k w ++ w')). rewrite <- app_assoc, <- E.
  by rewrite List.firstn_skipn.
Qed.

Lemma trim_nil_back w base x : wfw base (x :: w) -> trim w = [] -> w = [].
Proof.
  intros Hw Ht. destruct (trim_suffix w) as (k & Hk & Hn). rewrite Ht in Hk.
  destruct w as [|y w _] using rev_ind; [done|]. exfalso.
  destruct (wf_back _ _ Hw (x :: w) y) as [p Hp]; [done|].
  rewrite (Hn (length w) y) in Hp; [done|by rewrite list_lookup_middle|].
  apply (f_equal length) in Hk. rewrite length_skipn, length_app in Hk. cbn in Hk. lia.
Qed.

Lemma contents_trim w : contents (trim w) = contents w.
Proof. induction w as [|x w IH]; cbn; [done|]. by destruct (packet_ x) eqn:E; cbn; rewrite ?E. Qed.

Lemma contents_app w1 w2 : contents (w1 ++ w2) = contents w1 ++ contents w2.
Proof. apply omap_app. Qed.

Lemma contents_empty k : contents (replicate k empty_packet) = [].
Proof. induction k; cbn; done. Qed.

Lemma contents_step x w :
  contents (x :: w) = match packet_ x with Some p => (p, buff x) :: contents w | None => contents w end.
Proof. unfold contents. cbn. by destruct (packet_ x). Qed.

Lemma contents_cons x w p : packet_ x = Some p -> contents (x :: w) = (p, buff x) :: contents w.
Proof. intros Hp. cbn. by rewrite Hp. Qed.

(** Changing the flags of a slot changes no packet. *)
Lemma contents_insert w i x y :
  w !! i = Some x -> packet_ y = packet_ x -> buff y = buff x -> contents (<[i := y]> w) = contents w.
Proof.
  revert i. induction w as [|z w IH]; intros [|i] Hx Hp Hb; cbn in *; try done.
  - injection Hx as ->. by rewrite Hp, Hb.
  - by rewrite IH.
Qed.

(** ** Releasing *)

Section Shrink.
Context (c : Z * bool * Z) (e : Z) (b : list (rtp_packet * Z)).

Lemma shrinking_front a : shrinking c e b a -> clean (win a) /\ fronted (win a).
Proof. intros [(base & [[] ? ?] & _) _]. done. Qed.

Lemma release_shrinking a : shrinking c e b a -> win a <> [] -> shrinking c e b (a_release c a).
Proof.
  intros [(base & Hw & Ha & Hl & He & _) Hbag] Hne. destruct (win a) as [|x w] eqn:Hwin; [done|].
  destruct (wf_front _ _ Hw) as [p Hp]. pose proof (wf_seq _ _ Hw 0%nat x p eq_refl Hp) as Hseq.
  specialize (He Hne). cbn [length] in *. split.
  - destruct (trim_suffix w) as (k & Hk & Hn). unfold a_release. rewrite Hwin, Hp. cbn [win a_last with_win with_last].
    pose proof (f_equal length Hk) as Hlen. rewrite length_skipn in Hlen.
    exists (u16 (base + Z.of_nat (S k))). split_and!.
    + pose proof (fronted_trim w) as Hf. rewrite Hk in *.
      by apply (wfw_skipn base (x :: w) (S k)).
    + intros l [= <-]. rewrite Hseq. split; [apply u16_range|]. intros Hnil.
      assert (k < length w)%nat by (destruct (trim w); [done|]; cbn in Hlen; lia). wrap_lia.
    + pose proof (trim_length w). lia.
    + intros Hnil. assert (k < length w)%nat by (destruct (trim w); [done|]; cbn in Hlen; lia).
      rewrite <- He, Hlen. wrap_lia.
    + intros Hnil. apply (trim_nil_back w base x Hw) in Hnil as ->. rewrite Hseq, <- He. cbn [length].
      f_equal. wrap_lia.
  - intros Hh. rewrite <- (Hbag Hh). unfold a_release, bag. rewrite Hwin, Hp. cbn [win a_rel with_win with_last give].
    rewrite contents_trim, (contents_cons x w p Hp), Hh, (assoc_L (++)). rewrite <- Permutation_cons_append. done.
Qed.

Lemma drop_loop_shrinking fuel ts a :
  shrinking c e b a -> shrinking c e b (a_drop_loop fuel c ts a).
Proof.
  revert a. induction fuel as [|fuel IH]; intros a Ha; cbn [a_drop_loop]; [done|].
  destruct (win a) as [|x w] eqn:Hw; [done|]. destruct (start x); [done|].
  destruct (packet_ x); [|done]. case_match; [|done]. apply IH, release_shrinking; [done|by rewrite Hw].
Qed.

Lemma drop_loop_length fuel ts a : (length (win (a_drop_loop fuel c ts a)) <= length (win a))%nat.
Proof.
  revert a. induction fuel as [|fuel IH]; intros a; cbn [a_drop_loop]; [done|].
  destruct (win a) as [|x w] eqn:Hw; [by rewrite Hw|]. destruct (start x); [by rewrite Hw|].
  destruct (packet_ x) as [p|] eqn:Hp; [|by rewrite Hw]. case_match; [|by rewrite Hw].
  rewrite IH, (a_release_win c a x w p Hw Hp). pose proof (trim_length w). cbn. lia.
Qed.

Lemma with_ts_shrinking ts a : shrinking c e b a -> shrinking c e b (with_ts ts a).
Proof. done. Qed.

Lemma drop_shrinking a : shrinking c e b a -> win a <> [] ->
  shrinking c e b (a_drop c a) /\ (length (win (a_drop c a)) < length (win a))%nat.
Proof.
  intros Ha Hne. unfold a_drop. set (ts := front_ts (win a)).
  pose proof (drop_loop_shrinking (length (win a)) ts _ (release_shrinking a Ha Hne)) as H1.
  pose proof (drop_loop_length (length (win a)) ts (a_release c a)) as H2.
  assert (length (win (a_release c a)) < length (win a))%nat as H3.
  { destruct (win a) as [|x w] eqn:Hw; [done|]. destruct (shrinking_front a Ha) as [_ Hf].
    rewrite Hw in Hf. destruct Hf as [p Hp]. rewrite (a_release_win c a x w p Hw Hp).
    pose proof (trim_length w). cbn. lia. }
  destruct (a_ts _); [|cbn [win with_ts]]; (split; [done|lia]).
Qed.

Lemma release_all_shrinking fuel a : shrinking c e b a -> shrinking c e b (a_release_all fuel c a).
Proof.
  revert a. induction fuel as [|fuel IH]; intros a Ha; cbn [a_release_all]; [done|].
  destruct (win a) as [|x w] eqn:Hw; [done|]. apply IH, release_shrinking; [done|by rewrite Hw].
Qed.
End Shrink.

(** A good builder is where a sequence of releases may begin. *)
Lemma good_shrinking c s a base :
  refines c s a -> wfw base (win a) -> after base (win a) (a_last a) -> win a <> [] ->
  shrinking c (u16 (base + Z.of_nat (length (win a)))) (bag a) a.
Proof.
  intros HR Hw Ha Hne. split; [|done]. exists base. split_and!; try done.
  pose proof (rep_len _ _ (R_rep _ _ _ HR)).
  destruct (sized_nslots s (rep_sized _ _ (R_rep _ _ _ HR))). lia.
Qed.

Lemma shrinking_good c e b a : shrinking c e b a -> good a.
Proof. intros [(base & ? & ? & _) _]. by exists base. Qed.
