(* ===== verification/SamplePush.v ===== *)
(** * The sample builder: [Push] preserves the invariant

    Every way [Push] stores a packet fills one slot of a window and adjusts
    the flags of its two neighbours ([filled]); the cases of the code differ
    in how the window is extended or shortened before. *)
From S2P Require Import Prelude SampleBuilder SampleRing SampleWindow SampleInv.
Local Open Scope Z_scope.

(** ** Filling a slot *)

Definition mark_end (v : bool) (z : packet) : packet :=
  match packet_ z with
  | Some _ => {| start := start z; end_ := v; packet_ := packet_ z; buff := buff z |}
  | None => z
  end.

Definition mark_start (v : bool) (y : packet) : packet :=
  match packet_ y with
  | Some _ => {| start := v; end_ := end_ y; packet_ := packet_ y; buff := buff y |}
  | None => y
  end.

(** [w'] is [w] with [x] at [i], the end flag before it set to [start x] and
    the start flag after it set to [end_ x]. *)
Definition filled (w : list packet) (i : nat) (x : packet) (w' : list packet) : Prop :=
  length w' = length w /\
  forall j, w' !! j =
    if decide (j = i) then Some x
    else if decide (S j = i) then mark_end (start x) <$> w !! j
    else if decide (j = S i) then mark_start (end_ x) <$> w !! j
    else w !! j.

Lemma mark_end_packet v z : packet_ (mark_end v z) = packet_ z.
Proof. unfold mark_end. by destruct (packet_ z) eqn:E. Qed.

Lemma mark_start_packet v z : packet_ (mark_start v z) = packet_ z.
Proof. unfold mark_start. by destruct (packet_ z) eqn:E. Qed.

Lemma mark_end_buff v z : buff (mark_end v z) = buff z.
Proof. unfold mark_end. by destruct (packet_ z). Qed.

Lemma mark_start_buff v z : buff (mark_start v z) = buff z.
Proof. unfold mark_start. by destruct (packet_ z). Qed.

Section Filled.
Context (w : list packet) (i : nat) (x : packet) (w' : list packet) (p : rtp_packet).
Context (Hf : filled w i x w') (Hx : packet_ x = Some p) (Hi : w !! i = Some empty_packet).

Lemma filled_at j : w' !! j =
    if decide (j = i) then Some x
    else if decide (S j = i) then mark_end (start x) <$> w !! j
    else if decide (j = S i) then mark_start (end_ x) <$> w !! j
    else w !! j.
Proof using Hf. apply Hf. Qed.

Lemma filled_self : w' !! i = Some x.
Proof using Hf. rewrite filled_at. by rewrite decide_True. Qed.

(** Elsewhere the packets are the same. *)
Lemma filled_other j y : j <> i -> w' !! j = Some y ->
  exists z, w !! j = Some z /\ packet_ y = packet_ z /\ buff y = buff z.
Proof using Hf.
  intros Hne. rewrite filled_at, decide_False by done.
  case_decide; [|case_decide]; [..|eauto]; intros (z & -> & ->)%fmap_Some; exists z;
    by rewrite ?mark_end_packet, ?mark_start_packet, ?mark_end_buff, ?mark_start_buff.
Qed.

Lemma filled_flags_other j y z : S j <> i -> j <> i -> j <> S i -> w' !! j = Some y -> w !! j = Some z -> y = z.
Proof using Hf. intros ???. rewrite filled_at, !decide_False by done. congruence. Qed.

Lemma filled_prev y : w' !! i = Some x -> forall j, S j = i -> w' !! j = Some y -> is_Some (packet_ y) ->
  end_ y = start x.
Proof using Hf.
  intros _ j Hj. rewrite filled_at, decide_False, decide_True by lia.
  intros (z & Hz & ->)%fmap_Some Hp. rewrite mark_end_packet in Hp. unfold mark_end.
  by destruct (packet_ z); [|destruct Hp].
Qed.

Lemma filled_next y : w' !! S i = Some y -> is_Some (packet_ y) -> start y = end_ x.
Proof using Hf.
  rewrite filled_at, decide_False, decide_False, decide_True by lia.
  intros (z & Hz & ->)%fmap_Some Hp. rewrite mark_start_packet in Hp. unfold mark_start.
  by destruct (packet_ z); [|destruct Hp].
Qed.

(** The start flag of a slot that is not after [i], the end flag of one
    that is not before it. *)
Lemma filled_start j y z : j <> i -> j <> S i -> w' !! j = Some y -> w !! j = Some z -> start y = start z.
Proof using Hf.
  intros ??. rewrite filled_at, decide_False by done. case_decide; [|rewrite decide_False by done; congruence].
  intros Hy Hz. rewrite Hz in Hy. injection Hy as <-. unfold mark_end. by destruct (packet_ z).
Qed.

Lemma filled_end j y z : j <> i -> S j <> i -> w' !! j = Some y -> w !! j = Some z -> end_ y = end_ z.
Proof using Hf.
  intros ??. rewrite filled_at, decide_False, decide_False by done. case_decide; [|congruence].
  intros Hy Hz. rewrite Hz in Hy. injection Hy as <-. unfold mark_start. by destruct (packet_ z).
Qed.

Lemma filled_contents : contents w' ≡ₚ (p, buff x) :: contents w.
Proof using Hf Hx Hi.
  assert (w' = take i w' ++ x :: List.skipn (S i) w') as Hw'.
  { symmetry. by rewrite <- (take_drop_middle w' i x filled_self) at 3. }
  assert (w = take i w ++ empty_packet :: List.skipn (S i) w) as Hw.
  { symmetry. by rewrite <- (take_drop_middle w i _ Hi) at 3. }
  assert (forall l l' : list packet, length l = length l' ->
    (forall j y z, l !! j = Some y -> l' !! j = Some z -> packet_ y = packet_ z /\ buff y = buff z) ->
    contents l = contents l') as Hsame.
  { induction l as [|y l IH]; intros [|z l'] Hl He; cbn in Hl; try done.
    destruct (He 0%nat y z eq_refl eq_refl) as [E1 E2]. rewrite !contents_step, E1, E2, (IH l'); [done|lia|].
    intros j. apply (He (S j)). }
  rewrite Hw', Hw, !contents_app, (contents_cons x _ p Hx). cbn [contents omap].
  pose proof (lookup_lt_Some _ _ _ Hi) as Hlt. pose proof Hf as [Hlen _].
  rewrite (Hsame (take i w') (take i w)), (Hsame (List.skipn (S i) w') (List.skipn (S i) w)).
  - by rewrite <- Permutation_middle.
  - rewrite !length_skipn. lia.
  - intros j y z. rewrite !lookup_drop. intros Hy Hz.
    destruct (filled_other (S i + j) y) as (z' & Hz' & ?); [lia|done|]. by rewrite Hz in Hz'; simplify_eq.
  - rewrite !length_take. lia.
  - intros j y z Hy Hz. apply lookup_take_Some in Hy as [Hy Hj]. apply lookup_take_Some in Hz as [Hz _].
    destruct (filled_other j y) as (z' & Hz' & ?); [lia|done|]. by rewrite Hz in Hz'; simplify_eq.
Qed.

(** The neighbour conditions of the flags of [x]. *)
Context (base : Z) (Hw : wfp base w) (Hseq : SequenceNumber p = u16 (base + Z.of_nat i)).
Context (Hprev : forall j z q, S j = i -> w !! j = Some z -> packet_ z = Some q ->
  Timestamp q <> Timestamp p -> start x = true).
Context (Hnext : forall y q, w !! S i = Some y -> packet_ y = Some q ->
  Timestamp p <> Timestamp q -> end_ x = true).

Lemma filled_wfp : wfp base w'.
Proof using Type*.
  split.
  - apply (wf_base _ _ Hw).
  - apply Forall_lookup. intros j y Hy. destruct (decide (j = i)) as [->|Hne].
    { rewrite filled_self in Hy. injection Hy as <-. by rewrite Hx. }
    intros Hn. rewrite filled_at, decide_False in Hy by done.
    pose proof (wf_clean _ _ Hw) as Hc. unfold clean in Hc. rewrite Forall_lookup in Hc.
    case_decide; [|case_decide]; [..|by eapply Hc]; apply fmap_Some in Hy as (z & Hz & ->).
    + rewrite mark_end_packet in Hn. unfold mark_end. rewrite Hn. by eapply Hc.
    + rewrite mark_start_packet in Hn. unfold mark_start. rewrite Hn. by eapply Hc.
  - intros j y q Hy Hq. destruct (decide (j = i)) as [->|Hne].
    { rewrite filled_self in Hy. injection Hy as <-. congruence. }
    destruct (filled_other j y Hne Hy) as (z & Hz & Hp & _). apply (wf_seq _ _ Hw j z); congruence.
  - intros j y1 y2 q1 q2 H1 H2 Hp1 Hp2. destruct (decide (j = i)) as [->|Hne].
    { rewrite filled_self in H1. injection H1 as <-.
      rewrite (filled_next y2 H2) by eauto. split; [done|]. intros Ht.
      destruct (filled_other (S i) y2) as (z & Hz & Hp & _); [lia|done|].
      apply (Hnext z q2); congruence. }
    destruct (decide (S j = i)) as [Hj|Hne'].
    { rewrite Hj, filled_self in H2. injection H2 as <-.
      rewrite (filled_prev y1 filled_self j Hj H1) by eauto. split; [done|]. intros Ht.
      destruct (filled_other j y1 Hne H1) as (z & Hz & Hp & _). apply (Hprev j z q1); congruence. }
    destruct (filled_other j y1 Hne H1) as (z1 & Hz1 & E1 & _).
    destruct (filled_other (S j) y2 Hne' H2) as (z2 & Hz2 & E2 & _).
    rewrite (filled_end j y1 z1 Hne Hne' H1 Hz1), (filled_start (S j) y2 z2 Hne' ltac:(lia) H2 Hz2).
    apply (wf_flags _ _ Hw j z1 z2); congruence.
Qed.

Lemma filled_wfw : (i = 0%nat \/ fronted w) ->
  (S i = length w \/ forall l y, w = l ++ [y] -> is_Some (packet_ y)) -> wfw base w'.
Proof using Type*.
  intros Hfront Hback. pose proof Hf as [Hlen _]. split; [apply filled_wfp| |].
  - apply fronted_lookup. intros y Hy. destruct (decide (i = 0%nat)) as [E|Hne].
    + pose proof filled_self as Hs. rewrite E, Hy in Hs. injection Hs as ->. by rewrite Hx.
    + destruct Hfront as [|Hfront]; [done|]. rewrite fronted_lookup in Hfront.
      destruct (filled_other 0 y) as (z & Hz & -> & _); [done..|]. by apply Hfront.
  - intros l y E. assert (w' !! length l = Some y) as Hy by (rewrite E; apply list_lookup_middle; done).
    destruct (decide (length l = i)) as [El|Hne].
    + rewrite El, filled_self in Hy. injection Hy as <-. by rewrite Hx.
    + rewrite E, length_app in Hlen. cbn in Hlen.
      destruct Hback as [|Hback]; [lia|]. destruct (filled_other _ y Hne Hy) as (z & Hz & -> & _).
      apply (Hback (take (length l) w) z). rewrite <- take_S_r by done. rewrite firstn_all2; [done|lia].
Qed.
End Filled.

(** ** The cases of [Push] *)

(** The next packet is after the last sequence number given up. *)
Definition follows (n : Z) (w : list packet) (last : option Z) : Prop :=
  forall l, last = Some l -> 1 <= u16 (n - l) <= 32768 /\ (w = [] -> u16 (n - l) < 32768).

(** What is shown of a way to store [p]: the invariant holds afterwards,
    and [p] is in the builder or was handed to the release handler. *)
Definition stored (c : Z * bool * Z) (p : rtp_packet) (buf : Z) (b : list (rtp_packet * Z))
    (r : run SampleBuilder) : Prop :=
  exists s' a', r = Ret s' /\ refines c s' a' /\ good a' /\ (c.1.2 = true -> bag a' ≡ₚ (p, buf) :: b).

Lemma stored_give c p buf b s a :
  refines c s a -> good a -> (c.1.2 = true -> bag a ≡ₚ b) ->
  stored c p buf b (Ret (call_release p buf s)).
Proof.
  intros HR Hg Hb. eexists _, (give c p buf a). split; [done|]. split; [by apply refines_give|].
  split; [exact Hg|]. intros Hh. unfold bag, give. cbn [win a_rel]. rewrite Hh, (assoc_L (++)).
  fold (bag a). rewrite (Hb Hh). by rewrite <- Permutation_cons_append.
Qed.

Lemma front_packet w : fronted w -> w <> [] -> exists x p, wat w 0 = x /\ w !! 0%nat = Some x /\ packet_ x = Some p.
Proof. destruct w as [|x w]; [done|]. intros [p Hp] _. by exists x, p. Qed.

Lemma oldest_spec c s a base : refines c s a -> wfw base (win a) -> win a <> [] ->
  exists q, oldestPacket s = Ret q /\ SequenceNumber q = base /\ Timestamp q = front_ts (win a).
Proof.
  intros HR Hw Hne. unfold oldestPacket, packet_at. rewrite (slot_tail _ _ (R_rep _ _ _ HR)), bind_ret_l.
  pose proof Hw as [Hp Hf _].
  destruct (front_packet _ Hf Hne) as (x & q & -> & Hx & Hq). exists q. rewrite Hq. split_and!; [done| |].
  - rewrite (wf_seq _ _ Hp 0%nat x q Hx Hq). pose proof (wf_base _ _ Hp). wrap_lia.
  - destruct (win a); [done|]. injection Hx as ->. cbn. by rewrite Hq.
Qed.

Lemma push_late_spec c s a base p :
  refines c s a -> wfw base (win a) -> after base (win a) (a_last a) -> is_u16 (SequenceNumber p) ->
  (push_late p s = Ret None /\ exists l, a_last a = Some l /\ u16 (l - SequenceNumber p) <= c.1.1) \/
  exists s' l', push_late p s = Ret (Some s') /\ refines c s' (with_last l' a) /\ head s' = head s /\
    after base (win a) l' /\ follows (SequenceNumber p) (win a) l'.
Proof.
  intros HR Hw Ha Hp. pose proof (R_last _ _ _ HR) as Hl. pose proof (R_rep _ _ _ HR) as Hr.
  destruct (const_sub _ _ (R_const _ _ _ HR)) as (Hm & _). pose proof (proj1 (rep_sized _ _ Hr)) as Hml.
  rewrite Hm in Hml. unfold push_late. rewrite Hm. pose proof (wf_base _ _ Hw) as Hb. unfold is_u16 in Hp.
  destruct (lastSeqnoValid s).
  2: { right. exists s, (a_last a). rewrite <- Hl. split_and!; try done; destruct a; cbn in *; by rewrite ?Hl. }
  set (l := lastSeqno s) in *. destruct (Ha l (eq_sym Hl)) as [Hlr Haft].
  rewrite !nonneg16_spec by apply u16_range.
  destruct (Z.ltb_spec (u16 (l - SequenceNumber p)) 32768) as [Hback|Hback].
  - destruct (Z.ltb_spec c.1.1 (u16 (l - SequenceNumber p))).
    + right. eexists _, None. split; [done|]. split; [by apply (refines_set_last c s a false)|]. by split_and!.
    + left. split; [done|]. by exists l.
  - right. destruct (Z.ltb_spec (u16 (u16 (SequenceNumber p - c.1.1) - l)) 32768) as [Hfar|Hfar].
    + rewrite (head_tail_eqb _ _ Hr). case_bool_decide as Hne; cbn [negb].
      * rewrite bind_ret_l. eexists _, (Some _). split; [done|]. split; [by apply (refines_set_last c s a true)|].
        split; [done|]. split; intros ? [= <-].
        { split; [wrap_lia|]. intros Hx. by destruct (Hx Hne). }
        { split; [|intros _]; wrap_lia. }
      * destruct (oldest_spec c s a base HR Hw Hne) as (q & -> & Hq & _). rewrite !bind_ret_l, Hq.
        specialize (Haft Hne). rewrite nonneg16_spec by apply u16_range.
        eexists _, (Some _). split; [done|]. split; [by apply (refines_set_last c s a true)|]. split; [done|].
        destruct (Z.ltb_spec (u16 (u16 (SequenceNumber p - c.1.1) - u16 (base - 1))) 32768);
          (split; intros ? [= <-]; (split; [wrap_lia|]; intros Hx; try (by destruct (Hne Hx)); wrap_lia)).
    + exists s, (a_last a). split; [done|]. split; [by destruct a|]. split; [done|]. split; [done|].
      intros ? E. rewrite <- Hl in E. injection E as <-. split; [|intros _]; wrap_lia.
Qed.

Section Push.
Context (IsPartitionHead : list Z -> bool) (IsPartitionTail : bool -> list Z -> bool).
Abbreviation isStart := (isStart IsPartitionHead).
Abbreviation isEnd := (isEnd IsPartitionTail).

(** The slot [p] would get in an empty window. *)
Definition fresh_slot (p : rtp_packet) (buf : Z) : packet :=
  {| start := isStart p; end_ := isEnd p; packet_ := Some p; buff := buf |}.

(** Storing into the window [w], of which [s'] is the ring afterwards. *)
Lemma stored_filled c s s' a base w i x w' p buf b :
  refines c s a -> const s' = const s ->
  (if lastSeqnoValid s' then Some (lastSeqno s') else None) = a_last a ->
  (if lastTimestampValid s' then Some (lastTimestamp s') else None) = a_ts a ->
  released s' = a_rel a -> rep s' w' ->
  wfp base w -> filled w i x w' -> packet_ x = Some p -> buff x = buf -> w !! i = Some empty_packet ->
  SequenceNumber p = u16 (base + Z.of_nat i) ->
  (forall j z q, S j = i -> w !! j = Some z -> packet_ z = Some q -> Timestamp q <> Timestamp p -> start x = true) ->
  (forall y q, w !! S i = Some y -> packet_ y = Some q -> Timestamp p <> Timestamp q -> end_ x = true) ->
  (i = 0%nat \/ fronted w) ->
  (S i = length w \/ forall l y, w = l ++ [y] -> is_Some (packet_ y)) ->
  after base w' (a_last a) ->
  contents w = contents (win a) -> (c.1.2 = true -> bag a ≡ₚ b) ->
  stored c p buf b (Ret s').
Proof using Type.
  intros HR Hc Hl Ht Hrel Hrep Hw Hfill Hx Hbuf Hi Hseq Hprev Hnext Hfront Hback Hafter Hcont Hbag.
  exists s', (with_win w' a). split; [done|]. split_and!.
  - split; try done. rewrite Hc. apply (R_const _ _ _ HR).
  - exists base. split; [|done]. by apply (filled_wfw w i x w' p Hfill Hx Hi base Hw Hseq Hprev Hnext).
  - intros Hh. unfold bag. cbn [win a_rel with_win].
    rewrite (filled_contents w i x w' p Hfill Hx Hi), Hcont, Hbuf, <- (Hbag Hh). done.
Qed.

Lemma fresh_filled x : filled [empty_packet] 0 x [x].
Proof using Type. split; [done|]. intros [|[|j]]; done. Qed.

(** The builder becomes the one packet [p]. *)
Lemma stored_single c s s' a p buf b :
  refines c s a -> win a = [] -> is_u16 (SequenceNumber p) ->
  follows (SequenceNumber p) [] (a_last a) -> (forall l, a_last a = Some l -> 0 <= l < 65536) ->
  (c.1.2 = true -> bag a ≡ₚ b) -> const s' = const s ->
  lastSeqnoValid s' = lastSeqnoValid s -> lastSeqno s' = lastSeqno s ->
  lastTimestampValid s' = lastTimestampValid s -> lastTimestamp s' = lastTimestamp s ->
  released s' = released s -> rep s' [fresh_slot p buf] ->
  stored c p buf b (Ret s').
Proof using Type.
  intros HR Hw Hp Hfol Hlr Hbag Hc E1 E2 E3 E4 E5 Hrep.
  eapply (stored_filled c s s' a (SequenceNumber p) [empty_packet] 0 (fresh_slot p buf) [fresh_slot p buf]);
    try done; try (by left).
  - rewrite E1, E2. apply (R_last _ _ _ HR).
  - rewrite E3, E4. apply (R_ts _ _ _ HR).
  - rewrite E5. apply (R_rel _ _ _ HR).
  - split; [done|by repeat constructor| |].
    + intros [|i] ?? [= <-]; done.
    + intros [|i] ?????; done.
  - apply fresh_filled.
  - unfold is_u16 in Hp. rewrite u16_id; lia.
  - intros l Hl. split; [by apply Hlr|]. intros _. destruct (Hfol l Hl) as [? Hlt]. specialize (Hlt eq_refl). lia.
  - by rewrite Hw.
Qed.

Lemma rep_single s x : rep s [] ->
  rep (set_head (inc s (tail s)) (write_at s 0 x)) [x].
Proof using Type.
  intros Hr. destruct (sized_nslots s (rep_sized _ _ Hr)) as [Hn _].
  pose proof (rep_append s [] 0 x Hr ltac:(cbn; lia)) as Hap.
  change (Z.of_nat (length []) + Z.of_nat 0) with 0 in Hap. cbn [replicate app] in Hap.
  by rewrite <- (tail_at _ _ Hr) in Hap.
Qed.

Lemma push_first_spec c s a p buf b :
  refines c s a -> win a = [] -> is_u16 (SequenceNumber p) ->
  follows (SequenceNumber p) [] (a_last a) -> (forall l, a_last a = Some l -> 0 <= l < 65536) ->
  (c.1.2 = true -> bag a ≡ₚ b) ->
  stored c p buf b (push_first IsPartitionHead IsPartitionTail p buf s).
Proof using Type.
  intros HR Hw Hp Hfol Hlr Hbag. pose proof (R_rep _ _ _ HR) as Hr. rewrite Hw in Hr.
  pose proof (rep_reset s Hr) as Hr0. destruct (sized_nslots s (rep_sized _ _ Hr)) as [Hn _].
  unfold push_first, set_slot. fold (nslots s). rewrite (proj2 (Z.ltb_lt _ _)) by lia.
  change (0 <=? 0) with true. cbn [andb]. rewrite bind_ret_l.
  apply (stored_single c s _ a); try done.
  eapply rep_ext; [apply (rep_single _ _ Hr0)|..]; cbn; try done.
  rewrite inc_mod by (apply (rep_sized _ _ Hr0) || (change (nslots (set_head_tail 0 0 s)) with (nslots s); lia)).
  change (nslots (set_head_tail 0 0 s)) with (nslots s). by rewrite Z.mod_small by lia.
Qed.

(** The same at the place where the ring stands. *)
Lemma put_empty_spec c s a p buf b :
  refines c s a -> win a = [] -> is_u16 (SequenceNumber p) ->
  follows (SequenceNumber p) [] (a_last a) -> (forall l, a_last a = Some l -> 0 <= l < 65536) ->
  (c.1.2 = true -> bag a ≡ₚ b) ->
  stored c p buf b (s ← set_slot (head s) (fresh_slot p buf) s; Ret (set_head (inc s (head s)) s)).
Proof using Type.
  intros HR Hw Hp Hfol Hlr Hbag. pose proof (R_rep _ _ _ HR) as Hr. rewrite Hw in Hr.
  assert (head s = tail s) as Hht by (by apply (empty_iff _ _ Hr)).
  rewrite Hht, (set_slot_tail _ _ Hr), bind_ret_l. change (head (write_at s 0 (fresh_slot p buf))) with (head s).
  rewrite Hht, write_at_inc. apply (stored_single c s _ a); try done. by apply rep_single.
Qed.

(** *** A packet after the newest *)

Lemma wfp_pad base w k : wfp base w -> wfp base (w ++ replicate k empty_packet).
Proof using Type.
  intros [Hb Hc Hs Hf]. split; [done| | |].
  - apply Forall_app_2; [done|]. by apply Forall_replicate.
  - intros i x p [Hx|[_ Hx]]%lookup_app_Some Hp; [by eapply Hs|].
    apply lookup_replicate in Hx as [-> _]. done.
  - intros i x y p q [Hx|[_ Hx]]%lookup_app_Some Hy Hp Hq; [|apply lookup_replicate in Hx as [-> _]; done].
    apply lookup_app_Some in Hy as [Hy|[_ Hy]]; [by apply (Hf i x y p q)|].
    apply lookup_replicate in Hy as [-> _]. done.
Qed.

Lemma mark_end_same z : mark_end (end_ z) z = z.
Proof using Type. unfold mark_end. destruct z as [? ? [] ?]; done. Qed.

Lemma filled_append w0 z x :
  filled ((w0 ++ [z]) ++ [empty_packet]) (S (length w0)) x ((w0 ++ [mark_end (start x) z]) ++ [x]).
Proof using Type.
  split; [by rewrite !length_app|]. intros j. rewrite <- !app_assoc. cbn [app].
  destruct (decide (j < length w0)%nat) as [Hlt|Hge].
  - rewrite !decide_False by lia. by rewrite !lookup_app_l by lia.
  - rewrite !lookup_app_r by lia. destruct (j - length w0)%nat as [|[|d]] eqn:E; cbn.
    + rewrite decide_False, decide_True by lia. done.
    + by rewrite decide_True by lia.
    + rewrite !(decide_False (P := j = S (length w0))), (decide_False (P := S j = _)) by lia. by case_decide.
Qed.

Lemma put_spec c s a base w0 z q p buf b :
  refines c s a -> win a = w0 ++ [z] -> wfw base (win a) -> after base (win a) (a_last a) ->
  packet_ z = Some q -> Z.of_nat (length (win a)) + 1 < nslots s ->
  SequenceNumber p = u16 (base + Z.of_nat (length (win a))) -> (c.1.2 = true -> bag a ≡ₚ b) ->
  let start_ := end_ z || negb (Timestamp q =? Timestamp p) || isStart p in
  stored c p buf b
    (s ← (if start_
          then set_slot (dec s (head s)) {| start := start z; end_ := true; packet_ := packet_ z; buff := buff z |} s
          else Ret s);
     s ← set_slot (head s) {| start := start_; end_ := isEnd p; packet_ := Some p; buff := buf |} s;
     Ret (set_head (inc s (head s)) s)).
Proof using Type.
  intros HR Hw0 Hw Ha Hq Hlen Hseq Hbag start_. pose proof (R_rep _ _ _ HR) as Hr.
  set (x := {| start := start_; end_ := isEnd p; packet_ := Some p; buff := buf |}).
  pose proof (rep_sized _ _ Hr) as Hs. destruct (sized_nslots s Hs) as [Hn _].
  assert (exists s1, (if start_ then set_slot (dec s (head s))
      {| start := start z; end_ := true; packet_ := packet_ z; buff := buff z |} s else Ret s) = Ret s1 /\
    rep s1 (w0 ++ [mark_end start_ z]) /\ tail s1 = tail s /\ const s1 = const s /\ nslots s1 = nslots s /\
    lastSeqnoValid s1 = lastSeqnoValid s /\ lastSeqno s1 = lastSeqno s /\
    lastTimestampValid s1 = lastTimestampValid s /\ lastTimestamp s1 = lastTimestamp s /\ released s1 = released s)
    as (s1 & -> & Hr1 & Ht1 & Hc1 & Hn1 & E1 & E2 & E3 & E4 & E5).
  { destruct start_ eqn:Est.
    - rewrite (newest_at _ _ Hr), (set_slot_at _ _ Hr) by (rewrite Hw0; by destruct w0).
      eexists. split; [done|]. split; [|by rewrite write_at_nslots].
      pose proof (rep_write _ _ Hr (Z.of_nat (length (win a)) - 1) (mark_end true z)) as Hrw.
      rewrite Hw0 in Hrw at 4. rewrite Hw0, length_app in Hrw. cbn [length] in Hrw. specialize (Hrw ltac:(lia)).
      replace (Z.to_nat (Z.of_nat (length w0 + 1) - 1)) with (length w0) in Hrw by lia.
      rewrite insert_app_r_alt, Nat.sub_diag in Hrw by lia. cbn in Hrw.
      unfold mark_end in *. rewrite Hq in *. rewrite Hw0, length_app. exact Hrw.
    - exists s. split; [done|]. split; [|done]. unfold start_ in Est. apply orb_false_iff in Est as [Est _].
      apply orb_false_iff in Est as [Est _]. rewrite <- Est, mark_end_same, <- Hw0. done. }
  rewrite bind_ret_l, (rep_head _ _ Hr1). rewrite length_app in *. cbn [length] in *.
  rewrite (set_slot_at _ _ Hr1), bind_ret_l.
  pose proof (rep_append s1 _ 0 x Hr1) as Hap. rewrite Hn1 in Hap. rewrite length_app in Hap. cbn [length] in Hap.
  assert (Z.of_nat (length (win a)) = Z.of_nat (length w0 + 1)) as Hla by (rewrite Hw0, length_app; done).
  specialize (Hap ltac:(lia)). cbn zeta in Hap. rewrite Nat2Z.inj_0, Z.add_0_r in Hap. cbn [replicate app] in Hap.
  eapply (stored_filled c s _ a base (win a ++ [empty_packet]) (S (length w0)) x
    ((w0 ++ [mark_end start_ z]) ++ [x]) p buf b HR); try done.
  - cbn. by rewrite E1, E2, (R_last _ _ _ HR).
  - cbn. by rewrite E3, E4, (R_ts _ _ _ HR).
  - cbn. by rewrite E5, (R_rel _ _ _ HR).
  - eapply rep_ext; [exact Hap|..]; cbn; try done.
    rewrite write_at_inc, (rep_head _ _ Hr1), length_app, Hn1. done.
  - apply (wfp_pad base (win a) 1), Hw.
  - rewrite Hw0. apply filled_append.
  - rewrite lookup_app_r, Hw0, length_app by (rewrite Hw0, length_app; cbn; lia). cbn.
    by replace (S (length w0) - (length w0 + 1))%nat with 0%nat by lia.
  - rewrite Hseq, Hla. do 2 f_equal. lia.
  - intros j z' q' [= ->] Hz' Hq' Ht. rewrite Hw0, <- app_assoc in Hz'. cbn [app] in Hz'. rewrite list_lookup_middle in Hz' by done.
    injection Hz' as <-. rewrite Hq in Hq'. injection Hq' as <-. cbn. unfold start_.
    rewrite (proj2 (Z.eqb_neq _ _)) by done. by rewrite orb_true_r.
  - intros y q' Hy. rewrite lookup_ge_None_2 in Hy; [done|]. rewrite length_app. cbn. rewrite Hw0, length_app. cbn. lia.
  - right. apply fronted_lookup. intros y. rewrite lookup_app_l by (rewrite Hw0, length_app; cbn; lia).
    apply fronted_lookup, Hw.
  - left. rewrite length_app, Hw0, length_app. cbn. lia.
  - intros l Hl. destruct (Ha l Hl) as [? Haf]. split; [done|]. intros _. apply Haf. rewrite Hw0. by destruct w0.
  - by rewrite contents_app, app_nil_r.
Qed.
Lemma full_eqb s w : rep s w ->
  (tail s =? inc s (head s)) = (Z.of_nat (length w) + 1 =? nslots s).
Proof using Type.
  intros Hr. pose proof Hr as [Hs Ht Hl Hh _]. destruct (sized_nslots s Hs) as [Hn _].
  rewrite inc_mod by (done || (rewrite Hh; by apply mod_range)). rewrite Hh, Z.add_mod_idemp_l by lia.
  destruct (Z.eqb_spec (Z.of_nat (length w) + 1) (nslots s)) as [E|E].
  - apply Z.eqb_eq. replace (tail s + Z.of_nat (length w) + 1) with (tail s + 1 * nslots s) by lia.
    rewrite Z.mod_add, Z.mod_small; lia.
  - apply Z.eqb_neq. intros E'. rewrite (tail_at _ _ Hr), <- Z.add_assoc in E' at 1.
    apply mod_inj in E'; lia.
Qed.

Lemma refines_nslots c s a s' a' : refines c s a -> refines c s' a' -> nslots s' = nslots s.
Proof using Type.
  intros [Hc Hr _ _ _] [Hc' Hr' _ _ _].
  destruct (sized_nslots s (rep_sized _ _ Hr)) as [_ ->]. destruct (sized_nslots s' (rep_sized _ _ Hr')) as [_ ->].
  destruct (const_sub _ _ Hc) as [-> _], (const_sub _ _ Hc') as [-> _]. done.
Qed.

Lemma last_slot base w : wfw base w -> w <> [] -> exists w0 z q, w = w0 ++ [z] /\ packet_ z = Some q /\
  wat w (Z.of_nat (length w) - 1) = z /\ SequenceNumber q = u16 (base + Z.of_nat (length w) - 1).
Proof using Type.
  intros Hw Hne. destruct w as [|z w0 _] using rev_ind; [done|].
  destruct (wf_back _ _ Hw w0 z eq_refl) as [q Hq]. exists w0, z, q. rewrite length_app. cbn [length].
  split_and!; [done..| |].
  - rewrite wat_app_r by lia. by replace (Z.of_nat (length w0 + 1) - 1 - Z.of_nat (length w0)) with 0 by lia.
  - rewrite (wf_seq _ _ Hw (length w0) z q); [f_equal; lia|by apply list_lookup_middle|done].
Qed.

(** Appending to the window as it is. *)
Lemma sequential_put c s a base newest p buf b :
  refines c s a -> win a <> [] -> wfw base (win a) -> after base (win a) (a_last a) ->
  newest = dec s (head s) -> Z.of_nat (length (win a)) + 1 < nslots s ->
  SequenceNumber p = u16 (base + Z.of_nat (length (win a))) -> (c.1.2 = true -> bag a ≡ₚ b) ->
  stored c p buf b
    (x ← slot s newest;
     q ← go_deref (packet_ x);
     let start_ := end_ x || negb (Timestamp q =? Timestamp p) || isStart p in
     s ← (if start_
          then set_slot newest {| start := start x; end_ := true; packet_ := packet_ x; buff := buff x |} s
          else Ret s);
     s ← set_slot (head s) {| start := start_; end_ := isEnd p; packet_ := Some p; buff := buf |} s;
     Ret (set_head (inc s (head s)) s)).
Proof using Type.
  intros HR Hne Hw Ha -> Hlen Hseq Hbag. destruct (last_slot base (win a) Hw Hne) as (w0 & z & q & Hw0 & Hq & Hwat & _).
  rewrite (slot_newest _ _ (R_rep _ _ _ HR)), bind_ret_l, Hwat, Hq by done. cbn [go_deref]. rewrite bind_ret_l.
  rewrite <- Hq. by apply (put_spec c s a base w0 z q).
Qed.

Lemma push_sequential_spec c s a base p buf b :
  refines c s a -> win a <> [] -> wfw base (win a) -> after base (win a) (a_last a) ->
  is_u16 (SequenceNumber p) -> SequenceNumber p = u16 (base + Z.of_nat (length (win a))) ->
  (c.1.2 = true -> bag a ≡ₚ b) ->
  let r := push_sequential IsPartitionHead IsPartitionTail p buf (dec s (head s)) s in
  stored c p buf b r \/ r = go_panic (PMsg "this is impossible").
Proof using Type.
  intros HR Hne Hw Ha Hp Hseq Hbag. cbn zeta. unfold push_sequential. cbn zeta.
  rewrite (full_eqb _ _ (R_rep _ _ _ HR)).
  destruct (Z.eqb_spec (Z.of_nat (length (win a)) + 1) (nslots s)) as [Hfull|Hnot].
  2: { left. rewrite bind_ret_l. cbn [andb]. rewrite (tail_head_eqb _ _ (R_rep _ _ _ HR)), bool_decide_false by done.
    cbn [negb]. pose proof (rep_len _ _ (R_rep _ _ _ HR)). by apply (sequential_put c s a base); try lia. }
  pose proof (good_shrinking c s a base HR Hw Ha Hne) as Hsh.
  destruct (drop_shrinking _ _ _ a Hsh Hne) as [Hsh' Hlt].
  destruct (drop_refines c s a HR) as (s1 & -> & HR1 & _ & _ & Hh1); [apply Hw..|done|].
  rewrite bind_ret_l. cbn [andb]. rewrite (tail_head_eqb _ _ (R_rep _ _ _ HR1)).
  set (a1 := a_drop c a) in *. pose proof Hsh' as [(base1 & Hw1 & Ha1 & Hl1 & He1 & Hlast1) Hbag1].
  assert (c.1.2 = true -> bag a1 ≡ₚ b) as Hb1 by (intros Hh; rewrite (Hbag1 Hh); auto).
  destruct (Z.eqb_spec (front_ts (win a)) (Timestamp p)) as [Ets|Ets].
  - case_bool_decide as Hnil; cbn [negb]; [left|by right].
    apply (stored_give c p buf b s1 a1); [done|by exists base1|done].
  - left. case_bool_decide as Hnil; cbn [negb].
    + specialize (Hlast1 Hnil). apply (put_empty_spec c s1 a1); try done.
      * intros l Hl. rewrite Hlast1 in Hl. injection Hl as <-. rewrite Hseq. split; [|intros _]; wrap_lia.
      * intros l Hl. rewrite Hlast1 in Hl. injection Hl as <-. apply u16_range.
    + apply (sequential_put c s1 a1 base1); try done.
      * rewrite (Hh1 Hnil). unfold dec, len16. fold (nslots s) (nslots s1). by rewrite (refines_nslots c s a s1 a1).
      * rewrite (refines_nslots c s a s1 a1) by done. lia.
      * by rewrite Hseq, He1.
Qed.
(** *** A packet further in the future *)

Lemma make_space_spec c e b fuel count s a :
  refines c s a -> shrinking c e b a -> (length (win a) < fuel)%nat -> 0 < count <= nslots s - 1 ->
  exists s' a', make_space fuel count s = Ret (s', false) /\ refines c s' a' /\ shrinking c e b a' /\
    Z.of_nat (length (win a')) + count <= nslots s - 1.
Proof using Type.
  revert s a. induction fuel as [|fuel IH]; intros s a HR Hsh Hf Hc; [lia|]. cbn [make_space].
  pose proof (R_rep _ _ _ HR) as Hr. pose proof (rep_sized _ _ Hr) as Hs. pose proof (rep_len _ _ Hr).
  destruct (sized_nslots s Hs) as [Hn _].
  rewrite (cap_nslots s Hs), (Len_length _ _ Hr), (u16_id (Z.of_nat _)), u16_id by lia.
  destruct (Z.ltb_spec (nslots s - 1) (Z.of_nat (length (win a)) + count)).
  - assert (win a <> []) as Hne by (intros E; rewrite E in *; cbn in *; lia).
    destruct (drop_shrinking _ _ _ a Hsh Hne) as [Hsh1 Hlt1]. destruct (shrinking_front _ _ _ a Hsh) as [Hcl Hfr].
    destruct (drop_refines c s a HR Hcl Hfr Hne) as (s1 & -> & HR1 & _). rewrite bind_ret_l.
    pose proof (refines_nslots c s a s1 _ HR HR1) as Hn1. rewrite <- Hn1. apply (IH s1 (a_drop c a)); done || lia.
  - exists s, a. split; [done|]. split; [done|]. split; [done|lia].
Qed.

Lemma filled_pad w k x : k <> 0%nat ->
  filled (w ++ replicate (S k) empty_packet) (length w + k) x (w ++ replicate k empty_packet ++ [x]).
Proof using Type.
  intros Hk. split; [rewrite !length_app, !length_replicate; cbn; lia|]. intros j.
  destruct (decide (j < length w)%nat) as [Hlt|Hge].
  { rewrite !decide_False by lia. by rewrite !lookup_app_l by lia. }
  rewrite !(lookup_app_r w) by lia. destruct (decide (j = length w + k)%nat) as [->|Hne].
  { rewrite lookup_app_r, length_replicate by (rewrite length_replicate; lia).
    by replace (length w + k - length w - k)%nat with 0%nat by lia. }
  destruct (decide (j < length w + k)%nat).
  - rewrite lookup_app_l by (rewrite length_replicate; lia). rewrite !lookup_replicate_2 by lia.
    by repeat case_decide.
  - rewrite !(lookup_ge_None_2 _ (j - length w)) by (rewrite ?length_app, ?length_replicate; cbn; lia).
    by repeat case_decide.
Qed.

(** Appending after a gap. *)
Lemma gap_put c s a base k p buf b :
  refines c s a -> win a <> [] -> wfw base (win a) -> after base (win a) (a_last a) -> k <> 0%nat ->
  Z.of_nat (length (win a)) + Z.of_nat k + 1 < nslots s ->
  SequenceNumber p = u16 (base + Z.of_nat (length (win a)) + Z.of_nat k) -> (c.1.2 = true -> bag a ≡ₚ b) ->
  let index := u16 (head s + Z.of_nat k) mod len16 s in
  stored c p buf b (s ← set_slot index (fresh_slot p buf) s; Ret (set_head (inc s index) s)).
Proof using Type.
  intros HR Hne Hw Ha Hk Hlen Hseq Hbag index. pose proof (R_rep _ _ _ HR) as Hr.
  pose proof (rep_sized _ _ Hr) as Hs. destruct (sized_nslots s Hs) as [Hn _].
  assert (index = (tail s + (Z.of_nat (length (win a)) + Z.of_nat k)) mod nslots s) as ->.
  { unfold index. rewrite (len16_nslots s Hs). pose proof (mod_range s Hs (tail s + Z.of_nat (length (win a)))) as Hh.
    rewrite <- (rep_head _ _ Hr) in Hh. rewrite u16_id, (rep_head _ _ Hr), Z.add_mod_idemp_l by lia. f_equal. lia. }
  rewrite (set_slot_at _ _ Hr), bind_ret_l, write_at_inc.
  pose proof (rep_append s _ k (fresh_slot p buf) Hr ltac:(lia)) as Hap.
  eapply (stored_filled c s _ a base (win a ++ replicate (S k) empty_packet) (length (win a) + k) (fresh_slot p buf)
    (win a ++ replicate k empty_packet ++ [fresh_slot p buf]) p buf b HR); try done; try apply HR.
  - apply wfp_pad, Hw.
  - by apply filled_pad.
  - rewrite lookup_app_r by lia. apply lookup_replicate_2. lia.
  - rewrite Hseq. f_equal. lia.
  - intros j z q Hj Hz Hq. rewrite lookup_app_r in Hz by lia. apply lookup_replicate in Hz as [-> _]. done.
  - intros y q Hy. rewrite lookup_ge_None_2 in Hy; [done|]. rewrite length_app, length_replicate. lia.
  - right. apply fronted_lookup. intros y. rewrite lookup_app_l by (destruct (win a); [done|cbn; lia]).
    apply fronted_lookup, Hw.
  - left. rewrite length_app, length_replicate. lia.
  - intros l Hl. destruct (Ha l Hl) as [? Haf]. split; [done|]. auto.
  - by rewrite contents_app, contents_empty, app_nil_r.
Qed.

Lemma push_future_spec c s a base offset p buf b :
  refines c s a -> win a <> [] -> wfw base (win a) -> after base (win a) (a_last a) ->
  is_u16 (SequenceNumber p) -> 1 <= offset -> offset + 1 <= nslots s - 1 ->
  SequenceNumber p = u16 (base + Z.of_nat (length (win a)) + offset) -> (c.1.2 = true -> bag a ≡ₚ b) ->
  stored c p buf b (push_future IsPartitionHead IsPartitionTail p buf offset s).
Proof using Type.
  intros HR Hne Hw Ha Hp Ho1 Ho2 Hseq Hbag. unfold push_future. pose proof (R_rep _ _ _ HR) as Hr.
  destruct (sized_nslots s (rep_sized _ _ Hr)) as [Hn _]. rewrite (u16_id (offset + 1)) by lia.
  pose proof (good_shrinking c s a base HR Hw Ha Hne) as Hsh.
  destruct (make_space_spec c _ _ (S (length (packets s))) (offset + 1) s a HR Hsh)
    as (s1 & a1 & -> & HR1 & Hsh1 & Hl1); [|lia|].
  { pose proof (rep_len _ _ Hr). unfold nslots in *. lia. }
  rewrite bind_ret_l, (tail_head_eqb _ _ (R_rep _ _ _ HR1)).
  pose proof Hsh1 as [(base1 & Hw1 & Ha1 & _ & He1 & Hlast1) Hbag1].
  assert (c.1.2 = true -> bag a1 ≡ₚ b) as Hb1 by (intros Hh; rewrite (Hbag1 Hh); auto).
  case_bool_decide as Hnil.
  - specialize (Hlast1 Hnil). apply (push_first_spec c s1 a1); try done.
    + intros l Hl. rewrite Hlast1 in Hl. injection Hl as <-. rewrite Hseq. split; [|intros _]; wrap_lia.
    + intros l Hl. rewrite Hlast1 in Hl. injection Hl as <-. apply u16_range.
  - replace offset with (Z.of_nat (Z.to_nat offset)) by lia.
    apply (gap_put c s1 a1 base1); try done; try lia.
    + rewrite (refines_nslots c s a s1 a1) by done. lia.
    + specialize (He1 Hnil). rewrite Hseq. wrap_lia.
Qed.
(** *** A packet in the past *)

(** Everything but the slots is the same. *)
Definition frame (s s' : SampleBuilder) : Prop :=
  const s' = const s /\ tail s' = tail s /\ nslots s' = nslots s /\
  lastSeqnoValid s' = lastSeqnoValid s /\ lastSeqno s' = lastSeqno s /\
  lastTimestampValid s' = lastTimestampValid s /\ lastTimestamp s' = lastTimestamp s /\ released s' = released s.

Lemma frame_trans s1 s2 s3 : frame s1 s2 -> frame s2 s3 -> frame s1 s3.
Proof using Type. unfold frame. intros. destruct_and!. split_and!; congruence. Qed.

Lemma write_at_frame s w i x : rep s w -> frame s (write_at s i x).
Proof using Type. intros Hr. unfold frame. rewrite write_at_nslots. done. Qed.

(** The two adjustments of a neighbour's flags. *)
Lemma prev_step s w i p :
  rep s w -> (i < length w)%nat ->
  exists v s' w',
    (if negb ((tail s + Z.of_nat i) mod nslots s =? tail s) then
       let prev := dec s ((tail s + Z.of_nat i) mod nslots s) in
       y ← slot s prev;
       match packet_ y with
       | Some q =>
           let start_ := isStart p || negb (Timestamp q =? Timestamp p) in
           if negb start_ then Ret (end_ y, s)
           else
             s ← set_slot prev {| start := start y; end_ := true; packet_ := packet_ y; buff := buff y |} s;
             Ret (true, s)
       | None => Ret (isStart p, s)
       end
     else Ret (isStart p, s)) = Ret (v, s') /\ rep s' w' /\ frame s s' /\ length w' = length w /\
    (forall j, w' !! j = if decide (S j = i) then mark_end v <$> w !! j else w !! j) /\
    (forall j z q, S j = i -> w !! j = Some z -> packet_ z = Some q -> Timestamp q <> Timestamp p -> v = true).
Proof using Type.
  intros Hr Hi. pose proof (rep_sized _ _ Hr) as Hs. pose proof (rep_len _ _ Hr). destruct i as [|i].
  { change (Z.of_nat 0) with 0. rewrite <- (tail_at _ _ Hr), Z.eqb_refl. exists (isStart p), s, w. split_and!; done. }
  rewrite (proj2 (Z.eqb_neq _ _)).
  2: { rewrite (tail_at _ _ Hr) at 2. intros E%mod_inj; lia. }
  cbn [negb]. rewrite dec_mod, Zminus_mod_idemp_l by (done || by apply mod_range).
  replace (tail s + Z.of_nat (S i) - 1) with (tail s + Z.of_nat i) by lia. cbn zeta.
  destruct (lookup_lt_is_Some_2 w i) as [y Hy]; [lia|].
  assert (wat w (Z.of_nat i) = y) as Hwat by (unfold wat; by rewrite Nat2Z.id, Hy).
  rewrite (slot_at _ _ Hr), bind_ret_l, Hwat by lia.
  assert (forall v, mark_end v y = y -> forall j, w !! j =
    if decide (S j = S i) then mark_end v <$> w !! j else w !! j) as Hkeep.
  { intros v Hv j. case_decide; [|done]. replace j with i by lia. rewrite Hy. cbn. by rewrite Hv. }
  destruct (packet_ y) as [q|] eqn:Hq.
  2: { exists (isStart p), s, w. split_and!; try done.
    - apply Hkeep. unfold mark_end. by rewrite Hq.
    - intros j z q [= ->] Hz Hzq. congruence. }
  destruct (isStart p || negb (Timestamp q =? Timestamp p)) eqn:Est; cbn [negb].
  - rewrite (set_slot_at _ _ Hr), bind_ret_l. eexists true, _, _. split; [done|].
    split; [apply (rep_write _ _ Hr); lia|]. split; [by eapply write_at_frame|].
    split; [by rewrite length_insert|]. split; [|done]. intros j. rewrite Nat2Z.id.
    case_decide as Hj; [replace j with i by lia|rewrite list_lookup_insert_ne by lia; done].
    rewrite list_lookup_insert_eq, Hy by lia. cbn. unfold mark_end. by rewrite Hq.
  - exists (end_ y), s, w. split_and!; try done.
    + apply Hkeep, mark_end_same.
    + intros j z q' [= ->] Hz Hzq Ht. apply orb_false_iff in Est as [_ Est].
      rewrite (proj2 (Z.eqb_neq _ _)) in Est; [done|]. congruence.
Qed.

Lemma mark_start_same z : mark_start (start z) z = z.
Proof using Type. unfold mark_start. destruct z as [? ? [] ?]; done. Qed.

Lemma next_step s w i p :
  rep s w -> (S i < length w)%nat ->
  exists v s' w',
    (let next := inc s ((tail s + Z.of_nat i) mod nslots s) in
     y ← slot s next;
     match packet_ y with
     | Some q =>
         let end__ := isEnd p || negb (Timestamp q =? Timestamp p) in
         if negb end__ then Ret (start y, s)
         else
           s ← set_slot next {| start := true; end_ := end_ y; packet_ := packet_ y; buff := buff y |} s;
           Ret (true, s)
     | None => Ret (isEnd p, s)
     end) = Ret (v, s') /\ rep s' w' /\ frame s s' /\ length w' = length w /\
    (forall j, w' !! j = if decide (j = S i) then mark_start v <$> w !! j else w !! j) /\
    (forall y q, w !! S i = Some y -> packet_ y = Some q -> Timestamp p <> Timestamp q -> v = true).
Proof using Type.
  intros Hr Hi. pose proof (rep_sized _ _ Hr) as Hs. pose proof (rep_len _ _ Hr).
  destruct (sized_nslots s Hs) as [Hn _]. cbn zeta.
  rewrite inc_mod, Z.add_mod_idemp_l by (done || lia || by apply mod_range).
  replace (tail s + Z.of_nat i + 1) with (tail s + Z.of_nat (S i)) by lia.
  destruct (lookup_lt_is_Some_2 w (S i)) as [y Hy]; [lia|].
  assert (wat w (Z.of_nat (S i)) = y) as Hwat by (unfold wat; by rewrite Nat2Z.id, Hy).
  rewrite (slot_at _ _ Hr), bind_ret_l, Hwat by lia.
  assert (forall v, mark_start v y = y -> forall j, w !! j =
    if decide (j = S i) then mark_start v <$> w !! j else w !! j) as Hkeep.
  { intros v Hv j. case_decide; [|done]. subst j. rewrite Hy. cbn. by rewrite Hv. }
  destruct (packet_ y) as [q|] eqn:Hq.
  2: { exists (isEnd p), s, w. split_and!; try done.
    - apply Hkeep. unfold mark_start. by rewrite Hq.
    - intros z q Hz Hzq. congruence. }
  destruct (isEnd p || negb (Timestamp q =? Timestamp p)) eqn:Est; cbn [negb].
  - rewrite (set_slot_at _ _ Hr), bind_ret_l. eexists true, _, _. split; [done|].
    split; [apply (rep_write _ _ Hr); lia|]. split; [by eapply write_at_frame|].
    split; [by rewrite length_insert|]. split; [|done]. intros j. rewrite Nat2Z.id.
    case_decide as Hj; [subst j|rewrite list_lookup_insert_ne by lia; done].
    rewrite list_lookup_insert_eq, Hy by lia. cbn [fmap option_fmap option_map]. unfold mark_start. by rewrite Hq.
  - exists (start y), s, w. split_and!; try done.
    + apply Hkeep, mark_start_same.
    + intros z q' Hz Hzq Ht. apply orb_false_iff in Est as [_ Est].
      rewrite (proj2 (Z.eqb_neq _ _)) in Est; [done|]. congruence.
Qed.
Lemma fill_spec s w i p buf :
  rep s w -> (S i < length w)%nat -> w !! i = Some empty_packet ->
  exists s' x w', fill IsPartitionHead IsPartitionTail p buf ((tail s + Z.of_nat i) mod nslots s) s = Ret s' /\ rep s' w' /\ frame s s' /\
    filled w i x w' /\ packet_ x = Some p /\ buff x = buf /\
    (forall j z q, S j = i -> w !! j = Some z -> packet_ z = Some q -> Timestamp q <> Timestamp p -> start x = true) /\
    (forall y q, w !! S i = Some y -> packet_ y = Some q -> Timestamp p <> Timestamp q -> end_ x = true).
Proof using Type.
  intros Hr Hi He. unfold fill. cbn zeta.
  destruct (prev_step s w i p Hr ltac:(lia)) as (v1 & s1 & w1 & E1 & Hr1 & Hf1 & Hl1 & Hw1 & Hv1).
  cbn zeta in E1. rewrite E1, bind_ret_l. pose proof Hf1 as (_ & Ht1 & Hn1 & _).
  destruct (next_step s1 w1 i p Hr1 ltac:(lia)) as (v2 & s2 & w2 & E2 & Hr2 & Hf2 & Hl2 & Hw2 & Hv2).
  cbn zeta in E2. rewrite Ht1, Hn1 in E2. rewrite E2, bind_ret_l. pose proof Hf2 as (_ & Ht2 & Hn2 & _).
  set (x := {| start := v1; end_ := v2; packet_ := Some p; buff := buf |}).
  pose proof (set_slot_at _ _ Hr2 (Z.of_nat i) x) as Es. rewrite Ht2, Hn2, Ht1, Hn1 in Es. rewrite Es.
  eexists _, x, _. split; [done|]. split; [apply (rep_write _ _ Hr2); lia|].
  split; [eapply frame_trans, frame_trans; [done..|by eapply write_at_frame]|].
  rewrite Nat2Z.id. split_and!; try done.
  - split; [rewrite length_insert; lia|]. intros j. destruct (decide (j = i)) as [->|Hne].
    { by rewrite list_lookup_insert_eq by lia. }
    rewrite list_lookup_insert_ne, Hw2, Hw1 by done. cbn [start end_ x].
    repeat case_decide; try done. lia.
  - intros y q Hy. apply (Hv2 y q). rewrite Hw1, decide_False by lia. done.
Qed.

Lemma wfp_pad_front base w k : wfp base w -> 
  wfp (u16 (base - Z.of_nat k)) (replicate k empty_packet ++ w).
Proof using Type.
  intros [Hb Hc Hs Hf]. split; [apply u16_range| | |].
  - apply Forall_app_2; [by apply Forall_replicate|done].
  - intros i x p [Hx|[Hi Hx]]%lookup_app_Some Hp; [apply lookup_replicate in Hx as [-> _]; done|].
    rewrite length_replicate in *. rewrite (Hs _ _ _ Hx Hp). wrap_lia.
  - intros i x y p q [Hx|[Hi Hx]]%lookup_app_Some Hy Hp Hq; [apply lookup_replicate in Hx as [-> _]; done|].
    rewrite length_replicate in *. rewrite lookup_app_r in Hy by (rewrite length_replicate; lia).
    rewrite length_replicate in Hy. apply (Hf (i - k)%nat x y p q); try done.
    by replace (S (i - k)) with (S i - k)%nat by lia.
Qed.

(** The index of a past packet and the test for extending the window. *)
Lemma past_index s w offset :
  rep s w -> w <> [] -> 2 <= offset < nslots s - 1 ->
  let index := if offset <=? head s then u16 (head s - offset) else u16 (head s + len16 s - offset) in
  index = (tail s + (Z.of_nat (length w) - offset)) mod nslots s /\
  (if tail s <? head s then (index <? tail s) || (head s <? index)
   else (index <? tail s) && (head s <? index)) = (Z.of_nat (length w) <? offset).
Proof using Type.
  intros Hr Hne Ho. pose proof Hr as [Hs Ht Hl Hh _]. destruct (sized_nslots s Hs) as [Hn _]. cbn zeta.
  rewrite (len16_nslots s Hs). pose proof (mod_range s Hs (tail s + Z.of_nat (length w))) as Hhr.
  rewrite <- Hh in Hhr. assert (1 <= Z.of_nat (length w)) by (destruct w; [done|cbn; lia]).
  assert (head s = tail s + Z.of_nat (length w) \/ head s = tail s + Z.of_nat (length w) - nslots s) as Hlin.
  { destruct (Z.ltb_spec (tail s + Z.of_nat (length w)) (nslots s)).
    - left. by rewrite Hh, Z.mod_small by lia.
    - right. rewrite Hh. symmetry. apply (Z.mod_unique _ _ 1); lia. }
  split.
  - replace (tail s + (Z.of_nat (length w) - offset)) with (tail s + Z.of_nat (length w) - offset) by lia.
    rewrite <- Zminus_mod_idemp_l, <- Hh. destruct (Z.leb_spec offset (head s)).
    + rewrite u16_id, Z.mod_small by lia. done.
    + rewrite u16_id by lia. apply (Z.mod_unique _ _ (-1)); lia.
  - destruct (Z.leb_spec offset (head s)); rewrite u16_id by lia;
      destruct (Z.ltb_spec (tail s) (head s)), (Z.ltb_spec (Z.of_nat (length w)) offset);
      repeat match goal with |- context [?x <? ?y] => destruct (Z.ltb_spec x y) end; cbn; lia || done.
Qed.

(** The window after the extension, and where the packet goes in it. *)
Lemma past_extend s w offset :
  rep s w -> w <> [] -> 2 <= offset < nslots s - 1 ->
  let k := Z.to_nat (offset - Z.of_nat (length w)) in
  let i := Z.to_nat (Z.of_nat (length w) - offset) in
  let index := (tail s + (Z.of_nat (length w) - offset)) mod nslots s in
  let s1 := if Z.of_nat (length w) <? offset then set_tail index s else s in
  rep s1 (replicate k empty_packet ++ w) /\ (tail s1 + Z.of_nat i) mod nslots s1 = index /\
  (k = 0%nat -> s1 = s).
Proof using Type.
  intros Hr Hne Ho. cbn zeta. destruct (sized_nslots s (rep_sized _ _ Hr)) as [Hn _]. pose proof (rep_len _ _ Hr).
  destruct (Z.ltb_spec (Z.of_nat (length w)) offset).
  - pose proof (rep_extend s w (Z.to_nat (offset - Z.of_nat (length w))) Hr Hne ltac:(lia)) as Hx.
    replace (tail s - Z.of_nat (Z.to_nat (offset - Z.of_nat (length w)))) with
      (tail s + (Z.of_nat (length w) - offset)) in Hx by lia.
    split_and!; [done| |lia]. change (nslots (set_tail _ s)) with (nslots s).
    rewrite (Z2Nat.nonpos (_ - offset)), Z.add_0_r by lia. cbn. by rewrite Z.mod_mod by lia.
  - rewrite (Z2Nat.nonpos (offset - _)) by lia. split_and!; try done. f_equal. lia.
Qed.

Lemma push_past_spec c s a base offset p buf b :
  refines c s a -> win a <> [] -> wfw base (win a) -> after base (win a) (a_last a) ->
  follows (SequenceNumber p) (win a) (a_last a) -> is_u16 (SequenceNumber p) ->
  2 <= offset < nslots s - 1 ->
  SequenceNumber p = u16 (base + Z.of_nat (length (win a)) - offset) -> (c.1.2 = true -> bag a ≡ₚ b) ->
  stored c p buf b (push_past IsPartitionHead IsPartitionTail p buf offset s).
Proof using Type.
  intros HR Hne Hw Ha Hfol Hp Ho Hseq Hbag. pose proof (R_rep _ _ _ HR) as Hr.
  destruct (sized_nslots s (rep_sized _ _ Hr)) as [Hn _]. pose proof (rep_len _ _ Hr).
  unfold push_past. destruct (past_index s (win a) offset Hr Hne Ho) as [Hidx Hext]. cbn zeta.
  rewrite Hext, Hidx. clear Hidx Hext.
  set (k := Z.to_nat (offset - Z.of_nat (length (win a)))).
  set (i := Z.to_nat (Z.of_nat (length (win a)) - offset)).
  destruct (past_extend s (win a) offset Hr Hne Ho) as (Hr1 & Hidx & Hk0).
  set (s1 := if Z.of_nat (length (win a)) <? offset then _ else s) in *.
  fold k i in Hr1, Hidx, Hk0. rewrite <- Hidx. clear Hidx.
  assert (const s1 = const s /\ lastSeqnoValid s1 = lastSeqnoValid s /\ lastSeqno s1 = lastSeqno s /\
    lastTimestampValid s1 = lastTimestampValid s /\ lastTimestamp s1 = lastTimestamp s /\ released s1 = released s)
    as (Hc1 & E1 & E2 & E3 & E4 & E5) by (unfold s1; by case_match).
  set (w := replicate k empty_packet ++ win a) in *.
  assert (S i < length w)%nat as Hi by (unfold w, i, k; rewrite length_app, length_replicate; lia).
  assert (wfp (u16 (base - Z.of_nat k)) w) as Hwp by apply wfp_pad_front, Hw.
  destruct (lookup_lt_is_Some_2 w i) as [x0 Hx0]; [lia|].
  assert (wat w (Z.of_nat i) = x0) as Hwat by (unfold wat; by rewrite Nat2Z.id, Hx0).
  pose proof (rep_len _ _ Hr1). rewrite (slot_at _ _ Hr1), bind_ret_l, Hwat by lia.
  destruct (packet_ x0) as [q|] eqn:Hq.
  { destruct k eqn:Ek; [rewrite (Hk0 eq_refl); apply (stored_give c p buf b s a); [done|by exists base|done]|].
    exfalso. unfold i in Hx0. rewrite Z2Nat.nonpos in Hx0 by lia. cbn in Hx0. by injection Hx0 as <-. }
  pose proof (wf_clean _ _ Hwp) as Hcl. unfold clean in Hcl. rewrite Forall_lookup in Hcl.
  rewrite (Hcl i x0 Hx0 Hq) in Hx0.
  destruct (fill_spec s1 w i p buf Hr1 Hi Hx0) as (s2 & x & w' & Hfill & Hr2 & Hf2 & Hfilled & Hx & Hbx & Hpv & Hnx).
  rewrite Hfill.
  destruct Hf2 as (F1 & F2 & F3 & F4 & F5 & F6 & F7 & F8).
  eapply (stored_filled c s s2 a (u16 (base - Z.of_nat k)) w i x w'); try done.
  - by rewrite F1, Hc1.
  - rewrite F4, F5, E1, E2. apply HR.
  - rewrite F6, F7, E3, E4. apply HR.
  - rewrite F8, E5. apply HR.
  - rewrite Hseq. unfold i, k. wrap_lia.
  - destruct k eqn:Ek; [right; apply Hw|left; unfold i; lia].
  - right. intros l y E. destruct (last_slot base _ Hw Hne) as (w0 & z & q & Hw0 & Hz & _).
    unfold w in E. rewrite Hw0, app_assoc in E. apply app_inj_tail in E as [_ <-]. by rewrite Hz.
  - intros l Hl. destruct (Ha l Hl) as [Hlr Haf]. specialize (Haf Hne). split; [done|]. intros _.
    destruct (Hfol l Hl) as [Hfl _]. rewrite Hseq in Hfl. unfold k. wrap_lia.
  - unfold w. by rewrite contents_app, contents_empty.
Qed.
(** ** [Push] *)

Lemma push_empty c s a p buf fuel b :
  refines c s a -> win a = [] -> good a -> is_u16 (SequenceNumber p) -> (c.1.2 = true -> bag a ≡ₚ b) ->
  (forall l, a_last a = Some l -> c.1.1 < u16 (l - SequenceNumber p)) ->
  stored c p buf b (push_fuel IsPartitionHead IsPartitionTail (S fuel) p buf s).
Proof using Type.
  intros HR Hnil (base & Hw & Ha) Hp Hbag Hnl. cbn [push_fuel].
  destruct (push_late_spec c s a base p HR Hw Ha Hp) as [(_ & l & Hl & Hlate)|(s1 & l1 & -> & HR1 & _ & Ha1 & Hf1)].
  { specialize (Hnl l Hl). lia. }
  rewrite bind_ret_l, (head_tail_eqb _ _ (R_rep _ _ _ HR1)), bool_decide_true by done.
  apply (push_first_spec c s1 (with_last l1 a)); try done; [by rewrite <- Hnil|].
  intros l Hl. by apply Ha1.
Qed.

(** Dropped at once, as late. *)
Definition late (c : Z * bool * Z) (p : rtp_packet) (a : astate) : Prop :=
  exists l, a_last a = Some l /\ u16 (l - SequenceNumber p) <= c.1.1.

Lemma Push_spec c s a p buf :
  refines c s a -> good a -> is_u16 (SequenceNumber p) ->
  let r := Push IsPartitionHead IsPartitionTail p buf s in
  (late c p a /\ r = Ret s) \/ stored c p buf (bag a) r \/ r = go_panic (PMsg "this is impossible").
Proof using Type.
  intros HR (base & Hw & Ha) Hp. unfold Push. cbn zeta. cbn [push_fuel].
  destruct (push_late_spec c s a base p HR Hw Ha Hp) as [(-> & Hlate)|(s1 & l1 & -> & HR1 & _ & Ha1 & Hf1)].
  { left. split; [exact Hlate|done]. }
  right. rewrite bind_ret_l. set (a1 := with_last l1 a) in *. pose proof (R_rep _ _ _ HR1) as Hr1.
  rewrite (head_tail_eqb _ _ Hr1). case_bool_decide as Hnil.
  { left. apply (push_first_spec c s1 a1); try done; [by rewrite <- Hnil|]. intros l Hl. by apply Ha1. }
  destruct (sized_nslots s1 (rep_sized _ _ Hr1)) as [Hn _]. rewrite (cap_nslots s1 (rep_sized _ _ Hr1)).
  pose proof (rep_len _ _ Hr1) as Hlen1.
  destruct (last_slot base (win a1) Hw Hnil) as (w0 & z & q & Hw0 & Hq & Hwat & Hsq).
  unfold packet_at. rewrite (slot_newest _ _ Hr1), bind_ret_l, Hwat, Hq by done. cbn [go_deref]. rewrite bind_ret_l.
  pose proof (wf_base _ _ Hw) as Hb. unfold is_u16 in Hp. rewrite Hsq.
  destruct (Z.eqb_spec (SequenceNumber p) (u16 (base + Z.of_nat (length (win a1)) - 1))).
  { left. apply (stored_give c p buf (bag a) s1 a1); [done|by exists base|done]. }
  destruct (Z.eqb_spec (SequenceNumber p) (u16 (u16 (base + Z.of_nat (length (win a1)) - 1) + 1))) as [Eseq|Eseq].
  { apply (push_sequential_spec c s1 a1 base); try done. rewrite Eseq. wrap_lia. }
  left. rewrite nonneg16_spec by apply u16_range.
  destruct (Z.ltb_spec (u16 (SequenceNumber p - u16 (base + Z.of_nat (length (win a1)) - 1))) 32768).
  - destruct (Z.ltb_spec (nslots s1 - 1) (u16 (u16 (u16 (SequenceNumber p -
      u16 (base + Z.of_nat (length (win a1)) - 1)) - 1) + 1))) as [Hfar|Hnear].
    + pose proof (good_shrinking c s1 a1 base HR1 Hw Ha1 Hnil) as Hsh.
      destruct (releaseAll_refines c s1 a1 HR1) as (s2 & -> & HR2 & Hnil2); [apply Hw..|]. rewrite bind_ret_l.
      pose proof (release_all_shrinking _ _ _ (length (win a1)) a1 Hsh) as Hsh2.
      destruct Hsh2 as [(base2 & Hw2 & Ha2 & _ & _ & Hlast2) Hbag2]. specialize (Hlast2 Hnil2).
      apply (push_empty c s2 _ p buf 0 (bag a) HR2 Hnil2); [by exists base2|done|done|].
      intros l Hl. rewrite Hlast2 in Hl. injection Hl as <-.
      destruct (const_sub _ _ (R_const _ _ _ HR1)) as (Hm & _). pose proof (proj1 (rep_sized _ _ Hr1)).
      change (win a) with (win a1). set (len := Z.of_nat (length (win a1))) in *.
      assert (u16 (u16 (base + len) - 1) = u16 (base + len - 1)) as -> by wrap_lia.
      pose proof (u16_range (base + len - 1)). set (newest := u16 (base + len - 1)) in *.
      clearbody newest. clear Hsh Hlast2 Hsq. wrap_lia.
    + apply (push_future_spec c s1 a1 base); try done; wrap_lia.
  - destruct (Z.leb_spec (nslots s1 - 1) (u16 (u16 (u16 (base + Z.of_nat (length (win a1)) - 1) -
      SequenceNumber p) + 1))).
    + apply (stored_give c p buf (bag a) s1 a1); [done|by exists base|done].
    + apply (push_past_spec c s1 a1 base); try done; wrap_lia.
Qed.
End Push.
