(* ===== verification/SamplePop.v ===== *)
(** * The sample builder: [pop] and the properties

    Popping a frame, the agreement of the invariant with the code's own
    [check], and the theorems about whole runs of the builder. *)
From S2P Require Import Prelude SampleBuilder SampleRing SampleWindow SampleInv SamplePush.
Local Open Scope Z_scope.

(** ** Finding the end of the frame *)

Inductive ascan := AEnd (i : nat) | AGap | ANone.

Fixpoint a_scan (w : list packet) (i : nat) : ascan :=
  match w with
  | [] => ANone
  | x :: w' =>
      if end_ x then AEnd i
      else match packet_ x with None => AGap | Some _ => a_scan w' (S i) end
  end.

Lemma find_end_spec s w fuel i :
  rep s w -> (i <= length w)%nat -> (length w - i < fuel)%nat ->
  find_end fuel s ((tail s + Z.of_nat i) mod nslots s) =
  Ret (match a_scan (List.skipn i w) i with
       | AEnd j => ScanEnd ((tail s + Z.of_nat j) mod nslots s)
       | AGap => ScanGap
       | ANone => ScanNone
       end).
Proof.
  intros Hr. pose proof (rep_len _ _ Hr) as Hlen. pose proof (rep_sized _ _ Hr) as Hs.
  destruct (sized_nslots s Hs) as [Hn _]. revert i.
  induction fuel as [|fuel IH]; intros i Hi Hf; [lia|]. cbn [find_end].
  destruct (decide (i = length w)) as [->|Hne].
  { rewrite (rep_head _ _ Hr), Z.eqb_refl. by rewrite skipn_all. }
  rewrite (proj2 (Z.eqb_neq _ _)) by (rewrite (rep_head _ _ Hr); intros E%mod_inj; lia).
  destruct (lookup_lt_is_Some_2 w i) as [x Hx]; [lia|].
  assert (wat w (Z.of_nat i) = x) as Hwat by (unfold wat; by rewrite Nat2Z.id, Hx).
  rewrite (slot_at _ _ Hr), bind_ret_l, Hwat by lia. rewrite (drop_S _ _ _ Hx). cbn [a_scan].
  destruct (end_ x); [done|]. destruct (packet_ x); [|done].
  rewrite inc_mod, Z.add_mod_idemp_l by (done || lia || by apply mod_range).
  replace (tail s + Z.of_nat i + 1) with (tail s + Z.of_nat (S i)) by lia. apply IH; lia.
Qed.

(** The packets up to the end of the frame. *)
Lemma a_scan_end w i j : clean w -> a_scan w i = AEnd j ->
  exists l x w', w = l ++ x :: w' /\ j = (i + length l)%nat /\ end_ x = true /\
    Forall (fun y => end_ y = false) l /\ Forall (fun y => is_Some (packet_ y)) (l ++ [x]).
Proof.
  intros Hc. revert i. induction Hc as [|x w Hx Hc IH]; intros i; cbn; [done|].
  destruct (end_ x) eqn:Ex.
  - intros [= <-]. exists [], x, w. split_and!; [done|cbn; lia|done|done|].
    constructor; [|constructor]. destruct (packet_ x) eqn:Ep; [by eexists|]. by rewrite (Hx eq_refl) in Ex.
  - destruct (packet_ x) eqn:Ep; [|done]. intros (l & y & w' & -> & -> & Hy & Hl & Hp)%IH.
    exists (x :: l), y, w'. split_and!; [done|cbn; lia|done|by constructor|]. cbn. constructor; [by rewrite Ep|done].
Qed.

(** ** Taking the packets *)

Section Pop.
Context (Unmarshal : list Z -> option (list Z)).

Fixpoint unmarshal_all (data : list Z) (l : list packet) : option (list Z) :=
  match l with
  | [] => Some data
  | x :: l' =>
      match Unmarshal (from_option Payload [] (packet_ x)) with
      | None => None
      | Some b => unmarshal_all (data ++ b) l'
      end
  end.

Lemma trim_present l w : Forall (fun y => is_Some (packet_ y)) l -> l <> [] -> trim (l ++ w) = l ++ w.
Proof. intros Hl Hne. destruct l as [|x l]; [done|]. apply Forall_cons in Hl as [[p Hp] _]. cbn. by rewrite Hp. Qed.

Lemma take_frame_spec c e b l : forall s a data w,
  refines c s a -> shrinking c e b a -> win a = l ++ w -> Forall (fun y => is_Some (packet_ y)) l ->
  exists s' a', take_frame Unmarshal (length l) data s = Ret (s', unmarshal_all data l) /\
    refines c s' a' /\ shrinking c e b a' /\
    (is_Some (unmarshal_all data l) -> l <> [] -> win a' = trim w) /\ a_ts a' = a_ts a.
Proof.
  induction l as [|x l IH]; intros s a data w HR Hsh Hw Hp.
  { exists s, a. by split_and!. }
  cbn [length take_frame unmarshal_all]. apply Forall_cons in Hp as [[p Hx] Hp].
  unfold oldestPacket, packet_at. rewrite (slot_tail _ _ (R_rep _ _ _ HR)), bind_ret_l, Hw. cbn [app].
  rewrite wat_cons_0, Hx. cbn [go_deref from_option]. rewrite bind_ret_l.
  destruct (shrinking_front _ _ _ a Hsh) as [Hc Hf].
  destruct (release_refines c s a HR Hc Hf) as (s1 & -> & HR1 & _); [by rewrite Hw|]. rewrite bind_ret_l.
  assert (shrinking c e b (a_release c a)) as Hsh1 by (apply release_shrinking; [done|by rewrite Hw]).
  pose proof (a_release_win c a x (l ++ w) p Hw Hx) as Hw1.
  assert (a_ts (a_release c a) = a_ts a) as Hts by (unfold a_release; by rewrite Hw; cbn; rewrite Hx).
  destruct (Unmarshal (Payload p)) as [d|].
  2: { exists s1, (a_release c a). split_and!; try done. }
  destruct (decide (l = [])) as [->|Hne].
  - exists s1, (a_release c a). by split_and!.
  - rewrite trim_present in Hw1 by done.
    destruct (IH s1 (a_release c a) (data ++ d) w HR1 Hsh1 Hw1 Hp) as (s2 & a2 & -> & HR2 & Hsh2 & Hw2 & Hts2).
    exists s2, a2. split_and!; [done..| |by rewrite Hts2]. auto.
Qed.

(** ** [pop] *)

(** Frames given up before the one returned. *)
Inductive drops (c : Z * bool * Z) : astate -> astate -> Prop :=
  | drops_refl a : drops c a a
  | drops_step a a' : win a <> [] -> drops c (a_drop c a) a' -> drops c a a'.

(** A frame at the front of the window: consecutive packets, the first one
    starting a frame, no end before the last. *)
Record is_frame (l : list packet) : Prop := {
  fr_nonempty : l <> [];
  fr_present : Forall (fun y => is_Some (packet_ y)) l;
  fr_start x l' : l = x :: l' -> start x = true;
  fr_inner l' x : l = l' ++ [x] -> Forall (fun y => end_ y = false) l'
}.

(** How [pop] ends. *)
Definition popped (c : Z * bool * Z) (force : bool) (a a' : astate) (o : option Sample) : Prop :=
  match o with
  | None => True
  | Some sm => exists a0 l w, drops c a a0 /\ win a0 = l ++ w /\ is_frame l /\
      (forall x p, x ∈ l -> packet_ x = Some p -> Timestamp p = PacketTimestamp sm) /\
      unmarshal_all [] l = Some (Data sm) /\ win a' = trim w /\
      (force = false -> forall n, a_last a0 = Some n ->
        forall x p, l !! 0%nat = Some x -> packet_ x = Some p -> SequenceNumber p = u16 (n + 1))
  end.

Definition pop_ok (c : Z * bool * Z) (force : bool) (a : astate) (r : run (SampleBuilder * option Sample)) : Prop :=
  exists s' a' o, r = Ret (s', o) /\ refines c s' a' /\ good a' /\ popped c force a a' o /\
    (c.1.2 = true -> bag a' ≡ₚ bag a).

Lemma pop_ok_none c force s a a1 : refines c s a1 -> good a1 -> (c.1.2 = true -> bag a1 ≡ₚ bag a) ->
  pop_ok c force a (Ret (s, None)).
Proof. intros HR Hg Hb. by exists s, a1, None. Qed.

(** The number of packets taken: the whole frame, or one less when the
    frame wraps around the end of the ring. *)
Lemma pop_count s w j :
  rep s w -> (j < length w)%nat ->
  let last := (tail s + Z.of_nat j) mod nslots s in
  (if last <? tail s then u16 (u16 (u16 (cap s + last) - tail s) + 1)
   else u16 (u16 (last - tail s) + 1)) =
  if tail s + Z.of_nat j <? nslots s then Z.of_nat j + 1 else Z.of_nat j.
Proof.
  intros Hr Hj. pose proof Hr as [Hs Ht Hl _ _]. destruct (sized_nslots s Hs) as [Hn _]. cbn zeta.
  rewrite (cap_nslots s Hs). destruct (Z.ltb_spec (tail s + Z.of_nat j) (nslots s)).
  - rewrite Z.mod_small by lia. rewrite (proj2 (Z.ltb_ge _ _)) by lia. wrap_lia.
  - rewrite <- (Z.mod_unique _ _ 1 (tail s + Z.of_nat j - nslots s)) by lia.
    rewrite (proj2 (Z.ltb_lt _ _)) by lia. wrap_lia.
Qed.

Lemma is_frame_prefix l x w0 k :
  (0 < k)%nat -> (exists y l', l ++ [x] = y :: l' /\ start y = true) ->
  Forall (fun y => end_ y = false) l -> Forall (fun y => is_Some (packet_ y)) (l ++ [x]) ->
  w0 = take k (l ++ [x]) -> (length l <= k <= length l + 1)%nat -> is_frame w0.
Proof.
  intros Hk (y & l' & Hy & Hst) Hend Hp -> Hlen. split.
  - rewrite Hy. by destruct k; [lia|].
  - by apply Forall_take.
  - intros z l2 Hz. rewrite Hy in Hz. destruct k; [lia|]. cbn in Hz. by injection Hz as <- _.
  - intros l2 z Hz. apply (f_equal length) in Hz as Hlen2. rewrite length_take, !length_app in Hlen2. cbn in Hlen2.
    assert (take (length l2) (take k (l ++ [x])) = l2) as <- by (rewrite Hz; apply take_app_length).
    rewrite take_take. replace (length l2 `min` k)%nat with (length l2) by lia.
    rewrite take_app_le by lia. by apply Forall_take.
Qed.

(** All packets of a frame have the same timestamp. *)
Lemma frame_ts base l w : wfp base (l ++ w) -> is_frame l ->
  forall i x p, l !! i = Some x -> packet_ x = Some p -> Timestamp p = front_ts l.
Proof.
  intros Hw Hf. induction i as [|i IH]; intros x p Hx Hp.
  { destruct l; [done|]. injection Hx as ->. cbn. by rewrite Hp. }
  destruct (lookup_lt_is_Some_2 l i) as [y Hy]; [apply lookup_lt_Some in Hx; lia|].
  pose proof (fr_present _ Hf) as Hpr. rewrite Forall_lookup in Hpr. destruct (Hpr i y Hy) as [q Hq].
  rewrite <- (IH y q Hy Hq). destruct (wf_flags _ _ Hw i y x q p) as [_ Hts]; [by apply lookup_app_l_Some..|done|done|].
  destruct (Z.eq_dec (Timestamp q) (Timestamp p)) as [?|Hne]; [done|]. specialize (Hts Hne). exfalso.
  destruct (decide (l = [])) as [->|Hnil]; [done|]. destruct l as [|z l0 _] using rev_ind; [done|].
  pose proof (fr_inner _ Hf l0 z eq_refl) as Hin. rewrite Forall_lookup in Hin.
  rewrite (Hin i y) in Hts; [done|]. apply lookup_lt_Some in Hx. rewrite length_app in Hx. cbn in Hx.
  by rewrite lookup_app_l in Hy by lia.
Qed.

(** The frame is taken. *)
Lemma pop_take c force s a a0 j oldest :
  refines c s a0 -> good a0 -> drops c a a0 -> (c.1.2 = true -> bag a0 ≡ₚ bag a) ->
  oldestPacket s = Ret oldest -> Timestamp oldest = front_ts (win a0) ->
  (force = false -> forall n, a_last a0 = Some n -> SequenceNumber oldest = u16 (n + 1)) ->
  start (wat (win a0) 0) = true -> a_scan (win a0) 0 = AEnd j ->
  let last := (tail s + Z.of_nat j) mod nslots s in
  let count := if last <? tail s then u16 (u16 (u16 (cap s + last) - tail s) + 1)
               else u16 (u16 (last - tail s) + 1) in
  pop_ok c force a
    ('(s, data) ← take_frame Unmarshal (Z.to_nat count) [] s;
     match data with
     | None => Ret (s, None)
     | Some data =>
         let samples := if lastTimestampValid s then u32 (Timestamp oldest - lastTimestamp s) else 0 in
         let s := set_lastTimestamp (Timestamp oldest) s in
         Ret (s, Some {| Data := data; PacketTimestamp := Timestamp oldest;
                         Duration := sample_duration samples (sampleRate s) |})
     end).
Proof.
  intros HR (base & Hw & Ha) Hdr Hbag Hold Hts Hseq Hst Hscan. cbn zeta.
  destruct (a_scan_end _ _ _ (wf_clean _ _ Hw) Hscan) as (l & x & w & Hwin & Hj & Hx & Hend & Hp).
  cbn in Hj. subst j. pose proof (R_rep _ _ _ HR) as Hr.
  assert (length l < length (win a0))%nat as Hlt by (rewrite Hwin, length_app; cbn; lia).
  pose proof (pop_count s _ (length l) Hr Hlt) as Hcnt. cbn zeta in Hcnt. rewrite Hcnt. clear Hcnt.
  set (k := Z.to_nat (if tail s + Z.of_nat (length l) <? nslots s then _ else _)).
  assert (length l <= k <= length l + 1)%nat as Hk by (unfold k; case_match; lia).
  assert (0 < k)%nat as Hk0.
  { unfold k. pose proof (rep_tail _ _ Hr). destruct (Z.ltb_spec (tail s + Z.of_nat (length l)) (nslots s)); lia. }
  set (fr := take k (l ++ [x])).
  assert (win a0 = fr ++ List.skipn k (l ++ [x]) ++ w) as Hsplit.
  { rewrite Hwin. unfold fr. rewrite (assoc_L (++)), take_drop, <- app_assoc. done. }
  assert (length fr = k) as Hlf by (unfold fr; rewrite length_take, length_app; cbn; lia).
  assert (win a0 <> []) as Hne by (rewrite Hwin; by destruct l).
  assert (is_frame fr) as Hfr.
  { apply (is_frame_prefix l x fr k); try done. rewrite Hwin in Hst.
    destruct l as [|y l]; [by exists x, []|by exists y, (l ++ [x])]. }
  assert (front_ts fr = front_ts (win a0)) as Hft.
  { rewrite Hsplit. pose proof (fr_nonempty _ Hfr). by destruct fr. }
  pose proof (good_shrinking c s a0 base HR Hw Ha Hne) as Hsh.
  destruct (take_frame_spec c _ _ fr s a0 [] _ HR Hsh Hsplit (fr_present _ Hfr))
    as (s' & a' & E & HR' & Hsh' & Hw' & _). rewrite Hlf in E. rewrite E, bind_ret_l.
  destruct (unmarshal_all [] fr) as [data|] eqn:Hd.
  - eexists _, (with_ts (Timestamp oldest) a'), _. split; [done|]. split; [by apply refines_set_ts|].
    split; [by eapply shrinking_good|]. split; [|intros Hh; rewrite <- (Hbag Hh); by apply Hsh'].
    exists a0, fr, (List.skipn k (l ++ [x]) ++ w). split_and!; try done.
    + intros y p [i Hy]%list_elem_of_lookup_1 Hyp. cbn. rewrite Hts, <- Hft.
      eapply (frame_ts base fr (List.skipn k (l ++ [x]) ++ w)); [rewrite <- Hsplit; apply Hw|done..].
    + cbn. apply Hw'; [done|apply (fr_nonempty _ Hfr)].
    + intros Hf n Hn y p Hy Hyp. rewrite <- (Hseq Hf n Hn).
      destruct (oldest_spec c s a0 base HR Hw Hne) as (q & Hq & Hqs & _). rewrite Hold in Hq. injection Hq as ->.
      rewrite Hqs. rewrite (wf_seq _ _ Hw 0%nat y p); [pose proof (wf_base _ _ Hw); wrap_lia| |done].
      rewrite Hsplit. by apply lookup_app_l_Some.
  - eapply pop_ok_none; [exact HR'|by eapply shrinking_good|]. intros Hh. rewrite <- (Hbag Hh). by apply Hsh'.
Qed.
Lemma drops_snoc c a a1 : drops c a a1 -> win a1 <> [] -> drops c a (a_drop c a1).
Proof. induction 1; intros; [by apply drops_step; [|apply drops_refl]|]. apply drops_step; auto. Qed.

Lemma pop_loop_spec c force a fuel : forall s a0,
  refines c s a0 -> good a0 -> drops c a a0 -> (c.1.2 = true -> bag a0 ≡ₚ bag a) ->
  (length (win a0) < fuel)%nat -> pop_ok c force a (pop_loop Unmarshal fuel force s).
Proof.
  induction fuel as [|fuel IH]; intros s a0 HR Hg Hdr Hbag Hf; [lia|]. cbn [pop_loop].
  pose proof (R_rep _ _ _ HR) as Hr. rewrite (tail_head_eqb _ _ Hr).
  case_bool_decide as Hne; [by eapply pop_ok_none|].
  destruct Hg as (base & Hw & Ha). pose proof (ex_intro _ base (conj Hw Ha) : good a0) as Hg.
  assert (pop_ok c force a ('(s, _, _) ← drop s; pop_loop Unmarshal fuel force s)) as Hdrop.
  { pose proof (good_shrinking c s a0 base HR Hw Ha Hne) as Hsh.
    destruct (drop_shrinking _ _ _ a0 Hsh Hne) as [Hsh' Hlt].
    destruct (drop_refines c s a0 HR (wf_clean _ _ Hw) (wf_front _ _ Hw) Hne) as (s1 & -> & HR1 & _).
    rewrite bind_ret_l. apply (IH s1 (a_drop c a0)); try done; [by eapply shrinking_good|by apply drops_snoc| |lia].
    intros Hh. rewrite <- (Hbag Hh). by apply Hsh'. }
  rewrite (slot_tail _ _ Hr), bind_ret_l.
  destruct (oldest_spec c s a0 base HR Hw Hne) as (oldest & Hold & Hseq & Hts).
  destruct (start (wat (win a0) 0)) eqn:Hst; cbn [negb].
  - rewrite Hold, bind_ret_l.
    destruct (negb force && lastSeqnoValid s && negb (u16 (lastSeqno s + 1) =? SequenceNumber oldest)) eqn:Hloss;
      [by eapply pop_ok_none|].
    assert (force = false -> forall n, a_last a0 = Some n -> SequenceNumber oldest = u16 (n + 1)) as Hnext.
    { intros -> n Hn. rewrite <- (R_last _ _ _ HR) in Hn. destruct (lastSeqnoValid s); [|done].
      injection Hn as <-. cbn in Hloss. apply negb_false_iff, Z.eqb_eq in Hloss. done. }
    pose proof (find_end_spec s (win a0) (S (length (packets s))) 0 Hr) as Hfind.
    change (Z.of_nat 0) with 0 in Hfind. rewrite <- (tail_at _ _ Hr) in Hfind.
    rewrite Hfind; [|lia|pose proof (rep_len _ _ Hr); unfold nslots in *; lia]. rewrite bind_ret_l, drop_0.
    destruct (a_scan (win a0) 0) as [j| |] eqn:Hscan.
    + exact (pop_take c force s a a0 j oldest HR Hg Hdr Hbag Hold Hts Hnext Hst Hscan).
    + destruct force; [exact Hdrop|by eapply pop_ok_none].
    + by eapply pop_ok_none.
  - destruct (last_slot base (win a0) Hw Hne) as (w0 & z & q & _ & Hq & Hwat & _).
    unfold packet_at at 1. rewrite (slot_newest _ _ Hr), bind_ret_l, Hwat, Hq by done. cbn [go_deref].
    rewrite bind_ret_l, Hold, bind_ret_l. destruct (force || _); [exact Hdrop|by eapply pop_ok_none].
Qed.

Lemma pop_spec c force s a : refines c s a -> good a -> pop_ok c force a (pop Unmarshal force s).
Proof.
  intros HR Hg. apply (pop_loop_spec c force a _ s a); try done; [apply drops_refl|].
  pose proof (rep_len _ _ (R_rep _ _ _ HR)). unfold nslots in *. lia.
Qed.
End Pop.

(** ** The code's own check *)

Section Check.
Context (s : SampleBuilder) (w : list packet) (base : Z).
Context (Hr : rep s w) (Hw : wfw base w).

Lemma slot_pos i : (i < length w)%nat -> exists x, w !! i = Some x /\
  slot s ((tail s + Z.of_nat i) mod nslots s) = Ret x.
Proof using Hr.
  intros Hi. pose proof (rep_len _ _ Hr). destruct (lookup_lt_is_Some_2 w i) as [x Hx]; [done|].
  exists x. split; [done|]. rewrite (slot_at _ _ Hr) by lia. unfold wat. by rewrite Nat2Z.id, Hx.
Qed.

(** Neighbours without a flag between them have the same timestamp. *)
Lemma flags_same j x y p q : w !! j = Some x -> w !! S j = Some y -> packet_ x = Some p -> packet_ y = Some q ->
  end_ x = false \/ start y = false -> Timestamp p = Timestamp q.
Proof using Hw.
  intros Hx Hy Hp Hq Hor. destruct (wf_flags _ _ Hw j x y p q Hx Hy Hp Hq) as [E1 E2].
  destruct (Z.eq_dec (Timestamp p) (Timestamp q)) as [?|Hne]; [done|]. specialize (E2 Hne). destruct Hor; congruence.
Qed.

Lemma check_slot_ok i : (i < length w)%nat -> check_slot s base (Z.of_nat i) = Ret tt.
Proof using Hr Hw.
  intros Hi. pose proof (rep_sized _ _ Hr) as Hs. destruct (sized_nslots s Hs) as [Hn _].
  pose proof (rep_len _ _ Hr) as Hl. pose proof (rep_tail _ _ Hr) as Ht. unfold check_slot.
  rewrite (len16_nslots s Hs), (u16_id (tail s + _)) by lia. destruct (slot_pos i Hi) as (x & Hx & ->). rewrite bind_ret_l.
  destruct (packet_ x) as [p|] eqn:Hp; [|done].
  rewrite (wf_seq _ _ Hw i x p Hx Hp), Z.eqb_refl. cbn [negb].
  assert (((tail s + Z.of_nat i) mod nslots s =? tail s) = bool_decide (i = 0%nat)) as ->.
  { destruct i; [change (Z.of_nat 0) with 0; by rewrite <- (tail_at _ _ Hr), Z.eqb_refl|].
    rewrite bool_decide_false by done. apply Z.eqb_neq. rewrite (tail_at _ _ Hr) at 2. intros E%mod_inj; lia. }
  assert (((tail s + Z.of_nat i) mod nslots s =? dec s (head s)) = bool_decide (S i = length w)) as ->.
  { rewrite (newest_at _ _ Hr) by (intros E; rewrite E in Hi; cbn in Hi; lia).
    case_bool_decide as E; [apply Z.eqb_eq; do 2 f_equal; lia|apply Z.eqb_neq; intros E'%mod_inj; lia]. }
  assert ((if negb (bool_decide (i = 0%nat)) && negb (start x) then
     y ← slot s (dec s ((tail s + Z.of_nat i) mod nslots s));
     match packet_ y with
     | Some q => if negb (Timestamp q =? Timestamp p) then go_panic (PMsg "start is not set") else Ret tt
     | None => Ret tt
     end else Ret tt) = Ret tt) as ->.
  { destruct i as [|i]; [done|]. rewrite bool_decide_false by done. destruct (start x) eqn:Est; [done|]. cbn [negb andb].
    rewrite dec_mod, Zminus_mod_idemp_l by (done || by apply mod_range).
    replace (tail s + Z.of_nat (S i) - 1) with (tail s + Z.of_nat i) by lia.
    destruct (slot_pos i ltac:(lia)) as (y & Hy & ->). rewrite bind_ret_l. destruct (packet_ y) as [q|] eqn:Hq; [|done].
    rewrite (flags_same i y x q p) by auto. by rewrite Z.eqb_refl. }
  rewrite bind_ret_l. case_bool_decide as Hlast; [done|]. destruct (end_ x) eqn:Een; [done|]. cbn [negb andb].
  rewrite inc_mod, Z.add_mod_idemp_l by (done || lia || by apply mod_range).
  replace (tail s + Z.of_nat i + 1) with (tail s + Z.of_nat (S i)) by lia.
  destruct (slot_pos (S i) ltac:(lia)) as (y & Hy & ->). rewrite bind_ret_l. destruct (packet_ y) as [q|] eqn:Hq; [|done].
  rewrite (flags_same i x y p q) by auto. by rewrite Z.eqb_refl.
Qed.

Lemma check_window_ok n i : (i + n = length w)%nat -> check_window n s base (Z.of_nat i) = Ret tt.
Proof using Hr Hw.
  revert i. induction n as [|n IH]; intros i Hi; cbn [check_window]; [done|].
  rewrite check_slot_ok, bind_ret_l by lia. pose proof (rep_len _ _ Hr).
  destruct (sized_nslots s (rep_sized _ _ Hr)) as [Hn _].
  rewrite u16_id by lia. replace (Z.of_nat i + 1) with (Z.of_nat (S i)) by lia. apply IH. lia.
Qed.

Lemma check_outside_ok fuel i :
  w <> [] -> Z.of_nat (length w) <= i <= nslots s -> nslots s - i < Z.of_nat fuel ->
  check_outside fuel s ((tail s + i) mod nslots s) = Ret tt.
Proof using Hr.
  intros Hne. pose proof (rep_sized _ _ Hr) as Hs. destruct (sized_nslots s Hs) as [Hn _]. revert i.
  induction fuel as [|fuel IH]; intros i Hi Hf; [lia|]. cbn [check_outside].
  destruct (Z.eqb_spec ((tail s + i) mod nslots s) (tail s)) as [E|E]; [done|].
  assert (i < nslots s) as Hlt.
  { destruct (decide (i = nslots s)) as [->|]; [|lia]. exfalso. apply E.
    replace (tail s + nslots s) with (tail s + 1 * nslots s) by lia.
    rewrite Z.mod_add, Z.mod_small; [done|apply (rep_tail _ _ Hr)|lia]. }
  rewrite (slot_at _ _ Hr), bind_ret_l, wat_ge by lia. cbn [packet_ empty_packet].
  rewrite inc_mod, Z.add_mod_idemp_l by (done || lia || by apply mod_range).
  replace (tail s + i + 1) with (tail s + (i + 1)) by lia. apply IH; lia.
Qed.
End Check.

Lemma check_ok c s a : refines c s a -> good a -> check s = Ret tt.
Proof.
  intros HR (base & Hw & Ha). pose proof (R_rep _ _ _ HR) as Hr. unfold check.
  rewrite (head_tail_eqb _ _ Hr). case_bool_decide as Hne; [done|].
  destruct (front_packet _ (wf_front _ _ Hw) Hne) as (x & p & Hx & Hx0 & Hp).
  rewrite (slot_tail _ _ Hr), bind_ret_l, Hx, Hp.
  destruct (last_slot base (win a) Hw Hne) as (w0 & z & q & _ & Hq & Hwat & _).
  rewrite (slot_newest _ _ Hr), bind_ret_l, Hwat, Hq by done.
  assert (SequenceNumber p = base) as ->.
  { rewrite (wf_seq _ _ Hw 0%nat x p Hx0 Hp). pose proof (wf_base _ _ Hw). wrap_lia. }
  cbn zeta. assert ((if lastSeqnoValid s then
      if (u16 (base - lastSeqno s) =? 0) || negb (nonneg16 (u16 (base - lastSeqno s))) then go_panic (PMsg "lastSeqno is after tail") else Ret tt
    else Ret tt) = Ret tt) as ->.
  { pose proof (R_last _ _ _ HR) as Hl. destruct (lastSeqnoValid s); [|done].
    destruct (Ha _ (eq_sym Hl)) as [_ Haf]. specialize (Haf Hne).
    rewrite nonneg16_spec, (proj2 (Z.eqb_neq _ _)), (proj2 (Z.ltb_lt _ _)) by (apply u16_range || lia). done. }
  rewrite bind_ret_l, (Len_length _ _ Hr). pose proof (rep_len _ _ Hr).
  destruct (sized_nslots s (rep_sized _ _ Hr)) as [Hn _].
  rewrite u16_id, Nat2Z.id by lia. change 0 with (Z.of_nat 0).
  rewrite (check_window_ok s (win a) base Hr Hw) by lia. rewrite bind_ret_l, (rep_head _ _ Hr).
  apply (check_outside_ok s (win a) Hr); [done|lia|]. unfold nslots. lia.
Qed.

(** ** Runs of the builder *)

Section Runs.
Context (IsPartitionHead : list Z -> bool) (IsPartitionTail : bool -> list Z -> bool).
Context (Unmarshal : list Z -> option (list Z)).

Inductive sb_op := OpPush (p : rtp_packet) (buf : Z) | OpPop (force : bool) | OpClose.

Definition sb_step (op : sb_op) (s : SampleBuilder) : run SampleBuilder :=
  match op with
  | OpPush p buf => Push IsPartitionHead IsPartitionTail p buf s
  | OpPop force => '(s, _) ← pop Unmarshal force s; Ret s
  | OpClose => Close s
  end.

Definition valid_op (op : sb_op) : Prop :=
  match op with OpPush p _ => is_u16 (SequenceNumber p) | _ => True end.

Fixpoint sb_run (ops : list sb_op) (s : SampleBuilder) : run SampleBuilder :=
  match ops with
  | [] => Ret s
  | op :: ops => s ← sb_step op s; sb_run ops s
  end.

(** The builder refines an abstract one in which the invariant holds. *)
Definition ok (s : SampleBuilder) : Prop := exists a, refines (const s) s a /\ good a.

Lemma new_ok ml rate handler : 0 <= ml <= 16383 -> ok (New ml rate handler).
Proof.
  intros Hml. set (s := New ml rate handler).
  assert (2 <= maxLate s <= 16383 /\ packets s = replicate (Z.to_nat (2 * maxLate s + 1)) empty_packet) as [Hm Hp].
  { cbn. rewrite (proj2 (Z.ltb_ge 32767 _)) by (case_match; lia).
    destruct (Z.ltb_spec ml 2); rewrite u16_id by lia; split; done || lia. }
  assert (nslots s = 2 * maxLate s + 1) as Hn by (unfold nslots; rewrite Hp, length_replicate; lia).
  exists {| win := []; a_last := None; a_ts := None; a_rel := [] |}. split.
  - split; try done. cbn [win]. constructor; [by split|..]; change (tail s) with 0; rewrite Hn.
    + lia.
    + change (Z.of_nat (length [])) with 0. lia.
    + change (head s) with 0. by rewrite Z.mod_0_l by lia.
    + intros i Hi. rewrite Hp, wat_ge by (cbn; lia).
      apply lookup_replicate_2. rewrite Z.add_0_l, Z.mod_small by lia. lia.
  - exists 0. split; [split; [by apply wfp_nil|done|intros w' x E; by destruct w']|]. by intros l [=].
Qed.

(** A step keeps the invariant or is the one panic of the code. *)
Lemma step_ok op s : ok s -> valid_op op ->
  (exists s', sb_step op s = Ret s' /\ ok s' /\ const s' = const s) \/
  sb_step op s = go_panic (PMsg "this is impossible").
Proof.
  intros (a & HR & Hg) Hv. destruct op as [p buf|force|]; cbn [sb_step valid_op] in *.
  - destruct (Push_spec IsPartitionHead IsPartitionTail (const s) s a p buf HR Hg Hv)
      as [[_ ->]|[(s' & a' & -> & HR' & Hg' & _)| ->]]; [left|left|by right].
    + exists s. split_and!; try done. by exists a.
    + exists s'. pose proof (R_const _ _ _ HR') as Hc. rewrite <- Hc in HR'. split_and!; try done. by exists a'.
  - left. destruct (pop_spec Unmarshal (const s) force s a HR Hg) as (s' & a' & o & -> & HR' & Hg' & _).
    exists s'. pose proof (R_const _ _ _ HR') as Hc. rewrite <- Hc in HR'. split_and!; try done. by exists a'.
  - left. destruct Hg as (base & Hw & Ha). unfold Close.
    destruct (releaseAll_refines (const s) s a HR (wf_clean _ _ Hw) (wf_front _ _ Hw)) as (s' & -> & HR' & Hnil).
    exists s'. pose proof (R_const _ _ _ HR') as Hc. split_and!; try done.
    exists (a_release_all (length (win a)) (const s) a). split; [by rewrite Hc|].
    destruct (decide (win a = [])) as [E|Hne].
    + rewrite E in *. cbn [length a_release_all] in *. exists base. by rewrite E in *.
    + pose proof (good_shrinking (const s) s a base HR Hw Ha Hne) as Hsh.
      eapply shrinking_good, release_all_shrinking, Hsh.
Qed.

(** C4.  Every run of the builder (pushes, pops, closing, in any order)
    from a new one with at most 16383 late packets either ends in a state
    that passes the code's own [check], or stops at the panic of [Push]
    that is marked impossible: no index is out of range, no missing packet
    is read and every loop ends. *)
Theorem builder_invariant ops ml rate handler :
  0 <= ml <= 16383 -> Forall valid_op ops ->
  (exists s, sb_run ops (New ml rate handler) = Ret s /\ check s = Ret tt) \/
  sb_run ops (New ml rate handler) = go_panic (PMsg "this is impossible").
Proof.
  intros Hml Hv.
  assert (forall s, ok s -> (exists s', sb_run ops s = Ret s' /\ ok s') \/
    sb_run ops s = go_panic (PMsg "this is impossible")) as Hrun.
  { induction Hv as [|op ops Hop Hv IH]; intros s Hok; cbn [sb_run]; [left; eauto|].
    destruct (step_ok op s Hok Hop) as [(s' & -> & Hok' & _)| ->]; [rewrite bind_ret_l; auto|by right]. }
  destruct (Hrun _ (new_ok ml rate handler Hml)) as [(s & -> & a & HR & Hg)|Hp]; [left|by right].
  exists s. split; [done|]. by eapply check_ok.
Qed.

(** C10.  With a release handler no packet is lost: what [Push] is given is
    in the buffer or was handed to the handler, unless it was late and
    dropped at once; popping only moves packets from the buffer to the
    handler. *)
Theorem packets_conserved c s a p buf force :
  refines c s a -> good a -> c.1.2 = true -> is_u16 (SequenceNumber p) ->
  (forall s', Push IsPartitionHead IsPartitionTail p buf s = Ret s' ->
    (late c p a /\ s' = s) \/
    exists a', refines c s' a' /\ good a' /\ bag a' ≡ₚ (p, buf) :: bag a) /\
  exists s' a' o, pop Unmarshal force s = Ret (s', o) /\ refines c s' a' /\ good a' /\ bag a' ≡ₚ bag a.
Proof.
  intros HR Hg Hh Hp. split.
  - intros s' E. destruct (Push_spec IsPartitionHead IsPartitionTail c s a p buf HR Hg Hp)
      as [[Hl E']|[(s1 & a1 & E' & HR1 & Hg1 & Hb1)|E']]; rewrite E in E'.
    + injection E' as ->. by left.
    + injection E' as <-. right. exists a1. auto.
    + discriminate.
  - destruct (pop_spec Unmarshal c force s a HR Hg) as (s' & a' & o & -> & HR' & Hg' & _ & Hb). eauto 10.
Qed.

(** C11.  What [Pop] returns is a frame: the payloads of consecutive
    packets at the front of the buffer, in order, all with the timestamp of
    the sample; the first one starts a frame and none but the last ends one.
    Without force the frame follows directly the last packet given up. *)
Theorem pop_frame c force s a s' sm :
  refines c s a -> good a -> pop Unmarshal force s = Ret (s', Some sm) ->
  exists a0 l w, drops c a a0 /\ win a0 = l ++ w /\ is_frame l /\
    unmarshal_all Unmarshal [] l = Some (Data sm) /\
    (forall x p, x ∈ l -> packet_ x = Some p -> Timestamp p = PacketTimestamp sm) /\
    (force = false -> forall n x p, a_last a0 = Some n -> l !! 0%nat = Some x -> packet_ x = Some p ->
      SequenceNumber p = u16 (n + 1)).
Proof.
  intros HR Hg E. destruct (pop_spec Unmarshal c force s a HR Hg) as (s1 & a1 & o & E1 & _ & _ & Hpop & _).
  rewrite E in E1. injection E1 as -> <-. destruct Hpop as (a0 & l & w & Hd & Hw & Hf & Ht & Hu & _ & Hn).
  exists a0, l, w. split_and!; try done. intros Hfo n x p Hl Hx Hp. by eapply Hn.
Qed.
End Runs.

(** ** A concrete depacketizer, witnesses and counterexamples *)

(** The first byte of a payload tells whether it starts a frame. *)
Definition demo_head (payload : list Z) : bool := match payload with 1 :: _ => true | _ => false end.
Definition demo_tail (marker : bool) (_ : list Z) : bool := marker.
Definition demo_unmarshal (payload : list Z) : option (list Z) := Some payload.

Definition pkt (seq ts : Z) (hd marker : bool) : rtp_packet :=
  {| SequenceNumber := seq; Timestamp := ts; Marker := marker; Payload := [(if hd then 1 else 0); seq] |}.

Definition demo_run := sb_run demo_head demo_tail demo_unmarshal.
Definition push seq ts hd marker : sb_op := OpPush (pkt seq ts hd marker) seq.

Definition frame_ops : list sb_op :=
  [push 10 100 true false; push 12 100 false true; push 11 100 false false; OpPop false; OpClose].

Lemma builder_invariant_witness :
  (exists s, demo_run frame_ops (New 8 90000 true) = Ret s /\ check s = Ret tt) \/
  demo_run frame_ops (New 8 90000 true) = go_panic (PMsg "this is impossible").
Proof.
  apply builder_invariant; [lia|]. repeat constructor; cbn; unfold is_u16; lia.
Defined.

Definition demo_new : SampleBuilder := New 8 90000 true.
Definition demo_abs : astate := {| win := []; a_last := None; a_ts := None; a_rel := [] |}.

Lemma demo_refines : refines (const demo_new) demo_new demo_abs /\ good demo_abs.
Proof.
  split; [|exists 0; split; [split; [by apply wfp_nil|done|intros w' x E; by destruct w']|by intros l [=]]].
  split; try done. constructor; [split; [cbn; lia|done]|done|done|done|].
  intros i Hi. change (nslots demo_new) with 17 in *. change (tail demo_new) with 0.
  rewrite Z.add_0_l, Z.mod_small, wat_ge by (cbn; lia). apply (lookup_replicate_2 17). lia.
Qed.

Lemma packets_conserved_witness :
  (forall s', Push demo_head demo_tail (pkt 1 0 true true) 7 demo_new = Ret s' ->
    (late (const demo_new) (pkt 1 0 true true) demo_abs /\ s' = demo_new) \/
    exists a', refines (const demo_new) s' a' /\ good a' /\ bag a' ≡ₚ (pkt 1 0 true true, 7) :: bag demo_abs) /\
  exists s' a' o, pop demo_unmarshal false demo_new = Ret (s', o) /\ refines (const demo_new) s' a' /\
    good a' /\ bag a' ≡ₚ bag demo_abs.
Proof.
  apply packets_conserved; [apply demo_refines|apply demo_refines|reflexivity|]. unfold is_u16. cbn. lia.
Defined.

(** A builder with a complete frame of one packet. *)
Definition demo_one : SampleBuilder :=
  set_head_tail 1 0 (set_packets (<[0%nat := {| start := true; end_ := true; packet_ := Some (pkt 1 0 true true);
    buff := 7 |}]> (packets demo_new)) demo_new).
Definition demo_one_abs : astate :=
  {| win := [{| start := true; end_ := true; packet_ := Some (pkt 1 0 true true); buff := 7 |}];
     a_last := None; a_ts := None; a_rel := [] |}.

Lemma demo_one_refines : refines (const demo_one) demo_one demo_one_abs /\ good demo_one_abs.
Proof.
  split.
  - split; try done. apply (rep_ext (set_head (inc demo_new 0) (write_at demo_new 0
      {| start := true; end_ := true; packet_ := Some (pkt 1 0 true true); buff := 7 |}))); try done.
    apply (rep_single demo_new), demo_refines.
  - exists 1. split; [|by intros l [=]]. split; [split| |].
    + lia.
    + by repeat constructor.
    + intros [|i] x p [= <-] [= <-]. done.
    + intros [|i] x y p q; done.
    + by eexists.
    + intros [|y [|? ?]] x E; [|discriminate..]. injection E as <-. by eexists.
Qed.

Lemma pop_frame_witness :
  exists s' sm, pop demo_unmarshal false demo_one = Ret (s', Some sm) /\
  exists a0 l w, drops (const demo_one) demo_one_abs a0 /\ win a0 = l ++ w /\ is_frame l /\
    unmarshal_all demo_unmarshal [] l = Some (Data sm) /\
    (forall x p, x ∈ l -> packet_ x = Some p -> Timestamp p = PacketTimestamp sm) /\
    (false = false -> forall n x p, a_last a0 = Some n -> l !! 0%nat = Some x -> packet_ x = Some p ->
      SequenceNumber p = u16 (n + 1)).
Proof.
  eexists _, _. split; [vm_compute; reflexivity|].
  eapply (pop_frame demo_unmarshal (const demo_one) false demo_one demo_one_abs);
    [apply demo_one_refines|apply demo_one_refines|vm_compute; reflexivity].
Defined.

(** The panic marked impossible is reachable: a buffer full of
    packets of one timestamp after a packet of another, followed by the next
    packet with the first timestamp again. *)
Theorem impossible_reachable :
  exists ops, Forall valid_op ops /\
    demo_run ops (New 2 90000 true) = go_panic (PMsg "this is impossible").
Proof.
  exists [push 1 10 true false; push 2 20 true false; push 3 20 false false; push 4 20 false true;
          push 5 10 false true].
  split; [repeat constructor; cbn; unfold is_u16; lia|]. vm_compute. reflexivity.
Qed.

(** A frame that wraps around the end of the ring is cut: the last of
    its three packets is not part of the sample and stays in the buffer. *)
Theorem pop_wrapped_frame_cut :
  exists s s' sm,
    demo_run [push 1 10 true true; push 2 20 true true; push 3 30 true true; push 4 40 true false;
              OpPop false; OpPop false; OpPop false; push 5 40 false false; push 6 40 false true]
      (New 2 90000 true) = Ret s /\
    Pop demo_unmarshal s = Ret (s', Some sm) /\
    Data sm = [1; 4; 0; 5] /\ PacketTimestamp sm = 40 /\
    exists x, slot s' (tail s') = Ret x /\ packet_ x = Some (pkt 6 40 false true).
Proof.
  eexists _, _, _. split; [vm_compute; reflexivity|]. split; [vm_compute; reflexivity|].
  split; [reflexivity|]. split; [reflexivity|]. eexists. by split.
Qed.

(** [ForcePop] may return nil and leave packets behind: a frame
    whose end has not arrived is neither returned nor dropped. *)
Theorem force_pop_not_empty :
  exists s, demo_run [push 1 10 true false] (New 2 90000 true) = Ret s /\
    ForcePop demo_unmarshal s = Ret (s, None) /\ Len s = 1.
Proof.
  eexists. split; [vm_compute; reflexivity|]. split; [vm_compute; reflexivity|reflexivity].
Qed.
