(* ===== verification/Dts.v ===== *)
(** * Dts: decoding times of H264 access units ([pkg/segmenter/h264dtsextractor.go])

    The recorder gets access units in decoding order with their presentation
    time only; [Extract] computes the decoding time from the picture order
    count in the slice header.  The bit readers and the SPS parser are those
    of the mediacommon package: parameters of the class [H264Codec].  Durations
    are 64-bit nanoseconds with their wrap-around; the counters
    [reorderedFrames], [pauseDTS] and [pocIncrement] never come near the bounds
    of [int] ([dts_ok]) and are plain integers.  An error leaves what was
    already assigned, as in the code: every operation returns the state. *)
From S2P Require Import Prelude.
Local Open Scope Z_scope.

(** ** The codec package *)

(** The fields of [h264.SPS] the program reads. *)
Record SPS := {
  Log2MaxFrameNumMinus4 : Z;
  PicOrderCntType : Z;
  Log2MaxPicOrderCntLsbMinus4 : Z;
  FrameMbsOnlyFlag : bool;
  sps_Width : Z;
  sps_Height : Z;
  sps_FPS : Z
}.

(** [SPS_Unmarshal] fails with [None]; the readers return the value and the
    new position. *)
Class H264Codec := {
  SPS_Unmarshal : list Z -> option SPS;
  EmulationPreventionRemove : list Z -> list Z;
  ReadGolombUnsigned : list Z -> Z -> option (Z * Z);
  ReadBits : list Z -> Z -> Z -> option (Z * Z)
}.

Definition NALUTypeNonIDR : Z := 1.
Definition NALUTypeIDR : Z := 5.
Definition NALUTypeSPS : Z := 7.
Definition NALUTypePPS : Z := 8.

Definition nalu_type (b : Z) : Z := Z.land b 0x1F.

Definition Millisecond : Z := 1000000.

Definition maxReorderedFrames : Z := 50.
Definition maxBytesToGetPOC : nat := 22.

(** [uint32(1 << s)] *)
Definition shl32 (s : Z) : Z := if s <? 32 then Z.shiftl 1 s else 0.

(** ** The picture order count *)

Section Extractor.
Context `{H264Codec}.

Definition getPictureOrderCount (buf : list Z) (sps : SPS) : run (option Z) :=
  buf ← go_slice buf 1 (Z.of_nat (length buf));
  let lb := if (maxBytesToGetPOC <? length buf)%nat then maxBytesToGetPOC else length buf in
  let buf := EmulationPreventionRemove (take lb buf) in
  Ret ('(_, pos) ← ReadGolombUnsigned buf 0;
       '(_, pos) ← ReadGolombUnsigned buf pos;
       '(_, pos) ← ReadGolombUnsigned buf pos;
       '(_, pos) ← ReadBits buf pos (u32 (Log2MaxFrameNumMinus4 sps + 4));
       '(picOrderCntLsb, _) ← ReadBits buf pos (u32 (Log2MaxPicOrderCntLsbMinus4 sps + 4));
       Some (u32 picOrderCntLsb)).

Definition getPictureOrderCountDiff (a b : Z) (sps : SPS) : Z :=
  let max := shl32 (u32 (Log2MaxPicOrderCntLsbMinus4 sps + 4)) in
  let d := Z.land (u32 (a - b)) (u32 (max - 1)) in
  if max / 2 <? d then i32 (i32 d - i32 max) else i32 d.

(** ** The extractor *)

Record DTSExtractor := {
  d_sps : list Z;
  spsp : option SPS;
  prevDTSFilled : bool;
  prevDTS : Z;
  expectedPOC : Z;
  reorderedFrames : Z;
  pauseDTS : Z;
  pocIncrement : Z
}.

Definition NewH264DTSExtractor : DTSExtractor :=
  {| d_sps := []; spsp := None; prevDTSFilled := false; prevDTS := 0; expectedPOC := 0;
     reorderedFrames := 0; pauseDTS := 0; pocIncrement := 2 |}.

(** The assignments of [extractInner] and [Extract]. *)
Definition set_sps (nalu : list Z) (s : SPS) (d : DTSExtractor) : DTSExtractor :=
  {| d_sps := nalu; spsp := Some s; prevDTSFilled := prevDTSFilled d; prevDTS := prevDTS d;
     expectedPOC := expectedPOC d; reorderedFrames := 0; pauseDTS := pauseDTS d; pocIncrement := 2 |}.
Definition set_counters (poc re pause inc : Z) (d : DTSExtractor) : DTSExtractor :=
  {| d_sps := d_sps d; spsp := spsp d; prevDTSFilled := prevDTSFilled d; prevDTS := prevDTS d;
     expectedPOC := poc; reorderedFrames := re; pauseDTS := pause; pocIncrement := inc |}.
Definition set_prev (dts : Z) (d : DTSExtractor) : DTSExtractor :=
  {| d_sps := d_sps d; spsp := spsp d; prevDTSFilled := true; prevDTS := dts;
     expectedPOC := expectedPOC d; reorderedFrames := reorderedFrames d; pauseDTS := pauseDTS d;
     pocIncrement := pocIncrement d |}.

(** The loop over the NAL units: the last IDR and the last non-IDR slice. *)
Fixpoint scan_au (d : DTSExtractor) (idr nonIDR : option (list Z)) (au : list (list Z))
    : run (DTSExtractor * (option (list Z) * option (list Z) + gerror)) :=
  match au with
  | [] => Ret (d, inl (idr, nonIDR))
  | nalu :: au =>
      b ← go_index nalu 0;
      let typ := nalu_type b in
      if typ =? NALUTypeSPS then
        if decide (d_sps d = nalu) then scan_au d idr nonIDR au
        else match SPS_Unmarshal nalu with
             | None => Ret (d, inr (EOther "invalid SPS"))
             | Some s => scan_au (set_sps nalu s d) idr nonIDR au
             end
      else if typ =? NALUTypeIDR then scan_au d (Some nalu) nonIDR au
      else if typ =? NALUTypeNonIDR then scan_au d idr (Some nalu) au
      else scan_au d idr nonIDR au
  end.

Definition paused_dts (d : DTSExtractor) : Z := i64 (prevDTS d + Millisecond).

(** [a / b] of two integers, panicking on zero. *)
Definition go_div (a b : Z) : run Z := if b =? 0 then go_panic (PMsg "integer divide by zero") else Ret (Z.quot a b).

(** The case [nonIDR != nil]. *)
Definition extract_nonIDR (d : DTSExtractor) (s : SPS) (nonIDR : list Z) (pts : Z)
    : run (DTSExtractor * (Z * bool + gerror)) :=
  let poc0 := Z.land (u32 (expectedPOC d + u32 (pocIncrement d)))
                (u32 (shl32 (u32 (Log2MaxPicOrderCntLsbMinus4 s + 4)) - 1)) in
  let d := set_counters poc0 (reorderedFrames d) (pauseDTS d) (pocIncrement d) d in
  if 0 <? pauseDTS d then
    let d := set_counters poc0 (reorderedFrames d) (pauseDTS d - 1) (pocIncrement d) d in
    Ret (d, inl (paused_dts d, true))
  else
    r ← getPictureOrderCount nonIDR s;
    match r with
    | None => Ret (d, inr (EOther "poc"))
    | Some poc =>
        let d := if (pocIncrement d =? 2) && negb (poc mod 2 =? 0)
                 then set_counters (expectedPOC d / 2) (reorderedFrames d) (pauseDTS d) 1 d else d in
        pocDiff ← go_div (getPictureOrderCountDiff poc (expectedPOC d) s) (pocIncrement d);
        let re := reorderedFrames d in
        let limit := - (re + 1) in
        if pocDiff <? limit then
          let increase := limit - pocDiff in
          if maxReorderedFrames <? re + increase then Ret (d, inr (EOther "too many reordered frames"))
          else let d := set_counters (expectedPOC d) (re + increase) increase (pocIncrement d) d in
               Ret (d, inl (paused_dts d, true))
        else if pocDiff =? limit then Ret (d, inl (pts, false))
        else if re <? pocDiff then
          let increase := pocDiff - re in
          if maxReorderedFrames <? re + increase then Ret (d, inr (EOther "too many reordered frames"))
          else let d := set_counters (expectedPOC d) (re + increase) (increase - 1) (pocIncrement d) d in
               Ret (d, inl (paused_dts d, false))
        else
          q ← go_div (i64 (pts - prevDTS d)) (pocDiff + re + 1);
          Ret (d, inl (i64 (prevDTS d + q), false))
    end.

Definition extractInner (d : DTSExtractor) (au : list (list Z)) (pts : Z)
    : run (DTSExtractor * (Z * bool + gerror)) :=
  '(d, r) ← scan_au d None None au;
  match r with
  | inr e => Ret (d, inr e)
  | inl (idr, nonIDR) =>
      match spsp d with
      | None => Ret (d, inr (EOther "SPS not received yet"))
      | Some s =>
          if (PicOrderCntType s =? 2) || negb (FrameMbsOnlyFlag s) then Ret (d, inl (pts, false))
          else if PicOrderCntType s =? 1 then Ret (d, inr (EOther "pic_order_cnt_type = 1 is not supported yet"))
          else match idr, nonIDR with
          | Some _, _ =>
              let d := set_counters 0 (reorderedFrames d) 0 (pocIncrement d) d in
              if negb (prevDTSFilled d) || (reorderedFrames d =? 0) then Ret (d, inl (pts, false))
              else q ← go_div (i64 (pts - prevDTS d)) (reorderedFrames d + 1);
                   Ret (d, inl (i64 (prevDTS d + q), false))
          | None, Some nonIDR => extract_nonIDR d s nonIDR pts
          | None, None => Ret (d, inr (EOther "access unit doesn't contain an IDR or non-IDR NALU"))
          end
      end
  end.

Definition Extract (d : DTSExtractor) (au : list (list Z)) (pts : Z) : run (DTSExtractor * (Z + gerror)) :=
  '(d, r) ← extractInner d au pts;
  match r with
  | inr e => Ret (d, inr e)
  | inl (dts, skipChecks) =>
      if negb skipChecks && (pts <? dts) then Ret (d, inr (EOther "DTS is greater than PTS"))
      else if prevDTSFilled d && (dts <=? prevDTS d) then Ret (d, inr (EOther "DTS is not monotonically increasing"))
      else Ret (set_prev dts d, inl dts)
  end.

(** A whole stream: access units with their presentation times; the results
    in order. *)
Fixpoint extract_all (d : DTSExtractor) (stream : list (list (list Z) * Z)) : run (DTSExtractor * list (Z + gerror)) :=
  match stream with
  | [] => Ret (d, [])
  | (au, pts) :: stream =>
      '(d, r) ← Extract d au pts;
      '(d, rs) ← extract_all d stream;
      Ret (d, r :: rs)
  end.

(** ** The invariant *)

Definition dts_ok (d : DTSExtractor) : Prop :=
  0 <= reorderedFrames d <= maxReorderedFrames /\ 0 <= pauseDTS d <= 100 /\
  (pocIncrement d = 1 \/ pocIncrement d = 2) /\ is_u32 (expectedPOC d) /\ is_i64 (prevDTS d).

Definition nalus_ok (au : list (list Z)) : Prop := Forall (fun nalu => nalu <> []) au.

(** Counters and SPS changed, but not the last time. *)
Definition same_prev (d d' : DTSExtractor) : Prop :=
  prevDTSFilled d' = prevDTSFilled d /\ prevDTS d' = prevDTS d.

#[local] Instance same_prev_refl : Reflexive same_prev.
Proof. by intros d. Qed.
#[local] Instance same_prev_trans : Transitive same_prev.
Proof. intros d1 d2 d3 [] []. split; congruence. Qed.

Lemma land_u32 a b : is_u32 a -> is_u32 (Z.land a (u32 b)).
Proof.
  intros Ha. pose proof (u32_range b). split; [apply Z.land_nonneg; left; apply Ha|].
  unfold is_u32 in Ha. destruct (Z.eq_dec (Z.land a (u32 b)) 0) as [->|Hne]; [lia|].
  apply Z.log2_lt_pow2 with (b := 32); [pose proof (proj2 (Z.land_nonneg a (u32 b)) (or_introl (proj1 Ha))); lia|].
  eapply Z.le_lt_trans; [apply Z.log2_land; lia|].
  apply Z.min_lt_iff. left. destruct (Z.eq_dec a 0) as [->|]; [cbn; lia|]. apply Z.log2_lt_pow2; lia.
Qed.

Lemma scan_au_ok au : forall d idr nonIDR,
  dts_ok d -> nalus_ok au -> (forall n, nonIDR = Some n -> n <> []) ->
  exists d' r, scan_au d idr nonIDR au = Ret (d', r) /\ dts_ok d' /\ same_prev d d' /\
    forall i n, r = inl (i, Some n) -> n <> [].
Proof.
  induction au as [|nalu au IH]; intros d idr nonIDR Hd Hau Hn; cbn [scan_au].
  { eexists _, _. split; [done|]. split; [done|]. split; [done|]. intros i n [= _ ->]. by apply Hn. }
  inversion Hau as [|? ? Hne Hau']; subst. destruct nalu as [|b nalu]; [done|]. change (go_index (b :: nalu) 0) with (Ret b). rewrite bind_ret_l.
  assert (forall s, dts_ok (set_sps (b :: nalu) s d)) as Hset.
  { intros s. destruct Hd as (_ & ? & _ & ? & ?). unfold dts_ok, maxReorderedFrames. cbn. split_and!; first [lia|done|tauto]. }
  destruct (_ =? NALUTypeSPS).
  { destruct (decide _); [by apply IH|]. destruct (SPS_Unmarshal _) as [s|].
    - destruct (IH (set_sps (b :: nalu) s d) idr nonIDR) as (d' & r & E & Ok & Sp & Hr); auto.
      exists d', r. split_and!; auto.
    - eexists _, _. by split_and!. }
  destruct (_ =? NALUTypeIDR); [by apply IH|]. destruct (_ =? NALUTypeNonIDR); [|by apply IH].
  apply IH; auto. by intros ? [= <-].
Qed.

(** What [extractInner] answers: a state that is well formed and has the
    same last time, and a 64-bit time. *)
Definition inner_post (d : DTSExtractor) (o : run (DTSExtractor * (Z * bool + gerror))) : Prop :=
  exists d' r, o = Ret (d', r) /\ dts_ok d' /\ same_prev d d' /\
    forall dts b, r = inl (dts, b) -> is_i64 dts /\ (b = true -> dts = paused_dts d).

Lemma inner_err d d' e : dts_ok d' -> same_prev d d' -> inner_post d (Ret (d', inr e)).
Proof. intros Hok Hs. by exists d', (inr e). Qed.

Lemma inner_ret d d' dts : dts_ok d' -> same_prev d d' -> is_i64 dts -> inner_post d (Ret (d', inl (dts, false))).
Proof. intros Hok Hs Hd. exists d', (inl (dts, false)). split_and!; [done..|]. by intros ? ? [= <- <-]. Qed.

Lemma inner_paused d d' b : dts_ok d' -> same_prev d d' -> inner_post d (Ret (d', inl (paused_dts d', b))).
Proof.
  intros Hok Hs. exists d', (inl (paused_dts d', b)). split_and!; [done..|]. intros ? ? [= <- <-].
  unfold paused_dts. rewrite (proj2 Hs). split; [apply i64_range|done].
Qed.

Lemma set_counters_ok d poc re pause inc :
  dts_ok d -> is_u32 poc -> 0 <= re <= maxReorderedFrames -> 0 <= pause <= 100 -> inc = 1 \/ inc = 2 ->
  dts_ok (set_counters poc re pause inc d).
Proof. intros (_ & _ & _ & _ & Hp) Hpoc Hre Hpa Hinc. unfold dts_ok. cbn. tauto. Qed.

Lemma is_u32_half a : is_u32 a -> is_u32 (a / 2).
Proof. unfold is_u32. intros. Z.to_euclidean_division_equations; lia. Qed.

Lemma go_div_ok a b : b <> 0 -> go_div a b = Ret (Z.quot a b).
Proof. intros Hb. unfold go_div. by destruct (Z.eqb_spec b 0). Qed.

Lemma go_slice_tail {A} (x : A) l : go_slice (x :: l) 1 (Z.of_nat (length (x :: l))) = Ret l.
Proof.
  change 1 with (Z.of_nat 1). rewrite go_slice_ok by (cbn; lia). cbn. by rewrite Nat.sub_0_r, firstn_all.
Qed.

Lemma extract_nonIDR_ok d s n pts :
  dts_ok d -> n <> [] -> is_i64 pts -> inner_post d (extract_nonIDR d s n pts).
Proof.
  intros Hd Hn Hpts. unfold extract_nonIDR. set (poc0 := Z.land _ _).
  assert (is_u32 poc0) as Hpoc by (apply land_u32; apply u32_range).
  pose proof Hd as (Hre & Hpa & Hinc & _ & Hprev).
  set (d1 := set_counters poc0 _ _ _ d).
  assert (dts_ok d1) as Hd1 by (by apply set_counters_ok).
  destruct (Z.ltb_spec 0 (pauseDTS d1)) as [Hp|Hp].
  { apply inner_paused; [apply set_counters_ok; try done; cbn in *; lia|done]. }
  unfold getPictureOrderCount. destruct n as [|b n]; [done|].
  rewrite go_slice_tail, !bind_ret_l.
  match goal with |- context [match ?x with Some _ => _ | None => _ end] => destruct x as [poc|] end;
    [|by apply inner_err].
  set (d2 := if _ && _ then _ else d1).
  assert (dts_ok d2 /\ same_prev d d2) as [Hd2 Hs2].
  { unfold d2. case_match; [|done]. split; [|done]. apply set_counters_ok; try done; [by apply is_u32_half|tauto]. }
  pose proof Hd2 as (Hre2 & _ & Hinc2 & Hpoc2 & _).
  rewrite go_div_ok by lia. rewrite bind_ret_l.
  set (pocDiff := Z.quot _ _). unfold maxReorderedFrames in *.
  destruct (Z.ltb_spec pocDiff (- (reorderedFrames d2 + 1))).
  { case_match eqn:Hmax; [by apply inner_err|]. apply Z.ltb_ge in Hmax.
    apply inner_paused; [apply set_counters_ok; try done; unfold maxReorderedFrames; lia|done]. }
  destruct (Z.eqb_spec pocDiff (- (reorderedFrames d2 + 1))); [by apply inner_ret|].
  destruct (Z.ltb_spec (reorderedFrames d2) pocDiff).
  { case_match eqn:Hmax; [by apply inner_err|]. apply Z.ltb_ge in Hmax.
    apply inner_paused; [apply set_counters_ok; try done; unfold maxReorderedFrames; lia|done]. }
  rewrite go_div_ok by lia. rewrite bind_ret_l. apply inner_ret; [done|done|apply i64_range].
Qed.

Lemma extractInner_ok d au pts :
  dts_ok d -> nalus_ok au -> is_i64 pts -> inner_post d (extractInner d au pts).
Proof.
  intros Hd Hau Hpts. unfold extractInner.
  destruct (scan_au_ok au d None None Hd Hau) as (d1 & r & -> & Hd1 & Hs1 & Hr); [done|]. rewrite bind_ret_l. cbn beta iota.
  destruct r as [[idr nonIDR]|e]; [|by apply inner_err]. destruct (spsp d1) as [s|]; [|by apply inner_err].
  case_match; [by apply inner_ret|]. case_match; [by apply inner_err|].
  destruct idr as [idr|].
  - pose proof Hd1 as (Hre & _ & Hinc & _ & _).
    assert (dts_ok (set_counters 0 (reorderedFrames d1) 0 (pocIncrement d1) d1)) as Hd2
      by (by apply set_counters_ok; try done; unfold is_u32; lia).
    case_match; [by apply inner_ret|]. rewrite go_div_ok by (cbn; lia). rewrite bind_ret_l.
    apply inner_ret; [done|done|apply i64_range].
  - destruct nonIDR as [n|]; [|by apply inner_err].
    destruct (extract_nonIDR_ok d1 s n pts) as (d' & r & E & Hok & Hs & Hi); [done|by eapply Hr|done|].
    exists d', r. split_and!; [done..|by rewrite Hs1|]. intros dts b Hd'. destruct (Hi dts b Hd') as [? Hb].
    split; [done|]. intros ->. rewrite Hb by done. unfold paused_dts. by rewrite (proj2 Hs1).
Qed.

(** One access unit: the extractor returns, stays well formed, and a time it
    accepts is later than the one before. *)
Lemma Extract_ok d au pts :
  dts_ok d -> nalus_ok au -> is_i64 pts ->
  exists d' r, Extract d au pts = Ret (d', r) /\ dts_ok d' /\
    match r with
    | inl dts => prevDTSFilled d' = true /\ prevDTS d' = dts /\ (prevDTSFilled d = true -> prevDTS d < dts) /\
        (dts <= pts \/ dts = paused_dts d)
    | inr _ => same_prev d d'
    end.
Proof.
  intros Hd Hau Hpts. unfold Extract.
  destruct (extractInner_ok d au pts Hd Hau Hpts) as (d1 & r & -> & Hd1 & Hs1 & Hr). rewrite bind_ret_l. cbn beta iota.
  destruct r as [[dts b]|e]; [|by eexists _, _]. destruct (Hr dts b eq_refl) as [Hi Hb].
  case_match eqn:Hle; [by eexists _, _|]. destruct Hs1 as [Ef Ep]. case_match eqn:Hc; [by eexists _, _|].
  eexists _, _. split; [done|]. split; [destruct Hd1 as (? & ? & ? & ? & _); split_and!; first [done|tauto]|].
  split_and!; [done..| |].
  - intros Hf. rewrite Ef, Hf in Hc. cbn in Hc. apply Z.leb_gt in Hc. congruence.
  - destruct b; [right; by apply Hb|left]. cbn in Hle. by apply Z.ltb_ge in Hle.
Qed.

Definition accepted (r : Z + gerror) : option Z := match r with inl dts => Some dts | inr _ => None end.

Lemma extract_all_ok stream : forall d,
  dts_ok d -> Forall (fun x => nalus_ok x.1 /\ is_i64 x.2) stream ->
  exists d' rs, extract_all d stream = Ret (d', rs) /\ length rs = length stream /\
    Sorted.StronglySorted Z.lt (omap accepted rs) /\
    (prevDTSFilled d = true -> Forall (Z.lt (prevDTS d)) (omap accepted rs)) /\
    forall i au pts dts, stream !! i = Some (au, pts) -> rs !! i = Some (inl dts) ->
      dts <= pts \/ dts = i64 (default (prevDTS d) (last (omap accepted (take i rs))) + Millisecond).
Proof.
  induction stream as [|[au pts] stream IH]; intros d Hd Hst.
  { exists d, []. split_and!; [done..|constructor|constructor|]. by intros. }
  inversion Hst as [|? ? [Hau Hpts] Hst']; subst. cbn [extract_all].
  destruct (Extract_ok d au pts Hd Hau Hpts) as (d1 & r & -> & Hd1 & Hr). rewrite bind_ret_l. cbn beta iota.
  destruct (IH d1 Hd1 Hst') as (d2 & rs & -> & Hl & Hs & Hf & Hi). rewrite bind_ret_l.
  exists d2, (r :: rs). split; [done|]. split; [cbn; by rewrite Hl|].
  destruct r as [dts|e]; cbn [omap list_omap accepted].
  - destruct Hr as (Ef & <- & Hlt & Hpt). split_and!.
    + constructor; [done|by apply Hf].
    + intros Hfd. constructor; [by apply Hlt|]. eapply Forall_impl; [by apply Hf|]. intros x. specialize (Hlt Hfd). lia.
    + intros [|i] au' pts' dts'; cbn; [by intros [= <- <-] [= <-]|]. intros Hsi Hri.
      destruct (Hi _ _ _ _ Hsi Hri) as [?| ->]; [by left|right]. rewrite last_cons. by destruct (last _).
  - destruct Hr as [Ef Ep]. rewrite Ep, Ef in *. split_and!; [done|done|].
    intros [|i] au' pts' dts'; cbn; [done|]. apply Hi.
Qed.

(** ** Picture order counts *)

Definition poc_max (s : SPS) : Z := 2 ^ (Log2MaxPicOrderCntLsbMinus4 s + 4).

(** The range the standard gives to [log2_max_pic_order_cnt_lsb_minus4]. *)
Definition sps_range (s : SPS) : Prop := 0 <= Log2MaxPicOrderCntLsbMinus4 s <= 12.

Lemma poc_max_range s : sps_range s -> 16 <= poc_max s <= 65536.
Proof.
  intros Hk. unfold poc_max, sps_range in *. split.
  - change 16 with (2 ^ 4). apply Z.pow_le_mono_r; lia.
  - change 65536 with (2 ^ 16). apply Z.pow_le_mono_r; lia.
Qed.

Lemma shl32_max s : sps_range s -> shl32 (u32 (Log2MaxPicOrderCntLsbMinus4 s + 4)) = poc_max s.
Proof.
  intros Hk. unfold sps_range in Hk. rewrite u32_id by lia. unfold shl32. destruct (Z.ltb_spec (Log2MaxPicOrderCntLsbMinus4 s + 4) 32); [|lia].
  rewrite Z.shiftl_1_l. done.
Qed.

Lemma land_max s a : sps_range s -> Z.land a (u32 (poc_max s - 1)) = a mod poc_max s.
Proof.
  intros Hk. pose proof (poc_max_range s Hk). rewrite u32_id by lia. unfold poc_max, sps_range in *.
  rewrite Z.sub_1_r, <- Z.ones_equiv. apply Z.land_ones. lia.
Qed.

Lemma u32_mod_max s a : sps_range s -> u32 a mod poc_max s = a mod poc_max s.
Proof.
  intros Hk. unfold u32. apply Z.mod_mod_divide.
  unfold poc_max, sps_range in *. exists (2 ^ (28 - Log2MaxPicOrderCntLsbMinus4 s)).
  rewrite <- Z.pow_add_r by lia. replace (28 - _ + _) with 32 by lia. done.
Qed.

Lemma even_mod_max s k : sps_range s -> (2 * k) mod poc_max s mod 2 = 0.
Proof.
  intros Hk. unfold poc_max, sps_range in *.
  replace (Log2MaxPicOrderCntLsbMinus4 s + 4) with (1 + (Log2MaxPicOrderCntLsbMinus4 s + 3)) by lia.
  rewrite Z.pow_add_r by lia. change (2 ^ 1) with 2. rewrite Z.mul_mod_distr_l by lia.
  rewrite Z.mul_comm. apply Z.mod_mul. lia.
Qed.

(** ** Streams without reordering *)

(** The [k]-th picture after an IDR picture, [k] from 1, with its time. *)
Definition in_order (s : SPS) (k : Z) (x : list Z * Z) : Prop :=
  (exists b rest, x.1 = b :: rest /\ nalu_type b = NALUTypeNonIDR) /\
  getPictureOrderCount x.1 s = Ret (Some ((2 * k) mod poc_max s)).

Fixpoint all_in_order (s : SPS) (k t : Z) (slices : list (list Z * Z)) : Prop :=
  match slices with
  | [] => True
  | x :: slices => in_order s k x /\ t < x.2 < 2 ^ 62 /\ all_in_order s (k + 1) x.2 slices
  end.

(** The extractor after [k] pictures in order. *)
Definition in_step (s : SPS) (k t : Z) (d : DTSExtractor) : Prop :=
  spsp d = Some s /\ prevDTSFilled d = true /\ prevDTS d = t /\ expectedPOC d = (2 * k) mod poc_max s /\
  reorderedFrames d = 0 /\ pauseDTS d = 0 /\ pocIncrement d = 2.

Lemma Extract_in_order s k t d x :
  sps_range s -> PicOrderCntType s = 0 -> FrameMbsOnlyFlag s = true -> 0 <= t < 2 ^ 62 ->
  in_step s k t d -> in_order s (k + 1) x -> t < x.2 < 2 ^ 62 ->
  exists d', Extract d [x.1] x.2 = Ret (d', inl x.2) /\ in_step s (k + 1) x.2 d'.
Proof.
  intros Hk Htype Hmbs Ht (Es & Ef & Ep & Epoc & Ere & Epa & Einc) [(b & rest & Ex & Hb) Hpoc] Hx.
  unfold Extract, extractInner. rewrite Ex in *. cbn [scan_au]. change (go_index (b :: rest) 0) with (Ret b).
  rewrite bind_ret_l, Hb. cbn [Z.eqb NALUTypeSPS NALUTypeIDR NALUTypeNonIDR Pos.eqb]. rewrite !bind_ret_l. cbn beta iota.
  rewrite Es, Htype, Hmbs. cbn [Z.eqb negb orb]. unfold extract_nonIDR.
  cbn [set_counters expectedPOC pauseDTS reorderedFrames pocIncrement prevDTS].
  rewrite Epa, Einc, Ere, Epoc, shl32_max, land_max, u32_mod_max by done. rewrite Zplus_mod_idemp_l.
  change (u32 2) with 2. replace (2 * k + 2) with (2 * (k + 1)) by lia. cbn [Z.ltb Z.compare]. rewrite Hpoc, bind_ret_l.
  rewrite even_mod_max by done. cbn [Z.eqb Pos.eqb negb andb].
  cbn [set_counters expectedPOC pauseDTS reorderedFrames pocIncrement prevDTS prevDTSFilled spsp].
  unfold getPictureOrderCountDiff. rewrite Z.sub_diag. change (u32 0) with 0. rewrite Z.land_0_l, shl32_max by done.
  pose proof (poc_max_range s Hk). destruct (Z.ltb_spec (poc_max s / 2) 0); [Z.to_euclidean_division_equations; lia|].
  change (go_div (i32 0) 2) with (Ret 0). rewrite bind_ret_l. change (0 <? - (0 + 1)) with false.
  change (0 =? - (0 + 1)) with false. change (0 <? 0) with false. change (0 + 0 + 1) with 1. cbn iota.
  rewrite go_div_ok, bind_ret_l by done. rewrite bind_ret_l. cbn beta iota. rewrite Z.quot_1_r, Ep.
  assert (2 ^ 62 = 4611686018427387904) as E62 by done.
  rewrite (i64_id (x.2 - t)) by (unfold is_i64; lia). replace (t + (x.2 - t)) with x.2 by lia.
  rewrite i64_id by (unfold is_i64; lia). cbn [negb andb]. destruct (Z.ltb_spec x.2 x.2); [lia|].
  cbn [prevDTSFilled prevDTS set_counters]. rewrite Ef. destruct (Z.leb_spec x.2 (prevDTS d)); [lia|]. cbn [andb].
  eexists. split; [done|]. by split_and!.
Qed.

Lemma extract_in_order s slices : forall k t d,
  sps_range s -> PicOrderCntType s = 0 -> FrameMbsOnlyFlag s = true -> 0 <= t < 2 ^ 62 ->
  in_step s k t d -> all_in_order s (k + 1) t slices ->
  exists d', extract_all d ((fun x => ([x.1], x.2)) <$> slices) = Ret (d', (fun x => inl x.2) <$> slices).
Proof.
  induction slices as [|x slices IH]; intros k t d Hk Hty Hmb Ht Hd Hall; [by eexists|].
  destruct Hall as (Hx & Hlt & Hall). cbn [fmap list_fmap extract_all].
  destruct (Extract_in_order s k t d x) as (d1 & -> & Hd1); [done..|]. rewrite bind_ret_l. cbn beta iota.
  destruct (IH (k + 1) x.2 d1) as [d2 ->]; [done..|lia|done|done|]. rewrite bind_ret_l. by eexists.
Qed.

(** ** Properties *)

(** The difference of two picture order counts, modulo the range the
    SPS gives them, is the representative nearest to zero. *)
Theorem poc_diff_nearest a b s :
  sps_range s ->
  let d := getPictureOrderCountDiff a b s in
  - poc_max s < 2 * d <= poc_max s /\ (d - (a - b)) mod poc_max s = 0.
Proof.
  intros Hk d. pose proof (poc_max_range s Hk). unfold d, getPictureOrderCountDiff.
  rewrite shl32_max, land_max, u32_mod_max by done.
  pose proof (Z.mod_pos_bound (a - b) (poc_max s) ltac:(lia)) as Hm.
  rewrite (i32_id ((a - b) mod poc_max s)), (i32_id (poc_max s)) by lia.
  assert (poc_max s mod 2 = 0) as Heven.
  { unfold poc_max, sps_range in *.
    replace (Log2MaxPicOrderCntLsbMinus4 s + 4) with ((Log2MaxPicOrderCntLsbMinus4 s + 3) + 1) by lia.
    rewrite Z.pow_add_r by lia. apply Z.mod_mul. lia. }
  destruct (Z.ltb_spec (poc_max s / 2) ((a - b) mod poc_max s)).
  - rewrite i32_id by lia. split; [Z.to_euclidean_division_equations; lia|].
    rewrite (Z.mod_eq (a - b)) by lia.
    replace (a - b - poc_max s * ((a - b) / poc_max s) - poc_max s - (a - b)) with ((- ((a - b) / poc_max s) - 1) * poc_max s) by lia.
    apply Z.mod_mul. lia.
  - split; [Z.to_euclidean_division_equations; lia|]. rewrite (Z.mod_eq (a - b)) by lia.
    replace (a - b - poc_max s * ((a - b) / poc_max s) - (a - b)) with (- ((a - b) / poc_max s) * poc_max s) by lia.
    apply Z.mod_mul. lia.
Qed.

(** C27. For any stream of non-empty NAL units, well formed or not, the
    extractor neither panics nor divides by zero and answers every access
    unit; the times it accepts increase strictly, and each is at most its
    presentation time or, when frames are being reordered, one millisecond
    after the last accepted one. *)
Theorem dts_increasing stream :
  Forall (fun x => nalus_ok x.1 /\ is_i64 x.2) stream ->
  exists d rs, extract_all NewH264DTSExtractor stream = Ret (d, rs) /\ length rs = length stream /\
    Sorted.StronglySorted Z.lt (omap accepted rs) /\
    forall i au pts dts, stream !! i = Some (au, pts) -> rs !! i = Some (inl dts) ->
      dts <= pts \/ dts = i64 (default 0 (last (omap accepted (take i rs))) + Millisecond).
Proof.
  intros Hst. destruct (extract_all_ok stream NewH264DTSExtractor) as (d & rs & E & Hl & Hs & _ & Hi); [|done|].
  - unfold dts_ok, maxReorderedFrames, is_u32, is_i64. cbn. lia.
  - by exists d, rs.
Qed.

(** A stream without reordering, that is an SPS with an IDR slice
    followed by slices whose picture order counts go up by two, with
    increasing presentation times: no picture is refused and every decoding
    time is the presentation time. *)
Theorem dts_without_reordering s spsN idr t0 slices :
  sps_range s -> PicOrderCntType s = 0 -> FrameMbsOnlyFlag s = true -> SPS_Unmarshal spsN = Some s ->
  nalu_type <$> head spsN = Some NALUTypeSPS -> nalu_type <$> head idr = Some NALUTypeIDR ->
  0 <= t0 < 2 ^ 62 -> all_in_order s 1 t0 slices ->
  exists d, extract_all NewH264DTSExtractor (([spsN; idr], t0) :: ((fun x => ([x.1], x.2)) <$> slices)) =
    Ret (d, inl t0 :: ((fun x => inl x.2) <$> slices)).
Proof.
  intros Hk Hty Hmb Hs Hsn Hidr Ht Hall. destruct spsN as [|b1 spsN], idr as [|b2 idr]; try done.
  cbn in Hsn, Hidr. injection Hsn as Hsn. injection Hidr as Hidr.
  assert (exists d, Extract NewH264DTSExtractor [b1 :: spsN; b2 :: idr] t0 = Ret (d, inl t0) /\ in_step s 0 t0 d)
    as (d & E & Hd).
  { unfold Extract, extractInner. cbn [scan_au]. change (go_index (b1 :: spsN) 0) with (Ret b1).
    change (go_index (b2 :: idr) 0) with (Ret b2). rewrite !bind_ret_l, Hsn.
    change (NALUTypeSPS =? NALUTypeSPS) with true. cbn iota. rewrite decide_False by done. rewrite Hs.
    rewrite !bind_ret_l, Hidr. change (NALUTypeIDR =? NALUTypeSPS) with false. change (NALUTypeIDR =? NALUTypeIDR) with true.
    cbn iota. rewrite bind_ret_l. cbn beta iota. cbn [spsp set_sps]. rewrite Hty, Hmb. cbn. rewrite Z.ltb_irrefl. eexists. split; [done|].
    by split_and!. }
  cbn [extract_all]. rewrite E, bind_ret_l. cbn beta iota.
  destruct (extract_in_order s slices 0 t0 d) as [d' ->]; [done..|]. rewrite bind_ret_l. by eexists.
Qed.

End Extractor.

(** ** Witnesses *)

(** A toy codec: a slice is its header byte and its picture order count. *)
Definition sps0 : SPS :=
  {| Log2MaxFrameNumMinus4 := 0; PicOrderCntType := 0; Log2MaxPicOrderCntLsbMinus4 := 0; FrameMbsOnlyFlag := true;
     sps_Width := 640; sps_Height := 480; sps_FPS := 25 |}.

Definition toy_codec : H264Codec :=
  {| SPS_Unmarshal := fun l => match l with [_] => Some sps0 | _ => None end;
     EmulationPreventionRemove := fun l => l;
     ReadGolombUnsigned := fun _ pos => Some (0, pos);
     ReadBits := fun l pos _ => match l with b :: _ => Some (b, pos) | [] => None end |}.

Lemma poc_diff_nearest_witness :
  getPictureOrderCountDiff 1 15 sps0 = 2 /\ (getPictureOrderCountDiff 1 15 sps0 - (1 - 15)) mod 16 = 0.
Proof.
  split; [reflexivity|]. apply (poc_diff_nearest 1 15 sps0). unfold sps_range. cbn. lia.
Defined.

Lemma dts_increasing_witness :
  exists d rs, @extract_all toy_codec NewH264DTSExtractor [([[7]; [5]], 0); ([[1; 8]], 120); ([[1; 4]], 40)] = Ret (d, rs) /\
    length rs = 3%nat /\ Sorted.StronglySorted Z.lt (omap accepted rs).
Proof.
  destruct (@dts_increasing toy_codec [([[7]; [5]], 0); ([[1; 8]], 120); ([[1; 4]], 40)]) as (d & rs & E & Hl & Hs & _).
  - repeat constructor; cbn; lia || discriminate.
  - exists d, rs. split; [exact E|]. split; [exact Hl|exact Hs].
Defined.

Lemma dts_without_reordering_witness :
  exists d, @extract_all toy_codec NewH264DTSExtractor [([[7]; [5]], 0); ([[1; 2]], 40); ([[1; 4]], 80)] =
    Ret (d, [inl 0; inl 40; inl 80]).
Proof.
  apply (@dts_without_reordering toy_codec sps0 [7] [5] 0 [([1; 2], 40); ([1; 4], 80)]); try reflexivity.
  - unfold sps_range. cbn. lia.
  - split; [lia|]. reflexivity.
  - cbn [all_in_order]. split_and!; try lia; try done; split; try reflexivity; eexists _, _; split; reflexivity.
Defined.
