(* ===== verification/SegmenterUtils.v ===== *)
(** * SegmenterUtils: NAL units, media times and bandwidth of the segmenter

    The pure parts of [pkg/segmenter/segmenter.go] and [pkg/segmenter/utils.go]:
    splitting a byte stream at its start codes, the conversions between
    nanoseconds and ticks of a media clock, and the bandwidth of a playlist. *)
From S2P Require Import Prelude.
Local Open Scope Z_scope.

(** ** NAL units *)

Definition naluStartCode : list Z := [0; 0; 1].
Definition annexbNALUStartCode : list Z := [0; 0; 0; 1].

(** Is [p] a prefix of [l]. *)
Fixpoint is_prefix (p l : list Z) : bool :=
  match p, l with
  | [], _ => true
  | x :: p, y :: l => (x =? y) && is_prefix p l
  | _ :: _, [] => false
  end.

(** [bytes.Index(l, p)] for a non-empty [p]; [None] for -1. *)
Fixpoint bytes_Index (l p : list Z) : option nat :=
  if is_prefix p l then Some 0%nat
  else match l with [] => None | _ :: l => S <$> bytes_Index l p end.

(** The loop of [split264Nalus] on [nals[start:]]. *)
Fixpoint split_loop (fuel : nat) (rest : list Z) : run (list (list Z)) :=
  match fuel with
  | O => Abort NoFuel
  | S fuel =>
      let cut e offset :=
        au ← split_loop fuel (drop (e + offset) rest);
        Ret (if (0 <? e)%nat then take e rest :: au else au) in
      match rest with
      | [] => Ret []
      | _ :: _ =>
          match bytes_Index rest annexbNALUStartCode with
          | Some e => cut e 4%nat
          | None =>
              match bytes_Index rest naluStartCode with
              | Some e => cut e 3%nat
              | None => Ret [rest]
              end
          end
      end
  end.

Definition split264Nalus (nals : list Z) : run (list (list Z)) := split_loop (S (length nals)) nals.

(** ** Media times *)

Definition Second : Z := 1000000000.

Definition durationGoToMp4 (v timeScale : Z) : Z :=
  let secs := Z.quot v Second in
  let dec := Z.rem v Second in
  u64 (u64 (u64 secs * timeScale) + u64 (u64 dec * timeScale) / Second).

Definition durationMp4ToGo (v timeScale : Z) : run Z :=
  if timeScale =? 0 then go_panic (PMsg "integer divide by zero")
  else
    let secs := v / timeScale in
    let dec := v mod timeScale in
    Ret (i64 (i64 (i64 secs * Second) + Z.quot (i64 (i64 dec * Second)) (i64 timeScale))).

(** [time.Time.Sub] saturates; a time is the nanoseconds since the epoch. *)
Definition time_Sub (a b : Z) : Z :=
  Z.max (-9223372036854775808) (Z.min (a - b) 9223372036854775807).

Definition ntpToDts (accordingDts accordingNtp ntp : Z) : Z := i64 (accordingDts + time_Sub ntp accordingNtp).
Definition dtsToNtp (accordingDts accordingNtp dts : Z) : Z := accordingNtp + i64 (dts - accordingDts).

(** ** The bandwidth of a playlist *)

(** The duration and the byte range length of each segment. *)
Fixpoint bandwidth_loop (segs : list (Z * Z)) (maxBandwidth sizes durations : Z) : run (Z * Z * Z) :=
  match segs with
  | [] => Ret (maxBandwidth, sizes, durations)
  | (duration, len) :: segs =>
      if u64 duration =? 0 then go_panic (PMsg "integer divide by zero")
      else
        let bandwidth := u64 (u64 (8 * len) * Second) / u64 duration in
        bandwidth_loop segs (if maxBandwidth <? bandwidth then bandwidth else maxBandwidth)
          (u64 (sizes + len)) (i64 (durations + duration))
  end.

Definition bandwidth (segs : list (Z * Z)) : run (Z * Z) :=
  match segs with
  | [] => Ret (0, 0)
  | _ :: _ =>
      '(maxBandwidth, sizes, durations) ← bandwidth_loop segs 0 0 0;
      if u64 durations =? 0 then go_panic (PMsg "integer divide by zero")
      else Ret (i64 maxBandwidth, i64 (u64 (u64 (8 * sizes) * Second) / u64 durations))
  end.

(** ** Splitting: lemmas *)

Lemma is_prefix_app p l : is_prefix p (p ++ l) = true.
Proof. induction p as [|x p IH]; cbn; [done|]. by rewrite Z.eqb_refl. Qed.

Lemma bytes_Index_lt l p e : bytes_Index l p = Some e -> (e + length p <= length l)%nat.
Proof.
  revert e. induction l as [|x l IH]; intros e; cbn [bytes_Index].
  - destruct p; cbn; [|done]. intros [= <-]. done.
  - destruct (is_prefix p (x :: l)) eqn:Hp.
    + intros [= <-]. clear IH. revert Hp. generalize (x :: l). clear. induction p as [|y p IH]; intros [|z l]; cbn; try done; try lia.
      rewrite andb_true_iff. intros [_ H]. apply IH in H. lia.
    + destruct (bytes_Index l p) as [e'|]; [|done]. cbn. intros [= <-]. specialize (IH e' eq_refl). cbn. lia.
Qed.

(** Enough fuel: every round consumes a start code; no empty unit results. *)
Lemma split_loop_total fuel : forall rest, (length rest < fuel)%nat ->
  exists au, split_loop fuel rest = Ret au /\ Forall (fun nalu => nalu <> []) au.
Proof.
  induction fuel as [|fuel IH]; intros rest Hl; [lia|]. cbn [split_loop].
  destruct rest as [|x rest]; [by exists []|].
  assert (forall e p, bytes_Index (x :: rest) p = Some e -> p <> [] ->
    exists au, (au ← split_loop fuel (drop (e + length p) (x :: rest));
                Ret (if (0 <? e)%nat then take e (x :: rest) :: au else au)) = Ret au /\ Forall (fun nalu => nalu <> []) au) as Hcut.
  { intros e p He Hp. apply bytes_Index_lt in He. destruct p as [|y p]; [done|]. cbn [length] in *.
    destruct (IH (drop (e + S (length p)) (x :: rest))) as (au & -> & Hau); [rewrite length_drop; cbn [length]; lia|].
    rewrite bind_ret_l. eexists. split; [done|]. case_match eqn:H0; [|done]. constructor; [|done].
    apply Nat.ltb_lt in H0. destruct e; [lia|]. by destruct rest. }
  destruct (bytes_Index _ annexbNALUStartCode) as [e|] eqn:E1; [by apply (Hcut e annexbNALUStartCode)|].
  destruct (bytes_Index _ naluStartCode) as [e|] eqn:E2; [by apply (Hcut e naluStartCode)|].
  eexists. split; [done|]. by repeat constructor.
Qed.

(** A NAL unit as the standard has it: no start code inside, and no zero at
    its end. *)
Fixpoint no_code (n : list Z) : Prop :=
  match n with
  | [] => True
  | x :: n => is_prefix naluStartCode (x :: n) = false /\ no_code n
  end.
Definition nalu_ok (n : list Z) : Prop := no_code n /\ n <> [] /\ last n <> Some 0.

Definition is_code (code : list Z) : Prop := code = annexbNALUStartCode \/ code = naluStartCode.

Lemma nalu_ok_tail x y n : nalu_ok (x :: y :: n) -> nalu_ok (y :: n).
Proof. intros ((_ & Hn) & _ & Hl). by rewrite last_cons_cons in Hl. Qed.

(** No start code begins in a NAL unit, whatever follows it. *)
Lemma code_not_prefix code x n r : is_code code -> nalu_ok (x :: n) -> is_prefix code ((x :: n) ++ r) = false.
Proof.
  intros Hc ((Hp & Hn) & _ & Hl).
  destruct (is_prefix code _) eqn:E; [exfalso|done].
  destruct n as [|y [|z [|w n]]]; destruct Hc as [-> | ->];
    cbn [is_prefix naluStartCode annexbNALUStartCode app last no_code] in *; rewrite ?andb_true_iff, ?Z.eqb_eq in E;
    repeat match goal with H : _ /\ _ |- _ => destruct H end; subst; done.
Qed.

Lemma Index_skip code n r : is_code code -> nalu_ok n -> bytes_Index (n ++ r) code = (fun e => length n + e)%nat <$> bytes_Index r code.
Proof.
  intros Hc. induction n as [|x n IH]; intros Hn; [by destruct Hn as (_ & ? & _)|].
  pose proof (code_not_prefix code x n r Hc Hn) as Hp. change ((x :: n) ++ r) with (x :: n ++ r) in *. cbn [bytes_Index length].
  rewrite Hp. destruct n as [|y n].
  - change ([] ++ r) with r. by destruct (bytes_Index r code).
  - rewrite IH by (by eapply nalu_ok_tail). by destruct (bytes_Index r code).
Qed.

Definition joined (code : list Z) (nalus : list (list Z)) : list Z := concat ((app code) <$> nalus).

Lemma Index_joined code n nalus :
  is_code code -> bytes_Index (joined code (n :: nalus)) code = Some 0%nat.
Proof.
  intros Hc. unfold joined. cbn [fmap list_fmap concat]. rewrite <- app_assoc.
  assert (forall l, bytes_Index (code ++ l) code = Some 0%nat) as H; [|apply H].
  intros l. pose proof (is_prefix_app code l) as Hp. destruct code as [|c code]; [by destruct Hc|].
  change ((c :: code) ++ l) with (c :: code ++ l) in *. cbn [bytes_Index]. by rewrite Hp.
Qed.

(** Units joined with short codes hold no long one. *)
Lemma Index_long_short nalus : Forall nalu_ok nalus -> bytes_Index (joined naluStartCode nalus) annexbNALUStartCode = None.
Proof.
  induction 1 as [|n nalus Hn _ IH]; [done|]. unfold joined in *. cbn [fmap list_fmap concat]. rewrite <- app_assoc.
  set (l := n ++ concat (app naluStartCode <$> nalus)).
  assert (bytes_Index l annexbNALUStartCode = None) as Hi by (unfold l; by rewrite Index_skip, IH by (try done; by left)).
  change (naluStartCode ++ l) with (0 :: 0 :: 1 :: l). cbn [bytes_Index].
  cbn [is_prefix annexbNALUStartCode Z.eqb Pos.eqb andb]. by rewrite Hi.
Qed.

Lemma split_loop_joined code nalus : forall fuel n,
  is_code code -> Forall nalu_ok (n :: nalus) -> (length (n ++ joined code nalus) < fuel)%nat ->
  split_loop fuel (n ++ joined code nalus) = Ret (n :: nalus).
Proof.
  induction nalus as [|n' nalus IH]; intros fuel n Hc Hn Hf; destruct fuel as [|fuel]; try lia; cbn [split_loop];
    inversion Hn as [|? ? Hn1 Hns]; subst; destruct n as [|x n0] eqn:En; try (by destruct Hn1 as (_ & ? & _)); rewrite <- En in *.
  - assert (forall c, is_code c -> bytes_Index (n ++ joined code []) c = None) as Hnone.
    { intros c Hc'. rewrite Index_skip by done. by destruct Hc' as [-> | ->]. }
    rewrite !Hnone by (unfold is_code; tauto). unfold joined. cbn. rewrite app_nil_r. by rewrite En.
  - assert (bytes_Index (n ++ joined code (n' :: nalus)) code = Some (length n)) as Hi.
    { rewrite Index_skip, Index_joined by done. cbn. by rewrite Nat.add_0_r. }
    assert ((0 <? length n)%nat = true) as Hlen by (by rewrite En).
    assert (forall k, k = length code ->
      (au ← split_loop fuel (drop (length n + k) (n ++ joined code (n' :: nalus)));
       Ret (if (0 <? length n)%nat then take (length n) (n ++ joined code (n' :: nalus)) :: au else au)) =
      Ret (n :: n' :: nalus)) as Hcut.
    { intros k ->. replace (drop _ _) with (n' ++ joined code nalus).
      - rewrite IH; [by rewrite bind_ret_l, Hlen, take_app_length|done|done|]. unfold joined in Hf |- *. cbn [fmap list_fmap concat] in Hf. rewrite !length_app in *.
        assert (0 < length code)%nat by (destruct Hc as [-> | ->]; cbn; lia). lia.
      - unfold joined. cbn [fmap list_fmap concat]. rewrite <- app_assoc, (app_assoc n code).
        replace (length n + length code)%nat with (length (n ++ code)) by (by rewrite length_app). by rewrite drop_app_length. }
    rewrite En at 1. cbn [app]. destruct Hc as [-> | ->].
    + rewrite Hi. by apply Hcut.
    + rewrite Index_skip, Index_long_short by (try done; by left). cbn [fmap option_fmap option_map].
      rewrite Hi. by apply Hcut.
Qed.

(** ** Properties *)

(** C40. Splitting a byte stream into NAL units always ends and yields no
    empty unit; and it gives back the units that were joined with start codes, all
    long ones or all short ones, when each is as the standard has it: not empty, without a start code
    inside and without a zero at its end.  (For a stream with both kinds of codes see [mixed_start_codes].) *)
Theorem split_join nals code nalus :
  (exists au, split264Nalus nals = Ret au /\ Forall (fun nalu => nalu <> []) au) /\
  (is_code code -> Forall nalu_ok nalus -> split264Nalus (joined code nalus) = Ret nalus).
Proof.
  split; [apply split_loop_total; lia|]. intros Hc Hn. destruct nalus as [|n nalus]; [done|].
  unfold split264Nalus. set (l := joined code (n :: nalus)).
  assert (exists fuel, S (length l) = S fuel /\ (length (n ++ joined code nalus) < fuel)%nat) as (fuel & -> & Hf).
  { exists (length l). split; [done|]. unfold l, joined. cbn [fmap list_fmap concat]. rewrite !length_app.
    destruct Hc as [-> | ->]; cbn; lia. }
  cbn [split_loop]. pose proof (Index_joined code n nalus Hc) as Hi. fold l in Hi.
  assert (forall k, k = length code -> (au ← split_loop fuel (drop (0 + k) l); Ret (if (0 <? 0)%nat then take 0 l :: au else au)) =
    Ret (n :: nalus)) as Hcut.
  { intros k ->. unfold l, joined. cbn [fmap list_fmap concat Nat.add]. rewrite <- app_assoc, drop_app_length.
    fold (joined code nalus). rewrite split_loop_joined by done. done. }
  destruct l as [|x l0] eqn:El; [by destruct Hc as [-> | ->]|]. rewrite <- El in *.
  destruct Hc as [-> | ->]; [rewrite Hi; by apply Hcut|]. unfold l at 1. rewrite Index_long_short by done. rewrite Hi. by apply Hcut.
Qed.

(** *** Media times *)

Lemma Mp4ToGo_floor v ts :
  0 <= v < 4294967296 -> 0 < ts <= Second -> durationMp4ToGo v ts = Ret (v * Second / ts).
Proof.
  intros Hv Ht. unfold durationMp4ToGo. destruct (Z.eqb_spec ts 0); [lia|]. f_equal. unfold Second in *.
  pose proof (Z.div_mod v ts ltac:(lia)) as Hd. pose proof (Z.mod_pos_bound v ts ltac:(lia)).
  assert (0 <= v / ts <= v) by (split; [apply Z.div_pos; lia|apply Z.div_le_upper_bound; nia]).
  rewrite (i64_id (v / ts)), (i64_id (v mod ts)), (i64_id ts), (i64_id (v / ts * _)), (i64_id (v mod ts * _)) by (unfold is_i64; lia).
  rewrite Z.quot_div_nonneg by lia.
  assert (0 <= v mod ts * 1000000000 / ts <= 1000000000) by (split; [apply Z.div_pos; lia|apply Z.div_le_upper_bound; nia]).
  rewrite i64_id by (unfold is_i64; lia).
  replace (v * 1000000000) with (v / ts * 1000000000 * ts + v mod ts * 1000000000) by nia.
  by rewrite Z.div_add_l by lia.
Qed.

Lemma GoToMp4_floor d ts :
  0 <= d < 9223372036854775808 -> 0 < ts <= Second -> durationGoToMp4 d ts = d * ts / Second.
Proof.
  intros Hd Ht. unfold durationGoToMp4, Second in *.
  rewrite Z.quot_div_nonneg, Z.rem_mod_nonneg by lia.
  pose proof (Z.div_mod d 1000000000 ltac:(lia)) as Hm. pose proof (Z.mod_pos_bound d 1000000000 ltac:(lia)).
  assert (0 <= d / 1000000000 < 9223372037) by (split; [apply Z.div_pos; lia|apply Z.div_lt_upper_bound; lia]).
  rewrite (u64_id (d / _)), (u64_id (d mod _)), (u64_id (d / _ * _)), (u64_id (d mod _ * _)) by nia.
  assert (0 <= d mod 1000000000 * ts / 1000000000 <= ts) by (split; [apply Z.div_pos; nia|apply Z.div_le_upper_bound; nia]).
  rewrite u64_id by nia.
  replace (d * ts) with (d / 1000000000 * ts * 1000000000 + d mod 1000000000 * ts) by nia.
  by rewrite Z.div_add_l by lia.
Qed.

(** C38. The media time of an RTP timestamp is its exact time in nanoseconds
    rounded down, increases strictly with the timestamp, and going back to
    ticks loses at most one. *)
Theorem media_times v v' ts :
  0 <= v < v' -> v' < 4294967296 -> 0 < ts <= Second ->
  exists d d', durationMp4ToGo v ts = Ret d /\ durationMp4ToGo v' ts = Ret d' /\
    d = v * Second / ts /\ d < d' /\ v - 1 <= durationGoToMp4 d ts <= v.
Proof.
  intros Hv Hv' Ht. exists (v * Second / ts), (v' * Second / ts). rewrite !Mp4ToGo_floor by lia.
  assert (0 <= v * Second / ts < 9223372036854775808).
  { unfold Second in *. split; [apply Z.div_pos; lia|]. apply Z.div_lt_upper_bound; nia. }
  rewrite GoToMp4_floor by done. split_and!; [done..| | |].
  - apply Z.lt_le_trans with ((v * Second + ts) / ts).
    + rewrite <- (Z.mul_1_l ts) at 2. rewrite Z.div_add by lia. lia.
    + apply Z.div_le_mono; nia.
  - unfold Second in *. pose proof (Z.div_mod (v * 1000000000) ts ltac:(lia)). pose proof (Z.mod_pos_bound (v * 1000000000) ts ltac:(lia)).
    apply Z.div_le_lower_bound; nia.
  - unfold Second in *. pose proof (Z.mul_div_le (v * 1000000000) ts ltac:(lia)). apply Z.div_le_upper_bound; nia.
Qed.

(** *** Bandwidth *)

Definition total_size (segs : list (Z * Z)) : Z := foldr (fun x n => x.2 + n) 0 segs.
Definition total_duration (segs : list (Z * Z)) : Z := foldr (fun x n => x.1 + n) 0 segs.
(** Bits per second, rounded down. *)
Definition rate (size duration : Z) : Z := 8 * size * Second / duration.
Definition max_rate (segs : list (Z * Z)) (m : Z) : Z := foldl (fun m x => Z.max m (rate x.2 x.1)) m segs.

Definition seg_ok (x : Z * Z) : Prop := 0 <= x.2 /\ 1 < x.1.

Lemma totals_nonneg segs : Forall seg_ok segs -> 0 <= total_size segs /\ 0 <= total_duration segs.
Proof. induction 1 as [|x segs [? ?] _ IH]; cbn; [done|]. unfold total_size, total_duration in IH. lia. Qed.

Lemma rate_range size duration : 0 <= size -> 8 * size * Second < 18446744073709551616 -> 1 < duration ->
  0 <= rate size duration < 9223372036854775808.
Proof. intros. unfold rate, Second in *. split; [apply Z.div_pos; lia|apply Z.div_lt_upper_bound; nia]. Qed.

Lemma bandwidth_loop_spec segs : forall m sz du,
  Forall seg_ok segs -> 0 <= m < 9223372036854775808 -> 0 <= sz -> 0 <= du ->
  8 * (sz + total_size segs) * Second < 18446744073709551616 -> du + total_duration segs < 9223372036854775808 ->
  bandwidth_loop segs m sz du = Ret (max_rate segs m, sz + total_size segs, du + total_duration segs) /\
  0 <= max_rate segs m < 9223372036854775808.
Proof.
  induction segs as [|[d len] segs IH]; intros m sz du Hok Hm Hsz Hdu Hs Hd; cbn [bandwidth_loop].
  { cbn. rewrite !Z.add_0_r. done. }
  inversion Hok as [|? ? [Hlen Hdur] Hok']; subst. cbn [fst snd total_size total_duration foldr] in *.
  fold (total_size segs) (total_duration segs) in *. destruct (totals_nonneg segs Hok') as [Hts Htd]. unfold Second in *.
  rewrite (u64_id d) by lia. destruct (Z.eqb_spec d 0); [lia|].
  rewrite (u64_id (8 * len)), (u64_id (8 * len * _)), (u64_id (sz + len)), (i64_id (du + d)) by (unfold is_i64; lia).
  pose proof (rate_range len d Hlen ltac:(unfold Second; lia) Hdur) as Hr. unfold rate, Second in Hr.
  assert (forall b, (if m <? b then b else m) = Z.max m b) as -> by (intros b; destruct (Z.ltb_spec m b); lia).
  destruct (IH (Z.max m (8 * len * 1000000000 / d)) (sz + len) (du + d)) as [-> Hmr]; [done|unfold Second in *; lia..|].
  change (max_rate ((d, len) :: segs) m) with (max_rate segs (Z.max m (rate len d))). unfold rate, Second.
  split; [|exact Hmr]. by rewrite !Z.add_assoc.
Qed.

(** The bandwidths of a playlist whose segments last more than a
    nanosecond and hold less than 2^64 / (8 * 10^9) bytes together: the
    highest rate of a segment, and the total size over the total duration.
    No division is by zero. *)
Theorem bandwidth_correct segs :
  segs <> [] -> Forall seg_ok segs ->
  8 * total_size segs * Second < 18446744073709551616 -> total_duration segs < 9223372036854775808 ->
  bandwidth segs = Ret (max_rate segs 0, rate (total_size segs) (total_duration segs)).
Proof.
  intros Hne Hok Hs Hd. unfold bandwidth. destruct segs as [|x segs]; [done|]. set (l := x :: segs) in *.
  destruct (bandwidth_loop_spec l 0 0 0) as [-> Hm]; [done|lia..|]. rewrite bind_ret_l. cbn beta iota. rewrite !Z.add_0_l.
  assert (1 < total_duration l) as Hdl.
  { unfold l. inversion Hok as [|? ? [Hx Hy] Hok']; subst. destruct (totals_nonneg segs Hok') as [_ ?].
    cbn [total_duration foldr]. fold (total_duration segs). lia. }
  destruct (totals_nonneg l Hok) as [Hts _]. pose proof (rate_range (total_size l) (total_duration l) Hts Hs Hdl) as Hr.
  rewrite (u64_id (total_duration l)) by lia. destruct (Z.eqb_spec (total_duration l) 0); [lia|].
  unfold Second in *. rewrite (u64_id (8 * _)), u64_id by lia. unfold rate, Second in *.
  rewrite !i64_id by (unfold is_i64; lia). done.
Qed.

(** ** Where the code does not do what it means to *)

(** With start codes of both lengths, as an Annex B stream may have, the unit
    before a long code keeps the short code in front of it: its first byte is
    then not the header of the unit. *)
Theorem mixed_start_codes :
  split264Nalus [0; 0; 1; 0x67; 0; 0; 0; 1; 0x68] = Ret [[0; 0; 1; 0x67]; [0x68]].
Proof. reflexivity. Qed.

(** A negative duration, as the composition offset of a picture whose decoding
    time was put after its presentation time: -1 ms at 90 kHz is -90 ticks, the
    32-bit result is another number. *)
Theorem negative_offset : i32 (durationGoToMp4 (-1000000) 90000) = 1266874799.
Proof. reflexivity. Qed.

(** The average bandwidth of a recording of 2.4 GB at 8 Mbit/s: the product of
    the bits and 10^9 does not fit 64 bits. *)
Theorem average_bandwidth_overflow :
  bandwidth (replicate 400 (6 * Second, 6000000)) = Ret (8000000, 313856) /\
  rate (total_size (replicate 400 (6 * Second, 6000000))) (total_duration (replicate 400 (6 * Second, 6000000))) = 8000000.
Proof. split; reflexivity. Qed.

(** ** Witnesses *)

Lemma split_join_witness :
  split264Nalus (joined annexbNALUStartCode [[0x67; 1]; [0x65; 0; 0; 2]]) = Ret [[0x67; 1]; [0x65; 0; 0; 2]].
Proof.
  apply (split_join [] annexbNALUStartCode [[0x67; 1]; [0x65; 0; 0; 2]]).
  - left. reflexivity.
  - repeat constructor; discriminate.
Defined.

Lemma media_times_witness :
  exists d d', durationMp4ToGo 90001 90000 = Ret d /\ durationMp4ToGo 90002 90000 = Ret d' /\ d < d' /\
    90000 <= durationGoToMp4 d 90000 <= 90001.
Proof.
  destruct (media_times 90001 90002 90000) as (d & d' & E & E' & _ & Hlt & Hb); try (unfold Second; lia).
  exists d, d'. split; [exact E|]. split; [exact E'|]. split; [exact Hlt|exact Hb].
Defined.

Lemma bandwidth_correct_witness : bandwidth [(6 * Second, 600); (3 * Second, 600)] = Ret (1600, 1066).
Proof.
  rewrite (bandwidth_correct [(6 * Second, 600); (3 * Second, 600)]).
  - reflexivity.
  - discriminate.
  - repeat constructor; cbn; lia.
  - reflexivity.
  - reflexivity.
Defined.
