(* ===== verification/Segmenter.v ===== *)
(** * Segmenter: the recorder ([pkg/segmenter/segmenter.go], [storage.go])

    A segmenter turns the RTP packets of the tracks of a publication into
    fragmented MP4 segments, one file per track, with an HLS playlist per
    track and a master playlist.  Tracks point to their segmenter and the
    segmenter to its tracks, so the state is one record [Segmenter] and a
    track is known by its index.  A sample is shared between the queue and the
    part under construction and its duration is set later: samples live in
    [heap] and are known by their address.  [time.Now()] reads the clock [Now],
    once per tick.  An operation returns the state also with an error.  The
    codecs, the MP4 and playlist writers are parameters ([SegLib]), the file
    system answers with errors ([OS]); the file of a track is the list of bytes
    written to it.  Frame rates are only copied and compared. *)
From S2P Require Import SampleBuilder Prelude GoStrings Strconv Dts SegmenterUtils.
Local Open Scope Z_scope.
Local Open Scope list_scope.

(** ** [path.Clean], [path.Join] and [path.Dir] *)

Section Paths.
Local Open Scope string_scope.

Definition slash : Ascii.ascii := Ascii.ascii_of_nat 47.

Fixpoint clean_segments (rooted : bool) (out : list string) (l : list string) : list string :=
  match l with
  | [] => rev out
  | x :: l =>
      if decide (x = "" \/ x = ".") then clean_segments rooted out l
      else if decide (x = "..") then
        match out with
        | y :: out' => if decide (y = "..") then clean_segments rooted (".." :: out) l else clean_segments rooted out' l
        | [] => if rooted then clean_segments rooted out l else clean_segments rooted [".."] l
        end
      else clean_segments rooted (x :: out) l
  end.

Definition path_Clean (p : string) : string :=
  if decide (p = "") then "."
  else
    let rooted := HasPrefix p "/" in
    let body := Join "/" (clean_segments rooted [] (Split slash p)) in
    if rooted then "/" +:+ body else if decide (body = "") then "." else body.

Definition path_Join (l : list string) : string :=
  match filter (fun e => e <> "") l with
  | [] => ""
  | l => path_Clean (Join "/" l)
  end.

(** Everything up to the last slash, cleaned. *)
Definition path_Dir (p : string) : string :=
  path_Clean (match rev (Split slash p) with
              | _ :: (_ :: _) as ds => Join "/" (rev (tl ds)) +:+ "/"
              | _ => ""
              end).
End Paths.

(** ** Data *)

Inductive TrackCodec := TrackCodecNone | TrackCodecH264 | TrackCodecH265 | TrackCodecAV1 | TrackCodecVP8 | TrackCodecVP9 | TrackCodecOpus.

#[global] Instance TrackCodec_eq_dec : EqDecision TrackCodec.
Proof. solve_decision. Defined.

(** [codecs.Codec], with the parameter sets of the H26x ones. *)
Inductive Meta :=
  | MetaNil
  | MetaH264 (sps pps : option (list Z))
  | MetaH265 (vps sps pps : option (list Z))
  | MetaVP9 | MetaAV1 | MetaOpus.

Inductive TrackKind := KindVideo | KindAudio | KindUnknown.

(** A labeled remote track, as far as it is read. *)
Record LabeledTrack := {
  lt_MimeType : string;
  lt_ClockRate : Z;
  lt_Kind : TrackKind;
  lt_SSRC : Z;
  lt_RtxSSRC : Z
}.

Record PartSample := { ps_Duration : Z; PTSOffset : Z; IsNonSyncSample : bool; ps_Payload : list Z }.
Record augmentedSample := { as_ptr : nat; as_dts : Z }.
Record Part := { BaseTime : Z; Samples : list nat }.

Record MediaSegment := {
  seg_Duration : Z; seg_URI : string; seg_DateTime : Z; ByteRangeStart : Z; ByteRangeLength : Z
}.
Record Media := { TargetDuration : Z; MapURI : string; Segments : list MediaSegment; Endlist : bool }.

(** [f] is what was written to the file. *)
Record Storage := {
  f : list Z; offset : Z; partIdx : Z; size : Z; buffer : option (list Z); st_closed : bool
}.

(** The pointers to the bandwidth and the frame rate of a track are its
    index. *)
Record MultivariantVariant := {
  v_URI : string; v_Bandwidth : Z; AverageBandwidth : option nat; Codecs : list string; v_Resolution : string;
  FrameRate : option nat; v_Audio : string
}.
Record MultivariantRendition := { r_URI : string; r_Name : string; r_Default : bool }.

Record Instant := { DTS : Z; NTP : Z }.

Record TrackContext := {
  c_First : bool; c_Last : bool; c_Playlist : Media; InitPath : string; IndexPath : string; SegmentPath : string;
  c_Start : Z; c_End : Z; c_Codec : string; c_Width : Z; c_Height : Z; c_FrameRate : Z; c_AvgBandwidth : Z;
  c_MaxBandwidth : Z; c_Audio : bool
}.
Record SegmentContext := {
  sc_First : bool; sc_Last : bool; sc_Base : string; sc_Path : string; sc_Start : option Instant;
  sc_End : option Instant; sc_Tracks : list TrackContext
}.

(** What the rest of the program and the disk see. *)
Inductive event :=
  | EvIndex (path : string) (content : list Z)
  | EvInit (path : string) (content : list Z)
  | EvSegment (ctx : SegmentContext).

(** ** Parameters *)

Class SegLib := {
  H265SPS_Unmarshal : list Z -> option SPS;
  H265Extractor : Type;
  h265_new : H265Extractor;
  h265_Extract : H265Extractor -> list (list Z) -> Z -> run (H265Extractor * (Z + gerror));
  NewPartSampleH26x : Z -> bool -> list (list Z) -> PartSample + gerror;
  Part_Marshal : Z -> Z -> list PartSample -> list Z * option gerror;
  Init_Marshal : Z -> Z -> Meta -> list Z * option gerror;
  Media_Marshal : Media -> list Z + gerror;
  Multivariant_Marshal : list MultivariantVariant -> list MultivariantRendition -> list Z + gerror;
  codecparams_Marshal : Meta -> string;
  IsHead : TrackCodec -> list Z -> bool;
  IsTail : TrackCodec -> bool -> list Z -> bool;
  Depacketize : TrackCodec -> list Z -> option (list Z)
}.

Class OS := {
  Now : nat -> Z;
  MkdirAll_err : string -> option gerror;
  Create_err : string -> option gerror;
  File_err : option gerror;
  WriteFile_err : string -> option gerror
}.

(** The templates of the directory, the base and the index, executed at a
    time ([calcBaseTemplate] and the like, on the labels of the tracks). *)
Class Templates := {
  calcBaseTemplate : Z -> run string;
  calcIndexTemplate : Z -> run string;
  calcDirectoryTemplate : Z -> run string
}.

Definition fmp4StartDTS : Z := 10 * Second.

(** The zero value of [time.Time]. *)
Definition zero_time : Z := -62135596800000000000.

Definition MakeSureDirOf `{OS} (fpath : string) : option gerror :=
  let dir := path_Dir fpath in if decide (dir = "."%string) then None else MkdirAll_err dir.

(** ** Storage *)

Definition NewStorage `{OS} (fpath : string) : run Storage :=
  match MakeSureDirOf fpath with
  | Some e => err_panic e
  | None =>
      match Create_err fpath with
      | Some e => err_panic e
      | None => Ret {| f := []; offset := 0; partIdx := 0; size := 0; buffer := None; st_closed := false |}
      end
  end.

Definition CurrentPartOffset (st : Storage) : Z := offset st.

Definition NextPart `{OS} (st : Storage) : run (Storage * Z) :=
  match buffer st with
  | None => Ret (st, 0)
  | Some b =>
      match File_err with
      | Some e => err_panic e
      | None =>
          let n := Z.of_nat (length b) in
          Ret ({| f := f st ++ b; offset := u64 (offset st + n); partIdx := partIdx st + 1; size := u64 (size st + n);
                  buffer := None; st_closed := st_closed st |}, n)
      end
  end.

(** Writing through [Writer()]: a closed storage gives a writer that fails. *)
Definition write_to (st : Storage) (w : list Z * option gerror) : Storage * option gerror :=
  if st_closed st then (st, Some (EOther "dumy writer can not be written"))
  else ({| f := f st; offset := offset st; partIdx := partIdx st; size := size st;
           buffer := Some (default [] (buffer st) ++ w.1); st_closed := st_closed st |}, w.2).

Definition Storage_Close `{OS} (st : Storage) : run Storage :=
  '(st, _) ← NextPart {| f := f st; offset := offset st; partIdx := partIdx st; size := size st;
                         buffer := buffer st; st_closed := true |};
  Ret st.

(** ** The state *)

Section Segmenter.
Context `{H264Codec, SegLib, OS, Templates}.

Inductive Extractor := XH264 (d : DTSExtractor) | XH265 (d : H265Extractor).

Record TrackNames := { prefix : string; indexUri : string; segUri : string; initUri : string }.
Definition no_names : TrackNames := {| prefix := ""; indexUri := ""; segUri := ""; initUri := "" |}.

(** What [writeH26x] keeps. *)
Record VideoState := {
  meta : Meta; videoDTSExtractor : option Extractor; keyFramed : bool; forceSwitch : bool;
  width : Z; height : Z; frameRate : Z; resolution : string
}.
(** What [writeVideo] and [flushSegment] keep. *)
Record SegState := {
  t_start : bool; initCreated : bool; beginNTP : Z; startNTP : Z; startDTS : Z; endNTP : Z;
  nextVideoSample : option augmentedSample; currentPart : option Part
}.
Record Output := { playlist : Media; storage : option Storage; maxBandwidth : Z; avgBandwidth : Z }.

Record Track := {
  t_id : Z; lt : LabeledTrack; t_ready : bool; t_codec : TrackCodec; sb : option SampleBuilder; names : TrackNames;
  video : VideoState; seg : SegState; out : Output; t_closed : bool
}.

Definition with_sb x t := {| t_id := t_id t; lt := lt t; t_ready := t_ready t; t_codec := t_codec t; sb := x;
  names := names t; video := video t; seg := seg t; out := out t; t_closed := t_closed t |}.
Definition with_video x t := {| t_id := t_id t; lt := lt t; t_ready := t_ready t; t_codec := t_codec t; sb := sb t;
  names := names t; video := x; seg := seg t; out := out t; t_closed := t_closed t |}.
Definition with_seg x t := {| t_id := t_id t; lt := lt t; t_ready := t_ready t; t_codec := t_codec t; sb := sb t;
  names := names t; video := video t; seg := x; out := out t; t_closed := t_closed t |}.
Definition with_out x t := {| t_id := t_id t; lt := lt t; t_ready := t_ready t; t_codec := t_codec t; sb := sb t;
  names := names t; video := video t; seg := seg t; out := x; t_closed := t_closed t |}.
Definition with_closed t := {| t_id := t_id t; lt := lt t; t_ready := t_ready t; t_codec := t_codec t; sb := sb t;
  names := names t; video := video t; seg := seg t; out := out t; t_closed := true |}.

Record Segmenter := {
  s_ready : bool; tracks : list Track; Variants : list MultivariantVariant; Renditions : list MultivariantRendition;
  base : string; s_indexUri : string; directory : string; segmentDuration : Z; gopSize : Z;
  s_start : option Instant; s_end : option Instant; indexCreated : bool; closing : bool; s_closed : bool;
  releaseHandler : bool; segmentHandler : bool; heap : list PartSample; ticks : nat; events : list event
}.

Definition set_tracks x s := {| s_ready := s_ready s; tracks := x; Variants := Variants s; Renditions := Renditions s;
  base := base s; s_indexUri := s_indexUri s; directory := directory s; segmentDuration := segmentDuration s;
  gopSize := gopSize s; s_start := s_start s; s_end := s_end s; indexCreated := indexCreated s; closing := closing s;
  s_closed := s_closed s; releaseHandler := releaseHandler s; segmentHandler := segmentHandler s; heap := heap s;
  ticks := ticks s; events := events s |}.
Definition set_master rd vs rs s := {| s_ready := rd; tracks := tracks s; Variants := vs; Renditions := rs;
  base := base s; s_indexUri := s_indexUri s; directory := directory s; segmentDuration := segmentDuration s;
  gopSize := gopSize s; s_start := s_start s; s_end := s_end s; indexCreated := indexCreated s; closing := closing s;
  s_closed := s_closed s; releaseHandler := releaseHandler s; segmentHandler := segmentHandler s; heap := heap s;
  ticks := ticks s; events := events s |}.
Definition set_paths st b iu d s := {| s_ready := s_ready s; tracks := tracks s; Variants := Variants s; Renditions := Renditions s;
  base := b; s_indexUri := iu; directory := d; segmentDuration := segmentDuration s;
  gopSize := gopSize s; s_start := st; s_end := s_end s; indexCreated := indexCreated s; closing := closing s;
  s_closed := s_closed s; releaseHandler := releaseHandler s; segmentHandler := segmentHandler s; heap := heap s;
  ticks := ticks s; events := events s |}.
Definition set_end e s := {| s_ready := s_ready s; tracks := tracks s; Variants := Variants s; Renditions := Renditions s;
  base := base s; s_indexUri := s_indexUri s; directory := directory s; segmentDuration := segmentDuration s;
  gopSize := gopSize s; s_start := s_start s; s_end := e; indexCreated := indexCreated s; closing := closing s;
  s_closed := s_closed s; releaseHandler := releaseHandler s; segmentHandler := segmentHandler s; heap := heap s;
  ticks := ticks s; events := events s |}.
Definition set_flags ic cg cd s := {| s_ready := s_ready s; tracks := tracks s; Variants := Variants s; Renditions := Renditions s;
  base := base s; s_indexUri := s_indexUri s; directory := directory s; segmentDuration := segmentDuration s;
  gopSize := gopSize s; s_start := s_start s; s_end := s_end s; indexCreated := ic; closing := cg;
  s_closed := cd; releaseHandler := releaseHandler s; segmentHandler := segmentHandler s; heap := heap s;
  ticks := ticks s; events := events s |}.
Definition set_world h n e s := {| s_ready := s_ready s; tracks := tracks s; Variants := Variants s; Renditions := Renditions s;
  base := base s; s_indexUri := s_indexUri s; directory := directory s; segmentDuration := segmentDuration s;
  gopSize := gopSize s; s_start := s_start s; s_end := s_end s; indexCreated := indexCreated s; closing := closing s;
  s_closed := s_closed s; releaseHandler := releaseHandler s; segmentHandler := segmentHandler s; heap := h;
  ticks := n; events := e |}.

Definition track (s : Segmenter) (i : nat) : run Track :=
  match tracks s !! i with Some t => Ret t | None => go_panic PNilDeref end.
Definition put (i : nat) (t : Track) (s : Segmenter) : Segmenter := set_tracks (<[i := t]> (tracks s)) s.
Definition emit (e : event) (s : Segmenter) : Segmenter := set_world (heap s) (ticks s) (events s ++ [e]) s.
(** [time.Now()] *)
Definition now (s : Segmenter) : Segmenter * Z := (set_world (heap s) (S (ticks s)) (events s) s, Now (ticks s)).

(** [if err != nil { return err }] after a call. *)
Definition and_then (m : run (Segmenter * option gerror)) (k : Segmenter -> run (Segmenter * option gerror)) :=
  '(s, err) ← m; match err with Some e => Ret (s, Some e) | None => k s end.

(** ** Paths and instants *)

(** [IndexUri], [Base], [Directory]: panic before the start. *)
Definition started (s : Segmenter) (x : string) : run string :=
  match s_start s with Some _ => Ret x | None => go_panic (PMsg "not ready yet") end.

Definition fullPath (s : Segmenter) (rPath : string) (withBase : bool) : run string :=
  if withBase then
    b ← started s (base s); d ← started s (directory s); Ret (path_Join [b; d; rPath])
  else d ← started s (directory s); Ret (path_Join [d; rPath]).

Definition setStart (s : Segmenter) (dts ntp : Z) : run Segmenter :=
  match s_start s with
  | Some _ => Ret s
  | None =>
      b ← calcBaseTemplate ntp;
      iu ← calcIndexTemplate ntp;
      d ← calcDirectoryTemplate ntp;
      Ret (set_paths (Some {| DTS := dts; NTP := ntp |}) b iu d s)
  end.

Definition setEnd (s : Segmenter) (dts ntp : Z) : Segmenter :=
  match s_end s with
  | None => set_end (Some {| DTS := dts; NTP := ntp |}) s
  | Some e => if DTS e <? dts then set_end (Some {| DTS := dts; NTP := ntp |}) s else s
  end.

Definition FindTrackBySSID (s : Segmenter) (ssrc : Z) : option nat :=
  fst <$> list_find (fun t => lt_SSRC (lt t) = ssrc \/ lt_RtxSSRC (lt t) = ssrc) (tracks s).

(** ** Contexts for the segment handler *)

Definition IsAudio (t : Track) : bool := match lt_Kind (lt t) with KindAudio => true | _ => false end.
Definition RFC6381Codec (t : Track) : string := codecparams_Marshal (meta (video t)).

Definition Track_CreateContext (s : Segmenter) (t : Track) : run TrackContext :=
  ip ← fullPath s (initUri (names t)) false;
  xp ← fullPath s (indexUri (names t)) false;
  sp ← fullPath s (segUri (names t)) false;
  Ret {| c_First := (length (Segments (playlist (out t))) =? 1)%nat; c_Last := t_closed t; c_Playlist := playlist (out t);
         InitPath := ip; IndexPath := xp; SegmentPath := sp; c_Start := beginNTP (seg t); c_End := endNTP (seg t);
         c_Codec := RFC6381Codec t; c_Width := width (video t); c_Height := height (video t);
         c_FrameRate := frameRate (video t); c_AvgBandwidth := avgBandwidth (out t);
         c_MaxBandwidth := maxBandwidth (out t); c_Audio := IsAudio t |}.

Fixpoint track_contexts (s : Segmenter) (l : list Track) : run (list TrackContext) :=
  match l with
  | [] => Ret []
  | t :: l => c ← Track_CreateContext s t; cs ← track_contexts s l; Ret (c :: cs)
  end.

Definition CreateContext (s : Segmenter) (first : bool) : run SegmentContext :=
  cs ← track_contexts s (tracks s);
  b ← started s (base s);
  iu ← started s (s_indexUri s);
  p ← fullPath s iu false;
  Ret {| sc_First := first; sc_Last := closing s || s_closed s; sc_Base := b; sc_Path := p; sc_Start := s_start s;
         sc_End := s_end s; sc_Tracks := cs |}.

(** ** Becoming ready *)

Definition generatePrefix (l : LabeledTrack) : string :=
  ((match lt_Kind l with KindVideo => "vid" | KindAudio => "aud" | KindUnknown => "unk" end) +:+ "-" +:+ FormatUint (lt_SSRC l))%string.

(** [AnalyzeTrackCodec]: is there a depacketizer, the codec data, the codec. *)
Definition AnalyzeTrackCodec (l : LabeledTrack) : run (bool * Meta * TrackCodec) :=
  let m := ToLower (lt_MimeType l) in
  if decide (m = "video/h264"%string) then Ret (true, MetaH264 None None, TrackCodecH264)
  else if decide (m = "video/h265"%string) then Ret (true, MetaH265 None None None, TrackCodecH265)
  else if decide (m = "video/vp9"%string) then Ret (true, MetaVP9, TrackCodecVP9)
  else if decide (m = "video/av1"%string) then Ret (false, MetaAV1, TrackCodecAV1)
  else if decide (m = "audio/opus"%string) then Ret (true, MetaOpus, TrackCodecOpus)
  else go_panic (PMsg "unsupported media type").

Definition NewTrack (id : Z) (l : LabeledTrack) : Track :=
  {| t_id := id; lt := l; t_ready := false; t_codec := TrackCodecNone; sb := None; names := no_names;
     video := {| meta := MetaNil; videoDTSExtractor := None; keyFramed := false; forceSwitch := false; width := 0;
                 height := 0; frameRate := 0; resolution := "" |};
     seg := {| t_start := false; initCreated := false; beginNTP := zero_time; startNTP := zero_time; startDTS := 0;
               endNTP := zero_time; nextVideoSample := None; currentPart := None |};
     out := {| playlist := {| TargetDuration := 0; MapURI := ""; Segments := []; Endlist := false |}; storage := None;
               maxBandwidth := 0; avgBandwidth := 0 |};
     t_closed := false |}.

Definition NewSegmenter (labeledTracks : list LabeledTrack) (segDuration gop : Z) (release handler : bool) : Segmenter :=
  {| s_ready := false; tracks := NewTrack 1 <$> labeledTracks; Variants := []; Renditions := []; base := ""; s_indexUri := "";
     directory := ""; segmentDuration := segDuration; gopSize := gop; s_start := None; s_end := None;
     indexCreated := false; closing := false; s_closed := false; releaseHandler := release; segmentHandler := handler;
     heap := []; ticks := 0; events := [] |}.

Definition Track_TryReady (s : Segmenter) (t : Track) : run (Track * bool) :=
  if t_ready t then Ret (t, true)
  else if decide (lt_MimeType (lt t) = ""%string) then Ret (t, false)
  else
    '(depacketizer, m, codec) ← AnalyzeTrackCodec (lt t);
    let p := generatePrefix (lt t) in
    let iu := (p +:+ "-init.mp4")%string in
    Ret ({| t_id := t_id t; lt := lt t; t_ready := true; t_codec := codec;
            sb := if (depacketizer : bool) then Some (SampleBuilder.New 16 (lt_ClockRate (lt t)) (releaseHandler s)) else None;
            names := {| prefix := p; indexUri := p +:+ ".m3u8"; segUri := p +:+ "-segments.m4s"; initUri := iu |}%string;
            video := {| meta := m; videoDTSExtractor := videoDTSExtractor (video t); keyFramed := keyFramed (video t);
                        forceSwitch := forceSwitch (video t); width := width (video t); height := height (video t);
                        frameRate := frameRate (video t); resolution := resolution (video t) |};
            seg := seg t;
            out := {| playlist := {| TargetDuration := i64 (segmentDuration s + gopSize s); MapURI := iu; Segments := []; Endlist := false |};
                      storage := storage (out t); maxBandwidth := maxBandwidth (out t); avgBandwidth := avgBandwidth (out t) |};
            t_closed := t_closed t |}, true).

Fixpoint tracks_ready (s : Segmenter) (l : list Track) : run (list Track * nat) :=
  match l with
  | [] => Ret ([], 0%nat)
  | t :: l => '(t, r) ← Track_TryReady s t; '(l, n) ← tracks_ready s l; Ret (t :: l, if (r : bool) then S n else n)
  end.

(** The entries of the master playlist for the tracks, in order. *)
Fixpoint add_master (l : list Track) (vs : list MultivariantVariant) (rs : list MultivariantRendition) :=
  match l with
  | [] => (vs, rs)
  | t :: l =>
      if IsAudio t then
        add_master l vs (rs ++ [{| r_URI := indexUri (names t); r_Name := prefix (names t); r_Default := match rs with [] => true | _ => false end |}])
      else
        add_master l (vs ++ [{| v_URI := indexUri (names t); v_Bandwidth := 0; AverageBandwidth := None; Codecs := [];
                                v_Resolution := ""; FrameRate := None; v_Audio := "" |}]) rs
  end.

Definition with_audio (v : MultivariantVariant) : MultivariantVariant :=
  {| v_URI := v_URI v; v_Bandwidth := v_Bandwidth v; AverageBandwidth := AverageBandwidth v; Codecs := Codecs v;
     v_Resolution := v_Resolution v; FrameRate := FrameRate v; v_Audio := "audio" |}.

Definition TryReady (s : Segmenter) : run (Segmenter * bool) :=
  if s_ready s then Ret (s, true)
  else
    '(ts, readys) ← tracks_ready s (tracks s);
    let s := set_tracks ts s in
    if (readys =? length (tracks s))%nat then
      let '(vs, rs) := add_master (tracks s) (Variants s) (Renditions s) in
      let vs := match rs with [] => vs | _ => with_audio <$> vs end in
      Ret (set_master true vs rs s, true)
    else Ret (s, false).

(** ** Playlists *)

Definition update_variant (s : Segmenter) (i : nat) (t : Track) (v : MultivariantVariant) : MultivariantVariant * bool :=
  let deref {A} (field : Track -> A) (p : option nat) : option A := p ≫= fun j => field <$> tracks s !! j in
  let c1 := negb (v_Bandwidth v =? maxBandwidth (out t)) in
  let bw := if c1 then maxBandwidth (out t) else v_Bandwidth v in
  let c2 := match deref (fun t => avgBandwidth (out t)) (AverageBandwidth v) with
            | Some a => negb (a =? avgBandwidth (out t)) | None => true end in
  let ab := if c2 then Some i else AverageBandwidth v in
  let c3 := match Codecs v with [] => true | _ => false end in
  let cs := if c3 then [RFC6381Codec t] else Codecs v in
  let c4 := negb (bool_decide (v_Resolution v = resolution (video t))) in
  let rs := if c4 then resolution (video t) else v_Resolution v in
  let c5 := match deref (fun t => frameRate (video t)) (FrameRate v) with
            | Some a => negb (a =? frameRate (video t)) | None => true end && negb (frameRate (video t) =? 0) in
  let fr := if c5 then Some i else FrameRate v in
  ({| v_URI := v_URI v; v_Bandwidth := bw; AverageBandwidth := ab; Codecs := cs; v_Resolution := rs; FrameRate := fr;
      v_Audio := v_Audio v |}, c1 || c2 || c3 || c4 || c5).

(** The loop over the tracks; [FindVariantByTrack] is the first variant with
    the URI of the track. *)
Fixpoint update_variants (s : Segmenter) (i : nat) (l : list Track) (vs : list MultivariantVariant) (changed : bool)
    : list MultivariantVariant * bool :=
  match l with
  | [] => (vs, changed)
  | t :: l =>
      match list_find (fun v => v_URI v = indexUri (names t)) vs with
      | None => update_variants s (S i) l vs changed
      | Some (k, v) => let '(v, c) := update_variant s i t v in update_variants s (S i) l (<[k := v]> vs) (changed || c)
      end
  end.

Definition UpdateIndex (s : Segmenter) (forceCreate : bool) : run (Segmenter * option gerror) :=
  let first := negb (indexCreated s) in
  if negb forceCreate && first then Ret (s, None)
  else
    let '(vs, masterChanged) := update_variants s 0 (tracks s) (Variants s) false in
    let s := set_master (s_ready s) vs (Renditions s) s in
    and_then
      (if negb (indexCreated s) || masterChanged then
         match Multivariant_Marshal (Variants s) (Renditions s) with
         | inr e => Ret (s, Some e)
         | inl content =>
             iu ← started s (s_indexUri s);
             fpath ← fullPath s iu true;
             match MakeSureDirOf fpath with
             | Some e => Ret (s, Some e)
             | None =>
                 match WriteFile_err fpath with
                 | Some e => Ret (s, Some e)
                 | None => Ret (set_flags true (closing s) (s_closed s) (emit (EvIndex fpath content) s), None)
                 end
             end
         end
       else Ret (s, None))
      (fun s => if segmentHandler s then ctx ← CreateContext s first; Ret (emit (EvSegment ctx) s, None) else Ret (s, None)).

Definition updateIndex (s : Segmenter) (i : nat) : run (Segmenter * option gerror) :=
  t ← track s i;
  let o := out t in
  let pl := {| TargetDuration := TargetDuration (playlist o); MapURI := MapURI (playlist o); Segments := Segments (playlist o);
               Endlist := t_closed t || Endlist (playlist o) |} in
  '(mb, ab) ← bandwidth ((fun x => (seg_Duration x, ByteRangeLength x)) <$> Segments pl);
  let s := put i (with_out {| playlist := pl; storage := storage o; maxBandwidth := mb; avgBandwidth := ab |} t) s in
  match Media_Marshal pl with
  | inr e => Ret (s, Some e)
  | inl content =>
      fpath ← fullPath s (indexUri (names t)) true;
      match MakeSureDirOf fpath with
      | Some e => Ret (s, Some e)
      | None =>
          match WriteFile_err fpath with
          | Some e => Ret (s, Some e)
          | None => Ret (emit (EvIndex fpath content) s, None)
          end
      end
  end.

Definition writeInit (s : Segmenter) (i : nat) : run (Segmenter * option gerror) :=
  t ← track s i;
  fpath ← fullPath s (initUri (names t)) true;
  st ← NewStorage fpath;
  let '(st, err) := write_to st (Init_Marshal (t_id t) (lt_ClockRate (lt t)) (meta (video t))) in
  st ← Storage_Close st;
  Ret (emit (EvInit fpath (f st)) s, err).

Definition set_initCreated (g : SegState) : SegState :=
  {| t_start := t_start g; initCreated := true; beginNTP := beginNTP g; startNTP := startNTP g; startDTS := startDTS g;
     endNTP := endNTP g; nextVideoSample := nextVideoSample g; currentPart := currentPart g |}.
Definition set_endNTP (ntp : Z) (g : SegState) : SegState :=
  {| t_start := t_start g; initCreated := initCreated g; beginNTP := beginNTP g; startNTP := startNTP g;
     startDTS := startDTS g; endNTP := ntp; nextVideoSample := nextVideoSample g; currentPart := currentPart g |}.
Definition set_storage (st : Storage) (o : Output) : Output :=
  {| playlist := playlist o; storage := Some st; maxBandwidth := maxBandwidth o; avgBandwidth := avgBandwidth o |}.
Definition add_segment (x : MediaSegment) (o : Output) : Output :=
  {| playlist := {| TargetDuration := TargetDuration (playlist o); MapURI := MapURI (playlist o);
                    Segments := Segments (playlist o) ++ [x]; Endlist := Endlist (playlist o) |};
     storage := storage o; maxBandwidth := maxBandwidth o; avgBandwidth := avgBandwidth o |}.

(** The bytes of the part, then the entry of the playlist. *)
Definition write_part (s : Segmenter) (i : nat) (part : Part) (dts : Z) : run (Segmenter * option gerror) :=
  t ← track s i;
  st ← match storage (out t) with
       | Some st => Ret st
       | None => fpath ← fullPath s (segUri (names t)) true; NewStorage fpath
       end;
  let '(st, err) := write_to st (Part_Marshal (t_id t) (BaseTime part) (omap (fun p => heap s !! p) (Samples part))) in
  match err with
  | Some e => Ret (put i (with_out (set_storage st (out t)) t) s, Some e)
  | None =>
      let off := CurrentPartOffset st in
      '(st, n) ← NextPart st;
      let g := seg t in
      Ret (put i (with_out (add_segment {| seg_Duration := i64 (dts - startDTS g); seg_URI := segUri (names t);
                                           seg_DateTime := startNTP g; ByteRangeStart := off; ByteRangeLength := n |}
                              (set_storage st (out t))) t) s, None)
  end.

Definition flushSegment (s : Segmenter) (i : nat) (dts : Z) (forceUpdateInit : bool) : run (Segmenter * option gerror) :=
  t ← track s i;
  match currentPart (seg t) with
  | None => Ret (s, None)
  | Some part =>
      and_then (write_part s i part dts) (fun s =>
      t ← track s i;
      and_then
        (if forceUpdateInit || negb (initCreated (seg t))
         then writeInit (put i (with_seg (set_initCreated (seg t)) t) s) i else Ret (s, None)) (fun s =>
      t ← track s i;
      let ntp := dtsToNtp (startDTS (seg t)) (startNTP (seg t)) dts in
      let s := put i (with_seg (set_endNTP ntp (seg t)) t) s in
      and_then (updateIndex s i) (fun s =>
      let s := setEnd s dts ntp in
      if t_closed t then Ret (s, None) else UpdateIndex s true)))
  end.

(** ** Samples *)

Definition set_next (x : option augmentedSample) (g : SegState) : SegState :=
  {| t_start := t_start g; initCreated := initCreated g; beginNTP := beginNTP g; startNTP := startNTP g;
     startDTS := startDTS g; endNTP := endNTP g; nextVideoSample := x; currentPart := currentPart g |}.
Definition set_part (x : option Part) (g : SegState) : SegState :=
  {| t_start := t_start g; initCreated := initCreated g; beginNTP := beginNTP g; startNTP := startNTP g;
     startDTS := startDTS g; endNTP := endNTP g; nextVideoSample := nextVideoSample g; currentPart := x |}.
Definition set_times (ntp dts : Z) (g : SegState) : SegState :=
  {| t_start := t_start g; initCreated := initCreated g; beginNTP := beginNTP g; startNTP := ntp; startDTS := dts;
     endNTP := endNTP g; nextVideoSample := nextVideoSample g; currentPart := currentPart g |}.
(** [t.start = true], [beginNTP = startNTP]. *)
Definition set_begun (ntp dts : Z) (g : SegState) : SegState :=
  {| t_start := true; initCreated := initCreated g; beginNTP := ntp; startNTP := ntp; startDTS := dts;
     endNTP := endNTP g; nextVideoSample := nextVideoSample g; currentPart := currentPart g |}.

(** The first sample of a track, or the first after it was emptied. *)
Definition first_sample (s : Segmenter) (i : nat) (t : Track) (dts : Z) : run Segmenter :=
  let '(s, ntp) := now s in
  let s := put i (with_seg (set_begun ntp dts (seg t)) t) s in
  if t_start (seg t) then Ret s else setStart s dts ntp.

(** [sample.Duration = d] *)
Definition set_duration (p : nat) (d : Z) (s : Segmenter) : Segmenter :=
  set_world (alter (fun x => {| ps_Duration := d; PTSOffset := PTSOffset x; IsNonSyncSample := IsNonSyncSample x;
                                ps_Payload := ps_Payload x |}) p (heap s)) (ticks s) (events s) s.

(** After a flush: the part of the next segment, already with the next
    sample in it; nothing when the track closes. *)
Definition next_segment (s : Segmenter) (i : nat) (sampleRate : Z) : run Segmenter :=
  t ← track s i;
  match nextVideoSample (seg t) with
  | Some nx =>
      let '(s, ntp) := now s in
      start ← go_deref (s_start s);
      let part := {| BaseTime := durationGoToMp4 (i64 (as_dts nx - DTS start)) sampleRate; Samples := [as_ptr nx] |} in
      Ret (put i (with_seg (set_part (Some part) (set_times ntp (as_dts nx) (seg t))) t) s)
  | None => Ret (put i (with_seg (set_part None (set_times zero_time 0 (seg t))) t) s)
  end.

(** The queued sample leaves the queue: its duration is known. *)
Definition write_queued (s : Segmenter) (i : nat) (randomAccess force : bool) (sample : augmentedSample)
    : run (Segmenter * option gerror) :=
  t ← track s i;
  let '(s, nextDts) := match nextVideoSample (seg t) with
                       | Some nx => (s, as_dts nx)
                       | None => let '(s, ntp) := now s in (s, ntpToDts (startDTS (seg t)) (startNTP (seg t)) ntp)
                       end in
  let sampleRate := lt_ClockRate (lt t) in
  let s := set_duration (as_ptr sample) (u32 (durationGoToMp4 (i64 (nextDts - as_dts sample)) sampleRate)) s in
  part ← match currentPart (seg t) with
         | Some p => Ret p
         | None => start ← go_deref (s_start s);
                   Ret {| BaseTime := durationGoToMp4 (i64 (startDTS (seg t) - DTS start)) sampleRate; Samples := [] |}
         end;
  let part := {| BaseTime := BaseTime part; Samples := Samples part ++ [as_ptr sample] |} in
  let s := put i (with_seg (set_part (Some part) (seg t)) t) s in
  if match nextVideoSample (seg t) with None => true | Some _ => false end
     || randomAccess && (force || (i64 (segmentDuration s * Second) <? i64 (nextDts - startDTS (seg t))))
  then and_then (flushSegment s i nextDts force) (fun s => s ← next_segment s i sampleRate; Ret (s, None))
  else Ret (s, None).

Definition writeVideo (s : Segmenter) (i : nat) (randomAccess force : bool) (sample : option augmentedSample)
    : run (Segmenter * option gerror) :=
  t ← track s i;
  let queue s x := t ← track s i;
                   let s' := put i (with_seg (set_next x (seg t)) t) s in
                   match nextVideoSample (seg t) with
                   | None => Ret (s', None)
                   | Some old => write_queued s' i randomAccess force old
                   end in
  match sample with
  | None => queue s None
  | Some sm =>
      let dts := i64 (as_dts sm + fmp4StartDTS) in
      if i64 (dts - startDTS (seg t)) <? 0 then Ret (s, None)
      else
        s ← match nextVideoSample (seg t) with None => first_sample s i t dts | Some _ => Ret s end;
        queue s (Some {| as_ptr := as_ptr sm; as_dts := dts |})
  end.

(** ** Access units *)

Definition set_h264 (sps pps : option (list Z)) (force : bool) (v : VideoState) : VideoState :=
  {| meta := MetaH264 sps pps; videoDTSExtractor := videoDTSExtractor v; keyFramed := keyFramed v; forceSwitch := force;
     width := width v; height := height v; frameRate := frameRate v; resolution := resolution v |}.
Definition set_h265 (vps sps pps : option (list Z)) (force : bool) (v : VideoState) : VideoState :=
  {| meta := MetaH265 vps sps pps; videoDTSExtractor := videoDTSExtractor v; keyFramed := keyFramed v; forceSwitch := force;
     width := width v; height := height v; frameRate := frameRate v; resolution := resolution v |}.
Definition set_size (p : SPS) (v : VideoState) : VideoState :=
  {| meta := meta v; videoDTSExtractor := videoDTSExtractor v; keyFramed := keyFramed v; forceSwitch := forceSwitch v;
     width := sps_Width p; height := sps_Height p;
     frameRate := if sps_FPS p =? 0 then frameRate v else sps_FPS p;
     resolution := (FormatInt (sps_Width p) +:+ "x" +:+ FormatInt (sps_Height p))%string |}.

(** [bytes.Equal]: nil equals the empty slice. *)
Definition bytes_Equal (a : option (list Z)) (b : list Z) : bool := bool_decide (default [] a = b).

(** What the loop over the units of an H264 access unit finds. *)
Record au_scan := { randomAccess : bool; nonIDRPresent : bool; hasSps : bool; hasPps : bool }.

Fixpoint scan_h264 (v : VideoState) (r : au_scan) (au : list (list Z)) : run (VideoState * (au_scan + gerror)) :=
  match au with
  | [] => Ret (v, inl r)
  | nalu :: au =>
      b ← go_index nalu 0;
      let typ := nalu_type b in
      let '(sps, pps) := match meta v with MetaH264 sps pps => (sps, pps) | _ => (None, None) end in
      if typ =? NALUTypeIDR then
        scan_h264 v {| randomAccess := true; nonIDRPresent := nonIDRPresent r; hasSps := hasSps r; hasPps := hasPps r |} au
      else if typ =? NALUTypeNonIDR then
        scan_h264 v {| randomAccess := randomAccess r; nonIDRPresent := true; hasSps := hasSps r; hasPps := hasPps r |} au
      else if typ =? NALUTypeSPS then
        let r := {| randomAccess := randomAccess r; nonIDRPresent := nonIDRPresent r; hasSps := true; hasPps := hasPps r |} in
        if bytes_Equal sps nalu then scan_h264 v r au
        else
          let v := set_h264 (Some nalu) pps true v in
          match SPS_Unmarshal nalu with
          | None => Ret (v, inr (EOther "sps"))
          | Some p => scan_h264 (set_size p v) r au
          end
      else if typ =? NALUTypePPS then
        let r := {| randomAccess := randomAccess r; nonIDRPresent := nonIDRPresent r; hasSps := hasSps r; hasPps := true |} in
        if bytes_Equal pps nalu then scan_h264 v r au
        else scan_h264 (set_h264 sps (Some nalu) true v) r au
      else scan_h264 v r au
  end.

(** The types of H265 units: IDR_W_RADL 19, IDR_N_LP 20, CRA 21, VPS 32, SPS 33,
    PPS 34. *)
Fixpoint scan_h265 (v : VideoState) (random : bool) (au : list (list Z)) : run (VideoState * (bool + gerror)) :=
  match au with
  | [] => Ret (v, inl random)
  | nalu :: au =>
      b ← go_index nalu 0;
      let typ := Z.land (Z.shiftr b 1) 63 in
      let '(vps, sps, pps) := match meta v with MetaH265 vps sps pps => (vps, sps, pps) | _ => (None, None, None) end in
      if (typ =? 19) || (typ =? 20) || (typ =? 21) then scan_h265 v true au
      else if typ =? 32 then
        if bytes_Equal vps nalu then scan_h265 v random au else scan_h265 (set_h265 (Some nalu) sps pps true v) random au
      else if typ =? 33 then
        if bytes_Equal sps nalu then scan_h265 v random au
        else
          let v := set_h265 vps (Some nalu) pps true v in
          match H265SPS_Unmarshal nalu with
          | None => Ret (v, inr (EOther "sps"))
          | Some p => scan_h265 (set_size p v) random au
          end
      else if typ =? 34 then
        if bytes_Equal pps nalu then scan_h265 v random au else scan_h265 (set_h265 vps sps (Some nalu) true v) random au
      else scan_h265 v random au
  end.

(** The access unit with the parameter sets it lacks; [None] when it is to be
    skipped. *)
Definition complete_au (v : VideoState) (r : au_scan) (au : list (list Z)) : option (list (list Z)) :=
  let '(sps, pps) := match meta v with MetaH264 sps pps => (sps, pps) | _ => (None, None) end in
  if negb (randomAccess r) && negb (nonIDRPresent r) then None
  else if negb (hasSps r) || negb (hasPps r) then
    match (if hasSps r then Some au else match sps with None => None | Some x => Some (au ++ [x]) end) with
    | None => None
    | Some au => Some (if hasPps r then au else match pps with None => au | Some x => au ++ [x] end)
    end
  else Some au.

Definition Extractor_Extract (x : Extractor) (au : list (list Z)) (pts : Z) : run (Extractor * (Z + gerror)) :=
  match x with
  | XH264 d => '(d, r) ← Extract d au pts; Ret (XH264 d, r)
  | XH265 d => '(d, r) ← h265_Extract d au pts; Ret (XH265 d, r)
  end.

(** [allocateDTSExtractor]: nil for the other codecs. *)
Definition allocateDTSExtractor (m : Meta) : option Extractor :=
  match m with
  | MetaH265 _ _ _ => Some (XH265 h265_new)
  | MetaH264 _ _ => Some (XH264 NewH264DTSExtractor)
  | _ => None
  end.

Definition set_extractor (x : option Extractor) (kf fs : bool) (v : VideoState) : VideoState :=
  {| meta := meta v; videoDTSExtractor := x; keyFramed := kf; forceSwitch := fs; width := width v; height := height v;
     frameRate := frameRate v; resolution := resolution v |}.

(** The rest of [writeH26x] once the units are known. *)
Definition write_au (s : Segmenter) (i : nat) (t : Track) (v : VideoState) (random : bool) (au : list (list Z)) (pts : Z)
    : run (Segmenter * option gerror) :=
  let force := random && forceSwitch v in
  let v := set_extractor (videoDTSExtractor v) (keyFramed v) (if force then false else forceSwitch v) v in
  if negb (keyFramed v) && negb random then Ret (put i (with_video v t) s, None)
  else
    let v := if keyFramed v then v else set_extractor (allocateDTSExtractor (meta v)) true (forceSwitch v) v in
    x ← go_deref (videoDTSExtractor v);
    '(x, r) ← Extractor_Extract x au pts;
    let v := set_extractor (Some x) (keyFramed v) (forceSwitch v) v in
    let s := put i (with_video v t) s in
    match r with
    | inr _ => Ret (s, Some (EOther "bad dts"))
    | inl dts =>
        match NewPartSampleH26x (i32 (durationGoToMp4 (i64 (pts - dts)) (lt_ClockRate (lt t)))) random au with
        | inr e => Ret (s, Some e)
        | inl ps =>
            let p := length (heap s) in
            writeVideo (set_world (heap s ++ [ps]) (ticks s) (events s) s) i random force (Some {| as_ptr := p; as_dts := dts |})
        end
    end.

Definition writeH26x (s : Segmenter) (i : nat) (pts : Z) (data : list Z) : run (Segmenter * option gerror) :=
  t ← track s i;
  if negb (lt_ClockRate (lt t) =? 90000) then Ret (s, Some (EOther "h26x video should be 90000 sample rate"))
  else
    au ← split264Nalus data;
    match meta (video t) with
    | MetaH265 _ _ _ =>
        '(v, r) ← scan_h265 (video t) false au;
        match r with
        | inr e => Ret (put i (with_video v t) s, Some e)
        | inl random => write_au s i t v random au pts
        end
    | MetaH264 _ _ =>
        '(v, r) ← scan_h264 (video t) {| randomAccess := false; nonIDRPresent := false; hasSps := false; hasPps := false |} au;
        match r with
        | inr e => Ret (put i (with_video v t) s, Some e)
        | inl r =>
            match complete_au v r au with
            | None => Ret (put i (with_video v t) s, None)
            | Some au => write_au s i t v (randomAccess r) au pts
            end
        end
    | _ => write_au s i t (video t) false au pts
    end.

Definition WriteData (s : Segmenter) (i : nat) (pts : Z) (data : list Z) : run (Segmenter * option gerror) :=
  t ← track s i;
  if t_closed t then Ret (s, Some (EOther "track closed"))
  else match t_codec t with
       | TrackCodecH264 => writeH26x s i pts data
       | _ => Ret (s, Some (EOther "unsupport codec"))
       end.

(** ** Packets and closing *)

Definition WriteRtp (s : Segmenter) (ssrc : Z) (p : rtp_packet) (buf : Z) : run (Segmenter * option gerror) :=
  if s_closed s then Ret (s, Some (EOther "segmenter closed"))
  else match FindTrackBySSID s ssrc with
  | None => Ret (s, Some (EOther "ssrc not found"))
  | Some i =>
      t ← track s i;
      b ← go_deref (sb t);
      let c := t_codec t in
      b ← SampleBuilder.Push (IsHead c) (IsTail c) p buf b;
      '(b, sample) ← SampleBuilder.Pop (Depacketize c) b;
      let s := put i (with_sb (Some b) t) s in
      match sample with
      | None => Ret (s, None)
      | Some sm =>
          pts ← durationMp4ToGo (SampleBuilder.PacketTimestamp sm) (lt_ClockRate (lt t));
          WriteData s i pts (SampleBuilder.Data sm)
      end
  end.

Definition Track_Close (s : Segmenter) (i : nat) : run (Segmenter * option gerror) :=
  t ← track s i;
  if t_closed t then Ret (s, None)
  else
    let s := put i (with_closed t) s in
    if negb (t_ready t) then Ret (s, None)
    else and_then (writeVideo s i false false None) (fun s =>
      t ← track s i;
      st ← match storage (out t) with
           | Some st => st ← Storage_Close st; Ret (Some st)
           | None => Ret None
           end;
      b ← go_deref (sb t);
      b ← SampleBuilder.Close b;
      let o := {| playlist := playlist (out t); storage := st; maxBandwidth := maxBandwidth (out t);
                  avgBandwidth := avgBandwidth (out t) |} in
      Ret (put i (with_sb (Some b) (with_out o t)) s, None)).

Definition CloseTrack (s : Segmenter) (ssrc : Z) : run (Segmenter * option gerror) :=
  match FindTrackBySSID s ssrc with Some i => Track_Close s i | None => Ret (s, None) end.

Fixpoint close_tracks (s : Segmenter) (l : list nat) : run (Segmenter * option gerror) :=
  match l with
  | [] => Ret (s, None)
  | i :: l => and_then (Track_Close s i) (fun s => close_tracks s l)
  end.

(** The error of the last [UpdateIndex] is dropped. *)
Definition Close (s : Segmenter) : run (Segmenter * option gerror) :=
  if s_closed s then Ret (s, None)
  else
    and_then (close_tracks (set_flags (indexCreated s) true (s_closed s) s) (seq 0 (length (tracks s)))) (fun s =>
    s ← match s_start s with
        | None => Ret s
        | Some st =>
            let '(s, ntp) := now s in
            '(s, _) ← UpdateIndex (set_end (Some {| DTS := ntpToDts (DTS st) (NTP st) ntp; NTP := ntp |}) s) false;
            Ret s
        end;
    Ret (set_flags (indexCreated s) false true s, None)).

End Segmenter.
