(* ===== verification/SegmenterProps.v ===== *)
(** * SegmenterProps: what a segmenter writes and announces

    Every operation of [Segmenter] is a sequence of small changes of the
    output of its tracks ([out_step]) and of the master index ([ev_step]); the
    properties are invariants of these changes. *)
From S2P Require Import SampleBuilder Prelude GoStrings Strconv Dts SegmenterUtils Segmenter.
Local Open Scope Z_scope.
Local Open Scope list_scope.

Section Props.
Context `{HC : H264Codec, HL : SegLib, HO : OS, HT : Templates}.

(** ** Small changes *)

(** The storage a track writes to: its own, or a new one. *)
Definition storage_or_new (o : Output) (st : Storage) : Prop :=
  storage o = Some st \/
  storage o = None /\ st = {| f := []; offset := 0; partIdx := 0; size := 0; buffer := None; st_closed := false |}.

Inductive out_step (o o' : Output) : Prop :=
  | OSame : Segments (playlist o') = Segments (playlist o) -> storage o' = storage o -> out_step o o'
  | OFailed st st' w e : storage_or_new o st -> write_to st w = (st', Some e) -> o' = set_storage st' o -> out_step o o'
  | OPart st st1 st2 n w x :
      storage_or_new o st -> write_to st w = (st1, None) -> NextPart st1 = Ret (st2, n) ->
      ByteRangeStart x = offset st1 -> ByteRangeLength x = n -> o' = add_segment x (set_storage st2 o) -> out_step o o'
  | OClose st st' :
      storage o = Some st -> Storage_Close st = Ret st' -> storage o' = Some st' ->
      Segments (playlist o') = Segments (playlist o) -> out_step o o'.

(** A track is only written to once it is ready. *)
Definition t_step (t t' : Track) : Prop :=
  t_ready t' = t_ready t /\ (t_ready t = false -> sb t = None -> sb t' = None /\ out t' = out t) /\
  rtc out_step (out t) (out t').

#[local] Instance t_step_refl : Reflexive t_step.
Proof. intros t. by split_and!. Qed.
#[local] Instance t_step_trans : Transitive t_step.
Proof.
  intros t1 t2 t3 (E1 & H1 & R1) (E2 & H2 & R2). split_and!; [congruence| |by etrans].
  intros Hr Hsb. destruct (H1 Hr Hsb) as [Hs Ho]. destruct H2 as [? ?]; [congruence..|]. split; congruence.
Qed.

Definition segments_of (s : Segmenter) : list SegmentContext :=
  omap (fun e => match e with EvSegment c => Some c | _ => None end) (events s).

(** The times the recorder reads. *)
Definition dated (c : SegmentContext) : Prop := is_Some (sc_Start c) /\ is_Some (sc_End c).

Inductive ev_step (s s' : Segmenter) : Prop :=
  | ESame : indexCreated s' = indexCreated s -> segments_of s' = segments_of s -> segmentHandler s' = segmentHandler s -> ev_step s s'
  | EIndex c : sc_First c = negb (indexCreated s) -> indexCreated s' = true -> segmentHandler s' = segmentHandler s ->
      (segmentHandler s = true -> dated c) ->
      segments_of s' = segments_of s ++ (if segmentHandler s then [c] else []) -> ev_step s s'.

Definition evolves (s s' : Segmenter) : Prop := Forall2 t_step (tracks s) (tracks s') /\ rtc ev_step s s'.

#[local] Instance evolves_refl : Reflexive evolves.
Proof. intros s. by split. Qed.
#[local] Instance evolves_trans : Transitive evolves.
Proof. intros s1 s2 s3 [] []. split; by etrans. Qed.

(** Whatever an operation returns, the state has evolved. *)
Definition keeps (s : Segmenter) (r : run (Segmenter * option gerror)) : Prop :=
  forall s' e, r = Ret (s', e) -> evolves s s'.

Lemma keeps_ret s s' e : evolves s s' -> keeps s (Ret (s', e)).
Proof. by intros Hs ? ? [= <- <-]. Qed.

Lemma keeps_bind {A} s (m : run A) (k : A -> run (Segmenter * option gerror)) :
  (forall a, m = Ret a -> keeps s (k a)) -> keeps s (m ≫= k).
Proof. intros Hk s' e He. destruct m as [a|]; [|done]. by eapply Hk. Qed.

Lemma keeps_weaken s s1 r : evolves s s1 -> keeps s1 r -> keeps s r.
Proof. intros Hs Hr s' e He. etrans; [done|]. by eapply Hr. Qed.

Lemma keeps_and_then s m k :
  keeps s m -> (forall s1, m = Ret (s1, None) -> keeps s1 (k s1)) -> keeps s (and_then m k).
Proof.
  intros Hm Hk. unfold and_then. apply keeps_bind. intros [s1 err] Em. destruct err as [e|].
  - apply keeps_ret. by eapply Hm.
  - eapply keeps_weaken; [by eapply Hm|by apply Hk].
Qed.

(** A change outside tracks, index and events. *)
Lemma evolves_frame s s' :
  tracks s' = tracks s -> indexCreated s' = indexCreated s -> segments_of s' = segments_of s ->
  segmentHandler s' = segmentHandler s -> evolves s s'.
Proof. intros Et Ei Ee Eh. split; [by rewrite Et|]. apply rtc_once. by apply ESame. Qed.

Lemma track_inv s i t : track s i = Ret t -> tracks s !! i = Some t.
Proof. unfold track. case_match; [|done]. by intros [= ->]. Qed.

Lemma track_ret s i t : tracks s !! i = Some t -> track s i = Ret t.
Proof. unfold track. by intros ->. Qed.

Lemma evolves_put s i t t' : tracks s !! i = Some t -> t_step t t' -> evolves s (put i t' s).
Proof.
  intros Hi Ht. split; [|apply rtc_once; by apply ESame].
  cbn. rewrite <- (list_insert_id (tracks s) i t Hi) at 1.
  apply Forall2_insert; [reflexivity|done].
Qed.

(** A change of a track that leaves its output. *)
Lemma t_step_same t t' :
  t_ready t' = t_ready t -> out t' = out t -> (sb t = None -> sb t' = None) -> t_step t t'.
Proof. intros Er Eo Es. split_and!; [done| |by rewrite Eo]. intros _ Hs. split; [by apply Es|done]. Qed.

Lemma t_step_out t t' :
  t_ready t' = true -> t_ready t = true -> out_step (out t) (out t') -> t_step t t'.
Proof. intros Er' Er Ho. split_and!; [congruence|congruence|by apply rtc_once]. Qed.
(** The track is ready, if there is one. *)
Definition ready (s : Segmenter) (i : nat) : Prop := forall t, tracks s !! i = Some t -> t_ready t = true.

Lemma ready_evolves s s' i : evolves s s' -> ready s i -> ready s' i.
Proof.
  intros [Ht _] Hr t' Ht'. destruct (Forall2_lookup_r _ _ _ _ _ Ht Ht') as (t & Hi & Er & _). rewrite Er. by apply Hr.
Qed.

Lemma keeps_track s i k : (forall t, tracks s !! i = Some t -> keeps s (k t)) -> keeps s (t ← track s i; k t).
Proof. intros Hk. apply keeps_bind. intros t Ht. apply Hk. by apply track_inv. Qed.

(** ** The operations *)

Lemma emit_index_evolves s p c : evolves s (emit (EvIndex p c) s).
Proof. apply evolves_frame; try done. unfold segments_of. cbn. by rewrite omap_app, app_nil_r. Qed.

Lemma emit_init_evolves s p c : evolves s (emit (EvInit p c) s).
Proof. apply evolves_frame; try done. unfold segments_of. cbn. by rewrite omap_app, app_nil_r. Qed.

Lemma now_evolves s s' n : now s = (s', n) -> evolves s s'.
Proof. intros [= <- _]. by apply evolves_frame. Qed.

Lemma CreateContext_first s first c :
  CreateContext s first = Ret c -> sc_First c = first /\ is_Some (sc_Start c) /\ sc_End c = s_end s.
Proof.
  unfold CreateContext, started. intros. run_inv. split_and!; [done| |done]. cbn. by destruct (s_start s).
Qed.

Lemma UpdateIndex_keeps s fc : is_Some (s_end s) -> keeps s (UpdateIndex s fc).
Proof.
  intros Hend. unfold UpdateIndex. case_match; [by apply keeps_ret|]. destruct (update_variants _ _ _ _ _) as [vs ch].
  set (s1 := set_master _ _ _ s). intros s' e He. apply bind_ret_inv in He as ([s2 err] & E2 & He).
  assert (tracks s2 = tracks s /\ segments_of s2 = segments_of s /\ segmentHandler s2 = segmentHandler s /\ s_end s2 = s_end s /\
    indexCreated s2 = match err with Some _ => indexCreated s | None => true end) as (Et & Es & Eh & Ee & Hi).
  { revert E2. destruct (negb (indexCreated s1) || ch) eqn:Hc.
    - destruct (Multivariant_Marshal _ _); [|intros E2; by simplify_eq]. intros E2. run_inv.
      destruct (MakeSureDirOf _); [by simplify_eq|]. destruct (WriteFile_err _); [by simplify_eq|].
      simplify_eq. split_and!; try done. unfold segments_of. cbn. by rewrite omap_app, app_nil_r.
    - intros E2. simplify_eq. split_and!; try done. cbn in *. by destruct (indexCreated s). }
  assert (tracks s' = tracks s) as Et'.
  { destruct err; [by simplify_eq|]. destruct (segmentHandler s2); [by run_inv; simplify_eq|by simplify_eq]. }
  split; [by rewrite Et'|].
  apply rtc_once. destruct err as [e'|]; [simplify_eq; by apply ESame|].
  destruct (segmentHandler s2) eqn:Hh.
  - run_inv. simplify_eq. apply CreateContext_first in E as (E & Hs & Hd). eapply (EIndex _ _ _ E); cbn; [done|congruence|by split; [|rewrite Hd, Ee]|].
    rewrite <- Eh. unfold segments_of in *. cbn. by rewrite omap_app, Es.
  - simplify_eq. eapply (EIndex _ _ {| sc_First := negb (indexCreated s); sc_Last := false; sc_Base := ""; sc_Path := "";
        sc_Start := None; sc_End := None; sc_Tracks := [] |}); [done|done|congruence|congruence|].
    rewrite <- Eh. by rewrite app_nil_r.
Qed.

Lemma setEnd_evolves s dts ntp : evolves s (setEnd s dts ntp).
Proof. unfold setEnd. repeat case_match; by apply evolves_frame. Qed.

Lemma setStart_evolves s dts ntp s' : setStart s dts ntp = Ret s' -> evolves s s'.
Proof.
  unfold setStart. case_match; [by intros [= <-]|]. intros. run_inv. by apply evolves_frame.
Qed.

(** Consider the state after the first change of a track in the goal. *)
Ltac step_put :=
  match goal with
  | |- keeps ?s ?k =>
      match k with context [put ?i ?t' s] => apply (keeps_weaken s (put i t' s)); [eapply evolves_put; [eassumption|]|] end
  end.

Lemma updateIndex_keeps s i : ready s i -> keeps s (updateIndex s i).
Proof.
  intros Hr. unfold updateIndex. apply keeps_track. intros t Ht. apply keeps_bind. intros [mb ab] _.
  step_put; [apply t_step_out; [by apply (Hr t)|by apply (Hr t)|by apply OSame]|].
  case_match; [|by apply keeps_ret]. apply keeps_bind. intros fp _. case_match; [by apply keeps_ret|].
  case_match; [by apply keeps_ret|]. apply keeps_ret, emit_index_evolves.
Qed.

Lemma writeInit_keeps s i : keeps s (writeInit s i).
Proof.
  unfold writeInit. apply keeps_track. intros t Ht. apply keeps_bind. intros fp _. apply keeps_bind. intros st _.
  destruct (write_to _ _) as [st' e]. apply keeps_bind. intros st2 _. apply keeps_ret, emit_init_evolves.
Qed.

Lemma NewStorage_inv fp st :
  NewStorage fp = Ret st -> st = {| f := []; offset := 0; partIdx := 0; size := 0; buffer := None; st_closed := false |}.
Proof. unfold NewStorage, err_panic. repeat case_match; by intros [=]. Qed.

Lemma write_part_keeps s i part dts : ready s i -> keeps s (write_part s i part dts).
Proof.
  intros Hr. unfold write_part. apply keeps_track. intros t Ht. pose proof (Hr t Ht) as Hrt.
  apply keeps_bind. intros st Hst.
  assert (storage_or_new (out t) st) as Hso.
  { unfold storage_or_new. destruct (storage (out t)); [injection Hst as ->; by left|right]. split; [done|].
    apply bind_ret_inv in Hst as (fp & _ & Hst). by eapply NewStorage_inv. }
  destruct (write_to st _) as [st1 err] eqn:Hw. destruct err as [e|].
  - apply keeps_ret. eapply evolves_put; [done|]. apply t_step_out; [done..|]. by eapply OFailed.
  - apply keeps_bind. intros [st2 n] Hn. apply keeps_ret. eapply evolves_put; [done|].
    apply t_step_out; [done..|]. eapply (OPart _ _ st st1 st2 n _ _ Hso Hw Hn); [| |cbn [out with_out]; reflexivity]; done.
Qed.

Lemma flushSegment_keeps s i dts force : ready s i -> keeps s (flushSegment s i dts force).
Proof.
  intros Hr. unfold flushSegment. apply keeps_track. intros t0 Ht0. case_match; [|by apply keeps_ret].
  apply keeps_and_then; [by apply write_part_keeps|]. intros s1 E1.
  assert (ready s1 i) as Hr1 by (eapply ready_evolves; [by eapply write_part_keeps|done]).
  apply keeps_track. intros t1 Ht1. match goal with |- keeps _ (and_then ?m _) => assert (keeps s1 m) as Hm end.
  { case_match; [|by apply keeps_ret]. step_put; [by apply t_step_same|]. apply writeInit_keeps. }
  apply keeps_and_then; [exact Hm|]. intros s2 E2.
  assert (ready s2 i) as Hr2 by (eapply ready_evolves; [by eapply Hm|exact Hr1]).
  apply keeps_track. intros t2 Ht2. set (s3 := put i _ s2).
  assert (evolves s2 s3) as He3 by (eapply evolves_put; [done|by apply t_step_same]).
  eapply keeps_weaken; [exact He3|]. apply keeps_and_then; [apply updateIndex_keeps; by eapply ready_evolves|].
  intros s4 _. cbv zeta. destruct (t_closed t2); [apply keeps_ret, setEnd_evolves|].
  eapply keeps_weaken; [apply setEnd_evolves|]. apply UpdateIndex_keeps. unfold setEnd. repeat case_match; by eexists.
Qed.

Lemma next_segment_evolves s i rate s' : next_segment s i rate = Ret s' -> evolves s s'.
Proof.
  unfold next_segment. intros He. run_inv. apply track_inv in E. case_match.
  - destruct (now s) as [s1 ntp] eqn:En. run_inv. etrans; [by eapply now_evolves|]. injection En as <- _.
    eapply evolves_put; [done|by apply t_step_same].
  - run_inv. eapply evolves_put; [done|by apply t_step_same].
Qed.

Lemma first_sample_evolves s i t dts s' : tracks s !! i = Some t -> first_sample s i t dts = Ret s' -> evolves s s'.
Proof.
  intros Ht. unfold first_sample. cbn [now]. set (s1 := put i _ _).
  assert (evolves s s1) as H1.
  { etrans; [by apply (now_evolves s _ (Now (ticks s)))|]. eapply evolves_put; [done|by apply t_step_same]. }
  case_match; [by intros [= <-]|]. intros He. etrans; [exact H1|]. by eapply setStart_evolves.
Qed.

Lemma set_duration_evolves s p d : evolves s (set_duration p d s).
Proof. by apply evolves_frame. Qed.

Lemma write_queued_keeps s i ra force sm : ready s i -> keeps s (write_queued s i ra force sm).
Proof.
  intros Hr. unfold write_queued. apply keeps_track. intros t Ht.
  destruct (match nextVideoSample (seg t) with Some nx => _ | None => _ end) as [s1 nd] eqn:E1.
  assert (evolves s s1 /\ tracks s1 = tracks s) as [H1 Et].
  { destruct (nextVideoSample (seg t)); [by injection E1 as <- _|]. injection E1 as <- _.
    split; [by apply (now_evolves s _ (Now (ticks s)))|done]. }
  eapply keeps_weaken; [exact H1|]. set (s2 := set_duration _ _ s1).
  apply (keeps_weaken s1 s2); [apply set_duration_evolves|].
  assert (tracks s2 !! i = Some t) as Ht2 by (cbn; by rewrite Et).
  apply keeps_bind. intros part _. set (s3 := put i _ s2).
  assert (evolves s2 s3) as H3 by (eapply evolves_put; [exact Ht2|by apply t_step_same]).
  eapply keeps_weaken; [exact H3|]. destruct (_ || _); [|by apply keeps_ret].
  apply keeps_and_then.
  - apply flushSegment_keeps. eapply ready_evolves; [exact H3|]. intros t' Ht'. apply Hr. cbn in Ht'. by rewrite <- Et.
  - intros s4 _. apply keeps_bind. intros s5 Hs5. apply keeps_ret. by eapply next_segment_evolves.
Qed.

Lemma writeVideo_keeps s i ra force sm : ready s i -> keeps s (writeVideo s i ra force sm).
Proof.
  intros Hr. unfold writeVideo. apply keeps_track. intros t Ht.
  assert (forall s1 x, evolves s s1 -> keeps s1 (t ← track s1 i;
    let s' := put i (with_seg (set_next x (seg t)) t) s1 in
    match nextVideoSample (seg t) with None => Ret (s', None) | Some old => write_queued s' i ra force old end)) as Hq.
  { intros s1 x H1. apply keeps_track. intros t1 Ht1. cbv zeta. set (s2 := put i _ s1).
    assert (evolves s1 s2) as H2 by (eapply evolves_put; [exact Ht1|by apply t_step_same]).
    eapply keeps_weaken; [exact H2|]. case_match; [|by apply keeps_ret].
    apply write_queued_keeps. eapply ready_evolves; [|exact Hr]. by etrans. }
  destruct sm as [sm|]; [|by apply Hq]. case_match; [by apply keeps_ret|]. apply keeps_bind. intros s1 Hs1.
  assert (evolves s s1) as H1.
  { destruct (nextVideoSample (seg t)); [by injection Hs1 as <-|]. by eapply first_sample_evolves. }
  eapply keeps_weaken; [exact H1|]. by apply Hq.
Qed.

Lemma write_au_keeps s i t v ra au pts :
  tracks s !! i = Some t -> ready s i -> keeps s (write_au s i t v ra au pts).
Proof.
  intros Ht Hr. unfold write_au. set (v1 := set_extractor _ _ _ v).
  destruct (negb (keyFramed v1) && negb ra).
  { apply keeps_ret. eapply evolves_put; [done|by apply t_step_same]. }
  set (v2 := if keyFramed v1 then _ else _). apply keeps_bind. intros x _. apply keeps_bind. intros [x' r] _.
  set (s1 := put i _ s). assert (evolves s s1) as H1 by (eapply evolves_put; [exact Ht|by apply t_step_same]).
  eapply keeps_weaken; [exact H1|]. destruct r as [dts|]; [|by apply keeps_ret].
  destruct (NewPartSampleH26x _ _ _) as [ps|]; [|by apply keeps_ret].
  set (s2 := set_world _ _ _ s1). assert (evolves s1 s2) as H2 by (by apply evolves_frame).
  eapply keeps_weaken; [exact H2|]. apply writeVideo_keeps. eapply ready_evolves; [|exact Hr]. etrans; [exact H1|exact H2].
Qed.

Lemma writeH26x_keeps s i pts data : ready s i -> keeps s (writeH26x s i pts data).
Proof.
  intros Hr. unfold writeH26x. apply keeps_track. intros t Ht. case_match; [by apply keeps_ret|].
  apply keeps_bind. intros au _.
  assert (forall v e, keeps s (Ret (put i (with_video v t) s, e))) as Hret
    by (intros v e; apply keeps_ret; eapply evolves_put; [done|by apply t_step_same]).
  destruct (meta (video t)); try (by apply write_au_keeps).
  - apply keeps_bind. intros [v [r|e]] _; [|apply Hret]. destruct (complete_au _ _ _); [by apply write_au_keeps|apply Hret].
  - apply keeps_bind. intros [v [r|e]] _; [by apply write_au_keeps|apply Hret].
Qed.

Lemma WriteData_keeps s i pts data : ready s i -> keeps s (WriteData s i pts data).
Proof.
  intros Hr. unfold WriteData. apply keeps_track. intros t Ht. case_match; [by apply keeps_ret|].
  case_match; try (by apply keeps_ret). by apply writeH26x_keeps.
Qed.

(** *** The tracks are well formed *)

(** The segments are consecutive ranges of the bytes from [a] to [b]. *)
Fixpoint tiles (a : Z) (segs : list MediaSegment) (b : Z) : Prop :=
  match segs with
  | [] => a = b
  | x :: segs => ByteRangeStart x = u64 a /\ 0 <= ByteRangeLength x /\ tiles (a + ByteRangeLength x) segs b
  end.

(** The segments cover the file; once it is closed, a prefix of it. *)
Definition out_ok (o : Output) : Prop :=
  match storage o with
  | None => Segments (playlist o) = []
  | Some st =>
      exists n, tiles 0 (Segments (playlist o)) n /\ n <= Z.of_nat (length (f st)) /\
        (st_closed st = false -> n = Z.of_nat (length (f st))) /\ offset st = u64 (Z.of_nat (length (f st)))
  end.

Definition track_ok (t : Track) : Prop :=
  out_ok (out t) /\ (t_ready t = false -> sb t = None /\ storage (out t) = None).

Lemma tiles_snoc segs : forall a b x,
  tiles a segs b -> ByteRangeStart x = u64 b -> 0 <= ByteRangeLength x -> tiles a (segs ++ [x]) (b + ByteRangeLength x).
Proof.
  induction segs as [|y segs IH]; intros a b x; cbn.
  - by intros -> Hs Hl.
  - intros (? & ? & Ht) Hs Hl. split_and!; auto.
Qed.

Lemma storage_or_new_ok o st : out_ok o -> storage_or_new o st ->
  exists n, tiles 0 (Segments (playlist o)) n /\ n <= Z.of_nat (length (f st)) /\
    (st_closed st = false -> n = Z.of_nat (length (f st))) /\ offset st = u64 (Z.of_nat (length (f st))).
Proof.
  unfold out_ok. intros Ho [Hs|[Hs ->]]; rewrite Hs in Ho; [done|]. rewrite Ho. by exists 0.
Qed.

Lemma out_step_ok o o' : out_ok o -> out_step o o' -> out_ok o'.
Proof.
  intros Ho [Es Est|st st' w e Hso Hw ->|st st1 st2 n w x Hso Hw Hn Hx1 Hx2 ->|st st' Est Hc Est' Es].
  - unfold out_ok in *. by rewrite Es, Est.
  - destruct (storage_or_new_ok o st Ho Hso) as (n & Ht & Hle & Hcl & Hof). unfold out_ok. cbn. exists n.
    unfold write_to in Hw. destruct (st_closed st) eqn:Hcs; injection Hw as <- _; cbn; rewrite ?Hcs; split_and!; auto.
  - destruct (storage_or_new_ok o st Ho Hso) as (m & Ht & Hle & Hcl & Hof). unfold write_to in Hw.
    destruct (st_closed st) eqn:Hcs; [done|]. injection Hw as <- _. unfold NextPart in Hn. cbn in Hn.
    destruct File_err as [e|]; [by destruct e|]. injection Hn as <- <-. cbn in Hx1.
    rewrite (Hcl eq_refl) in *. unfold out_ok. cbn. rewrite Hof in *.
    eexists. split; [apply tiles_snoc; [exact Ht|exact Hx1|rewrite Hx2; lia]|].
    rewrite Hx2, !length_app, !Nat2Z.inj_add. split_and!; try done; try lia.
    unfold u64. by rewrite Zplus_mod_idemp_l.
  - unfold out_ok in *. rewrite Est in Ho. destruct Ho as (n & Ht & Hle & Hcl & Hof). rewrite Est', Es.
    unfold Storage_Close, NextPart in Hc. cbn in Hc. destruct (buffer st) as [b|].
    + destruct File_err as [e|]; [by destruct e|]. cbn in Hc. injection Hc as <-. exists n. cbn. rewrite length_app, Nat2Z.inj_add, Hof.
      split_and!; try done; try lia. unfold u64. by rewrite Zplus_mod_idemp_l.
    + injection Hc as <-. by exists n.
Qed.

Lemma t_step_ok t t' : track_ok t -> t_step t t' -> track_ok t'.
Proof.
  intros [Ho Hu] (Er & Hs & Hr). split.
  - clear Hs Hu. induction Hr as [|? ? ? Hstep _ IH]; [done|]. apply IH. by eapply out_step_ok.
  - rewrite Er. intros Hrf. destruct (Hu Hrf) as [Hsb Hst]. destruct (Hs Hrf Hsb) as [? ->]. done.
Qed.

Lemma evolves_ok s s' : Forall track_ok (tracks s) -> evolves s s' -> Forall track_ok (tracks s').
Proof. intros Hok [Ht _]. induction Ht; inversion Hok; subst; constructor; [by eapply t_step_ok|by apply IHHt]. Qed.

(** *** Packets and closing *)

Lemma WriteRtp_keeps s ssrc p buf : Forall track_ok (tracks s) -> keeps s (WriteRtp s ssrc p buf).
Proof.
  intros Hok. unfold WriteRtp. case_match; [by apply keeps_ret|]. destruct (FindTrackBySSID s ssrc) as [i|]; [|by apply keeps_ret].
  apply keeps_track. intros t Ht. apply keeps_bind. intros b Hb. apply keeps_bind. intros b1 _. apply keeps_bind. intros [b2 o] _.
  assert (t_ready t = true) as Hr.
  { destruct (t_ready t) eqn:Hr; [done|]. destruct (Forall_lookup_1 _ _ _ _ Hok Ht) as [_ Hu].
    destruct (Hu Hr) as [Hs _]. by rewrite Hs in Hb. }
  set (s1 := put i _ s).
  assert (evolves s s1) as H1 by (eapply evolves_put; [exact Ht|]; split_and!; cbn; [done|congruence|done]).
  eapply keeps_weaken; [exact H1|]. destruct o as [sm|]; [|by apply keeps_ret]. apply keeps_bind. intros pts _.
  apply WriteData_keeps. eapply ready_evolves; [exact H1|]. intros t' Ht'. by rewrite Ht in Ht'; injection Ht' as <-.
Qed.

Lemma Track_Close_keeps s i : keeps s (Track_Close s i).
Proof.
  unfold Track_Close. apply keeps_track. intros t Ht. case_match; [by apply keeps_ret|].
  set (s1 := put i _ s). assert (evolves s s1) as H1 by (eapply evolves_put; [exact Ht|by apply t_step_same]).
  eapply keeps_weaken; [exact H1|]. destruct (t_ready t) eqn:Hr; [|by apply keeps_ret]. cbn [negb].
  assert (ready s1 i) as Hr1.
  { intros t' Ht'. cbn in Ht'. rewrite list_lookup_insert_eq in Ht' by (by eapply lookup_lt_Some). by injection Ht' as <-. }
  apply keeps_and_then; [by apply writeVideo_keeps|]. intros s2 E2.
  assert (ready s2 i) as Hr2 by (eapply ready_evolves; [by eapply writeVideo_keeps|done]).
  apply keeps_track. intros t2 Ht2. apply keeps_bind. intros st Hst. apply keeps_bind. intros b _. apply keeps_bind. intros b' _.
  apply keeps_ret. eapply evolves_put; [exact Ht2|]. apply t_step_out; [by apply (Hr2 t2)|by apply (Hr2 t2)|]. cbn.
  destruct (storage (out t2)) as [st0|] eqn:Est; run_inv; [|by apply OSame].
  by eapply OClose.
Qed.

Lemma close_tracks_keeps l : forall s, keeps s (close_tracks s l).
Proof.
  induction l as [|i l IH]; intros s; cbn [close_tracks]; [by apply keeps_ret|].
  apply keeps_and_then; [apply Track_Close_keeps|]. intros s1 _. apply IH.
Qed.

Lemma Close_keeps s : keeps s (Close s).
Proof.
  unfold Close. case_match; [by apply keeps_ret|]. set (s1 := set_flags _ _ _ s).
  assert (evolves s s1) as H1 by (by apply evolves_frame). eapply keeps_weaken; [exact H1|].
  apply keeps_and_then; [apply close_tracks_keeps|]. intros s2 _. apply keeps_bind. intros s3 E3. apply keeps_ret.
  assert (evolves s2 s3) as H3.
  { destruct (s_start s2) as [st|]; [|by injection E3 as <-]. cbn [now] in E3. apply bind_ret_inv in E3 as ([s4 e] & E4 & [= <-]).
    etrans; [|refine (UpdateIndex_keeps _ _ _ _ _ E4); by eexists]. by apply evolves_frame. }
  etrans; [exact H3|]. by apply evolves_frame.
Qed.

(** *** Becoming ready *)

Lemma Track_TryReady_ok s t t' r : track_ok t -> Track_TryReady s t = Ret (t', r) -> track_ok t'.
Proof.
  intros [Ho Hu]. unfold Track_TryReady. destruct (t_ready t) eqn:Hr; [intros [= <- _]; split; [done|by rewrite Hr]|].
  case_decide; [intros [= <- _]; split; [done|by rewrite Hr]|]. destruct (Hu eq_refl) as [Hsb Hst]. intros He.
  apply bind_ret_inv in He as ([[d m] c] & _ & [= <- _]). split; [|done]. unfold out_ok. cbn. by rewrite Hst.
Qed.

Lemma tracks_ready_ok s l : forall l' n, Forall track_ok l -> tracks_ready s l = Ret (l', n) -> Forall track_ok l'.
Proof.
  induction l as [|t l IH]; cbn [tracks_ready]; intros l' n Hl He; [by injection He as <- _|].
  inversion Hl as [|? ? Ht Hl']; subst. apply bind_ret_inv in He as ([t' r] & E1 & He).
  apply bind_ret_inv in He as ([l1 k] & E2 & [= <- _]). constructor; [by eapply Track_TryReady_ok|by eapply IH].
Qed.

Lemma TryReady_ok s s' b :
  Forall track_ok (tracks s) -> TryReady s = Ret (s', b) -> Forall track_ok (tracks s') /\ rtc ev_step s s'.
Proof.
  intros Hok. unfold TryReady. case_match; [by intros [= <- _]|]. intros He.
  apply bind_ret_inv in He as ([ts n] & E1 & He). pose proof (tracks_ready_ok _ _ _ _ Hok E1) as Hts.
  case_match; [destruct (add_master _ _ _) as [vs rs]|]; injection He as <- _; (split; [exact Hts|apply rtc_once; by apply ESame]).
Qed.

(** ** Runs *)

Inductive seg_op :=
  | OpReady
  | OpWrite (ssrc : Z) (p : rtp_packet) (buf : Z)
  | OpCloseTrack (ssrc : Z)
  | OpClose.

Definition seg_apply (op : seg_op) (s : Segmenter) : run (Segmenter * option gerror) :=
  match op with
  | OpReady => '(s, _) ← TryReady s; Ret (s, None)
  | OpWrite ssrc p buf => WriteRtp s ssrc p buf
  | OpCloseTrack ssrc => CloseTrack s ssrc
  | OpClose => Close s
  end.

Definition with_lt (l : LabeledTrack) (t : Track) : Track :=
  {| t_id := t_id t; lt := l; t_ready := t_ready t; t_codec := t_codec t; sb := sb t; names := names t;
     video := video t; seg := seg t; out := out t; t_closed := t_closed t |}.

(** One operation, whatever it returns, or a change of what a remote track
    says of itself. *)
Inductive seg_step (s : Segmenter) : Segmenter -> Prop :=
  | SOp op s' e : seg_apply op s = Ret (s', e) -> seg_step s s'
  | SRemote i t l : tracks s !! i = Some t -> seg_step s (put i (with_lt l t) s).

Lemma seg_apply_ok op s s' e :
  Forall track_ok (tracks s) -> seg_apply op s = Ret (s', e) -> Forall track_ok (tracks s') /\ rtc ev_step s s'.
Proof.
  intros Hok He. destruct op; cbn in He.
  - apply bind_ret_inv in He as ([s1 b] & E1 & [= <- _]). by eapply TryReady_ok.
  - pose proof (WriteRtp_keeps _ _ _ _ Hok _ _ He) as Hv. split; [by eapply evolves_ok|apply Hv].
  - assert (evolves s s') as Hv by (unfold CloseTrack in He; case_match; [by eapply Track_Close_keeps|by injection He as <- _]).
    split; [by eapply evolves_ok|apply Hv].
  - pose proof (Close_keeps _ _ _ He) as Hv. split; [by eapply evolves_ok|apply Hv].
Qed.

(** The first announcement, if any, says so, and no other does. *)
Definition firsts_ok (s : Segmenter) : Prop :=
  if segmentHandler s then
    if indexCreated s then exists c cs, segments_of s = c :: cs /\ sc_First c = true /\ Forall (fun c => sc_First c = false) cs
    else segments_of s = []
  else segments_of s = [].

Lemma ev_step_dated s s' : Forall dated (segments_of s) -> ev_step s s' -> Forall dated (segments_of s').
Proof.
  intros Hs [Ei Es Eh|c Hc Ei Eh Hd Es]; rewrite Es; [done|]. apply Forall_app. split; [done|].
  destruct (segmentHandler s); [|done]. constructor; [by apply Hd|done].
Qed.

Lemma ev_step_ok s s' : firsts_ok s -> ev_step s s' -> firsts_ok s'.
Proof.
  unfold firsts_ok. intros Hs [Ei Es Eh|c Hc Ei Eh _ Es]; [by rewrite Ei, Es, Eh|]. rewrite Ei, Es, Eh.
  destruct (segmentHandler s); [|by rewrite app_nil_r]. destruct (indexCreated s).
  - destruct Hs as (c0 & cs & -> & Hf & Hcs). exists c0, (cs ++ [c]). split_and!; [done..|].
    apply Forall_app. by split; [|constructor].
  - rewrite Hs. by exists c, [].
Qed.

Lemma reachable_ok lts sd gop rel h s :
  rtc seg_step (NewSegmenter lts sd gop rel h) s -> Forall track_ok (tracks s) /\ firsts_ok s /\ Forall dated (segments_of s).
Proof.
  revert s. apply (rtc_ind_r (R := seg_step) (fun s => Forall track_ok (tracks s) /\ firsts_ok s /\ Forall dated (segments_of s)) (NewSegmenter lts sd gop rel h)).
  - split; [|split; [by unfold firsts_ok; cbn; destruct h|constructor]]. cbn. apply Forall_fmap, Forall_true. intros l. by split.
  - intros s1 s2 _ Hst (Hok & Hf & Hd). destruct Hst as [op s2 e He|i t l Ht].
    + destruct (seg_apply_ok _ _ _ _ Hok He) as [Hok2 Hev]. split; [done|].
      clear -Hf Hd Hev. induction Hev as [|? ? ? Hstep _ IH]; [done|]. apply IH; [by eapply ev_step_ok|by eapply ev_step_dated].
    + split; [|done]. cbn. apply Forall_insert; [done|]. by apply (Forall_lookup_1 _ _ _ _ Hok Ht).
Qed.

(** ** A flush *)

(** [s'] differs from [s] only in track [i], and [R t t'] there. *)
Definition changes (i : nat) (R : Track -> Track -> Prop) (s s' : Segmenter) : Prop :=
  (forall j, j <> i -> tracks s' !! j = tracks s !! j) /\
  forall t, tracks s !! i = Some t -> exists t', tracks s' !! i = Some t' /\ R t t'.

Lemma changes_trans i (R1 R2 R3 : Track -> Track -> Prop) s1 s2 s3 :
  changes i R1 s1 s2 -> changes i R2 s2 s3 -> (forall t1 t2 t3, R1 t1 t2 -> R2 t2 t3 -> R3 t1 t3) -> changes i R3 s1 s3.
Proof.
  intros [Ho1 H1] [Ho2 H2] HR. split; [intros j Hj; by rewrite Ho2, Ho1|].
  intros t1 Ht1. destruct (H1 t1 Ht1) as (t2 & Ht2 & HR1). destruct (H2 t2 Ht2) as (t3 & Ht3 & HR2). eauto.
Qed.

Lemma changes_put i (R : Track -> Track -> Prop) s t t' : tracks s !! i = Some t -> R t t' -> changes i R s (put i t' s).
Proof.
  intros Ht HR. split; [intros j Hj; cbn; by rewrite list_lookup_insert_ne|]. intros t0 Ht0. rewrite Ht in Ht0. injection Ht0 as <-.
  exists t'. split; [|done]. cbn. apply list_lookup_insert_eq. by eapply lookup_lt_Some.
Qed.

Lemma changes_none i (R : Track -> Track -> Prop) s s' : tracks s' = tracks s -> (forall t, R t t) -> changes i R s s'.
Proof. intros E HR. split; [by rewrite E|]. rewrite E. eauto. Qed.

(** Nothing of the timing and the output changed but the bandwidths, the end
    mark and the end time. *)
Definition same_media (t t' : Track) : Prop :=
  Segments (playlist (out t')) = Segments (playlist (out t)) /\ storage (out t') = storage (out t) /\ lt t' = lt t /\
  t_closed t' = t_closed t /\ t_ready t' = t_ready t /\ startDTS (seg t') = startDTS (seg t) /\ startNTP (seg t') = startNTP (seg t) /\
  nextVideoSample (seg t') = nextVideoSample (seg t) /\ t_start (seg t') = t_start (seg t) /\
  (Endlist (playlist (out t)) = true -> Endlist (playlist (out t')) = true).

#[local] Instance same_media_refl : Reflexive same_media.
Proof. intros t. by split_and!. Qed.
#[local] Instance same_media_trans : Transitive same_media.
Proof.
  intros t1 t2 t3 (E1 & E2 & E3 & E4 & E5 & E6 & E7 & E8 & E9 & E10) (F1 & F2 & F3 & F4 & F5 & F6 & F7 & F8 & F9 & F10).
  split_and!; try congruence. auto.
Qed.

Lemma UpdateIndex_frame s fc s' e :
  UpdateIndex s fc = Ret (s', e) -> tracks s' = tracks s /\ s_start s' = s_start s /\ heap s' = heap s.
Proof.
  unfold UpdateIndex. case_match; [by intros [= <- _]|]. destruct (update_variants _ _ _ _ _) as [vs ch].
  intros He. apply bind_ret_inv in He as ([s2 err] & E2 & He).
  assert (tracks s2 = tracks s /\ s_start s2 = s_start s /\ heap s2 = heap s) as (Et & Es & Eh).
  { revert E2. destruct (negb _ || ch); [|by intros [= <- _]]. destruct (Multivariant_Marshal _ _); [|by intros [= <- _]].
    intros E2. run_inv. destruct (MakeSureDirOf _); [by simplify_eq|]. destruct (WriteFile_err _); by simplify_eq. }
  destruct err; [by simplify_eq|]. case_match; [run_inv|]; by simplify_eq.
Qed.

Lemma setEnd_frame s dts ntp :
  tracks (setEnd s dts ntp) = tracks s /\ s_start (setEnd s dts ntp) = s_start s /\ heap (setEnd s dts ntp) = heap s.
Proof. unfold setEnd. by repeat case_match. Qed.

(** The part on disk and in the playlist. *)
Definition flushed (bytes : list Z) (dts : Z) (t t' : Track) : Prop :=
  exists st x,
    storage_or_new (out t) st /\ storage (out t') = Some {|
      f := f st ++ default [] (buffer st) ++ bytes;
      offset := u64 (offset st + Z.of_nat (length (default [] (buffer st) ++ bytes))); partIdx := partIdx st + 1;
      size := u64 (size st + Z.of_nat (length (default [] (buffer st) ++ bytes))); buffer := None; st_closed := false |} /\
    Segments (playlist (out t')) = Segments (playlist (out t)) ++ [x] /\
    seg_Duration x = i64 (dts - startDTS (seg t)) /\ seg_DateTime x = startNTP (seg t) /\ ByteRangeStart x = offset st /\
    ByteRangeLength x = Z.of_nat (length (default [] (buffer st) ++ bytes)) /\
    lt t' = lt t /\ t_closed t' = t_closed t /\ t_ready t' = t_ready t /\ startDTS (seg t') = startDTS (seg t) /\
    nextVideoSample (seg t') = nextVideoSample (seg t) /\ t_start (seg t') = t_start (seg t) /\
    (Endlist (playlist (out t)) = true -> Endlist (playlist (out t')) = true).

Lemma flushed_same bytes dts t t1 t2 : flushed bytes dts t t1 -> same_media t1 t2 -> flushed bytes dts t t2.
Proof.
  intros (st & x & Hs & E1 & E2 & E3 & E4 & E5 & E6 & E7 & E8 & E9 & E10 & E11 & E12 & E13) (F1 & F2 & F3 & F4 & F5 & F6 & F7 & F8 & F9 & F10).
  exists st, x. split_and!; try congruence. auto.
Qed.

Lemma write_part_flushed s i part dts s' t :
  tracks s !! i = Some t -> write_part s i part dts = Ret (s', None) ->
  s_start s' = s_start s /\ heap s' = heap s /\
  changes i (flushed (Part_Marshal (t_id t) (BaseTime part) (omap (fun p => heap s !! p) (Samples part))).1 dts) s s'.
Proof.
  intros Ht. unfold write_part, track. rewrite Ht, bind_ret_l. intros He. apply bind_ret_inv in He as (st & Hst & He).
  assert (storage_or_new (out t) st) as Hso.
  { unfold storage_or_new. destruct (storage (out t)); [injection Hst as ->; by left|right]. split; [done|].
    apply bind_ret_inv in Hst as (fp & _ & Hst). by eapply NewStorage_inv. }
  unfold write_to in He. destruct (st_closed st) eqn:Hcs; [by simplify_eq|].
  destruct (Part_Marshal _ _ _) as [bytes err] eqn:Hm. cbn [fst snd] in He. destruct err; [by simplify_eq|].
  apply bind_ret_inv in He as ([st2 n] & Hn & He). unfold NextPart in Hn. cbn in Hn.
  destruct File_err as [e|]; [by destruct e|]. simplify_eq. split_and!; [done..|].
  eapply changes_put; [exact Ht|]. cbn [fst]. eexists st, _. split; [exact Hso|]. cbn. by split_and!.
Qed.

Lemma writeInit_frame s i s' e : writeInit s i = Ret (s', e) -> tracks s' = tracks s /\ s_start s' = s_start s /\ heap s' = heap s.
Proof.
  unfold writeInit. intros He. apply bind_ret_inv in He as (t & _ & He). apply bind_ret_inv in He as (fp & _ & He).
  apply bind_ret_inv in He as (st & _ & He). destruct (write_to _ _) as [st1 err].
  apply bind_ret_inv in He as (st2 & _ & [= <- _]). done.
Qed.

Lemma updateIndex_media s i s' :
  updateIndex s i = Ret (s', None) ->
  s_start s' = s_start s /\ heap s' = heap s /\
  changes i (fun t t' => same_media t t' /\ (t_closed t = true -> Endlist (playlist (out t')) = true)) s s'.
Proof.
  unfold updateIndex. intros He. apply bind_ret_inv in He as (t & Ht & He). apply track_inv in Ht.
  apply bind_ret_inv in He as ([mb ab] & _ & He). destruct (Media_Marshal _); [|by simplify_eq].
  apply bind_ret_inv in He as (fp & _ & He). destruct (MakeSureDirOf _); [by simplify_eq|].
  destruct (WriteFile_err _); [by simplify_eq|]. simplify_eq. split_and!; [done..|].
  match goal with |- changes _ _ _ (emit _ (put _ ?t' _)) => set (t1 := t') end.
  assert (same_media t t1 /\ (t_closed t = true -> Endlist (playlist (out t1)) = true)) as Hm.
  { split; [split_and!; try done; cbn; intros ->; apply orb_true_r|]. cbn. by intros ->. }
  destruct (changes_put i (fun t t' => same_media t t' /\ (t_closed t = true -> Endlist (playlist (out t')) = true)) s t t1 Ht Hm)
    as [Ho Hi]. by split.
Qed.

Lemma flushSegment_flushed s i dts force s' t part :
  tracks s !! i = Some t -> currentPart (seg t) = Some part -> flushSegment s i dts force = Ret (s', None) ->
  s_start s' = s_start s /\ heap s' = heap s /\
  changes i (fun t1 t2 => flushed (Part_Marshal (t_id t) (BaseTime part) (omap (fun p => heap s !! p) (Samples part))).1 dts t1 t2 /\
    (t_closed t1 = true -> Endlist (playlist (out t2)) = true)) s s'.
Proof.
  intros Ht Hp. unfold flushSegment, and_then. rewrite (track_ret s i t Ht), bind_ret_l, Hp. intros He.
  apply bind_ret_inv in He as ([s1 e1] & E1 & He). destruct e1; [by simplify_eq|].
  destruct (write_part_flushed s i part dts s1 t Ht E1) as (St1 & Hh1 & C1).
  apply bind_ret_inv in He as (t1 & Ht1 & He). apply track_inv in Ht1.
  apply bind_ret_inv in He as ([s2 e2] & E2 & He). destruct e2; [by simplify_eq|].
  assert (s_start s2 = s_start s1 /\ heap s2 = heap s1 /\ changes i same_media s1 s2) as (St2 & Hh2 & C2).
  { destruct (force || _); [|injection E2 as <-; split_and!; [done..|by apply changes_none]].
    apply writeInit_frame in E2 as (Et & Es & Eh). split_and!; [done..|].
    destruct (changes_put i same_media s1 t1 (with_seg (set_initCreated (seg t1)) t1) Ht1) as [Ho Hi]; [by split_and!|].
    split; [intros j Hj|intros t0 Ht0]; rewrite Et; auto. }
  apply bind_ret_inv in He as (t2 & Ht2 & He). apply track_inv in Ht2. set (s3 := put i _ s2) in He.
  assert (changes i same_media s2 s3) as C3 by (eapply changes_put; [exact Ht2|by split_and!]).
  apply bind_ret_inv in He as ([s4 e4] & E4 & He). destruct e4; [by simplify_eq|].
  destruct (updateIndex_media _ _ _ E4) as (St4 & Hh4 & C4).
  assert (s_start s' = s_start s4 /\ heap s' = heap s4 /\ tracks s' = tracks s4) as (St5 & Hh5 & Et5).
  { destruct (t_closed t2).
    - simplify_eq. destruct (setEnd_frame s4 dts (dtsToNtp (startDTS (seg t2)) (startNTP (seg t2)) dts)) as (? & ? & ?). done.
    - destruct (UpdateIndex_frame _ _ _ _ He) as (-> & -> & ->).
      destruct (setEnd_frame s4 dts (dtsToNtp (startDTS (seg t2)) (startNTP (seg t2)) dts)) as (? & ? & ?). done. }
  change (s_start s3) with (s_start s2) in St4. change (heap s3) with (heap s2) in Hh4. split_and!; [congruence..|].
  pose proof (changes_trans i _ _ (fun t t' => flushed _ dts t t') s s1 s2 C1 C2 (fun t1 t2 t3 => flushed_same _ _ t1 t2 t3)) as C12.
  pose proof (changes_trans i _ _ (fun t t' => flushed _ dts t t') s s2 s3 C12 C3 (fun t1 t2 t3 => flushed_same _ _ t1 t2 t3)) as C13.
  enough (changes i (fun t1 t2 => flushed (Part_Marshal (t_id t) (BaseTime part) (omap (fun p => heap s !! p) (Samples part))).1 dts t1 t2 /\
    (t_closed t1 = true -> Endlist (playlist (out t2)) = true)) s s4) as [Ho Hi] by (split; rewrite Et5; auto).
  apply (changes_trans i _ _ _ s s3 s4 C13 C4). intros u1 u2 u3 Hf [Hm Hcl]. split; [by eapply flushed_same|].
  intros Hc. apply Hcl. destruct Hf as (? & ? & Hf). destruct Hf as (_ & _ & _ & _ & _ & _ & _ & _ & -> & _). done.
Qed.


(** The time at which the queued sample ends. *)
Definition next_dts (s : Segmenter) (t : Track) (next : option augmentedSample) : Z :=
  match next with Some nx => as_dts nx | None => ntpToDts (startDTS (seg t)) (startNTP (seg t)) (Now (ticks s)) end.

Definition with_duration (d : Z) (x : PartSample) : PartSample :=
  {| ps_Duration := d; PTSOffset := PTSOffset x; IsNonSyncSample := IsNonSyncSample x; ps_Payload := ps_Payload x |}.

(** Is the segment cut before the next sample. *)
Definition cuts (s : Segmenter) (t : Track) (next : option augmentedSample) (ra force : bool) : bool :=
  match next with None => true | Some _ => false end
  || ra && (force || (i64 (segmentDuration s * Second) <? i64 (next_dts s t next - startDTS (seg t)))).

(** The track after the queued sample [old] was taken out: with a cut, the
    samples of the part and [old] are a new segment that ends at the next
    sample, and the next segment starts there. *)
Definition taken (s : Segmenter) (next : option augmentedSample) (ra force : bool) (old : augmentedSample) (h : list PartSample)
    (t t' : Track) : Prop :=
  let dts := next_dts s t next in
  t_closed t' = t_closed t /\ nextVideoSample (seg t') = next /\
  if cuts s t next ra force then
    (exists t1 base, out t' = out t1 /\
      flushed (Part_Marshal (t_id t) base (omap (fun p => h !! p) (default [] (Samples <$> currentPart (seg t)) ++ [as_ptr old]))).1
        dts t t1) /\
    (t_closed t = true -> Endlist (playlist (out t')) = true) /\
    startDTS (seg t') = match next with Some nx => as_dts nx | None => 0 end
  else out t' = out t /\ startDTS (seg t') = startDTS (seg t) /\
    Samples <$> currentPart (seg t') = Some (default [] (Samples <$> currentPart (seg t)) ++ [as_ptr old]).

Lemma next_segment_spec s i rate s' :
  next_segment s i rate = Ret s' ->
  heap s' = heap s /\
  changes i (fun t t' => out t' = out t /\ t_closed t' = t_closed t /\ nextVideoSample (seg t') = nextVideoSample (seg t) /\
    startDTS (seg t') = match nextVideoSample (seg t) with Some nx => as_dts nx | None => 0 end) s s'.
Proof.
  unfold next_segment. intros He. apply bind_ret_inv in He as (t & Ht & He). apply track_inv in Ht.
  destruct (nextVideoSample (seg t)) as [nx|] eqn:Hn.
  - cbn [now] in He. apply bind_ret_inv in He as (st & _ & [= <-]). split; [done|]. split.
    + intros j Hj. cbn. by rewrite list_lookup_insert_ne.
    + intros t0 Ht0. rewrite Ht in Ht0. injection Ht0 as <-. eexists. split.
      * cbn. apply list_lookup_insert_eq. by eapply lookup_lt_Some.
      * cbn. by rewrite Hn.
  - injection He as <-. split; [done|]. eapply changes_put; [exact Ht|]. cbn. by rewrite Hn.
Qed.

Lemma write_queued_spec s i ra force old t s' :
  tracks s !! i = Some t -> write_queued s i ra force old = Ret (s', None) ->
  heap s' = alter (with_duration (u32 (durationGoToMp4 (i64 (next_dts s t (nextVideoSample (seg t)) - as_dts old)) (lt_ClockRate (lt t)))))
    (as_ptr old) (heap s) /\
  changes i (taken s (nextVideoSample (seg t)) ra force old (heap s')) s s'.
Proof.
  intros Ht. unfold write_queued. rewrite (track_ret s i t Ht), bind_ret_l.
  set (next := nextVideoSample (seg t)).
  destruct (match next with Some nx => _ | None => _ end) as [s1 nd] eqn:E1.
  assert (nd = next_dts s t next /\ tracks s1 = tracks s /\ heap s1 = heap s /\ segmentDuration s1 = segmentDuration s) as (-> & Et & Eh & Ed).
  { destruct next; [by injection E1 as <- <-|]. cbn [now] in E1. by injection E1 as <- <-. }
  clear E1. set (s2 := set_duration _ _ s1). intros He. apply bind_ret_inv in He as (part & Hpart & He).
  assert (Samples part = default [] (Samples <$> currentPart (seg t))) as Hsam.
  { destruct (currentPart (seg t)); [by injection Hpart as ->|]. apply bind_ret_inv in Hpart as (st & _ & [= <-]). done. }
  set (t2 := with_seg (set_part _ (seg t)) t) in He. set (s3 := put i t2 s2) in He.
  assert (tracks s3 !! i = Some t2 /\ forall j, j <> i -> tracks s3 !! j = tracks s !! j) as [Ht3 Ho3].
  { split; [|intros j Hj]; cbn; rewrite Et; [apply list_lookup_insert_eq; by eapply lookup_lt_Some|by rewrite list_lookup_insert_ne]. }
  change (segmentDuration s3) with (segmentDuration s1) in He. rewrite Ed in He. fold (cuts s t next ra force) in He.
  assert (heap s3 = alter (with_duration (u32 (durationGoToMp4 (i64 (next_dts s t next - as_dts old)) (lt_ClockRate (lt t)))))
    (as_ptr old) (heap s)) as Hh3 by (cbn; by rewrite Eh).
  destruct (cuts s t next ra force) eqn:Hcut.
  - apply bind_ret_inv in He as ([s4 e4] & E4 & He). destruct e4; [by simplify_eq|].
    apply bind_ret_inv in He as (s5 & E5 & [= <-]). destruct (flushSegment_flushed s3 i _ force s4 t2 _ Ht3 eq_refl E4) as (_ & Hh4 & Ho4 & Hi4).
    destruct (next_segment_spec _ _ _ _ E5) as (Hh5 & Ho5 & Hi5). split; [congruence|]. split.
    + intros j Hj. by rewrite Ho5, Ho4, Ho3.
    + intros t0 Ht0. rewrite Ht in Ht0. injection Ht0 as <-. destruct (Hi4 t2 Ht3) as (t4 & Ht4 & Hf & Hend).
      destruct (Hi5 t4 Ht4) as (t5 & Ht5 & Eo & Ec & En & Es). exists t5. split; [done|].
      pose proof Hf as (st & x & _ & _ & _ & _ & _ & _ & _ & _ & Ec4 & _ & _ & En4 & _).
      change (t_closed t2) with (t_closed t) in Ec4, Hend. change (nextVideoSample (seg t2)) with next in En4. unfold taken. rewrite Hcut.
      split_and!; [congruence|congruence| |rewrite Eo; exact Hend|by rewrite Es, En4].
      exists t4, (BaseTime part). split; [done|]. rewrite Hh5, Hh4. cbn [Samples BaseTime] in Hf. rewrite Hsam in Hf. exact Hf.
  - injection He as <-. split; [done|]. split; [done|]. intros t0 Ht0. rewrite Ht in Ht0. injection Ht0 as <-.
    exists t2. split; [done|]. unfold taken. rewrite Hcut. split_and!; try done. cbn. by rewrite Hsam.
Qed.

(** ** Properties *)

(** C9. Whatever packets arrive, whichever operations fail, and whenever
    tracks close: the byte ranges in the playlist of a track are consecutive
    ranges of the file of the track from its first byte, which they cover as
    long as the file is open (offsets modulo 2^64). *)
Theorem byte_ranges_tile lts sd gop rel h s i t :
  rtc seg_step (NewSegmenter lts sd gop rel h) s -> tracks s !! i = Some t ->
  match storage (out t) with
  | None => Segments (playlist (out t)) = []
  | Some st => exists n, tiles 0 (Segments (playlist (out t))) n /\ n <= Z.of_nat (length (f st)) /\
      (st_closed st = false -> n = Z.of_nat (length (f st)))
  end.
Proof.
  intros Hr Ht. destruct (reachable_ok _ _ _ _ _ _ Hr) as [Hok _]. destruct (Forall_lookup_1 _ _ _ _ Hok Ht) as [Ho _].
  unfold out_ok in Ho. destruct (storage (out t)); [|done]. destruct Ho as (n & ? & ? & ? & _). by exists n.
Qed.

(** C30. A sample written to a track that has one queued.  The queued sample
    gets its duration; at a key frame, when the parameter sets changed or the
    segment is long enough, the samples so far become a segment that lasts
    from the start of the segment to the new sample, its bytes are appended
    to the file, and the next segment starts at the new sample; otherwise the
    queued sample joins the part under construction.  Other tracks do not
    change. *)
Theorem writeVideo_correct s i ra force sm t old s' :
  let dts := i64 (as_dts sm + fmp4StartDTS) in
  let new := {| as_ptr := as_ptr sm; as_dts := dts |} in
  tracks s !! i = Some t -> nextVideoSample (seg t) = Some old -> 0 <= i64 (dts - startDTS (seg t)) ->
  writeVideo s i ra force (Some sm) = Ret (s', None) ->
  heap s' = alter (with_duration (u32 (durationGoToMp4 (i64 (dts - as_dts old)) (lt_ClockRate (lt t))))) (as_ptr old) (heap s) /\
  changes i (fun t t' => taken s (Some new) ra force old (heap s') (with_seg (set_next (Some new) (seg t)) t) t') s s'.
Proof.
  intros dts new Ht Hold Hd. unfold writeVideo. rewrite (track_ret s i t Ht), bind_ret_l. fold dts.
  rewrite (proj2 (Z.ltb_ge _ _) Hd), Hold, bind_ret_l, (track_ret s i t Ht), bind_ret_l, Hold. fold new.
  set (t1 := with_seg (set_next (Some new) (seg t)) t). set (s1 := put i t1 s). intros He.
  assert (tracks s1 !! i = Some t1) as Ht1 by (cbn; apply list_lookup_insert_eq; by eapply lookup_lt_Some).
  destruct (write_queued_spec s1 i ra force old t1 s' Ht1 He) as (Hh & Ho & Hi). split; [exact Hh|]. split.
  - intros j Hj. rewrite Ho by done. cbn. by rewrite list_lookup_insert_ne.
  - intros t0 Ht0. rewrite Ht in Ht0. injection Ht0 as <-. destruct (Hi t1 Ht1) as (t' & Ht' & Hk). exists t'. split; [done|exact Hk].
Qed.

(** A closed track. *)
Definition finished (t : Track) : Prop :=
  t_closed t = true /\ nextVideoSample (seg t) = None /\
  match storage (out t) with Some st => st_closed st = true /\ buffer st = None | None => True end.

Lemma Storage_Close_closed st st' : Storage_Close st = Ret st' -> st_closed st' = true /\ buffer st' = None.
Proof.
  unfold Storage_Close, NextPart. cbn. destruct (buffer st) as [b|] eqn:Hb; [|by intros [= <-]].
  destruct File_err as [e|]; [by destruct e|]. by intros [= <-].
Qed.

Lemma Track_Close_spec s i s' :
  Track_Close s i = Ret (s', None) ->
  changes i (fun t t' => t_closed t' = true /\
    (t_closed t = false -> t_ready t = true -> finished t' /\
      (is_Some (nextVideoSample (seg t)) -> Endlist (playlist (out t')) = true /\
         exists x, Segments (playlist (out t')) = Segments (playlist (out t)) ++ [x]))) s s'.
Proof.
  unfold Track_Close. intros He. apply bind_ret_inv in He as (t & Ht & He). apply track_inv in Ht.
  destruct (t_closed t) eqn:Hc.
  { injection He as <-. split; [done|]. intros t0 Ht0. rewrite Ht in Ht0. injection Ht0 as <-. exists t. by rewrite Hc. }
  set (s1 := put i (with_closed t) s) in He.
  assert (tracks s1 !! i = Some (with_closed t) /\ forall j, j <> i -> tracks s1 !! j = tracks s !! j) as [Ht1 Ho1].
  { split; [|intros j Hj]; cbn; [apply list_lookup_insert_eq; by eapply lookup_lt_Some|by rewrite list_lookup_insert_ne]. }
  destruct (t_ready t) eqn:Hr; cbn [negb] in He.
  2:{ injection He as <-. split; [exact Ho1|]. intros t0 Ht0. rewrite Ht in Ht0. injection Ht0 as <-.
      exists (with_closed t). split; [exact Ht1|]. split; [done|]. congruence. }
  apply bind_ret_inv in He as ([s2 e2] & E2 & He). destruct e2; [by simplify_eq|].
  unfold writeVideo in E2. rewrite !(track_ret s1 i _ Ht1), !bind_ret_l in E2. cbn [seg with_closed nextVideoSample] in E2.
  set (t1 := with_seg (set_next None (seg t)) (with_closed t)) in E2. set (s1' := put i t1 s1) in E2.
  assert (tracks s1' !! i = Some t1) as Ht1' by (cbn; apply list_lookup_insert_eq; rewrite length_insert; by eapply lookup_lt_Some).
  assert (changes i (fun _ t2 => t_closed t2 = true /\ nextVideoSample (seg t2) = None /\
    (is_Some (nextVideoSample (seg t)) -> Endlist (playlist (out t2)) = true /\
       exists x, Segments (playlist (out t2)) = Segments (playlist (out t)) ++ [x])) s s2) as [Ho2 Hi2].
  { destruct (nextVideoSample (seg t)) as [old|].
    - destruct (write_queued_spec s1' i false false old t1 s2 Ht1' E2) as (_ & Ho & Hi). split.
      + intros j Hj. rewrite Ho by done. cbn. rewrite list_lookup_insert_ne by done. by apply Ho1.
      + intros t0 Ht0. rewrite Ht in Ht0. injection Ht0 as <-. destruct (Hi t1 Ht1') as (t2 & Ht2 & Hk). exists t2. split; [done|].
        destruct Hk as (Ec & En & Hk). cbn [cuts] in Hk. destruct Hk as ((t3 & bt & Eo & Hf) & Hend & _).
        split_and!; [done|done|]. intros _. split; [by apply Hend|]. destruct Hf as (st & x & _ & _ & Hs & _). exists x. by rewrite Eo.
    - injection E2 as <-. split.
      + intros j Hj. cbn. rewrite list_lookup_insert_ne by done. by apply Ho1.
      + intros t0 Ht0. exists t1. split; [done|]. split_and!; [done|done|]. by intros []. }
  destruct (Hi2 t Ht) as (t2 & Ht2 & Ec2 & En2 & Hs2). rewrite (track_ret s2 i t2 Ht2), bind_ret_l in He.
  apply bind_ret_inv in He as (st & Hst & He). apply bind_ret_inv in He as (b & _ & He). apply bind_ret_inv in He as (b' & _ & [= <-]).
  split; [intros j Hj; cbn; rewrite list_lookup_insert_ne by done; by apply Ho2|].
  intros t0 Ht0. rewrite Ht in Ht0. injection Ht0 as <-. eexists. split; [cbn; apply list_lookup_insert_eq; by eapply lookup_lt_Some|].
  split; [done|]. intros _ _. split; [|done]. split_and!; [done|done|]. cbn.
  destruct (storage (out t2)) as [st0|]; [|by injection Hst as <-]. apply bind_ret_inv in Hst as (st1 & Hst1 & [= <-]).
  by eapply Storage_Close_closed.
Qed.

Lemma close_tracks_spec l : forall s s',
  close_tracks s l = Ret (s', None) -> length (tracks s') = length (tracks s) /\
  (forall j t', tracks s' !! j = Some t' -> t_closed t' = true \/ ((j ∉ l) /\ tracks s !! j = Some t')).
Proof.
  induction l as [|i l IH]; intros s s'; cbn [close_tracks]; [intros [= <-]; split; [done|]; intros; right; set_solver|].
  intros He. apply bind_ret_inv in He as ([s1 e1] & E1 & He). destruct e1; [by simplify_eq|].
  destruct (IH s1 s' He) as [Hl Hj]. pose proof (Track_Close_keeps s i s1 None E1) as [Hlen _]. apply Forall2_length in Hlen.
  destruct (Track_Close_spec s i s1 E1) as [Ho Hi]. split; [congruence|].
  intros j t' Ht'. destruct (Hj j t' Ht') as [?|[Hni Hs1]]; [by left|]. destruct (decide (j = i)) as [->|Hne].
  - assert (is_Some (tracks s !! i)) as [t Ht] by (apply lookup_lt_is_Some; rewrite Hlen; by eapply lookup_lt_Some).
    destruct (Hi t Ht) as (t1 & Ht1 & Hc & _). left. congruence.
  - right. rewrite <- Ho by done. split; [set_solver|done].
Qed.

(** Closing.  A ready track that is closed without an error has an empty
    queue and a closed file with nothing left in its buffer; if a sample was
    queued, it became the last segment and the playlist says it is complete.
    A segmenter that is closed without an error has only closed tracks,
    refuses packets, and closing it again does nothing. *)
Theorem Close_correct s s' :
  (forall i t, tracks s !! i = Some t -> t_closed t = false -> t_ready t = true -> Track_Close s i = Ret (s', None) ->
     exists t', tracks s' !! i = Some t' /\ finished t' /\
       (is_Some (nextVideoSample (seg t)) -> Endlist (playlist (out t')) = true /\
          exists x, Segments (playlist (out t')) = Segments (playlist (out t)) ++ [x])) /\
  (s_closed s = false -> Close s = Ret (s', None) ->
     s_closed s' = true /\ Forall (fun t => t_closed t = true) (tracks s') /\ Close s' = Ret (s', None) /\
     forall ssrc p buf, WriteRtp s' ssrc p buf = Ret (s', Some (EOther "segmenter closed"))).
Proof.
  split.
  - intros i t Ht Hc Hr He. destruct (Track_Close_spec s i s' He) as [_ Hi]. destruct (Hi t Ht) as (t' & Ht' & _ & Hf).
    exists t'. split; [done|]. by apply Hf.
  - intros Hc. unfold Close at 1. rewrite Hc. intros He. apply bind_ret_inv in He as ([s2 e2] & E2 & He).
    destruct e2; [by simplify_eq|]. apply bind_ret_inv in He as (s3 & E3 & [= <-]).
    split; [done|]. split; [|by split].
    assert (tracks s3 = tracks s2) as Et.
    { destruct (s_start s2) as [st|]; [|by injection E3 as <-]. cbn [now] in E3. apply bind_ret_inv in E3 as ([s4 e] & E4 & [= <-]).
      by destruct (UpdateIndex_frame _ _ _ _ E4) as (-> & _). }
    destruct (close_tracks_spec _ _ _ E2) as [Hl Hj]. cbn. rewrite Et. apply Forall_lookup_2. intros j t' Ht'.
    destruct (Hj j t' Ht') as [?|[Hni _]]; [done|]. exfalso. apply Hni. apply elem_of_seq. cbn in Hl.
    pose proof (lookup_lt_Some _ _ _ Ht'). lia.
Qed.

(** The segment handler, when there is one, is told exactly once that a
    recording is new: at the first segment announced. *)
Theorem handler_first lts sd gop rel h s :
  rtc seg_step (NewSegmenter lts sd gop rel h) s -> firsts_ok s.
Proof. intros Hr. by apply (reachable_ok _ _ _ _ _ _ Hr). Qed.

End Props.

(** ** A concrete recorder

    Every packet is a key frame with its parameter sets, seven seconds after
    the one before; a part is the concatenation of its samples. *)
Module Toy.

Definition sps2 : SPS :=
  {| Log2MaxFrameNumMinus4 := 0; PicOrderCntType := 2; Log2MaxPicOrderCntLsbMinus4 := 0; FrameMbsOnlyFlag := true;
     sps_Width := 640; sps_Height := 480; sps_FPS := 25 |}.
#[local] Instance codec : H264Codec :=
  {| SPS_Unmarshal := fun l => Some sps2; EmulationPreventionRemove := fun l => l;
     ReadGolombUnsigned := fun _ pos => Some (0, pos); ReadBits := fun _ pos _ => Some (0, pos) |}.
#[local] Instance lib : SegLib :=
  {| H265SPS_Unmarshal := fun _ => None; H265Extractor := unit; h265_new := tt;
     h265_Extract := fun x _ pts => Ret (x, inl pts);
     NewPartSampleH26x := fun off ra au => inl {| ps_Duration := 0; PTSOffset := off; IsNonSyncSample := negb ra; ps_Payload := concat au |};
     Part_Marshal := fun _ _ l => (concat (ps_Payload <$> l), None);
     Init_Marshal := fun _ _ _ => ([1; 2], None);
     Media_Marshal := fun _ => inl []; Multivariant_Marshal := fun _ _ => inl [];
     codecparams_Marshal := fun _ => "avc1"%string;
     IsHead := fun _ _ => true; IsTail := fun _ m _ => m; Depacketize := fun _ l => Some l |}.
#[local] Instance os : OS :=
  {| Now := fun n => Z.of_nat n * Second; MkdirAll_err := fun _ => None; Create_err := fun _ => None;
     File_err := None; WriteFile_err := fun _ => None |}.
#[local] Instance tmpl : Templates :=
  {| calcBaseTemplate := fun _ => Ret "rec"%string; calcIndexTemplate := fun _ => Ret "index.m3u8"%string;
     calcDirectoryTemplate := fun _ => Ret "room"%string |}.
Definition lt0 : LabeledTrack := {| lt_MimeType := "video/H264"; lt_ClockRate := 90000; lt_Kind := KindVideo; lt_SSRC := 7; lt_RtxSSRC := 8 |}.
Definition frame (n : Z) : rtp_packet :=
  {| SequenceNumber := n; Timestamp := n * 630000; Marker := true; Payload := [0; 0; 1; 0x67; 0; 0; 1; 0x68; 0; 0; 1; 0x65; n] |}.
Fixpoint seg_run (ops : list seg_op) (s : Segmenter) : run Segmenter :=
  match ops with [] => Ret s | op :: ops => '(s, _) ← seg_apply op s; seg_run ops s end.
Definition s0 := NewSegmenter [lt0] 5 2 true true.
Definition writes (n : nat) := OpReady :: ((fun k => OpWrite 7 (frame (Z.of_nat k)) 0) <$> seq 0 n).

Definition result (r : run Segmenter) : Segmenter := match r with Ret s => s | Abort _ => s0 end.
(** After four frames: three segments, the fourth frame is queued. *)
Definition s4 : Segmenter := Eval vm_compute in result (seg_run (writes 4) s0).
(** And after closing it. *)
Definition s4' : Segmenter := Eval vm_compute in result (seg_run (writes 4 ++ [OpClose]) s0).
Definition t4 : Track := Eval vm_compute in default (NewTrack 1 lt0) (tracks s4 !! 0%nat).
(** A fifth sample, on the heap. *)
Definition s5 : Segmenter :=
  set_world (heap s4 ++ [{| ps_Duration := 0; PTSOffset := 0; IsNonSyncSample := false; ps_Payload := [9] |}]) (ticks s4) (events s4) s4.
Definition sm5 : augmentedSample := {| as_ptr := 4; as_dts := 28 * Second |}.

Lemma seg_run_rtc ops : forall s s', seg_run ops s = Ret s' -> rtc seg_step s s'.
Proof.
  induction ops as [|op ops IH]; intros s s'; cbn; [by intros [= <-]|]. intros He. apply bind_ret_inv in He as ([s1 e] & E1 & He).
  eapply rtc_l; [by eapply SOp|by apply IH].
Qed.

Lemma byte_ranges_tile_witness :
  rtc seg_step s0 s4 /\ tracks s4 !! 0%nat = Some t4 /\
    exists st n, storage (out t4) = Some st /\ length (Segments (playlist (out t4))) = 3%nat /\
    tiles 0 (Segments (playlist (out t4))) n /\ n = Z.of_nat (length (f st)).
Proof.
  assert (rtc seg_step s0 s4) as Hr by (apply (seg_run_rtc (writes 4)); vm_compute; reflexivity).
  assert (tracks s4 !! 0%nat = Some t4) as Ht by reflexivity. split; [exact Hr|]. split; [exact Ht|].
  pose proof (byte_ranges_tile [lt0] 5 2 true true s4 0 t4 Hr Ht) as Hb. cbn [storage out t4] in Hb.
  destruct Hb as (n & Hn & _ & Hl). eexists _, n. split; [reflexivity|]. split; [reflexivity|]. split; [exact Hn|]. apply Hl. reflexivity.
Defined.

Lemma writeVideo_correct_witness :
  exists s' t', writeVideo s5 0 true false (Some sm5) = Ret (s', None) /\ tracks s' !! 0%nat = Some t' /\
    ps_Duration <$> heap s' = [630000; 630000; 630000; 630000; 0] /\
    taken s5 (Some {| as_ptr := 4; as_dts := 38 * Second |}) true false {| as_ptr := 3; as_dts := 31 * Second |} (heap s')
      (with_seg (set_next (Some {| as_ptr := 4; as_dts := 38 * Second |}) (seg t4)) t4) t'.
Proof.
  destruct (writeVideo s5 0 true false (Some sm5)) as [[s' [e|]]|] eqn:He; try (vm_compute in He; discriminate He).
  pose proof (writeVideo_correct s5 0 true false sm5 t4 {| as_ptr := 3; as_dts := 31 * Second |} s') as Hw.
  cbv zeta in Hw. destruct Hw as [Hh [_ Hc]]; [reflexivity|reflexivity|vm_compute; discriminate|exact He|].
  destruct (Hc t4 eq_refl) as (t' & Ht' & Hk). exists s', t'. split; [reflexivity|]. split; [exact Ht'|]. split; [|exact Hk].
  rewrite Hh. vm_compute. reflexivity.
Defined.

Lemma Close_correct_witness :
  Close s4 = Ret (s4', None) /\ s_closed s4' = true /\ Forall (fun t => t_closed t = true) (tracks s4') /\
    Close s4' = Ret (s4', None).
Proof.
  destruct (Close_correct s4 s4') as [_ Hc].
  assert (Close s4 = Ret (s4', None)) as He by (vm_compute; reflexivity).
  destruct (Hc eq_refl He) as (H1 & H2 & H3 & _). split_and!; [exact He|exact H1|exact H2|exact H3].
Defined.

Lemma handler_first_witness : rtc seg_step s0 s4' /\ length (segments_of s4') = 4%nat /\ firsts_ok s4'.
Proof.
  assert (rtc seg_step s0 s4') as Hr by (apply (seg_run_rtc (writes 4 ++ [OpClose])); vm_compute; reflexivity).
  split; [exact Hr|]. split; [reflexivity|]. exact (handler_first [lt0] 5 2 true true s4' Hr).
Defined.

(** After a flush the next sample is already in the new part when it is queued,
    and it is appended again when it leaves the queue: the first sample of
    every segment but the first is recorded twice. *)
Lemma duplicated_sample :
  exists t, tracks s4' !! 0%nat = Some t /\
    f <$> storage (out t) = Some [103; 104; 101; 0;
                                  103; 104; 101; 1; 103; 104; 101; 1;
                                  103; 104; 101; 2; 103; 104; 101; 2;
                                  103; 104; 101; 3; 103; 104; 101; 3].
Proof. eexists. split; reflexivity. Qed.

(** An AV1 track has no sample builder: its first packet and its closing
    panic. *)
Lemma av1_panics :
  exists s, seg_run [OpReady] (NewSegmenter [{| lt_MimeType := "video/AV1"; lt_ClockRate := 90000; lt_Kind := KindVideo;
                                               lt_SSRC := 7; lt_RtxSSRC := 8 |}] 5 2 true true) = Ret s /\
    WriteRtp s 7 (frame 0) 0 = go_panic PNilDeref /\ Close s = go_panic PNilDeref.
Proof. eexists. split; [vm_compute; reflexivity|]. split; reflexivity. Qed.

End Toy.
