(* ===== verification/Recorder.v ===== *)
(** * Recorder: the index of recordings ([signal/record.go])

    Every segment a segmenter announces is written to the database: the first
    one inserts a document, the later ones replace it.  The collection is a map
    from ids to documents; whether the database answers with an error is a
    parameter.  The main theorem composes the recorder with the segmenter. *)
From S2P Require Import SampleBuilder Prelude GoStrings Strconv Dts SegmenterUtils Segmenter SegmenterProps.
Local Open Scope Z_scope.
Local Open Scope list_scope.

Record BaseInfo := {
  bi_Codec : string; bi_InitPath : string; bi_IndexPath : string; bi_SegmentPath : string; bi_Start : Z; bi_Completed : bool;
  bi_Duration : Z; bi_AvgBandwidth : Z; bi_MaxBandwidth : Z
}.
Record VideoInfo := { vi_Base : BaseInfo; vi_Width : Z; vi_Height : Z; vi_FrameRate : Z }.
Record AudioInfo := { ai_Base : BaseInfo; ai_Default : bool }.

Record Record_ := {
  re_Start : Z; re_End : Z; re_Key : string; re_Path : string; re_Completed : bool; Videos : list VideoInfo; VideosDuration : Z;
  Audios : list AudioInfo; AudiosDuration : Z
}.

Definition fillMediaInfo (c : TrackContext) : BaseInfo :=
  {| bi_Codec := c_Codec c; bi_InitPath := InitPath c; bi_IndexPath := IndexPath c; bi_SegmentPath := SegmentPath c; bi_Start := c_Start c;
     bi_Duration := time_Sub (c_End c) (c_Start c); bi_Completed := c_Last c; bi_AvgBandwidth := c_AvgBandwidth c;
     bi_MaxBandwidth := c_MaxBandwidth c |}.

Definition MediaInfoFromTrackCtx (c : TrackContext) : VideoInfo + AudioInfo :=
  if c_Audio c then inr {| ai_Base := fillMediaInfo c; ai_Default := false |}
  else inl {| vi_Base := fillMediaInfo c; vi_Width := c_Width c; vi_Height := c_Height c; vi_FrameRate := c_FrameRate c |}.

Definition add_media (r : Record_) (m : VideoInfo + AudioInfo) : Record_ :=
  match m with
  | inl v => {| re_Start := re_Start r; re_End := re_End r; re_Key := re_Key r; re_Path := re_Path r; re_Completed := re_Completed r;
                Videos := Videos r ++ [v]; VideosDuration := i64 (VideosDuration r + bi_Duration (vi_Base v)); Audios := Audios r;
                AudiosDuration := AudiosDuration r |}
  | inr a => {| re_Start := re_Start r; re_End := re_End r; re_Key := re_Key r; re_Path := re_Path r; re_Completed := re_Completed r;
                Videos := Videos r; VideosDuration := VideosDuration r; Audios := Audios r ++ [a];
                AudiosDuration := i64 (AudiosDuration r + bi_Duration (ai_Base a)) |}
  end.

Definition RecordFromSegCtx (c : SegmentContext) (key : string) : run Record_ :=
  st ← go_deref (sc_Start c);
  en ← go_deref (sc_End c);
  Ret (fold_left add_media (MediaInfoFromTrackCtx <$> sc_Tracks c)
         {| re_Start := NTP st; re_End := NTP en; re_Key := key; re_Path := sc_Path c; re_Completed := sc_Last c; Videos := [];
            VideosDuration := 0; Audios := []; AudiosDuration := 0 |}).

(** The collection: [db_next] is the next object id, [db_ops] counts the requests. *)
Record Mongo := { docs : gmap nat Record_; db_next : nat; db_ops : nat }.

Class DB := { db_err : nat -> option gerror }.

Record Recorder := { r_id : option nat; r_key : string; r_err : option gerror }.

Definition NewRecorder (key : string) : Recorder := {| r_id := None; r_key := key; r_err := None |}.

Section Recorder.
Context `{DB}.

Definition fail (e : gerror) (r : Recorder) : Recorder := {| r_id := r_id r; r_key := r_key r; r_err := Some e |}.
Definition bump (m : Mongo) : Mongo := {| docs := docs m; db_next := db_next m; db_ops := S (db_ops m) |}.

Definition Recorder_Record (r : Recorder) (m : Mongo) (c : SegmentContext) : run (Recorder * Mongo * (bool + gerror)) :=
  match r_err r with
  | Some e => Ret (r, m, inr e)
  | None =>
      if sc_First c then
        rec ← RecordFromSegCtx c (r_key r);
        match db_err (db_ops m) with
        | Some e => Ret (fail e r, bump m, inr e)
        | None => Ret ({| r_id := Some (db_next m); r_key := r_key r; r_err := None |},
                       {| docs := <[db_next m := rec]> (docs m); db_next := S (db_next m); db_ops := S (db_ops m) |}, inl true)
        end
      else
        match r_id r with
        | None => go_panic (PMsg "this is impossible")
        | Some id =>
            rec ← RecordFromSegCtx c (r_key r);
            match db_err (db_ops m) with
            | Some e => Ret (fail e r, bump m, inr e)
            | None =>
                match docs m !! id with
                | Some _ => Ret (r, {| docs := <[id := rec]> (docs m); db_next := db_next m; db_ops := S (db_ops m) |}, inl true)
                | None => Ret (r, bump m, inl false)
                end
            end
        end
  end.

(** The announcements of a segmenter, recorded one after the other. *)
Fixpoint record_all (r : Recorder) (m : Mongo) (cs : list SegmentContext) : run (Recorder * Mongo * list (bool + gerror)) :=
  match cs with
  | [] => Ret (r, m, [])
  | c :: cs => '(r, m, x) ← Recorder_Record r m c; '(r, m, xs) ← record_all r m cs; Ret (r, m, x :: xs)
  end.

(** ** Properties *)

Lemma RecordFromSegCtx_ret c key : dated c -> exists rec, RecordFromSegCtx c key = Ret rec.
Proof. intros [[st Hs] [en He]]. unfold RecordFromSegCtx. rewrite Hs, He. by eexists. Qed.

(** A recorder that failed writes nothing any more. *)
Lemma record_all_failed r m cs e :
  r_err r = Some e -> record_all r m cs = Ret (r, m, replicate (length cs) (inr e)).
Proof.
  intros He. induction cs as [|c cs IH]; [done|]. cbn [record_all]. unfold Recorder_Record. rewrite He, bind_ret_l, IH. done.
Qed.

(** What the later announcements do to the document [id]. *)
Lemma record_later id cs : forall r m rec,
  r_id r = Some id -> r_err r = None -> docs m !! id = Some rec -> Forall (fun c => sc_First c = false /\ dated c) cs ->
  exists r' m' xs, record_all r m cs = Ret (r', m', xs) /\ length xs = length cs /\ r_key r' = r_key r /\
    (forall k, k <> id -> docs m' !! k = docs m !! k) /\
    ((forall x, x ∈ xs -> x = inl true) -> exists rec', docs m' !! id = Some rec' /\
       match last cs with None => rec' = rec | Some c => RecordFromSegCtx c (r_key r) = Ret rec' end).
Proof.
  induction cs as [|c cs IH]; intros r m rec Hid Hok Hd Hcs; cbn [record_all].
  { exists r, m, []. split_and!; try done. intros _. by exists rec. }
  inversion Hcs as [|? ? [Hf Hdt] Hcs']; subst. destruct (RecordFromSegCtx_ret c (r_key r) Hdt) as [rec' Hrec].
  unfold Recorder_Record. rewrite Hok, Hf, Hid, Hrec, bind_ret_l, Hd. destruct (db_err (db_ops m)) as [e|].
  - rewrite bind_ret_l, (record_all_failed (fail e r) _ cs e) by done. rewrite bind_ret_l. eexists _, _, _. split; [done|].
    rewrite !length_cons, length_replicate. split_and!; try done.
    intros Hall. discriminate (Hall (inr e) (list_elem_of_here _ _)).
  - rewrite bind_ret_l. set (m1 := {| docs := _; db_next := _; db_ops := _ |}).
    destruct (IH r m1 rec' Hid Hok) as (r' & m' & xs & -> & Hl & Hk & Ho & Hlast); [apply lookup_insert_eq|done|].
    rewrite bind_ret_l. eexists _, _, _. split; [done|]. split_and!; [cbn; congruence|done| |].
    + intros k Hne. rewrite Ho by done. cbn. by rewrite lookup_insert_ne.
    + intros Hall. destruct Hlast as (rec0 & H0 & Hl0); [intros x Hx; apply Hall; by right|]. exists rec0. split; [done|].
      rewrite last_cons. destruct (last cs); [done|]. by subst rec0.
Qed.

(** The recorder and the segmenter.  In whatever state a segmenter is, the
    announcements it made, recorded in order by a new recorder, never panic
    and touch at most one document, a new one; if the database did not fail,
    that document describes the last announcement, and a segmenter that
    announced nothing has none. *)
Theorem record_correct `{!H264Codec, !SegLib, !OS, !Templates} lts sd gop rel h s key m :
  rtc seg_step (NewSegmenter lts sd gop rel h) s -> docs m !! db_next m = None ->
  exists r m' xs, record_all (NewRecorder key) m (segments_of s) = Ret (r, m', xs) /\ length xs = length (segments_of s) /\
    (forall k, k <> db_next m -> docs m' !! k = docs m !! k) /\
    ((forall x, x ∈ xs -> x = inl true) ->
     match last (segments_of s) with
     | None => docs m' = docs m
     | Some c => exists rec, docs m' !! db_next m = Some rec /\ RecordFromSegCtx c key = Ret rec
     end).
Proof.
  intros Hr Hfresh. apply reachable_ok in Hr as (_ & Hf & Hd).
  assert (segments_of s = [] \/ exists c cs, segments_of s = c :: cs /\ sc_First c = true /\ Forall (fun c => sc_First c = false) cs) as Hcases.
  { unfold firsts_ok in Hf. destruct (segmentHandler s); [destruct (indexCreated s)|]; auto. }
  destruct Hcases as [->|(c & cs & E & Hc & Hcs)]; [by exists (NewRecorder key), m, []|]. rewrite E in *.
  inversion Hd as [|? ? Hdc Hdcs]; subst. destruct (RecordFromSegCtx_ret c key Hdc) as [rec Hrec]. cbn [record_all]. unfold Recorder_Record.
  cbn [r_err NewRecorder]. rewrite Hc. cbn [r_key NewRecorder]. rewrite Hrec, bind_ret_l. destruct (db_err (db_ops m)) as [e|].
  - rewrite bind_ret_l, (record_all_failed (fail e (NewRecorder key)) _ cs e) by done. rewrite bind_ret_l. eexists _, _, _. split; [done|].
    rewrite !length_cons, length_replicate. split_and!; try done. intros Hall. discriminate (Hall (inr e) (list_elem_of_here _ _)).
  - rewrite bind_ret_l. set (r1 := {| r_id := _; r_key := _; r_err := _ |}). set (m1 := {| docs := _; db_next := _; db_ops := _ |}).
    destruct (record_later (db_next m) cs r1 m1 rec) as (r' & m' & xs & -> & Hl & _ & Ho & Hlast);
      [done|done|apply lookup_insert_eq|by apply Forall_and|]. rewrite bind_ret_l. eexists _, _, _. split; [done|].
    split_and!; [cbn; congruence| |].
    + intros k Hne. rewrite Ho by done. cbn. by rewrite lookup_insert_ne.
    + intros Hall. destruct Hlast as (rec0 & Hr0 & Hl0); [intros x Hx; apply Hall; by right|]. rewrite last_cons.
      destruct (last cs); [by exists rec0|]. exists rec0. split; [done|]. by subst rec0.
Qed.

End Recorder.

(** ** Witnesses *)

#[local] Instance no_failure : DB := {| db_err := fun _ => None |}.

Definition empty_db : Mongo := {| docs := ∅; db_next := 0; db_ops := 0 |}.

Lemma record_correct_witness :
  exists r m' xs, record_all (NewRecorder "key") empty_db (segments_of Toy.s4') = Ret (r, m', xs) /\ length xs = 4%nat /\
    (forall k, k <> 0%nat -> docs m' !! k = None) /\
    exists rec, docs m' !! 0%nat = Some rec /\ re_Completed rec = true /\ length (Videos rec) = 1%nat.
Proof.
  assert (rtc seg_step Toy.s0 Toy.s4') as Hr by (apply (Toy.seg_run_rtc (Toy.writes 4 ++ [OpClose])); vm_compute; reflexivity).
  destruct (record_correct [Toy.lt0] 5 2 true true Toy.s4' "key" empty_db Hr eq_refl) as (r & m' & xs & E & Hl & Ho & Hx).
  exists r, m', xs. split; [exact E|]. split; [exact Hl|]. split; [exact Ho|].
  vm_compute in E. injection E as <- <- <-. eexists. split; [reflexivity|]. split; reflexivity.
Defined.

(** The handler starts a goroutine per announcement.  When the second one runs
    first, the recorder panics; when the last two change places, the document
    is not the last one. *)
Lemma record_out_of_order :
  (exists c1 c2 cs, segments_of Toy.s4' = c1 :: c2 :: cs /\
     record_all (NewRecorder "key") empty_db [c2; c1] = go_panic (PMsg "this is impossible")) /\
  exists c1 c2 c3 c4, segments_of Toy.s4' = [c1; c2; c3; c4] /\ sc_Last c4 = true /\
    exists r m xs rec, record_all (NewRecorder "key") empty_db [c1; c2; c4; c3] = Ret (r, m, xs) /\ docs m !! 0%nat = Some rec /\
      re_Completed rec = false.
Proof.
  split; [eexists _, _, _; split; reflexivity|]. eexists _, _, _, _. split; [reflexivity|]. split; [reflexivity|].
  eexists _, _, _, _. split; [vm_compute; reflexivity|]. split; reflexivity.
Qed.
