(* ===== verification/RecordLoop.v ===== *)
(** * RecordLoop: recording a publication ([signal/model.go])

    The consumers [startRecord] registers put what they read of the tracks on a channel; a goroutine takes it
    from there and feeds a segmenter, which it replaces when decoding times go wrong.  The goroutine is
    written against what it needs of a segmenter, the class [SegmenterOps]; [Segmenter] is an instance. *)
From Stdlib Require Import Sorted.
From S2P Require Import SampleBuilder Prelude GoStrings Dts SegmenterUtils Segmenter SegmenterProps Recorder.
Local Open Scope Z_scope.
Local Open Scope list_scope.

(** ** What the goroutine uses of a segmenter *)

Class SegmenterOps (S : Type) := {
  op_CloseTrack : S -> Z -> run (S * option gerror);
  op_TryReady : S -> run (S * (bool + gerror));
  op_WriteRtp : S -> Z -> rtp_packet -> Z -> run (S * option gerror);
  op_Close : S -> run (S * option gerror);
  (** what it promises: it is closed for good *)
  op_closed : S -> Prop
}.

Class SegmenterLaws (S : Type) `{SegmenterOps S} : Prop := {
  close_closes s s' : op_Close s = Ret (s', None) -> op_closed s';
  closed_refuses s ssrc p buf : op_closed s -> exists e, op_WriteRtp s ssrc p buf = Ret (s, Some e);
  close_again s : op_closed s -> op_Close s = Ret (s, None)
}.

(** [ErrBadDts] *)
Definition ErrBadDts : gerror := EOther "bad dts".

(** A [PacketBox]: the end of a track, when it has no buffer, or a packet with its buffer. *)
Inductive PacketBox := BEnd (ssrc : Z) | BData (ssrc : Z) (p : rtp_packet) (buf : Z).

(** What the [select] of the goroutine takes: the end of the publication, or a box. *)
Inductive rec_event := PubClosed | Got (b : PacketBox).

Section Loop.
Context {S : Type} `{SegmenterOps S}.

(** [makeSegmenter]: the key of the recorder if there is one, and the segmenter or the error. *)
Definition makeSegmenter (dbEnable : bool) (recordKey : run string) (indexTemplate : string) (new : S + gerror)
    : run (option Recorder * (S + gerror)) :=
  recorder ← (if dbEnable then
                key ← recordKey;
                if decide (key = ""%string) then go_panic (PMsg "conf record.dbIndex.key should not be empty") else Ret (Some (NewRecorder key))
              else Ret None);
  if decide (indexTemplate = ""%string) then go_panic (PMsg "conf record.indexName should not be empty")
  else Ret (recorder, new).

(** The recording: the segmenter in use, those given up with the result of closing them, how many tracks have
    ended, and what was written, each packet with the number of its segmenter. *)
Record recording := {
  current : S; given_up : list (S * option gerror); closedTrackNum : nat; written : list (nat * PacketBox)
}.

(** The [n]th segmenter [makeSegmenter] makes. *)
Context (make : nat -> run (S + gerror)) (trackNum : nat).

(** [sgtBox.Close()], deferred: its error is dropped. *)
Definition box_Close (r : recording) : run recording :=
  '(s, e) ← op_Close (current r);
  Ret {| current := s; given_up := given_up r; closedTrackNum := closedTrackNum r; written := written r |}.

Definition with_current (s : S) (r : recording) : recording :=
  {| current := s; given_up := given_up r; closedTrackNum := closedTrackNum r; written := written r |}.

(** A packet that is refused for its decoding time: another segmenter takes over. *)
Definition replace (r : recording) : run recording :=
  '(s, e) ← op_Close (current r);
  new ← make (Datatypes.S (length (given_up r)));
  match new with
  | inr err => err_panic err
  | inl s' => Ret {| current := s'; given_up := given_up r ++ [(s, e)]; closedTrackNum := closedTrackNum r; written := written r |}
  end.

Definition write_box (ssrc : Z) (p : rtp_packet) (buf : Z) (r : recording) : run recording :=
  '(s, ready) ← op_TryReady (current r);
  match ready with
  | inr err => err_panic err
  | inl false => Ret (with_current s r)
  | inl true =>
      '(s, err) ← op_WriteRtp s ssrc p buf;
      match err with
      | None => Ret {| current := s; given_up := given_up r; closedTrackNum := closedTrackNum r;
                       written := written r ++ [(length (given_up r), BData ssrc p buf)] |}
      | Some e => if decide (e = ErrBadDts) then replace (with_current s r) else err_panic e
      end
  end.

(** One iteration: the recording, and whether the goroutine goes on. *)
Definition record_step (x : rec_event) (r : recording) : run (recording * bool) :=
  match x with
  | PubClosed => r ← box_Close r; Ret (r, false)
  | Got (BEnd ssrc) =>
      '(s, _) ← op_CloseTrack (current r) ssrc;
      Ret ({| current := s; given_up := given_up r; closedTrackNum := Datatypes.S (closedTrackNum r); written := written r |}, true)
  | Got (BData ssrc p buf) =>
      if (closedTrackNum r =? trackNum)%nat then r ← box_Close r; Ret (r, false)
      else r ← write_box ssrc p buf r; Ret (r, true)
  end.

Fixpoint record_loop (l : list rec_event) (r : recording) : run (recording * bool) :=
  match l with
  | [] => Ret (r, true)
  | x :: l => '(r, go) ← record_step x r; if (go : bool) then record_loop l r else Ret (r, false)
  end.

Definition new_recording (s : S) : recording := {| current := s; given_up := []; closedTrackNum := 0; written := [] |}.
End Loop.
Arguments recording : clear implicits.

(** ** The segmenter of the program *)

Section Instance_.
Context `{H264Codec, SegLib, OS, Templates}.

#[global] Instance segmenter_ops : SegmenterOps Segmenter := {|
  op_CloseTrack := CloseTrack;
  op_TryReady s := '(s, b) ← TryReady s; Ret (s, inl b);
  op_WriteRtp := WriteRtp;
  op_Close := Close;
  op_closed s := s_closed s = true
|}.

#[global] Instance segmenter_laws : SegmenterLaws Segmenter.
Proof.
  split; cbn.
  - intros s s'. unfold Close. destruct (s_closed s) eqn:E; [by intros [= <-]|]. intros Hc.
    apply bind_ret_inv in Hc as ([s1 [e|]] & _ & Hc); [done|]. apply bind_ret_inv in Hc as (s2 & _ & Hc). by injection Hc as <-.
  - intros s ssrc p buf Hc. unfold WriteRtp. rewrite Hc. eauto.
  - intros s Hc. unfold Close. by rewrite Hc.
Qed.
End Instance_.

(** ** Properties *)

Section Properties.
Context {S : Type} `{SegmenterLaws S}.
Context (make : nat -> run (S + gerror)) (trackNum : nat).

(** The packets among what was taken from the channel. *)
Definition data_of (l : list rec_event) : list PacketBox :=
  omap (fun x => match x with Got (BData ssrc p buf) => Some (BData ssrc p buf) | _ => None end) l.

Definition closed_ok (x : S * option gerror) : Prop := x.2 = None -> op_closed x.1.

Record rec_ok (l : list rec_event) (r : recording S) : Prop := {
  ro_written : (written r).*2 `sublist_of` data_of l;
  ro_gens : StronglySorted le (written r).*1;
  ro_bound : Forall (fun g => (g <= length (given_up r))%nat) (written r).*1;
  ro_closed : Forall closed_ok (given_up r)
}.

Lemma data_snoc l x : data_of (l ++ [x]) = data_of l ++ match x with Got (BData ssrc p buf) => [BData ssrc p buf] | _ => [] end.
Proof. unfold data_of. rewrite omap_app. f_equal. by destruct x as [|[]]. Qed.

(** A step that writes nothing. *)
Lemma rec_ok_quiet l x (r r' : recording S) :
  rec_ok l r -> written r' = written r -> given_up r' = given_up r -> rec_ok (l ++ [x]) r'.
Proof.
  intros [H1 H2 H3 H4] Ew Eg. split; rewrite ?Ew, ?Eg; [|done..]. rewrite data_snoc. by apply sublist_inserts_r.
Qed.

Lemma sorted_snoc (l : list nat) g : StronglySorted le l -> Forall (fun x => (x <= g)%nat) l -> StronglySorted le (l ++ [g]).
Proof.
  induction 1 as [|x l Hs IH Hx]; intros Hf; [by repeat constructor|]. apply Forall_cons in Hf as [Hg Hf]. cbn. constructor; [by apply IH|].
  apply Forall_app. split; [done|]. by constructor.
Qed.

Lemma write_box_ok l ssrc p buf (r r' : recording S) :
  rec_ok l r -> write_box make ssrc p buf r = Ret r' -> rec_ok (l ++ [Got (BData ssrc p buf)]) r'.
Proof.
  intros Hok Hw. unfold write_box in Hw. apply bind_ret_inv in Hw as ([s ready] & _ & Hw).
  destruct ready as [[]|e]; [| |by destruct e].
  2:{ injection Hw as <-. by apply (rec_ok_quiet l _ r). }
  apply bind_ret_inv in Hw as ([s' [e|]] & _ & Hw).
  - destruct (decide (e = ErrBadDts)); [|by destruct e]. unfold replace in Hw. apply bind_ret_inv in Hw as ([s1 e1] & Hc & Hw).
    apply bind_ret_inv in Hw as (new & _ & Hw). destruct new as [s2|err]; [|by destruct err]. injection Hw as <-.
    destruct Hok as [H1 H2 H3 H4]. split; cbn; [rewrite data_snoc; by apply sublist_inserts_r|done| |].
    + eapply Forall_impl; [exact H3|]. cbn. intros g Hg. rewrite length_app. lia.
    + apply Forall_app. split; [done|]. constructor; [|done]. unfold closed_ok. cbn. intros ->. by eapply close_closes.
  - injection Hw as <-. destruct Hok as [H1 H2 H3 H4]. split; cbn; rewrite ?fmap_app; cbn.
    + rewrite data_snoc. by apply sublist_app.
    + by apply sorted_snoc.
    + apply Forall_app. split; [done|]. by repeat constructor.
    + done.
Qed.

Lemma record_step_ok l x (r r' : recording S) go : rec_ok l r -> record_step make trackNum x r = Ret (r', go) -> rec_ok (l ++ [x]) r'.
Proof.
  intros Hok Hs. destruct x as [|[ssrc|ssrc p buf]]; cbn [record_step] in Hs.
  - apply bind_ret_inv in Hs as (r1 & Hc & Hs). injection Hs as <- <-. unfold box_Close in Hc. apply bind_ret_inv in Hc as ([s e] & _ & Hc).
    injection Hc as <-. by apply (rec_ok_quiet l _ r).
  - apply bind_ret_inv in Hs as ([s e] & _ & Hs). injection Hs as <- <-. by apply (rec_ok_quiet l _ r).
  - destruct (closedTrackNum r =? trackNum)%nat; apply bind_ret_inv in Hs as (r1 & Hc & Hs); injection Hs as <- <-; [|by eapply write_box_ok].
    unfold box_Close in Hc. apply bind_ret_inv in Hc as ([s e] & _ & Hc). injection Hc as <-. by apply (rec_ok_quiet l _ r).
Qed.

(** The goroutine ends by closing the segmenter in use, and for no other reason. *)
Lemma record_stop x (r r' : recording S) :
  record_step make trackNum x r = Ret (r', false) -> exists s e, op_Close (current r) = Ret (s, e) /\ current r' = s.
Proof.
  intros Hs. destruct x as [|[ssrc|ssrc p buf]]; cbn [record_step] in Hs; [| |destruct (closedTrackNum r =? trackNum)%nat].
  - apply bind_ret_inv in Hs as (r1 & Hc & Hs). injection Hs as <-. unfold box_Close in Hc. apply bind_ret_inv in Hc as ([s e] & E & Hc).
    injection Hc as <-. eauto.
  - apply bind_ret_inv in Hs as ([s e] & _ & Hs). done.
  - apply bind_ret_inv in Hs as (r1 & Hc & Hs). injection Hs as <-. unfold box_Close in Hc. apply bind_ret_inv in Hc as ([s e] & E & Hc).
    injection Hc as <-. eauto.
  - apply bind_ret_inv in Hs as (? & _ & Hs). done.
Qed.

Lemma record_loop_ok l : forall pre (r r' : recording S) go,
  rec_ok pre r -> record_loop make trackNum l r = Ret (r', go) ->
  exists l1 l2, l = l1 ++ l2 /\ rec_ok (pre ++ l1) r' /\ (go = true -> l2 = []) /\
    (go = false -> exists r0 s e, op_Close (current (S := S) r0) = Ret (s, e) /\ current r' = s).
Proof.
  induction l as [|x l IH]; intros pre r r' go Hok Hl; cbn [record_loop] in Hl.
  - injection Hl as <- <-. exists [], []. rewrite (app_nil_r pre). by split_and!.
  - apply bind_ret_inv in Hl as ([r1 g] & Hs & Hl). pose proof (record_step_ok pre x r r1 g Hok Hs) as Hok1. destruct g.
    + destruct (IH (pre ++ [x]) r1 r' go Hok1 Hl) as (l1 & l2 & -> & Hok2 & Ht & Hf). exists (x :: l1), l2.
      rewrite <- app_assoc in Hok2. done.
    + injection Hl as <- <-. exists [x], l. split; [done|]. split; [done|]. split; [done|]. intros _. exists r. by eapply record_stop.
Qed.

(** C23. Recording, with any segmenter that keeps the promises of the interface, for any sequence of packets and
    ends of tracks.  Each packet is written at most once, and in the order of arrival; the segmenters follow one another: what is
    written to a later one arrived later; one that was given up and closed without an error stays closed and
    refuses every packet; and when the goroutine ends it has closed the last one. *)
Theorem recording_safe s0 l r go :
  record_loop make trackNum l (new_recording s0) = Ret (r, go) ->
  (written r).*2 `sublist_of` data_of l /\ StronglySorted le (written r).*1 /\
  Forall (fun g => (g <= length (given_up r))%nat) (written r).*1 /\
  (forall i s, given_up r !! i = Some (s, None) -> op_Close s = Ret (s, None) /\
     forall ssrc p buf, exists e, op_WriteRtp s ssrc p buf = Ret (s, Some e)) /\
  (go = false -> exists r0 s e, op_Close (current (S := S) r0) = Ret (s, e) /\ current r = s /\ (e = None -> op_closed s)).
Proof.
  intros Hl. destruct (record_loop_ok l [] (new_recording s0) r go) as (l1 & l2 & -> & [H1 H2 H3 H4] & _ & Hf); [|done|].
  { split; [apply sublist_nil_l|constructor|constructor|constructor]. }
  split; [|split; [done|split; [done|split]]].
  - unfold data_of. rewrite omap_app. by apply sublist_inserts_r.
  - intros i s Hi. rewrite Forall_lookup in H4. specialize (H4 i (s, None) Hi eq_refl). cbn in H4. split; [by apply close_again|].
    intros. by apply closed_refuses.
  - intros Hg. destruct (Hf Hg) as (r0 & s & e & Hc & Hr). exists r0, s, e. split; [done|]. split; [done|]. intros ->. by eapply close_closes.
Qed.

(** The end of the last track does not end the goroutine: the count is looked at only when another packet
    arrives, and there is none any more. *)
Lemma end_unnoticed ssrc (r r' : recording S) go :
  record_step make trackNum (Got (BEnd ssrc)) r = Ret (r', go) -> go = true.
Proof. cbn. intros Hs. by apply bind_ret_inv in Hs as ([s e] & _ & [= _ <-]). Qed.

(** A packet that arrives before the segmenter is ready is dropped. *)
Lemma early_dropped ssrc p buf (r r' : recording S) s :
  op_TryReady (current r) = Ret (s, inl false) -> write_box make ssrc p buf r = Ret r' -> written r' = written r.
Proof. intros Hr Hw. unfold write_box in Hw. rewrite Hr in Hw. by injection Hw as <-. Qed.
End Properties.

(** ** Witness *)
Module Toy.
Import SegmenterProps.Toy.
#[local] Existing Instances codec lib os tmpl.

Definition seg0 : Segmenter := NewSegmenter [lt0] 5 2 true true.
Definition make0 (n : nat) : run (Segmenter + gerror) := Ret (inl seg0).
Definition events0 : list rec_event := [Got (BData 7 (frame 0) 1); Got (BData 7 (frame 1) 2); Got (BEnd 7); PubClosed].
Definition recorded0 : recording Segmenter :=
  Eval vm_compute in match record_loop make0 1 events0 (new_recording seg0) with Ret (r, _) => r | Abort _ => new_recording seg0 end.

Lemma recorded0_run : record_loop make0 1 events0 (new_recording seg0) = Ret (recorded0, false).
Proof. vm_compute. reflexivity. Qed.

Lemma recording_safe_witness : (written recorded0).*2 `sublist_of` data_of events0 /\ length (written recorded0) = 2%nat.
Proof.
  destruct (recording_safe make0 1 seg0 events0 recorded0 false recorded0_run) as (Hw & _).
  split; [exact Hw|reflexivity].
Defined.
End Toy.
