(* ===== verification/Templates.v ===== *)
(** * Templates: names of recordings ([pkg/segmenter/segmenter.go], [pkg/common/reflect.go], [signal/model.go])

    The directory, the index and the database key of a recording come from
    templates with tags between double braces.  The template package is a
    parameter: a parsed template is its texts and tags, executing it writes
    the texts and the results of the tags, and an error of a tag panics.  A
    time is its nanoseconds since 1970, as in [Segmenter]; an [interface{}] that
    is read by reflection is an [rval]. *)
From S2P Require Import Prelude GoStrings Strconv Segmenter.
Local Open Scope Z_scope.
Local Open Scope list_scope.

(** ** Dates: [Year], [Month], [Day], [Hour] and [Minute] of a time in UTC *)

Definition unix_seconds (t : Z) : Z := t / 1000000000.

(** Days since 1970-01-01 in the Gregorian calendar, by 400-year eras that start in
    March. *)
Definition civil (days : Z) : Z * Z * Z :=
  let z := days + 719468 in
  let era := z / 146097 in
  let doe := z mod 146097 in
  let yoe := (doe - doe / 1460 + doe / 36524 - doe / 146096) / 365 in
  let doy := doe - (365 * yoe + yoe / 4 - yoe / 100) in
  let mp := (5 * doy + 2) / 153 in
  let d := doy - (153 * mp + 2) / 5 + 1 in
  let m := if mp <? 10 then mp + 3 else mp - 9 in
  (yoe + era * 400 + (if m <=? 2 then 1 else 0), m, d).

Definition date (t : Z) : Z * Z * Z := civil (unix_seconds t / 86400).
Definition Year (t : Z) : Z := (date t).1.1.
Definition Month (t : Z) : Z := (date t).1.2.
Definition Day (t : Z) : Z := (date t).2.
Definition Hour (t : Z) : Z := unix_seconds t mod 86400 / 3600.
Definition Minute (t : Z) : Z := unix_seconds t mod 3600 / 60.

Example date_leap : date (1709210096 * 1000000000) = (2024, 2, 29).
Proof. reflexivity. Qed.
Example date_old : date (-62135596800 * 1000000000) = (1, 1, 1).
Proof. reflexivity. Qed.

(** The verb %0nd for a number that is not negative. *)
Fixpoint zeros (n : nat) : string := match n with O => ""%string | S n => String (Ascii.ascii_of_nat 48) (zeros n) end.
Definition pad (n : nat) (z : Z) : string := let s := FormatInt z in (zeros (n - String.length s) +:+ s)%string.

Definition string_tail (n : nat) (s : string) : string := String.substring n (String.length s - n) s.

(** ** Reflection *)

(** The values [GetFieldByPath] tells apart; a field says whether it is
    exported, an interface holds a value that is none. *)
Inductive rval :=
  | RPtr (o : option rval)
  | RMapStr (m : list (string * rval))
  | RMapOther
  | RStruct (fields : list (string * (bool * rval)))
  | RIface (o : option rval)
  | ROther (s : string).

Fixpoint assoc {A} (k : string) (l : list (string * A)) : option A :=
  match l with [] => None | (k', x) :: l => if decide (k' = k) then Some x else assoc k l end.

(** [unwrapPointer], and whether there was a pointer. *)
Fixpoint unwrapPointer (v : rval) : option rval :=
  match v with RPtr (Some v) => unwrapPointer v | RPtr None => None | _ => Some v end.
Definition is_ptr (v : rval) : bool := match v with RPtr _ => true | _ => false end.

(** One key of the path, on a value that is no interface: [ro] is set by an
    unexported field. *)
Definition field_of (key : string) (v : rval) (ro : bool) : run (option (rval * bool)) :=
  match unwrapPointer v with
  | Some (RMapStr m) => if is_ptr v then go_panic (PMsg "reflect: Key of non-map type") else Ret (x ← assoc key m; Some (x, ro))
  | Some RMapOther => if is_ptr v then go_panic (PMsg "reflect: Key of non-map type") else Ret None
  | Some (RStruct fs) =>
      match assoc key fs with
      | Some (exported, x) => Ret (Some (x, ro || negb exported))
      | None => go_panic (PMsg "reflect: call of reflect.Value.Type on zero Value")
      end
  | _ => Ret None
  end.

(** The loop; through an interface the search starts again on what it holds. *)
Fixpoint get_path (keys : list string) (v : rval) (ro : bool) : run (option rval + gerror) :=
  let err := inr (EOther "unable to get field") in
  match keys with
  | [] => Ret (inl (if ro then None else match v with RIface o => o | _ => Some v end))
  | key :: keys =>
      r ← match unwrapPointer v with
          | Some (RIface o) =>
              if ro then go_panic (PMsg "reflect.Value.Interface: cannot return value obtained from unexported field or method")
              else match o with Some x => field_of key x false | None => Ret None end
          | _ => field_of key v ro
          end;
      match r with Some (x, ro) => get_path keys x ro | None => Ret err end
  end.

Definition dot : Ascii.ascii := Ascii.ascii_of_nat 46.
Definition GetFieldByPath (path : string) (object : rval) : run (option rval + gerror) := get_path (Split dot path) object false.

(** ** Tags *)

Definition colon : Ascii.ascii := Ascii.ascii_of_nat 58.

(** [strings.SplitN(s, ":", n)] *)
Fixpoint SplitN (n : nat) (s : string) : list string :=
  match n with
  | O => []
  | S O => [s]
  | S n => match cut_at colon s with Some (l, r) => l :: SplitN n r | None => [s] end
  end.

Definition calcSuperExpr (v : Z) (postfix : string) : run Z :=
  let postfix := TrimSpace postfix in
  if decide (postfix = ""%string) then Ret v
  else if HasPrefix postfix "|" then
    match Atoi (TrimSpace (string_tail 1 postfix)) with
    | None => go_panic (PMsg "strconv.Atoi")
    | Some t => if t =? 0 then go_panic (PMsg "integer divide by zero") else Ret (i64 (Z.quot v t * t))
    end
  else go_panic (PMsg "invalid expr").

(** [GetCommonLabel]: the labels of a thing may be nil. *)
Fixpoint common_label (label : string) (things : list (option (gmap string string))) (common : option string) : option string :=
  match things with
  | [] => common
  | labels :: things =>
      match labels ≫= lookup label with
      | None => None
      | Some value =>
          match common with
          | None => common_label label things (Some value)
          | Some c => if decide (value = c) then common_label label things common else None
          end
      end
  end.
Definition GetCommonLabel (label : string) (things : list (option (gmap string string))) : option string := common_label label things None.

Class TemplateLib := {
  template_pieces : string -> run (list (string + string));
  fmt_value : option rval -> string;
  uuid_hex : string
}.

Section Tags.
Context `{TemplateLib}.

(** A tag with a label: the value all tracks share, or the default. *)
Definition label_tag (tag : string) (tracks : list (option (gmap string string))) : string + gerror :=
  let parts := SplitN 3 tag in
  match parts with
  | _ :: labelName :: rest =>
      match GetCommonLabel labelName tracks with
      | Some v => inl v
      | None => match rest with d :: _ => inl d | [] => inr (EOther "invalid label") end
      end
  | _ => inr (EOther "label name is empty")
  end.

Definition commonTemplate (tag : string) (t : Z) (tracks : list (option (gmap string string))) (ctx : rval) : run (string + gerror) :=
  let tagL := ToLower tag in
  let number (n width : nat) (v : Z) := x ← calcSuperExpr v (string_tail n tag); Ret (inl (pad width x)) in
  if HasPrefix tagL "year" then number 4%nat 4%nat (Year t)
  else if HasPrefix tagL "month" then number 5%nat 2%nat (Month t)
  else if HasPrefix tagL "day" then number 3%nat 2%nat (Day t)
  else if HasPrefix tagL "hour" then number 4%nat 2%nat (Hour t)
  else if HasPrefix tagL "minute" then number 6%nat 2%nat (Minute t)
  else if HasPrefix tagL "second" then number 6%nat 2%nat (Minute t)
  else if HasPrefix tagL "label:" then
    match tracks with [] => Ret (inr (EOther "unsupported tag")) | _ => Ret (label_tag tag tracks) end
  else if HasPrefix tagL "uuid" then
    let parts := SplitN 2 tag in
    match (match parts with _ :: n :: _ => Atoi (TrimSpace n) | _ => Some 32 end) with
    | None => Ret (inr (EOther "invalid uuid expr"))
    | Some l => if (l <? 0) || (32 <? l) then Ret (inr (EOther "invalid uuid expr"))
                else Ret (inl (String.substring 0 (Z.to_nat l) uuid_hex))
    end
  else
    v ← GetFieldByPath tag ctx;
    match v with inr _ => Ret (inr (EOther "parse template failed")) | inl v => Ret (inl (fmt_value v)) end.

(** ** Executing a template *)

Fixpoint execute (pieces : list (string + string)) (f : string -> run (string + gerror)) : run string :=
  match pieces with
  | [] => Ret ""%string
  | inl text :: l => rest ← execute l f; Ret (text +:+ rest)%string
  | inr tag :: l =>
      r ← f tag;
      match r with
      | inr _ => go_panic (PMsg "unexpected error")
      | inl s => rest ← execute l f; Ret (s +:+ rest)%string
      end
  end.

Definition ExecuteFuncString (template : string) (f : string -> run (string + gerror)) : run string :=
  pieces ← template_pieces template; execute pieces f.

Variables (baseTemplate : option string) (directoryTemplate indexUriTemplate : string).
Variables (labels : list (option (gmap string string))) (ctx : rval).

Definition base_of (t : Z) : run string :=
  match baseTemplate with
  | None => Ret ""%string
  | Some tmpl => ExecuteFuncString tmpl (fun tag => commonTemplate (TrimSpace tag) t labels ctx)
  end.
Definition directory_of (t : Z) : run string :=
  ExecuteFuncString directoryTemplate (fun tag => commonTemplate (TrimSpace tag) t labels ctx).
Definition index_of (t : Z) : run string :=
  ExecuteFuncString indexUriTemplate (fun tag =>
    let tag := TrimSpace tag in
    if decide (ToLower tag = "ext"%string) then Ret (inl ".m3u8"%string) else commonTemplate tag t labels ctx).

(** What the segmenter is given. *)
Definition segment_templates : Segmenter.Templates :=
  {| calcBaseTemplate := base_of; calcIndexTemplate := index_of; calcDirectoryTemplate := directory_of |}.

(** The key of the database entry ([createRecordKey]). *)
Definition createRecordKey (keyTemplate : string) : run string :=
  if decide (keyTemplate = ""%string) then go_panic (PMsg "conf record.dbIndex.key should not be empty when dbIndex enabled")
  else ExecuteFuncString keyTemplate (fun tag =>
    let tag := TrimSpace tag in
    if HasPrefix (ToLower tag) "label:" then Ret (label_tag tag labels)
    else v ← GetFieldByPath tag ctx;
         match v with inr _ => Ret (inr (EOther "invalid tag in key template")) | inl v => Ret (inl (fmt_value v)) end).
End Tags.

(** ** Properties *)

(** A value is common when there is a thing and each thing has the label with it. *)
Definition common (label v : string) (things : list (option (gmap string string))) : Prop :=
  things <> [] /\ Forall (fun labels => labels ≫= lookup label = Some v) things.

Lemma common_label_from label v things c :
  common_label label things (Some c) = Some v <-> v = c /\ Forall (fun labels => labels ≫= lookup label = Some c) things.
Proof.
  induction things as [|labels things IH]; cbn; [naive_solver|].
  rewrite Forall_cons. destruct (labels ≫= lookup label) as [w|]; [|naive_solver].
  case_decide as Hw; [subst; rewrite IH|]; naive_solver.
Qed.

Lemma GetCommonLabel_iff label v things : GetCommonLabel label things = Some v <-> common label v things.
Proof.
  unfold GetCommonLabel, common. destruct things as [|labels things]; cbn; [naive_solver|].
  rewrite Forall_cons. destruct (labels ≫= lookup label) as [w|]; [rewrite common_label_from|]; naive_solver.
Qed.

Lemma GetCommonLabel_none label things : GetCommonLabel label things = None <-> forall v, ~ common label v things.
Proof.
  destruct (GetCommonLabel label things) as [v|] eqn:E.
  - apply GetCommonLabel_iff in E. naive_solver.
  - split; [|done]. intros _ v Hv. apply GetCommonLabel_iff in Hv. congruence.
Qed.

Lemma SplitN_label name : has_char colon name = false -> SplitN 3 ("label:" +:+ name) = ["label"%string; name].
Proof.
  intros Hn. change (SplitN 3 ("label:" +:+ name)) with ("label"%string :: SplitN 2 name).
  cbn [SplitN]. by rewrite (proj2 (cut_at_none colon name) Hn).
Qed.

Lemma SplitN_label_default name d :
  has_char colon name = false -> SplitN 3 ("label:" +:+ name +:+ ":" +:+ d) = ["label"%string; name; d].
Proof.
  intros Hn. change (SplitN 3 ("label:" +:+ name +:+ ":" +:+ d)) with ("label"%string :: SplitN 2 (name +:+ String colon d)).
  cbn [SplitN]. by rewrite (cut_at_app colon name d Hn).
Qed.

Lemma commonTemplate_label `{TemplateLib} x t tracks ctx :
  tracks <> [] -> commonTemplate ("label:" +:+ x) t tracks ctx = Ret (label_tag ("label:" +:+ x) tracks).
Proof.
  intros Ht. unfold commonTemplate.
  assert (HasPrefix (ToLower ("label:" +:+ x)) "label:" = true) as -> by (by destruct x).
  destruct tracks; [done|]. reflexivity.
Qed.

(**  A tag [label:name] writes the value of the label that all tracks share, and
    without one it is an error; with a default, [label:name:default], it writes the
    shared value when there is one and the default otherwise, never an error. *)
Theorem label_template `{TemplateLib} (name d : string) (t : Z) (tracks : list (option (gmap string string))) (ctx : rval) :
  has_char colon name = false -> tracks <> [] ->
  (exists s, commonTemplate ("label:" +:+ name +:+ ":" +:+ d) t tracks ctx = Ret (inl s) /\
     (common name s tracks \/ (forall v, ~ common name v tracks) /\ s = d)) /\
  match commonTemplate ("label:" +:+ name) t tracks ctx with
  | Ret (inl s) => common name s tracks
  | Ret (inr _) => forall v, ~ common name v tracks
  | _ => False
  end.
Proof.
  intros Hn Ht. rewrite !commonTemplate_label by done. unfold label_tag.
  rewrite (SplitN_label _ Hn), (SplitN_label_default _ d Hn).
  destruct (GetCommonLabel name tracks) as [v|] eqn:E.
  - apply GetCommonLabel_iff in E. split; [by exists v; split; [|left] | done].
  - pose proof (proj1 (GetCommonLabel_none _ _) E) as Hno. split; [by exists d; split; [|right] | done].
Qed.

(** *** Numbers *)

Lemma TrimRight_noop s : (forall c, is_space c = true -> has_char c s = false) -> TrimRight s = s.
Proof.
  induction s as [|a s IH]; intros Hs; [done|]. cbn.
  assert (is_space a = false) as Ha.
  { destruct (is_space a) eqn:E; [|done]. specialize (Hs a E). cbn in Hs. by rewrite decide_True in Hs. }
  rewrite IH; [by destruct s; [rewrite Ha|]|].
  intros c Hc. specialize (Hs c Hc). cbn in Hs. by case_decide.
Qed.

Lemma TrimSpace_noop s : (forall c, is_space c = true -> has_char c s = false) -> TrimSpace s = s.
Proof.
  intros Hs. unfold TrimSpace. rewrite <- (TrimRight_noop s Hs) at 2. f_equal. destruct s as [|a s]; [done|].
  cbn. destruct (is_space a) eqn:E; [|done]. specialize (Hs a E). cbn in Hs. by rewrite decide_True in Hs.
Qed.

Lemma spaceless_digits z c : is_space c = true -> has_char c (FormatUint z) = false.
Proof. unfold is_space. intros Hc%bool_decide_eq_true. apply FormatUint_chars. unfold is_digit. lia. Qed.

Lemma string_tail_app p s : string_tail (String.length p) (p +:+ s) = s.
Proof.
  unfold string_tail. induction p as [|a p IH]; [cbn; rewrite Nat.sub_0_r; apply substring_full|exact IH].
Qed.

Definition bar : Ascii.ascii := Ascii.ascii_of_nat 124.

(** [|n] rounds a number down to a multiple of n. *)
Lemma calcSuperExpr_round v n :
  0 <= v < 2 ^ 63 -> 0 < n < 2 ^ 63 -> calcSuperExpr v (String bar (FormatUint n)) = Ret (n * (v / n)).
Proof.
  intros Hv Hn. unfold calcSuperExpr. rewrite TrimSpace_noop.
  2:{ intros c Hc. cbn [has_char]. rewrite decide_False by (by intros <-). by apply spaceless_digits. }
  rewrite decide_False by done. change (string_tail 1 (String bar (FormatUint n))) with (string_tail (String.length "|") ("|" +:+ FormatUint n)).
  assert (HasPrefix (String bar (FormatUint n)) "|" = true) as -> by (by destruct (FormatUint n)).
  rewrite string_tail_app, TrimSpace_noop by (apply spaceless_digits). rewrite Atoi_FormatUint by lia.
  rewrite (proj2 (Z.eqb_neq n 0)) by lia. f_equal.
  rewrite Z.quot_div_nonneg, (Z.mul_comm (v / n)) by lia. apply i64_id. unfold is_i64.
  pose proof (Z.mul_div_le v n ltac:(lia)). pose proof (Z.div_pos v n ltac:(lia) ltac:(lia)). nia.
Qed.

(** The hours of a day, and of a time. *)
Lemma Hour_bound t : 0 <= Hour t < 24.
Proof.
  unfold Hour. pose proof (Z.mod_pos_bound (unix_seconds t) 86400 ltac:(lia)).
  split; [apply Z.div_pos; lia|]. apply Z.div_lt_upper_bound; lia.
Qed.

(** The tag [hour|n] groups recordings: it writes the greatest multiple of n that
    is not above the hour in UTC, with two digits, so that all recordings that start in
    the same n hours get the same text. *)
Theorem hour_groups `{TemplateLib} (n t : Z) (tracks : list (option (gmap string string))) (ctx : rval) :
  0 < n < 2 ^ 63 ->
  exists k, commonTemplate ("hour|" +:+ FormatUint n) t tracks ctx = Ret (inl (pad 2 (n * k))) /\
    n * k <= Hour t < n * (k + 1).
Proof.
  intros Hn. exists (Hour t / n). pose proof (Hour_bound t). split.
  - unfold commonTemplate.
    assert (HasPrefix (ToLower ("hour|" +:+ FormatUint n)) "hour" = true) as -> by (by destruct (FormatUint n)).
    change (string_tail 4 ("hour|" +:+ FormatUint n)) with (string_tail (String.length "hour") ("hour" +:+ String bar (FormatUint n))).
    rewrite string_tail_app, (calcSuperExpr_round (Hour t)) by lia. reflexivity.
  - pose proof (Z.mul_div_le (Hour t) n ltac:(lia)). pose proof (Z.mul_succ_div_gt (Hour t) n ltac:(lia)). rewrite Z.add_1_r. lia.
Qed.

(** *** What the templates get wrong *)

(** The tag for seconds writes minutes. *)
Lemma second_is_minute `{TemplateLib} t tracks ctx : commonTemplate "second" t tracks ctx = commonTemplate "minute" t tracks ctx.
Proof. reflexivity. Qed.

(** The context of a recording: the record of the caller under [auth]. *)
Definition auth_context (fields : list (string * (bool * rval))) : rval :=
  RMapStr [("auth"%string, RIface (Some (RPtr (Some (RStruct fields)))))].

Lemma Split_one key : has_char dot key = false -> Split dot key = [key].
Proof.
  induction key as [|a key IH]; cbn; [done|]. case_decide; [done|]. intros Hk. by rewrite IH.
Qed.

Lemma Split_path key : has_char dot key = false -> Split dot ("auth." +:+ key) = ["auth"%string; key].
Proof.
  intros Hk. change ("auth." +:+ key) with ("auth" +:+ String dot key). rewrite !app_string_cons, app_string_nil_l.
  cbn [Split]. by rewrite (Split_one key Hk).
Qed.

(** A path to an exported field of the caller's record gives its value; a name it
    does not have stops the program. *)
Lemma auth_field fields key :
  has_char dot key = false ->
  GetFieldByPath ("auth." +:+ key) (auth_context fields) =
    match assoc key fields with
    | Some (true, RIface o) => Ret (inl o)
    | Some (true, x) => Ret (inl (Some x))
    | Some (false, _) => Ret (inl None)
    | None => go_panic (PMsg "reflect: call of reflect.Value.Type on zero Value")
    end.
Proof.
  intros Hk. unfold GetFieldByPath. rewrite Split_path by done.
  unfold auth_context, get_path, field_of. cbn -[assoc]. cbn [assoc]. rewrite decide_True by done. cbn -[assoc].
  destruct (assoc key fields) as [[[] x]|]; [destruct x| |]; reflexivity.
Qed.

(** ** Witnesses *)
Module Toy.
(** A template library with one literal template, and a value printed as its text. *)
#[export] Instance toy : TemplateLib := {|
  template_pieces _ := Ret [inl "rec/"%string; inr " label:room:none "%string; inl "/"%string; inr "hour|6"%string];
  fmt_value v := match v with Some (ROther s) => s | _ => "<nil>"%string end;
  uuid_hex := "00112233445566778899aabbccddeeff"%string
|}.

Definition camera : option (gmap string string) := Some {["room"%string := "r1"%string]}.

Lemma label_template_witness :
  commonTemplate "label:room:none" 0 [camera; camera] (RMapStr []) = Ret (inl "r1"%string) /\
  ((exists s, commonTemplate ("label:" +:+ "room" +:+ ":" +:+ "none") 0 [camera; camera] (RMapStr []) = Ret (inl s) /\
     (common "room" s [camera; camera] \/ (forall v, ~ common "room" v [camera; camera]) /\ s = "none"%string)) /\
   match commonTemplate ("label:" +:+ "room") 0 [camera; camera] (RMapStr []) with
   | Ret (inl s) => common "room" s [camera; camera]
   | Ret (inr _) => forall v, ~ common "room" v [camera; camera]
   | _ => False
   end).
Proof. split; [vm_compute; reflexivity|]. apply label_template; [reflexivity | done]. Defined.

(** 10:15:03 UTC falls into the hours from 6 to 12. *)
Lemma hour_groups_witness :
  exists k, commonTemplate ("hour|" +:+ FormatUint 6) 36903000000000 [] (RMapStr []) = Ret (inl (pad 2 (6 * k))) /\
    6 * k <= Hour 36903000000000 < 6 * (k + 1).
Proof. apply hour_groups. lia. Defined.

Example directory :
  directory_of "t" [camera; camera] (RMapStr []) 36903000000000 = Ret "rec/r1/06"%string.
Proof. vm_compute. reflexivity. Qed.
End Toy.
