(* ===== verification/Packets.v ===== *)
(** * Packets: the wire formats of [signal/router.go]

    The routers of two nodes exchange UDP datagrams of four kinds: a setup
    request and its acknowledgement (8 bytes of magic, 16 of router id), a
    data packet (4 bytes of magic, 16 of track id, then the RTP packet) and
    an end-of-stream packet (magic and track id).  Bytes are [Z] in
    [0, 256).  [github.com/google/uuid] and [github.com/pion/rtp] are
    parameters of the model, with the documented behaviour the code relies
    on as the laws [UuidLaws] and [RtpLaws]; [UuidHex] gives the canonical
    8-4-4-4-12 text form as an instance, used by the witnesses. *)
From S2P Require Import Prelude Collection.
Local Open Scope string_scope.
Local Open Scope list_scope.

(** ** Bytes *)

Definition byte_of (c : Ascii.ascii) : Z := Z.of_N (Ascii.N_of_ascii c).

(** [[]byte(s)] *)
Fixpoint bytes_of (s : string) : list Z :=
  match s with "" => [] | String c s' => byte_of c :: bytes_of s' end.

Definition is_byte (z : Z) : Prop := (0 <= z < 256)%Z.

(** [bytes.Equal] *)
Definition bytes_Equal (a b : list Z) : bool := bool_decide (a = b).

(** [errors.BAD_PACKET], [errors.ERR_FATAL] *)
Definition BAD_PACKET : Z := 10000.
Definition ERR_FATAL : Z := 1000.

Definition MAGIC_SETUP : string := "consetup".
Definition MAGIC_ARK : string := "conneark".
Definition MAGIC_PACKET : string := "subr".
Definition MAGIC_EOF : string := "eofp".

Definition PACKET_MAGIC_SIZE : nat := 4.
Definition PACKET_TRACK_HEADER_SIZE : nat := 20.
Definition PACKET_MAX_SIZE : nat := 1600.

(** ** Third-party code

    [uuid.Parse], [UUID.String] and [uuid.FromBytes]; a [uuid.UUID] is an
    array of 16 bytes. *)
Class Uuid := {
  uuid_Parse : string -> option (list Z);
  uuid_String : list Z -> string;
  uuid_FromBytes : list Z -> option (list Z)
}.

Definition is_uuid (b : list Z) : Prop := length b = 16 /\ Forall is_byte b.

Class UuidLaws `{Uuid} : Prop := {
  Parse_is_uuid s b : uuid_Parse s = Some b -> is_uuid b;
  Parse_String b : is_uuid b -> uuid_Parse (uuid_String b) = Some b;
  FromBytes_uuid b : length b = 16 -> uuid_FromBytes b = Some b
}.

(** An [*rtp.Packet]: [MarshalTo] writes into a buffer and returns the
    new contents of the buffer and the number of bytes written. *)
Class Rtp (R : Type) := {
  MarshalSize : R -> nat;
  MarshalTo : R -> list Z -> (list Z * nat) + gerror
}.

(** [marshal r] is the encoding that [MarshalTo] writes. *)
Class RtpLaws (R : Type) `{Rtp R} := {
  marshal : R -> list Z;
  marshal_size r : length (marshal r) = MarshalSize r;
  MarshalTo_ok r buf : MarshalSize r <= length buf ->
    MarshalTo r buf = inl (marshal r ++ drop (MarshalSize r) buf, MarshalSize r)
}.

(** ** The code: setup packets *)

Record SetupPacket := { Magic : list Z; TransportId : list Z }.

#[global] Instance SetupPacket_eq_dec : EqDecision SetupPacket.
Proof. solve_decision. Defined.

Definition zeros (n : nat) : list Z := replicate n 0%Z.

(** The zero [SetupPacket] and [SetupArkPacket]; the two types have the
    same fields. *)
Definition zero_setup : SetupPacket := {| Magic := zeros 8; TransportId := zeros 16 |}.

(** The body of [NewSetupPacket] and [NewSetupArkPacket] for their magic. *)
Definition new_setup (magic : string) (id : option (list Z)) : SetupPacket :=
  let p := {| Magic := go_copy (Magic zero_setup) 0 8 (bytes_of magic);
              TransportId := TransportId zero_setup |} in
  match id with
  | Some id => {| Magic := Magic p; TransportId := go_copy (TransportId p) 0 16 id |}
  | None => p
  end.

(** The body of [NewSetupPacketBuf] and [NewSetupArkPacketBuf]. *)
Definition new_setup_buf (magic : string) (id : option (list Z)) : run (list Z) :=
  let out := go_copy (zeros 24) 0 24 (bytes_of magic) in
  id ← go_deref id;
  Ret (go_copy out 8 24 id).

(** The body of [IsSetup] and [IsSetupArk]. *)
Definition is_setup_magic (magic : string) (data : list Z) : bool :=
  if (length data <? 24)%nat then false
  else bytes_Equal (take 8 data) (bytes_of magic).

(** The body of [DecodeSetupPacket] and [DecodeSetupArkPacket]: the error
    and the new contents of [packet]. *)
Definition decode_setup (magic : string) (buf : list Z) (n : Z) (packet : SetupPacket)
    : run (option gerror * SetupPacket) :=
  if negb (n =? 24)%Z then Ret (Some (EConf BAD_PACKET), packet)
  else
    m ← go_slice buf 0 8;
    if bytes_Equal m (bytes_of magic) then
      id ← go_slice buf 8 24;
      Ret (None, {| Magic := Magic packet; TransportId := id |})
    else Ret (Some (EConf BAD_PACKET), packet).

Definition NewSetupPacket := new_setup MAGIC_SETUP.
Definition NewSetupPacketBuf := new_setup_buf MAGIC_SETUP.
Definition IsSetup := is_setup_magic MAGIC_SETUP.
Definition DecodeSetupPacket := decode_setup MAGIC_SETUP.

Definition NewSetupArkPacket := new_setup MAGIC_ARK.
Definition NewSetupArkPacketBuf := new_setup_buf MAGIC_ARK.
Definition IsSetupArk := is_setup_magic MAGIC_ARK.
Definition DecodeSetupArkPacket := decode_setup MAGIC_ARK.

Definition IsSetupId (data id : list Z) : bool :=
  if (length data <? 24)%nat then false
  else bytes_Equal (take 16 (drop 8 data)) id.

(** [SetupArkPacket.Marshal] *)
Definition Marshal (p : SetupPacket) : list Z :=
  go_copy (go_copy (zeros 24) 0 24 (Magic p)) 8 24 (TransportId p).

(** ** The code: data and EOF packets *)

Record Packet := { TrackId : string; data : list Z; n : nat }.

#[global] Instance Packet_eq_dec : EqDecision Packet.
Proof. solve_decision. Defined.

(** [Packet{}] *)
Definition zero_packet : Packet := {| TrackId := ""; data := zeros PACKET_MAX_SIZE; n := 0 |}.

Definition IsDataPacket (data : list Z) : bool :=
  if (length data <=? 20)%nat then false
  else bytes_Equal (take 4 data) (bytes_of MAGIC_PACKET).

Definition IsEofPacket (data : list Z) : bool :=
  if negb (length data =? PACKET_TRACK_HEADER_SIZE)%nat then false
  else bytes_Equal (take PACKET_MAGIC_SIZE data) (bytes_of MAGIC_EOF).

(** [p.data[:p.n]], what is sent for a packet. *)
Definition wire (p : Packet) : run (list Z) := go_slice (data p) 0 (Z.of_nat (n p)).

Definition IsEOF (p : Packet) : run bool := IsEofPacket <$> wire p.
Definition IsData (p : Packet) : run bool := IsDataPacket <$> wire p.

(** [packetPool]: the packets it holds.  [Get] may return any of them;
    the model takes the first and, when there is none, calls [New]. *)
Definition Pool := list Packet.

Definition getPacketAllocationFromPool (pool : Pool) : Packet * Pool :=
  match pool with [] => (zero_packet, []) | p :: pool' => (p, pool') end.

Definition resetPacketPoolAllocation (packet : Packet) (pool : Pool) : Pool :=
  zero_packet :: pool.

(** The two copies every constructor makes: magic and track id. *)
Definition put_header (d : list Z) (magic : string) (id : list Z) : list Z :=
  go_copy (go_copy d 0 PACKET_MAGIC_SIZE (bytes_of magic))
          PACKET_MAGIC_SIZE PACKET_TRACK_HEADER_SIZE id.

Section Constructors.
Context `{Uuid} {R : Type} `{Rtp R}.

(** The error [uuid.Parse] returns. *)
Definition parse_error : gerror := EOther "uuid".

Definition NewEOFPacket (trackId : string) (pool : Pool) : (Packet + gerror) * Pool :=
  match uuid_Parse trackId with
  | None => (inr parse_error, pool)
  | Some id =>
      let '(p, pool) := getPacketAllocationFromPool pool in
      (inl {| TrackId := trackId; data := put_header (data p) MAGIC_EOF id;
              n := PACKET_TRACK_HEADER_SIZE |}, pool)
  end.

Definition NewDataPacket (trackId : string) (raw : R) (pool : Pool) : (Packet + gerror) * Pool :=
  match uuid_Parse trackId with
  | None => (inr parse_error, pool)
  | Some id =>
      let '(p, pool) := getPacketAllocationFromPool pool in
      if (PACKET_MAX_SIZE - PACKET_TRACK_HEADER_SIZE <? MarshalSize raw)%nat
      then (inr (EConf ERR_FATAL), resetPacketPoolAllocation p pool)
      else
        match MarshalTo raw (drop PACKET_TRACK_HEADER_SIZE (data p)) with
        | inr err => (inr err, resetPacketPoolAllocation p pool)
        | inl (payload, written) =>
            let d := take PACKET_TRACK_HEADER_SIZE (data p) ++ payload in
            (inl {| TrackId := trackId; data := put_header d MAGIC_PACKET id;
                    n := written + PACKET_TRACK_HEADER_SIZE |}, pool)
        end
  end.

Definition NewPacketFromBuf (trackId : string) (buf : list Z) (pool : Pool)
    : (Packet + gerror) * Pool :=
  match uuid_Parse trackId with
  | None => (inr parse_error, pool)
  | Some id =>
      let '(p, pool) := getPacketAllocationFromPool pool in
      (inl {| TrackId := trackId;
              data := go_copy (put_header (data p) MAGIC_PACKET id)
                        PACKET_TRACK_HEADER_SIZE PACKET_MAX_SIZE buf;
              n := length buf + PACKET_TRACK_HEADER_SIZE |}, pool)
  end.

(** [SetupPacket.GetTransportId], and that of [SetupArkPacket]. *)
Definition GetTransportId (p : SetupPacket) : run (list Z) :=
  match uuid_FromBytes (TransportId p) with
  | Some id => Ret id
  | None => go_panic (PMsg "invalid UUID")
  end.

(** The results are the named ones of the source: on an error they are
    still zero. *)
Definition ExtractPacket (data : list Z) : run (string * list Z * option gerror) :=
  b ← go_slice data (Z.of_nat PACKET_MAGIC_SIZE) (Z.of_nat PACKET_TRACK_HEADER_SIZE);
  match uuid_FromBytes b with
  | None => Ret ("", [], Some parse_error)
  | Some id =>
      Ret (uuid_String id,
           if (PACKET_TRACK_HEADER_SIZE <? length data)%nat
           then drop PACKET_TRACK_HEADER_SIZE data else [],
           None)
  end.

(** [NewUUID] of [signal/utils.go]: the bytes of one id xor-ed into the
    other; [uuid.MustParse] panics on a malformed id. *)
Definition MustParse (s : string) : run (list Z) :=
  match uuid_Parse s with
  | Some b => Ret b
  | None => go_panic (PMsg "uuid: Parse")
  end.

Definition NewUUID (id base : string) : run string :=
  newBytes ← MustParse id;
  baseBytes ← MustParse base;
  newBytes ← XOrBytes newBytes baseBytes (Some newBytes);
  Ret (uuid_String newBytes).

End Constructors.

(** ** Lemmas *)

Lemma bytes_of_length s : length (bytes_of s) = String.length s.
Proof. induction s as [|c s IH]; cbn; [done|]. by rewrite IH. Qed.

(** A datagram: magic, id, payload. *)
Definition datagram (magic : string) (id payload : list Z) : list Z :=
  bytes_of magic ++ id ++ payload.

Lemma go_copy_prefix {A} (l src : list A) m :
  length src = m -> m <= length l -> go_copy l 0 m src = src ++ drop m l.
Proof.
  intros <- Hl. unfold go_copy. rewrite Nat.sub_0_r, Nat.min_id, take_0, firstn_all. done.
Qed.

Lemma go_copy_at {A} (pre l src : list A) b :
  length src <= b - length pre -> go_copy (pre ++ l) (length pre) b src = pre ++ src ++ drop (length src) l.
Proof.
  intros Hb. unfold go_copy. rewrite Nat.min_r by done.
  rewrite take_app_length, firstn_all. by rewrite <- drop_drop, drop_app_length.
Qed.

Lemma go_copy_at' {A} (a : nat) (pre l src : list A) b :
  length pre = a -> length src <= b - a -> go_copy (pre ++ l) a b src = pre ++ src ++ drop (length src) l.
Proof. intros <-. apply go_copy_at. Qed.

Lemma put_header_eq d magic id :
  String.length magic = 4 -> length id = 16 -> 20 <= length d ->
  put_header d magic id = datagram magic id (drop 20 d).
Proof.
  intros Hm Hid Hd. unfold put_header, datagram.
  rewrite go_copy_prefix; [|by rewrite bytes_of_length|unfold PACKET_MAGIC_SIZE; lia].
  pose proof (bytes_of_length magic) as Hl. rewrite Hm in Hl.
  unfold PACKET_MAGIC_SIZE, PACKET_TRACK_HEADER_SIZE. rewrite <- Hl at 2.
  rewrite go_copy_at by (rewrite Hl, Hid; lia).
  rewrite Hid, drop_drop. done.
Qed.

Lemma datagram_length magic id payload :
  length (datagram magic id payload) = String.length magic + length id + length payload.
Proof. unfold datagram. rewrite !length_app, bytes_of_length. lia. Qed.

Lemma datagram_magic magic id payload m :
  String.length magic = m -> take m (datagram magic id payload) = bytes_of magic.
Proof. intros <-. unfold datagram. rewrite <- bytes_of_length. apply take_app_length. Qed.

Lemma datagram_id magic id payload m :
  String.length magic = m -> take (length id) (drop m (datagram magic id payload)) = id.
Proof.
  intros <-. unfold datagram. rewrite <- bytes_of_length, drop_app_length. apply take_app_length.
Qed.

Lemma datagram_payload magic id payload m :
  m = String.length magic + length id -> drop m (datagram magic id payload) = payload.
Proof.
  intros ->. unfold datagram. rewrite app_assoc, <- bytes_of_length, <- length_app.
  apply drop_app_length.
Qed.

Lemma datagram_app magic id p q : datagram magic id (p ++ q) = datagram magic id p ++ q.
Proof. unfold datagram. by rewrite !app_assoc. Qed.

(** What the receiver reads of a datagram. *)
Lemma IsDataPacket_datagram id payload :
  length id = 16 -> payload <> [] -> IsDataPacket (datagram MAGIC_PACKET id payload) = true.
Proof.
  intros Hid Hp. unfold IsDataPacket. rewrite datagram_length, Hid, datagram_magic by done.
  destruct payload; [done|]. done.
Qed.

Lemma IsEofPacket_datagram id :
  length id = 16 -> IsEofPacket (datagram MAGIC_EOF id []) = true.
Proof.
  intros Hid. unfold IsEofPacket. rewrite datagram_length, Hid, datagram_magic by done. done.
Qed.

Lemma IsEofPacket_data id payload : IsEofPacket (datagram MAGIC_PACKET id payload) = false.
Proof.
  unfold IsEofPacket. destruct (negb _); [done|]. by rewrite datagram_magic.
Qed.

Lemma lxor_byte x y : is_byte x -> is_byte y -> is_byte (Z.lxor x y).
Proof.
  unfold is_byte. intros Hx Hy. split; [apply Z.lxor_nonneg; lia|].
  destruct (decide (Z.lxor x y = 0%Z)) as [->|Hn]; [lia|].
  change 256%Z with (2 ^ 8)%Z. apply Z.log2_lt_pow2.
  - assert (0 <= Z.lxor x y)%Z by (apply Z.lxor_nonneg; lia). lia.
  - eapply Z.le_lt_trans; [apply Z.log2_lxor; lia|].
    assert (forall z, 0 <= z < 256 -> Z.log2 z < 8)%Z as Hl; [|apply Z.max_lub_lt; apply Hl; lia].
    intros z Hz. destruct (decide (z = 0)%Z) as [->|]; [done|]. apply Z.log2_lt_pow2; lia.
Qed.

Lemma zip_with_bytes (b c : list Z) : Forall is_byte b -> Forall is_byte c -> Forall is_byte (zip_with Z.lxor b c).
Proof.
  intros Hb. revert c. induction Hb as [|x b Hx _ IH]; intros c Hc; [constructor|].
  destruct Hc as [|y c Hy Hc]; constructor; [by apply lxor_byte|by apply IH].
Qed.

Lemma xor_twice b c : length b = length c -> zip_with Z.lxor (zip_with Z.lxor b c) c = b.
Proof.
  revert c. induction b as [|x b IH]; intros [|y c] Hl; try done. cbn.
  rewrite Z.lxor_assoc, Z.lxor_nilpotent, Z.lxor_0_r, IH by (cbn in Hl; lia). done.
Qed.

Section Laws.
Context `{UuidLaws} {R : Type} `{RtpLaws R}.

Lemma ExtractPacket_datagram magic id payload :
  String.length magic = 4 -> length id = 16 ->
  ExtractPacket (datagram magic id payload) = Ret (uuid_String id, payload, None).
Proof.
  intros Hm Hid. unfold ExtractPacket.
  rewrite go_slice_ok
    by (rewrite datagram_length, Hm, Hid; unfold PACKET_MAGIC_SIZE, PACKET_TRACK_HEADER_SIZE; lia). cbn [mbind run_bind].
  change (PACKET_TRACK_HEADER_SIZE - PACKET_MAGIC_SIZE) with 16. rewrite <- Hid at 1.
  rewrite datagram_id by done. rewrite FromBytes_uuid by done.
  rewrite datagram_payload by (rewrite Hm, Hid; done). do 3 f_equal.
  rewrite datagram_length, Hm, Hid. destruct payload; done.
Qed.

(** The packets a pool holds have buffers of the declared size: all a
    constructor relies on. *)
Definition pool_ok (pool : Pool) : Prop := Forall (fun p => length (data p) = PACKET_MAX_SIZE) pool.

Lemma pool_get pool p pool' :
  pool_ok pool -> getPacketAllocationFromPool pool = (p, pool') ->
  length (data p) = PACKET_MAX_SIZE /\ pool_ok pool'.
Proof.
  intros Hp. destruct pool as [|q pool]; cbn; intros [= <- <-]; [done|]. by inversion Hp.
Qed.

Lemma reset_ok p pool : pool_ok pool -> pool_ok (resetPacketPoolAllocation p pool).
Proof. intros Hp. by constructor. Qed.

(** A packet that carries a datagram. *)
Definition carries (p : Packet) (trackId : string) (w : list Z) : Prop :=
  TrackId p = trackId /\ length (data p) = PACKET_MAX_SIZE /\ wire p = Ret w.

Lemma carries_intro trackId d k w rest :
  d = w ++ rest -> length d = PACKET_MAX_SIZE -> k = length w ->
  carries {| TrackId := trackId; data := d; n := k |} trackId w.
Proof.
  intros -> Hd ->. split; [done|]. split; [done|]. unfold wire. cbn [data n].
  change 0%Z with (Z.of_nat 0). rewrite go_slice_ok by (rewrite length_app; lia).
  by rewrite Nat.sub_0_r, drop_0, take_app_length.
Qed.

Lemma NewEOFPacket_spec trackId id pool :
  pool_ok pool -> uuid_Parse trackId = Some id ->
  exists p pool', NewEOFPacket trackId pool = (inl p, pool') /\ pool_ok pool' /\
    carries p trackId (datagram MAGIC_EOF id []).
Proof.
  intros Hp Hid. unfold NewEOFPacket. rewrite Hid.
  destruct (getPacketAllocationFromPool pool) as [p pool'] eqn:Hg.
  destruct (pool_get _ _ _ Hp Hg) as [Hd Hp']. destruct (Parse_is_uuid _ _ Hid) as [Hl _].
  unfold PACKET_MAX_SIZE in Hd.
  eexists _, _. split; [done|]. split; [done|].
  apply (carries_intro _ _ _ _ (drop 20 (data p))); rewrite ?put_header_eq by (done || lia).
  - apply (datagram_app _ _ []).
  - rewrite datagram_length, length_drop, Hd, Hl. done.
  - rewrite datagram_length, Hl. done.
Qed.

Lemma NewPacketFromBuf_spec trackId id buf pool :
  pool_ok pool -> uuid_Parse trackId = Some id ->
  exists p pool', NewPacketFromBuf trackId buf pool = (inl p, pool') /\ pool_ok pool' /\
    TrackId p = trackId /\ n p = length buf + 20 /\ length (data p) = PACKET_MAX_SIZE /\
    (length buf <= 1580 -> carries p trackId (datagram MAGIC_PACKET id buf)).
Proof.
  intros Hp Hid. unfold NewPacketFromBuf. rewrite Hid.
  destruct (getPacketAllocationFromPool pool) as [p pool'] eqn:Hg.
  destruct (pool_get _ _ _ Hp Hg) as [Hd Hp']. destruct (Parse_is_uuid _ _ Hid) as [Hl _].
  unfold PACKET_MAX_SIZE in Hd.
  assert (put_header (data p) MAGIC_PACKET id = datagram MAGIC_PACKET id [] ++ drop 20 (data p)) as Hput.
  { rewrite put_header_eq by (done || lia). apply (datagram_app _ _ []). }
  assert (length (datagram MAGIC_PACKET id []) = 20) as H20 by (rewrite datagram_length, Hl; done).
  eexists _, _. split; [done|]. split; [done|]. split; [done|]. split; [done|]. rewrite Hput.
  split.
  { cbn [data]. rewrite length_go_copy; rewrite length_app, length_drop, H20, Hd; done || (unfold PACKET_TRACK_HEADER_SIZE, PACKET_MAX_SIZE; lia). }
  intros Hb. apply (carries_intro _ _ _ _ (drop (length buf) (drop 20 (data p)))).
  - change PACKET_TRACK_HEADER_SIZE with 20. rewrite <- H20 at 2.
    rewrite go_copy_at by (rewrite H20; unfold PACKET_MAX_SIZE; lia).
    rewrite app_assoc. f_equal. symmetry. apply (datagram_app _ _ []).
  - rewrite length_go_copy; rewrite length_app, length_drop, H20, Hd; done || (unfold PACKET_TRACK_HEADER_SIZE, PACKET_MAX_SIZE; lia).
  - rewrite datagram_length, Hl. cbn. unfold PACKET_TRACK_HEADER_SIZE. lia.
Qed.

Lemma NewDataPacket_spec trackId id raw pool :
  pool_ok pool -> uuid_Parse trackId = Some id -> MarshalSize raw <= 1580 ->
  exists p pool', NewDataPacket trackId raw pool = (inl p, pool') /\ pool_ok pool' /\
    carries p trackId (datagram MAGIC_PACKET id (marshal raw)).
Proof.
  intros Hp Hid Hs. unfold NewDataPacket. rewrite Hid.
  destruct (getPacketAllocationFromPool pool) as [p pool'] eqn:Hg.
  destruct (pool_get _ _ _ Hp Hg) as [Hd Hp']. destruct (Parse_is_uuid _ _ Hid) as [Hl _].
  unfold PACKET_MAX_SIZE, PACKET_TRACK_HEADER_SIZE in *.
  destruct (Nat.ltb_spec (1600 - 20) (MarshalSize raw)); [lia|].
  rewrite MarshalTo_ok by (rewrite length_drop; lia).
  eexists _, _. split; [done|]. split; [done|].
  assert (length (take 20 (data p)) = 20) as H20 by (rewrite length_take; lia).
  apply (carries_intro _ _ _ _ (drop (MarshalSize raw) (drop 20 (data p))));
    rewrite ?put_header_eq by (done || rewrite length_app; lia);
    rewrite ?drop_app_le, ?drop_ge, ?app_nil_l by lia.
  - apply datagram_app.
  - rewrite datagram_length, Hl, length_app, marshal_size, !length_drop, Hd.
    change (String.length MAGIC_PACKET) with 4. unfold PACKET_MAX_SIZE. lia.
  - rewrite datagram_length, Hl, marshal_size. change (String.length MAGIC_PACKET) with 4. lia.
Qed.

Lemma NewDataPacket_too_big trackId id raw pool :
  pool_ok pool -> uuid_Parse trackId = Some id -> 1580 < MarshalSize raw ->
  exists pool', NewDataPacket trackId raw pool = (inr (EConf ERR_FATAL), pool') /\ pool_ok pool'.
Proof.
  intros Hp Hid Hs. unfold NewDataPacket. rewrite Hid.
  destruct (getPacketAllocationFromPool pool) as [p pool'] eqn:Hg.
  destruct (pool_get _ _ _ Hp Hg) as [_ Hp'].
  unfold PACKET_MAX_SIZE, PACKET_TRACK_HEADER_SIZE.
  destruct (Nat.ltb_spec (1600 - 20) (MarshalSize raw)); [|lia].
  eexists. split; [done|]. by apply reset_ok.
Qed.

Lemma XOrBytes_uuid b c :
  is_uuid b -> is_uuid c -> XOrBytes b c (Some b) = Ret (zip_with Z.lxor b c).
Proof.
  intros [Hb _] [Hc _]. unfold XOrBytes. rewrite Hb, Hc. cbn -[drop].
  by rewrite drop_ge, app_nil_r by lia.
Qed.

Lemma xor_uuid b c : is_uuid b -> is_uuid c -> is_uuid (zip_with Z.lxor b c).
Proof.
  intros [Hb Fb] [Hc Fc]. split; [rewrite length_zip_with; lia|]. by apply zip_with_bytes.
Qed.

Lemma NewUUID_bytes id base b c :
  uuid_Parse id = Some b -> uuid_Parse base = Some c ->
  NewUUID id base = Ret (uuid_String (zip_with Z.lxor b c)).
Proof.
  intros Eb Ec. unfold NewUUID, MustParse. rewrite Eb, Ec. cbn [mbind run_bind].
  rewrite XOrBytes_uuid by (by eapply Parse_is_uuid). done.
Qed.

End Laws.

(** ** Setup packets *)

Lemma new_setup_buf_eq magic id :
  String.length magic = 8 -> length id = 16 ->
  new_setup_buf magic (Some id) = Ret (datagram magic id []).
Proof.
  intros Hm Hl. unfold new_setup_buf. cbn [mbind run_bind go_deref]. f_equal.
  pose proof (bytes_of_length magic) as H8. rewrite Hm in H8.
  unfold go_copy at 2. rewrite H8, Nat.min_r by lia. rewrite take_0, app_nil_l, take_ge by lia.
  rewrite (go_copy_at' 8) by (rewrite ?H8, ?Hl; lia).
  unfold datagram. by rewrite Hl.
Qed.

Lemma new_setup_roundtrip magic id packet :
  String.length magic = 8 -> length id = 16 ->
  let buf := datagram magic id [] in
  new_setup_buf magic (Some id) = Ret buf /\ length buf = 24 /\
  is_setup_magic magic buf = true /\ IsSetupId buf id = true /\
  decode_setup magic buf 24 packet = Ret (None, {| Magic := Magic packet; TransportId := id |}).
Proof.
  intros Hm Hl buf. assert (length buf = 24) as H24 by (unfold buf; rewrite datagram_length, Hm, Hl; done).
  split; [by apply new_setup_buf_eq|]. split; [done|].
  assert (take 8 buf = bytes_of magic) as Hmg by (by apply datagram_magic).
  assert (take 16 (drop 8 buf) = id) as Hi by (rewrite <- Hl; by apply datagram_id).
  unfold is_setup_magic, IsSetupId, bytes_Equal. rewrite H24, Hmg, Hi. cbn [Nat.ltb Nat.leb].
  split; [by apply bool_decide_eq_true_2|]. split; [by apply bool_decide_eq_true_2|].
  unfold decode_setup. cbn [Z.eqb Pos.eqb negb].
  change 0%Z with (Z.of_nat 0). change 8%Z with (Z.of_nat 8). change 24%Z with (Z.of_nat 24).
  rewrite !go_slice_ok by lia. cbn [mbind run_bind]. rewrite drop_0, Nat.sub_0_r, Hmg. unfold bytes_Equal.
  rewrite bool_decide_eq_true_2 by done. change (24 - 8) with 16. by rewrite Hi.
Qed.

Lemma Marshal_new_setup magic id :
  String.length magic = 8 -> length id = 16 ->
  Marshal (new_setup magic (Some id)) = datagram magic id [].
Proof.
  intros Hm Hl. pose proof (new_setup_buf_eq _ _ Hm Hl) as E. injection E as E. rewrite <- E.
  unfold Marshal, new_setup. cbn [Magic TransportId zero_setup].
  rewrite (go_copy_prefix (zeros 8) (bytes_of magic)) 
    by (rewrite ?bytes_of_length; done || (cbn; lia)).
  rewrite (go_copy_prefix (zeros 16) id) by (done || (cbn; lia)).
  cbn [zeros replicate drop]. by rewrite !app_nil_r.
Qed.

(** ** The canonical text form of a UUID *)
Module UuidHex.

Definition hex_digit (d : Z) : Ascii.ascii :=
  Ascii.ascii_of_N (Z.to_N (if (d <? 10)%Z then d + 48 else d + 87)).

Definition hex_val (c : Ascii.ascii) : option Z :=
  let v := byte_of c in
  if ((48 <=? v) && (v <=? 57))%Z then Some (v - 48)%Z
  else if ((97 <=? v) && (v <=? 102))%Z then Some (v - 87)%Z
  else None.

Definition hex2 (b : Z) : list Ascii.ascii := [hex_digit (b / 16); hex_digit (b mod 16)]%Z.

Fixpoint hex_pairs (cs : list Ascii.ascii) : option (list Z) :=
  match cs with
  | [] => Some []
  | [_] => None
  | c :: d :: cs' =>
      match hex_val c, hex_val d, hex_pairs cs' with
      | Some x, Some y, Some l => Some ((16 * x + y)%Z :: l)
      | _, _, _ => None
      end
  end.

Definition dash : Ascii.ascii := Ascii.ascii_of_N 45.

(** 8-4-4-4-12 digits. *)
Definition groups (l : list Ascii.ascii) : list Ascii.ascii :=
  take 8 l ++ dash :: take 4 (drop 8 l) ++ dash :: take 4 (drop 12 l) ++
  dash :: take 4 (drop 16 l) ++ dash :: drop 20 l.

Definition ungroup (l : list Ascii.ascii) : list Ascii.ascii :=
  take 8 l ++ take 4 (drop 9 l) ++ take 4 (drop 14 l) ++ take 4 (drop 19 l) ++ drop 24 l.

Definition to_string (b : list Z) : string :=
  String.string_of_list_ascii (groups (b ≫= hex2)).

Definition parse (s : string) : option (list Z) :=
  let l := String.list_ascii_of_string s in
  if bool_decide (groups (ungroup l) = l) then
    match hex_pairs (ungroup l) with
    | Some b => if bool_decide (length b = 16) then Some b else None
    | None => None
    end
  else None.

#[global] Instance hex_uuid : Uuid := {
  uuid_Parse := parse;
  uuid_String := to_string;
  uuid_FromBytes b := if bool_decide (length b = 16) then Some b else None
}.

Lemma hex_val_digit d : (0 <= d < 16)%Z -> hex_val (hex_digit d) = Some d.
Proof.
  intros Hd. assert (d ∈ seqZ 0 16) as Hin by (apply elem_of_seqZ; lia). clear Hd.
  revert d Hin. apply Forall_forall. vm_compute. repeat constructor.
Qed.

Lemma hex_val_range c d : hex_val c = Some d -> (0 <= d < 16)%Z.
Proof.
  unfold hex_val. repeat case_match; intros [= <-];
    repeat match goal with H : _ && _ = true |- _ => apply andb_true_iff in H as [? ?] end; lia.
Qed.

Lemma hex_pairs_hex2 b : Forall is_byte b -> hex_pairs (b ≫= hex2) = Some b.
Proof.
  induction 1 as [|x b Hx _ IH]; [done|]. unfold is_byte in Hx.
  change (hex_pairs (hex_digit (x / 16) :: hex_digit (x mod 16) :: (b ≫= hex2)) = Some (x :: b))%Z.
  cbn [hex_pairs]. rewrite !hex_val_digit, IH.
  - do 2 f_equal. rewrite <- Z.div_mod; lia.
  - apply Z.mod_pos_bound. lia.
  - split; [apply Z.div_pos|apply Z.div_lt_upper_bound]; lia.
Qed.

Lemma hex_pairs_bytes cs b : hex_pairs cs = Some b -> Forall is_byte b.
Proof.
  revert cs. induction b as [|x b IH]; intros cs Hc; constructor.
  - destruct cs as [|c [|d cs]]; cbn in Hc; try discriminate.
    destruct (hex_val c) eqn:E1, (hex_val d) eqn:E2, (hex_pairs cs) eqn:E3; simplify_eq.
    apply hex_val_range in E1. apply hex_val_range in E2. unfold is_byte. lia.
  - destruct cs as [|c [|d cs]]; cbn in Hc; try discriminate.
    destruct (hex_val c) eqn:E1, (hex_val d) eqn:E2, (hex_pairs cs) eqn:E3; simplify_eq. eauto.
Qed.

Lemma ungroup_groups l : length l = 32 -> ungroup (groups l) = l.
Proof.
  intros Hl. do 33 (destruct l as [|? l]; [try discriminate Hl; try reflexivity|]). discriminate Hl.
Qed.

#[global] Instance hex_uuid_laws : UuidLaws.
Proof.
  split.
  - intros s b. cbn. unfold parse. case_bool_decide; [|done].
    destruct (hex_pairs _) eqn:E; [|done]. case_bool_decide; [|done]. intros [= <-].
    split; [done|]. by eapply hex_pairs_bytes.
  - intros b [Hl Hb]. cbn. unfold parse, to_string.
    assert (length (b ≫= hex2) = 32) as H32.
    { assert (forall l, length (l ≫= hex2) = 2 * length l) as H2; [|rewrite H2; lia].
      intros l. induction l as [|x l IH]; [done|].
      change (S (S (length (l ≫= hex2))) = 2 * S (length l)). rewrite IH. lia. }
    rewrite String.list_ascii_of_string_of_list_ascii, ungroup_groups, bool_decide_eq_true_2 by done.
    rewrite hex_pairs_hex2 by done. by rewrite bool_decide_eq_true_2.
  - intros b Hb. cbn. by rewrite bool_decide_eq_true_2.
Qed.

End UuidHex.

(** An RTP packet as its own encoding. *)
Module RtpBytes.
#[global] Instance rtp_bytes : Rtp (list Z) := {
  MarshalSize r := length r;
  MarshalTo r buf :=
    if (length buf <? length r)%nat then inr (EOther "short buffer")
    else inl (r ++ drop (length r) buf, length r)
}.
#[global] Program Instance rtp_bytes_laws : RtpLaws (list Z) := { marshal r := r }.
Next Obligation. done. Qed.
Next Obligation. intros r buf Hb. cbn -[Nat.ltb] in *. destruct (Nat.ltb_spec (length buf) (length r)); [lia|reflexivity]. Qed.
End RtpBytes.

(** ** Properties *)

Section Properties.
Context `{UuidLaws} {R : Type} `{RtpLaws R}.

(** A data packet that [NewDataPacket] or [NewPacketFromBuf] builds for
    a well-formed track id and a payload of at most 1580 bytes is sent as
    magic, id and payload, within the 1600 bytes of its buffer; the receiver
    classifies it as data and extracts the canonical track id and the same
    payload.  A larger RTP packet is refused by [NewDataPacket]; the pool
    stays well formed. *)
Theorem data_packet_roundtrip trackId id raw pool :
  pool_ok pool -> uuid_Parse trackId = Some id -> marshal raw <> [] ->
  (MarshalSize raw <= 1580 ->
    exists p q pool1 pool2 w,
      NewDataPacket trackId raw pool = (inl p, pool1) /\ pool_ok pool1 /\
      NewPacketFromBuf trackId (marshal raw) pool = (inl q, pool2) /\ pool_ok pool2 /\
      carries p trackId w /\ carries q trackId w /\ length w <= PACKET_MAX_SIZE /\
      IsDataPacket w = true /\
      ExtractPacket w = Ret (uuid_String id, marshal raw, None)) /\
  (1580 < MarshalSize raw ->
    exists pool1, NewDataPacket trackId raw pool = (inr (EConf ERR_FATAL), pool1) /\ pool_ok pool1).
Proof.
  intros Hp Hid Hne. destruct (Parse_is_uuid _ _ Hid) as [Hl _].
  split; [|by apply NewDataPacket_too_big with id].
  intros Hs. destruct (NewDataPacket_spec _ _ _ _ Hp Hid Hs) as (p & pool1 & E1 & Hp1 & Hc1).
  destruct (NewPacketFromBuf_spec _ _ (marshal raw) _ Hp Hid)
    as (q & pool2 & E2 & Hp2 & _ & _ & _ & Hc2).
  exists p, q, pool1, pool2, (datagram MAGIC_PACKET id (marshal raw)).
  repeat split; try done; try apply Hc1; try (apply Hc2; rewrite marshal_size; lia).
  - rewrite datagram_length, Hl, marshal_size. unfold PACKET_MAX_SIZE.
    change (String.length MAGIC_PACKET) with 4. lia.
  - by apply IsDataPacket_datagram.
  - by apply ExtractPacket_datagram.
Qed.

(** [NewPacketFromBuf] does not bound its payload: past 1580 bytes it
    returns a packet whose length field exceeds the buffer, and every use of
    the packet on the send path ([packet.data[:packet.n]], [IsEOF],
    [IsData]) panics with a slice bound out of range. *)
Theorem NewPacketFromBuf_overflow trackId id buf pool :
  pool_ok pool -> uuid_Parse trackId = Some id -> 1580 < length buf ->
  exists p pool', NewPacketFromBuf trackId buf pool = (inl p, pool') /\
    wire p = go_panic PIndex /\ IsEOF p = go_panic PIndex /\ IsData p = go_panic PIndex.
Proof.
  intros Hp Hid Hb.
  destruct (NewPacketFromBuf_spec _ _ buf _ Hp Hid) as (p & pool' & E & _ & _ & Hn & Hd & _).
  assert (wire p = go_panic PIndex) as Hw.
  { apply go_slice_panics. right. rewrite Hn, Hd. unfold PACKET_MAX_SIZE. lia. }
  exists p, pool'. split; [done|]. split; [done|]. unfold IsEOF, IsData. by rewrite Hw.
Qed.

(** An end-of-stream packet is sent as magic and id, is classified as
    such by sender and receiver, and the receiver extracts the canonical
    track id and no payload. *)
Theorem eof_packet_roundtrip trackId id pool :
  pool_ok pool -> uuid_Parse trackId = Some id ->
  exists p pool' w, NewEOFPacket trackId pool = (inl p, pool') /\ pool_ok pool' /\
    carries p trackId w /\ IsEOF p = Ret true /\ IsEofPacket w = true /\ IsDataPacket w = false /\
    ExtractPacket w = Ret (uuid_String id, [], None).
Proof.
  intros Hp Hid. destruct (Parse_is_uuid _ _ Hid) as [Hl _].
  destruct (NewEOFPacket_spec _ _ _ Hp Hid) as (p & pool' & E & Hp' & Hc).
  exists p, pool', (datagram MAGIC_EOF id []).
  split; [done|]. split; [done|]. split; [done|].
  split; [unfold IsEOF; destruct Hc as (_ & _ & ->); cbn [fmap run_fmap]; by rewrite IsEofPacket_datagram|].
  split; [by apply IsEofPacket_datagram|].
  split; [unfold IsDataPacket; by rewrite datagram_length, Hl|].
  by apply ExtractPacket_datagram.
Qed.

(** [NewUUID] is the xor of the two ids: for well-formed ids it
    returns the text of another id, and applied again with the same base it
    gives the first id back, so distinct tracks of a publication keep
    distinct ids; a malformed id panics. *)
Theorem NewUUID_involutive id base :
  match uuid_Parse id, uuid_Parse base with
  | Some b, Some _ => exists s, NewUUID id base = Ret s /\ NewUUID s base = Ret (uuid_String b)
  | _, _ => NewUUID id base = go_panic (PMsg "uuid: Parse")
  end.
Proof.
  destruct (uuid_Parse id) as [b|] eqn:Eb; [|unfold NewUUID, MustParse; by rewrite Eb].
  destruct (uuid_Parse base) as [c|] eqn:Ec; [|unfold NewUUID, MustParse; by rewrite Eb, Ec].
  pose proof (Parse_is_uuid _ _ Eb) as Hb. pose proof (Parse_is_uuid _ _ Ec) as Hc.
  pose proof (NewUUID_bytes _ _ _ _ Eb Ec) as Hn. exists (uuid_String (zip_with Z.lxor b c)).
  split; [done|].
  rewrite (NewUUID_bytes _ _ (zip_with Z.lxor b c) c) by (done || apply Parse_String, xor_uuid; done).
  by rewrite xor_twice by (destruct Hb, Hc; congruence).
Qed.

End Properties.

(** A setup request or acknowledgement built for a router id is 24
    bytes, is recognised as its kind and for its id, and decoding it gives
    the id back; [Marshal] of an acknowledgement writes the same bytes.
    Decoding a datagram of another size or with another magic is an error
    that leaves the packet unchanged. *)
Theorem setup_roundtrip id packet :
  is_uuid id ->
  (exists buf, NewSetupPacketBuf (Some id) = Ret buf /\ length buf = 24 /\
     IsSetup buf = true /\ IsSetupId buf id = true /\
     DecodeSetupPacket buf 24 packet = Ret (None, {| Magic := Magic packet; TransportId := id |})) /\
  (exists buf, NewSetupArkPacketBuf (Some id) = Ret buf /\ length buf = 24 /\
     IsSetupArk buf = true /\ IsSetupId buf id = true /\
     Marshal (NewSetupArkPacket (Some id)) = buf /\
     DecodeSetupArkPacket buf 24 packet = Ret (None, {| Magic := Magic packet; TransportId := id |})) /\
  (forall buf k, 24 <= length buf -> k <> 24%Z \/ IsSetup buf = false ->
     DecodeSetupPacket buf k packet = Ret (Some (EConf BAD_PACKET), packet)).
Proof.
  intros [Hl _].
  split; [|split].
  - exists (datagram MAGIC_SETUP id []). by apply new_setup_roundtrip.
  - exists (datagram MAGIC_ARK id []).
    destruct (new_setup_roundtrip MAGIC_ARK id packet) as (? & ? & ? & ? & ?); [done..|].
    repeat split; try done. by apply Marshal_new_setup.
  - intros buf k Hb Hk. unfold DecodeSetupPacket, decode_setup.
    destruct (Z.eqb_spec k 24) as [->|Hne]; [|done]. destruct Hk as [Hk|Hk]; [done|].
    unfold IsSetup, is_setup_magic in Hk. destruct (Nat.ltb_spec (length buf) 24); [lia|].
    cbn [negb]. change 0%Z with (Z.of_nat 0). change 8%Z with (Z.of_nat 8).
    rewrite go_slice_ok by lia. cbn [mbind run_bind]. by rewrite drop_0, Nat.sub_0_r, Hk.
Qed.

(** A datagram is of at most one of the four kinds.  In particular the
    receive loop of [makeSureExternelConn], which acknowledges a setup when
    [IsSetupArk(s)] and then [IsSetup(s)] hold, never does so. *)
Theorem packet_kinds_exclusive (d : list Z) :
  (IsSetup d = true -> IsSetupArk d = false /\ IsDataPacket d = false /\ IsEofPacket d = false) /\
  (IsSetupArk d = true -> IsSetup d = false /\ IsDataPacket d = false /\ IsEofPacket d = false) /\
  (IsDataPacket d = true -> IsEofPacket d = false).
Proof.
  assert (forall x y, take 8 d = bytes_of x -> take 4 d = bytes_of y -> bytes_of y = take 4 (bytes_of x)) as H4.
  { intros x y <- <-. by rewrite take_take. }
  unfold IsSetup, IsSetupArk, is_setup_magic, IsDataPacket, IsEofPacket, bytes_Equal.
  change PACKET_MAGIC_SIZE with 4.
  split; [|split]; intros Ha; repeat split; revert Ha; repeat case_match; try done;
    rewrite ?bool_decide_eq_true; intros Ha; try done;
    apply bool_decide_eq_false_2; intros Hb;
    first [ rewrite Ha in Hb; discriminate Hb | discriminate (H4 _ _ Ha Hb) ].
Qed.

(** ** Witnesses *)

Definition sample_uuid : string := "00010203-0405-0607-0809-0a0b0c0d0eff".
Definition sample_id : list Z := [0; 1; 2; 3; 4; 5; 6; 7; 8; 9; 10; 11; 12; 13; 14; 255]%Z.

Lemma sample_parse : uuid_Parse sample_uuid = Some sample_id.
Proof. reflexivity. Qed.

Lemma data_packet_roundtrip_witness :
  exists p q pool1 pool2 w,
    NewDataPacket sample_uuid [128; 1; 2]%Z [zero_packet] = (inl p, pool1) /\ pool_ok pool1 /\
    NewPacketFromBuf sample_uuid [128; 1; 2]%Z [zero_packet] = (inl q, pool2) /\ pool_ok pool2 /\
    carries p sample_uuid w /\ carries q sample_uuid w /\ length w <= PACKET_MAX_SIZE /\
    IsDataPacket w = true /\ ExtractPacket w = Ret (uuid_String sample_id, [128; 1; 2]%Z, None).
Proof.
  destruct (data_packet_roundtrip sample_uuid sample_id [128; 1; 2]%Z [zero_packet]) as [Hok _].
  - constructor; [reflexivity|constructor].
  - exact sample_parse.
  - discriminate.
  - apply Hok. cbn. lia.
Defined.

Lemma NewPacketFromBuf_overflow_witness :
  exists p pool', NewPacketFromBuf sample_uuid (zeros 1581) [] = (inl p, pool') /\
    wire p = go_panic PIndex /\ IsEOF p = go_panic PIndex /\ IsData p = go_panic PIndex.
Proof.
  apply (NewPacketFromBuf_overflow sample_uuid sample_id).
  - constructor.
  - exact sample_parse.
  - unfold zeros. rewrite length_replicate. lia.
Defined.

Lemma eof_packet_roundtrip_witness :
  exists p pool' w, NewEOFPacket sample_uuid [] = (inl p, pool') /\ pool_ok pool' /\
    carries p sample_uuid w /\ IsEOF p = Ret true /\ IsEofPacket w = true /\ IsDataPacket w = false /\
    ExtractPacket w = Ret (uuid_String sample_id, [], None).
Proof.
  apply (eof_packet_roundtrip sample_uuid sample_id); [constructor|exact sample_parse].
Defined.

Lemma NewUUID_involutive_witness :
  exists s, NewUUID sample_uuid sample_uuid = Ret s /\
    NewUUID s sample_uuid = Ret (uuid_String sample_id).
Proof.
  pose proof (NewUUID_involutive sample_uuid sample_uuid) as Hx.
  rewrite sample_parse in Hx. exact Hx.
Defined.

Lemma setup_roundtrip_witness :
  exists buf, NewSetupPacketBuf (Some sample_id) = Ret buf /\ length buf = 24 /\
    IsSetup buf = true /\ IsSetupId buf sample_id = true /\
    DecodeSetupPacket buf 24 zero_setup = Ret (None, {| Magic := zeros 8; TransportId := sample_id |}).
Proof.
  apply (setup_roundtrip sample_id zero_setup).
  split; [reflexivity|]. repeat constructor; unfold is_byte; lia.
Defined.
