(* ===== verification/Routing.v ===== *)
(** * Routing: [signal/router.go] and the subscriptions of [signal/model.go]

    A node's [Router] forwards the RTP packets of published tracks to the
    other nodes and, through one [Accepter] per track, to the local
    subscriptions.  Accepters and subscriptions point at each other:
    [Subscription.AcceptTrack] takes a reference on an accepter and binds
    itself to it, [Accepter.Close] unbinds every bound subscription.  [World]
    is the shared store: accepters by pointer (their index), subscriptions by
    id, the router's maps, and the log of the calls the code makes to the
    peer connections, the UDP sockets and the messager.

    Each operation runs under the mutexes the source takes and is one step of
    the model.  A goroutine that locks the mutex of a subscription it already
    holds blocks for ever: [held] is the subscription whose mutex the caller
    holds and such a call is [Abort NoFuel].

    The random UUID of a subscription is its identity here, so that the
    [map[string]*Subscription] of an accepter is a set of ids.  [ref_count]
    is kept in [Z]: 2^63 references are out of reach.  A panic leaves the
    operation without a result. *)
From S2P Require Import Prelude Collection Pattern Messages Packets.
Local Open Scope string_scope.
Local Open Scope list_scope.

(** ** Third-party code

    [webrtc.NewTrackLocalStaticRTP] with the accessors of the track, and the
    peer connection as the subscription sees it: [peer.AddTrack] for the
    track of an accepter, and the mid of the sender it returned. *)
Class Webrtc := {
  LocalTrack : Type;
  NewTrackLocalStaticRTP : WebrtcCodec -> string -> string -> LocalTrack + gerror;
  track_ID : LocalTrack -> string;
  track_StreamID : LocalTrack -> string
}.

Class WebrtcLaws `{Webrtc} : Prop := {
  NewTrack_ids c id sid : exists t, NewTrackLocalStaticRTP c id sid = inl t /\
    track_ID t = id /\ track_StreamID t = sid
}.

(** The answers of the peer connection and of the network during one
    operation. *)
Record Env := {
  makeSurePeer_err : option gerror;
  AddTrack_err : string -> option gerror;       (** by global track id *)
  sender_of : string -> nat;
  getMidFromSender : nat -> string;
  DialUDP_err : string -> option gerror;        (** by address *)
  ResolveUDPAddr_err : string -> option gerror;
  track_Write_err : option gerror
}.

(** ** State *)

Section State.
Context `{Webrtc}.

Record Accepter := {
  a_track : LocalTrack;
  a_closed : bool;
  a_subs : option (gset string);
  ref_count : Z
}.

Record SubscribedTrack := {
  pubTrack : Track;
  sid : string;
  st_accepter : nat;
  sender : nat;
  bindId : string;
  st_labels : option (gmap string string)
}.

Record Subscription := {
  closed : bool;
  reqTypes : list string;
  pattern : option PublicationPattern;
  sctx : string;
  acceptedPubId : string;
  acceptedTrack : option (gmap string SubscribedTrack)
}.

Record SubscribedMessage := {
  Subd_SubId : string;
  Subd_PubId : string;
  Subd_SdpId : Z;
  Subd_Tracks : list Track
}.

(** The calls made to the outside. *)
Inductive event :=
  | EvAddTrack (sub : string) (accepter : nat)
  | EvRemoveTrack (sub : string) (sender : nat)
  | EvTrackWrite (accepter : nat) (buf : list Z)
  | EvSend (addr : string) (buf : list Z)
  | EvDial (addr : string)
  | EvSelect (sub : string) (msg : SelectMessage)
  | EvSubscribed (sub : string) (msg : SubscribedMessage).

Record World := {
  accs : list Accepter;
  track2accepters : gmap string nat;
  subs : gmap string Subscription;
  track2transports : gmap string (gset string);
  addrMap : gmap string string;
  externalTransports : gmap string nat;    (** address -> connection *)
  curChan : nat;
  router_id : list Z;
  router_addr : string;
  sdpMsgId : gmap string Z;
  events : list event
}.

Definition set_accs (w : World) x := {| accs := x; track2accepters := track2accepters w; subs := subs w;
  track2transports := track2transports w; addrMap := addrMap w; externalTransports := externalTransports w;
  curChan := curChan w; router_id := router_id w; router_addr := router_addr w;
  sdpMsgId := sdpMsgId w; events := events w |}.
Definition set_track2accepters (w : World) x := {| accs := accs w; track2accepters := x; subs := subs w;
  track2transports := track2transports w; addrMap := addrMap w; externalTransports := externalTransports w;
  curChan := curChan w; router_id := router_id w; router_addr := router_addr w;
  sdpMsgId := sdpMsgId w; events := events w |}.
Definition set_subs (w : World) x := {| accs := accs w; track2accepters := track2accepters w; subs := x;
  track2transports := track2transports w; addrMap := addrMap w; externalTransports := externalTransports w;
  curChan := curChan w; router_id := router_id w; router_addr := router_addr w;
  sdpMsgId := sdpMsgId w; events := events w |}.
Definition set_track2transports (w : World) x := {| accs := accs w; track2accepters := track2accepters w;
  subs := subs w; track2transports := x; addrMap := addrMap w; externalTransports := externalTransports w;
  curChan := curChan w; router_id := router_id w; router_addr := router_addr w;
  sdpMsgId := sdpMsgId w; events := events w |}.
Definition set_addrMap (w : World) x := {| accs := accs w; track2accepters := track2accepters w;
  subs := subs w; track2transports := track2transports w; addrMap := x; externalTransports := externalTransports w;
  curChan := curChan w; router_id := router_id w; router_addr := router_addr w;
  sdpMsgId := sdpMsgId w; events := events w |}.
Definition set_external (w : World) x := {| accs := accs w; track2accepters := track2accepters w;
  subs := subs w; track2transports := track2transports w; addrMap := addrMap w; externalTransports := x;
  curChan := curChan w; router_id := router_id w; router_addr := router_addr w;
  sdpMsgId := sdpMsgId w; events := events w |}.
Definition set_curChan (w : World) x := {| accs := accs w; track2accepters := track2accepters w;
  subs := subs w; track2transports := track2transports w; addrMap := addrMap w;
  externalTransports := externalTransports w; curChan := x; router_id := router_id w;
  router_addr := router_addr w; sdpMsgId := sdpMsgId w; events := events w |}.
Definition set_sdp (w : World) x := {| accs := accs w; track2accepters := track2accepters w;
  subs := subs w; track2transports := track2transports w; addrMap := addrMap w;
  externalTransports := externalTransports w; curChan := curChan w; router_id := router_id w;
  router_addr := router_addr w; sdpMsgId := x; events := events w |}.
Definition emit (w : World) (e : event) := {| accs := accs w; track2accepters := track2accepters w;
  subs := subs w; track2transports := track2transports w; addrMap := addrMap w;
  externalTransports := externalTransports w; curChan := curChan w; router_id := router_id w;
  router_addr := router_addr w; sdpMsgId := sdpMsgId w; events := events w ++ [e] |}.

Definition set_acceptedTrack (s : Subscription) m := {| closed := closed s; reqTypes := reqTypes s;
  pattern := pattern s; sctx := sctx s; acceptedPubId := acceptedPubId s; acceptedTrack := m |}.
Definition set_acceptedPubId (s : Subscription) p := {| closed := closed s; reqTypes := reqTypes s;
  pattern := pattern s; sctx := sctx s; acceptedPubId := p; acceptedTrack := acceptedTrack s |}.

(** The entries of a map in the order [range] visits them. *)
Class MapOrder := {
  range_tracks : gmap string SubscribedTrack -> list (string * SubscribedTrack);
  range_set : gset string -> list string;
  range_groups : gmap string (list Track) -> list (string * list Track)
}.

Class MapOrderLaws `{MapOrder} : Prop := {
  range_tracks_perm m : range_tracks m ≡ₚ map_to_list m;
  range_set_perm m : range_set m ≡ₚ elements m;
  range_groups_perm m : range_groups m ≡ₚ map_to_list m
}.

End State.

(** ** The code: accepters and subscriptions *)

Section Code.
Context `{Uuid, Webrtc, MapOrder}.

(** Access through a pointer to an accepter, to a subscription. *)
Definition get_acc (w : World) (a : nat) : run Accepter := go_deref (accs w !! a).
Definition put_acc (w : World) (a : nat) (x : Accepter) : World := set_accs w (<[a:=x]> (accs w)).
Definition get_sub (w : World) (s : string) : run Subscription := go_deref (subs w !! s).
Definition put_sub (w : World) (s : string) (x : Subscription) : World := set_subs w (<[s:=x]> (subs w)).

Definition tracks_of (s : Subscription) : gmap string SubscribedTrack := default ∅ (acceptedTrack s).

(** [SubscribedTrack.Remove]: [delete] on a nil map does nothing. *)
Definition Remove (w : World) (sub : string) (st : SubscribedTrack) : run World :=
  let w := emit w (EvRemoveTrack sub (sender st)) in
  s ← get_sub w sub;
  Ret (put_sub w sub (set_acceptedTrack s (delete (GlobalId (pubTrack st)) <$> acceptedTrack s))).

Fixpoint remove_all (w : World) (sub : string) (sts : list SubscribedTrack) : run World :=
  match sts with
  | [] => Ret w
  | st :: sts' => w ← Remove w sub st; remove_all w sub sts'
  end.

(** [Subscription.UnbindAccepter]; [held] as in the header. *)
Definition UnbindAccepter (held : option string) (w : World) (sub : string) (accepter : nat) : run World :=
  if bool_decide (held = Some sub) then Abort NoFuel
  else
    s ← get_sub w sub;
    remove_all w sub (filter (fun st => st_accepter st = accepter) (range_tracks (tracks_of s)).*2).

Fixpoint unbind_each (held : option string) (w : World) (ss : list string) (accepter : nat) : run World :=
  match ss with
  | [] => Ret w
  | s :: ss' => w ← UnbindAccepter held w s accepter; unbind_each held w ss' accepter
  end.

Definition BindSub (w : World) (a : nat) (sub : string) : run World :=
  x ← get_acc w a;
  let m := default ∅ (a_subs x) in
  let m := if bool_decide (sub ∈ m) then m else {[sub]} ∪ m in
  Ret (put_acc w a {| a_track := a_track x; a_closed := a_closed x; a_subs := Some m; ref_count := ref_count x |}).

Definition Accepter_UnbindSub (w : World) (a : nat) (sub : string) : run World :=
  x ← get_acc w a;
  match a_subs x with
  | None => Ret w
  | Some m =>
      let m := if bool_decide (sub ∈ m) then m ∖ {[sub]} else m in
      Ret (put_acc w a {| a_track := a_track x; a_closed := a_closed x; a_subs := Some m; ref_count := ref_count x |})
  end.

(** The errors of a write: [io.ErrClosedPipe], or the track's error wrapped
    with [%w]. *)
Definition ErrClosedPipe : gerror := EOther "io: read/write on closed pipe".

(** [Accepter.Write]; the metrics it updates are not modelled.  The error
    is that of the track's [Write] when the accepter is open. *)
Definition Accepter_Write (env : Env) (w : World) (a : nat) (buf : list Z) : run (World * option gerror) :=
  x ← get_acc w a;
  if a_closed x then Ret (w, Some ErrClosedPipe)
  else Ret (emit w (EvTrackWrite a buf), track_Write_err env).

(** [Accepter.Ref]: nil when closed. *)
Definition Ref (w : World) (a : nat) : run (World * option nat) :=
  x ← get_acc w a;
  if a_closed x then Ret (w, None)
  else Ret (put_acc w a {| a_track := a_track x; a_closed := a_closed x; a_subs := a_subs x;
                            ref_count := ref_count x + 1 |}, Some a).

Definition IsClosed (w : World) (a : nat) : run bool := a_closed <$> get_acc w a.

(** [Accepter.Close]: the bound subscriptions drop their tracks, then the
    bindings go. *)
Definition Accepter_Close (held : option string) (w : World) (a : nat) (force : bool) : run (World * bool) :=
  x ← get_acc w a;
  let r := if force then 0%Z else (ref_count x - 1)%Z in
  if (r =? 0)%Z then
    let w := put_acc w a {| a_track := a_track x; a_closed := true; a_subs := a_subs x; ref_count := r |} in
    w ← unbind_each held w (range_set (default ∅ (a_subs x))) a;
    x ← get_acc w a;
    Ret (put_acc w a {| a_track := a_track x; a_closed := a_closed x; a_subs := None;
                         ref_count := ref_count x |}, true)
  else
    Ret (put_acc w a {| a_track := a_track x; a_closed := a_closed x; a_subs := a_subs x; ref_count := r |}, false).

(** [NewAccepter]; [webrtc.MimeTypeVP8]. *)
Definition vp8 : WebrtcCodec := {| w_MimeType := "video/VP8"; w_ClockRate := 0; w_Channels := 0;
  w_SDPFmtpLine := ""; w_RTCPFeedback := None; w_PayloadType := 0 |}.

Definition NewAccepter (track : Track) : run Accepter :=
  let capability := match Codec track with
                    | Some c => RTPCodecParametersToWebrtc c
                    | None => vp8
                    end in
  newId ← NewUUID (LocalId track) (PubId track);
  newSId ← NewUUID (StreamId track) (PubId track);
  match NewTrackLocalStaticRTP capability newId newSId with
  | inr _ => go_panic (PMsg "NewTrackLocalStaticRTP")
  | inl t => Ret {| a_track := t; a_closed := false; a_subs := None; ref_count := 1 |}
  end.

(** [Router.AcceptTrack]: the loop, with fuel. *)
Fixpoint Router_AcceptTrack (fuel : nat) (w : World) (track : Track) : run (World * nat) :=
  match fuel with
  | O => Abort NoFuel
  | S fuel =>
      match track2accepters w !! GlobalId track with
      | Some a =>
          '(w, r) ← Ref w a;
          match r with
          | Some a => Ret (w, a)
          | None => Router_AcceptTrack fuel w track
          end
      | None =>
          x ← NewAccepter track;
          let a := length (accs w) in
          Ret (set_track2accepters (set_accs w (accs w ++ [x])) (<[GlobalId track := a]> (track2accepters w)), a)
      end
  end.

(** [Router.UnbindSub] *)
Definition Router_UnbindSub (held : option string) (w : World) (sub_id track_id : string) : run World :=
  match track2accepters w !! track_id with
  | None => Ret w
  | Some a =>
      w ← Accepter_UnbindSub w a sub_id;
      '(w, _) ← Accepter_Close held w a false;
      Ret w
  end.

(** [Router.makeSureExternelConn]: dials once per address other than the
    node's own.  A connection is known by the number of calls made before it. *)
Definition makeSureExternelConn (env : Env) (w : World) (addr : string) : run World :=
  if bool_decide (router_addr w = addr) then Ret w
  else if bool_decide (is_Some (externalTransports w !! addr)) then Ret w
  else match ResolveUDPAddr_err env addr with
       | Some _ => go_panic (PMsg "ResolveUDPAddr")
       | None =>
           match DialUDP_err env addr with
           | Some _ => go_panic (PMsg "DialUDP")
           | None => Ret (set_external (emit w (EvDial addr)) (<[addr := length (events w)]> (externalTransports w)))
           end
       end.

(** [closer] of [makeSureExternelConn], when the connection [conn] to [addr]
    ended. *)
Definition closer (w : World) (addr : string) (conn : nat) : World :=
  if bool_decide (externalTransports w !! addr = Some conn)
  then set_external w (delete addr (externalTransports w)) else w.

(** [model.MatchTracks] through a pattern pointer: [Match] dereferences it
    for the first track. *)
Definition match_tracks (me : option PublicationPattern) (tracks : list Track) (req : list string)
    : run (list Track * list Track) :=
  match me, tracks with
  | Some me, _ => MatchTracks range_groups me tracks req
  | None, [] => Ret ([], [])
  | None, _ :: _ => go_panic PNilDeref
  end.

Definition relabel (track : Track) (lid bid sid : string) : Track :=
  {| Type_ := Type_ track; PubId := PubId track; GlobalId := GlobalId track; LocalId := lid;
     BindId := bid; Rid := Rid track; StreamId := sid; Codec := Codec track; Labels := Labels track |}.

(** The loop of [Subscription.AcceptTrack] over the matched tracks, the
    mutex of the subscription held.  The track stored in the
    [SubscribedTrack] is the one the loop then relabels: they are the same
    object. *)
Fixpoint accept_loop (env : Env) (fuel : nat) (sub : string) (matcheds : list Track)
    (w : World) (need_neg : bool) (subTracks : list Track) : run (World * bool * list Track) :=
  match matcheds with
  | [] => Ret (w, need_neg, subTracks)
  | matched :: matcheds' =>
      let track := CopyTrack matched in
      s ← get_sub w sub;
      match tracks_of s !! GlobalId track with
      | Some st =>
          x ← get_acc w (st_accepter st);
          let track := relabel track (track_ID (a_track x)) (bindId st) (sid st) in
          accept_loop env fuel sub matcheds' w need_neg (subTracks ++ [track])
      | None =>
          '(w, a) ← Router_AcceptTrack fuel w track;
          let w := emit w (EvAddTrack sub a) in
          match AddTrack_err env (GlobalId track) with
          | Some _ => go_panic (PMsg "AddTrack")
          | None =>
              let snd := sender_of env (GlobalId track) in
              let mid := getMidFromSender env snd in
              x ← get_acc w a;
              let ssid := track_StreamID (a_track x) in
              let track := relabel track (track_ID (a_track x)) mid ssid in
              let st := {| pubTrack := track; sid := ssid; st_accepter := a; sender := snd;
                           bindId := mid; st_labels := Labels track |} in
              s ← get_sub w sub;
              let w := put_sub w sub (set_acceptedTrack s (Some (<[GlobalId track := st]> (tracks_of s)))) in
              w ← BindSub w a sub;
              accept_loop env fuel sub matcheds' w true (subTracks ++ [track])
          end
      end
  end.

(** The unmatched tracks of the accepted publication are dropped. *)
Fixpoint drop_unmatched (w : World) (sub : string) (unmatcheds : list Track) : run World :=
  match unmatcheds with
  | [] => Ret w
  | t :: ts =>
      s ← get_sub w sub;
      match tracks_of s !! GlobalId t with
      | Some st => w ← Remove w sub st; drop_unmatched w sub ts
      | None => drop_unmatched w sub ts
      end
  end.

(** [SignalContext.NextSdpMsgId]: an [atomic.Int32] *)
Definition NextSdpMsgId (w : World) (ctx : string) : World * Z :=
  let v := i32 (default 0%Z (sdpMsgId w !! ctx) + 2) in
  (set_sdp w (<[ctx:=v]> (sdpMsgId w)), v).

(** The part of [Subscription.AcceptTrack] after the matched tracks are
    known not to be empty. *)
Definition accept_matched (env : Env) (fuel : nat) (w : World) (sub : string) (msg : StateMessage)
    (matcheds : list Track) : run World :=
  s ← get_sub w sub;
  let w := put_sub w sub (set_acceptedPubId s (State_PubId msg)) in
  w ← makeSureExternelConn env w (State_Addr msg);
  match makeSurePeer_err env with
  | Some _ => go_panic (PMsg "makeSurePeer")
  | None =>
      s ← get_sub w sub;
      let w := put_sub w sub (set_acceptedTrack s (Some (tracks_of s))) in
      '(w, need_neg, subTracks) ← accept_loop env fuel sub matcheds w false [];
      if (need_neg : bool) then
        let '(w, sdpId) := NextSdpMsgId w (sctx s) in
        let w := emit w (EvSelect sub {| Select_Router := None; Select_PubId := State_PubId msg;
                   Select_TransportId := uuid_String (router_id w); Select_Tracks := matcheds |}) in
        Ret (emit w (EvSubscribed sub {| Subd_SubId := sub; Subd_PubId := State_PubId msg;
                   Subd_SdpId := sdpId; Subd_Tracks := subTracks |}))
      else Ret w
  end.

(** [Subscription.AcceptTrack], with nothing else running: [RoutingConc] has the points at which other goroutines may
    come in between, and [accept_alone] there relates the two. *)
Definition Subscription_AcceptTrack (env : Env) (fuel : nat) (w : World) (sub : string) (msg : StateMessage)
    : run World :=
  s ← get_sub w sub;
  if closed s then Ret w
  else if bool_decide (acceptedPubId s <> "" /\ acceptedPubId s <> State_PubId msg) then Ret w
  else
    '(matcheds, unmatcheds) ← match_tracks (pattern s) (State_Tracks msg) (reqTypes s);
    if bool_decide (acceptedPubId s = State_PubId msg) then
      w ← drop_unmatched w sub unmatcheds;
      if (length matcheds =? 0)%nat then
        s ← get_sub w sub; Ret (put_sub w sub (set_acceptedPubId s ""))
      else accept_matched env fuel w sub msg matcheds
    else if (length matcheds =? 0)%nat then Ret w
    else accept_matched env fuel w sub msg matcheds.

Definition UpdatePattern (w : World) (sub : string) (message : SubscribeMessage) : run World :=
  s ← get_sub w sub;
  let tracks := (fun kv => pubTrack kv.2) <$> range_tracks (tracks_of s) in
  '(_, unmatched) ← match_tracks (Sub_Pattern message) tracks (Sub_ReqTypes message);
  w ← drop_unmatched w sub unmatched;
  s ← get_sub w sub;
  Ret (put_sub w sub {| closed := closed s; reqTypes := Sub_ReqTypes message;
         pattern := Sub_Pattern message; sctx := sctx s; acceptedPubId := acceptedPubId s;
         acceptedTrack := acceptedTrack s |}).

Fixpoint close_loop (w : World) (sub : string) (l : list (string * SubscribedTrack)) : run World :=
  match l with
  | [] => Ret w
  | (tid, track) :: l' =>
      w ← Router_UnbindSub (Some sub) w sub tid;
      w ← Remove w sub track;
      close_loop w sub l'
  end.

(** [Subscription.Close]; the deletion from the context's
    [subscriptions] is that of the caller's map. *)
Definition Subscription_Close (w : World) (sub : string) : run World :=
  s ← get_sub w sub;
  let w := put_sub w sub {| closed := true; reqTypes := reqTypes s; pattern := pattern s; sctx := sctx s;
             acceptedPubId := acceptedPubId s; acceptedTrack := acceptedTrack s |} in
  w ← close_loop w sub (range_tracks (tracks_of s));
  s ← get_sub w sub;
  Ret (put_sub w sub (set_acceptedTrack s None)).

(** ** The code: the router's loops *)

(** [errors.Ignore(io.ErrClosedPipe, webrtc.ErrConnectionClosed)]: swallows
    a panic with an error that is one of these. *)
Definition ErrConnectionClosed : gerror := EOther "connection closed".

Definition ignored (e : gerror) : bool := bool_decide (e = ErrClosedPipe) || bool_decide (e = ErrConnectionClosed).

Definition error_panic {A} (e : gerror) : run A :=
  go_panic (match e with EConf c => PCode c | EOther t => PMsg t end).

(** One iteration of the first goroutine of [Router.run]. *)
Definition handle_setup (w : World) (buf : list Z) (n : Z) (addr : string) : run World :=
  '(err, setup) ← DecodeSetupPacket buf n (NewSetupPacket None);
  match err with
  | Some _ => Ret w
  | None =>
      let connId := default (zeros 16) (uuid_FromBytes (TransportId setup)) in
      let w := set_addrMap w (<[uuid_String connId := addr]> (addrMap w)) in
      ark ← NewSetupArkPacketBuf (Some (TransportId setup));
      Ret (emit w (EvSend addr ark))
  end.

(** The packet to every transport of its track whose address is known. *)
Fixpoint send_all (env : Env) (w : World) (transports : list string) (packet : Packet) : run World :=
  match transports with
  | [] => Ret w
  | t :: ts =>
      match addrMap w !! t with
      | None => send_all env w ts packet
      | Some addr =>
          match ResolveUDPAddr_err env addr with
          | Some e => error_panic e
          | None => b ← wire packet; send_all env (emit w (EvSend addr b)) ts packet
          end
      end
  end.

(** The write to an accepter: an error of a closed accepter is dropped. *)
Definition write_accepter (env : Env) (w : World) (a : nat) (buf : list Z) : run (World * option gerror) :=
  '(w, err) ← Accepter_Write env w a buf;
  match err with
  | None => Ret (w, None)
  | Some e => c ← IsClosed w a; Ret (w, if (c : bool) then None else Some e)
  end.

(** One iteration of the second goroutine of [Router.run] on the packet it
    received.  The panic with the write's error is caught when ignored.  The
    deferred return of the packet to the pool has no effect on this state and
    is left out. *)
Definition handle_packet (env : Env) (w : World) (packet : Packet) : run World :=
  w ← match track2transports w !! TrackId packet with
      | Some ts => send_all env w (range_set ts) packet
      | None => Ret w
      end;
  match track2accepters w !! TrackId packet with
  | None => Ret w
  | Some a =>
      eof ← IsEOF packet;
      if (eof : bool) then '(w, _) ← Accepter_Close None w a true; Ret w
      else
        b ← go_slice (data packet) (Z.of_nat PACKET_TRACK_HEADER_SIZE) (Z.of_nat (n packet));
        '(w, err) ← write_accepter env w a b;
        match err with
        | None => Ret w
        | Some e => if ignored e then Ret w else error_panic e
        end
  end.

(** One datagram of the receive loop of [makeSureExternelConn]; [true] when
    the setup loop is signalled through [chArk]. *)
Definition handle_external (env : Env) (w : World) (s : list Z) : run (World * bool) :=
  if IsDataPacket s then
    '(trackId, rtpData, err) ← ExtractPacket s;
    match err with
    | Some e => error_panic e
    | None =>
        match track2accepters w !! (trackId : string) with
        | None => Ret (w, false)
        | Some a =>
            '(w, err) ← write_accepter env w a rtpData;
            match err with
            | None => Ret (w, false)
            | Some e => error_panic e
            end
        end
    end
  else if IsSetupArk s then
    Ret (w, IsSetup s)
  else if IsEofPacket s then
    '(trackId, _, err) ← ExtractPacket s;
    match err with
    | Some e => error_panic e
    | None =>
        match track2accepters w !! (trackId : string) with
        | None => Ret (w, false)
        | Some a => '(w, _) ← Accepter_Close None w a true; Ret (w, false)
        end
    end
  else Ret (w, false).

Definition CHAN_COUNT : nat := 4.

(** [Router.PublishTrack]: the index of the channel returned. *)
Definition PublishTrack (w : World) (trackId transportId : string) : World * nat :=
  let w := if bool_decide (transportId <> uuid_String (router_id w)) then
             let ts := default ∅ (track2transports w !! trackId) in
             set_track2transports w (<[trackId := {[transportId]} ∪ ts]> (track2transports w))
           else w in
  (set_curChan w ((curChan w + 1) mod CHAN_COUNT), curChan w).

Definition RemoveTrack (w : World) (trackId : string) : World :=
  set_track2transports w (delete trackId (track2transports w)).

(** [NewRouter] with the id [uuid.NewRandom] gave, and no subscription. *)
Definition NewRouter (id : list Z) (addr : string) : World :=
  {| accs := []; track2accepters := ∅; subs := ∅; track2transports := ∅; addrMap := ∅;
     externalTransports := ∅; curChan := 0; router_id := id; router_addr := addr;
     sdpMsgId := ∅; events := [] |}.

End Code.
