(* ===== verification/RoutingInv.v ===== *)
(** * RoutingInv: references and bindings stay consistent

    The invariant of the store of [Routing.v]: every track a subscription
    holds is served by the open accepter registered for the track, which has
    the subscription among its bindings; an open accepter has at least one
    reference and at least as many references as bindings; a closed one has no
    binding; a closed subscription holds nothing.  Every operation preserves
    it, the closing operations always return under it, and their effect on
    every subscription and accepter is described. *)
From S2P Require Import Prelude Collection Pattern Messages Packets Routing.
Local Open Scope string_scope.
Local Open Scope list_scope.

Section Inv.
Context `{Uuid, Webrtc, MapOrderLaws}.
Implicit Types (w : World) (s : Subscription) (x : Accepter) (st : SubscribedTrack).

Definition bound x : gset string := default ∅ (a_subs x).

Definition acc_ok x : Prop :=
  if a_closed x then bound x = ∅
  else (1 <= ref_count x)%Z /\ (Z.of_nat (size (bound x)) <= ref_count x)%Z.

Definition served w sub gid st : Prop :=
  GlobalId (pubTrack st) = gid /\ track2accepters w !! gid = Some (st_accepter st) /\
  exists x, accs w !! st_accepter st = Some x /\ a_closed x = false /\ sub ∈ bound x.

(** All but what concerns closed subscriptions. *)
Record inv0 w : Prop := {
  inv_track sub s gid st : subs w !! sub = Some s -> tracks_of s !! gid = Some st -> served w sub gid st;
  inv_acc k x : accs w !! k = Some x -> acc_ok x;
  inv_t2a g k : track2accepters w !! g = Some k -> k < length (accs w);
  inv_inj g1 g2 k : track2accepters w !! g1 = Some k -> track2accepters w !! g2 = Some k -> g1 = g2;
  inv_bound k x sub : accs w !! k = Some x -> sub ∈ bound x -> is_Some (subs w !! sub)
}.

Definition closed_ok w : Prop :=
  forall sub s, subs w !! sub = Some s -> closed s = true -> tracks_of s = ∅.

Definition inv w : Prop := inv0 w /\ closed_ok w.

(** The invariant reads three fields. *)
Lemma inv0_ext w w' :
  accs w' = accs w -> track2accepters w' = track2accepters w -> subs w' = subs w -> inv0 w -> inv0 w'.
Proof.
  intros E1 E2 E3 [I1 I2 I3 I4 I5]. unfold served in *.
  split; unfold served; rewrite ?E1, ?E2, ?E3; eauto.
Qed.

Lemma inv_ext w w' :
  accs w' = accs w -> track2accepters w' = track2accepters w -> subs w' = subs w -> inv w -> inv w'.
Proof.
  intros E1 E2 E3 [I C]. split; [by eapply inv0_ext|]. intros sub s. rewrite E3. apply C.
Qed.

(** What the accepter operations leave alone. *)
Definition rest w := (track2accepters w, track2transports w, addrMap w, externalTransports w,
  curChan w, router_id w, router_addr w, sdpMsgId w).

(** ** Removing tracks *)

Definition without (gids : list string) s : Subscription :=
  set_acceptedTrack s (filter (fun kv => kv.1 ∉ gids) <$> acceptedTrack s).

Lemma tracks_of_without gids s : tracks_of (without gids s) = filter (fun kv => kv.1 ∉ gids) (tracks_of s).
Proof. unfold tracks_of. cbn. destruct (acceptedTrack s); cbn; [done|]. by rewrite map_filter_empty. Qed.

Lemma without_nil s : without [] s = s.
Proof.
  destruct s as [c r p t i m]. unfold without, set_acceptedTrack. cbn. f_equal.
  destruct m as [m|]; cbn; [|done]. f_equal. apply map_filter_id. intros ? ? _ Hin. by apply not_elem_of_nil in Hin.
Qed.

Lemma without_cons g gids s :
  without gids (set_acceptedTrack s (delete g <$> acceptedTrack s)) = without (g :: gids) s.
Proof.
  unfold without, set_acceptedTrack. cbn. f_equal. destruct (acceptedTrack s) as [m|]; cbn; [|done].
  f_equal. apply map_eq. intros k. apply option_eq. intros st.
  rewrite !map_lookup_filter_Some, lookup_delete_Some. cbn. rewrite not_elem_of_cons. naive_solver.
Qed.

(** An operation that only rewrites one subscription and logs events. *)
Definition only_sub w sub s' w' : Prop :=
  accs w' = accs w /\ rest w' = rest w /\ subs w' = <[sub:=s']> (subs w).

Lemma Remove_spec w sub s st :
  subs w !! sub = Some s ->
  exists w', Remove w sub st = Ret w' /\
    only_sub w sub (set_acceptedTrack s (delete (GlobalId (pubTrack st)) <$> acceptedTrack s)) w'.
Proof. intros Hs. unfold Remove, get_sub. cbn. rewrite Hs. cbn. eexists. split; [done|]. done. Qed.

Lemma only_sub_trans w1 w2 w3 sub s1 s2 :
  only_sub w1 sub s1 w2 -> only_sub w2 sub s2 w3 -> only_sub w1 sub s2 w3.
Proof.
  intros (A1 & R1 & S1) (A2 & R2 & S2). split; [congruence|]. split; [congruence|].
  by rewrite S2, S1, insert_insert_eq.
Qed.

Lemma only_sub_lookup w sub s' w' : only_sub w sub s' w' -> subs w' !! sub = Some s'.
Proof. intros (_ & _ & ->). apply lookup_insert_eq. Qed.

Lemma remove_all_spec w sub s sts :
  subs w !! sub = Some s ->
  exists w', remove_all w sub sts = Ret w' /\
    only_sub w sub (without ((fun st => GlobalId (pubTrack st)) <$> sts) s) w'.
Proof.
  revert w s. induction sts as [|st sts IH]; intros w s Hs; cbn [remove_all fmap list_fmap].
  - exists w. split; [done|]. rewrite without_nil. split; [done|]. split; [done|].
    by rewrite insert_id.
  - destruct (Remove_spec w sub s st Hs) as (w1 & -> & Ho). cbn [mbind run_bind].
    destruct (IH _ _ (only_sub_lookup _ _ _ _ Ho)) as (w2 & -> & Ho2). exists w2. split; [done|].
    rewrite without_cons in Ho2. by eapply only_sub_trans.
Qed.

(** The tracks of a subscription are stored under their global ids. *)
Definition keys_ok s : Prop := forall gid st, tracks_of s !! gid = Some st -> GlobalId (pubTrack st) = gid.

Lemma keys_ok_without gids s : keys_ok s -> keys_ok (without gids s).
Proof. intros Hk g st. rewrite tracks_of_without, map_lookup_filter_Some. intros [? _]. by apply Hk. Qed.

Lemma drop_unmatched_spec w sub s ts :
  subs w !! sub = Some s -> keys_ok s ->
  exists w', drop_unmatched w sub ts = Ret w' /\ only_sub w sub (without (GlobalId <$> ts) s) w'.
Proof.
  revert w s. induction ts as [|t ts IH]; intros w s Hs Hk; cbn [drop_unmatched fmap list_fmap].
  - exists w. split; [done|]. rewrite without_nil. split; [done|]. split; [done|]. by rewrite insert_id.
  - unfold get_sub. rewrite Hs. cbn [go_deref mbind run_bind].
    destruct (tracks_of s !! GlobalId t) as [st|] eqn:Ht.
    + destruct (Remove_spec w sub s st Hs) as (w1 & -> & Ho). cbn [mbind run_bind].
      rewrite (Hk _ _ Ht) in Ho.
      assert (keys_ok (set_acceptedTrack s (delete (GlobalId t) <$> acceptedTrack s))) as Hk1.
      { intros g st'. unfold tracks_of. cbn. destruct (acceptedTrack s) as [m|] eqn:Em; cbn; [|done].
        rewrite lookup_delete_Some. intros [_ Hm]. apply Hk. unfold tracks_of. by rewrite Em. }
      destruct (IH _ _ (only_sub_lookup _ _ _ _ Ho) Hk1) as (w2 & -> & Ho2).
      exists w2. split; [done|]. rewrite without_cons in Ho2. by eapply only_sub_trans.
    + destruct (IH w s Hs Hk) as (w' & -> & Ho). exists w'. split; [done|].
      assert (without (GlobalId t :: (GlobalId <$> ts)) s = without (GlobalId <$> ts) s) as ->; [|done].
      rewrite <- without_cons. f_equal. unfold tracks_of in Ht. destruct s as [c r p i pp m].
      unfold set_acceptedTrack. cbn in *. f_equal. destruct m as [m|]; cbn in *; [|done].
      by rewrite delete_id.
Qed.

(** The subscription with the tracks of one accepter dropped. *)
Definition strip (a : nat) s : Subscription :=
  set_acceptedTrack s (filter (fun kv => st_accepter kv.2 <> a) <$> acceptedTrack s).

Lemma tracks_of_strip a s : tracks_of (strip a s) = filter (fun kv => st_accepter kv.2 <> a) (tracks_of s).
Proof. unfold tracks_of. cbn. destruct (acceptedTrack s); cbn; [done|]. by rewrite map_filter_empty. Qed.

Lemma UnbindAccepter_spec held w sub s a :
  subs w !! sub = Some s -> keys_ok s -> held <> Some sub ->
  exists w', UnbindAccepter held w sub a = Ret w' /\ only_sub w sub (strip a s) w'.
Proof.
  intros Hs Hk Hh. unfold UnbindAccepter. rewrite bool_decide_eq_false_2 by done.
  unfold get_sub. rewrite Hs. cbn [go_deref mbind run_bind].
  destruct (remove_all_spec w sub s
    (filter (fun st => st_accepter st = a) (range_tracks (tracks_of s)).*2) Hs) as (w' & -> & Ho).
  exists w'. split; [done|].
  assert (without ((fun st => GlobalId (pubTrack st)) <$>
    filter (fun st => st_accepter st = a) (range_tracks (tracks_of s)).*2) s = strip a s) as <-; [|done].
  unfold without, strip, set_acceptedTrack. f_equal.
  unfold keys_ok, tracks_of in *. destruct (acceptedTrack s) as [m|]; cbn [default fmap option_fmap] in *; [|done].
  cbn. f_equal. apply map_filter_ext. cbn. intros g st Hg.
  rewrite list_elem_of_fmap. setoid_rewrite list_elem_of_filter. setoid_rewrite list_elem_of_fmap.
  split.
  - intros Hn Ha. apply Hn. exists st. rewrite (Hk _ _ Hg). split; [done|]. split; [done|].
    exists (g, st). split; [done|]. rewrite range_tracks_perm. by apply elem_of_map_to_list.
  - intros Ha (st' & E & Ha' & [g' st''] & E2 & Hin). cbn in E2. subst st''.
    rewrite range_tracks_perm in Hin. apply elem_of_map_to_list in Hin.
    rewrite (Hk _ _ Hin) in E. subst g'. congruence.
Qed.

(** ** Closing an accepter *)

Lemma unbind_each_spec held w ss a :
  NoDup ss -> held ∉ Some <$> ss ->
  (forall sub, sub ∈ ss -> exists s, subs w !! sub = Some s /\ keys_ok s) ->
  exists w', unbind_each held w ss a = Ret w' /\ accs w' = accs w /\ rest w' = rest w /\
    forall sub, subs w' !! sub = if decide (sub ∈ ss) then strip a <$> subs w !! sub else subs w !! sub.
Proof.
  revert w. induction ss as [|sub ss IH]; intros w Hnd Hh Hss; cbn [unbind_each].
  - exists w. split; [done|]. split; [done|]. split; [done|]. intros sub.
    rewrite decide_False; [done|]. apply not_elem_of_nil.
  - apply NoDup_cons in Hnd as [Hni Hnd]. cbn in Hh. apply not_elem_of_cons in Hh as [Hh1 Hh2].
    destruct (Hss sub) as (s & Hs & Hk); [by left|].
    destruct (UnbindAccepter_spec held w sub s a Hs Hk Hh1) as (w1 & -> & A1 & R1 & S1).
    cbn [mbind run_bind]. destruct (IH w1) as (w2 & -> & A2 & R2 & S2); [done|done| |].
    { intros sub' Hin. rewrite S1, lookup_insert_ne by congruence. apply Hss. by right. }
    exists w2. split; [done|]. split; [congruence|]. split; [congruence|]. intros sub'.
    rewrite S2, S1. destruct (decide (sub' = sub)) as [->|Hne].
    + rewrite lookup_insert_eq. rewrite decide_False by done. rewrite decide_True by left. by rewrite Hs.
    + rewrite lookup_insert_ne by done. destruct (decide (sub' ∈ ss)).
      * by rewrite decide_True by (by right).
      * rewrite decide_False; [done|]. apply not_elem_of_cons. done.
Qed.

Definition shut x : Accepter := {| a_track := a_track x; a_closed := true; a_subs := None; ref_count := 0 |}.

Lemma inv_keys w sub s : inv0 w -> subs w !! sub = Some s -> keys_ok s.
Proof. intros I Hs g st Ht. by destruct (inv_track _ I _ _ _ _ Hs Ht). Qed.

(** [Close(true)]: the accepter is closed and every subscription drops
    its track of this accepter. *)
Lemma Close_force_spec w a x :
  inv0 w -> accs w !! a = Some x ->
  exists w', Accepter_Close None w a true = Ret (w', true) /\ rest w' = rest w /\
    accs w' = <[a := shut x]> (accs w) /\
    forall sub, subs w' !! sub = if decide (sub ∈ bound x) then strip a <$> subs w !! sub else subs w !! sub.
Proof.
  intros I Ha. unfold Accepter_Close, get_acc. rewrite Ha. cbn [go_deref mbind run_bind Z.eqb].
  destruct (unbind_each_spec None
    (put_acc w a {| a_track := a_track x; a_closed := true; a_subs := a_subs x; ref_count := 0 |})
    (range_set (default ∅ (a_subs x))) a) as (w' & -> & A & R & S).
  - rewrite range_set_perm. apply NoDup_elements.
  - rewrite list_elem_of_fmap. naive_solver.
  - intros sub Hin. rewrite range_set_perm, elem_of_elements in Hin.
    destruct (inv_bound _ I _ _ _ Ha Hin) as [s Hs]. exists s. split; [done|]. by eapply inv_keys.
  - cbn [mbind run_bind]. rewrite A. cbn. assert (a < length (accs w)) as Hlt by (by eapply lookup_lt_Some).
    rewrite list_lookup_insert_eq by done. cbn. eexists. split; [done|].
    split; [done|]. split; [cbn; rewrite A; cbn; apply list_insert_insert_eq|].
    intros sub. cbn. rewrite S. cbn. unfold bound.
    destruct (decide (sub ∈ range_set _)) as [Hin|Hin], (decide (sub ∈ default ∅ (a_subs x))) as [Hin'|Hin'];
      try done; rewrite range_set_perm, elem_of_elements in Hin; done.
Qed.

Lemma tracks_strip a s g st :
  tracks_of (strip a s) !! g = Some st <-> tracks_of s !! g = Some st /\ st_accepter st <> a.
Proof. by rewrite tracks_of_strip, map_lookup_filter_Some. Qed.

Lemma Close_force_inv w a x w' :
  inv w -> accs w !! a = Some x -> rest w' = rest w -> accs w' = <[a := shut x]> (accs w) ->
  (forall sub, subs w' !! sub = if decide (sub ∈ bound x) then strip a <$> subs w !! sub else subs w !! sub) ->
  inv w'.
Proof.
  intros [I C] Ha R A S. assert (track2accepters w' = track2accepters w) as T by (unfold rest in R; congruence).
  assert (forall sub s', subs w' !! sub = Some s' -> exists s, subs w !! sub = Some s /\
    closed s' = closed s /\ forall g st, tracks_of s' !! g = Some st -> tracks_of s !! g = Some st /\ st_accepter st <> a) as Hsub.
  { intros sub s' Hs'. rewrite S in Hs'. destruct (decide (sub ∈ bound x)) as [Hin|Hin].
    - destruct (subs w !! sub) as [s|] eqn:Hs; [|done]. injection Hs' as <-. exists s. split; [done|].
      split; [done|]. intros g st. by rewrite tracks_strip.
    - exists s'. split; [done|]. split; [done|]. intros g st Ht. split; [done|]. intros Ea.
      destruct (inv_track _ I _ _ _ _ Hs' Ht) as (_ & _ & x' & Hx' & _ & Hb).
      rewrite Ea, Ha in Hx'. congruence. }
  assert (a < length (accs w)) as Hlt by (by eapply lookup_lt_Some).
  split; [split|].
  - intros sub s' g st Hs' Ht. destruct (Hsub _ _ Hs') as (s & Hs & _ & Hst).
    destruct (Hst _ _ Ht) as [Ht0 Hne]. destruct (inv_track _ I _ _ _ _ Hs Ht0) as (E1 & E2 & x' & E3 & E4).
    split; [done|]. split; [by rewrite T|]. exists x'. rewrite A, list_lookup_insert_ne by done. done.
  - intros k x'. rewrite A, list_lookup_insert_Some. intros [(-> & <- & _)|[_ Hk]]; [done|].
    by eapply inv_acc.
  - intros g k. rewrite T, A, length_insert. apply (inv_t2a _ I).
  - intros g1 g2 k. rewrite T. apply (inv_inj _ I).
  - intros k x' sub. rewrite A, list_lookup_insert_Some. intros [(-> & <- & _)|[_ Hk]] Hin; [by apply not_elem_of_empty in Hin|].
    destruct (inv_bound _ I _ _ _ Hk Hin) as [s Hs]. rewrite S, Hs. destruct (decide _); cbn; eauto.
  - intros sub s' Hs' Hc. destruct (Hsub _ _ Hs') as (s & Hs & Ec & Hst).
    apply map_eq. intros g. rewrite lookup_empty. destruct (tracks_of s' !! g) as [st|] eqn:Et; [|done].
    destruct (Hst _ _ Et) as [Ht _]. rewrite (C _ _ Hs) in Ht by congruence. by rewrite lookup_empty in Ht.
Qed.

(** [Router.UnbindSub] for a track the subscription holds: one reference
    and the binding go; the accepter closes with its last reference, and then
    no other subscription was bound to it. *)
Definition released sub x : Accepter :=
  if (ref_count x - 1 =? 0)%Z
  then {| a_track := a_track x; a_closed := true; a_subs := None; ref_count := 0 |}
  else {| a_track := a_track x; a_closed := a_closed x; a_subs := Some (bound x ∖ {[sub]});
          ref_count := ref_count x - 1 |}.

Lemma size_difference_singleton (m : gset string) sub :
  sub ∈ m -> size (m ∖ {[sub]}) = size m - 1.
Proof. intros Hin. rewrite size_difference by set_solver. by rewrite size_singleton. Qed.

Lemma UnbindSub_spec w sub s g st x :
  inv0 w -> subs w !! sub = Some s -> tracks_of s !! g = Some st -> accs w !! st_accepter st = Some x ->
  exists w', Router_UnbindSub (Some sub) w sub g = Ret w' /\ rest w' = rest w /\ subs w' = subs w /\
    accs w' = <[st_accepter st := released sub x]> (accs w).
Proof.
  intros I Hs Ht Hx. destruct (inv_track _ I _ _ _ _ Hs Ht) as (_ & Hg & x' & Hx' & Hop & Hin).
  assert (x' = x) as -> by congruence. clear Hx'.
  assert (st_accepter st < length (accs w)) as Hlt by (by eapply lookup_lt_Some).
  pose proof (inv_acc _ I _ _ Hx) as Hok. unfold acc_ok in Hok. rewrite Hop in Hok. destruct Hok as [Hr Hsz].
  unfold bound in *. destruct (a_subs x) as [m|] eqn:Em; [|by apply not_elem_of_empty in Hin]. cbn in Hin, Hsz.
  unfold Router_UnbindSub. rewrite Hg. unfold Accepter_UnbindSub, get_acc. rewrite Hx. cbn [go_deref mbind run_bind].
  rewrite Em. rewrite bool_decide_eq_true_2 by done. unfold Accepter_Close, get_acc.
  cbn [mbind run_bind put_acc set_accs accs]. rewrite list_lookup_insert_eq by done. cbn [go_deref mbind run_bind ref_count a_subs].
  unfold released, bound. rewrite Em. destruct (Z.eqb_spec (ref_count x - 1) 0) as [E0|E0].
  - assert (m ∖ {[sub]} = ∅) as Hem.
    { apply leibniz_equiv, size_empty_inv. rewrite size_difference_singleton by done. lia. }
    assert (range_set (m ∖ {[sub]}) = []) as Hr0.
    { apply Permutation_nil. rewrite range_set_perm, Hem. by rewrite elements_empty. }
    cbn. rewrite Hr0. cbn. rewrite list_lookup_insert_eq by (by rewrite length_insert). cbn. eexists. split; [done|].
    split; [done|]. split; [done|]. cbn. rewrite !list_insert_insert_eq. by rewrite E0.
  - cbn. eexists. split; [done|]. split; [done|]. split; [done|]. cbn. by rewrite list_insert_insert_eq.
Qed.

Lemma inv0_put_sub w w' sub s s' :
  inv0 w -> subs w !! sub = Some s -> accs w' = accs w -> track2accepters w' = track2accepters w ->
  subs w' = <[sub:=s']> (subs w) ->
  (forall g st, tracks_of s' !! g = Some st -> tracks_of s !! g = Some st) -> inv0 w'.
Proof.
  intros [I1 I2 I3 I4 I5] Hs A T S Ht. unfold served in I1.
  split; unfold served; rewrite ?A, ?T, ?S; eauto.
  - intros sub1 s1 g st. rewrite lookup_insert_Some. intros [[<- <-]|[_ Hs1]]; eauto.
  - intros k x sub1 Hk Hin. destruct (I5 _ _ _ Hk Hin) as [s1 Hs1]. rewrite lookup_insert_is_Some'. eauto.
Qed.

Lemma released_ok sub x :
  acc_ok x -> a_closed x = false -> sub ∈ bound x -> acc_ok (released sub x).
Proof.
  unfold acc_ok, released. intros Hok Hop Hin. rewrite Hop in Hok. destruct Hok as [Hr Hsz].
  destruct (Z.eqb_spec (ref_count x - 1) 0); cbn [a_closed ref_count]; [done|]. rewrite Hop. split; [lia|].
  change (Z.of_nat (size (bound x ∖ {[sub]})) <= ref_count x - 1)%Z.
  rewrite size_difference_singleton by done. lia.
Qed.

Lemma released_bound sub x sub' : sub' ∈ bound (released sub x) -> sub' ∈ bound x.
Proof. unfold released. destruct (_ =? _)%Z; cbn; [by intros ?%not_elem_of_empty|]. unfold bound. cbn. set_solver. Qed.

Lemma released_other sub x sub' :
  acc_ok x -> a_closed x = false -> sub ∈ bound x -> sub' ∈ bound x -> sub' <> sub ->
  a_closed (released sub x) = false /\ sub' ∈ bound (released sub x).
Proof.
  unfold acc_ok, released. intros Hok Hop Hin Hin' Hne. rewrite Hop in Hok. destruct Hok as [Hr Hsz].
  assert (2 <= size (bound x)) as Htwo.
  { trans (size ({[sub; sub']} : gset string)); [|apply subseteq_size; set_solver].
    rewrite size_union by set_solver. by rewrite !size_singleton. }
  destruct (Z.eqb_spec (ref_count x - 1) 0); [lia|]. split; [done|]. unfold bound at 1. cbn. set_solver.
Qed.

Lemma release_inv w w' sub s s' g st x :
  inv0 w -> subs w !! sub = Some s -> tracks_of s !! g = Some st -> accs w !! st_accepter st = Some x ->
  track2accepters w' = track2accepters w -> accs w' = <[st_accepter st := released sub x]> (accs w) ->
  subs w' = <[sub:=s']> (subs w) -> tracks_of s' = delete g (tracks_of s) -> inv0 w'.
Proof.
  intros I Hs Ht Hx T A S Hs'. destruct (inv_track _ I _ _ _ _ Hs Ht) as (_ & Hg & x' & Hx' & Hop & Hin).
  assert (x' = x) as -> by congruence. clear Hx'. pose proof (inv_acc _ I _ _ Hx) as Hok.
  assert (st_accepter st < length (accs w)) as Hlt by (by eapply lookup_lt_Some).
  assert (forall sub1 s1 g1 st1, subs w !! sub1 = Some s1 -> tracks_of s1 !! g1 = Some st1 ->
    (sub1 = sub -> g1 <> g) -> served w' sub1 g1 st1) as Hserved.
  { intros sub1 s1 g1 st1 Hs1 Ht1 Hne. destruct (inv_track _ I _ _ _ _ Hs1 Ht1) as (E & Hg1 & x1 & Hx1 & Hop1 & Hin1).
    split; [done|]. split; [by rewrite T|]. rewrite A. destruct (decide (st_accepter st1 = st_accepter st)) as [Ea|Ea].
    - rewrite Ea in *. exists (released sub x). rewrite list_lookup_insert_eq by done. split; [done|].
      assert (x1 = x) as -> by congruence. apply released_other; try done.
      intros ->. apply Hne; [done|]. by eapply inv_inj.
    - exists x1. rewrite list_lookup_insert_ne by done. done. }
  split.
  - intros sub1 s1 g1 st1. rewrite S, lookup_insert_Some. intros [[<- <-]|[Hne Hs1]] Ht1.
    + rewrite Hs', lookup_delete_Some in Ht1. destruct Ht1 as [Hne Ht1]. eapply Hserved; eauto.
    + eapply Hserved; by eauto.
  - intros k x1. rewrite A, list_lookup_insert_Some. intros [(<- & <- & _)|[_ Hk]]; [by apply released_ok|].
    by eapply inv_acc.
  - intros g1 k. rewrite T, A, length_insert. apply (inv_t2a _ I).
  - intros g1 g2 k. rewrite T. apply (inv_inj _ I).
  - intros k x1 sub1 Hk Hin1. assert (is_Some (subs w !! sub1)) as [s1 Hs1].
    { rewrite A, list_lookup_insert_Some in Hk. destruct Hk as [(<- & <- & _)|[_ Hk]].
      - apply released_bound in Hin1. by eapply inv_bound.
      - by eapply inv_bound. }
    rewrite S, lookup_insert_is_Some'. right. eauto.
Qed.

(** ** Closing a subscription *)

Lemma tracks_of_delete s g :
  tracks_of (set_acceptedTrack s (delete g <$> acceptedTrack s)) = delete g (tracks_of s).
Proof. unfold tracks_of. cbn. destruct (acceptedTrack s); cbn; [done|]. by rewrite delete_empty. Qed.

Lemma close_loop_spec l : forall w sub s,
  inv0 w -> subs w !! sub = Some s -> NoDup l.*1 ->
  (forall g st, (g, st) ∈ l -> tracks_of s !! g = Some st) ->
  exists w', close_loop w sub l = Ret w' /\ inv0 w' /\ rest w' = rest w /\
    subs w' = <[sub := without l.*1 s]> (subs w) /\
    forall k, accs w' !! k =
      if decide (k ∈ st_accepter <$> l.*2) then released sub <$> accs w !! k else accs w !! k.
Proof.
  induction l as [|[g st] l IH]; intros w sub s I Hs Hnd Hl; cbn [close_loop].
  - exists w. split; [done|]. split; [done|]. split; [done|]. split.
    + cbn. by rewrite without_nil, insert_id.
    + intros k. rewrite decide_False; [done|]. apply not_elem_of_nil.
  - cbn [fmap list_fmap fst] in Hnd. apply NoDup_cons in Hnd as [Hni Hnd].
    assert (tracks_of s !! g = Some st) as Ht by (apply Hl; left).
    destruct (inv_track _ I _ _ _ _ Hs Ht) as (Hgid & Hg & x & Hx & _).
    destruct (UnbindSub_spec w sub s g st x I Hs Ht Hx) as (w1 & -> & R1 & S1 & A1). cbn [mbind run_bind].
    rewrite <- S1 in Hs. destruct (Remove_spec w1 sub s st Hs) as (w2 & -> & A2 & R2 & S2). cbn [mbind run_bind].
    rewrite Hgid in S2.
    assert (inv0 w2) as I2.
    { apply (release_inv w w2 sub s (set_acceptedTrack s (delete g <$> acceptedTrack s)) g st x);
        try done; try congruence; [unfold rest in *; congruence|apply tracks_of_delete]. }
    destruct (IH w2 sub (set_acceptedTrack s (delete g <$> acceptedTrack s)) I2) as (w3 & -> & I3 & R3 & S3 & A3).
    + rewrite S2. apply lookup_insert_eq.
    + done.
    + intros g' st' Hin. rewrite tracks_of_delete, lookup_delete_ne.
      * apply Hl. by right.
      * intros <-. apply Hni. apply list_elem_of_fmap. by exists (g, st').
    + exists w3. split; [done|]. split; [done|]. split; [congruence|]. split.
      * rewrite S3, S2, S1, insert_insert_eq, without_cons. done.
      * intros k. rewrite A3, A2, A1. assert (st_accepter st < length (accs w)) as Hlt by (by eapply lookup_lt_Some).
        assert (k = st_accepter st -> k ∉ st_accepter <$> l.*2) as Hdis.
        { intros ->. intros (st' & Ea & [[g' st''] [Est Hin]]%list_elem_of_fmap)%list_elem_of_fmap.
          cbn in Est. subst st''. assert (tracks_of s !! g' = Some st') as Ht' by (apply Hl; by right).
          rewrite S1 in Hs. destruct (inv_track _ I _ _ _ _ Hs Ht') as (_ & Hg' & _). rewrite <- Ea in Hg'.
          assert (g' = g) as -> by exact (inv_inj _ I _ _ _ Hg' Hg). apply Hni. apply list_elem_of_fmap. by exists (g, st'). }
        cbn [fmap list_fmap snd]. destruct (decide (k = st_accepter st)) as [->|Hne].
        -- rewrite decide_False by (by apply Hdis). rewrite decide_True by left.
           rewrite list_lookup_insert_eq by done. by rewrite Hx.
        -- rewrite list_lookup_insert_ne by done. destruct (decide (k ∈ st_accepter <$> l.*2)).
           ++ by rewrite decide_True by (by right).
           ++ rewrite decide_False; [done|]. by apply not_elem_of_cons.
Qed.

Definition closed_sub s : Subscription :=
  {| closed := true; reqTypes := reqTypes s; pattern := pattern s; sctx := sctx s;
     acceptedPubId := acceptedPubId s; acceptedTrack := None |}.

(** A subscription is served by an accepter. *)
Definition held_by s k : Prop := exists g st, tracks_of s !! g = Some st /\ st_accepter st = k.

Lemma held_by_elem s k : held_by s k <-> k ∈ st_accepter <$> (map_to_list (tracks_of s)).*2.
Proof.
  unfold held_by. rewrite list_elem_of_fmap. setoid_rewrite list_elem_of_fmap. split.
  - intros (g & st & Hg & <-). exists st. split; [done|]. exists (g, st). split; [done|]. by apply elem_of_map_to_list.
  - intros (st & -> & [g st'] & E & Hin). cbn in E. subst st'. apply elem_of_map_to_list in Hin. eauto.
Qed.

#[global] Instance held_by_dec s k : Decision (held_by s k).
Proof. refine (cast_if (decide (k ∈ st_accepter <$> (map_to_list (tracks_of s)).*2))); by rewrite held_by_elem. Defined.

Definition sub_holds w (sub : string) k : Prop := from_option (fun s => held_by s k) False (subs w !! sub).

#[global] Instance sub_holds_dec w sub k : Decision (sub_holds w sub k).
Proof. unfold sub_holds. destruct (subs w !! sub); cbn; apply _. Defined.

Lemma Close_spec w sub s :
  inv w -> subs w !! sub = Some s ->
  exists w', Subscription_Close w sub = Ret w' /\ inv w' /\ rest w' = rest w /\
    subs w' = <[sub := closed_sub s]> (subs w) /\
    forall k, (held_by s k -> accs w' !! k = released sub <$> accs w !! k) /\
              (~ held_by s k -> accs w' !! k = accs w !! k).
Proof.
  intros [I C] Hs. unfold Subscription_Close, get_sub. rewrite Hs. cbn [go_deref mbind run_bind].
  set (s1 := {| closed := true; reqTypes := reqTypes s; pattern := pattern s; sctx := sctx s;
             acceptedPubId := acceptedPubId s; acceptedTrack := acceptedTrack s |}).
  destruct (close_loop_spec (range_tracks (tracks_of s)) (put_sub w sub s1) sub s1) as (w' & -> & I' & R & S & A).
  - by eapply (inv0_put_sub w).
  - apply lookup_insert_eq.
  - rewrite range_tracks_perm. apply NoDup_fst_map_to_list.
  - intros g st Hin. rewrite range_tracks_perm in Hin. by apply elem_of_map_to_list in Hin.
  - cbn [mbind run_bind]. rewrite S, lookup_insert_eq. cbn [go_deref mbind run_bind].
    eexists. split; [done|].
    assert (forall sub', subs (put_sub w' sub (set_acceptedTrack (without (range_tracks (tracks_of s)).*1 s1) None)) !! sub'
      = <[sub := closed_sub s]> (subs w) !! sub') as S'.
    { intros sub'. cbn. rewrite S. cbn. by rewrite !insert_insert_eq. }
    split; [split|split; [done|split]].
    + eapply (inv0_put_sub w' _ sub); [done| |done..|]; [rewrite S; apply lookup_insert_eq|]. done.
    + intros sub' s' Hs' Hc. rewrite S' in Hs'. apply lookup_insert_Some in Hs' as [[<- <-]|[_ Hs']]; [done|].
      by eapply C.
    + by apply map_eq.
    + assert (forall k, held_by s k <-> k ∈ st_accepter <$> (range_tracks (tracks_of s)).*2) as Hheld.
      { intros k. rewrite range_tracks_perm. apply held_by_elem. }
      intros k. rewrite Hheld. cbn. rewrite A. split; intros Hk; [by rewrite decide_True|by rewrite decide_False].
Qed.

End Inv.
