(* ===== verification/RoutingAccept.v ===== *)
(** * RoutingAccept: [Subscription.AcceptTrack] and [UpdatePattern]

    What a subscription holds after a publication is announced to it or its
    pattern is replaced, that the invariant of [RoutingInv.v] is kept, and
    that the operation returns. *)
From S2P Require Import Prelude Collection Pattern Messages Packets Routing RoutingInv.
Local Open Scope string_scope.
Local Open Scope list_scope.

Section Accept.
Context `{Uuid, Webrtc, MapOrderLaws}.
Implicit Types (w : World) (s : Subscription) (x : Accepter) (st : SubscribedTrack).

(** ** One accepter *)

Definition one_more x : Accepter :=
  {| a_track := a_track x; a_closed := a_closed x; a_subs := a_subs x; ref_count := ref_count x + 1 |}.

(** The result of [Router.AcceptTrack]: a reference on the open accepter
    of the track, or a new accepter. *)
Definition accepted w (track : Track) w1 (a : nat) : Prop :=
  (track2accepters w !! GlobalId track = Some a /\ track2accepters w1 = track2accepters w /\
   exists x, accs w !! a = Some x /\ a_closed x = false /\ accs w1 = <[a := one_more x]> (accs w)) \/
  (track2accepters w !! GlobalId track = None /\ a = length (accs w) /\
   track2accepters w1 = <[GlobalId track := a]> (track2accepters w) /\
   exists x, NewAccepter track = Ret x /\ accs w1 = accs w ++ [x]).

(** The fields neither the accepters nor the subscriptions are in. *)
Definition rest1 w := (track2transports w, addrMap w, externalTransports w,
  curChan w, router_id w, router_addr w, sdpMsgId w).

Lemma Router_AcceptTrack_spec fuel w track w1 a :
  Router_AcceptTrack fuel w track = Ret (w1, a) ->
  accepted w track w1 a /\ subs w1 = subs w /\ rest1 w1 = rest1 w.
Proof.
  revert w. induction fuel as [|fuel IH]; intros w Hr; [done|]. cbn [Router_AcceptTrack] in Hr.
  destruct (track2accepters w !! GlobalId track) as [k|] eqn:Hk.
  - unfold Ref, get_acc in Hr. destruct (accs w !! k) as [x|] eqn:Hx; [|done].
    cbn [go_deref mbind run_bind] in Hr. destruct (a_closed x) eqn:Hc.
    + cbn [mbind run_bind] in Hr. by apply IH.
    + cbn [mbind run_bind] in Hr. injection Hr as <- <-. split; [|done]. left. split; [done|]. split; [done|].
      exists x. split; [done|]. split; [done|]. cbn. unfold one_more. by rewrite Hc.
  - run_inv. split; [|done]. right. split; [done|]. split; [done|]. split; [done|]. eauto.
Qed.

Lemma NewAccepter_fresh track x :
  NewAccepter track = Ret x -> a_closed x = false /\ a_subs x = None /\ ref_count x = 1%Z.
Proof.
  unfold NewAccepter. intros Hn. run_inv. destruct (NewTrackLocalStaticRTP _ _ _); [|done].
  injection Hn as <-. done.
Qed.

(** ** One track accepted *)

(** The store after a track was accepted and bound. *)
Record bound_track w w' sub s s' gid st : Prop := {
  bt_subs : subs w' = <[sub:=s']> (subs w);
  bt_tracks : tracks_of s' = <[gid:=st]> (tracks_of s);
  bt_gid : GlobalId (pubTrack st) = gid;
  bt_t2a : track2accepters w' = <[gid := st_accepter st]> (track2accepters w);
  bt_new : track2accepters w !! gid = Some (st_accepter st) \/
           track2accepters w !! gid = None /\ st_accepter st = length (accs w);
  bt_len : length (accs w) <= length (accs w');
  bt_other k : k <> st_accepter st -> accs w' !! k = accs w !! k;
  bt_acc : exists x', accs w' !! st_accepter st = Some x' /\ a_closed x' = false /\ acc_ok x' /\
    sub ∈ bound x' /\ (forall x, accs w !! st_accepter st = Some x -> bound x ⊆ bound x') /\
    (forall sub1, sub1 ∈ bound x' -> sub1 = sub \/ exists x, accs w !! st_accepter st = Some x /\ sub1 ∈ bound x)
}.

Lemma bound_track_inv w w' sub s s' gid st :
  inv0 w -> subs w !! sub = Some s -> bound_track w w' sub s s' gid st -> inv0 w'.
Proof.
  intros I Hs [S T G T2 Hnew Hlen Ho (x' & Hx' & Hop' & Hok' & Hin' & Hsub & Hsup)].
  assert (st_accepter st < length (accs w')) as Hlt by (by eapply lookup_lt_Some).
  assert (forall g k, track2accepters w !! g = Some k -> track2accepters w' !! g = Some k) as Hmono.
  { intros g k Hg. rewrite T2. destruct (decide (g = gid)) as [->|Hne].
    - rewrite lookup_insert_eq. destruct Hnew as [Hn|[Hn _]]; congruence.
    - by rewrite lookup_insert_ne. }
  assert (forall sub1 s1 g1 st1, subs w !! sub1 = Some s1 -> tracks_of s1 !! g1 = Some st1 -> served w' sub1 g1 st1) as Hold.
  { intros sub1 s1 g1 st1 Hs1 Ht1. destruct (inv_track _ I _ _ _ _ Hs1 Ht1) as (E & Hg1 & x1 & Hx1 & Hop1 & Hin1).
    split; [done|]. split; [by apply Hmono|]. destruct (decide (st_accepter st1 = st_accepter st)) as [Ea|Ea].
    - rewrite Ea in *. exists x'. split; [done|]. split; [done|]. by apply (Hsub _ Hx1).
    - exists x1. by rewrite Ho. }
  split.
  - intros sub1 s1 g1 st1. rewrite S, lookup_insert_Some. intros [[<- <-]|[_ Hs1]] Ht1; [|by eapply Hold].
    rewrite T, lookup_insert_Some in Ht1. destruct Ht1 as [[<- <-]|[_ Ht1]]; [|by eapply Hold].
    split; [done|]. split; [by rewrite T2, lookup_insert_eq|]. eauto.
  - intros k x. destruct (decide (k = st_accepter st)) as [->|Hne]; [congruence|].
    rewrite Ho by done. apply (inv_acc _ I).
  - intros g k. rewrite T2, lookup_insert_Some. intros [[_ <-]|[_ Hg]]; [done|].
    apply (inv_t2a _ I) in Hg. lia.
  - assert (forall g, g <> gid -> track2accepters w !! g <> Some (st_accepter st)) as Hfresh.
    { intros g Hne Hg. destruct Hnew as [Hn|[Hn Hl]]; [by apply Hne, (inv_inj _ I _ _ _ Hg Hn)|].
      apply (inv_t2a _ I) in Hg. lia. }
    intros g1 g2 k. rewrite T2, !lookup_insert_Some.
    intros [[<- <-]|[Hn1 Hg1]] [[<- E]|[Hn2 Hg2]]; try done.
    + by apply Hfresh in Hg2.
    + subst k. by apply Hfresh in Hg1.
    + by apply (inv_inj _ I _ _ k).
  - intros k x sub1 Hk Hin. rewrite S, lookup_insert_is_Some'. destruct (decide (k = st_accepter st)) as [->|Hne].
    + assert (x = x') as -> by congruence. destruct (Hsup _ Hin) as [->|(x0 & Hx0 & Hi0)]; [by left|].
      right. by apply (inv_bound _ I _ _ _ Hx0).
    + rewrite Ho in Hk by done. right. by apply (inv_bound _ I _ _ _ Hk).
Qed.

Definition with_binding sub x : Accepter :=
  {| a_track := a_track x; a_closed := a_closed x;
     a_subs := Some (if bool_decide (sub ∈ bound x) then bound x else {[sub]} ∪ bound x);
     ref_count := ref_count x |}.

Lemma bound_with_binding sub x : bound (with_binding sub x) = {[sub]} ∪ bound x.
Proof. unfold bound at 1. cbn. case_bool_decide; [|done]. apply leibniz_equiv. set_solver. Qed.

Lemma BindSub_spec w a x sub :
  accs w !! a = Some x -> BindSub w a sub = Ret (put_acc w a (with_binding sub x)).
Proof. intros Hx. unfold BindSub, get_acc. by rewrite Hx. Qed.

Lemma one_more_ok sub x :
  acc_ok x -> a_closed x = false -> acc_ok (with_binding sub (one_more x)).
Proof.
  unfold acc_ok. intros Hok Hop. rewrite Hop in Hok.
  change (a_closed (with_binding sub (one_more x))) with (a_closed x).
  change (ref_count (with_binding sub (one_more x))) with (ref_count x + 1)%Z.
  rewrite bound_with_binding, Hop. change (bound (one_more x)) with (bound x).
  assert (size ({[sub]} ∪ bound x) <= 1 + size (bound x)) as Hs.
  { rewrite size_union_alt, size_singleton. apply Nat.add_le_mono_l, subseteq_size. set_solver. }
  lia.
Qed.

Lemma accepted_bound w track w1 a w2 sub s st x1 s' :
  inv0 w -> accepted w track w1 a -> accs w1 !! a = Some x1 ->
  accs w2 = <[a := with_binding sub x1]> (accs w1) -> track2accepters w2 = track2accepters w1 ->
  subs w2 = <[sub:=s']> (subs w) -> tracks_of s' = <[GlobalId track := st]> (tracks_of s) ->
  GlobalId (pubTrack st) = GlobalId track -> st_accepter st = a ->
  bound_track w w2 sub s s' (GlobalId track) st.
Proof.
  intros I Hacc Hx1 A2 T2 S Ht Hg Ha. subst a.
  assert (st_accepter st < length (accs w1)) as Hlt by (by eapply lookup_lt_Some).
  assert (bound (with_binding sub x1) = {[sub]} ∪ bound x1) as Hb by apply bound_with_binding.
  destruct Hacc as [(Hk & T1 & x & Hx & Hop & A1)|(Hk & Hlen & T1 & x & Hn & A1)].
  - assert (x1 = one_more x) as ->.
    { rewrite A1, list_lookup_insert_eq in Hx1 by (by eapply lookup_lt_Some). congruence. }
    split; try done.
    + rewrite T2, T1. by rewrite insert_id.
    + by left.
    + rewrite A2, A1, !length_insert. done.
    + intros k Hne. rewrite A2, A1, !list_lookup_insert_ne by done. done.
    + exists (with_binding sub (one_more x)). rewrite A2, list_lookup_insert_eq by done. split; [done|].
      split; [done|]. split; [apply one_more_ok; [by eapply (inv_acc _ I)|done]|]. rewrite Hb.
      split; [set_solver|]. split; [intros x0 Hx0; assert (x0 = x) as -> by congruence; set_solver|].
      intros sub1 Hin. apply elem_of_union in Hin as [Hin|Hin]; [left; set_solver|]. right. exists x. by split.
  - assert (x1 = x) as -> by (rewrite A1, Hlen, list_lookup_middle in Hx1 by done; congruence).
    destruct (NewAccepter_fresh _ _ Hn) as (Hop & Hsub & Href).
    assert (bound x = ∅) as Hbx by (unfold bound; by rewrite Hsub).
    split; try done.
    + by rewrite T2, T1.
    + by right.
    + rewrite A2, A1, length_insert, length_app. lia.
    + intros k Hne. rewrite A2, list_lookup_insert_ne by done. rewrite A1.
      destruct (decide (k < length (accs w))) as [Hk'|Hk']; [by apply lookup_app_l|].
      rewrite !lookup_ge_None_2; [done|lia|rewrite length_app; cbn; lia].
    + exists (with_binding sub x). rewrite A2, list_lookup_insert_eq by done. split; [done|]. split; [done|].
      rewrite Hb, Hbx. split; [|split; [set_solver|split]].
      * unfold acc_ok. rewrite Hb, Hbx. cbn. rewrite Hop, Href.
        assert ({[sub]} ∪ ∅ = ({[sub]} : gset string)) as -> by set_solver. rewrite size_singleton. lia.
      * intros x0 Hx0. rewrite Hlen, lookup_ge_None_2 in Hx0; [done|lia].
      * intros sub1 Hin. left. set_solver.
Qed.

(** ** The loop over the matched tracks *)

Lemma accept_step env fuel sub m ms w nn tr s w1 a :
  inv0 w -> subs w !! sub = Some s -> tracks_of s !! GlobalId m = None ->
  Router_AcceptTrack fuel w (CopyTrack m) = Ret (w1, a) -> AddTrack_err env (GlobalId m) = None ->
  exists w2 s' st tr2 map',
    accept_loop env fuel sub (m :: ms) w nn tr = accept_loop env fuel sub ms w2 true tr2 /\
    bound_track w w2 sub s s' (GlobalId m) st /\ s' = set_acceptedTrack s (Some map') /\
    rest1 w2 = rest1 w.
Proof.
  intros I Hs Hno Hr Hadd. destruct (Router_AcceptTrack_spec _ _ _ _ _ Hr) as (Hacc & S1 & R1).
  assert (exists x1, accs w1 !! a = Some x1) as [x1 Hx1].
  { destruct Hacc as [(_ & _ & x & Hx & _ & ->)|(_ & -> & _ & x & _ & ->)].
    - rewrite list_lookup_insert_eq by (by eapply lookup_lt_Some). eauto.
    - rewrite list_lookup_middle by done. eauto. }
  cbn [accept_loop]. unfold get_sub. rewrite Hs. cbn [go_deref mbind run_bind].
  change (GlobalId (CopyTrack m)) with (GlobalId m). rewrite Hno, Hr. cbn [mbind run_bind]. rewrite Hadd.
  unfold get_acc. cbn [emit accs subs]. rewrite Hx1. cbn [go_deref mbind run_bind]. rewrite S1, Hs.
  cbn [go_deref mbind run_bind]. erewrite BindSub_spec by exact Hx1. cbn [mbind run_bind].
  eexists _, _, _, _, _. split; [reflexivity|]. split; [|split; [reflexivity|exact R1]].
  change (GlobalId m) with (GlobalId (CopyTrack m)).
  eapply accepted_bound.
  - exact I.
  - exact Hacc.
  - exact Hx1.
  - reflexivity.
  - reflexivity.
  - cbn [subs put_acc set_accs put_sub set_subs emit]. rewrite S1. reflexivity.
  - reflexivity.
  - reflexivity.
  - reflexivity.
Qed.

Lemma accept_skip env fuel sub m ms w nn tr s st :
  inv0 w -> subs w !! sub = Some s -> tracks_of s !! GlobalId m = Some st ->
  exists tr2, accept_loop env fuel sub (m :: ms) w nn tr = accept_loop env fuel sub ms w nn tr2.
Proof.
  intros I Hs Ht. cbn [accept_loop]. unfold get_sub. rewrite Hs. cbn [go_deref mbind run_bind].
  change (GlobalId (CopyTrack m)) with (GlobalId m). rewrite Ht.
  destruct (inv_track _ I _ _ _ _ Hs Ht) as (_ & _ & x & Hx & _).
  unfold get_acc. rewrite Hx. cbn [go_deref mbind run_bind]. eauto.
Qed.

(** What the loop leaves. *)
Definition loop_post w sub s (ms : list Track) w' : Prop :=
  inv0 w' /\ rest1 w' = rest1 w /\
  exists s', subs w' = <[sub:=s']> (subs w) /\ (s' = s \/ exists m, s' = set_acceptedTrack s (Some m)) /\
    dom (tracks_of s') = dom (tracks_of s) ∪ list_to_set (GlobalId <$> ms) /\
    tracks_of s ⊆ tracks_of s'.

Lemma loop_post_skip w sub s m ms w' st :
  tracks_of s !! GlobalId m = Some st -> loop_post w sub s ms w' -> loop_post w sub s (m :: ms) w'.
Proof.
  intros Ht (I' & R & s' & S & C & D & Sub). split; [done|]. split; [done|]. exists s'.
  split; [done|]. split; [done|]. split; [|done]. rewrite D. cbn. apply elem_of_dom_2 in Ht. set_solver.
Qed.

Lemma loop_post_step w w2 sub s s' m ms w' st map' :
  subs w !! sub = Some s -> tracks_of s !! GlobalId m = None ->
  bound_track w w2 sub s s' (GlobalId m) st -> s' = set_acceptedTrack s (Some map') ->
  rest1 w2 = rest1 w -> loop_post w2 sub s' ms w' -> loop_post w sub s (m :: ms) w'.
Proof.
  intros Hs Hno Hb Es' R2 (I' & R & s'' & S & C & D & Sub).
  split; [done|]. split; [congruence|]. exists s''.
  split; [by rewrite S, (bt_subs _ _ _ _ _ _ _ Hb), insert_insert_eq|].
  split; [|split].
  - right. subst s'. destruct C as [->|[m' ->]]; eauto.
  - rewrite D, (bt_tracks _ _ _ _ _ _ _ Hb), dom_insert_L. cbn. set_solver.
  - rewrite (bt_tracks _ _ _ _ _ _ _ Hb) in Sub. etrans; [|exact Sub]. by apply insert_subseteq.
Qed.

Lemma accept_loop_spec env fuel sub ms : forall w nn tr s w' nn' tr',
  inv0 w -> subs w !! sub = Some s ->
  accept_loop env fuel sub ms w nn tr = Ret (w', nn', tr') -> loop_post w sub s ms w'.
Proof.
  induction ms as [|m ms IH]; intros w nn tr s w' nn' tr' I Hs Hr.
  - cbn in Hr. injection Hr as <- <- <-. split; [done|]. split; [done|]. exists s.
    split; [by rewrite insert_id|]. split; [by left|]. split; [|done]. cbn. set_solver.
  - destruct (tracks_of s !! GlobalId m) as [st|] eqn:Ht.
    + destruct (accept_skip env fuel sub m ms w nn tr s st I Hs Ht) as (tr2 & E). rewrite E in Hr.
      eapply loop_post_skip; eauto.
    + pose proof Hr as Hr0. cbn [accept_loop] in Hr. unfold get_sub in Hr. rewrite Hs in Hr.
      cbn [go_deref mbind run_bind] in Hr. change (GlobalId (CopyTrack m)) with (GlobalId m) in Hr. rewrite Ht in Hr.
      destruct (Router_AcceptTrack fuel w (CopyTrack m)) as [[w1 a]|] eqn:Ha; [|done]. cbn [mbind run_bind] in Hr.
      destruct (AddTrack_err env (GlobalId m)) eqn:Hadd; [done|]. clear Hr.
      destruct (accept_step env fuel sub m ms w nn tr s w1 a I Hs Ht Ha Hadd)
        as (w2 & s' & st & tr2 & map' & E & Hb & Es & R2). rewrite E in Hr0.
      eapply loop_post_step; eauto. eapply IH; [| |exact Hr0].
      * by eapply bound_track_inv.
      * rewrite (bt_subs _ _ _ _ _ _ _ Hb). apply lookup_insert_eq.
Qed.

(** No track of the list has a closed accepter. *)
Definition live w (ms : list Track) : Prop :=
  forall m k x, m ∈ ms -> track2accepters w !! GlobalId m = Some k -> accs w !! k = Some x -> a_closed x = false.

Definition acceptable (env : Env) (m : Track) : Prop :=
  AddTrack_err env (GlobalId m) = None /\ exists x, NewAccepter m = Ret x.

Lemma CopyTrack_id m : CopyTrack m = m.
Proof. by destruct m. Qed.

Lemma Router_AcceptTrack_total fuel w m :
  inv0 w -> live w [m] -> (exists x, NewAccepter m = Ret x) ->
  exists w1 a, Router_AcceptTrack (S fuel) w m = Ret (w1, a).
Proof.
  intros I Hl [x Hx]. cbn [Router_AcceptTrack]. destruct (track2accepters w !! GlobalId m) as [k|] eqn:Hk.
  - destruct (lookup_lt_is_Some_2 _ _ (inv_t2a _ I _ _ Hk)) as [y Hy].
    unfold Ref, get_acc. rewrite Hy. cbn [go_deref mbind run_bind].
    rewrite (Hl m k y) by (done || left). cbn. eauto.
  - rewrite Hx. cbn. eauto.
Qed.

Lemma bound_track_live w w2 sub s s' gid st ms :
  bound_track w w2 sub s s' gid st -> live w ms -> live w2 ms.
Proof.
  intros Hb Hl m k x Hm Hk Hx. destruct (bt_acc _ _ _ _ _ _ _ Hb) as (x' & Hx' & Hop & _).
  destruct (decide (k = st_accepter st)) as [->|Hne]; [congruence|].
  rewrite (bt_other _ _ _ _ _ _ _ Hb) in Hx by done.
  rewrite (bt_t2a _ _ _ _ _ _ _ Hb), lookup_insert_Some in Hk. destruct Hk as [[_ <-]|[_ Hk]]; [done|].
  by eapply Hl.
Qed.

Lemma accept_loop_total env fuel sub ms : forall w nn tr s,
  inv0 w -> subs w !! sub = Some s -> live w ms -> Forall (acceptable env) ms ->
  exists r, accept_loop env (S fuel) sub ms w nn tr = Ret r.
Proof.
  induction ms as [|m ms IH]; intros w nn tr s I Hs Hl Hf; [cbn; eauto|].
  apply Forall_cons in Hf as [[Hadd Hx] Hf].
  assert (live w ms) as Hl' by (intros m' ? ? Hm'; apply Hl; by right).
  destruct (tracks_of s !! GlobalId m) as [st|] eqn:Ht.
  - destruct (accept_skip env (S fuel) sub m ms w nn tr s st I Hs Ht) as (tr2 & ->). eauto.
  - destruct (Router_AcceptTrack_total fuel w m I) as (w1 & a & Hr); [|done|].
    { intros m' ? ? Hm'. apply list_elem_of_singleton in Hm' as ->. apply Hl. left. }
    assert (Router_AcceptTrack (S fuel) w (CopyTrack m) = Ret (w1, a)) as Hr' by (by rewrite CopyTrack_id).
    destruct (accept_step env (S fuel) sub m ms w nn tr s w1 a I Hs Ht Hr' Hadd)
      as (w2 & s' & st & tr2 & map' & -> & Hb & Es & R2).
    eapply IH; [by eapply bound_track_inv| |by eapply bound_track_live|done].
    rewrite (bt_subs _ _ _ _ _ _ _ Hb). apply lookup_insert_eq.
Qed.

(** ** The whole operation *)

Definition same_conf s s' : Prop :=
  closed s' = closed s /\ reqTypes s' = reqTypes s /\ pattern s' = pattern s /\ sctx s' = sctx s.

Definition gids (ts : list Track) : gset string := list_to_set (GlobalId <$> ts).

(** The subscription [sub] changed from [s] to [s'], nothing else did. *)
Definition sub_changed w sub s s' w' : Prop :=
  inv w' /\ subs w' = <[sub:=s']> (subs w) /\ same_conf s s'.

Lemma makeSureExternelConn_spec env w addr w' :
  makeSureExternelConn env w addr = Ret w' ->
  accs w' = accs w /\ track2accepters w' = track2accepters w /\ subs w' = subs w.
Proof.
  unfold makeSureExternelConn. repeat case_match; intros E; try discriminate E; injection E as <-; done.
Qed.

Lemma closed_ok_insert w w' sub s' :
  closed_ok w -> closed s' = false -> subs w' = <[sub:=s']> (subs w) -> closed_ok w'.
Proof.
  intros C Hc S sub1 s1. rewrite S, lookup_insert_Some. intros [[_ <-]|[_ Hs1]]; [by rewrite Hc|]. by eapply C.
Qed.

(** Up to the loop. *)
Lemma accept_prefix env w sub s msg w1 :
  inv w -> subs w !! sub = Some s ->
  makeSureExternelConn env (put_sub w sub (set_acceptedPubId s (State_PubId msg))) (State_Addr msg) = Ret w1 ->
  let s1 := set_acceptedPubId s (State_PubId msg) in
  let s2 := set_acceptedTrack s1 (Some (tracks_of s)) in
  subs w1 !! sub = Some s1 /\ inv0 (put_sub w1 sub s2) /\
  subs (put_sub w1 sub s2) = <[sub:=s2]> (subs w) /\
  accs w1 = accs w /\ track2accepters w1 = track2accepters w.
Proof.
  intros [I C] Hs Hm s1 s2. apply makeSureExternelConn_spec in Hm as (A & T & S). cbn in A, T, S.
  assert (subs w1 !! sub = Some s1) as Hs1 by (rewrite S; apply lookup_insert_eq).
  assert (subs (put_sub w1 sub s2) = <[sub:=s2]> (subs w)) as S2 by (cbn; by rewrite S, insert_insert_eq).
  split; [done|]. split; [|done]. by eapply (inv0_put_sub w).
Qed.

Lemma accept_matched_spec env fuel w sub s msg ms w' :
  inv w -> subs w !! sub = Some s -> closed s = false ->
  accept_matched env fuel w sub msg ms = Ret w' ->
  exists s', sub_changed w sub s s' w' /\ acceptedPubId s' = State_PubId msg /\
    dom (tracks_of s') = dom (tracks_of s) ∪ gids ms.
Proof.
  intros I Hs Hc Hr. unfold accept_matched, get_sub in Hr. rewrite Hs in Hr. cbn [go_deref mbind run_bind] in Hr.
  destruct (makeSureExternelConn _ _ _) as [w1|] eqn:Hm; [|done]. cbn [mbind run_bind] in Hr.
  destruct (accept_prefix _ _ _ _ _ _ I Hs Hm) as (Hs1 & I1 & S1 & _).
  destruct (makeSurePeer_err env); [done|]. rewrite Hs1 in Hr. cbn [go_deref mbind run_bind] in Hr.
  change (tracks_of (set_acceptedPubId s (State_PubId msg))) with (tracks_of s) in Hr.
  destruct (accept_loop _ _ _ _ _ _ _) as [[[w2 nn] tr]|] eqn:Hl; [|done]. cbn [mbind run_bind] in Hr.
  eapply accept_loop_spec in Hl as (I2 & _ & s' & S2 & Hconf & D & _); [|exact I1|apply lookup_insert_eq].
  rewrite S1, insert_insert_eq in S2.
  assert (same_conf s s' /\ acceptedPubId s' = State_PubId msg) as [Hsc Hp] by (destruct Hconf as [->|[m ->]]; done).
  assert (inv w2) as Hinv.
  { split; [done|]. eapply closed_ok_insert; [apply I| |exact S2]. destruct Hsc as [-> _]. done. }
  exists s'. split; [|done]. split; [|split; [|done]].
  - destruct nn; injection Hr as <-; [|done]. by apply (inv_ext w2).
  - destruct nn; injection Hr as <-; done.
Qed.

Lemma accept_matched_total env fuel w sub s msg ms :
  inv w -> subs w !! sub = Some s ->
  makeSurePeer_err env = None -> DialUDP_err env (State_Addr msg) = None ->
  ResolveUDPAddr_err env (State_Addr msg) = None -> live w ms -> Forall (acceptable env) ms ->
  exists w', accept_matched env (S fuel) w sub msg ms = Ret w'.
Proof.
  intros I Hs Hp Hd Hra Hl Hf. unfold accept_matched, get_sub. rewrite Hs. cbn [go_deref mbind run_bind].
  destruct (makeSureExternelConn _ _ _) as [w1|] eqn:Hm.
  - cbn [mbind run_bind]. destruct (accept_prefix _ _ _ _ _ _ I Hs Hm) as (Hs1 & I1 & S1 & A & T).
    rewrite Hp, Hs1. cbn [go_deref mbind run_bind].
    change (tracks_of (set_acceptedPubId s (State_PubId msg))) with (tracks_of s).
    edestruct (accept_loop_total env fuel sub ms) as [[[w2 nn] tr] ->]; [exact I1|apply lookup_insert_eq| |exact Hf|].
    + intros m k x. cbn. rewrite A, T. apply Hl.
    + cbn [mbind run_bind]. destruct nn; eauto.
  - exfalso. revert Hm. unfold makeSureExternelConn. rewrite Hd, Hra. by repeat case_match.
Qed.

Definition accept_post w sub s msg (ms us : list Track) w' : Prop :=
  exists s', sub_changed w sub s s' w' /\
    dom (tracks_of s') = (if decide (acceptedPubId s = State_PubId msg)
      then dom (tracks_of s) ∖ gids us else dom (tracks_of s)) ∪ gids ms /\
    acceptedPubId s' = (if decide (ms = []) then
        if decide (acceptedPubId s = State_PubId msg) then "" else acceptedPubId s
      else State_PubId msg).

Lemma dom_without l s : dom (tracks_of (without l s)) = dom (tracks_of s) ∖ list_to_set l.
Proof.
  apply set_eq. intros g. rewrite elem_of_difference, !elem_of_dom, tracks_of_without, elem_of_list_to_set.
  unfold is_Some. setoid_rewrite map_lookup_filter_Some. cbn. naive_solver.
Qed.

Lemma inv_without w w' sub s l :
  inv w -> subs w !! sub = Some s -> only_sub w sub (without l s) w' -> inv w'.
Proof.
  intros [I C] Hs (A & R & S). split.
  - eapply (inv0_put_sub w w' sub s); try done; [unfold rest in R; congruence|].
    intros g st. rewrite tracks_of_without, map_lookup_filter_Some. by intros [? _].
  - intros sub1 s1. rewrite S, lookup_insert_Some. intros [[<- <-]|[_ Hs1]]; [|by eapply C].
    intros Hc. rewrite tracks_of_without, (C _ _ Hs Hc). apply map_filter_empty.
Qed.

Lemma gids_nil : gids [] = ∅.
Proof. done. Qed.

Lemma inv_put_conf w w' sub s s' :
  inv w -> subs w !! sub = Some s -> accs w' = accs w -> track2accepters w' = track2accepters w ->
  subs w' = <[sub:=s']> (subs w) -> closed s' = closed s -> tracks_of s' = tracks_of s -> inv w'.
Proof.
  intros [I C] Hs A T S Hc Ht. split.
  - eapply (inv0_put_sub w w' sub s); try done. by rewrite Ht.
  - intros sub1 s1. rewrite S, lookup_insert_Some. intros [[<- <-]|[_ Hs1]]; [|by eapply C].
    rewrite Hc, Ht. by eapply C.
Qed.

(** The three ends of the operation. *)
Lemma AcceptTrack_spec env fuel w sub s msg ms us w' :
  inv w -> subs w !! sub = Some s -> closed s = false ->
  (acceptedPubId s = "" \/ acceptedPubId s = State_PubId msg) ->
  match_tracks (pattern s) (State_Tracks msg) (reqTypes s) = Ret (ms, us) ->
  Subscription_AcceptTrack env fuel w sub msg = Ret w' -> accept_post w sub s msg ms us w'.
Proof.
  intros I Hs Hc Hpub Hm Hr. unfold Subscription_AcceptTrack, get_sub in Hr. rewrite Hs in Hr.
  cbn [go_deref mbind run_bind] in Hr. rewrite Hc in Hr. rewrite bool_decide_eq_false_2 in Hr by naive_solver.
  rewrite Hm in Hr. cbn [mbind run_bind] in Hr. unfold accept_post.
  destruct (decide (acceptedPubId s = State_PubId msg)) as [Ep|Ep].
  - rewrite bool_decide_eq_true_2 in Hr by done.
    assert (keys_ok s) as Hk by (eapply inv_keys; [apply I|done]).
    destruct (drop_unmatched_spec w sub s us Hs Hk) as (w1 & E1 & Ho). rewrite E1 in Hr. cbn [mbind run_bind] in Hr.
    pose proof (only_sub_lookup _ _ _ _ Ho) as Hs1. pose proof (inv_without _ _ _ _ _ I Hs Ho) as I1.
    assert (forall s2, <[sub:=s2]> (subs w1) = <[sub:=s2]> (subs w)) as Hins.
    { intros s2. destruct Ho as (_ & _ & ->). by rewrite insert_insert_eq. }
    destruct ms as [|m ms]; cbn [length Nat.eqb] in Hr.
    + rewrite Hs1 in Hr. cbn [go_deref mbind run_bind] in Hr. injection Hr as <-.
      eexists. split; [split; [|split; [cbn [subs put_sub set_subs]; apply Hins|done]]|].
      * by eapply (inv_put_conf w1).
      * rewrite decide_True by done. split; [|done].
        rewrite gids_nil. rewrite union_empty_r_L. apply dom_without.
    + destruct (accept_matched_spec _ _ _ _ _ _ _ _ I1 Hs1 Hc Hr) as (s' & (I' & S' & Hsc) & Hp & D).
      exists s'. split; [split; [done|split; [by rewrite S', Hins|done]]|].
      rewrite decide_False by done. split; [|done]. rewrite D, dom_without. done.
  - rewrite bool_decide_eq_false_2 in Hr by done. destruct ms as [|m ms]; cbn [length Nat.eqb] in Hr.
    + injection Hr as <-. exists s. split; [split; [done|split; [by rewrite insert_id|done]]|].
      rewrite decide_True by done. split; [|done]. rewrite gids_nil. by rewrite union_empty_r_L.
    + destruct (accept_matched_spec _ _ _ _ _ _ _ _ I Hs Hc Hr) as (s' & Hch & Hp & D).
      exists s'. split; [done|]. rewrite decide_False by done. done.
Qed.

End Accept.
