(* ===== verification/RoutingProps.v ===== *)
(** * RoutingProps: the properties of the router and of the subscriptions

    The step relation of a node and its invariant, closing, accepting and
    end-of-stream, the delivery of a packet from one node to another, and the
    places where the code does not do what it means to. *)
From S2P Require Import Prelude Collection Pattern Messages Packets Routing RoutingInv RoutingAccept.
Local Open Scope string_scope.
Local Open Scope list_scope.

Section Steps.
Context `{Uuid, Webrtc, MapOrderLaws}.
Implicit Types (w : World) (s : Subscription) (x : Accepter) (st : SubscribedTrack).

(** The literal of [SignalContext.Subscribe], for a fresh id. *)
Definition new_subscription (ctx : string) (message : SubscribeMessage) : Subscription :=
  {| closed := false; reqTypes := Sub_ReqTypes message; pattern := Sub_Pattern message; sctx := ctx;
     acceptedPubId := ""; acceptedTrack := None |}.

(** The operations of a node, each under the mutexes it takes. *)
Inductive step : World -> World -> Prop :=
  | step_subscribe w sub ctx message :
      subs w !! sub = None -> step w (put_sub w sub (new_subscription ctx message))
  | step_accept env fuel w sub msg w' :
      Subscription_AcceptTrack env fuel w sub msg = Ret w' -> step w w'
  | step_update w sub message w' : UpdatePattern w sub message = Ret w' -> step w w'
  | step_close w sub w' : Subscription_Close w sub = Ret w' -> step w w'
  | step_packet env w packet w' : handle_packet env w packet = Ret w' -> step w w'
  | step_external env w datagram b w' : handle_external env w datagram = Ret (w', b) -> step w w'
  | step_setup w buf n addr w' : handle_setup w buf n addr = Ret w' -> step w w'
  | step_publish w trackId transportId : step w (PublishTrack w trackId transportId).1
  | step_remove w trackId : step w (RemoveTrack w trackId)
  | step_closer w addr conn : step w (closer w addr conn).

(** ** The steps keep the invariant *)

Lemma UpdatePattern_spec w sub s message ms us :
  inv w -> subs w !! sub = Some s ->
  match_tracks (Sub_Pattern message) ((fun kv => pubTrack kv.2) <$> range_tracks (tracks_of s))
    (Sub_ReqTypes message) = Ret (ms, us) ->
  exists w' s', UpdatePattern w sub message = Ret w' /\ inv w' /\ accs w' = accs w /\ rest w' = rest w /\
    subs w' = <[sub:=s']> (subs w) /\ tracks_of s' = tracks_of (without (GlobalId <$> us) s) /\
    pattern s' = Sub_Pattern message /\ reqTypes s' = Sub_ReqTypes message /\ closed s' = closed s.
Proof.
  intros I Hs Hm. unfold UpdatePattern, get_sub. rewrite Hs. cbn [go_deref mbind run_bind]. rewrite Hm.
  cbn [mbind run_bind]. assert (keys_ok s) as Hk by (eapply inv_keys; [apply I|done]).
  destruct (drop_unmatched_spec w sub s us Hs Hk) as (w1 & -> & Ho). cbn [mbind run_bind].
  pose proof (only_sub_lookup _ _ _ _ Ho) as Hs1. pose proof (inv_without _ _ _ _ _ I Hs Ho) as I1.
  rewrite Hs1. cbn [go_deref mbind run_bind]. destruct Ho as (A & R & S).
  eexists _, _. split; [reflexivity|]. split; [by eapply (inv_put_conf w1)|]. split; [done|]. split; [done|].
  split; [cbn [subs put_sub set_subs]; by rewrite S, insert_insert_eq|]. done.
Qed.

Lemma update_inv w sub message w' : inv w -> UpdatePattern w sub message = Ret w' -> inv w'.
Proof.
  intros I Hr. pose proof Hr as Hr0. unfold UpdatePattern, get_sub in Hr.
  destruct (subs w !! sub) as [s|] eqn:Hs; [|done]. cbn [go_deref mbind run_bind] in Hr.
  destruct (match_tracks _ _ _) as [[ms us]|] eqn:Hm; [|done].
  destruct (UpdatePattern_spec _ _ _ _ _ _ I Hs Hm) as (w1 & s' & E & I' & _). congruence.
Qed.

Lemma accept_inv env fuel w sub msg w' :
  inv w -> Subscription_AcceptTrack env fuel w sub msg = Ret w' -> inv w'.
Proof.
  intros I Hr. pose proof Hr as Hr0. unfold Subscription_AcceptTrack, get_sub in Hr.
  destruct (subs w !! sub) as [s|] eqn:Hs; [|done]. cbn [go_deref mbind run_bind] in Hr.
  destruct (closed s) eqn:Hc; [by injection Hr as <-|].
  case_bool_decide as Hp; [by injection Hr as <-|].
  destruct (match_tracks _ _ _) as [[ms us]|] eqn:Hm; [|done]. clear Hr.
  assert (acceptedPubId s = "" \/ acceptedPubId s = State_PubId msg) as Hp'.
  { destruct (decide (acceptedPubId s = "")), (decide (acceptedPubId s = State_PubId msg)); tauto. }
  destruct (AcceptTrack_spec _ _ _ _ _ _ _ _ _ I Hs Hc Hp' Hm Hr0) as (s' & (I' & _) & _). done.
Qed.

Lemma close_inv w sub w' : inv w -> Subscription_Close w sub = Ret w' -> inv w'.
Proof.
  intros I Hr. destruct (subs w !! sub) as [s|] eqn:Hs.
  - destruct (Close_spec _ _ _ I Hs) as (w1 & E & I' & _). congruence.
  - unfold Subscription_Close, get_sub in Hr. by rewrite Hs in Hr.
Qed.

Lemma force_close_inv w a w' b : inv w -> Accepter_Close None w a true = Ret (w', b) -> inv w'.
Proof.
  intros I Hr. destruct (accs w !! a) as [x|] eqn:Hx.
  - destruct (Close_force_spec _ _ _ (proj1 I) Hx) as (w1 & E & R & A & S).
    assert (w1 = w') as <- by congruence. by eapply Close_force_inv.
  - unfold Accepter_Close, get_acc in Hr. by rewrite Hx in Hr.
Qed.

(** The store is the same up to the log. *)
Definition same_store w w' : Prop :=
  accs w' = accs w /\ track2accepters w' = track2accepters w /\ subs w' = subs w.

Lemma same_store_inv w w' : same_store w w' -> inv w -> inv w'.
Proof. intros (A & T & S). by apply inv_ext. Qed.

Lemma send_all_store env packet ts : forall w w', send_all env w ts packet = Ret w' -> same_store w w'.
Proof.
  induction ts as [|t ts IH]; intros w w' Hr; cbn [send_all] in Hr; [by injection Hr as <-|].
  destruct (addrMap w !! t) as [addr|]; [|by apply IH].
  destruct (ResolveUDPAddr_err env addr); [done|].
  destruct (wire packet); [|done]. cbn [mbind run_bind] in Hr. by apply IH in Hr.
Qed.

Lemma write_accepter_store env w a buf w' err :
  write_accepter env w a buf = Ret (w', err) -> same_store w w'.
Proof.
  unfold write_accepter, Accepter_Write, IsClosed, get_acc. intros Hr.
  destruct (accs w !! a) as [x|] eqn:Hx; [|done]. cbn [go_deref mbind run_bind] in Hr.
  destruct (a_closed x) eqn:Hc; cbn [mbind run_bind fmap run_fmap] in Hr.
  - rewrite Hx in Hr. cbn in Hr. by injection Hr as <- <-.
  - destruct (track_Write_err env); [|by injection Hr as <- <-].
    cbn in Hr. rewrite Hx in Hr. cbn in Hr. by injection Hr as <- <-.
Qed.

Lemma packet_inv env w packet w' : inv w -> handle_packet env w packet = Ret w' -> inv w'.
Proof.
  intros I Hr. unfold handle_packet in Hr. run_inv. rename x into w1.
  assert (inv w1) as I1.
  { destruct (track2transports w !! TrackId packet); run_inv; [|done].
    eapply same_store_inv; [by eapply send_all_store|done]. }
  destruct (track2accepters w1 !! TrackId packet) as [a|]; run_inv; [|done].
  destruct x.
  - run_inv. destruct x as [w2 b]. run_inv. by eapply force_close_inv.
  - run_inv. destruct x0 as [w2 err]. apply write_accepter_store in E2.
    assert (inv w2) by (by eapply same_store_inv). destruct err as [e|]; [|by run_inv].
    destruct (ignored e); [by run_inv|]. destruct e; done.
Qed.

Lemma error_panic_ret {A} e (a : A) : error_panic e <> Ret a.
Proof. by destruct e. Qed.

Lemma external_inv env w d w' b : inv w -> handle_external env w d = Ret (w', b) -> inv w'.
Proof.
  intros I Hr. unfold handle_external in Hr. destruct (IsDataPacket d).
  - run_inv. destruct x as [[trackId rtpData] [e|]]; [by apply error_panic_ret in Hr|].
    destruct (track2accepters w !! trackId) as [a|]; [|by injection Hr as <- _].
    run_inv. destruct x as [w2 [e|]]; [by apply error_panic_ret in Hr|].
    apply write_accepter_store in E0. injection Hr as <- _. by eapply same_store_inv.
  - destruct (IsSetupArk d); [by injection Hr as <- _|]. destruct (IsEofPacket d); [|by injection Hr as <- _].
    run_inv. destruct x as [[trackId rtpData] [e|]]; [by apply error_panic_ret in Hr|].
    destruct (track2accepters w !! trackId) as [a|]; [|by injection Hr as <- _].
    run_inv. destruct x as [w2 c]. injection Hr as <- _. by eapply force_close_inv.
Qed.

Lemma setup_inv w buf n addr w' : inv w -> handle_setup w buf n addr = Ret w' -> inv w'.
Proof.
  intros I Hr. unfold handle_setup in Hr. run_inv. destruct x as [[e|] setup]; [by run_inv|].
  run_inv. by eapply (inv_ext w).
Qed.

Lemma subscribe_inv w sub ctx message :
  inv w -> subs w !! sub = None -> inv (put_sub w sub (new_subscription ctx message)).
Proof.
  intros [[I1 I2 I3 I4 I5] C] Hno. split; [split|]; try done.
  - intros sub1 s1 g st. cbn. rewrite lookup_insert_Some. intros [[<- <-]|[_ Hs1]] Ht; [done|].
    by eapply I1.
  - intros k x sub1 Hk Hin. cbn. rewrite lookup_insert_is_Some'. right. by eapply I5.
  - intros sub1 s1. cbn. rewrite lookup_insert_Some. intros [[<- <-]|[_ Hs1]]; [done|]. by eapply C.
Qed.

Lemma step_inv w w' : inv w -> step w w' -> inv w'.
Proof.
  intros I Hst. destruct Hst.
  - by apply subscribe_inv.
  - by eapply accept_inv.
  - by eapply update_inv.
  - by eapply close_inv.
  - by eapply packet_inv.
  - by eapply external_inv.
  - by eapply setup_inv.
  - eapply inv_ext; [..|exact I]; cbn; by case_bool_decide.
  - by apply (inv_ext w).
  - unfold closer. case_bool_decide; [by apply (inv_ext w)|done].
Qed.

Lemma NewRouter_inv id addr : inv (NewRouter id addr).
Proof.
  split; [split|]; cbn; try done.
Qed.

End Steps.

(** ** A concrete instance, for the witnesses *)
Module Sample.

#[global] Instance sample_webrtc : Webrtc := {
  LocalTrack := WebrtcCodec * string * string;
  NewTrackLocalStaticRTP c id sid := inl (c, id, sid);
  track_ID t := t.1.2;
  track_StreamID t := t.2
}.

#[global] Instance sample_webrtc_laws : WebrtcLaws.
Proof. split. intros c id sid. by exists (c, id, sid). Qed.

#[global] Instance sample_order : MapOrder := {
  range_tracks := map_to_list;
  range_set := elements;
  range_groups := map_to_list
}.

#[global] Instance sample_order_laws : MapOrderLaws.
Proof. by split. Qed.

Definition env : Env := {| makeSurePeer_err := None; AddTrack_err _ := None; sender_of _ := 0;
  getMidFromSender _ := "0"; DialUDP_err _ := None; ResolveUDPAddr_err _ := None; track_Write_err := None |}.

Definition pub : string := "00000000-0000-0000-0000-000000000001".
Definition gid : string := "00000000-0000-0000-0000-000000000002".
Definition stream : string := "00000000-0000-0000-0000-000000000003".
Definition local : string := "00000000-0000-0000-0000-000000000004".

Definition track : Track := {| Type_ := "video"; PubId := pub; GlobalId := gid; LocalId := local;
  BindId := "0"; Rid := ""; StreamId := stream; Codec := None; Labels := None |}.

Definition by_stream : PublicationPattern := Pat PATTERN_OP_STREAM_ID [stream] [].
Definition by_type (t : string) : PublicationPattern := Pat PATTERN_OP_TRACK_TYPE [t] [].

Definition sub_msg (p : PublicationPattern) : SubscribeMessage :=
  {| Sub_Op := 1; Sub_Id := "s"; Sub_ReqTypes := []; Sub_Pattern := Some p; Sub_Room := "" |}.

Definition state_msg : StateMessage :=
  {| State_Router := None; State_PubId := pub; State_Addr := "pub:1"; State_Tracks := [track] |}.

(** A node with one subscription, before and after it accepted the track. *)
Definition router0 : World := NewRouter (zeros 16) "sub:1".
Definition subscribed (p : PublicationPattern) : World :=
  put_sub router0 "s" (new_subscription "ctx" (sub_msg p)).
Definition accepting (p : PublicationPattern) : run World :=
  Subscription_AcceptTrack env 1 (subscribed p) "s" state_msg.

Definition world_of (r : run World) : World := match r with Ret w => w | Abort _ => router0 end.

Lemma accepting_ret p :
  (exists w, accepting p = Ret w) -> accepting p = Ret (world_of (accepting p)).
Proof. intros [w ->]. done. Qed.

(** [w.accepters], as the fields a reader cares about. *)
Definition acc_view (x : Accepter) : bool * list string * Z :=
  (a_closed x, elements (bound x), ref_count x).

End Sample.

Example accept_example :
  (fun w => (Sample.acc_view <$> accs w, length (events w), dom <$> (tracks_of <$> subs w !! "s"))) <$>
    Sample.accepting (Sample.by_type "video") = Ret ([(false, ["s"], 1%Z)], 4, Some {[Sample.gid]}).
Proof. vm_compute. reflexivity. Qed.

(** ** Properties *)

Section Properties.
Context `{UuidLaws, Webrtc, MapOrderLaws}.
Implicit Types (w : World) (s : Subscription) (x : Accepter) (st : SubscribedTrack).

(** In every state that the operations reach one after the other, each track a
    subscription holds is served by the open accepter registered for it, which has the
    subscription among its bindings; an open accepter has at least one reference and at
    least as many references as bindings, a closed one has no binding, and a
    closed subscription holds no track.  [RoutingConc] has what holds when they run at the same time. *)
Theorem reachable_inv id addr w : rtc step (NewRouter id addr) w -> inv w.
Proof.
  intros Hr. remember (NewRouter id addr) as w0 eqn:E.
  assert (inv w0) as I by (subst; apply NewRouter_inv). clear E.
  induction Hr as [|w1 w2 w3 Hs _ IH]; [done|]. apply IH. by eapply step_inv.
Qed.

(** C39. [Subscription.Close] when nothing else runs ([RoutingConc] has the interleavings).  It returns (the accepters it closes do not
    come back for its own mutex): the
    subscription is closed and holds nothing, no other subscription changes,
    and each accepter it was served by loses one reference and the binding,
    and is closed exactly when that was its last reference; the other
    accepters do not change. *)
Theorem Subscription_Close_correct w sub s :
  inv w -> subs w !! sub = Some s ->
  exists w', Subscription_Close w sub = Ret w' /\ inv w' /\
    subs w' = <[sub := closed_sub s]> (subs w) /\
    (forall k x, accs w !! k = Some x -> held_by s k ->
       exists x', accs w' !! k = Some x' /\ (sub ∉ bound x') /\ ref_count x' = (ref_count x - 1)%Z /\
         (a_closed x' = true <-> ref_count x = 1%Z)) /\
    (forall k, ~ held_by s k -> accs w' !! k = accs w !! k).
Proof.
  intros I Hs. destruct (Close_spec _ _ _ I Hs) as (w' & E & I' & _ & S & A).
  exists w'. split; [done|]. split; [done|]. split; [done|]. split; [|intros k; apply A].
  intros k x Hx Hk. exists (released sub x). rewrite (proj1 (A k)), Hx by done.
  destruct Hk as (g & st & Ht & <-). destruct (inv_track _ (proj1 I) _ _ _ _ Hs Ht) as (_ & _ & x' & Hx' & Hop & _).
  assert (x' = x) as -> by congruence. split; [done|]. unfold released.
  destruct (Z.eqb_spec (ref_count x - 1) 0) as [E0|E0]; unfold bound; cbn.
  - split; [set_solver|]. split; [lia|]. split; [lia|done].
  - split; [set_solver|]. split; [done|]. rewrite Hop. split; [done|lia].
Qed.


(** [UpdatePattern] replaces the pattern and the required types and
    drops exactly the held tracks the new ones do not select; no other
    subscription and no accepter changes, so the references stay with the
    dropped tracks. *)
Theorem UpdatePattern_correct w sub s message ms us :
  inv w -> subs w !! sub = Some s ->
  match_tracks (Sub_Pattern message) ((fun kv => pubTrack kv.2) <$> range_tracks (tracks_of s))
    (Sub_ReqTypes message) = Ret (ms, us) ->
  exists w' s', UpdatePattern w sub message = Ret w' /\ inv w' /\ accs w' = accs w /\
    subs w' = <[sub:=s']> (subs w) /\ pattern s' = Sub_Pattern message /\
    reqTypes s' = Sub_ReqTypes message /\
    forall g st, tracks_of s' !! g = Some st <-> tracks_of s !! g = Some st /\ (g ∉ (GlobalId <$> us)).
Proof.
  intros I Hs Hm. destruct (UpdatePattern_spec _ _ _ _ _ _ I Hs Hm) as (w' & s' & E & I' & A & _ & S & T & P & Q & _).
  exists w', s'. do 6 (split; [done|]). intros g st. by rewrite T, tracks_of_without, map_lookup_filter_Some.
Qed.

(** An end-of-stream datagram for a track closes its accepter and
    detaches it from every subscription: afterwards no subscription holds a
    track of this accepter, every other held track is still held, and the
    invariant holds. *)
Theorem eof_detaches env w id a :
  inv w -> is_uuid id -> track2accepters w !! uuid_String id = Some a ->
  exists w', handle_external env w (datagram MAGIC_EOF id []) = Ret (w', false) /\ inv w' /\
    (exists x, accs w' !! a = Some x /\ a_closed x = true) /\
    (forall sub s', subs w' !! sub = Some s' -> ~ held_by s' a) /\
    (forall sub s, subs w !! sub = Some s -> exists s', subs w' !! sub = Some s' /\
       forall g st, tracks_of s !! g = Some st -> st_accepter st <> a -> tracks_of s' !! g = Some st).
Proof.
  intros I [Hl _] Ha. unfold handle_external.
  assert (IsDataPacket (datagram MAGIC_EOF id []) = false) as ->
    by (unfold IsDataPacket; by rewrite datagram_length, Hl).
  assert (IsSetupArk (datagram MAGIC_EOF id []) = false) as ->
    by (unfold IsSetupArk, is_setup_magic; by rewrite datagram_length, Hl).
  rewrite IsEofPacket_datagram by done. rewrite ExtractPacket_datagram by done. cbn [mbind run_bind]. rewrite Ha.
  destruct (lookup_lt_is_Some_2 _ _ (inv_t2a _ (proj1 I) _ _ Ha)) as [x Hx].
  destruct (Close_force_spec _ _ _ (proj1 I) Hx) as (w' & -> & R & A & S). cbn [mbind run_bind].
  pose proof (Close_force_inv _ _ _ _ I Hx R A S) as I'.
  assert (accs w' !! a = Some (shut x)) as Hsh.
  { rewrite A. apply list_lookup_insert_eq. by eapply lookup_lt_Some. }
  exists w'. split; [done|]. split; [done|]. split; [by exists (shut x)|]. split.
  - intros sub s' Hs' (g & st & Ht & E). destruct (inv_track _ (proj1 I') _ _ _ _ Hs' Ht) as (_ & _ & x' & Hx' & Hop & _).
    rewrite E in Hx'. rewrite Hsh in Hx'. injection Hx' as <-. done.
  - intros sub s Hs. rewrite S, Hs. destruct (decide (sub ∈ bound x)); [|by exists s].
    exists (strip a s). split; [done|]. intros g st Ht Hne. by apply tracks_strip.
Qed.

(** The accepter of a track is never taken out of [track2accepters], so
    once the stream ended [Router.AcceptTrack] for the same track does not
    return: its loop finds the closed accepter again and again, whatever the
    number of iterations (the subscription's mutex being held meanwhile). *)
Theorem AcceptTrack_after_eof_diverges env w id a w' b :
  inv w -> is_uuid id -> track2accepters w !! uuid_String id = Some a ->
  handle_external env w (datagram MAGIC_EOF id []) = Ret (w', b) ->
  forall fuel track, GlobalId track = uuid_String id -> Router_AcceptTrack fuel w' track = Abort NoFuel.
Proof.
  intros I [Hl _] Ha Hr. unfold handle_external in Hr.
  assert (IsDataPacket (datagram MAGIC_EOF id []) = false) as Hd
    by (unfold IsDataPacket; by rewrite datagram_length, Hl).
  assert (IsSetupArk (datagram MAGIC_EOF id []) = false) as Hk
    by (unfold IsSetupArk, is_setup_magic; by rewrite datagram_length, Hl).
  rewrite Hd, Hk in Hr. rewrite IsEofPacket_datagram in Hr by done.
  rewrite ExtractPacket_datagram in Hr by done. cbn [mbind run_bind] in Hr. rewrite Ha in Hr.
  destruct (lookup_lt_is_Some_2 _ _ (inv_t2a _ (proj1 I) _ _ Ha)) as [x Hx].
  destruct (Close_force_spec _ _ _ (proj1 I) Hx) as (w1 & E & R & A & _). rewrite E in Hr. cbn [mbind run_bind] in Hr.
  injection Hr as <- _. intros fuel track Ht.
  assert (track2accepters w1 !! GlobalId track = Some a) as Hta.
  { rewrite Ht. assert (track2accepters w1 = track2accepters w) as -> by (unfold rest in R; congruence). done. }
  assert (accs w1 !! a = Some (shut x)) as Hsh.
  { rewrite A. apply list_lookup_insert_eq. by eapply lookup_lt_Some. }
  induction fuel as [|fuel IH]; [done|]. cbn [Router_AcceptTrack]. rewrite Hta.
  unfold Ref, get_acc. rewrite Hsh. cbn [go_deref mbind run_bind shut a_closed]. exact IH.
Qed.

Lemma send_all_spec env packet dg ts : forall w,
  (forall addr, ResolveUDPAddr_err env addr = None) -> wire packet = Ret dg ->
  exists w', send_all env w ts packet = Ret w' /\ same_store w w' /\
    events w' = events w ++ ((fun addr => EvSend addr dg) <$> omap (fun t => addrMap w !! t) ts).
Proof.
  induction ts as [|t ts IH]; intros w Hres Hw; cbn [send_all].
  - exists w. split; [done|]. split; [done|]. by rewrite app_nil_r.
  - cbn [omap list_omap]. destruct (addrMap w !! t) as [addr|] eqn:Ht; [|by apply IH].
    rewrite Hres, Hw. cbn [mbind run_bind]. destruct (IH (emit w (EvSend addr dg)) Hres Hw) as (w' & -> & Hst & Ev).
    exists w'. split; [done|]. split; [done|]. rewrite Ev. cbn. by rewrite <- app_assoc.
Qed.

Lemma write_accepter_spec env w a x buf :
  accs w !! a = Some x -> track_Write_err env = None ->
  exists w', write_accepter env w a buf = Ret (w', None) /\ same_store w w' /\
    events w' = events w ++ (if a_closed x then [] else [EvTrackWrite a buf]).
Proof.
  intros Hx Hw. unfold write_accepter, Accepter_Write, IsClosed, get_acc. rewrite Hx. cbn [go_deref mbind run_bind].
  destruct (a_closed x) eqn:Hc; cbn [mbind run_bind fmap run_fmap].
  - rewrite Hx. cbn. rewrite Hc. exists w. split; [done|]. split; [done|]. by rewrite app_nil_r.
  - rewrite Hw. eexists. split; [done|]. split; [done|]. done.
Qed.

(** The writes a packet causes on its own node. *)
Definition local_writes w (trackId : string) (buf : list Z) : list event :=
  match track2accepters w !! trackId with
  | Some a => match accs w !! a with
              | Some x => if a_closed x then [] else [EvTrackWrite a buf]
              | None => []
              end
  | None => []
  end.

Lemma handle_packet_data env w p trackId id payload :
  inv w -> carries p trackId (datagram MAGIC_PACKET id payload) -> n p = length payload + 20 -> length id = 16 ->
  (forall addr, ResolveUDPAddr_err env addr = None) -> track_Write_err env = None ->
  exists w', handle_packet env w p = Ret w' /\
    events w' = events w ++
      ((fun addr => EvSend addr (datagram MAGIC_PACKET id payload)) <$>
         omap (fun t => addrMap w !! t) (range_set (default ∅ (track2transports w !! trackId)))) ++
      local_writes w trackId payload.
Proof.
  intros I (Htid & Hlen & Hw) Hn Hl Hres Hwr. unfold handle_packet. rewrite Htid.
  assert (exists w1, (match track2transports w !! trackId with
      | Some ts => send_all env w (range_set ts) p | None => Ret w end) = Ret w1 /\ same_store w w1 /\
      events w1 = events w ++ ((fun addr => EvSend addr (datagram MAGIC_PACKET id payload)) <$>
         omap (fun t => addrMap w !! t) (range_set (default ∅ (track2transports w !! trackId))))) as (w1 & E1 & (A & T & S) & Ev).
  { destruct (track2transports w !! trackId) as [ts|]; [by apply send_all_spec|]. cbn [default].
    assert (range_set ∅ = []) as ->.
    { apply Permutation_nil. rewrite range_set_perm. by rewrite elements_empty. }
    exists w. split; [done|]. split; [done|]. by rewrite app_nil_r. }
  rewrite E1. cbn [mbind run_bind]. rewrite T. unfold local_writes.
  destruct (track2accepters w !! trackId) as [a|] eqn:Ha; [|exists w1; by rewrite app_nil_r].
  unfold IsEOF. rewrite Hw. cbn [fmap run_fmap mbind run_bind]. rewrite IsEofPacket_data.
  destruct (lookup_lt_is_Some_2 _ _ (inv_t2a _ (proj1 I) _ _ Ha)) as [x Hx]. rewrite Hx.
  assert (go_slice (data p) (Z.of_nat PACKET_TRACK_HEADER_SIZE) (Z.of_nat (n p)) = Ret payload) as ->.
  { unfold wire in Hw. assert (n p <= length (data p)) as Hnd.
    { destruct (decide (n p <= length (data p))); [done|]. rewrite go_slice_panics in Hw by lia. done. }
    change 0%Z with (Z.of_nat 0) in Hw. rewrite go_slice_ok in Hw by lia. rewrite Nat.sub_0_r, drop_0 in Hw.
    injection Hw as Hw. unfold PACKET_TRACK_HEADER_SIZE. rewrite go_slice_ok by lia. f_equal.
    rewrite take_drop_commute. replace (20 + (n p - 20)) with (n p) by lia. rewrite Hw.
    apply datagram_payload. rewrite Hl. done. }
  cbn [mbind run_bind]. rewrite <- A in Hx. destruct (write_accepter_spec env w1 a x payload Hx Hwr) as (w2 & -> & _ & Ev2).
  cbn [mbind run_bind]. exists w2. split; [done|]. rewrite Ev2, Ev. by rewrite app_assoc.
Qed.

(** The datagram of a packet, on a node that receives it. *)
Lemma handle_external_data env ws trackId id payload :
  inv ws -> length id = 16 -> uuid_String id = trackId -> payload <> [] -> track_Write_err env = None ->
  exists ws', handle_external env ws (datagram MAGIC_PACKET id payload) = Ret (ws', false) /\
    events ws' = events ws ++ local_writes ws trackId payload /\ same_store ws ws'.
Proof.
  intros Is Hl Hcan Hp Hwr. unfold handle_external. rewrite IsDataPacket_datagram by done.
  rewrite ExtractPacket_datagram by done. cbn [mbind run_bind]. rewrite Hcan. unfold local_writes.
  destruct (track2accepters ws !! trackId) as [a|] eqn:Ha.
  - destruct (lookup_lt_is_Some_2 _ _ (inv_t2a _ (proj1 Is) _ _ Ha)) as [x Hx].
    destruct (write_accepter_spec env ws a x payload Hx Hwr) as (w2 & -> & Hst & Ev2). rewrite Hx.
    cbn [mbind run_bind]. eauto.
  - exists ws. split; [done|]. split; [by rewrite app_nil_r|done].
Qed.

(** C12. A packet on its way.  On the publishing node, the packet built for
    a payload of 1 to 1580 bytes of a published track is sent to exactly the
    transports of the track whose address is known, and written to the
    local accepter of the track if it is open.  On a subscribing node that
    receives the datagram, the same payload is written to the open accepter
    registered for the track, and to nothing else. *)
Theorem packet_delivered env wp ws trackId id payload pool :
  inv wp -> inv ws -> pool_ok pool -> uuid_Parse trackId = Some id -> uuid_String id = trackId ->
  1 <= length payload <= 1580 ->
  (forall addr, ResolveUDPAddr_err env addr = None) -> track_Write_err env = None ->
  exists p pool' wp' ws' dg,
    NewPacketFromBuf trackId payload pool = (inl p, pool') /\
    handle_packet env wp p = Ret wp' /\
    events wp' = events wp ++
      ((fun addr => EvSend addr dg) <$>
         omap (fun t => addrMap wp !! t) (range_set (default ∅ (track2transports wp !! trackId)))) ++
      local_writes wp trackId payload /\
    handle_external env ws dg = Ret (ws', false) /\
    events ws' = events ws ++ local_writes ws trackId payload /\ same_store ws ws'.
Proof.
  intros Ip Is Hp Hid Hcan Hlen Hres Hwr. destruct (Parse_is_uuid _ _ Hid) as [Hl _].
  destruct (NewPacketFromBuf_spec _ _ payload _ Hp Hid) as (p & pool' & E & _ & _ & Hn & _ & Hc).
  destruct (handle_packet_data env wp p trackId id payload Ip (Hc ltac:(lia)) Hn Hl Hres Hwr) as (wp' & Ep & Evp).
  exists p, pool', wp'.
  destruct (handle_external_data env ws trackId id payload Is Hl Hcan) as (ws' & E1 & E2 & E3); [by destruct payload; cbn in Hlen; [lia|]|done|].
  exists ws', (datagram MAGIC_PACKET id payload). done.
Qed.

(** The handshake between two routers.  The setup datagram of a router
    makes the other router map its id to the sender's address and answer with
    an acknowledgement; but the acknowledgement is not recognised by the
    receive loop of the first router, which requires the datagram to carry
    both magics, so the loop that repeats the setup every 50 ms is never
    told to stop. *)
Theorem setup_handshake env w wr id addr :
  is_uuid id ->
  exists setup ark w', NewSetupPacketBuf (Some id) = Ret setup /\ NewSetupArkPacketBuf (Some id) = Ret ark /\
    handle_setup w setup 24 addr = Ret w' /\
    addrMap w' = <[uuid_String id := addr]> (addrMap w) /\ events w' = events w ++ [EvSend addr ark] /\
    handle_external env wr ark = Ret (wr, false).
Proof.
  intros [Hl _]. exists (datagram MAGIC_SETUP id []), (datagram MAGIC_ARK id []).
  destruct (new_setup_roundtrip MAGIC_SETUP id (NewSetupPacket None)) as (E1 & _ & _ & _ & D); [done..|].
  destruct (new_setup_roundtrip MAGIC_ARK id (NewSetupPacket None)) as (E2 & L2 & K2 & _ & _); [done..|].
  eexists. split; [done|]. split; [done|]. unfold handle_setup, DecodeSetupPacket. rewrite D. cbn [mbind run_bind TransportId].
  unfold NewSetupArkPacketBuf. rewrite E2. rewrite FromBytes_uuid by done. cbn [mbind run_bind]. split; [done|].
  split; [done|]. split; [done|]. unfold handle_external.
  assert (IsDataPacket (datagram MAGIC_ARK id []) = false) as ->.
  { unfold IsDataPacket. rewrite datagram_length, Hl. done. }
  unfold IsSetupArk. rewrite K2. do 2 f_equal.
  unfold IsSetup, is_setup_magic. rewrite datagram_length, Hl. by rewrite datagram_magic.
Qed.

End Properties.

(** ** Where the code does not do what it means to *)

(** Dropping a track through [UpdatePattern] keeps the reference it
    holds: after a subscription accepted a track, replaced its pattern by one
    that drops the track and was closed, the accepter is still open, with
    one reference and the closed subscription among its bindings, and no
    operation is left that would release it. *)
Theorem update_pattern_leaks_reference :
  (w ← Sample.accepting (Sample.by_type "video");
   w ← UpdatePattern w "s" (Sample.sub_msg (Sample.by_type "audio"));
   w ← Subscription_Close w "s";
   Ret (Sample.acc_view <$> accs w, tracks_of <$> subs w !! "s"))
  = Ret ([(false, ["s"], 1%Z)], Some ∅).
Proof. vm_compute. reflexivity. Qed.

(** The track that [AcceptTrack] stores is the one it then relabels
    with the ids of the local track, so a later [UpdatePattern] judges the
    relabelled track: updating a subscription with the very pattern it
    already has drops a track selected by its stream id. *)
Theorem update_same_pattern_drops :
  (w ← Sample.accepting Sample.by_stream; Ret (dom <$> (tracks_of <$> subs w !! "s")))
    = Ret (Some {[Sample.gid]}) /\
  (w ← Sample.accepting Sample.by_stream;
   w ← UpdatePattern w "s" (Sample.sub_msg Sample.by_stream);
   Ret (tracks_of <$> subs w !! "s")) = Ret (Some ∅).
Proof. split; vm_compute; reflexivity. Qed.

(** ** Witnesses *)

Lemma sample_subscribed_inv p : inv (Sample.subscribed p).
Proof. apply subscribe_inv; [apply NewRouter_inv|reflexivity]. Qed.

Lemma sample_accepting_inv : inv (Sample.world_of (Sample.accepting (Sample.by_type "video"))).
Proof.
  apply (accept_inv Sample.env 1 (Sample.subscribed (Sample.by_type "video")) "s" Sample.state_msg).
  - apply sample_subscribed_inv.
  - vm_compute. reflexivity.
Qed.

(** The accepting subscription of the sample world. *)
Definition sample_sub : Subscription :=
  default (new_subscription "" (Sample.sub_msg (Sample.by_type "video")))
    (subs (Sample.world_of (Sample.accepting (Sample.by_type "video"))) !! "s").

Lemma Subscription_Close_correct_witness :
  exists w', Subscription_Close (Sample.world_of (Sample.accepting (Sample.by_type "video"))) "s" = Ret w' /\
    subs w' = <["s" := closed_sub sample_sub]>
      (subs (Sample.world_of (Sample.accepting (Sample.by_type "video")))).
Proof.
  destruct (Subscription_Close_correct (Sample.world_of (Sample.accepting (Sample.by_type "video"))) "s" sample_sub)
    as (w' & E & _ & S & _).
  - exact sample_accepting_inv.
  - vm_compute. reflexivity.
  - exists w'. split; [exact E|exact S].
Defined.


Lemma UpdatePattern_correct_witness :
  exists w' s', UpdatePattern (Sample.world_of (Sample.accepting (Sample.by_type "video"))) "s"
      (Sample.sub_msg (Sample.by_type "audio")) = Ret w' /\ subs w' !! "s" = Some s' /\
    tracks_of s' !! Sample.gid = None.
Proof.
  edestruct (UpdatePattern_correct (Sample.world_of (Sample.accepting (Sample.by_type "video"))) "s" sample_sub
    (Sample.sub_msg (Sample.by_type "audio"))) as (w' & s' & E & _ & _ & S & _ & _ & T).
  - exact sample_accepting_inv.
  - vm_compute. reflexivity.
  - vm_compute. reflexivity.
  - exists w', s'. split; [exact E|]. split; [rewrite S; apply lookup_insert_eq|].
    destruct (tracks_of s' !! Sample.gid) as [st|] eqn:Et; [|reflexivity].
    apply T in Et as [_ Hn]. exfalso. apply Hn. vm_compute. left.
Defined.

Definition gid_bytes : list Z := [0; 0; 0; 0; 0; 0; 0; 0; 0; 0; 0; 0; 0; 0; 0; 2]%Z.

Lemma gid_bytes_uuid : is_uuid gid_bytes.
Proof. split; [reflexivity|]. repeat constructor; unfold is_byte; lia. Qed.

Lemma eof_detaches_witness :
  exists w', handle_external Sample.env (Sample.world_of (Sample.accepting (Sample.by_type "video")))
      (datagram MAGIC_EOF gid_bytes []) = Ret (w', false) /\
    (exists x, accs w' !! 0 = Some x /\ a_closed x = true).
Proof.
  destruct (eof_detaches Sample.env (Sample.world_of (Sample.accepting (Sample.by_type "video"))) gid_bytes 0)
    as (w' & E & _ & Hx & _).
  - exact sample_accepting_inv.
  - exact gid_bytes_uuid.
  - vm_compute. reflexivity.
  - exists w'. split; [exact E|exact Hx].
Defined.

Lemma AcceptTrack_after_eof_diverges_witness :
  (handle_external Sample.env (Sample.world_of (Sample.accepting (Sample.by_type "video")))
      (datagram MAGIC_EOF gid_bytes []) ≫= fun '(w, _) => Router_AcceptTrack 100 w Sample.track) = Abort NoFuel.
Proof.
  destruct (handle_external Sample.env (Sample.world_of (Sample.accepting (Sample.by_type "video")))
    (datagram MAGIC_EOF gid_bytes [])) as [[w' b]|] eqn:E.
  - cbn [mbind run_bind].
    apply (AcceptTrack_after_eof_diverges Sample.env (Sample.world_of (Sample.accepting (Sample.by_type "video")))
             gid_bytes 0 w' b).
    + exact sample_accepting_inv.
    + exact gid_bytes_uuid.
    + vm_compute. reflexivity.
    + exact E.
    + vm_compute. reflexivity.
  - vm_compute in E. discriminate E.
Defined.

(** A publishing node that knows the address of one subscribing router. *)
Definition publisher : World :=
  set_addrMap (PublishTrack (NewRouter (zeros 16) "pub:1") Sample.gid "t").1 {["t" := "sub:1"]}.

Lemma publisher_inv : inv publisher.
Proof. apply (inv_ext (NewRouter (zeros 16) "pub:1")); try reflexivity. apply NewRouter_inv. Qed.

Lemma packet_delivered_witness :
  exists p pool' wp' ws' dg,
    NewPacketFromBuf Sample.gid [128; 1]%Z [] = (inl p, pool') /\
    handle_packet Sample.env publisher p = Ret wp' /\ events wp' = [EvSend "sub:1" dg] /\
    handle_external Sample.env (Sample.world_of (Sample.accepting (Sample.by_type "video"))) dg = Ret (ws', false) /\
    EvTrackWrite 0 [128; 1]%Z ∈ events ws'.
Proof.
  destruct (packet_delivered Sample.env publisher (Sample.world_of (Sample.accepting (Sample.by_type "video")))
    Sample.gid gid_bytes [128; 1]%Z []) as (p & pool' & wp' & ws' & dg & E1 & E2 & E3 & E4 & E5 & _).
  - exact publisher_inv.
  - exact sample_accepting_inv.
  - constructor.
  - vm_compute. reflexivity.
  - vm_compute. reflexivity.
  - cbn. lia.
  - reflexivity.
  - reflexivity.
  - exists p, pool', wp', ws', dg. split; [exact E1|]. split; [exact E2|]. split; [rewrite E3; vm_compute; reflexivity|].
    split; [exact E4|]. rewrite E5. apply elem_of_app. right. vm_compute. left.
Defined.

Lemma setup_handshake_witness :
  exists setup ark w', NewSetupPacketBuf (Some gid_bytes) = Ret setup /\
    NewSetupArkPacketBuf (Some gid_bytes) = Ret ark /\
    handle_setup Sample.router0 setup 24 "peer:1" = Ret w' /\
    addrMap w' = {[Sample.gid := "peer:1"]} /\ events w' = [EvSend "peer:1" ark] /\
    handle_external Sample.env Sample.router0 ark = Ret (Sample.router0, false).
Proof.
  destruct (setup_handshake Sample.env Sample.router0 Sample.router0 gid_bytes "peer:1" gid_bytes_uuid)
    as (setup & ark & w' & E1 & E2 & E3 & E4 & E5 & E6).
  exists setup, ark, w'. split; [exact E1|]. split; [exact E2|]. split; [exact E3|].
  split; [rewrite E4; vm_compute; reflexivity|]. split; [exact E5|exact E6].
Defined.
