(* ===== verification/RoutingConc.v ===== *)
(** * RoutingConc: accepting, updating and closing at the same time ([signal/model.go], [signal/router.go])

    [Subscription.AcceptTrack], [UpdatePattern] and [Close] hold the mutex of the subscription, [Accepter.Ref], [BindSub],
    [UnbindSub] and [Close] that of the accepter, and [Accepter.Close] takes the mutexes of the subscriptions it serves while it holds its own.
    Here these calls run as goroutines.  A goroutine is the point it has reached; a step runs it to its
    next access of an accepter or its next mutex.  What a goroutine does in between only touches what the mutex it holds protects.
    The store is that of [Routing], whose operations the steps are made of. *)
From S2P Require Import Prelude Collection Pattern Messages Packets Routing RoutingInv RoutingAccept RoutingProps.
Local Open Scope string_scope.
Local Open Scope list_scope.

(** ** Goroutines *)

(** The variables of [Subscription.AcceptTrack] in its loop: [f_left] are the matched tracks still to come. *)
Record frame := {
  f_sub : string; f_msg : StateMessage; f_all : list Track; f_left : list Track; f_need : bool; f_out : list Track
}.

Section Conc.
Context `{Uuid, Webrtc, MapOrder}.

(** What is left of [Subscription.Close] when it waits in [Accepter.Close]: the subscription, the track whose accepter it closes, and the
    tracks after it. *)
Definition rest_of_close : Type := string * string * SubscribedTrack * list (string * SubscribedTrack).

Inductive thread :=
  | AStart (sub : string) (msg : StateMessage)             (** [AcceptTrack], before its lock *)
  | ALoop (f : frame)                                      (** at the head of the loop *)
  | ARef (f : frame) (m : Track) (a : nat)                 (** found an accepter, before [Ref] *)
  | AAdd (f : frame) (m : Track) (a : nat)                 (** has its reference *)
  | ABind (f : frame) (a : nat)                            (** stored the track, before [BindSub] *)
  | UStart (sub : string) (message : SubscribeMessage)     (** [UpdatePattern], before its lock *)
  | CStart (sub : string)                                  (** [Subscription.Close], before its lock *)
  | CUnbind (sub : string) (l : list (string * SubscribedTrack))
  | CClose (a : nat) (k : rest_of_close)                   (** unbound, before [Accepter.Close(false)] *)
  | KStart (a : nat)                                       (** [Accepter.Close(true)], before its lock *)
  | KUnbind (a : nat) (todo : list string) (k : option rest_of_close)   (** the loop of [Accepter.Close] *)
  | Over.

(** [s_mu] and [a_mu]: the goroutine that holds the mutex of a subscription, of an accepter.  [lost] remembers the references that
    nobody will give back: the subscription and the accepter of each track that was dropped, or could not be added. *)
Record conc := { cw : World; s_mu : gmap string nat; a_mu : gmap nat nat; ths : list thread; lost : list (string * nat) }.

Definition acc_ids (s : Subscription) : list nat := st_accepter <$> (map_to_list (tracks_of s)).*2.

(** The references of the tracks that [s] had and [s'] has not. *)
Definition dropped (sub : string) (s s' : Subscription) : list (string * nat) :=
  pair sub <$> filter (fun k => ~ held_by s' k) (acc_ids s).

(** The goroutine [i] goes to [t]. *)
Definition goto (i : nat) (t : thread) (w : World) (sm : gmap string nat) (am : gmap nat nat) (ls : list (string * nat)) (c : conc) : conc :=
  {| cw := w; s_mu := sm; a_mu := am; ths := <[i := t]> (ths c); lost := ls |}.

(** ** The code *)

(** [Subscription.AcceptTrack] up to its loop: the state then, and the loop unless it returned or panicked before. *)
Definition accept_enter (env : Env) (w : World) (sub : string) (s : Subscription) (msg : StateMessage) : World * option frame :=
  if closed s then (w, None)
  else if bool_decide (acceptedPubId s <> "" /\ acceptedPubId s <> State_PubId msg) then (w, None)
  else
    match match_tracks (pattern s) (State_Tracks msg) (reqTypes s) with
    | Abort _ => (w, None)
    | Ret (ms, us) =>
        let again := bool_decide (acceptedPubId s = State_PubId msg) in
        match (if again then drop_unmatched w sub us else Ret w) with
        | Abort _ => (w, None)
        | Ret w =>
            match subs w !! sub with
            | None => (w, None)
            | Some s =>
                if (length ms =? 0)%nat then (if again then put_sub w sub (set_acceptedPubId s "") else w, None)
                else
                  let s := set_acceptedPubId s (State_PubId msg) in
                  let w := put_sub w sub s in
                  match makeSureExternelConn env w (State_Addr msg), makeSurePeer_err env with
                  | Abort _, _ => (w, None)
                  | Ret w, Some _ => (w, None)
                  | Ret w, None =>
                      (put_sub w sub (set_acceptedTrack s (Some (tracks_of s))),
                       Some {| f_sub := sub; f_msg := msg; f_all := ms; f_left := ms; f_need := false; f_out := [] |})
                  end
            end
        end
    end.

Definition a_start (env : Env) (i : nat) (sub : string) (msg : StateMessage) (c : conc) : option conc :=
  match s_mu c !! sub with
  | Some _ => None
  | None =>
      match subs (cw c) !! sub with
      | None => Some (goto i Over (cw c) (s_mu c) (a_mu c) (lost c) c)
      | Some s =>
          let '(w, f) := accept_enter env (cw c) sub s msg in
          let ls := lost c ++ dropped sub s (default s (subs w !! sub)) in
          match f with
          | None => Some (goto i Over w (s_mu c) (a_mu c) ls c)
          | Some f => Some (goto i (ALoop f) w (<[sub := i]> (s_mu c)) (a_mu c) ls c)
          end
      end
  end.

(** The end of [AcceptTrack]: what it sends. *)
Definition accept_done (w : World) (f : frame) : World :=
  if f_need f then
    let '(w, sdpId) := NextSdpMsgId w (default "" (sctx <$> subs w !! f_sub f)) in
    let w := emit w (EvSelect (f_sub f) {| Select_Router := None; Select_PubId := State_PubId (f_msg f);
               Select_TransportId := uuid_String (router_id w); Select_Tracks := f_all f |}) in
    emit w (EvSubscribed (f_sub f) {| Subd_SubId := f_sub f; Subd_PubId := State_PubId (f_msg f);
               Subd_SdpId := sdpId; Subd_Tracks := f_out f |})
  else w.

Definition next_track (f : frame) (need : bool) (out : list Track) : frame :=
  {| f_sub := f_sub f; f_msg := f_msg f; f_all := f_all f; f_left := tail (f_left f); f_need := need; f_out := f_out f ++ out |}.

Definition sub_tracks (w : World) (sub : string) : gmap string SubscribedTrack := default ∅ (tracks_of <$> subs w !! sub).

(** The head of the loop; [Router.AcceptTrack] looks for an accepter or makes one, which has its reference then. *)
Definition a_loop (i : nat) (f : frame) (c : conc) : option conc :=
  let w := cw c in
  let stop w := Some (goto i Over w (delete (f_sub f) (s_mu c)) (a_mu c) (lost c) c) in
  match f_left f with
  | [] => stop (accept_done w f)
  | m :: _ =>
      match sub_tracks w (f_sub f) !! GlobalId m with
      | Some st =>
          match accs w !! st_accepter st with
          | None => stop w
          | Some x =>
              let track := relabel (CopyTrack m) (track_ID (a_track x)) (bindId st) (sid st) in
              Some (goto i (ALoop (next_track f (f_need f) [track])) w (s_mu c) (a_mu c) (lost c) c)
          end
      | None =>
          match track2accepters w !! GlobalId m with
          | Some a => Some (goto i (ARef f m a) w (s_mu c) (a_mu c) (lost c) c)
          | None =>
              match NewAccepter (CopyTrack m) with
              | Abort _ => stop w
              | Ret x =>
                  let a := length (accs w) in
                  let w := set_track2accepters (set_accs w (accs w ++ [x])) (<[GlobalId m := a]> (track2accepters w)) in
                  Some (goto i (AAdd f m a) w (s_mu c) (a_mu c) (lost c) c)
              end
          end
      end
  end.

(** [Ref]; when the accepter is closed [Router.AcceptTrack] looks again. *)
Definition a_ref (i : nat) (f : frame) (m : Track) (a : nat) (c : conc) : option conc :=
  match a_mu c !! a, Ref (cw c) a with
  | None, Ret (w, Some _) => Some (goto i (AAdd f m a) w (s_mu c) (a_mu c) (lost c) c)
  | None, Ret (w, None) => Some (goto i (ALoop f) w (s_mu c) (a_mu c) (lost c) c)
  | _, _ => None
  end.

Definition a_add (env : Env) (i : nat) (f : frame) (m : Track) (a : nat) (c : conc) : option conc :=
  let w := emit (cw c) (EvAddTrack (f_sub f) a) in
  match AddTrack_err env (GlobalId m), accs w !! a, subs w !! f_sub f with
  | None, Some x, Some s =>
      let snd := sender_of env (GlobalId m) in
      let mid := getMidFromSender env snd in
      let ssid := track_StreamID (a_track x) in
      let track := relabel (CopyTrack m) (track_ID (a_track x)) mid ssid in
      let st := {| pubTrack := track; sid := ssid; st_accepter := a; sender := snd; bindId := mid; st_labels := Labels track |} in
      let w := put_sub w (f_sub f) (set_acceptedTrack s (Some (<[GlobalId m := st]> (tracks_of s)))) in
      Some (goto i (ABind (next_track f true [track]) a) w (s_mu c) (a_mu c) (lost c) c)
  | _, _, _ => Some (goto i Over w (delete (f_sub f) (s_mu c)) (a_mu c) (lost c ++ [(f_sub f, a)]) c)
  end.

Definition a_bind (i : nat) (f : frame) (a : nat) (c : conc) : option conc :=
  match a_mu c !! a, BindSub (cw c) a (f_sub f) with
  | None, Ret w => Some (goto i (ALoop f) w (s_mu c) (a_mu c) (lost c) c)
  | _, _ => None
  end.

Definition u_start (i : nat) (sub : string) (message : SubscribeMessage) (c : conc) : option conc :=
  match s_mu c !! sub, subs (cw c) !! sub, UpdatePattern (cw c) sub message with
  | None, Some s, Ret w => Some (goto i Over w (s_mu c) (a_mu c) (lost c ++ dropped sub s (default s (subs w !! sub))) c)
  | None, _, _ => Some (goto i Over (cw c) (s_mu c) (a_mu c) (lost c) c)
  | Some _, _, _ => None
  end.

Definition c_start (i : nat) (sub : string) (c : conc) : option conc :=
  match s_mu c !! sub, subs (cw c) !! sub with
  | None, Some s =>
      let w := put_sub (cw c) sub {| closed := true; reqTypes := reqTypes s; pattern := pattern s; sctx := sctx s;
                 acceptedPubId := acceptedPubId s; acceptedTrack := acceptedTrack s |} in
      Some (goto i (CUnbind sub (range_tracks (tracks_of s))) w (<[sub := i]> (s_mu c)) (a_mu c) (lost c) c)
  | None, None => Some (goto i Over (cw c) (s_mu c) (a_mu c) (lost c) c)
  | Some _, _ => None
  end.

(** [track.Remove()] of the loop, and on to the next track. *)
Definition close_next (i : nat) (k : rest_of_close) (w : World) (am : gmap nat nat) (c : conc) : option conc :=
  let '(sub, _, st, l) := k in
  match Remove w sub st with
  | Ret w => Some (goto i (CUnbind sub l) w (s_mu c) am (lost c) c)
  | Abort _ => None
  end.

Definition c_unbind (i : nat) (sub : string) (l : list (string * SubscribedTrack)) (c : conc) : option conc :=
  match l with
  | [] =>
      match subs (cw c) !! sub with
      | Some s => Some (goto i Over (put_sub (cw c) sub (set_acceptedTrack s None)) (delete sub (s_mu c)) (a_mu c) (lost c) c)
      | None => None
      end
  | (tid, st) :: l =>
      match track2accepters (cw c) !! tid with
      | None => close_next i (sub, tid, st, l) (cw c) (a_mu c) c
      | Some a =>
          match a_mu c !! a, Accepter_UnbindSub (cw c) a sub with
          | None, Ret w => Some (goto i (CClose a (sub, tid, st, l)) w (s_mu c) (a_mu c) (lost c) c)
          | _, _ => None
          end
      end
  end.

(** The accepter [a] is closed: its mutex is kept for the loop over the subscriptions. *)
Definition k_close (i a : nat) (x : Accepter) (r : Z) (k : option rest_of_close) (c : conc) : conc :=
  let w := put_acc (cw c) a {| a_track := a_track x; a_closed := true; a_subs := a_subs x; ref_count := r |} in
  goto i (KUnbind a (range_set (default ∅ (a_subs x))) k) w (s_mu c) (<[a := i]> (a_mu c)) (lost c) c.

Definition c_close (i a : nat) (k : rest_of_close) (c : conc) : option conc :=
  match a_mu c !! a, accs (cw c) !! a with
  | None, Some x =>
      let r := (ref_count x - 1)%Z in
      if (r =? 0)%Z then Some (k_close i a x r (Some k) c)
      else close_next i k (put_acc (cw c) a {| a_track := a_track x; a_closed := a_closed x; a_subs := a_subs x; ref_count := r |}) (a_mu c) c
  | _, _ => None
  end.

Definition k_start (i a : nat) (c : conc) : option conc :=
  match a_mu c !! a, accs (cw c) !! a with
  | None, Some x => Some (k_close i a x 0 None c)
  | _, _ => None
  end.

(** [UnbindAccepter] of each subscription, under its mutex, then the bindings go. *)
Definition k_unbind (i a : nat) (todo : list string) (k : option rest_of_close) (c : conc) : option conc :=
  match todo with
  | sub :: todo =>
      match s_mu c !! sub, UnbindAccepter None (cw c) sub a with
      | None, Ret w => Some (goto i (KUnbind a todo k) w (s_mu c) (a_mu c) (lost c) c)
      | _, _ => None
      end
  | [] =>
      match accs (cw c) !! a with
      | None => None
      | Some x =>
          let w := put_acc (cw c) a {| a_track := a_track x; a_closed := a_closed x; a_subs := None; ref_count := ref_count x |} in
          match k with
          | None => Some (goto i Over w (s_mu c) (delete a (a_mu c)) (lost c) c)
          | Some k => close_next i k w (delete a (a_mu c)) c
          end
      end
  end.

(** A step of the goroutine [i]; none when it waits or is over. *)
Definition tstep (env : Env) (i : nat) (c : conc) : option conc :=
  t ← ths c !! i;
  match t with
  | AStart sub msg => a_start env i sub msg c
  | ALoop f => a_loop i f c
  | ARef f m a => a_ref i f m a c
  | AAdd f m a => a_add env i f m a c
  | ABind f a => a_bind i f a c
  | UStart sub message => u_start i sub message c
  | CStart sub => c_start i sub c
  | CUnbind sub l => c_unbind i sub l c
  | CClose a k => c_close i a k c
  | KStart a => k_start i a c
  | KUnbind a todo k => k_unbind i a todo k c
  | Over => None
  end.

Definition call (t : thread) : bool :=
  match t with AStart _ _ | UStart _ _ | CStart _ | KStart _ => true | _ => false end.

Definition with_world (w : World) (c : conc) : conc := {| cw := w; s_mu := s_mu c; a_mu := a_mu c; ths := ths c; lost := lost c |}.

(** A goroutine moves, a call is made, a subscription is opened, or something else of the router changes. *)
Inductive cstep (c : conc) : conc -> Prop :=
  | cs_move env i c' : tstep env i c = Some c' -> cstep c c'
  | cs_call t : call t = true -> cstep c {| cw := cw c; s_mu := s_mu c; a_mu := a_mu c; ths := ths c ++ [t]; lost := lost c |}
  | cs_subscribe sub ctx message :
      subs (cw c) !! sub = None -> s_mu c !! sub = None ->
      cstep c (with_world (put_sub (cw c) sub (new_subscription ctx message)) c)
  | cs_other w : same_store (cw c) w -> cstep c (with_world w c).

Definition conc0 (id : list Z) (addr : string) : conc :=
  {| cw := NewRouter id addr; s_mu := ∅; a_mu := ∅; ths := []; lost := [] |}.

End Conc.

(** ** Counting *)

Section Count.
Context `{Uuid, Webrtc, MapOrder}.
Implicit Types (w : World) (s : Subscription) (x : Accepter) (st : SubscribedTrack) (c : conc) (t : thread).

Definition b2n (P : Prop) {D : Decision P} : nat := if decide P then 1 else 0.

Lemma b2n_iff (P Q : Prop) {DP : Decision P} {DQ : Decision Q} : (P <-> Q) -> b2n P = b2n Q.
Proof. unfold b2n. intros E. by repeat case_decide; tauto. Qed.

Lemma filter_none {A} (P : A -> Prop) `{forall y, Decision (P y)} (l : list A) : (forall y, y ∈ l -> ~ P y) -> filter P l = [].
Proof.
  induction l as [|y l IH]; intros Hl; [done|]. rewrite filter_cons_False by (apply Hl; left). apply IH. intros z Hz. apply Hl. by right.
Qed.

Lemma b2n_true (P : Prop) {D : Decision P} : P -> b2n P = 1.
Proof. intros HP. unfold b2n. by rewrite decide_True. Qed.
Lemma b2n_false (P : Prop) {D : Decision P} : ~ P -> b2n P = 0.
Proof. intros HP. unfold b2n. by rewrite decide_False. Qed.

(** How many subscriptions hold a track of the accepter [k]. *)
Definition holders w (k : nat) : nat := size (filter (fun kv : string * Subscription => held_by kv.2 k) (subs w)).

Definition at_add (k : nat) t : Prop := match t with AAdd _ _ a => a = k | _ => False end.
#[global] Instance at_add_dec k t : Decision (at_add k t).
Proof. destruct t; cbn; apply _. Defined.

(** How many goroutines have a reference to it for a track they have not stored yet. *)
Definition adding c (k : nat) : nat := length (filter (at_add k) (ths c)).
(** How many references to it are lost. *)
Definition leaks c (k : nat) : nat := length (filter (fun p : string * nat => p.2 = k) (lost c)).

Lemma holders_put w w' sub s s' k :
  subs w !! sub = Some s -> subs w' = <[sub := s']> (subs w) -> holders w' k + b2n (held_by s k) = holders w k + b2n (held_by s' k).
Proof.
  intros Hs S. unfold holders. rewrite S. set (P := fun kv : string * Subscription => held_by kv.2 k).
  assert (forall s0, size (filter P (<[sub := s0]> (subs w))) = size (filter P (delete sub (subs w))) + b2n (held_by s0 k)) as Hsz.
  { intros s0. rewrite map_filter_insert. unfold b2n. change (P (sub, s0)) with (held_by s0 k). destruct (decide (held_by s0 k)); [|lia].
    rewrite <- insert_delete_eq, map_size_insert_None by (apply lookup_delete_eq). rewrite map_filter_delete. lia. }
  rewrite (Hsz s'). rewrite <- (insert_id (subs w) sub s Hs) at 2. rewrite (Hsz s). lia.
Qed.

Lemma holders_new w w' sub s' k :
  subs w !! sub = None -> subs w' = <[sub := s']> (subs w) -> holders w' k = holders w k + b2n (held_by s' k).
Proof.
  intros Hs S. unfold holders. rewrite S, map_filter_insert. cbn [snd]. unfold b2n. destruct (decide (held_by s' k)).
  - rewrite map_size_insert_None; [lia|]. apply map_lookup_filter_None. by left.
  - rewrite delete_id by done. lia.
Qed.

Lemma adding_put c c' i t t' k :
  ths c !! i = Some t -> ths c' = <[i := t']> (ths c) -> adding c' k + b2n (at_add k t) = adding c k + b2n (at_add k t').
Proof.
  intros Hi E. unfold adding. rewrite E. clear E. revert i Hi. induction (ths c) as [|y l IH]; intros [|i] Hi; [done..| |]; cbn in Hi.
  - injection Hi as ->. change (<[0 := t']> (t :: l)) with (t' :: l). rewrite !filter_cons. unfold b2n. repeat case_decide; cbn; lia.
  - specialize (IH i Hi). change (<[S i := t']> (y :: l)) with (y :: <[i := t']> l). rewrite !filter_cons. case_decide; cbn; lia.
Qed.

Lemma leaks_app c c' l k : lost c' = lost c ++ l -> leaks c' k = leaks c k + length (filter (fun p : string * nat => p.2 = k) l).
Proof. intros E. unfold leaks. by rewrite E, filter_app, length_app. Qed.

Lemma count_nodup (l : list nat) k : NoDup l -> length (filter (fun y => y = k) l) = b2n (k ∈ l).
Proof.
  unfold b2n. induction 1 as [|y l Hy Hl IH]; [by rewrite decide_False by apply not_elem_of_nil|]. rewrite filter_cons. destruct (decide (y = k)) as [->|Hne].
  - rewrite decide_False in IH by done. rewrite decide_True by left. cbn. lia.
  - rewrite IH. apply decide_ext. rewrite elem_of_cons. naive_solver.
Qed.

(** The references of dropped tracks are counted as lost. *)
Lemma dropped_count sub s s' k :
  NoDup (acc_ids s) -> (held_by s' k -> held_by s k) ->
  length (filter (fun p : string * nat => p.2 = k) (dropped sub s s')) + b2n (held_by s' k) = b2n (held_by s k).
Proof.
  intros Hnd Hs. unfold dropped.
  assert (forall l, length (filter (fun p : string * nat => p.2 = k) (pair sub <$> l)) = length (filter (fun y => y = k) l)) as ->.
  { induction l as [|y l IH]; [done|]. change (pair sub <$> y :: l) with ((sub, y) :: (pair sub <$> l)). rewrite !filter_cons. cbn [snd]. case_decide; cbn [length]; lia. }
  rewrite count_nodup by (by apply NoDup_filter). unfold b2n.
  destruct (decide (held_by s' k)) as [Hh|Hh].
  - rewrite decide_False by (rewrite list_elem_of_filter; tauto). by rewrite decide_True by auto.
  - rewrite Nat.add_0_r. apply decide_ext. rewrite list_elem_of_filter. unfold acc_ids. rewrite <- held_by_elem. tauto.
Qed.

Definition acct c (k : nat) : nat := holders (cw c) k + adding c k + leaks c k.
End Count.

(** ** The invariant *)

Section Inv.
Context `{Uuid, Webrtc, MapOrderLaws}.
Implicit Types (w : World) (s : Subscription) (x : Accepter) (st : SubscribedTrack) (c : conc) (t : thread).

(** The subscription whose mutex a goroutine holds. *)
Definition section t : option string :=
  match t with
  | ALoop f | ARef f _ _ | AAdd f _ _ | ABind f _ => Some (f_sub f)
  | CUnbind sub _ | CClose _ (sub, _, _, _) | KUnbind _ _ (Some (sub, _, _, _)) => Some sub
  | _ => None
  end.

(** A goroutine between storing a track and [BindSub], or between [UnbindSub] and [Accepter.Close(false)]. *)
Definition between t (sub : string) (k : nat) : Prop :=
  match t with ABind f a => f_sub f = sub /\ a = k | CClose a (o, _, _, _) => o = sub /\ a = k | _ => False end.

Definition closing t (sub : string) : Prop :=
  match t with CUnbind o _ | CClose _ (o, _, _, _) | KUnbind _ _ (Some (o, _, _, _)) => o = sub | _ => False end.

(** What [Subscription.Close] has left to do are the tracks the subscription still holds. *)
Definition to_close w (sub : string) (l : list (string * SubscribedTrack)) : Prop :=
  exists s, subs w !! sub = Some s /\ closed s = true /\ tracks_of s = list_to_map l /\ NoDup l.*1.

Definition opened w (sub : string) (P : Subscription -> Prop) : Prop := exists s, subs w !! sub = Some s /\ closed s = false /\ P s.

Definition thread_ok w t : Prop :=
  match t with
  | ALoop f => opened w (f_sub f) (fun _ => True)
  | ARef f m a | AAdd f m a => opened w (f_sub f) (fun s => tracks_of s !! GlobalId m = None) /\ track2accepters w !! GlobalId m = Some a
  | ABind f a => opened w (f_sub f) (fun s => held_by s a)
  | CUnbind sub l => to_close w sub l
  | CClose a (sub, g, st, l) => to_close w sub ((g, st) :: l) /\ st_accepter st = a /\ exists x, accs w !! a = Some x /\ sub ∉ bound x
  | KUnbind a _ k =>
      (exists x, accs w !! a = Some x /\ a_closed x = true) /\
      match k with Some (sub, g, st, l) => to_close w sub ((g, st) :: l) /\ st_accepter st = a | None => True end
  | _ => True
  end.

Record cinv c : Prop := {
  ci_reg sub s g st : subs (cw c) !! sub = Some s -> tracks_of s !! g = Some st ->
    GlobalId (pubTrack st) = g /\ track2accepters (cw c) !! g = Some (st_accepter st);
  ci_t2a g k : track2accepters (cw c) !! g = Some k -> k < length (accs (cw c));
  ci_inj g1 g2 k : track2accepters (cw c) !! g1 = Some k -> track2accepters (cw c) !! g2 = Some k -> g1 = g2;
  ci_ref k x : accs (cw c) !! k = Some x -> a_closed x = false -> (1 <= ref_count x)%Z /\ ref_count x = Z.of_nat (acct c k);
  ci_bound k x sub : accs (cw c) !! k = Some x -> a_closed x = false -> sub ∈ bound x -> sub_holds (cw c) sub k \/ (sub, k) ∈ lost c;
  ci_held k x sub : accs (cw c) !! k = Some x -> a_closed x = false -> sub_holds (cw c) sub k ->
    sub ∈ bound x \/ exists i t, ths c !! i = Some t /\ between t sub k;
  ci_closed sub s : subs (cw c) !! sub = Some s -> closed s = true -> tracks_of s = ∅ \/ exists i t, ths c !! i = Some t /\ closing t sub;
  ci_sec i t sub : ths c !! i = Some t -> section t = Some sub -> s_mu c !! sub = Some i;
  ci_thr i t : ths c !! i = Some t -> thread_ok (cw c) t;
  ci_lost p : p ∈ lost c -> p.2 < length (accs (cw c))
}.

(** What a step may do to the store: one subscription changes, nothing is taken out, nobody is opened again, and only the binding of
    this subscription comes or goes. *)
Record evolves w w' (sub : string) : Prop := {
  ev_subs o : o <> sub -> subs w' !! o = subs w !! o;
  ev_t2a g k : track2accepters w !! g = Some k -> track2accepters w' !! g = Some k;
  ev_fwd k x : accs w !! k = Some x ->
    exists x', accs w' !! k = Some x' /\ (a_closed x = true -> a_closed x' = true) /\ bound x' ⊆ {[sub]} ∪ bound x;
  ev_bwd k x' : accs w' !! k = Some x' -> a_closed x' = false ->
    (exists x, accs w !! k = Some x /\ a_closed x = false /\ bound x' ⊆ {[sub]} ∪ bound x /\ bound x ⊆ {[sub]} ∪ bound x') \/
    (accs w !! k = None /\ bound x' = ∅)
}.

Lemma evolves_subs w w' sub :
  accs w' = accs w -> track2accepters w' = track2accepters w -> (forall o, o <> sub -> subs w' !! o = subs w !! o) -> evolves w w' sub.
Proof.
  intros A T S. split; [done|by rewrite T|..]; rewrite A; intros k x Hx; [|intros Hop; left]; exists x; split_and!; try done; set_solver.
Qed.

Lemma evolves_acc w w' sub a x x' :
  accs w !! a = Some x -> accs w' = <[a := x']> (accs w) -> track2accepters w' = track2accepters w ->
  (forall o, o <> sub -> subs w' !! o = subs w !! o) -> (a_closed x = true -> a_closed x' = true) ->
  bound x' ⊆ {[sub]} ∪ bound x -> (a_closed x' = false -> bound x ⊆ {[sub]} ∪ bound x') -> evolves w w' sub.
Proof.
  intros Ha A T S Hc Hb1 Hb2. assert (a < length (accs w)) as Hlt by (by eapply lookup_lt_Some). split; [done|by rewrite T|..]; rewrite A.
  - intros k y Hy. destruct (decide (k = a)) as [->|Hne].
    + exists x'. rewrite list_lookup_insert_eq by done. assert (y = x) as -> by congruence. done.
    + exists y. rewrite list_lookup_insert_ne by done. split_and!; try done. set_solver.
  - intros k y Hy Hop. left. apply list_lookup_insert_Some in Hy as [(<- & <- & _)|[Hne Hy]].
    + exists x. split_and!; try done; [|auto]. destruct (a_closed x); [by rewrite Hc in Hop|done].
    + exists y. split_and!; try done; set_solver.
Qed.

Lemma to_close_same w w' sub l : subs w' !! sub = subs w !! sub -> to_close w sub l -> to_close w' sub l.
Proof. intros E (s & ?). exists s. by rewrite E. Qed.
Lemma opened_same w w' sub P : subs w' !! sub = subs w !! sub -> opened w sub P -> opened w' sub P.
Proof. intros E (s & ?). exists s. by rewrite E. Qed.

Lemma thread_ok_evolves w w' sub t : evolves w w' sub -> section t <> Some sub -> thread_ok w t -> thread_ok w' t.
Proof.
  intros E Hs. assert (forall o, section t = Some o -> subs w' !! o = subs w !! o) as Hsame.
  { intros o Ho. apply (ev_subs _ _ _ E). congruence. }
  destruct t as [| f| f m a| f m a| f a| | |o l|a [[[o g] st] l]|a|a todo [[[[o g] st] l]|]|]; cbn [thread_ok section] in *; try done.
  - apply opened_same. by apply Hsame.
  - intros [Ho Ht]. split; [eapply opened_same; [|exact Ho]; by apply Hsame|]. by apply (ev_t2a _ _ _ E).
  - intros [Ho Ht]. split; [eapply opened_same; [|exact Ho]; by apply Hsame|]. by apply (ev_t2a _ _ _ E).
  - apply opened_same. by apply Hsame.
  - apply to_close_same. by apply Hsame.
  - intros (Hc & Ha & x & Hx & Hn). split; [eapply to_close_same; [|exact Hc]; by apply Hsame|]. split; [done|].
    destruct (ev_fwd _ _ _ E a x Hx) as (y & Hy & _ & Hb). exists y. split; [done|]. set_solver.
  - intros [(x & Hx & Hc) Hk]. split; [destruct (ev_fwd _ _ _ E a x Hx) as (y & Hy & Hcy & _); exists y; auto|].
    destruct Hk as [Hk Ha]. split; [|done]. eapply to_close_same; [|exact Hk]. by apply Hsame.
  - intros [(x & Hx & Hc) Hk]. split; [destruct (ev_fwd _ _ _ E a x Hx) as (y & Hy & Hcy & _); exists y; auto|done].
Qed.

(** ** The steps keep the invariant *)

Lemma sub_holds_lookup w sub s k : subs w !! sub = Some s -> sub_holds w sub k <-> held_by s k.
Proof. intros Hs. unfold sub_holds. by rewrite Hs. Qed.

Lemma sub_holds_same w w' sub k : subs w' !! sub = subs w !! sub -> sub_holds w' sub k <-> sub_holds w sub k.
Proof. intros E. unfold sub_holds. by rewrite E. Qed.

(** What the goroutine [i] owes when it goes from [t] to [t'] and changes the subscription [sub]. *)
Record owes c c' (i : nat) t t' (sub : string) : Prop := {
  ow_ths : ths c' = <[i := t']> (ths c);
  ow_mu : s_mu c !! sub = None \/ s_mu c !! sub = Some i;
  ow_ev : evolves (cw c) (cw c') sub;
  ow_lock j o : j <> i -> s_mu c !! o = Some j -> s_mu c' !! o = Some j;
  ow_sec o : section t' = Some o -> s_mu c' !! o = Some i;
  ow_thr : thread_ok (cw c') t';
  ow_reg s' g st : subs (cw c') !! sub = Some s' -> tracks_of s' !! g = Some st ->
    GlobalId (pubTrack st) = g /\ track2accepters (cw c') !! g = Some (st_accepter st);
  ow_t2a g k : track2accepters (cw c') !! g = Some k -> k < length (accs (cw c'));
  ow_inj g1 g2 k : track2accepters (cw c') !! g1 = Some k -> track2accepters (cw c') !! g2 = Some k -> g1 = g2;
  ow_ref k x : accs (cw c') !! k = Some x -> a_closed x = false -> (1 <= ref_count x)%Z /\ ref_count x = Z.of_nat (acct c' k);
  ow_lost p : p ∈ lost c -> p ∈ lost c';
  ow_bound k x : accs (cw c') !! k = Some x -> a_closed x = false -> sub ∈ bound x -> sub_holds (cw c') sub k \/ (sub, k) ∈ lost c';
  ow_held k x : accs (cw c') !! k = Some x -> a_closed x = false -> sub_holds (cw c') sub k -> sub ∈ bound x \/ between t' sub k;
  ow_between o k : between t o k -> o = sub;
  ow_closed s' : subs (cw c') !! sub = Some s' -> closed s' = true -> tracks_of s' = ∅ \/ closing t' sub;
  ow_closing o : o <> sub -> closing t o -> closing t' o;
  ow_low p : p ∈ lost c' -> p.2 < length (accs (cw c'))
}.

Lemma lookup_moved c c' i t t' j y : ths c !! i = Some t -> ths c' = <[i := t']> (ths c) -> ths c' !! j = Some y -> (j = i /\ y = t') \/ (j <> i /\ ths c !! j = Some y).
Proof. intros Hi -> Hj. apply list_lookup_insert_Some in Hj as [(<- & <- & _)|[Hne Hj]]; auto. Qed.

Lemma moved_other c c' i t' j y : ths c' = <[i := t']> (ths c) -> j <> i -> ths c !! j = Some y -> ths c' !! j = Some y.
Proof. intros -> Hne Hj. by rewrite list_lookup_insert_ne. Qed.

Lemma owes_cinv c c' i t t' sub : cinv c -> ths c !! i = Some t -> owes c c' i t t' sub -> cinv c'.
Proof.
  intros I Hi O. pose proof (ow_ev _ _ _ _ _ _ O) as E.
  assert (ths c' !! i = Some t') as Hi'.
  { rewrite (ow_ths _ _ _ _ _ _ O). apply list_lookup_insert_eq. by eapply lookup_lt_Some. }
  assert (forall o k, o <> sub -> sub_holds (cw c') o k <-> sub_holds (cw c) o k) as Hsame.
  { intros o k Hne. apply sub_holds_same. by apply (ev_subs _ _ _ E). }
  split.
  - intros o s g st Ho Ht. destruct (decide (o = sub)) as [->|Hne]; [by eapply (ow_reg _ _ _ _ _ _ O)|].
    rewrite (ev_subs _ _ _ E) in Ho by done. destruct (ci_reg _ I _ _ _ _ Ho Ht) as [? Hg]. split; [done|]. by apply (ev_t2a _ _ _ E).
  - apply (ow_t2a _ _ _ _ _ _ O).
  - apply (ow_inj _ _ _ _ _ _ O).
  - apply (ow_ref _ _ _ _ _ _ O).
  - intros k x o Hx Hop Hb. destruct (decide (o = sub)) as [->|Hne]; [by eapply (ow_bound _ _ _ _ _ _ O)|].
    destruct (ev_bwd _ _ _ E k x Hx Hop) as [(y & Hy & Hyo & Hb1 & _)|[_ Hb0]]; [|rewrite Hb0 in Hb; by apply not_elem_of_empty in Hb].
    destruct (ci_bound _ I k y o Hy Hyo ltac:(set_solver)) as [Hh|Hl]; [left; by apply Hsame|right; by apply (ow_lost _ _ _ _ _ _ O)].
  - intros k x o Hx Hop Hh. destruct (decide (o = sub)) as [->|Hne].
    { destruct (ow_held _ _ _ _ _ _ O k x Hx Hop Hh) as [?|?]; [by left|right; eauto]. }
    apply Hsame in Hh; [|done]. destruct (ev_bwd _ _ _ E k x Hx Hop) as [(y & Hy & Hyo & _ & Hb2)|[Hno _]].
    + destruct (ci_held _ I k y o Hy Hyo Hh) as [Hb|(j & u & Hj & Hu)]; [left; set_solver|]. right. exists j, u. split; [|done].
      eapply moved_other; [apply (ow_ths _ _ _ _ _ _ O)| |done]. intros ->. assert (u = t) as -> by congruence. by apply (ow_between _ _ _ _ _ _ O) in Hu.
    + exfalso. unfold sub_holds in Hh. destruct (subs (cw c) !! o) as [so|] eqn:Hso; [|done]. destruct Hh as (g & st & Hg & <-).
      destruct (ci_reg _ I _ _ _ _ Hso Hg) as [_ Hg2]. apply (ci_t2a _ I) in Hg2. apply lookup_ge_None in Hno. lia.
  - intros o s Ho Hc. destruct (decide (o = sub)) as [->|Hne].
    { destruct (ow_closed _ _ _ _ _ _ O s Ho Hc) as [?|?]; [by left|right; eauto]. }
    rewrite (ev_subs _ _ _ E) in Ho by done. destruct (ci_closed _ I _ _ Ho Hc) as [?|(j & u & Hj & Hu)]; [by left|]. right.
    destruct (decide (j = i)) as [->|Hj2].
    + assert (u = t) as -> by congruence. exists i, t'. split; [done|]. by apply (ow_closing _ _ _ _ _ _ O).
    + exists j, u. split; [|done]. eapply moved_other; [apply (ow_ths _ _ _ _ _ _ O)|done|done].
  - intros j y o Hj Hs. destruct (lookup_moved _ _ _ _ _ _ _ Hi (ow_ths _ _ _ _ _ _ O) Hj) as [[-> ->]|[Hne Hj']]; [by apply (ow_sec _ _ _ _ _ _ O)|].
    apply (ow_lock _ _ _ _ _ _ O); [done|]. by eapply ci_sec.
  - intros j y Hj. destruct (lookup_moved _ _ _ _ _ _ _ Hi (ow_ths _ _ _ _ _ _ O) Hj) as [[-> ->]|[Hne Hj']]; [apply (ow_thr _ _ _ _ _ _ O)|].
    eapply thread_ok_evolves; [exact E| |by eapply ci_thr]. intros Hs. pose proof (ci_sec _ I _ _ _ Hj' Hs) as Hm.
    destruct (ow_mu _ _ _ _ _ _ O) as [?|?]; congruence.
  - apply (ow_low _ _ _ _ _ _ O).
Qed.

(** A subscription whose mutex is free, or held by a goroutine that is not between, is bound to what it holds. *)
Lemma held_bound c sub k x :
  cinv c -> accs (cw c) !! k = Some x -> a_closed x = false -> sub_holds (cw c) sub k ->
  (s_mu c !! sub = None \/ exists i t, s_mu c !! sub = Some i /\ ths c !! i = Some t /\ ~ between t sub k) -> sub ∈ bound x.
Proof.
  intros I Hx Hop Hh Hmu. destruct (ci_held _ I k x sub Hx Hop Hh) as [?|(j & u & Hj & Hu)]; [done|]. exfalso.
  assert (section u = Some sub) as Hs by (destruct u as [| | | |f a| | | |a [[[o g] st] l]| | |]; cbn in Hu |- *; try done; naive_solver).
  pose proof (ci_sec _ I _ _ _ Hj Hs) as Hm. destruct Hmu as [?|(i & t & Hi & Ht & Hn)]; [congruence|].
  assert (i = j) as -> by congruence. assert (u = t) as -> by congruence. done.
Qed.

(** A closed one holds nothing unless it is being closed. *)
Lemma closed_empty c sub s :
  cinv c -> subs (cw c) !! sub = Some s -> closed s = true ->
  (s_mu c !! sub = None \/ exists i t, s_mu c !! sub = Some i /\ ths c !! i = Some t /\ ~ closing t sub) -> tracks_of s = ∅.
Proof.
  intros I Hs Hc Hmu. destruct (ci_closed _ I _ _ Hs Hc) as [?|(j & u & Hj & Hu)]; [done|]. exfalso.
  assert (section u = Some sub) as Hse by (destruct u as [| | | | | | | |a [[[o g] st] l]| |a todo [[[[o g] st] l]|]|]; cbn in Hu |- *; congruence || done).
  pose proof (ci_sec _ I _ _ _ Hj Hse) as Hm. destruct Hmu as [?|(i & t & Hi & Ht & Hn)]; [congruence|].
  assert (i = j) as -> by congruence. assert (u = t) as -> by congruence. done.
Qed.

Lemma cinv_keys c sub s : cinv c -> subs (cw c) !! sub = Some s -> keys_ok s.
Proof. intros I Hs g st Ht. by destruct (ci_reg _ I _ _ _ _ Hs Ht). Qed.

(** A subscription holds at most one track of an accepter. *)
Lemma held_once c sub s g g' st st' :
  cinv c -> subs (cw c) !! sub = Some s -> tracks_of s !! g = Some st -> tracks_of s !! g' = Some st' -> st_accepter st = st_accepter st' -> g = g'.
Proof.
  intros I Hs Hg Hg' E. destruct (ci_reg _ I _ _ _ _ Hs Hg) as [_ H3]. destruct (ci_reg _ I _ _ _ _ Hs Hg') as [_ H4].
  rewrite E in H3. by eapply ci_inj.
Qed.

Lemma acc_ids_nodup c sub s : cinv c -> subs (cw c) !! sub = Some s -> NoDup (acc_ids s).
Proof.
  intros I Hs. unfold acc_ids. rewrite <- list_fmap_compose.
  assert (forall l : list (string * SubscribedTrack), NoDup l.*1 -> (forall g st, (g, st) ∈ l -> tracks_of s !! g = Some st) -> NoDup ((st_accepter ∘ snd) <$> l)) as Hl.
  { induction l as [|[g st] l IH]; [constructor|]. cbn. intros [Hn Hnd]%NoDup_cons Hin. constructor.
    - intros ([g' st'] & E & Hin')%list_elem_of_fmap. cbn in E. apply Hn, list_elem_of_fmap. exists (g', st'). split; [|done]. cbn.
      eapply held_once; [exact I|exact Hs|apply Hin; left|apply Hin; by right|done].
    - apply IH; [done|]. intros g' st' Hi. apply Hin. by right. }
  apply Hl; [apply NoDup_fst_map_to_list|]. intros g st. apply elem_of_map_to_list.
Qed.

Lemma acct_put c c' i t t' sub s s' k :
  ths c !! i = Some t -> ths c' = <[i := t']> (ths c) -> subs (cw c) !! sub = Some s -> subs (cw c') = <[sub := s']> (subs (cw c)) -> lost c' = lost c ->
  acct c' k + b2n (held_by s k) + b2n (at_add k t) = acct c k + b2n (held_by s' k) + b2n (at_add k t').
Proof.
  intros Hi Ht Hs S L. unfold acct, leaks. rewrite L. pose proof (holders_put _ _ _ _ _ k Hs S). pose proof (adding_put _ _ _ _ _ k Hi Ht). lia.
Qed.

Lemma acct_thread c c' i t t' k :
  ths c !! i = Some t -> ths c' = <[i := t']> (ths c) -> subs (cw c') = subs (cw c) -> lost c' = lost c ->
  acct c' k + b2n (at_add k t) = acct c k + b2n (at_add k t').
Proof. intros Hi Ht S L. unfold acct, leaks, holders. rewrite L, S. pose proof (adding_put _ _ _ _ _ k Hi Ht). lia. Qed.

(** The goroutine moves on, or ends and gives its mutex back, without touching the store. *)
Lemma quiet_cinv c c' i t t' sub :
  cinv c -> ths c !! i = Some t -> section t = Some sub -> ths c' = <[i := t']> (ths c) -> same_store (cw c) (cw c') -> lost c' = lost c ->
  (s_mu c' = s_mu c /\ section t' = Some sub \/ s_mu c' = delete sub (s_mu c) /\ section t' = None) ->
  thread_ok (cw c') t' -> (forall k, ~ at_add k t) -> (forall k, ~ at_add k t') -> (forall o k, ~ between t o k) -> (forall o, ~ closing t o) -> cinv c'.
Proof.
  intros I Hi Hsec Ht (A & T & S) L Hmu Hok Ha Ha' Hb Hc. pose proof (ci_sec _ I _ _ _ Hi Hsec) as Hm.
  assert (forall o k, sub_holds (cw c') o k <-> sub_holds (cw c) o k) as Hh by (intros; apply sub_holds_same; by rewrite S).
  apply (owes_cinv c c' i t t' sub I Hi). split; try done.
  - by right.
  - apply evolves_subs; [done|done|]. by rewrite S.
  - intros j o Hne Ho. destruct Hmu as [[-> _]|[-> _]]; [done|]. rewrite lookup_delete_ne; [done|]. congruence.
  - intros o Ho. destruct Hmu as [[-> Ho2]|[_ Ho2]]; [|congruence]. congruence.
  - rewrite S, T. apply (ci_reg _ I).
  - rewrite A, T. apply (ci_t2a _ I).
  - rewrite T. apply (ci_inj _ I).
  - intros k x. rewrite A. intros Hx Hop. destruct (ci_ref _ I k x Hx Hop) as [Hr Er]. split; [done|]. rewrite Er.
    pose proof (acct_thread _ _ _ _ _ k Hi Ht S L) as E. unfold b2n in E. rewrite !decide_False in E by auto. lia.
  - by rewrite L.
  - intros k x. rewrite A, L. intros Hx Hop Hx'. rewrite Hh. by eapply ci_bound.
  - intros k x. rewrite A. intros Hx Hop Hx'. left. eapply held_bound; [exact I|done|done|by apply Hh|]. right. exists i, t. auto.
  - intros o k Ho. by destruct (Hb o k).
  - intros s' Hs' Hcl. left. rewrite S in Hs'. eapply closed_empty; [exact I|done|done|]. right. exists i, t. auto.
  - intros o _ Ho. by destruct (Hc o).
  - rewrite L, A. apply (ci_lost _ I).
Qed.

Lemma held_by_sub s s' k : tracks_of s' ⊆ tracks_of s -> held_by s' k -> held_by s k.
Proof. intros Hs (g & st & Hg & Hk). exists g, st. split; [|done]. by eapply lookup_weaken. Qed.

(** A step that takes tracks from one subscription and leaves the accepters alone. *)
Lemma sub_cinv c c' i t t' sub s s' :
  cinv c -> ths c !! i = Some t -> s_mu c !! sub = None \/ s_mu c !! sub = Some i -> ths c' = <[i := t']> (ths c) ->
  accs (cw c') = accs (cw c) -> track2accepters (cw c') = track2accepters (cw c) ->
  subs (cw c) !! sub = Some s -> subs (cw c') = <[sub := s']> (subs (cw c)) -> (forall p, p ∈ lost c -> p ∈ lost c') -> (forall p, p ∈ lost c' -> p.2 < length (accs (cw c))) ->
  (forall k x, accs (cw c) !! k = Some x -> a_closed x = false -> acct c' k = acct c k) ->
  (forall j o, j <> i -> s_mu c !! o = Some j -> s_mu c' !! o = Some j) -> (forall o, section t' = Some o -> s_mu c' !! o = Some i) ->
  thread_ok (cw c') t' -> tracks_of s' ⊆ tracks_of s ->
  (forall k x, accs (cw c) !! k = Some x -> a_closed x = false -> held_by s k -> held_by s' k \/ (sub, k) ∈ lost c') ->
  (forall o k, ~ between t o k) -> (closed s' = true -> tracks_of s' = ∅ \/ closing t' sub) -> (forall o, o <> sub -> closing t o -> closing t' o) -> cinv c'.
Proof.
  intros I Hi Hmu Ht A T Hs S L Hlow Hac Hlk Hse Hok Htr Hb Hbt Hcl Hcg.
  assert (subs (cw c') !! sub = Some s') as Hs' by (rewrite S; apply lookup_insert_eq).
  apply (owes_cinv c c' i t t' sub I Hi). split; try done.
  - apply evolves_subs; [done|done|]. intros o Hne. by rewrite S, lookup_insert_ne.
  - intros s0 g st Hs0 Hg. assert (s0 = s') as -> by congruence. rewrite T. eapply ci_reg; [exact I|exact Hs|]. by eapply lookup_weaken.
  - rewrite A, T. apply (ci_t2a _ I).
  - rewrite T. apply (ci_inj _ I).
  - intros k x. rewrite A. intros Hx Hop. rewrite (Hac k x Hx Hop). by apply (ci_ref _ I).
  - intros k x. rewrite A. intros Hx Hop Hx'. rewrite (sub_holds_lookup _ _ _ _ Hs').
    destruct (ci_bound _ I k x sub Hx Hop Hx') as [Hh|Hl]; [|right; by apply L]. apply (sub_holds_lookup _ _ _ _ Hs) in Hh. by eapply Hb.
  - intros k x. rewrite A. intros Hx Hop Hx'. left. eapply held_bound; [exact I|done|done| |].
    + apply (sub_holds_lookup _ _ _ _ Hs). apply (sub_holds_lookup _ _ _ _ Hs') in Hx'. by eapply held_by_sub.
    + destruct Hmu as [?|?]; [by left|right]. exists i, t. auto.
  - intros o k Ho. by destruct (Hbt o k).
  - intros s0 Hs0 Hc. assert (s0 = s') as -> by congruence. auto.
  - by rewrite A.
Qed.

Lemma lock_free c i sub : s_mu c !! sub = None -> forall j o, j <> i -> s_mu c !! o = Some j -> <[sub := i]> (s_mu c) !! o = Some j.
Proof. intros Hn j o Hne Ho. rewrite lookup_insert_ne; [done|]. congruence. Qed.

Lemma unlock_own c i sub : s_mu c !! sub = Some i -> forall j o, j <> i -> s_mu c !! o = Some j -> delete sub (s_mu c) !! o = Some j.
Proof. intros Hn j o Hne Ho. rewrite lookup_delete_ne; [done|]. congruence. Qed.

(** [AcceptTrack] before its loop, and [UpdatePattern]: dropped tracks are lost. *)
Lemma drop_cinv c c' i t t' sub s s' :
  cinv c -> ths c !! i = Some t -> call t = true -> s_mu c !! sub = None -> ths c' = <[i := t']> (ths c) ->
  accs (cw c') = accs (cw c) -> track2accepters (cw c') = track2accepters (cw c) ->
  subs (cw c) !! sub = Some s -> subs (cw c') = <[sub := s']> (subs (cw c)) -> lost c' = lost c ++ dropped sub s s' ->
  tracks_of s' ⊆ tracks_of s -> closed s' = closed s ->
  (t' = Over /\ s_mu c' = s_mu c \/ exists f, t' = ALoop f /\ f_sub f = sub /\ closed s' = false /\ s_mu c' = <[sub := i]> (s_mu c)) -> cinv c'.
Proof.
  intros I Hi Hcall Hmu Ht A T Hs S L Htr Hcl Ht'.
  assert (subs (cw c') !! sub = Some s') as Hs' by (rewrite S; apply lookup_insert_eq).
  assert (forall k, ~ at_add k t) as Hna by (destruct t; try discriminate Hcall; by intros k []).
  assert (forall k, ~ at_add k t') as Hna' by (destruct Ht' as [[-> _]|(f & -> & _)]; by intros k []).
  apply (sub_cinv c c' i t t' sub s s' I Hi); try done; [by left|..].
  - intros p Hp. rewrite L. apply elem_of_app. by left.
  - intros p. rewrite L. intros [Hp|Hp]%elem_of_app; [by apply (ci_lost _ I)|]. unfold dropped in Hp. apply list_elem_of_fmap in Hp as (k & -> & Hk). cbn [snd].
    apply list_elem_of_filter in Hk as [_ Hk]. unfold acc_ids in Hk. apply held_by_elem in Hk as (g & st & Hg & <-).
    destruct (ci_reg _ I _ _ _ _ Hs Hg) as [_ Hr]. by apply (ci_t2a _ I) in Hr.
  - intros k x _ _. unfold acct. rewrite (leaks_app _ _ _ k L). pose proof (holders_put _ _ _ _ _ k Hs S). pose proof (adding_put _ _ _ _ _ k Hi Ht) as Ea.
    pose proof (dropped_count sub s s' k (acc_ids_nodup _ _ _ I Hs) (held_by_sub _ _ k Htr)). unfold b2n at 1 2 in Ea. rewrite !decide_False in Ea by done. lia.
  - intros j o Hne Ho. destruct Ht' as [[_ ->]|(f & _ & _ & _ & ->)]; [done|]. by apply lock_free.
  - intros o Ho. destruct Ht' as [[-> _]|(f & -> & Ef & _ & ->)]; [done|]. cbn in Ho. rewrite Ef in Ho. injection Ho as <-. apply lookup_insert_eq.
  - destruct Ht' as [[-> _]|(f & -> & Ef & Hop & _)]; [done|]. cbn. rewrite Ef. by exists s'.
  - intros k x _ _ Hk. destruct (decide (held_by s' k)) as [?|Hn]; [by left|]. right. rewrite L. apply elem_of_app. right. unfold dropped.
    apply list_elem_of_fmap. exists k. split; [done|]. apply list_elem_of_filter. split; [done|]. by apply held_by_elem.
  - destruct t; try discriminate Hcall; by intros o k [].
  - rewrite Hcl. intros Hc. left. assert (tracks_of s = ∅) as E by (eapply closed_empty; [exact I|done|done|by left]).
    apply map_eq. intros g. rewrite lookup_empty. destruct (tracks_of s' !! g) as [st|] eqn:Hg; [|done].
    apply (lookup_weaken _ _ _ _ Hg) in Htr. by rewrite E, lookup_empty in Htr.
  - intros o _ Ho. destruct t; try discriminate Hcall; by destruct Ho.
Qed.

Lemma without_sub gids s : tracks_of (without gids s) ⊆ tracks_of s.
Proof. rewrite tracks_of_without. apply map_filter_subseteq. Qed.

(** One subscription is replaced by one with no more tracks. *)
Definition shrinks w (sub : string) s w' s' : Prop :=
  accs w' = accs w /\ track2accepters w' = track2accepters w /\ subs w' = <[sub := s']> (subs w) /\ tracks_of s' ⊆ tracks_of s /\ closed s' = closed s.

Lemma shrinks_refl w sub s : subs w !! sub = Some s -> shrinks w sub s w s.
Proof. intros Hs. split_and!; try done. by rewrite insert_id. Qed.

Lemma shrinks_conf w sub s w1 s1 s2 :
  shrinks w sub s w1 s1 -> tracks_of s2 = tracks_of s1 -> closed s2 = closed s1 -> shrinks w sub s (put_sub w1 sub s2) s2.
Proof.
  intros (A & T & S & Htr & Hc) E1 E2. split_and!; [done|done| |by rewrite E1|congruence]. cbn. by rewrite S, insert_insert_eq.
Qed.

Lemma shrinks_drop w sub s ts : subs w !! sub = Some s -> keys_ok s ->
  exists w', drop_unmatched w sub ts = Ret w' /\ shrinks w sub s w' (without (GlobalId <$> ts) s).
Proof.
  intros Hs Hk. destruct (drop_unmatched_spec w sub s ts Hs Hk) as (w' & E & A & R & S). exists w'. split; [done|].
  split_and!; [done|unfold rest in R; congruence|done|apply without_sub|done].
Qed.

Lemma conn_store env w addr w' : makeSureExternelConn env w addr = Ret w' -> same_store w w'.
Proof.
  unfold makeSureExternelConn. intros Hr. repeat case_bool_decide; [by injection Hr as <-..|].
  destruct (ResolveUDPAddr_err env addr); [done|]. destruct (DialUDP_err env addr); [done|]. by injection Hr as <-.
Qed.

Lemma shrinks_same w sub s w1 s1 w2 : shrinks w sub s w1 s1 -> same_store w1 w2 -> shrinks w sub s w2 s1.
Proof. intros (A & T & S & Htr & Hc) (A2 & T2 & S2). split_and!; [congruence..|done|done]. Qed.

Lemma accept_enter_spec env w sub s msg w' o :
  subs w !! sub = Some s -> keys_ok s -> accept_enter env w sub s msg = (w', o) ->
  exists s', shrinks w sub s w' s' /\ forall f, o = Some f -> f_sub f = sub /\ closed s' = false.
Proof.
  intros Hs Hk. unfold accept_enter. destruct (closed s) eqn:Hc; [intros [= <- <-]; exists s; split; [by apply shrinks_refl|done]|].
  case_bool_decide; [intros [= <- <-]; exists s; split; [by apply shrinks_refl|done]|].
  destruct (match_tracks _ _ _) as [[ms us]|]; [|intros [= <- <-]; exists s; split; [by apply shrinks_refl|done]].
  assert (exists w1 s1, (if bool_decide (acceptedPubId s = State_PubId msg) then drop_unmatched w sub us else Ret w) = Ret w1 /\ shrinks w sub s w1 s1)
    as (w1 & s1 & -> & H1').
  { destruct (bool_decide _); [|exists w, s; split; [done|by apply shrinks_refl]]. destruct (shrinks_drop w sub s us Hs Hk) as (w1 & ? & ?). eauto. }
  assert (subs w1 !! sub = Some s1) as -> by (destruct H1' as (_ & _ & -> & _); apply lookup_insert_eq).
  assert (closed s1 = false) as Hc1 by (destruct H1' as (_ & _ & _ & _ & ?); congruence).
  destruct (length ms =? 0)%nat.
  { intros [= <- <-]. destruct (bool_decide _); [|by exists s1]. eexists. split; [by eapply (shrinks_conf w sub s w1 s1)|done]. }
  set (s2 := set_acceptedPubId s1 (State_PubId msg)). pose proof (shrinks_conf w sub s w1 s1 s2 H1' eq_refl eq_refl) as H2'.
  destruct (makeSureExternelConn _ _ _) as [w3|] eqn:E3; [|intros [= <- <-]; by exists s2].
  apply conn_store in E3. pose proof (shrinks_same _ _ _ _ _ _ H2' E3) as H3'.
  destruct (makeSurePeer_err env); intros [= <- <-]; [by exists s2|]. eexists. split; [by eapply (shrinks_conf w sub s w3 s2)|]. by intros f [= <-].
Qed.

(** A call that finds nothing to do. *)
Lemma over_cinv c i t sub :
  cinv c -> ths c !! i = Some t -> call t = true -> s_mu c !! sub = None -> cinv (goto i Over (cw c) (s_mu c) (a_mu c) (lost c) c).
Proof.
  intros I Hi Hcall Hm. apply (owes_cinv c _ i t Over sub I Hi). split; try done; cbn [goto cw lost s_mu].
  - by left.
  - by apply evolves_subs.
  - intros s' g st. apply (ci_reg _ I).
  - apply (ci_t2a _ I).
  - apply (ci_inj _ I).
  - intros k x Hx Hop. destruct (ci_ref _ I k x Hx Hop) as [Hr Er]. split; [done|]. rewrite Er. f_equal.
    pose proof (acct_thread c (goto i Over (cw c) (s_mu c) (a_mu c) (lost c) c) i t Over k Hi eq_refl eq_refl eq_refl) as E.
    unfold b2n in E. rewrite !decide_False in E by (destruct t; try discriminate Hcall; by intros []). lia.
  - intros k x Hx Hop Hb. by eapply ci_bound.
  - intros k x Hx Hop Hh. left. eapply held_bound; [done..|by left].
  - intros o k Ho. destruct t; try discriminate Hcall; by destruct Ho.
  - intros s' Hs Hc. left. eapply closed_empty; [done..|by left].
  - intros o _ Ho. destruct t; try discriminate Hcall; by destruct Ho.
  - apply (ci_lost _ I).
Qed.

Lemma a_start_cinv env c i sub msg c' : cinv c -> ths c !! i = Some (AStart sub msg) -> a_start env i sub msg c = Some c' -> cinv c'.
Proof.
  intros I Hi. unfold a_start. destruct (s_mu c !! sub) eqn:Hm; [done|]. destruct (subs (cw c) !! sub) as [s|] eqn:Hs.
  - destruct (accept_enter env (cw c) sub s msg) as [w f] eqn:E.
    destruct (accept_enter_spec _ _ _ _ _ _ _ Hs (cinv_keys _ _ _ I Hs) E) as (s' & (A & T & S & Htr & Hcl) & Hf).
    assert (subs w !! sub = Some s') as -> by (rewrite S; apply lookup_insert_eq). cbn [default from_option].
    destruct f as [f|]; intros [= <-]; eapply (drop_cinv c _ i (AStart sub msg) _ sub s s' I Hi); try done; [|by left].
    right. exists f. destruct (Hf f eq_refl). done.
  - intros [= <-]. by eapply over_cinv.
Qed.

Lemma u_start_cinv c i sub msg c' : cinv c -> ths c !! i = Some (UStart sub msg) -> u_start i sub msg c = Some c' -> cinv c'.
Proof.
  intros I Hi. unfold u_start. destruct (s_mu c !! sub) eqn:Hm; [done|]. destruct (subs (cw c) !! sub) as [s|] eqn:Hs; [|intros [= <-]; by eapply over_cinv].
  destruct (UpdatePattern (cw c) sub msg) as [w|] eqn:E; intros [= <-]; [|by eapply over_cinv].
  assert (exists s', shrinks (cw c) sub s w s') as (s' & A & T & S & Htr & Hcl).
  { unfold UpdatePattern, get_sub in E. rewrite Hs in E. cbn [go_deref mbind run_bind] in E. destruct (match_tracks _ _ _) as [[ms us]|]; [|done].
    cbn [mbind run_bind] in E. destruct (shrinks_drop (cw c) sub s us Hs (cinv_keys _ _ _ I Hs)) as (w1 & E1 & Hsh). rewrite E1 in E. cbn [mbind run_bind] in E.
    assert (subs w1 !! sub = Some (without (GlobalId <$> us) s)) as Hs1 by (destruct Hsh as (_ & _ & -> & _); apply lookup_insert_eq).
    rewrite Hs1 in E. cbn [go_deref mbind run_bind] in E. injection E as <-. eexists. by eapply shrinks_conf. }
  assert (subs w !! sub = Some s') as -> by (rewrite S; apply lookup_insert_eq). cbn [default from_option].
  eapply (drop_cinv c _ i (UStart sub msg) _ sub s s' I Hi); try done. by left.
Qed.

Lemma c_start_cinv c i sub c' : cinv c -> ths c !! i = Some (CStart sub) -> c_start i sub c = Some c' -> cinv c'.
Proof.
  intros I Hi. unfold c_start. destruct (s_mu c !! sub) eqn:Hm; [done|]. destruct (subs (cw c) !! sub) as [s|] eqn:Hs; [|intros [= <-]; by eapply over_cinv].
  intros [= <-]. set (s' := {| closed := true; reqTypes := _; pattern := _; sctx := _; acceptedPubId := _; acceptedTrack := _ |}).
  eapply (sub_cinv c _ i (CStart sub) (CUnbind sub (range_tracks (tracks_of s))) sub s s' I Hi); try done.
  - by left.
  - apply (ci_lost _ I).
  - intros k x _ _. pose proof (acct_put c (goto i (CUnbind sub (range_tracks (tracks_of s))) (put_sub (cw c) sub s') (<[sub := i]> (s_mu c)) (a_mu c) (lost c) c)
      i (CStart sub) (CUnbind sub (range_tracks (tracks_of s))) sub s s' k Hi eq_refl Hs eq_refl eq_refl) as E.
    rewrite !(b2n_false (at_add _ _)) in E by (by intros []). assert (b2n (held_by s' k) = b2n (held_by s k)) as E2 by (by apply b2n_iff). lia.
  - by apply lock_free.
  - intros o [= <-]. apply lookup_insert_eq.
  - exists s'. split; [apply lookup_insert_eq|]. split; [done|]. split.
    + change (tracks_of s') with (tracks_of s). rewrite <- (list_to_map_to_list (tracks_of s)) at 1. symmetry. apply list_to_map_proper; [|apply range_tracks_perm].
      rewrite range_tracks_perm. apply NoDup_fst_map_to_list.
    + rewrite range_tracks_perm. apply NoDup_fst_map_to_list.
  - intros k x _ _ Hk. by left.
  - by intros o k [].
  - by right.
Qed.

Lemma c_unbind_nil_cinv c i sub c' : cinv c -> ths c !! i = Some (CUnbind sub []) -> c_unbind i sub [] c = Some c' -> cinv c'.
Proof.
  intros I Hi. cbn. pose proof (ci_thr _ I _ _ Hi) as (s & Hs & Hc & Htr & _). rewrite Hs. intros [= <-].
  pose proof (ci_sec _ I _ _ _ Hi eq_refl) as Hm. set (s' := set_acceptedTrack s None).
  assert (forall k, held_by s' k <-> held_by s k) as Hh.
  { intros k. unfold held_by. rewrite Htr. cbn. setoid_rewrite lookup_empty. by split; intros (? & ? & ? & _). }
  eapply (sub_cinv c _ i (CUnbind sub []) Over sub s s' I Hi); try done.
  - by right.
  - apply (ci_lost _ I).
  - intros k x _ _. pose proof (acct_put c (goto i Over (put_sub (cw c) sub s') (delete sub (s_mu c)) (a_mu c) (lost c) c)
      i (CUnbind sub []) Over sub s s' k Hi eq_refl Hs eq_refl eq_refl) as E. pose proof (b2n_iff _ _ (Hh k)). rewrite !(b2n_false (at_add _ _)) in E by (by intros []). lia.
  - by apply unlock_own.
  - rewrite Htr. apply map_empty_subseteq.
  - intros k x _ _ Hk. left. by apply Hh.
  - by intros o k [].
  - intros _. by left.
Qed.

(** A step that changes one accepter. *)
Lemma acc_cinv c c' i t t' sub a x x' :
  cinv c -> ths c !! i = Some t -> s_mu c !! sub = None \/ s_mu c !! sub = Some i -> ths c' = <[i := t']> (ths c) ->
  accs (cw c) !! a = Some x -> accs (cw c') = <[a := x']> (accs (cw c)) -> track2accepters (cw c') = track2accepters (cw c) ->
  subs (cw c') = subs (cw c) -> lost c' = lost c -> s_mu c' = s_mu c -> section t' = section t -> thread_ok (cw c') t' ->
  (a_closed x = true -> a_closed x' = true) -> bound x' ⊆ {[sub]} ∪ bound x -> (a_closed x' = false -> bound x ⊆ {[sub]} ∪ bound x') ->
  (a_closed x' = false -> (1 <= ref_count x')%Z /\ ref_count x' = Z.of_nat (acct c' a)) ->
  (forall k, k <> a -> b2n (at_add k t) = b2n (at_add k t')) ->
  (a_closed x' = false -> sub ∈ bound x' -> sub_holds (cw c) sub a \/ (sub, a) ∈ lost c) ->
  (forall k y, accs (cw c') !! k = Some y -> a_closed y = false -> sub_holds (cw c) sub k -> sub ∈ bound y \/ between t' sub k) ->
  (forall o k, between t o k -> o = sub) ->
  (forall s, subs (cw c) !! sub = Some s -> closed s = true -> tracks_of s = ∅ \/ closing t' sub) ->
  (forall o, o <> sub -> closing t o -> closing t' o) -> cinv c'.
Proof.
  intros I Hi Hmu Ht Hx A T S L Hm Hse Hok Hc Hb1 Hb2 Hr Hadd Hbd Hhd Hbt Hcl Hcg.
  assert (a < length (accs (cw c))) as Hlt by (by eapply lookup_lt_Some).
  assert (forall o k, sub_holds (cw c') o k <-> sub_holds (cw c) o k) as Hh by (intros; apply sub_holds_same; by rewrite S).
  apply (owes_cinv c c' i t t' sub I Hi). split; try done.
  - eapply evolves_acc; try done. intros o _. by rewrite S.
  - by rewrite Hm.
  - intros o Ho. rewrite Hm. rewrite Hse in Ho. by eapply ci_sec.
  - rewrite S, T. apply (ci_reg _ I).
  - rewrite T, A, length_insert. apply (ci_t2a _ I).
  - rewrite T. apply (ci_inj _ I).
  - intros k y. rewrite A. intros [(<- & <- & _)|[Hne Hy]]%list_lookup_insert_Some Hop; [auto|].
    destruct (ci_ref _ I k y Hy Hop) as [? Er]. split; [done|]. rewrite Er. f_equal. pose proof (acct_thread _ _ _ _ _ k Hi Ht S L). rewrite (Hadd k) in * by done. lia.
  - by rewrite L.
  - intros k y. rewrite A, L, Hh. intros [(<- & <- & _)|[Hne Hy]]%list_lookup_insert_Some Hop Hb; [auto|]. by eapply ci_bound.
  - intros k y Hy Hop Hk. rewrite Hh in Hk. eauto.
  - rewrite S. done.
  - rewrite L, A, length_insert. apply (ci_lost _ I).
Qed.

Lemma a_ref_cinv c i f m a c' : cinv c -> ths c !! i = Some (ARef f m a) -> a_ref i f m a c = Some c' -> cinv c'.
Proof.
  intros I Hi. unfold a_ref. destruct (a_mu c !! a); [done|]. unfold Ref, get_acc. destruct (accs (cw c) !! a) as [x|] eqn:Hx; [|done]. cbn [go_deref mbind run_bind].
  pose proof (ci_thr _ I _ _ Hi) as [Ho Hg]. pose proof (ci_sec _ I _ _ _ Hi eq_refl) as Hm.
  assert (a < length (accs (cw c))) as Hlt by (by eapply lookup_lt_Some).
  destruct (a_closed x) eqn:Hc; intros [= <-].
  - eapply (quiet_cinv c _ i (ARef f m a) (ALoop f) (f_sub f) I Hi); try done; try (by intros ? []); try (by intros ? ? []).
    + by left.
    + destruct Ho as (s & ? & ? & _). by exists s.
  - eapply (acc_cinv c _ i (ARef f m a) (AAdd f m a) (f_sub f) a x _ I Hi); try done; [by right|..].
    + cbn. congruence.
    + cbn [bound a_subs]. set_solver.
    + cbn [bound a_subs]. set_solver.
    + intros _. destruct (ci_ref _ I a x Hx Hc) as [Hr Er]. cbn [ref_count]. split; [lia|]. rewrite Er.
      match goal with |- context [acct ?c1 a] => pose proof (acct_thread c c1 i _ _ a Hi eq_refl eq_refl eq_refl) as E end.
      rewrite (b2n_false (at_add a (ARef f m a))), (b2n_true (at_add a (AAdd f m a))) in E by (done || by intros []). lia.
    + intros k Hne. rewrite (b2n_false (at_add k (ARef f m a))), (b2n_false (at_add k (AAdd f m a))); [done|cbn; congruence|by intros []].
    + intros _ Hb. eapply ci_bound; [exact I|exact Hx|done|exact Hb].
    + intros k y. cbn [goto cw put_acc set_accs accs]. intros [(<- & <- & _)|[Hne Hy]]%list_lookup_insert_Some Hop Hk; left.
      * change (f_sub f ∈ bound x). eapply held_bound; [exact I|exact Hx|done|done|]. right. exists i, (ARef f m a). split_and!; [done|done|by intros []].
      * eapply held_bound; [exact I|exact Hy|done|done|]. right. exists i, (ARef f m a). split_and!; [done|done|by intros []].
    + intros s Hs Hcl. destruct Ho as (s' & ? & ? & _). congruence.
Qed.

Lemma a_bind_cinv c i f a c' : cinv c -> ths c !! i = Some (ABind f a) -> a_bind i f a c = Some c' -> cinv c'.
Proof.
  intros I Hi. unfold a_bind. destruct (a_mu c !! a); [done|]. unfold BindSub, get_acc. destruct (accs (cw c) !! a) as [x|] eqn:Hx; [|done]. cbn [go_deref mbind run_bind].
  intros [= <-]. pose proof (ci_thr _ I _ _ Hi) as (s & Hs & Hcl & Hk). pose proof (ci_sec _ I _ _ _ Hi eq_refl) as Hm.
  set (x' := {| a_track := a_track x; a_closed := a_closed x; a_subs := _; ref_count := ref_count x |}).
  assert (bound x' = {[f_sub f]} ∪ bound x) as Hb.
  { unfold x'. unfold bound at 1. cbn [a_subs default]. fold (bound x). case_bool_decide; [|done]. unfold id. set_solver. }
  eapply (acc_cinv c _ i (ABind f a) (ALoop f) (f_sub f) a x x' I Hi); try done; [by right|..].
  - by exists s.
  - by rewrite Hb.
  - rewrite Hb. set_solver.
  - intros Hop. destruct (ci_ref _ I a x Hx Hop) as [Hr Er]. split; [done|]. cbn [ref_count x']. rewrite Er.
    match goal with |- context [acct ?c1 a] => pose proof (acct_thread c c1 i _ _ a Hi eq_refl eq_refl eq_refl) as E end.
    rewrite !(b2n_false (at_add _ _)) in E by (by intros []). lia.
  - intros _ _. left. by apply (sub_holds_lookup _ _ _ _ Hs).
  - intros k y. cbn [goto cw put_acc set_accs accs]. intros [(<- & <- & _)|[Hne Hy]]%list_lookup_insert_Some Hop Hh; left.
    + rewrite Hb. set_solver.
    + eapply held_bound; [exact I|exact Hy|done|done|]. right. exists i, (ABind f a). split_and!; [done|done|cbn; naive_solver].
  - intros o k [<- _]. done.
  - intros s0 Hs0 Hc0. congruence.
Qed.

Lemma c_unbind_cons_cinv c i sub tid st l a w :
  cinv c -> ths c !! i = Some (CUnbind sub ((tid, st) :: l)) -> track2accepters (cw c) !! tid = Some a ->
  Accepter_UnbindSub (cw c) a sub = Ret w -> cinv (goto i (CClose a (sub, tid, st, l)) w (s_mu c) (a_mu c) (lost c) c).
Proof.
  intros I Hi Hg. unfold Accepter_UnbindSub, get_acc. destruct (accs (cw c) !! a) as [x|] eqn:Hx; [|done]. cbn [go_deref mbind run_bind].
  pose proof (ci_thr _ I _ _ Hi) as (s & Hs & Hcl & Htr & Hnd). pose proof (ci_sec _ I _ _ _ Hi eq_refl) as Hm.
  assert (tracks_of s !! tid = Some st) as Ht by (rewrite Htr; apply lookup_insert_eq).
  assert (st_accepter st = a) as Ha by (destruct (ci_reg _ I _ _ _ _ Hs Ht); congruence).
  intros Hw. assert (exists x', accs w = <[a := x']> (accs (cw c)) /\ track2accepters w = track2accepters (cw c) /\ subs w = subs (cw c) /\
    a_closed x' = a_closed x /\ ref_count x' = ref_count x /\ bound x' = bound x ∖ {[sub]}) as (x' & A & T & S & Ec & Er & Eb).
  { destruct (a_subs x) as [m|] eqn:Em; injection Hw as <-.
    - eexists. split_and!; [reflexivity|done..|]. unfold bound. rewrite Em. cbn. case_bool_decide; unfold id; set_solver.
    - exists x. split_and!; [by rewrite list_insert_id|done..|]. unfold bound. rewrite Em. cbn. set_solver. }
  eapply (acc_cinv c _ i (CUnbind sub ((tid, st) :: l)) (CClose a (sub, tid, st, l)) sub a x x' I Hi); try done; [by right|..].
  - cbn [thread_ok goto cw]. split; [exists s; by rewrite S|]. split; [done|]. exists x'. rewrite A, list_lookup_insert_eq by (by eapply lookup_lt_Some).
    split; [done|]. rewrite Eb. set_solver.
  - by rewrite Ec.
  - rewrite Eb. set_solver.
  - rewrite Eb. intros _ o Ho. destruct (decide (o = sub)); set_solver.
  - rewrite Ec, Er. intros Hop. destruct (ci_ref _ I a x Hx Hop) as [Hr Er']. split; [done|]. rewrite Er'.
    match goal with |- context [acct ?c1 a] => pose proof (acct_thread c c1 i _ _ a Hi eq_refl S eq_refl) as E end.
    rewrite !(b2n_false (at_add _ _)) in E by (by intros []). lia.
  - rewrite Eb. set_solver.
  - intros k y. cbn [goto cw]. rewrite A. intros [(<- & <- & _)|[Hne Hy]]%list_lookup_insert_Some Hop Hh; [by right|left].
    eapply held_bound; [exact I|exact Hy|done|done|]. right. exists i, (CUnbind sub ((tid, st) :: l)). split_and!; [done|done|by intros []].
  - intros s0 _ _. by right.
Qed.

(** [Accepter.Close] reaches the point where the accepter is closed. *)
Lemma k_close_cinv c i a x r k sub t :
  cinv c -> ths c !! i = Some t -> s_mu c !! sub = None \/ s_mu c !! sub = Some i -> accs (cw c) !! a = Some x -> section t = section (KUnbind a [] k) ->
  (forall k', ~ at_add k' t) -> (forall o k, between t o k -> o = sub /\ k = a) -> (forall o, closing t o -> closing (KUnbind a [] k) o) ->
  match k with Some (sub, g, st, l) => to_close (cw c) sub ((g, st) :: l) /\ st_accepter st = a | None => True end -> cinv (k_close i a x r k c).
Proof.
  intros I Hi Hmu Hx Hse Hna Hbt Hcg Hk. set (t' := KUnbind a (range_set (default ∅ (a_subs x))) k).
  set (x' := {| a_track := a_track x; a_closed := true; a_subs := a_subs x; ref_count := r |}).
  assert (a < length (accs (cw c))) as Hlt by (by eapply lookup_lt_Some).
  eapply (acc_cinv c _ i t t' sub a x x' I Hi); try done.
  - cbn [thread_ok t']. split; [exists x'; split; [apply list_lookup_insert_eq|]; done|]. by destruct k as [[[[o g] st] l]|].
  - change (bound x') with (bound x). set_solver.
  - intros k' _. rewrite (b2n_false (at_add k' t)), (b2n_false (at_add k' t')); [done|by intros []|done].
  - intros k' y. intros [(<- & <- & _)|[Hne Hy]]%list_lookup_insert_Some Hop Hh; [done|left].
    eapply held_bound; [exact I|exact Hy|done|done|]. destruct Hmu as [?|?]; [by left|right]. exists i, t. split_and!; [done|done|].
    intros Hb. by destruct (Hbt _ _ Hb).
  - intros o k' Hb. by destruct (Hbt _ _ Hb).
  - intros s Hs Hc. destruct (ci_closed _ I _ _ Hs Hc) as [?|(j & u & Hj & Hu)]; [by left|]. right.
    assert (section u = Some sub) as Hsu by (destruct u as [| | | | | | | |a0 [[[o g] st] l]| |a0 todo [[[[o g] st] l]|]|]; cbn in Hu |- *; congruence || done).
    pose proof (ci_sec _ I _ _ _ Hj Hsu) as Hm. assert (j = i) as -> by (destruct Hmu; congruence). assert (u = t) as -> by congruence. by apply Hcg in Hu.
  - intros o _ Ho. by apply Hcg.
Qed.

(** The last part of [Router.UnbindSub] for a track, and its removal. *)
Lemma close_next_cinv c i t a x x' am sub g st l c' :
  cinv c -> ths c !! i = Some t -> section t = Some sub -> to_close (cw c) sub ((g, st) :: l) -> st_accepter st = a -> accs (cw c) !! a = Some x ->
  (a_closed x = true -> a_closed x' = true) -> bound x' ⊆ bound x -> (a_closed x' = false -> bound x ⊆ bound x') ->
  (a_closed x' = false -> (1 <= ref_count x')%Z /\ ref_count x' = (ref_count x - 1)%Z /\ sub ∉ bound x) ->
  (forall k, ~ at_add k t) -> (forall o k, between t o k -> o = sub /\ k = a) -> (forall o, closing t o -> o = sub) ->
  close_next i (sub, g, st, l) (put_acc (cw c) a x') am c = Some c' -> cinv c'.
Proof.
  intros I Hi Hse (s & Hs & Hcl & Htr & Hnd) Ha Hx Hc Hb1 Hb2 Hr Hna Hbt Hcg. pose proof (ci_sec _ I _ _ _ Hi Hse) as Hm.
  assert (tracks_of s !! g = Some st) as Ht by (rewrite Htr; apply lookup_insert_eq).
  destruct (ci_reg _ I _ _ _ _ Hs Ht) as [Hgid Hga]. cbn [close_next].
  destruct (Remove_spec (put_acc (cw c) a x') sub s st Hs) as (w & -> & A & R & S). intros [= <-]. rewrite Hgid in S.
  set (s' := set_acceptedTrack s (delete g <$> acceptedTrack s)) in *.
  assert (tracks_of s' = delete g (tracks_of s)) as Htr' by apply tracks_of_delete.
  assert (forall k, held_by s' k <-> held_by s k /\ k <> a) as Hh.
  { intros k. unfold held_by. rewrite Htr'. split.
    - intros (g' & st' & [Hne Hg']%lookup_delete_Some & <-). split; [eauto|]. intros E. apply Hne. eapply held_once; [exact I|exact Hs|done|done|congruence].
    - intros [(g' & st' & Hg' & <-) Hne]. exists g', st'. split; [|done]. apply lookup_delete_Some. split; [|done]. intros <-. congruence. }
  assert (T : track2accepters w = track2accepters (cw c)) by (unfold rest in R; cbn in R; congruence).
  assert (subs w !! sub = Some s') as Hs' by (rewrite S; apply lookup_insert_eq).
  assert (a < length (accs (cw c))) as Hlt by (by eapply lookup_lt_Some). cbn [put_acc set_accs accs] in A.
  apply (owes_cinv c _ i t (CUnbind sub l) sub I Hi). split; try done; cbn [goto cw s_mu lost].
  - by right.
  - eapply (evolves_acc (cw c) w sub a x x'); try done; [|set_solver|intros Hop; specialize (Hb2 Hop); set_solver].
    intros o Hne. rewrite S. cbn. by rewrite lookup_insert_ne.
  - intros o [= <-]. done.
  - exists s'. split; [done|]. split; [done|]. cbn in Hnd. apply NoDup_cons in Hnd as [Hni Hnd]. split; [|done].
    rewrite Htr', Htr. cbn. rewrite delete_insert_id; [done|]. by apply not_elem_of_list_to_map_1.
  - intros s0 g' st' Hs0 Hg'. assert (s0 = s') as -> by congruence. rewrite Htr' in Hg'. apply lookup_delete_Some in Hg' as [_ Hg']. rewrite T. by eapply ci_reg.
  - rewrite T, A, length_insert. apply (ci_t2a _ I).
  - rewrite T. apply (ci_inj _ I).
  - intros k y. rewrite A. intros Hy Hop.
    match goal with |- context [acct ?c1 k] => pose proof (acct_put c c1 i t (CUnbind sub l) sub s s' k Hi eq_refl Hs S eq_refl) as E end.
    rewrite !(b2n_false (at_add _ _)) in E by (done || by intros []).
    apply list_lookup_insert_Some in Hy as [(<- & <- & _)|[Hne Hy]].
    + destruct (Hr Hop) as (H1' & H2' & _). split; [done|]. assert (a_closed x = false) as Hxo by (destruct (a_closed x); [by rewrite Hc in Hop|done]).
      destruct (ci_ref _ I _ _ Hx Hxo) as [_ Er]. rewrite b2n_true, (b2n_false (held_by s' _)) in E; [lia|by intros [_ ?]%Hh|]. exists g, st. done.
    + destruct (ci_ref _ I _ _ Hy Hop) as [? Er]. split; [done|]. assert (b2n (held_by s' k) = b2n (held_by s k)) as E2 by (apply b2n_iff; rewrite Hh; naive_solver). lia.
  - intros k y. rewrite A. intros [(<- & <- & _)|[Hne Hy]]%list_lookup_insert_Some Hop Hb.
    + destruct (Hr Hop) as (_ & _ & Hn). set_solver.
    + destruct (ci_bound _ I k y sub Hy Hop Hb) as [Hk|?]; [left|by right]. apply (sub_holds_lookup _ _ _ _ Hs'), Hh. split; [|done]. by apply (sub_holds_lookup _ _ _ _ Hs).
  - intros k y. rewrite A. intros Hy Hop Hk. apply (sub_holds_lookup _ _ _ _ Hs'), Hh in Hk as [Hk Hne]. left.
    apply list_lookup_insert_Some in Hy as [(<- & _)|[_ Hy]]; [done|]. eapply held_bound; [exact I|exact Hy|done|by apply (sub_holds_lookup _ _ _ _ Hs)|].
    right. exists i, t. split_and!; [done|done|]. intros Hb. by destruct (Hbt _ _ Hb).
  - intros o k Hb. by destruct (Hbt _ _ Hb).
  - intros s0 _ _. by right.
  - intros o Hne Ho. by apply Hcg in Ho.
  - rewrite A, length_insert. apply (ci_lost _ I).
Qed.

Lemma c_unbind_cinv c i sub l c' : cinv c -> ths c !! i = Some (CUnbind sub l) -> c_unbind i sub l c = Some c' -> cinv c'.
Proof.
  intros I Hi. destruct l as [|[tid st] l]; [by apply c_unbind_nil_cinv|]. cbn [c_unbind].
  destruct (track2accepters (cw c) !! tid) as [a|] eqn:Hg.
  - destruct (a_mu c !! a); [done|]. destruct (Accepter_UnbindSub (cw c) a sub) as [w|] eqn:E; [|done]. intros [= <-]. by eapply c_unbind_cons_cinv.
  - pose proof (ci_thr _ I _ _ Hi) as (s & Hs & Hcl & Htr & Hnd).
    assert (tracks_of s !! tid = Some st) as Ht by (rewrite Htr; apply lookup_insert_eq). destruct (ci_reg _ I _ _ _ _ Hs Ht). congruence.
Qed.

Lemma c_close_cinv c i a k c' : cinv c -> ths c !! i = Some (CClose a k) -> c_close i a k c = Some c' -> cinv c'.
Proof.
  intros I Hi. destruct k as [[[sub g] st] l]. unfold c_close. destruct (a_mu c !! a); [done|]. destruct (accs (cw c) !! a) as [x|] eqn:Hx; [|done].
  pose proof (ci_thr _ I _ _ Hi) as (Htc & Ha & y & Hy & Hnb). assert (y = x) as -> by congruence. pose proof (ci_sec _ I _ _ _ Hi eq_refl) as Hm.
  destruct (Z.eqb_spec (ref_count x - 1) 0) as [E|E].
  - intros [= <-]. apply (k_close_cinv c i a x _ (Some (sub, g, st, l)) sub (CClose a (sub, g, st, l)) I Hi); try done; [by right| |].
    + by intros k' [].
    + by intros o k [<- <-].
  - apply (close_next_cinv c i (CClose a (sub, g, st, l)) a x _ _ sub g st l c' I Hi); try done.
    + intros Hop. cbn in Hop |- *. destruct (ci_ref _ I a x Hx Hop). split_and!; [lia|done|done].
    + by intros k' [].
    + by intros o k [<- <-].
Qed.

Lemma k_start_cinv c i a c' : cinv c -> ths c !! i = Some (KStart a) -> k_start i a c = Some c' -> cinv c'.
Proof.
  intros I Hi. unfold k_start. destruct (a_mu c !! a); [done|]. destruct (accs (cw c) !! a) as [x|] eqn:Hx; [|done]. intros [= <-].
  apply (k_close_cinv c i a x 0 None (fresh (dom (s_mu c))) (KStart a) I Hi); try done.
  - left. apply not_elem_of_dom. apply is_fresh.
  - by intros k' [].
Qed.

Lemma strip_sub a s : tracks_of (strip a s) ⊆ tracks_of s.
Proof. rewrite tracks_of_strip. apply map_filter_subseteq. Qed.

Lemma k_unbind_cinv c i a todo k c' : cinv c -> ths c !! i = Some (KUnbind a todo k) -> k_unbind i a todo k c = Some c' -> cinv c'.
Proof.
  intros I Hi. pose proof (ci_thr _ I _ _ Hi) as [(x & Hx & Hc) Hk]. destruct todo as [|sub todo]; cbn [k_unbind].
  - rewrite Hx. destruct k as [[[[sub g] st] l]|].
    + destruct Hk as [Htc Ha]. apply (close_next_cinv c i (KUnbind a [] (Some (sub, g, st, l))) a x _ _ sub g st l c' I Hi); try done; try (cbn; congruence).
    + intros [= <-]. eapply (acc_cinv c _ i (KUnbind a [] None) Over (fresh (dom (s_mu c))) a x _ I Hi); try done; try (cbn; congruence).
      * left. apply not_elem_of_dom. apply is_fresh.
      * intros k y. cbn [goto cw put_acc set_accs accs]. intros [(<- & <- & _)|[Hne Hy]]%list_lookup_insert_Some Hop Hh; [cbn in Hop; congruence|left].
        eapply held_bound; [exact I|exact Hy|done|done|]. left. apply not_elem_of_dom. apply is_fresh.
      * intros s Hs Hcl. left. eapply closed_empty; [exact I|exact Hs|done|]. left. apply not_elem_of_dom. apply is_fresh.
  - destruct (s_mu c !! sub) eqn:Hm; [done|]. destruct (subs (cw c) !! sub) as [s|] eqn:Hs;
      [|unfold UnbindAccepter, get_sub; rewrite Hs; by case_bool_decide].
    destruct (UnbindAccepter_spec None (cw c) sub s a Hs (cinv_keys _ _ _ I Hs) ltac:(done)) as (w & -> & A & R & S). intros [= <-].
    eapply (sub_cinv c _ i (KUnbind a (sub :: todo) k) (KUnbind a todo k) sub s (strip a s) I Hi); try done.
    + by left.
    + cbn. unfold rest in R. congruence.
    + apply (ci_lost _ I).
    + intros k' y Hy Hop.
      match goal with |- acct ?c1 k' = _ => pose proof (acct_put c c1 i (KUnbind a (sub :: todo) k) (KUnbind a todo k) sub s (strip a s) k' Hi eq_refl Hs S eq_refl) as E end.
      rewrite !(b2n_false (at_add _ _)) in E by (by intros []).
      assert (b2n (held_by (strip a s) k') = b2n (held_by s k')) as E2; [|lia]. apply b2n_iff. unfold held_by. setoid_rewrite tracks_strip.
      split; [naive_solver|]. intros (g & st & Hg & <-). exists g, st. split_and!; try done. intros E'. rewrite E' in Hy. congruence.
    + intros o Ho. cbn. eapply ci_sec; [exact I|exact Hi|]. exact Ho.
    + cbn [thread_ok goto cw]. split; [exists x; by rewrite A|]. destruct k as [[[[o g] st] l]|]; [|done]. destruct Hk as [Htc Ha]. split; [|done].
      eapply to_close_same; [|exact Htc]. rewrite S, lookup_insert_ne; [done|]. intros ->. pose proof (ci_sec _ I _ _ o Hi eq_refl). congruence.
    + apply strip_sub.
    + intros k' y Hy Hop (g & st & Hg & <-). left. exists g, st. split; [|done]. apply tracks_strip. split; [done|]. intros E'. rewrite E' in Hy. congruence.
    + by intros o k' [].
    + intros Hcl. left. apply map_eq. intros g. rewrite lookup_empty. destruct (tracks_of (strip a s) !! g) as [st|] eqn:Hg; [|done].
      apply tracks_strip in Hg as [Hg _]. rewrite (closed_empty c sub s I Hs) in Hg; [by rewrite lookup_empty in Hg|done|by left].
Qed.

Lemma accept_done_store w f : same_store w (accept_done w f).
Proof. unfold accept_done. by destruct (f_need f). Qed.

Lemma sub_tracks_lookup w sub s : subs w !! sub = Some s -> sub_tracks w sub = tracks_of s.
Proof. intros Hs. unfold sub_tracks. by rewrite Hs. Qed.

Lemma NewAccepter_new m x : NewAccepter m = Ret x -> a_closed x = false /\ a_subs x = None /\ ref_count x = 1%Z.
Proof.
  unfold NewAccepter. intros Hr. apply bind_ret_inv in Hr as (? & _ & Hr). apply bind_ret_inv in Hr as (? & _ & Hr).
  destruct (NewTrackLocalStaticRTP _ _ _); [|done]. by injection Hr as <-.
Qed.

(** A new accepter. *)
Lemma a_new_cinv c i f m x :
  cinv c -> ths c !! i = Some (ALoop f) -> sub_tracks (cw c) (f_sub f) !! GlobalId m = None -> track2accepters (cw c) !! GlobalId m = None ->
  NewAccepter (CopyTrack m) = Ret x ->
  cinv (goto i (AAdd f m (length (accs (cw c))))
    (set_track2accepters (set_accs (cw c) (accs (cw c) ++ [x])) (<[GlobalId m := length (accs (cw c))]> (track2accepters (cw c)))) (s_mu c) (a_mu c) (lost c) c).
Proof.
  intros I Hi Hno Hg Hx. destruct (NewAccepter_new _ _ Hx) as (Hxo & Hxs & Hxr). pose proof (ci_sec _ I _ _ _ Hi eq_refl) as Hm.
  destruct (ci_thr _ I _ _ Hi) as (s & Hs & Hcl & _). rewrite (sub_tracks_lookup _ _ _ Hs) in Hno. set (a := length (accs (cw c))).
  match goal with |- cinv ?c1 => set (c' := c1) end.
  assert (forall k, ~ sub_holds (cw c) k a) as Hnh.
  { intros o Ho. unfold sub_holds in Ho. destruct (subs (cw c) !! o) as [so|] eqn:Hso; [|done]. destruct Ho as (g & st & Hgs & Hk).
    destruct (ci_reg _ I _ _ _ _ Hso Hgs) as [_ Hr]. apply (ci_t2a _ I) in Hr. rewrite Hk in Hr. unfold a in Hr. lia. }
  assert (forall k y, accs (cw c') !! k = Some y -> accs (cw c) !! k = Some y \/ k = a /\ y = x) as Hacc.
  { intros k y. cbn. intros [?|[Hk Hy]]%lookup_app_Some; [by left|right]. apply list_lookup_singleton_Some in Hy as [Hy <-]. split; [unfold a; lia|done]. }
  apply (owes_cinv c c' i (ALoop f) (AAdd f m a) (f_sub f) I Hi). split; try done.
  - by right.
  - split; [done|..].
    + intros g k Hk. cbn. rewrite lookup_insert_ne; [done|]. intros <-. congruence.
    + intros k y Hy. exists y. cbn. split; [by apply lookup_app_l_Some|]. split; [done|set_solver].
    + intros k y Hy Hop. destruct (Hacc k y Hy) as [Hy'|[-> ->]]; [left; exists y; split_and!; try done; set_solver|right].
      split; [by apply lookup_ge_None|]. unfold bound. by rewrite Hxs.
  - intros o [= <-]. done.
  - cbn. split; [by exists s|]. apply lookup_insert_eq.
  - intros s' g st Hs' Hgs. assert (s' = s) as -> by (cbn in Hs'; congruence). destruct (ci_reg _ I _ _ _ _ Hs Hgs) as [? Hr]. split; [done|].
    cbn. rewrite lookup_insert_ne; [done|]. intros <-. congruence.
  - cbn. rewrite length_app. cbn. intros g k [[<- <-]|[_ Hk]]%lookup_insert_Some; [unfold a; lia|]. apply (ci_t2a _ I) in Hk. lia.
  - cbn. intros g1 g2 k [[<- <-]|[_ H1']]%lookup_insert_Some [[<- E]|[_ H2']]%lookup_insert_Some; try done.
    + apply (ci_t2a _ I) in H2'. unfold a in H2'. lia.
    + subst k. apply (ci_t2a _ I) in H1'. unfold a in H1'. lia.
    + by eapply ci_inj.
  - intros k y Hy Hop. pose proof (acct_thread c c' i (ALoop f) (AAdd f m a) k Hi eq_refl eq_refl eq_refl) as E.
    rewrite (b2n_false (at_add k (ALoop f))) in E by (by intros []). destruct (Hacc k y Hy) as [Hy'|[-> ->]].
    + destruct (ci_ref _ I k y Hy' Hop) as [? Er]. split; [done|]. rewrite (b2n_false (at_add k (AAdd f m a))) in E; [lia|].
      cbn. intros <-. apply lookup_lt_Some in Hy'. unfold a in Hy'. lia.
    + rewrite Hxr. split; [done|]. rewrite (b2n_true (at_add a (AAdd f m a))) in E by done. cut (acct c a = 0); [lia|].
      unfold acct, holders, adding, leaks. assert (filter (fun kv : string * Subscription => held_by kv.2 a) (subs (cw c)) = ∅) as ->.
      { apply map_eq. intros o. rewrite lookup_empty. apply map_lookup_filter_None. right. intros so Hso Hk. apply (Hnh o). by apply (sub_holds_lookup _ _ _ _ Hso). }
      assert (filter (at_add a) (ths c) = []) as ->.
      { apply filter_none. intros u [j Hj]%list_elem_of_lookup_1 Hu. destruct u; try done. cbn in Hu. subst.
        pose proof (ci_thr _ I _ _ Hj) as [_ Hr]. apply (ci_t2a _ I) in Hr. unfold a in Hr. lia. }
      assert (filter (fun p : string * nat => p.2 = a) (lost c) = []) as ->; [|by rewrite map_size_empty].
      apply filter_none. intros p Hp Ep. apply (ci_lost _ I) in Hp. unfold a in Ep. lia.
  - intros k y Hy Hop Hb. destruct (Hacc k y Hy) as [Hy'|[-> ->]]; [by eapply (ci_bound _ I)|]. unfold bound in Hb. rewrite Hxs in Hb. by apply not_elem_of_empty in Hb.
  - intros k y Hy Hop Hh. left. destruct (Hacc k y Hy) as [Hy'|[-> ->]]; [|by apply Hnh in Hh].
    eapply held_bound; [exact I|exact Hy'|done|done|]. right. exists i, (ALoop f). split_and!; [done|done|by intros []].
  - intros s' Hs' Hc'. cbn in Hs'. congruence.
  - intros p Hp. cbn. rewrite length_app. apply (ci_lost _ I) in Hp. lia.
Qed.

Lemma a_loop_cinv c i f c' : cinv c -> ths c !! i = Some (ALoop f) -> a_loop i f c = Some c' -> cinv c'.
Proof.
  intros I Hi. unfold a_loop. destruct (ci_thr _ I _ _ Hi) as (s & Hs & Hcl & _).
  assert (forall w c1, same_store (cw c) w -> Some (goto i Over w (delete (f_sub f) (s_mu c)) (a_mu c) (lost c) c) = Some c1 -> cinv c1) as Hstop.
  { intros w c1 Hw [= <-]. eapply (quiet_cinv c _ i (ALoop f) Over (f_sub f) I Hi); try done; try (by intros ? []); try (by intros ? ? []). by right. }
  destruct (f_left f) as [|m ms]; [apply Hstop, accept_done_store|]. destruct (sub_tracks (cw c) (f_sub f) !! GlobalId m) as [st|] eqn:Ht.
  - destruct (accs (cw c) !! st_accepter st) as [x|]; [|by apply Hstop]. intros [= <-].
    eapply (quiet_cinv c _ i (ALoop f) _ (f_sub f) I Hi); try done; try (by intros ? []); try (by intros ? ? []); [by left|]. by exists s.
  - destruct (track2accepters (cw c) !! GlobalId m) as [a|] eqn:Hg.
    + intros [= <-]. eapply (quiet_cinv c _ i (ALoop f) (ARef f m a) (f_sub f) I Hi); try done; try (by intros ? []); try (by intros ? ? []); [by left|].
      split; [|done]. rewrite (sub_tracks_lookup _ _ _ Hs) in Ht. by exists s.
    + destruct (NewAccepter (CopyTrack m)) as [x|] eqn:Hx; [|by apply Hstop]. intros [= <-]. by apply a_new_cinv.
Qed.

Lemma a_add_cinv env c i f m a c' : cinv c -> ths c !! i = Some (AAdd f m a) -> a_add env i f m a c = Some c' -> cinv c'.
Proof.
  intros I Hi. unfold a_add. pose proof (ci_thr _ I _ _ Hi) as [(s & Hs & Hcl & Hno) Hg]. pose proof (ci_sec _ I _ _ _ Hi eq_refl) as Hm.
  assert (a < length (accs (cw c))) as Hlt by (by eapply ci_t2a).
  set (w0 := emit (cw c) (EvAddTrack (f_sub f) a)).
  assert (forall c1, Some (goto i Over w0 (delete (f_sub f) (s_mu c)) (a_mu c) (lost c ++ [(f_sub f, a)]) c) = Some c1 -> cinv c1) as Hfail.
  { intros c1 [= <-]. eapply (sub_cinv c _ i (AAdd f m a) Over (f_sub f) s s I Hi); try done.
    - by right.
    - cbn. by rewrite insert_id.
    - intros p Hp. cbn. apply elem_of_app. by left.
    - intros p. cbn. intros [Hp| ->%list_elem_of_singleton]%elem_of_app; [by apply (ci_lost _ I)|done].
    - intros k x _ _. match goal with |- acct ?c1 k = _ => pose proof (adding_put c c1 i (AAdd f m a) Over k Hi eq_refl) as E end.
      rewrite (b2n_false (at_add k Over)) in E by (by intros []). unfold acct. rewrite (leaks_app c _ [(f_sub f, a)] k) by done.
      change (holders (cw (goto i Over w0 (delete (f_sub f) (s_mu c)) (a_mu c) (lost c ++ [(f_sub f, a)]) c)) k) with (holders (cw c) k).
      rewrite filter_cons. cbn [snd]. destruct (decide (a = k)) as [->|Hne]; cbn [length]; rewrite filter_nil; cbn [length].
      + rewrite (b2n_true (at_add k (AAdd f m k))) in E by done. lia.
      + rewrite (b2n_false (at_add k (AAdd f m a))) in E by done. lia.
    - by apply unlock_own.
    - by intros k x _ _ ?; left.
    - by intros o k [].
    - congruence. }
  destruct (AddTrack_err env (GlobalId m)); [apply Hfail|]. destruct (accs w0 !! a) as [x|] eqn:Hx; [|apply Hfail].
  change (subs w0) with (subs (cw c)). rewrite Hs. intros [= <-].
  set (track := relabel _ _ _ _). set (st := {| pubTrack := track; sid := _; st_accepter := a; sender := _; bindId := _; st_labels := _ |}).
  set (s' := set_acceptedTrack s (Some (<[GlobalId m := st]> (tracks_of s)))).
  match goal with |- cinv ?c1 => set (c' := c1) end.
  assert (subs (cw c') !! f_sub f = Some s') as Hs' by apply lookup_insert_eq.
  assert (forall k, held_by s' k <-> held_by s k \/ k = a) as Hh.
  { intros k. unfold held_by. change (tracks_of s') with (<[GlobalId m := st]> (tracks_of s)). split.
    - intros (g & st' & [[<- <-]|[_ Hg']]%lookup_insert_Some & <-); [by right|left; eauto].
    - intros [(g & st' & Hg' & <-)| ->].
      + exists g, st'. split; [|done]. rewrite lookup_insert_ne; [done|]. intros <-. congruence.
      + exists (GlobalId m), st. split; [apply lookup_insert_eq|done]. }
  assert (~ held_by s a) as Hna.
  { intros (g & st' & Hg' & Ha). destruct (ci_reg _ I _ _ _ _ Hs Hg') as [_ Hr]. rewrite Ha in Hr. assert (g = GlobalId m) as -> by (by eapply ci_inj). congruence. }
  set (t' := ABind (next_track f true [track]) a).
  apply (owes_cinv c c' i (AAdd f m a) t' (f_sub f) I Hi). split; try done.
  - by right.
  - apply evolves_subs; [done|done|]. intros o Hne. cbn. by rewrite lookup_insert_ne.
  - intros o [= <-]. done.
  - exists s'. split; [done|]. split; [done|]. apply Hh. by right.
  - intros s0 g st' Hs0 Hg'. assert (s0 = s') as -> by congruence. change (tracks_of s') with (<[GlobalId m := st]> (tracks_of s)) in Hg'.
    apply lookup_insert_Some in Hg' as [[<- <-]|[_ Hg']]; [done|]. by apply (ci_reg _ I _ _ _ _ Hs Hg').
  - apply (ci_t2a _ I).
  - apply (ci_inj _ I).
  - intros k y Hy Hop. destruct (ci_ref _ I k y Hy Hop) as [? Er]. split; [done|]. rewrite Er. f_equal.
    pose proof (acct_put c c' i (AAdd f m a) t' (f_sub f) s s' k Hi eq_refl Hs eq_refl eq_refl) as E.
    rewrite (b2n_false (at_add k t')) in E by (by intros []). destruct (decide (k = a)) as [->|Hne].
    + rewrite (b2n_true (held_by s' a)), (b2n_false (held_by s a)), (b2n_true (at_add a (AAdd f m a))) in E by (done || apply Hh; by right). lia.
    + rewrite (b2n_false (at_add k (AAdd f m a))) in E by (cbn; congruence). assert (b2n (held_by s' k) = b2n (held_by s k)) as E2 by (apply b2n_iff; rewrite Hh; tauto). lia.
  - intros k y Hy Hop Hb. destruct (ci_bound _ I k y (f_sub f) Hy Hop Hb) as [Hk|?]; [left|by right].
    apply (sub_holds_lookup _ _ _ _ Hs'), Hh. left. by apply (sub_holds_lookup _ _ _ _ Hs).
  - intros k y Hy Hop Hk. apply (sub_holds_lookup _ _ _ _ Hs'), Hh in Hk as [Hk| ->]; [left|by right].
    eapply held_bound; [exact I|exact Hy|done|by apply (sub_holds_lookup _ _ _ _ Hs)|]. right. exists i, (AAdd f m a). split_and!; [done|done|by intros []].
  - intros s0 Hs0 Hc0. assert (s0 = s') as -> by congruence. cbn in Hc0. congruence.
  - apply (ci_lost _ I).
Qed.

Lemma tstep_cinv env c i c' : cinv c -> tstep env i c = Some c' -> cinv c'.
Proof.
  intros I. unfold tstep. destruct (ths c !! i) as [t|] eqn:Hi; [|done]. cbn [mbind option_bind].
  destruct t; [by apply a_start_cinv|by apply a_loop_cinv|by apply a_ref_cinv|by apply a_add_cinv|by apply a_bind_cinv|by apply u_start_cinv|by apply c_start_cinv
    |by apply c_unbind_cinv|by apply c_close_cinv|by apply k_start_cinv|by apply k_unbind_cinv|done].
Qed.

Lemma call_cinv c t : cinv c -> call t = true -> cinv {| cw := cw c; s_mu := s_mu c; a_mu := a_mu c; ths := ths c ++ [t]; lost := lost c |}.
Proof.
  intros [J1 J2 J3 J4 J5 J6 J7 J8 J9 J10] Hc. set (c' := {| cw := _; s_mu := _; a_mu := _; ths := _; lost := _ |}).
  assert (forall i u, ths c' !! i = Some u -> ths c !! i = Some u \/ u = t) as Hl.
  { intros i u [?|[_ Hu]]%lookup_app_Some; [by left|]. apply list_lookup_singleton_Some in Hu as [_ <-]. by right. }
  split; try done.
  - intros k x Hx Hop. destruct (J4 k x Hx Hop) as [? Er]. split; [done|]. rewrite Er. f_equal. unfold acct, adding. change (holders (cw c') k) with (holders (cw c) k). change (leaks c' k) with (leaks c k).
    cbn [ths c']. rewrite filter_app, length_app, (filter_none _ [t]); [cbn [length]; lia|].
    intros u ->%list_elem_of_singleton. destruct t; try discriminate Hc; by intros [].
  - intros k x sub Hx Hop Hh. destruct (J6 k x sub Hx Hop Hh) as [?|(i & u & Hi & Hu)]; [by left|]. right. exists i, u. split; [by apply lookup_app_l_Some|done].
  - intros sub s Hs Hcl. destruct (J7 sub s Hs Hcl) as [?|(i & u & Hi & Hu)]; [by left|]. right. exists i, u. split; [by apply lookup_app_l_Some|done].
  - intros i u sub Hi Hs. destruct (Hl i u Hi) as [?| ->]; [by eapply J8|]. destruct t; discriminate Hc || discriminate Hs.
  - intros i u Hi. destruct (Hl i u Hi) as [?| ->]; [by eapply J9|]. by destruct t.
Qed.

Lemma subscribe_cinv c sub ctx message :
  cinv c -> subs (cw c) !! sub = None -> s_mu c !! sub = None -> cinv (with_world (put_sub (cw c) sub (new_subscription ctx message)) c).
Proof.
  intros [J1 J2 J3 J4 J5 J6 J7 J8 J9 J10] Hn Hm. set (s' := new_subscription ctx message). set (c' := with_world _ c).
  assert (forall k, ~ held_by s' k) as Hno by (by intros k (g & st & Hg & _)).
  assert (forall o k, sub_holds (cw c') o k <-> sub_holds (cw c) o k) as Hh.
  { intros o k. destruct (decide (o = sub)) as [->|Hne].
    - unfold sub_holds. cbn. rewrite lookup_insert_eq, Hn. cbn. split; [apply Hno|done].
    - apply sub_holds_same. cbn. by rewrite lookup_insert_ne. }
  split; try done.
  - intros o s g st. cbn. intros [[<- <-]|[_ Ho]]%lookup_insert_Some Hg; [done|by eapply J1].
  - intros k x Hx Hop. destruct (J4 k x Hx Hop) as [? Er]. split; [done|]. rewrite Er. f_equal. unfold acct.
    rewrite (holders_new (cw c) (cw c') sub s' k Hn eq_refl), (b2n_false (held_by s' k)) by done. change (adding c' k) with (adding c k). change (leaks c' k) with (leaks c k). lia.
  - intros k x o Hx Hop Hb. rewrite Hh. by eapply J5.
  - intros k x o Hx Hop Hk. rewrite Hh in Hk. by eapply J6.
  - intros o s. cbn. intros [[<- <-]|[_ Ho]]%lookup_insert_Some Hc; [done|]. by eapply J7.
  - intros i t Hi. eapply (thread_ok_evolves (cw c) _ sub); [| |by eapply J9].
    + apply evolves_subs; [done|done|]. intros o Hne. cbn. by rewrite lookup_insert_ne.
    + intros Hs. pose proof (J8 _ _ _ Hi Hs). congruence.
Qed.

Lemma other_cinv c w : cinv c -> same_store (cw c) w -> cinv (with_world w c).
Proof.
  intros [J1 J2 J3 J4 J5 J6 J7 J8 J9 J10] (A & T & S).
  assert (forall o k, sub_holds w o k <-> sub_holds (cw c) o k) as Hh by (intros; apply sub_holds_same; by rewrite S).
  split; cbn [with_world cw ths lost s_mu]; rewrite ?A, ?T, ?S; try done.
  - intros k x Hx Hop. destruct (J4 k x Hx Hop) as [? Er]. split; [done|]. rewrite Er. f_equal. unfold acct, holders. cbn. by rewrite S.
  - intros k x o Hx Hop Hb. rewrite Hh. by eapply J5.
  - intros k x o Hx Hop Hk. rewrite Hh in Hk. by eapply J6.
  - intros i t Hi. eapply (thread_ok_evolves (cw c) w (fresh (dom (s_mu c)))); [| |by eapply J9].
    + apply evolves_subs; [done|done|]. by rewrite S.
    + intros Hs. pose proof (J8 _ _ _ Hi Hs) as Hm. apply (is_fresh (dom (s_mu c))). by apply elem_of_dom_2 in Hm.
Qed.

Lemma conc0_cinv id addr : cinv (conc0 id addr).
Proof. split; cbn; try done. intros p Hp. by apply not_elem_of_nil in Hp. Qed.

Lemma reachable_cinv id addr c : rtc cstep (conc0 id addr) c -> cinv c.
Proof.
  intros Hr. remember (conc0 id addr) as c0 eqn:E. assert (cinv c0) as I by (subst; apply conc0_cinv). clear E.
  induction Hr as [|c1 c2 c3 Hs _ IH]; [done|]. apply IH.
  destruct Hs; [by eapply tstep_cinv|by apply call_cinv|by apply subscribe_cinv|by apply other_cinv].
Qed.

(** When no mutex of a subscription is held, no goroutine is in the middle of adding a track. *)
Lemma rest_adding c k : cinv c -> s_mu c = ∅ -> adding c k = 0.
Proof.
  intros I Hm. unfold adding. rewrite filter_none; [done|]. intros u [j Hj]%list_elem_of_lookup_1 Hu. destruct u; try done.
  pose proof (ci_sec _ I _ _ _ Hj eq_refl) as Hs. by rewrite Hm, lookup_empty in Hs.
Qed.

Lemma rest_exact c k x :
  cinv c -> s_mu c = ∅ -> lost c = [] -> accs (cw c) !! k = Some x -> a_closed x = false ->
  (forall sub, sub ∈ bound x <-> sub_holds (cw c) sub k) /\ ref_count x = Z.of_nat (size (bound x)).
Proof.
  intros I Hm L Hx Hop. assert (forall sub, sub ∈ bound x <-> sub_holds (cw c) sub k) as Hiff.
  { intros sub. split.
    - intros Hb. destruct (ci_bound _ I k x sub Hx Hop Hb) as [?|Hl]; [done|]. rewrite L in Hl. by apply not_elem_of_nil in Hl.
    - intros Hh. eapply held_bound; [exact I|exact Hx|done|done|]. left. by rewrite Hm, lookup_empty. }
  split; [done|]. destruct (ci_ref _ I k x Hx Hop) as [_ ->]. f_equal. unfold acct, leaks. rewrite rest_adding, L, filter_nil by done. cbn [length].
  unfold holders. rewrite <- size_dom. rewrite !Nat.add_0_r. f_equal. apply leibniz_equiv. intros sub. rewrite Hiff, elem_of_dom. unfold sub_holds. split.
  - intros [s Hs]. apply map_lookup_filter_Some in Hs as [-> Hk]. exact Hk.
  - destruct (subs (cw c) !! sub) as [s|] eqn:Hs; [|done]. intros Hk. exists s. by apply map_lookup_filter_Some.
Qed.

(** C1. References, bindings and held tracks agree, whatever calls of [AcceptTrack], [UpdatePattern] and [Close] of subscriptions and
    of [Accepter.Close(true)] run at the same time.  In every state that their goroutines reach: a track that a subscription holds is served by the
    accepter registered for it.  An open accepter has at least one reference, and exactly as many as subscriptions hold a track of
    it, goroutines are about to store one, and references were lost; and only subscriptions that hold a track of it, or have lost their reference, are bound to it.  A
    reference is lost when a track is dropped for a new pattern or announcement, or cannot be added to the peer
    connection.  A subscription whose mutex is free is bound to each open accepter it is served by, and holds nothing once it
    is closed.  So when nothing was lost and no subscription is locked, the subscriptions bound to an open accepter are exactly
    those that hold a track of it, and its count is their number. *)
Theorem routing_invariant id addr c :
  rtc cstep (conc0 id addr) c ->
  (forall sub s g st, subs (cw c) !! sub = Some s -> tracks_of s !! g = Some st ->
     GlobalId (pubTrack st) = g /\ track2accepters (cw c) !! g = Some (st_accepter st) /\ st_accepter st < length (accs (cw c))) /\
  (forall k x, accs (cw c) !! k = Some x -> a_closed x = false ->
     (1 <= ref_count x)%Z /\ ref_count x = Z.of_nat (holders (cw c) k + adding c k + leaks c k) /\
     forall sub, sub ∈ bound x -> sub_holds (cw c) sub k \/ (sub, k) ∈ lost c) /\
  (forall sub s, subs (cw c) !! sub = Some s -> s_mu c !! sub = None ->
     (closed s = true -> tracks_of s = ∅) /\
     forall k x, held_by s k -> accs (cw c) !! k = Some x -> a_closed x = false -> sub ∈ bound x) /\
  (lost c = [] -> s_mu c = ∅ -> forall k x, accs (cw c) !! k = Some x -> a_closed x = false ->
     (forall sub, sub ∈ bound x <-> sub_holds (cw c) sub k) /\ ref_count x = Z.of_nat (size (bound x))).
Proof.
  intros I%reachable_cinv. split; [|split; [|split]].
  - intros sub s g st Hs Hg. destruct (ci_reg _ I _ _ _ _ Hs Hg) as [? Hr]. split_and!; [done|done|]. by eapply ci_t2a.
  - intros k x Hx Hop. destruct (ci_ref _ I k x Hx Hop) as [? Er]. split; [done|]. split; [exact Er|]. intros sub. by apply (ci_bound _ I).
  - intros sub s Hs Hm. split; [intros Hc; eapply closed_empty; [done..|by left]|]. intros k x Hk Hx Hop.
    eapply held_bound; [done..|by apply (sub_holds_lookup _ _ _ _ Hs)|by left].
  - intros L Hm k x Hx Hop. by apply rest_exact.
Qed.

Fixpoint moves (env : Env) (l : list nat) (c : conc) : option conc :=
  match l with [] => Some c | i :: l => c ← tstep env i c; moves env l c end.

Lemma moves_cstep env l : forall c c', moves env l c = Some c' -> rtc cstep c c'.
Proof.
  induction l as [|i l IH]; intros c c' Hl; cbn [moves] in Hl; [by injection Hl as <-|].
  destruct (tstep env i c) as [c1|] eqn:E; [|done]. eapply rtc_l; [by eapply cs_move|]. by apply IH.
Qed.

(** ** One call alone

    With nobody else in its way the goroutine of [AcceptTrack] does what the operation of [Routing] does. *)

(** The goroutine [i] gets from [c] to [c'] on its own. *)
Definition alone (env : Env) (i : nat) c c' : Prop := exists n, moves env (replicate n i) c = Some c'.

Lemma alone_refl env i c : alone env i c c.
Proof. by exists 0. Qed.

Lemma alone_step env i c c1 c2 : tstep env i c = Some c1 -> alone env i c1 c2 -> alone env i c c2.
Proof. intros E [n Hn]. exists (S n). cbn [replicate moves]. by rewrite E. Qed.

Lemma alone_trans env i c1 c2 c3 : alone env i c1 c2 -> alone env i c2 c3 -> alone env i c1 c3.
Proof.
  intros [n Hn] H23. revert c1 Hn. induction n as [|n IH]; intros c1 Hn; cbn [replicate moves] in Hn; [by injection Hn as ->|].
  destruct (tstep env i c1) as [c'|] eqn:E; [|done]. eapply alone_step; [exact E|]. by apply IH.
Qed.

(** The goroutine is at [t], the store is [w], and no accepter is locked. *)
Definition at_ (i : nat) t w (sm : gmap string nat) c : Prop := ths c !! i = Some t /\ cw c = w /\ s_mu c = sm /\ a_mu c = ∅.

Lemma at_goto i t t' w w' sm sm' am ls c : at_ i t w sm c -> am = ∅ -> at_ i t' w' sm' (goto i t' w' sm' am ls c).
Proof. intros (Hi & _) ->. split_and!; try done. apply list_lookup_insert_eq. by eapply lookup_lt_Some. Qed.

(** The accepter [Router.AcceptTrack] finds is open, or it would look for ever. *)
Lemma accept_ref fuel w m a w' a' :
  Router_AcceptTrack fuel w (CopyTrack m) = Ret (w', a') -> track2accepters w !! GlobalId m = Some a ->
  a' = a /\ Ref w a = Ret (w', Some a) /\ exists x, accs w !! a = Some x.
Proof.
  intros Hr Hg. assert (forall n, Router_AcceptTrack n w (CopyTrack m) = Ret (w', a') -> a' = a /\ Ref w a = Ret (w', Some a) /\ exists x, accs w !! a = Some x) as Hn; [|by eapply Hn].
  clear Hr fuel. induction n as [|n IH]; [done|]. cbn [Router_AcceptTrack]. change (GlobalId (CopyTrack m)) with (GlobalId m). rewrite Hg.
  unfold Ref at 1, get_acc. destruct (accs w !! a) as [x|] eqn:Hx; [|done]. cbn [go_deref mbind run_bind]. destruct (a_closed x) eqn:Hc; cbn [mbind run_bind]; [apply IH|].
  intros [= <- <-]. unfold Ref, get_acc. rewrite Hx. cbn. rewrite Hc. eauto.
Qed.

(** From a reference to the next track. *)
Lemma add_alone env sm i f m a w c w' s x :
  at_ i (AAdd f m a) w sm c -> AddTrack_err env (GlobalId m) = None -> accs w !! a = Some x -> subs w !! f_sub f = Some s ->
  let snd := sender_of env (GlobalId m) in
  let mid := getMidFromSender env snd in
  let ssid := track_StreamID (a_track x) in
  let track := relabel (CopyTrack m) (track_ID (a_track x)) mid ssid in
  let st := {| pubTrack := track; sid := ssid; st_accepter := a; sender := snd; bindId := mid; st_labels := Labels track |} in
  BindSub (put_sub (emit w (EvAddTrack (f_sub f) a)) (f_sub f) (set_acceptedTrack s (Some (<[GlobalId m := st]> (tracks_of s))))) a (f_sub f) = Ret w' ->
  exists c', alone env i c c' /\ at_ i (ALoop (next_track f true [track])) w' sm c'.
Proof.
  intros Hc He Hx Hs snd mid ssid track st Hb. pose proof Hc as (Hi & Hw & Hsm & Ha).
  assert (tstep env i c = a_add env i f m a c) as E1 by (unfold tstep; by rewrite Hi). unfold a_add in E1. rewrite Hw, He in E1.
  cbn [emit accs subs] in E1. rewrite Hx, Hs in E1. fold snd mid ssid track st in E1.
  match type of E1 with _ = Some ?c1 => set (c1' := c1) in E1 end.
  pose proof (at_goto i (AAdd f m a) (ABind (next_track f true [track]) a) w (put_sub (emit w (EvAddTrack (f_sub f) a)) (f_sub f)
    (set_acceptedTrack s (Some (<[GlobalId m := st]> (tracks_of s))))) sm (s_mu c) (a_mu c) (lost c) c Hc Ha) as H1'.
  pose proof H1' as (Hi1 & Hw1 & Hsm1 & Ha1).
  eexists. split; [eapply alone_step; [exact E1|]; eapply alone_step; [|apply alone_refl]|].
  - unfold tstep. change (ths c1' !! i) with (ths c1' !! i). fold c1' in Hi1, Hw1, Ha1. rewrite Hi1. cbn [mbind option_bind]. unfold a_bind. rewrite Ha1, lookup_empty, Hw1.
    cbn [f_sub next_track]. rewrite Hb. reflexivity.
  - rewrite <- Hsm. by eapply at_goto.
Qed.

Lemma loop_alone env fuel sm i ms : forall w f c w' need' out',
  f_left f = ms -> accept_loop env fuel (f_sub f) ms w (f_need f) (f_out f) = Ret (w', need', out') -> at_ i (ALoop f) w sm c ->
  exists c', alone env i c c' /\
    at_ i (ALoop {| f_sub := f_sub f; f_msg := f_msg f; f_all := f_all f; f_left := []; f_need := need'; f_out := out' |}) w' sm c'.
Proof.
  induction ms as [|m ms IH]; intros w f c w' need' out' Hl Hr Hc; cbn [accept_loop] in Hr.
  { injection Hr as <- <- <-. exists c. split; [apply alone_refl|]. destruct f. cbn in *. by subst. }
  pose proof Hc as (Hi & Hw & Hsm & Ha).
  assert (forall need out, f_left (next_track f need out) = ms) as Hl' by (intros; cbn; by rewrite Hl).
  apply bind_ret_inv in Hr as (s & Es & Hr). unfold get_sub in Es. destruct (subs w !! f_sub f) as [s0|] eqn:Hsub; [|done]. injection Es as ->.
  assert (tstep env i c = a_loop i f c) as E1 by (unfold tstep; by rewrite Hi). unfold a_loop in E1. rewrite Hl, Hw, Hsm, (sub_tracks_lookup _ _ _ Hsub) in E1.
  change (GlobalId (CopyTrack m)) with (GlobalId m) in Hr. destruct (tracks_of s !! GlobalId m) as [st|] eqn:Ht.
  - apply bind_ret_inv in Hr as (x & Ex & Hr). unfold get_acc in Ex. destruct (accs w !! st_accepter st) as [y|] eqn:Hx; [|done]. injection Ex as ->.
    destruct (IH w _ _ w' need' out' (Hl' (f_need f) [_]) Hr (at_goto i _ _ w w sm sm (a_mu c) (lost c) c Hc Ha)) as (c' & Hal & Hat).
    exists c'. split; [by eapply alone_step|exact Hat].
  - apply bind_ret_inv in Hr as ([w1 a] & Er & Hr). cbn beta iota in Hr.
    destruct (AddTrack_err env (GlobalId m)) eqn:He; [done|]. apply bind_ret_inv in Hr as (x & Ex & Hr). unfold get_acc in Ex. cbn [emit accs] in Ex.
    destruct (accs w1 !! a) as [y|] eqn:Hx; [|done]. injection Ex as ->. apply bind_ret_inv in Hr as (s1 & Es & Hr).
    unfold get_sub in Es. cbn [emit subs] in Es. destruct (subs w1 !! f_sub f) as [s0|] eqn:Hsub1; [|done]. injection Es as ->.
    apply bind_ret_inv in Hr as (w2 & Hb & Hr).
    assert (exists c1, alone env i c c1 /\ at_ i (AAdd f m a) w1 sm c1) as (c1 & Hal1 & Hat1).
    { destruct (track2accepters w !! GlobalId m) as [a0|] eqn:Hg.
      - destruct (accept_ref _ _ _ _ _ _ Er Hg) as (-> & Href & _).
        pose proof (at_goto i _ (ARef f m a0) w w sm sm (a_mu c) (lost c) c Hc Ha) as (Hi1 & Hw1 & Hs1 & Ha1).
        eexists. split; [eapply alone_step; [exact E1|]; eapply alone_step; [|apply alone_refl]|].
        + unfold tstep. rewrite Hi1. cbn [mbind option_bind]. unfold a_ref. rewrite Ha1, lookup_empty, Hw1, Href. reflexivity.
        + rewrite Hs1. by eapply at_goto.
      - destruct fuel as [|fuel]; [done|]. cbn [Router_AcceptTrack] in Er. change (GlobalId (CopyTrack m)) with (GlobalId m) in Er. rewrite Hg in Er.
        apply bind_ret_inv in Er as (x0 & Ex0 & Er). rewrite Ex0 in E1. injection Er as <- <-. eexists. split; [eapply alone_step; [exact E1|apply alone_refl]|].
        by eapply at_goto. }
    destruct (add_alone env sm i f m a w1 c1 w2 s1 x Hat1 He Hx Hsub1 Hb) as (c2 & Hal2 & Hat2).
    destruct (IH w2 _ c2 w' need' out' (Hl' true [_]) Hr Hat2) as (c3 & Hal3 & Hat3).
    exists c3. split; [|exact Hat3]. by eapply alone_trans, alone_trans.
Qed.

Lemma ref_subs w a w' o : Ref w a = Ret (w', o) -> subs w' = subs w.
Proof. unfold Ref. intros Hr. apply bind_ret_inv in Hr as (x & _ & Hr). by destruct (a_closed x); injection Hr as <- _. Qed.

Lemma router_accept_subs fuel : forall w m w' a, Router_AcceptTrack fuel w m = Ret (w', a) -> subs w' = subs w.
Proof.
  induction fuel as [|fuel IH]; intros w m w' a Hr; [done|]. cbn [Router_AcceptTrack] in Hr. destruct (track2accepters w !! GlobalId m).
  - apply bind_ret_inv in Hr as ([w1 o] & Er & Hr). apply ref_subs in Er. destruct o; [by injection Hr as <- _|]. apply IH in Hr. congruence.
  - apply bind_ret_inv in Hr as (x & _ & Hr). by injection Hr as <- _.
Qed.

Lemma bind_subs w a sub w' : BindSub w a sub = Ret w' -> subs w' = subs w.
Proof. unfold BindSub. intros Hr. apply bind_ret_inv in Hr as (x & _ & Hr). by injection Hr as <-. Qed.

(** The loop leaves the context of the subscription alone. *)
Lemma loop_sctx env fuel sub ms : forall w need out w' need' out',
  accept_loop env fuel sub ms w need out = Ret (w', need', out') -> sctx <$> subs w' !! sub = sctx <$> subs w !! sub.
Proof.
  induction ms as [|m ms IH]; intros w need out w' need' out' Hr; cbn [accept_loop] in Hr; [by injection Hr as <- _ _|].
  apply bind_ret_inv in Hr as (s & Es & Hr). destruct (tracks_of s !! _).
  - apply bind_ret_inv in Hr as (x & _ & Hr). by eapply IH.
  - apply bind_ret_inv in Hr as ([w1 a] & Er & Hr). apply router_accept_subs in Er. cbn beta iota in Hr. destruct (AddTrack_err env _); [done|].
    apply bind_ret_inv in Hr as (x & _ & Hr). apply bind_ret_inv in Hr as (s1 & Es1 & Hr). apply bind_ret_inv in Hr as (w2 & Hb & Hr).
    apply IH in Hr. apply bind_subs in Hb. rewrite Hr, Hb, <- Er. unfold put_sub. cbn. rewrite lookup_insert_eq.
    unfold get_sub in Es1. cbn [emit subs] in Es1. by destruct (subs w1 !! sub); [injection Es1 as ->|].
Qed.

(** [accept_enter] and the loop are [AcceptTrack]. *)
Lemma accept_split env fuel w sub msg s w' :
  subs w !! sub = Some s -> Subscription_AcceptTrack env fuel w sub msg = Ret w' ->
  match accept_enter env w sub s msg with
  | (w1, None) => w1 = w'
  | (w1, Some f) => exists w2 need out, f_sub f = sub /\ f_msg f = msg /\
      accept_loop env fuel sub (f_left f) w1 (f_need f) (f_out f) = Ret (w2, need, out) /\
      accept_done w2 {| f_sub := sub; f_msg := msg; f_all := f_all f; f_left := []; f_need := need; f_out := out |} = w'
  end.
Proof.
  intros Hs Hr. unfold Subscription_AcceptTrack, get_sub in Hr. rewrite Hs in Hr. cbn [go_deref mbind run_bind] in Hr. unfold accept_enter.
  destruct (closed s); [by injection Hr|]. case_bool_decide; [by injection Hr|]. destruct (match_tracks _ _ _) as [[ms us]|]; [|done]. cbn [mbind run_bind] in Hr.
  assert (forall w0, accept_matched env fuel w0 sub msg ms = Ret w' -> exists s0 w1, subs w0 !! sub = Some s0 /\
    makeSureExternelConn env (put_sub w0 sub (set_acceptedPubId s0 (State_PubId msg))) (State_Addr msg) = Ret w1 /\ makeSurePeer_err env = None /\
    exists w2 need out, accept_loop env fuel sub ms (put_sub w1 sub (set_acceptedTrack (set_acceptedPubId s0 (State_PubId msg)) (Some (tracks_of s0)))) false [] = Ret (w2, need, out) /\
      accept_done w2 {| f_sub := sub; f_msg := msg; f_all := ms; f_left := []; f_need := need; f_out := out |} = w') as Hm.
  { clear Hr. intros w0 Hr. unfold accept_matched in Hr. apply bind_ret_inv in Hr as (s0 & Es & Hr). unfold get_sub in Es.
    destruct (subs w0 !! sub) as [y|] eqn:Hy; [|done]. injection Es as ->. apply bind_ret_inv in Hr as (w1 & Hw1 & Hr). exists s0, w1.
    pose proof (conn_store _ _ _ _ Hw1) as (_ & _ & S). destruct (makeSurePeer_err env); [done|]. apply bind_ret_inv in Hr as (s1 & Es & Hr).
    unfold get_sub in Es. rewrite S in Es. unfold put_sub in Es. cbn in Es. rewrite lookup_insert_eq in Es. injection Es as <-.
    split_and!; try done. apply bind_ret_inv in Hr as ([[w2 need] out] & Hl & Hr). exists w2, need, out. split; [exact Hl|].
    apply loop_sctx in Hl. unfold put_sub in Hl. cbn in Hl. rewrite lookup_insert_eq in Hl. cbn in Hl. unfold accept_done. cbn [f_need f_sub f_msg f_all f_out].
    rewrite Hl. cbn [default]. destruct need; by injection Hr. }
  destruct (bool_decide (acceptedPubId s = State_PubId msg)).
  - apply bind_ret_inv in Hr as (w0 & -> & Hr). destruct (length ms =? 0)%nat.
    + apply bind_ret_inv in Hr as (s0 & Es & Hr). unfold get_sub in Es. destruct (subs w0 !! sub); [|done]. injection Es as ->. by injection Hr.
    + destruct (Hm _ Hr) as (s0 & w1 & -> & -> & -> & w2 & need & out & Hl & Hd). exists w2, need, out. by split_and!.
  - rewrite Hs. destruct (length ms =? 0)%nat; [by injection Hr|].
    destruct (Hm _ Hr) as (s0 & w1 & Hs0 & Hw1 & -> & w2 & need & out & Hl & Hd). assert (s0 = s) as -> by congruence. rewrite Hw1. exists w2, need, out. by split_and!.
Qed.

(** An undisturbed goroutine ends with what [Subscription_AcceptTrack] gives, and every mutex back. *)
Lemma accept_alone env fuel i sub msg w w' c :
  at_ i (AStart sub msg) w (s_mu c) c -> s_mu c !! sub = None -> Subscription_AcceptTrack env fuel w sub msg = Ret w' ->
  exists c', alone env i c c' /\ at_ i Over w' (s_mu c) c'.
Proof.
  intros Hc Hm Hr. pose proof Hc as (Hi & Hw & _ & Ha).
  assert (tstep env i c = a_start env i sub msg c) as E1 by (unfold tstep; by rewrite Hi). unfold a_start in E1. rewrite Hm, Hw in E1.
  destruct (subs w !! sub) as [s|] eqn:Hs; [|by unfold Subscription_AcceptTrack, get_sub in Hr; rewrite Hs in Hr].
  pose proof (accept_split _ _ _ _ _ _ _ Hs Hr) as Hsp. destruct (accept_enter env w sub s msg) as [w1 [f|]].
  - destruct Hsp as (w2 & need & out & Hf & Hfm & Hl & Hd). rewrite <- Hf in Hl.
    edestruct (loop_alone env fuel _ i (f_left f) w1 f _ w2 need out eq_refl Hl (at_goto i _ _ w w1 _ (<[sub := i]> (s_mu c)) (a_mu c) (lost c ++ dropped sub s (default s (subs w1 !! sub))) c Hc Ha)) as (c1 & Hal & Hat).
    pose proof Hat as (Hi1 & Hw1 & Hs1 & Ha1). eexists. split.
    + eapply alone_step; [exact E1|]. eapply alone_trans; [exact Hal|]. eapply alone_step; [|apply alone_refl].
      unfold tstep. rewrite Hi1. cbn [mbind option_bind]. unfold a_loop. cbn [f_left]. reflexivity.
    + rewrite Hw1, Hf, Hfm, Hd, Hs1, Ha1. cbn [f_sub]. replace (delete sub (<[sub:=i]> (s_mu c))) with (s_mu c) by (by rewrite delete_insert_id).
      by eapply at_goto.
  - subst w1. eexists. split; [eapply alone_step; [exact E1|apply alone_refl]|]. by eapply at_goto.
Qed.
End Inv.

(** ** Where the mutexes do not help *)
Module Toy.

Definition start (ts : list thread) : conc :=
  {| cw := Sample.subscribed (Sample.by_type "video"); s_mu := ∅; a_mu := ∅; ths := ts; lost := [] |}.

Lemma start_reach ts : Forall (fun t => call t = true) ts -> rtc cstep (conc0 (zeros 16) "sub:1") (start ts).
Proof.
  intros Hts. eapply rtc_l; [by apply (cs_subscribe _ "s" "ctx" (Sample.sub_msg (Sample.by_type "video")))|].
  change (rtc cstep (start []) (start ts)). change ts with ([] ++ ts). generalize (@nil thread) as us.
  induction Hts as [|t ts Ht _ IH]; intros us; [by rewrite app_nil_r|].
  eapply rtc_l; [by apply (cs_call (start us) t)|]. replace (us ++ t :: ts) with ((us ++ [t]) ++ ts) by (by rewrite <- app_assoc). apply IH.
Qed.

(** The accepters, the tracks of the subscription, and how far the goroutines are. *)
Definition view (c : conc) := (Sample.acc_view <$> accs (cw c), dom (sub_tracks (cw c) "s"), ths c).

(** The subscription accepts the track, and later its client leaves while the publisher ends the stream: [Subscription.Close] has the mutex of the
    subscription and waits for that of the accepter, [Accepter.Close(true)] has that and waits for the first.  Neither goes on. *)
Lemma close_deadlock :
  exists c l, moves Sample.env [0; 0; 0; 0; 0; 1; 2] (start [AStart "s" Sample.state_msg; CStart "s"; KStart 0]) = Some c /\
    ths c = [Over; CUnbind "s" l; KUnbind 0 ["s"] None] /\ forall env i, tstep env i c = None.
Proof.
  eexists _, _. split; [vm_compute; reflexivity|]. split; [reflexivity|]. intros env i.
  destruct i as [|[|[|i]]]; [reflexivity|vm_compute; reflexivity|vm_compute; reflexivity|]. by destruct i.
Qed.

(** The publisher ends the stream between [Router.AcceptTrack] and [BindSub]: the subscription ends up with a track of an
    accepter that is closed, and bound to it, and nothing takes it away. *)
Lemma accept_closed :
  exists c, moves Sample.env [0; 0; 1; 1; 0; 0; 0] (start [AStart "s" Sample.state_msg; KStart 0]) = Some c /\
    view c = ([(true, ["s"], 0%Z)], {[Sample.gid]}, [Over; Over]).
Proof. eexists. split; [vm_compute; reflexivity|]. vm_compute. reflexivity. Qed.

Definition accepted : conc := Eval vm_compute in default (start []) (moves Sample.env [0; 0; 0; 0; 0] (start [AStart "s" Sample.state_msg])).

Lemma routing_invariant_witness :
  exists x, accs (cw accepted) !! 0 = Some x /\ ref_count x = 1%Z /\ ("s" ∈ bound x <-> sub_holds (cw accepted) "s" 0).
Proof.
  destruct (routing_invariant (zeros 16) "sub:1" accepted) as (_ & _ & _ & He).
  - etrans; [apply (start_reach [AStart "s" Sample.state_msg]); by repeat constructor|].
    apply (moves_cstep Sample.env [0; 0; 0; 0; 0]). vm_compute. reflexivity.
  - eexists. split; [reflexivity|]. destruct (He eq_refl eq_refl 0 _ eq_refl eq_refl) as [Hb Hr]. split; [exact Hr|exact (Hb "s")].
Defined.
End Toy.
