(* ===== verification/Publication.v ===== *)
(** * Publication: published tracks of [signal/model.go]

    A publication is a set of tracks of one client.  Each track is bound to
    a remote track of the client's peer connection, is announced to the
    rooms once all are bound, and is read by one goroutine for all its
    consumers.  [SatifySelect] adds a consumer that turns what is read into
    packets of a channel of the router.  The transceivers of the peer
    connection, what a read returns and the answers to acknowledged messages
    are arguments.  A [*RTPConsumer] is a pointer: consumers carry the number
    of their allocation.  A channel that is closed is counted, since closing
    it again panics. *)
From S2P Require Import Prelude Strconv GoStrings Collection Pattern Messages Packets Routing RoutingInv RoutingAccept RoutingProps.
Local Open Scope string_scope.
Local Open Scope list_scope.

(** ** Strings *)

(** [s[n:]] *)
Fixpoint drop_string (n : nat) (s : string) : string :=
  match n, s with
  | S n, String _ s' => drop_string n s'
  | _, _ => s
  end.

(** ** Data *)

(** What the code reads of a [*webrtc.TrackRemote]; [tr_ptr] is its identity. *)
Record TrackRemote := {
  tr_ptr : nat;
  tr_ID : string;
  tr_StreamID : string;
  tr_RID : string;
  tr_Codec : WebrtcCodec
}.

(** A transceiver: its mid and the tracks of its receiver, if any. *)
Record Transceiver := { tc_Mid : string; tc_Tracks : option (list TrackRemote) }.

(** Where a consumer puts what is read: a channel of the router, or the
    recorder. *)
Inductive consumer := Forward (ch : nat) | Record_.

Record PublishedTrack := {
  pt_track : Track;
  remote : option TrackRemote;
  consumers : list (nat * consumer);
  consumerChan : option nat
}.

Record Publication := {
  pub_id : string;
  pub_closed : bool;
  tracks : gmap string PublishedTrack;
  recordStart : bool
}.

#[global] Instance consumer_eq_dec : EqDecision consumer.
Proof. solve_decision. Defined.

Definition set_track (pt : PublishedTrack) t := {| pt_track := t; remote := remote pt;
  consumers := consumers pt; consumerChan := consumerChan pt |}.
Definition set_consumers (pt : PublishedTrack) cs ch := {| pt_track := pt_track pt; remote := remote pt;
  consumers := cs; consumerChan := ch |}.
Definition set_tracks (p : Publication) m := {| pub_id := pub_id p; pub_closed := pub_closed p;
  tracks := m; recordStart := recordStart p |}.

(** ** The code: finding the remote track *)

(** The tracks of the receiver of the chosen transceiver. *)
Fixpoint find_rid (ts : list TrackRemote) (sid rid : string) : option TrackRemote :=
  match ts with
  | [] => None
  | t :: ts' =>
      if decide (tr_RID t = rid) then (if decide (tr_StreamID t = sid) then Some t else None)
      else find_rid ts' sid rid
  end.

Definition pick_track (tc : Transceiver) (sid rid : string) : option TrackRemote :=
  match tc_Tracks tc with
  | None => None
  | Some ts =>
      if (1 <? length ts)%nat then find_rid ts sid rid
      else match ts with
           | [] => None
           | track :: _ =>
               if decide (rid <> "") then
                 if decide (tr_RID track = rid) then
                   if decide (tr_StreamID track = sid) then Some track else None
                 else None
               else if decide (tr_StreamID track = sid) then Some track else None
           end
  end.

Fixpoint find_loop (i : Z) (tcs : list Transceiver) (pos : Z) (sid mid rid : string)
    : option TrackRemote * option Transceiver :=
  match tcs with
  | [] => (None, None)
  | tc :: tcs' =>
      if ((pos =? -1)%Z && bool_decide (tc_Mid tc = mid)) || (pos =? i)%Z
      then (pick_track tc sid rid, Some tc)
      else find_loop (i + 1) tcs' pos sid mid rid
  end.

Definition findTracksRemoteByMidAndRid (tcs : list Transceiver) (sid mid rid : string)
    : run (option TrackRemote * option Transceiver) :=
  pos ← (if HasPrefix mid "pos:" then
           match Atoi (drop_string 4 mid) with
           | Some p => Ret p
           | None => go_panic (PMsg "strconv.Atoi")
           end
         else Ret (-1)%Z);
  Ret (find_loop 0 tcs pos sid mid rid).

(** ** The code: consumers *)

(** [close(me.consumerChan)] *)
Definition close_chan (ch : option nat) : run unit :=
  match ch with Some _ => Ret tt | None => go_panic (PMsg "close of nil channel") end.

Definition removeConsumer (pt : PublishedTrack) (c : nat) : run PublishedTrack :=
  let cs := filter (fun x => x.1 <> c) (consumers pt) in
  if (length cs =? 0)%nat then
    close_chan (consumerChan pt);;
    Ret (set_consumers pt cs None)
  else Ret (set_consumers pt cs (consumerChan pt)).

(** [OnRTPPacket]; [chan] is the new channel of the reading goroutine, the
    flag tells that one is started. *)
Definition OnRTPPacket (pt : PublishedTrack) (c : nat * consumer) (chan : nat) : PublishedTrack * bool :=
  let cs := consumers pt ++ [c] in
  if (length cs =? 1)%nat then (set_consumers pt cs (Some chan), true)
  else (set_consumers pt cs (consumerChan pt), false).

(** What [me.remote.Read] returned: data, or an error and whether it is one
    of those of [IsRTPClosedError]. *)
Inductive rtp_read := RData (data : list Z) | RError (closed_err : bool) (e : gerror).

(** [rtp.Packet.Unmarshal]: whether the bytes are an RTP packet. *)
Class RtpUnmarshal := Unmarshal_ok : list Z -> bool.

Section Code.
Context `{Uuid, Webrtc, MapOrder, RtpUnmarshal}.

(** The node as the publications see it: the router, the packet pool, the
    contents of the router's channels, and what the recorder got. *)
Record Node := {
  world : World;
  pool : Pool;
  queue : list (nat * Packet);
  recorded : list (option (list Z))
}.

Definition set_world (s : Node) w := {| world := w; pool := pool s; queue := queue s; recorded := recorded s |}.
Definition send_eof (s : Node) (gid : string) (ch : nat) : run Node :=
  match NewEOFPacket gid (pool s) with
  | (inr e, _) => error_panic e
  | (inl p, pl) => Ret {| world := world s; pool := pl; queue := queue s ++ [(ch, p)]; recorded := recorded s |}
  end.

(** The consumer [SatifySelect] registers. *)
Definition forward_rtp (s : Node) (closed : bool) (gid : string) (ch : nat) (r : rtp_read) : run (Node * bool) :=
  match r with
  | RError closed_err e =>
      let s := set_world s (RemoveTrack (world s) gid) in
      if closed_err then s ← send_eof s gid ch; Ret (s, true) else error_panic e
  | RData data =>
      if closed then
        let s := set_world s (RemoveTrack (world s) gid) in
        s ← send_eof s gid ch; Ret (s, true)
      else if (0 <? length data)%nat then
        match NewPacketFromBuf gid data (pool s) with
        | (inr e, _) => error_panic e
        | (inl p, pl) =>
            Ret ({| world := world s; pool := pl; queue := queue s ++ [(ch, p)]; recorded := recorded s |}, false)
        end
      else Ret (s, false)
  end.

(** The consumer [startRecord] registers: a copy of the data, parsed, or the
    mark of the end, goes to the recorder. *)
Definition record_rtp (s : Node) (r : rtp_read) : run (Node * bool) :=
  let put x := {| world := world s; pool := pool s; queue := queue s; recorded := recorded s ++ [x] |} in
  match r with
  | RError closed_err e => if closed_err then Ret (put None, true) else error_panic e
  | RData data => if Unmarshal_ok data then Ret (put (Some data), false) else go_panic (PMsg "Unmarshal")
  end.

Definition call_consumer (s : Node) (closed : bool) (gid : string) (c : consumer) (r : rtp_read) : run (Node * bool) :=
  match c with
  | Forward ch => forward_rtp s closed gid ch r
  | Record_ => record_rtp s r
  end.

(** [consumes]: the loop over the consumers there are when it starts. *)
Fixpoint consumes_loop (s : Node) (closed : bool) (pt : PublishedTrack) (cs : list (nat * consumer)) (r : rtp_read)
    : run (Node * PublishedTrack) :=
  match cs with
  | [] => Ret (s, pt)
  | (id, c) :: cs' =>
      '(s, stop) ← call_consumer s closed (GlobalId (pt_track pt)) c r;
      pt ← (if (stop : bool) then removeConsumer pt id else Ret pt);
      consumes_loop s closed pt cs' r
  end.

Definition consumes (s : Node) (closed : bool) (pt : PublishedTrack) (r : rtp_read) : run (Node * PublishedTrack) :=
  consumes_loop s closed pt (consumers pt) r.

(** The goroutine that reads the track, for what it reads: whether it goes on.  Its channel [chan] is closed once
    it is not that of the track any more.  The [break] after an error leaves the [select] and not the loop. *)
Fixpoint read_loop (s : Node) (closed : bool) (pt : PublishedTrack) (chan : nat) (reads : list rtp_read) : run (Node * PublishedTrack * bool) :=
  if decide (consumerChan pt = Some chan) then
    match reads with
    | [] => Ret (s, pt, true)
    | r :: reads => '(s, pt) ← consumes s closed pt r; read_loop s closed pt chan reads
    end
  else Ret (s, pt, false).

(** ** The code: publications *)

Definition isBind (pt : PublishedTrack) : bool := bool_decide (is_Some (remote pt)).

(** [PublishedTrack.SatifySelect]; [fresh] numbers the new consumer and
    channel. *)
Definition SatifySelect_track (s : Node) (closed : bool) (pt : PublishedTrack) (transportId : string)
    (peer_err : option gerror) (tcs : list Transceiver) (fresh : nat) : run (Node * PublishedTrack * bool) :=
  if closed then Ret (s, pt, false)
  else match peer_err with
  | Some e => error_panic e
  | None =>
      let t := pt_track pt in
      '(tr, _) ← findTracksRemoteByMidAndRid tcs (StreamId t) (BindId t) (Rid t);
      match tr with
      | None => Ret (s, pt, false)
      | Some _ =>
          let '(w, ch) := PublishTrack (world s) (GlobalId t) transportId in
          let '(pt, _) := OnRTPPacket pt (fresh, Forward ch) fresh in
          Ret (set_world s w, pt, true)
      end
  end.

(** [Publication.SatifySelect] *)
Fixpoint satify_loop (s : Node) (p : Publication) (ts : list Track) (transportId : string)
    (peer_err : option gerror) (tcs : list Transceiver) (fresh : nat) : run (Node * Publication) :=
  match ts with
  | [] => Ret (s, p)
  | t :: ts' =>
      match tracks p !! GlobalId t with
      | None => satify_loop s p ts' transportId peer_err tcs fresh
      | Some pt =>
          '(s, pt, _) ← SatifySelect_track s (pub_closed p) pt transportId peer_err tcs fresh;
          satify_loop s (set_tracks p (<[GlobalId t := pt]> (tracks p))) ts' transportId peer_err tcs (S fresh)
      end
  end.

Definition Publication_SatifySelect (s : Node) (p : Publication) (sel : SelectMessage)
    (peer_err : option gerror) (tcs : list Transceiver) (fresh : nat) : run (Node * Publication) :=
  satify_loop s p (Select_Tracks sel) (Select_TransportId sel) peer_err tcs fresh.

(** [PublishedTrack.Bind]; [ack] is the outcome of the acknowledged
    [published] message. *)
Definition PublishedTrack_Bind (pt : PublishedTrack) (peer_err : option gerror) (tcs : list Transceiver) (ack : bool)
    : run (PublishedTrack * bool) :=
  match peer_err with
  | Some e => error_panic e
  | None =>
      let t := pt_track pt in
      '(rt, _) ← findTracksRemoteByMidAndRid tcs (StreamId t) (BindId t) (Rid t);
      let '(pt, success) :=
        match rt with
        | None => (pt, false)
        | Some rt =>
            if bool_decide (Some (tr_ptr rt) = (tr_ptr <$> remote pt)) then (pt, true)
            else if decide (w_MimeType (tr_Codec rt) <> "") then
              ({| pt_track := {| Type_ := Type_ t; PubId := PubId t; GlobalId := GlobalId t; LocalId := tr_ID rt;
                                 BindId := BindId t; Rid := Rid t; StreamId := StreamId t;
                                 Codec := Some (NewRTPCodecParameters (tr_Codec rt)); Labels := Labels t |};
                  remote := Some rt; consumers := consumers pt; consumerChan := consumerChan pt |}, true)
            else (pt, false)
        end in
      Ret (pt, success && ack)
  end.

(** [Publication.isAllBind] *)
Definition isAllBind (p : Publication) : bool :=
  bool_decide (map_Forall (fun _ pt => isBind pt = true) (tracks p)).

(** The loop over the tracks of [Publication.Bind], in the order [ks]. *)
Fixpoint bind_loop (m : gmap string PublishedTrack) (ks : list string) (peer_err : option gerror)
    (tcs : list Transceiver) (acks : string -> bool) : run (gmap string PublishedTrack) :=
  match ks with
  | [] => Ret m
  | k :: ks' =>
      match m !! k with
      | None => bind_loop m ks' peer_err tcs acks
      | Some pt =>
          '(pt, _) ← PublishedTrack_Bind pt peer_err tcs (acks k);
          bind_loop (<[k := pt]> m) ks' peer_err tcs acks
      end
  end.

(** The settings and the peer connection during a [Bind]. *)
Record BindEnv := {
  own_addr : string;
  record_enable : bool;
  makeSegmenter_err : option gerror;
  bind_peer_err : option gerror;
  transceivers : list Transceiver;
  acked : string -> bool
}.

(** [startRecord]: once per publication, a recording consumer on every
    track; [fresh] numbers them. *)
Fixpoint record_all (l : list (string * PublishedTrack)) (fresh : nat) : list (string * PublishedTrack) :=
  match l with
  | [] => []
  | (k, pt) :: l' => (k, (OnRTPPacket pt (fresh, Record_) fresh).1) :: record_all l' (S fresh)
  end.

Definition startRecord (env : BindEnv) (p : Publication) (fresh : nat) : run Publication :=
  if negb (record_enable env) then Ret p
  else if recordStart p then Ret p
  else match makeSegmenter_err env with
       | Some e => error_panic e
       | None => Ret {| pub_id := pub_id p; pub_closed := pub_closed p;
                        tracks := list_to_map (record_all (map_to_list (tracks p)) fresh); recordStart := true |}
       end.

(** [Publication.Bind]: the announcement given to [clusterEmit], if any.
    The tracks of the announcement are in the order of [map_to_list]; Go's
    order is arbitrary. *)
Definition Publication_Bind (env : BindEnv) (p : Publication) (fresh : nat)
    : run (Publication * option StateMessage) :=
  m ← bind_loop (tracks p) (map_to_list (tracks p)).*1 (bind_peer_err env) (transceivers env) (acked env);
  let p := set_tracks p m in
  if isAllBind p then
    p ← startRecord env p fresh;
    Ret (p, Some {| State_Router := None; State_PubId := pub_id p; State_Addr := own_addr env;
                    State_Tracks := (fun kv => pt_track kv.2) <$> map_to_list (tracks p) |})
  else Ret (p, None).

(** [SignalContext.Bind]: [ForEach] stops at the first publication whose
    [Bind] returns true. *)
Fixpoint ctx_Bind (env : BindEnv) (ps : list Publication) (fresh : nat)
    : run (list Publication * list StateMessage) :=
  match ps with
  | [] => Ret ([], [])
  | p :: ps' =>
      '(p, msg) ← Publication_Bind env p fresh;
      match msg with
      | Some msg => Ret (p :: ps', [msg])
      | None => '(ps', msgs) ← ctx_Bind env ps' (fresh + size (tracks p)); Ret (p :: ps', msgs)
      end
  end.

(** [Publication.State]: the bound tracks the request selects. *)
Definition State (p : Publication) (want : WantMessage) : run (list Track) :=
  let ts := (fun kv => pt_track kv.2) <$> filter (fun kv => isBind kv.2 = true) (map_to_list (tracks p)) in
  '(matched, _) ← match_tracks (Want_Pattern want) ts (Want_ReqTypes want);
  Ret matched.

(** [SignalContext.StateWant] after [matchRoom]: the announcements. *)
Fixpoint StateWant (addr : string) (ps : list Publication) (want : WantMessage) : run (list StateMessage) :=
  match ps with
  | [] => Ret []
  | p :: ps' =>
      satified ← State p want;
      rest ← StateWant addr ps' want;
      Ret (if (0 <? length satified)%nat
           then {| State_Router := None; State_PubId := pub_id p; State_Addr := addr; State_Tracks := satified |} :: rest
           else rest)
  end.

(** The literal of [SignalContext.Publish] for the op "add"; [tids] are the
    random ids of the tracks. *)
Fixpoint publish_tracks (pubId : string) (ts : list TrackToPublish) (tids : list string)
    (m : gmap string PublishedTrack) : gmap string PublishedTrack :=
  match ts, tids with
  | t :: ts', tid :: tids' =>
      publish_tracks pubId ts' tids' (<[tid := {| pt_track := {| Type_ := TP_Type t; PubId := pubId; GlobalId := tid;
        LocalId := ""; BindId := TP_BindId t; Rid := TP_Rid t; StreamId := TP_Sid t; Codec := None; Labels := TP_Labels t |};
        remote := None; consumers := []; consumerChan := None |}]> m)
  | _, _ => m
  end.

(** The loop of [Publish] over [uuid.NewString]: the first id not taken. *)
Fixpoint new_id (ps : gmap string Publication) (ids : list string) : run string :=
  match ids with
  | [] => Abort NoFuel
  | id :: ids' => match ps !! id with Some _ => new_id ps ids' | None => Ret id end
  end.

(** [SignalContext.Publish]: the new map of publications, the id and the
    error; [ids] and [tids] are the random ids.  Closing a publication takes
    it out of the map; its tracks see it closed from then on. *)
Definition Publish (ps : gmap string Publication) (message : PublishMessage) (ids tids : list string)
    : run (gmap string Publication * string * option gerror) :=
  match PublishMessage_Validate message with
  | Some e => Ret (ps, "", Some e)
  | None =>
      if (Pub_Op message =? PUB_OP_ADD)%Z then
        pubId ← new_id ps ids;
        Ret (<[pubId := {| pub_id := pubId; pub_closed := false;
               tracks := publish_tracks pubId (Pub_Tracks message) tids ∅; recordStart := false |}]> ps, pubId, None)
      else if (Pub_Op message =? PUB_OP_REMOVE)%Z then
        match ps !! Pub_Id message with
        | Some p => if pub_closed p then go_panic (PMsg "close of closed channel")
                    else Ret (delete (Pub_Id message) ps, Pub_Id message, None)
        | None => Ret (ps, "", None)
        end
      else go_panic (PCode 10000000)
  end.

End Code.

(** ** The remote track *)

Lemma find_rid_sound ts sid rid t :
  find_rid ts sid rid = Some t -> t ∈ ts /\ tr_RID t = rid /\ tr_StreamID t = sid.
Proof.
  induction ts as [|t0 ts IH]; cbn; [done|]. case_decide as Hr.
  - case_decide; [|done]. intros [= <-]. split; [by left|done].
  - intros Hf. destruct (IH Hf) as [? ?]. split; [by right|done].
Qed.

Lemma pick_track_sound tc sid rid t :
  pick_track tc sid rid = Some t ->
  exists ts, tc_Tracks tc = Some ts /\ t ∈ ts /\ tr_StreamID t = sid /\
    (rid <> "" \/ 1 < length ts -> tr_RID t = rid).
Proof.
  unfold pick_track. destruct (tc_Tracks tc) as [ts|]; [|done]. intros Hp. exists ts. split; [done|].
  destruct (Nat.ltb_spec 1 (length ts)) as [Hl|Hl]; [by apply find_rid_sound in Hp as (? & ? & ?)|].
  destruct ts as [|t0 ts]; [done|]. repeat case_decide; simplify_eq; (split; [by left|]); (split; [done|]);
    intros [?|?]; done || (cbn in *; lia).
Qed.

Lemma find_loop_sound tcs : forall i pos sid mid rid t tc,
  find_loop i tcs pos sid mid rid = (Some t, tc) ->
  exists k c, tcs !! k = Some c /\ tc = Some c /\ pick_track c sid rid = Some t /\
    ((pos = -1 /\ tc_Mid c = mid) \/ pos = i + Z.of_nat k)%Z.
Proof.
  induction tcs as [|c tcs IH]; intros i pos sid mid rid t tc; cbn [find_loop]; [done|].
  destruct (((pos =? -1)%Z && bool_decide (tc_Mid c = mid)) || (pos =? i)%Z) eqn:Hc.
  - intros [= Hp <-]. exists 0, c. split; [done|]. split; [done|]. split; [done|].
    apply orb_true_iff in Hc as [[?%Z.eqb_eq ?%bool_decide_eq_true]%andb_true_iff|?%Z.eqb_eq]; [by left|right; lia].
  - intros Hf. destruct (IH _ _ _ _ _ _ _ Hf) as (k & c' & Hk & Ht & Hp & Hpos). exists (S k), c'.
    split; [done|]. split; [done|]. split; [done|]. destruct Hpos; [by left|right; lia].
Qed.

(** ** Consumers *)

Definition chan_of (c : consumer) : option nat := match c with Forward ch => Some ch | Record_ => None end.

(** The reading goroutine runs exactly while there are consumers. *)
Definition track_ok (pt : PublishedTrack) : Prop :=
  NoDup (consumers pt).*1 /\ (consumers pt = [] <-> consumerChan pt = None).

Section Proofs.
Context `{UuidLaws, Webrtc, MapOrderLaws, RtpUnmarshal}.

Lemma send_eof_spec s gid id ch :
  pool_ok (pool s) -> uuid_Parse gid = Some id ->
  exists s' p, send_eof s gid ch = Ret s' /\ world s' = world s /\ pool_ok (pool s') /\
    queue s' = queue s ++ [(ch, p)] /\ carries p gid (datagram MAGIC_EOF id []).
Proof.
  intros Hp Hid. unfold send_eof. destruct (NewEOFPacket_spec gid id (pool s) Hp Hid) as (p & pl & -> & Hpl & Hc).
  eexists _, p. split; [done|]. done.
Qed.

(** One consumer at the end of the stream. *)
Lemma call_consumer_end s closed gid id c e :
  pool_ok (pool s) -> uuid_Parse gid = Some id ->
  exists s' ps, call_consumer s closed gid c (RError true e) = Ret (s', true) /\ pool_ok (pool s') /\
    queue s' = queue s ++ ps /\ ps.*1 = option_list (chan_of c) /\
    Forall (fun q => carries q.2 gid (datagram MAGIC_EOF id [])) ps /\
    world s' = (match c with Forward _ => RemoveTrack (world s) gid | Record_ => world s end).
Proof.
  intros Hp Hid. destruct c as [ch|]; cbn [call_consumer].
  - unfold forward_rtp. edestruct (send_eof_spec (set_world s (RemoveTrack (world s) gid)) gid id ch)
      as (s' & p & E & Hw & Hp' & Hq & Hc); [done|done|].
    rewrite E. cbn [mbind run_bind]. exists s', [(ch, p)]. split; [done|]. split; [done|]. split; [done|].
    split; [done|]. split; [by constructor|done].
  - cbn. eexists _, []. rewrite app_nil_r. split; [done|]. done.
Qed.

Lemma call_consumer_data s gid id c data :
  Unmarshal_ok data = true -> pool_ok (pool s) -> uuid_Parse gid = Some id -> 0 < length data <= 1580 ->
  exists s' ps, call_consumer s false gid c (RData data) = Ret (s', false) /\ pool_ok (pool s') /\
    queue s' = queue s ++ ps /\ ps.*1 = option_list (chan_of c) /\
    Forall (fun q => carries q.2 gid (datagram MAGIC_PACKET id data)) ps /\ world s' = world s.
Proof.
  intros Hu Hp Hid Hl. destruct c as [ch|]; cbn [call_consumer].
  - unfold forward_rtp. destruct (Nat.ltb_spec 0 (length data)); [|lia].
    destruct (NewPacketFromBuf_spec gid id data (pool s) Hp Hid) as (p & pl & -> & Hpl & _ & _ & _ & Hc).
    eexists _, [(ch, p)]. split; [done|]. split; [done|]. split; [done|]. split; [done|].
    split; [constructor; [apply Hc; lia|constructor]|done].
  - cbn. rewrite Hu. eexists _, []. rewrite app_nil_r. split; [done|]. done.
Qed.

Lemma consumes_data_loop gid id data pt cs : forall s,
  GlobalId (pt_track pt) = gid -> Unmarshal_ok data = true ->
  pool_ok (pool s) -> uuid_Parse gid = Some id -> 0 < length data <= 1580 ->
  exists s' ps, consumes_loop s false pt cs (RData data) = Ret (s', pt) /\ pool_ok (pool s') /\
    queue s' = queue s ++ ps /\ ps.*1 = omap chan_of cs.*2 /\
    Forall (fun q => carries q.2 gid (datagram MAGIC_PACKET id data)) ps /\ world s' = world s.
Proof.
  induction cs as [|[i c] cs IH]; intros s Hg Hu Hp Hid Hl; cbn [consumes_loop].
  - exists s, []. rewrite app_nil_r. done.
  - destruct (call_consumer_data s gid id c data Hu Hp Hid Hl) as (s1 & ps1 & E1 & Hp1 & Hq1 & Hc1 & Hf1 & Hw1).
    rewrite Hg, E1. cbn [mbind run_bind]. destruct (IH s1 Hg Hu Hp1 Hid Hl) as (s2 & ps2 & E2 & Hp2 & Hq2 & Hc2 & Hf2 & Hw2).
    rewrite E2. exists s2, (ps1 ++ ps2). split; [done|]. split; [done|].
    split; [by rewrite Hq2, Hq1, app_assoc|]. split; [|split; [by apply Forall_app|congruence]].
    rewrite fmap_app, Hc1, Hc2. cbn. by destruct (chan_of c).
Qed.

Lemma removeConsumer_head pt i c cs :
  consumers pt = (i, c) :: cs -> NoDup (consumers pt).*1 -> is_Some (consumerChan pt) ->
  exists pt', removeConsumer pt i = Ret pt' /\ consumers pt' = cs /\ pt_track pt' = pt_track pt /\
    consumerChan pt' = (match cs with [] => None | _ => consumerChan pt end).
Proof.
  intros Hc Hnd [ch Hch]. unfold removeConsumer. rewrite Hc, filter_cons, decide_False by (cbn; tauto).
  assert (filter (fun x => x.1 <> i) cs = cs) as ->.
  { rewrite Hc in Hnd. cbn in Hnd. apply NoDup_cons in Hnd as [Hni _].
    apply filter_all. apply Forall_forall. intros [j d] Hin. cbn. intros ->. apply Hni.
    apply list_elem_of_fmap. by exists (i, d). }
  destruct cs as [|d cs]; cbn [length Nat.eqb].
  - rewrite Hch. cbn. eexists. split; [done|]. done.
  - eexists. split; [done|]. done.
Qed.

Lemma consumes_end_loop gid id e closed cs : forall s pt,
  GlobalId (pt_track pt) = gid -> consumers pt = cs -> NoDup (consumers pt).*1 ->
  (cs = [] <-> consumerChan pt = None) -> pool_ok (pool s) -> uuid_Parse gid = Some id ->
  exists s' pt' ps, consumes_loop s closed pt cs (RError true e) = Ret (s', pt') /\
    consumers pt' = [] /\ consumerChan pt' = None /\ pool_ok (pool s') /\
    queue s' = queue s ++ ps /\ ps.*1 = omap chan_of cs.*2 /\
    Forall (fun q => carries q.2 gid (datagram MAGIC_EOF id [])) ps /\
    events (world s') = events (world s) /\
    (track2transports (world s) !! gid = None \/ omap chan_of cs.*2 <> [] -> track2transports (world s') !! gid = None).
Proof.
  induction cs as [|[i c] cs IH]; intros s pt Hg Hc Hnd Hch Hp Hid; cbn [consumes_loop].
  - exists s, pt, []. rewrite app_nil_r. do 2 (split; [done|]). split; [by apply Hch|]. do 5 (split; [done|]). cbn.
    intros [?|?]; done.
  - destruct (call_consumer_end s closed gid id c e Hp Hid) as (s1 & ps1 & E1 & Hp1 & Hq1 & Hc1 & Hf1 & Hw1).
    rewrite Hg, E1. cbn [mbind run_bind].
    assert (is_Some (consumerChan pt)) as Hsome.
    { destruct (consumerChan pt); [eauto|]. exfalso. destruct Hch as [_ Hch]. by specialize (Hch eq_refl). }
    destruct (removeConsumer_head pt i c cs Hc Hnd Hsome) as (pt1 & -> & Hcs & Ht & Hch1). cbn [mbind run_bind].
    destruct (IH s1 pt1) as (s2 & pt2 & ps2 & E2 & H1' & H2' & Hp2 & Hq2 & Hc2 & Hf2 & He2 & Ht2); try done.
    + by rewrite Ht.
    + rewrite Hcs. rewrite Hc in Hnd. cbn in Hnd. by apply NoDup_cons in Hnd as [_ ?].
    + rewrite Hch1. destruct cs; [done|]. destruct Hsome as [? ->]. done.
    + rewrite E2. exists s2, pt2, (ps1 ++ ps2). split; [done|]. split; [done|]. split; [done|]. split; [done|].
      split; [by rewrite Hq2, Hq1, app_assoc|]. split; [rewrite fmap_app, Hc1, Hc2; cbn; by destruct (chan_of c)|].
      split; [by apply Forall_app|]. split; [rewrite He2, Hw1; by destruct c|].
      intros Hor. apply Ht2. rewrite Hw1. destruct c as [ch|]; cbn in *.
      * left. apply lookup_delete_eq.
      * done.
Qed.

(** ** What is sent to other nodes *)

Definition is_send (e : event) : bool := match e with EvSend _ _ => true | _ => false end.
Definition sends (w : World) : list event := filter (fun e => is_send e = true) (events w).

Lemma sends_emit w e : is_send e = false -> sends (emit w e) = sends w.
Proof using Type.
  intros He. unfold sends. cbn. rewrite filter_app, filter_cons, decide_False by congruence. by rewrite app_nil_r.
Qed.

Lemma remove_all_sends sub sts : forall w w', remove_all w sub sts = Ret w' -> sends w' = sends w.
Proof using Type.
  induction sts as [|st sts IH]; intros w w' Hr; cbn [remove_all] in Hr; [by injection Hr as <-|].
  apply bind_ret_inv in Hr as (w1 & E & Hr). apply IH in Hr. rewrite Hr. unfold Remove in E. run_inv.
  rewrite <- (sends_emit w (EvRemoveTrack sub (sender st))) by done. done.
Qed.

Lemma unbind_each_sends held a ss : forall w w', unbind_each held w ss a = Ret w' -> sends w' = sends w.
Proof using Type.
  induction ss as [|sub ss IH]; intros w w' Hr; cbn [unbind_each] in Hr; [by injection Hr as <-|].
  apply bind_ret_inv in Hr as (w1 & E & Hr). apply IH in Hr. rewrite Hr. unfold UnbindAccepter in E.
  case_bool_decide; [done|]. apply bind_ret_inv in E as (s & _ & E). by apply remove_all_sends in E.
Qed.

Lemma Accepter_Close_sends held w a force w' b : Accepter_Close held w a force = Ret (w', b) -> sends w' = sends w.
Proof using Type.
  unfold Accepter_Close. intros Hr. apply bind_ret_inv in Hr as (x & _ & Hr). destruct (_ =? 0)%Z.
  - apply bind_ret_inv in Hr as (w1 & E & Hr). apply bind_ret_inv in Hr as (x1 & _ & Hr). injection Hr as <- _.
    by apply unbind_each_sends in E.
  - by injection Hr as <- _.
Qed.

Lemma write_accepter_sends env w a buf w' err : write_accepter env w a buf = Ret (w', err) -> sends w' = sends w.
Proof using Type.
  unfold write_accepter, Accepter_Write. intros Hr. apply bind_ret_inv in Hr as ([w1 e1] & E & Hr).
  apply bind_ret_inv in E as (x & _ & E).
  assert (sends w1 = sends w) as Hs by (destruct (a_closed x); injection E as <- _; [done|by rewrite sends_emit]).
  destruct e1; [apply bind_ret_inv in Hr as (c & _ & Hr)|]; injection Hr as <- _; done.
Qed.

Lemma handle_packet_sends env w p w' :
  track2transports w !! TrackId p = None -> handle_packet env w p = Ret w' -> sends w' = sends w.
Proof using Type.
  intros Ht Hr. unfold handle_packet in Hr. rewrite Ht in Hr. cbn [mbind run_bind] in Hr.
  destruct (track2accepters w !! TrackId p) as [a|]; [|by injection Hr as <-].
  apply bind_ret_inv in Hr as (eof & _ & Hr). destruct eof.
  - apply bind_ret_inv in Hr as ([w1 b] & E & Hr). injection Hr as <-. by apply Accepter_Close_sends in E.
  - apply bind_ret_inv in Hr as (bs & _ & Hr). apply bind_ret_inv in Hr as ([w1 err] & E & Hr).
    apply write_accepter_sends in E. destruct err as [e|]; [|by injection Hr as <-].
    destruct (ignored e); [by injection Hr as <-|]. by apply error_panic_ret in Hr.
Qed.

(** ** Properties *)

(** [findTracksRemoteByMidAndRid] returns only a track of the receiver
    of a transceiver that has the mid, or stands at the position, the bind
    id names, with the stream id asked for, and with the rid asked for
    whenever a rid is given or the receiver has several tracks. *)
Theorem findTracks_sound tcs sid mid rid t tc :
  findTracksRemoteByMidAndRid tcs sid mid rid = Ret (Some t, tc) ->
  exists k c ts, tcs !! k = Some c /\ tc = Some c /\ tc_Tracks c = Some ts /\ t ∈ ts /\
    tr_StreamID t = sid /\ (rid <> "" \/ 1 < length ts -> tr_RID t = rid) /\
    (tc_Mid c = mid \/ (HasPrefix mid "pos:" = true /\ Atoi (drop_string 4 mid) = Some (Z.of_nat k))).
Proof using Type.
  unfold findTracksRemoteByMidAndRid. intros Hf. apply bind_ret_inv in Hf as (pos & Hpos & Hf). injection Hf as Hf.
  apply find_loop_sound in Hf as (k & c & Hk & Htc & Hp & Hor).
  destruct (pick_track_sound _ _ _ _ Hp) as (ts & Hts & Hin & Hs & Hr).
  exists k, c, ts. do 6 (split; [done|]). destruct (HasPrefix mid "pos:").
  - destruct (Atoi (drop_string 4 mid)) as [p|]; [|done]. injection Hpos as ->.
    destruct Hor as [[_ ?]| ->]; [by left|right]. split; [done|]. by f_equal.
  - injection Hpos as <-. left. destruct Hor as [[_ ?]|?]; [done|lia].
Qed.

(** One read of a published track.  An RTP packet of 1 to 1580 bytes puts one
    packet carrying it on the channel of each forwarding consumer, in order,
    and changes neither the consumers nor the router.  The end of the stream
    puts one end-of-stream packet on each of these channels, removes every
    consumer and closes the channel of the reading goroutine, exactly once,
    whatever mix of consumers there is. *)
Theorem consumes_correct s closed pt id data e :
  track_ok pt -> pool_ok (pool s) -> uuid_Parse (GlobalId (pt_track pt)) = Some id ->
  0 < length data <= 1580 -> Unmarshal_ok data = true ->
  (exists s' ps, consumes s false pt (RData data) = Ret (s', pt) /\ world s' = world s /\
     queue s' = queue s ++ ps /\ ps.*1 = omap chan_of (consumers pt).*2 /\
     Forall (fun q => carries q.2 (GlobalId (pt_track pt)) (datagram MAGIC_PACKET id data)) ps) /\
  (exists s' pt' ps, consumes s closed pt (RError true e) = Ret (s', pt') /\
     consumers pt' = [] /\ consumerChan pt' = None /\
     queue s' = queue s ++ ps /\ ps.*1 = omap chan_of (consumers pt).*2 /\
     Forall (fun q => carries q.2 (GlobalId (pt_track pt)) (datagram MAGIC_EOF id [])) ps).
Proof.
  intros [Hnd Hch] Hp Hid Hl Hu. split.
  - destruct (consumes_data_loop _ id data pt (consumers pt) s eq_refl Hu Hp Hid Hl) as (s' & ps & E & _ & Hq & Hc & Hf & Hw).
    exists s', ps. done.
  - destruct (consumes_end_loop _ id e closed (consumers pt) s pt eq_refl eq_refl Hnd Hch Hp Hid)
      as (s' & pt' & ps & E & H1' & H2' & _ & Hq & Hc & Hf & _). exists s', pt', ps. done.
Qed.

(** What is put on the channels for a payload: one packet each. *)
Definition copies (chans : list nat) (dg : list Z) : list (nat * list Z) := (fun ch => (ch, dg)) <$> chans.

Lemma copies_forall2 gid dg : forall chans (ps : list (nat * Packet)),
  ps.*1 = chans -> Forall (fun q => carries q.2 gid dg) ps -> Forall2 (fun q x => q.1 = x.1 /\ carries q.2 gid x.2) ps (copies chans dg).
Proof.
  intros chans ps. revert chans. induction ps as [|q ps IH]; intros [|ch chans] E Hf; try done.
  cbn in E. injection E as <- E. apply Forall_cons in Hf as [Hq Hf]. constructor; [done|by apply IH].
Qed.

(** C29. A published track is read through.  The reading goroutine, for any number of RTP packets and then the end of the stream: on the
    channel of each forwarding consumer it puts a packet for each RTP packet, carrying it, in order, and one end-of-stream
    packet last; then it has removed all consumers, closed its channel once, and it ends without another read. *)
Theorem track_read_through pt id chan ds e rest : forall s,
  track_ok pt -> consumerChan pt = Some chan -> pool_ok (pool s) -> uuid_Parse (GlobalId (pt_track pt)) = Some id ->
  Forall (fun d => 0 < length d <= 1580 /\ Unmarshal_ok d = true) ds ->
  let chans := omap chan_of (consumers pt).*2 in
  exists s' pt' ps, read_loop s false pt chan ((RData <$> ds) ++ RError true e :: rest) = Ret (s', pt', false) /\
    consumers pt' = [] /\ consumerChan pt' = None /\ queue s' = queue s ++ ps /\
    Forall2 (fun q x => q.1 = x.1 /\ carries q.2 (GlobalId (pt_track pt)) x.2) ps
      ((ds ≫= fun d => copies chans (datagram MAGIC_PACKET id d)) ++ copies chans (datagram MAGIC_EOF id [])).
Proof.
  intros s [Hnd Hch] Hc Hp Hid Hd chans. revert s Hp. induction Hd as [|d ds [Hl Hu] Hd IH]; intros s Hp; cbn [fmap list_fmap app].
  - destruct (consumes_end_loop _ id e false (consumers pt) s pt eq_refl eq_refl Hnd Hch Hp Hid)
      as (s' & pt' & ps & E & H1' & H2' & _ & Hq & Hcs & Hf & _).
    exists s', pt', ps. cbn [read_loop]. rewrite decide_True by done. unfold consumes. rewrite E, bind_ret_l.
    split; [destruct rest; cbn [read_loop]; by rewrite decide_False by congruence|]. do 3 (split; [done|]). by apply copies_forall2.
  - destruct (consumes_data_loop _ id d pt (consumers pt) s eq_refl Hu Hp Hid Hl) as (s1 & ps1 & E1 & Hp1 & Hq1 & Hc1 & Hf1 & _).
    destruct (IH s1 Hp1) as (s' & pt' & ps & E & H1' & H2' & Hq & Hf). exists s', pt', (ps1 ++ ps). cbn [read_loop]. rewrite decide_True by done.
    unfold consumes. rewrite E1, bind_ret_l. split; [exact E|]. do 2 (split; [done|]). split; [by rewrite Hq, Hq1, app_assoc|].
    cbn [mbind list_bind]. rewrite <- app_assoc. apply Forall2_app; [by apply copies_forall2|exact Hf].
Qed.

(** The end of a stream does not reach the other nodes: the transports
    of the track are removed before the end-of-stream packet is queued, so
    when the router handles that packet it sends nothing, and the accepters
    of the other nodes stay open. *)
Theorem eof_not_forwarded s closed pt id e s' pt' :
  track_ok pt -> pool_ok (pool s) -> uuid_Parse (GlobalId (pt_track pt)) = Some id ->
  omap chan_of (consumers pt).*2 <> [] ->
  consumes s closed pt (RError true e) = Ret (s', pt') ->
  (exists ps, ps <> [] /\ queue s' = queue s ++ ps /\ Forall (fun q => IsEOF q.2 = Ret true) ps) /\
  forall env p w', TrackId p = GlobalId (pt_track pt) -> handle_packet env (world s') p = Ret w' ->
    sends w' = sends (world s).
Proof.
  intros [Hnd Hch] Hp Hid Hne Hr.
  destruct (consumes_end_loop _ id e closed (consumers pt) s pt eq_refl eq_refl Hnd Hch Hp Hid)
    as (s1 & pt1 & ps & E & _ & _ & _ & Hq & Hc & Hf & Hev & Htr).
  unfold consumes in Hr. rewrite E in Hr. injection Hr as -> ->. split.
  - exists ps. split; [intros ->; by apply Hne|]. split; [done|]. eapply Forall_impl; [exact Hf|].
    intros q (_ & _ & Hw). unfold IsEOF. rewrite Hw. cbn [fmap run_fmap].
    rewrite IsEofPacket_datagram; [done|]. by destruct (Parse_is_uuid _ _ Hid).
  - intros env p w' Ht Hh. apply handle_packet_sends in Hh; [|rewrite Ht; apply Htr; by right].
    rewrite Hh. unfold sends. by rewrite Hev.
Qed.

(** The bound tracks of a publication, in the order [State] looks at them. *)
Definition bound_tracks (p : Publication) : list Track :=
  (fun kv => pt_track kv.2) <$> filter (fun kv => isBind kv.2 = true) (map_to_list (tracks p)).

Lemma bound_tracks_spec p t : t ∈ bound_tracks p <-> exists k pt, tracks p !! k = Some pt /\ isBind pt = true /\ pt_track pt = t.
Proof using Type.
  unfold bound_tracks. rewrite list_elem_of_fmap. setoid_rewrite list_elem_of_filter. split.
  - intros ([k pt] & -> & Hb & Hin). apply elem_of_map_to_list in Hin. exists k, pt. done.
  - intros (k & pt & Hk & Hb & <-). exists (k, pt). split; [done|]. split; [done|]. by apply elem_of_map_to_list.
Qed.

Lemma State_spec p want me :
  Want_Pattern want = Some me -> Validate me = Ret None ->
  exists ts us, State p want = Ret ts /\ ts ++ us ≡ₚ bound_tracks p /\
    forall t, t ∈ ts <-> t ∈ bound_tracks p /\ sat me t /\
      forall ty, ty = "video" \/ ty = "audio" -> ty ∈ Want_ReqTypes want ->
        exists t', t' ∈ bound_tracks p /\ PubId t' = PubId t /\ sat me t' /\ Type_ t' = ty.
Proof.
  intros Hw Hv. unfold State, match_tracks. rewrite Hw. fold (bound_tracks p).
  destruct (MatchTracks_spec range_groups me (bound_tracks p) (Want_ReqTypes want) range_groups_perm Hv) as (ms & us & -> & Hp & Hm).
  cbn [mbind run_bind]. by exists ms, us.
Qed.

(** [Publication.State] with a validated pattern answers exactly the
    bound tracks of the publication that the pattern and the required types
    select. *)
Theorem State_correct p want me :
  Want_Pattern want = Some me -> Validate me = Ret None ->
  exists ts, State p want = Ret ts /\
    forall t, t ∈ ts <->
      (exists k pt, tracks p !! k = Some pt /\ isBind pt = true /\ pt_track pt = t) /\ sat me t /\
      forall ty, ty = "video" \/ ty = "audio" -> ty ∈ Want_ReqTypes want ->
        exists k' pt', tracks p !! k' = Some pt' /\ isBind pt' = true /\ PubId (pt_track pt') = PubId t /\
          sat me (pt_track pt') /\ Type_ (pt_track pt') = ty.
Proof.
  intros Hw Hv. destruct (State_spec p want me Hw Hv) as (ts & us & -> & _ & Hm). exists ts. split; [done|]. intros t.
  rewrite Hm, bound_tracks_spec. setoid_rewrite bound_tracks_spec. split; intros (Hin & Hs & Hty); (split; [done|]; split; [done|]); intros ty Ht Hreq.
  - destruct (Hty ty Ht Hreq) as (t' & (k' & pt' & Hk' & Hb' & <-) & Hpub & Hs' & Hty'). eauto 10.
  - destruct (Hty ty Ht Hreq) as (k' & pt' & Hk' & Hb' & Hpub & Hs' & Hty'). exists (pt_track pt'). eauto 10.
Qed.

End Proofs.

(** ** A concrete node, for the witnesses *)
Module Pub.

#[global] Instance any_rtp : RtpUnmarshal := fun _ => true.

Definition codec : WebrtcCodec := {| w_MimeType := "video/VP8"; w_ClockRate := 90000; w_Channels := 0;
  w_SDPFmtpLine := ""; w_RTCPFeedback := None; w_PayloadType := 96 |}.
Definition remote_track (ptr : nat) (stream : string) : TrackRemote :=
  {| tr_ptr := ptr; tr_ID := Sample.local; tr_StreamID := stream; tr_RID := ""; tr_Codec := codec |}.
Definition tcs : list Transceiver :=
  [{| tc_Mid := "0"; tc_Tracks := Some [remote_track 1 Sample.stream] |};
   {| tc_Mid := "1"; tc_Tracks := Some [remote_track 2 "other"] |}].

Definition track (bind gid stream : string) : PublishedTrack :=
  {| pt_track := {| Type_ := "video"; PubId := Sample.pub; GlobalId := gid; LocalId := ""; BindId := bind; Rid := "";
       StreamId := stream; Codec := None; Labels := None |};
     remote := None; consumers := []; consumerChan := None |}.

Definition publication (id gid : string) (pt : PublishedTrack) : Publication :=
  {| pub_id := id; pub_closed := false; tracks := {[gid := pt]}; recordStart := false |}.

(** A node that knows the address of one subscribing router. *)
Definition node : Node := {| world := publisher; pool := []; queue := []; recorded := [] |}.

Definition select (s : Node) (pt : PublishedTrack) (fresh : nat) : run (Node * PublishedTrack) :=
  '(s, pt, _) ← SatifySelect_track s false pt "t" None tcs fresh; Ret (s, pt).

(** The router handles the packets of its channels. *)
Fixpoint drain (w : World) (q : list (nat * Packet)) : run World :=
  match q with
  | [] => Ret w
  | (_, p) :: q' => w ← handle_packet Sample.env w p; drain w q'
  end.

Definition env : BindEnv := {| own_addr := "pub:1"; record_enable := false; makeSegmenter_err := None;
  bind_peer_err := None; transceivers := tcs; acked _ := true |}.

(** A track with one forwarding consumer. *)
Definition selected_track : PublishedTrack := set_consumers (track "0" Sample.gid Sample.stream) [(1, Forward 1)] (Some 1).

End Pub.

(** Each select adds a consumer, also for a transport that has one already:
    after two selects of a track by the same node, one RTP packet that is
    read once is sent twice to that node. *)
Theorem select_twice_duplicates :
  ('(s, pt) ← Pub.select Pub.node (Pub.track "0" Sample.gid Sample.stream) 1;
   '(s, pt) ← Pub.select s pt 2;
   '(s, pt) ← consumes s false pt (RData [128; 1]%Z);
   w ← Pub.drain (world s) (queue s);
   Ret (length (consumers pt), events w)) =
  Ret (2, [EvSend "sub:1" (datagram MAGIC_PACKET gid_bytes [128; 1]%Z);
           EvSend "sub:1" (datagram MAGIC_PACKET gid_bytes [128; 1]%Z)]).
Proof. vm_compute. reflexivity. Qed.

(** [SignalContext.Bind] stops at the first publication that is completely
    bound: a second publication visited after it, whose remote track is
    there, is never bound, however often [Bind] is called. *)
Theorem bind_starves_second :
  let p1 := Pub.publication "p1" Sample.gid (Pub.track "0" Sample.gid Sample.stream) in
  let p2 := Pub.publication "p2" Sample.local (Pub.track "1" Sample.local "other") in
  let bind ps := match ctx_Bind Pub.env ps 0 with Ret (ps, _) => ps | Abort _ => [] end in
  map isAllBind (bind [p1; p2]) = [true; false] /\
  bind (bind [p1; p2]) = bind [p1; p2] /\
  map isAllBind (bind [p2]) = [true].
Proof. vm_compute. repeat split. Qed.

(** ** Witnesses *)

Lemma findTracks_sound_witness :
  exists k c ts, Pub.tcs !! k = Some c /\ tc_Tracks c = Some ts /\ Pub.remote_track 2 "other" ∈ ts /\
    (tc_Mid c = "pos:1" \/ (HasPrefix "pos:1" "pos:" = true /\ Atoi (drop_string 4 "pos:1") = Some (Z.of_nat k))).
Proof.
  destruct (findTracks_sound Pub.tcs "other" "pos:1" "" (Pub.remote_track 2 "other") (Pub.tcs !! 1))
    as (k & c & ts & H1 & H2 & H3 & H4 & H5 & H6 & H7).
  - vm_compute. reflexivity.
  - exists k, c, ts. split; [exact H1|]. split; [exact H3|]. split; [exact H4|exact H7].
Defined.

Lemma selected_ok : track_ok Pub.selected_track.
Proof. split; [repeat constructor; by apply not_elem_of_nil|]. cbn. split; discriminate. Qed.

Lemma consumes_correct_witness :
  exists s' ps, consumes Pub.node false Pub.selected_track (RData [128; 1]%Z) = Ret (s', Pub.selected_track) /\
    queue s' = [] ++ ps /\ ps.*1 = [1].
Proof.
  destruct (consumes_correct Pub.node false Pub.selected_track gid_bytes [128; 1]%Z (EOther "EOF")) as [Hd _].
  - exact selected_ok.
  - constructor.
  - vm_compute. reflexivity.
  - cbn. lia.
  - reflexivity.
  - destruct Hd as (s' & ps & E & _ & Hq & Hc & _). exists s', ps. split; [exact E|]. split; [exact Hq|exact Hc].
Defined.

Lemma track_read_through_witness :
  exists s' pt' ps, read_loop Pub.node false Pub.selected_track (default 0 (consumerChan Pub.selected_track))
      [RData [128; 1]%Z; RError true (EOther "EOF")] = Ret (s', pt', false) /\ queue s' = [] ++ ps /\ length ps = 2.
Proof.
  destruct (track_read_through Pub.selected_track gid_bytes (default 0 (consumerChan Pub.selected_track)) [[128; 1]%Z] (EOther "EOF") [] Pub.node)
    as (s' & pt' & ps & E & _ & _ & Hq & Hf).
  - exact selected_ok.
  - reflexivity.
  - constructor.
  - vm_compute. reflexivity.
  - repeat constructor.
  - exists s', pt', ps. split; [exact E|]. split; [exact Hq|]. exact (Forall2_length _ _ _ Hf).
Defined.

Lemma eof_not_forwarded_witness :
  exists s' pt', consumes Pub.node false Pub.selected_track (RError true (EOther "EOF")) = Ret (s', pt') /\
    forall env p w', TrackId p = Sample.gid -> handle_packet env (world s') p = Ret w' -> sends w' = [].
Proof.
  destruct (consumes Pub.node false Pub.selected_track (RError true (EOther "EOF"))) as [[s' pt']|] eqn:E.
  - exists s', pt'. split; [reflexivity|].
    apply (eof_not_forwarded Pub.node false Pub.selected_track gid_bytes (EOther "EOF") s' pt').
    + exact selected_ok.
    + constructor.
    + vm_compute. reflexivity.
    + discriminate.
    + exact E.
  - vm_compute in E. discriminate E.
Defined.

Definition video_want : WantMessage := {| Want_Router := None; Want_ReqTypes := [];
  Want_Pattern := Some (Sample.by_type "video"); Want_TransportId := "t" |}.

Lemma State_correct_witness :
  exists ts, State (Pub.publication "p1" Sample.gid (Pub.track "0" Sample.gid Sample.stream)) video_want = Ret ts /\
    forall t, t ∈ ts -> exists k pt,
      tracks (Pub.publication "p1" Sample.gid (Pub.track "0" Sample.gid Sample.stream)) !! k = Some pt /\
      isBind pt = true /\ pt_track pt = t.
Proof.
  destruct (State_correct (Pub.publication "p1" Sample.gid (Pub.track "0" Sample.gid Sample.stream)) video_want
    (Sample.by_type "video")) as (ts & E & Ht).
  - reflexivity.
  - vm_compute. reflexivity.
  - exists ts. split; [exact E|]. intros t Hin. apply Ht in Hin as (Hk & _). exact Hk.
Defined.
