(* ===== verification/Rooms.v ===== *)
(** * Rooms: the room membership and the message handlers of
      [SignalContext] ([signal/model.go])

    A signal context is one connected client.  It joins rooms, announces
    itself there, answers the messages of the cluster that reach it through
    the messager and forwards them to its client.  The state is the identity
    of the client and the map of its rooms; the messages given to
    [Messager.Emit] and the events sent to the client are returned in order.
    What [Emit] does with them is [Messager.v].  [range] enumerates a map in
    the order the runtime chooses. *)
From S2P Require Import Prelude GoStrings Auth Collection RoomPattern PatternMap Pattern Messages Messager.
Local Open Scope string_scope.
Local Open Scope list_scope.

(** [errors.ROOM_NO_RIGHT] *)
Definition ROOM_NO_RIGHT : Z := 13000.

(** ** State *)

Record RoomInfo := { JoinId_ : Z; Joined : bool }.

#[global] Instance RoomInfo_eq_dec : EqDecision RoomInfo.
Proof. solve_decision. Defined.

Record SignalContext := {
  Id : string;
  Auth : AuthInfo;
  node : string;                           (** the node name of the messager *)
  rooms : gmap string RoomInfo
}.

Record UserInfo := {
  UI_SocketId : string;
  UI_Key : string;
  UI_UserId : string;
  UI_UserName : string;
  UI_Role : string;
  UI_Rooms : list string
}.

(** What is sent to the client: the event and its argument.  Each
    message type has its own client value. *)
Inductive client_event :=
  | CParticipantJoin (v : client_value StateParticipantMessage)
  | CParticipantLeave (v : client_value StateLeaveMessage)
  | CPing (v : client_value PingMessage)
  | CPong (v : client_value PongMessage)
  | CCustom (evt : string) (v : client_value CustomMessage)
  | CCustomAck (v : client_value CustomAckMessage).

Section Code.
Context (range : forall A, gmap string A -> list (string * A)).
Arguments range {A} _.

Definition newSignalContext (id node : string) (authInfo : AuthInfo) : SignalContext :=
  {| Id := id; Auth := authInfo; node := node; rooms := ∅ |}.

Definition set_rooms (ctx : SignalContext) (m : gmap string RoomInfo) : SignalContext :=
  {| Id := Id ctx; Auth := Auth ctx; node := node ctx; rooms := m |}.

Definition RoomPaterns (ctx : SignalContext) : list string := Auth_Rooms (Auth ctx).

Definition Rooms (ctx : SignalContext) : list string :=
  (filter (fun kv => Joined kv.2 = true) (range (rooms ctx))).*1.

Definition JoinId (ctx : SignalContext) (room : string) : Z :=
  match rooms ctx !! room with
  | Some info => if Joined info then JoinId_ info else 0
  | None => 0
  end.

Definition MakeUserInfo (ctx : SignalContext) : UserInfo :=
  {| UI_SocketId := Id ctx; UI_Key := Auth_Key (Auth ctx); UI_UserId := UID (Auth ctx);
     UI_UserName := UName (Auth ctx); UI_Role := Role (Auth ctx); UI_Rooms := Rooms ctx |}.

(** The message of the interface [RoomMessage], and [CopyPlain] then
    [FixRouter] on it. *)
Definition copy_fixed `{RoomMessage M} (m : M) (room socket node : string) : M :=
  let c := CopyPlain (Some m) in default c (FixRouter (Some c) room socket node).

(** [clusterEmit]: the messages given to [Messager.Emit]; an error of
    [Emit] is only logged. *)
Definition clusterEmit `{RoomMessage M} (ctx : SignalContext) (message : M) : list M :=
  let room := match GetRouter (Some message) with Some r => Room r | None => "" end in
  if bool_decide (room <> "") then [copy_fixed message room (Id ctx) (node ctx)]
  else (fun room => copy_fixed message room (Id ctx) (node ctx)) <$> Rooms ctx.

Definition matchRoom_ctx `{RoomMessage M} (ctx : SignalContext) (msg : M) : bool :=
  match GetRouter (Some msg) with
  | None => false
  | Some router =>
      if bool_decide (Room router = "") then false
      else negb (JoinId ctx (Room router) =? 0)%Z
  end.

Definition matchSocketTo `{RoomMessage M} (ctx : SignalContext) (msg : M) (strict : bool) : bool :=
  match GetRouter (Some msg) with
  | None => false
  | Some router =>
      if strict then bool_decide (SocketTo router = Id ctx)
      else bool_decide (SocketTo router = "") || bool_decide (SocketTo router = Id ctx)
  end.

Definition StateParticipants (ctx : SignalContext) (message : WantParticipantMessage)
    : list StateParticipantMessage :=
  let room := GetRoom (Some message) in
  if bool_decide (room = "") then []
  else
    let joinId := JoinId ctx room in
    if (joinId =? 0)%Z then []
    else clusterEmit ctx {| StateParticipant_Router := None; StateParticipant_UserId := UID (Auth ctx);
           StateParticipant_UserName := UName (Auth ctx); StateParticipant_SocketId := Id ctx;
           StateParticipant_JoinId := joinId |}.

Definition AcceptParticipants (ctx : SignalContext) (message : StateParticipantMessage) : run (list client_event) :=
  if negb (matchRoom_ctx ctx message) then Ret []
  else v ← ToClientMessage (Some message); Ret [CParticipantJoin v].

Definition StateParticipantLeave (ctx : SignalContext) (message : StateLeaveMessage) : run (list client_event) :=
  if negb (matchRoom_ctx ctx message) then Ret []
  else v ← ToClientMessage (Some message); Ret [CParticipantLeave v].

Definition OnPingMessage (ctx : SignalContext) (message : PingMessage) : run (list client_event) :=
  if negb (matchRoom_ctx ctx message) || negb (matchSocketTo ctx message true) then Ret []
  else v ← ToClientMessage (Some message); Ret [CPing v].

Definition OnPongMessage (ctx : SignalContext) (message : PongMessage) : run (list client_event) :=
  if negb (matchRoom_ctx ctx message) || negb (matchSocketTo ctx message true) then Ret []
  else v ← ToClientMessage (Some message); Ret [CPong v].

Definition OnCustomMessage (ctx : SignalContext) (message : CustomClusterMessage) : run (list client_event) :=
  if negb (matchRoom_ctx ctx message) || negb (matchSocketTo ctx message false) then Ret []
  else v ← ToClientMessage (CustomCluster_Msg message); Ret [CCustom ("custom:" +:+ CustomCluster_Evt message) v].

Definition OnCustomAckMessage (ctx : SignalContext) (message : CustomAckMessage) : run (list client_event) :=
  if negb (matchRoom_ctx ctx message) || negb (matchSocketTo ctx message true) then Ret []
  else v ← ToClientMessage (Some message); Ret [CCustomAck v].

Definition hasRoomRight (ctx : SignalContext) (room : string) : run bool :=
  run_any (fun p => MatchRoom p room) (RoomPaterns ctx).

(** The check of every room asked for: the first without right. *)
Fixpoint check_rights (ctx : SignalContext) (rs : list string) : run (option gerror) :=
  match rs with
  | [] => Ret None
  | room :: rs' =>
      b ← hasRoomRight ctx room;
      if (b : bool) then check_rights ctx rs' else Ret (Some (EConf ROOM_NO_RIGHT))
  end.

(** The loop of [JoinRoom] under the mutex.  [info] is a copy of the map's
    entry: what the first branch assigns to it is lost. *)
Fixpoint join_rooms (m : gmap string RoomInfo) (joined : list string) (rs : list string)
    : gmap string RoomInfo * list string :=
  match rs with
  | [] => (m, joined)
  | room :: rs' =>
      match m !! room with
      | Some info =>
          if negb (Joined info) then join_rooms m (joined ++ [room]) rs'
          else join_rooms m joined rs'
      | None => join_rooms (<[room := {| JoinId_ := 1; Joined := true |}]> m) (joined ++ [room]) rs'
      end
  end.

Definition room_router (room : string) : Router :=
  {| Room := room; NodeFrom := ""; NodeTo := ""; SocketFrom := ""; SocketTo := "" |}.

(** The rooms to join: those asked for, or the patterns without a star. *)
Definition wanted_rooms (ctx : SignalContext) (rs : list string) : run (list string + gerror) :=
  if (length rs =? 0)%nat then
    let s_rooms := filter (fun p => Contains p "*" = false) (RoomPaterns ctx) in
    if (length s_rooms =? 0)%nat then Ret (inr (EConf InvalidParam_code)) else Ret (inl s_rooms)
  else
    err ← check_rights ctx rs;
    match err with Some e => Ret (inr e) | None => Ret (inl rs) end.

Definition announce (ctx : SignalContext) (room : string) : list StateParticipantMessage :=
  let joinId := JoinId ctx room in
  if negb (joinId =? 0)%Z then
    clusterEmit ctx {| StateParticipant_Router := Some (room_router room);
      StateParticipant_UserId := UID (Auth ctx); StateParticipant_UserName := UName (Auth ctx);
      StateParticipant_SocketId := Id ctx; StateParticipant_JoinId := joinId |}
  else [].

Definition JoinRoom (ctx : SignalContext) (rs : list string)
    : run (SignalContext * list StateParticipantMessage * option gerror) :=
  r ← wanted_rooms ctx rs;
  match r with
  | inr e => Ret (ctx, [], Some e)
  | inl s_rooms =>
      let '(m, joined_rooms) := join_rooms (rooms ctx) [] s_rooms in
      let ctx := set_rooms ctx m in
      Ret (ctx, joined_rooms ≫= announce ctx, None)
  end.

(** The loop of [LeaveRoom] under the mutex: again the assignment to
    [info.Joined] does not reach the map. *)
Fixpoint leave_rooms (m : gmap string RoomInfo) (removed : gmap string Z) (rs : list string) : gmap string Z :=
  match rs with
  | [] => removed
  | room :: rs' =>
      match m !! room with
      | Some info =>
          if Joined info then leave_rooms m (<[room := JoinId_ info]> removed) rs'
          else leave_rooms m removed rs'
      | None => leave_rooms m removed rs'
      end
  end.

Definition LeaveRoom (ctx : SignalContext) (rs : list string) : SignalContext * list StateLeaveMessage :=
  let leaved := leave_rooms (rooms ctx) ∅ rs in
  (ctx, range leaved ≫= fun '(room, joinId) =>
     clusterEmit ctx {| StateLeave_Router := Some (room_router room); StateLeave_UserId := UID (Auth ctx);
       StateLeave_SocketId := Id ctx; StateLeave_JoinId := joinId |}).

End Code.

(** ** Meaning *)

Definition joined (ctx : SignalContext) (room : string) : Prop :=
  exists info, rooms ctx !! room = Some info /\ Joined info = true.

Definition covered (ctx : SignalContext) (room : string) : Prop :=
  exists p, p ∈ RoomPaterns ctx /\ glob (Split dot p) (Split dot room).

(** Every entry of the map is the one [JoinRoom] writes. *)
Definition rooms_ok (m : gmap string RoomInfo) : Prop :=
  forall room info, m !! room = Some info -> info = {| JoinId_ := 1; Joined := true |}.

(** The message a client announces itself with in a room. *)
Definition announcement (ctx : SignalContext) (room : string) : StateParticipantMessage :=
  {| StateParticipant_Router := Some {| Room := room; NodeFrom := node ctx; NodeTo := "";
       SocketFrom := Id ctx; SocketTo := "" |};
     StateParticipant_UserId := UID (Auth ctx); StateParticipant_UserName := UName (Auth ctx);
     StateParticipant_SocketId := Id ctx; StateParticipant_JoinId := 1 |}.

Section Proofs.
Context (range : forall A, gmap string A -> list (string * A)).
Context (range_perm : forall A (m : gmap string A), range A m ≡ₚ map_to_list m).

Lemma joined_JoinId ctx room : rooms_ok (rooms ctx) -> joined ctx room <-> JoinId ctx room = 1%Z.
Proof using Type.
  intros Hok. unfold joined, JoinId. destruct (rooms ctx !! room) as [info|] eqn:Hi.
  - apply Hok in Hi as ->. cbn. split; [done|]. intros _. eauto.
  - split; [naive_solver|discriminate].
Qed.

Lemma not_joined_JoinId ctx room : rooms_ok (rooms ctx) -> ~ joined ctx room -> JoinId ctx room = 0%Z.
Proof using Type.
  intros Hok Hn. unfold JoinId. destruct (rooms ctx !! room) as [info|] eqn:Hi; [|done].
  exfalso. apply Hn. exists info. split; [done|]. by apply Hok in Hi as ->.
Qed.

Lemma Rooms_spec ctx room : room ∈ Rooms range ctx <-> joined ctx room.
Proof.
  unfold Rooms, joined. rewrite list_elem_of_fmap. setoid_rewrite list_elem_of_filter.
  setoid_rewrite range_perm. split.
  - intros ([k info] & -> & Hj & Hin). apply elem_of_map_to_list in Hin. eauto.
  - intros (info & Hi & Hj). exists (room, info). split; [done|]. split; [done|]. by apply elem_of_map_to_list.
Qed.

Lemma Rooms_NoDup ctx : NoDup (Rooms range ctx).
Proof.
  unfold Rooms. eapply sublist_NoDup; [|apply fmap_sublist, sublist_filter].
  rewrite range_perm. apply NoDup_fst_map_to_list.
Qed.

(** ** Joining *)

Lemma join_rooms_spec rs : forall m joined0,
  rooms_ok m ->
  exists m' news, join_rooms m joined0 rs = (m', joined0 ++ news) /\ rooms_ok m' /\ NoDup news /\
    (forall room, room ∈ news <-> room ∈ rs /\ m !! room = None) /\
    (forall room, is_Some (m' !! room) <-> is_Some (m !! room) \/ room ∈ rs).
Proof using Type.
  induction rs as [|r rs IH]; intros m joined0 Hok; cbn [join_rooms].
  - exists m, []. rewrite app_nil_r. split; [done|]. split; [done|]. split; [constructor|].
    split; intros room; [|pose proof (not_elem_of_nil room); tauto]. rewrite elem_of_nil. tauto.
  - destruct (m !! r) as [info|] eqn:Hr.
    + rewrite (Hok _ _ Hr). cbn [Joined negb].
      destruct (IH m joined0 Hok) as (m' & news & -> & Hok' & Hnd & Hn & Hd).
      exists m', news. split; [done|]. split; [done|]. split; [done|].
      split; intros room; rewrite ?Hn, ?Hd, elem_of_cons; [|naive_solver].
      split; [naive_solver|]. intros [[->|?] ?]; [congruence|done].
    + destruct (IH (<[r := {| JoinId_ := 1; Joined := true |}]> m) (joined0 ++ [r])) as (m' & news & -> & Hok' & Hnd & Hn & Hd).
      { intros room info. rewrite lookup_insert_Some. intros [[_ <-]|[_ Hi]]; [done|]. by eapply Hok. }
      exists m', (r :: news). rewrite <- app_assoc. split; [done|]. split; [done|].
      split; [constructor; [|done]; rewrite Hn, lookup_insert_eq; naive_solver|].
      split; intros room.
      * rewrite !elem_of_cons, Hn, lookup_insert_None. destruct (decide (room = r)) as [->|]; naive_solver.
      * rewrite Hd, elem_of_cons, lookup_insert_is_Some'. naive_solver.
Qed.

Lemma hasRoomRight_spec ctx room :
  Forall valid_pattern (RoomPaterns ctx) -> valid_room room ->
  exists b, hasRoomRight ctx room = Ret b /\ (b = true <-> covered ctx room).
Proof using Type.
  intros Hp Hr. unfold hasRoomRight, covered. induction Hp as [|p ps Hpv Hps IH]; cbn [run_any].
  - exists false. split; [done|]. split; [done|]. intros (p & Hp & _). by apply not_elem_of_nil in Hp.
  - destruct (MatchRoom_spec p room Hpv Hr) as (b & -> & Hb). cbn [mbind run_bind].
    setoid_rewrite elem_of_cons. destruct b.
    + exists true. split; [done|]. split; [|done]. intros _. exists p. split; [by left|]. by apply Hb.
    + destruct IH as (b & -> & IH). exists b. split; [done|]. rewrite IH. split; [naive_solver|].
      intros (q & [->|Hq] & Hg); [|eauto]. apply Hb in Hg. done.
Qed.

Lemma check_rights_spec ctx rs :
  Forall valid_pattern (RoomPaterns ctx) -> Forall valid_room rs ->
  (Forall (covered ctx) rs /\ check_rights ctx rs = Ret None) \/
  (~ Forall (covered ctx) rs /\ check_rights ctx rs = Ret (Some (EConf ROOM_NO_RIGHT))).
Proof using Type.
  intros Hp Hr. induction Hr as [|r rs Hrv Hrs IH]; cbn [check_rights]; [left; split; [constructor|done]|].
  destruct (hasRoomRight_spec ctx r Hp Hrv) as (b & -> & Hb). cbn [mbind run_bind]. rewrite Forall_cons.
  destruct b; [|right; split; [naive_solver|done]]. destruct IH as [[? ->]|[? ->]]; [left|right]; naive_solver.
Qed.

(** ** Emitting *)

Lemma copy_fixed_router `{RoomMessageLaws M} (m : M) room socket n :
  GetRouter (Some (copy_fixed m room socket n)) =
    Some (fixRouter (Router_CopyPlain (GetRouter (Some m))) room socket n).
Proof using Type.
  destruct (fix_router_some (CopyPlain (Some m)) room socket n) as [r Hr]. unfold copy_fixed. rewrite Hr.
  change (GetRouter (Some r) = Some (fixRouter (Router_CopyPlain (GetRouter (Some m))) room socket n)).
  rewrite <- Hr.
  by rewrite fix_router_router, copy_plain_router.
Qed.

Lemma announce_spec ctx room :
  rooms_ok (rooms ctx) -> joined ctx room -> room <> "" -> announce range ctx room = [announcement ctx room].
Proof.
  intros Hok Hj Hne. unfold announce. rewrite (proj1 (joined_JoinId _ _ Hok) Hj). cbn [Z.eqb negb].
  unfold clusterEmit. cbn. rewrite bool_decide_eq_true_2 by done. unfold copy_fixed, announcement. cbn.
  unfold fix_router_field, fixRouter. cbn [default Room]. by rewrite decide_False.
Qed.

(** ** Contexts a client can reach *)

Inductive reachable (id n : string) (auth : AuthInfo) : SignalContext -> Prop :=
  | reach_new : reachable id n auth (newSignalContext id n auth)
  | reach_join ctx rs ctx' msgs err :
      reachable id n auth ctx -> JoinRoom range ctx rs = Ret (ctx', msgs, err) -> reachable id n auth ctx'
  | reach_leave ctx rs : reachable id n auth ctx -> reachable id n auth (LeaveRoom range ctx rs).1.

Lemma check_rights_none ctx rs :
  check_rights ctx rs = Ret None -> Forall (fun room => hasRoomRight ctx room = Ret true) rs.
Proof using Type.
  induction rs as [|r rs IH]; intros Hc; [constructor|]. cbn [check_rights] in Hc.
  destruct (hasRoomRight ctx r) as [[]|] eqn:Hr; try done. constructor; [done|]. by apply IH.
Qed.

(** The right to be in a room: by a pattern, or because the room is
    itself granted. *)
Definition entitled (auth : AuthInfo) (room : string) : Prop :=
  (exists p, p ∈ Auth_Rooms auth /\ MatchRoom p room = Ret true) \/
  (room ∈ Auth_Rooms auth /\ Contains room "*" = false).

Lemma hasRoomRight_true ctx room :
  hasRoomRight ctx room = Ret true -> exists p, p ∈ RoomPaterns ctx /\ MatchRoom p room = Ret true.
Proof using Type.
  unfold hasRoomRight. induction (RoomPaterns ctx) as [|p ps IH]; cbn [run_any]; [done|].
  destruct (MatchRoom p room) as [[]|] eqn:Hm; cbn [mbind run_bind]; intros Hr; try done.
  - exists p. split; [by left|done].
  - destruct (IH Hr) as (q & Hq & Hmq). exists q. split; [by right|done].
Qed.

Lemma wanted_entitled ctx rs s_rooms :
  wanted_rooms ctx rs = Ret (inl s_rooms) -> Forall (entitled (Auth ctx)) s_rooms.
Proof using Type.
  unfold wanted_rooms. destruct (length rs =? 0)%nat.
  - destruct (length _ =? 0)%nat; intros E; [done|]. injection E as <-.
    apply Forall_forall. intros room [Hc Hin]%list_elem_of_filter. by right.
  - destruct (check_rights ctx rs) as [[e|]|] eqn:Hc; intros E; try done. cbn in E. injection E as <-.
    apply check_rights_none in Hc. eapply Forall_impl; [exact Hc|]. cbn. intros room Hr. left.
    by apply hasRoomRight_true.
Qed.

Lemma JoinRoom_inv ctx rs ctx' msgs err :
  JoinRoom range ctx rs = Ret (ctx', msgs, err) ->
  (ctx' = ctx /\ msgs = [] /\ is_Some err) \/
  (err = None /\ exists s_rooms m news, wanted_rooms ctx rs = Ret (inl s_rooms) /\
    join_rooms (rooms ctx) [] s_rooms = (m, news) /\ ctx' = set_rooms ctx m /\
    msgs = news ≫= announce range ctx').
Proof using Type.
  unfold JoinRoom. destruct (wanted_rooms ctx rs) as [[s_rooms|e]|] eqn:Hw; cbn [mbind run_bind]; intros E; try done.
  - destruct (join_rooms (rooms ctx) [] s_rooms) as [m news] eqn:Hj. injection E as <- <- <-. right.
    split; [done|]. exists s_rooms, m, news. done.
  - injection E as <- <- <-. left. eauto.
Qed.

Lemma rooms_reachable_ok id n auth ctx :
  reachable id n auth ctx ->
  Id ctx = id /\ node ctx = n /\ Auth ctx = auth /\ rooms_ok (rooms ctx) /\
  forall room, is_Some (rooms ctx !! room) -> entitled auth room.
Proof using Type.
  induction 1 as [|ctx rs ctx' msgs err _ IH Hj|ctx rs _ IH].
  - repeat split; try done. intros room [info Hi]. done.
  - destruct IH as (Ei & En & Ea & Hok & Hen). apply JoinRoom_inv in Hj as [(-> & _)|(_ & sr & m & news & Hw & Hj & -> & _)]; [done|].
    destruct (join_rooms_spec sr (rooms ctx) [] Hok) as (m' & news' & E & Hok' & _ & _ & Hd).
    rewrite Hj in E. injection E as -> _. repeat split; try done. cbn. intros room.
    rewrite Hd. intros [Hr|Hr]; [by apply Hen|]. apply wanted_entitled in Hw. rewrite Ea in Hw.
    eapply Forall_forall in Hw; done.
  - done.
Qed.

(** ** Properties *)

(** C31. [JoinRoom] for named rooms, with well-formed patterns and rooms.
    If the client has the right to all of them, it is afterwards in the
    rooms it was in and in these, and announces itself exactly once in each
    room it was not in, with the join id 1, its id and its node; if it lacks
    the right to one of them, nothing changes, nothing is announced and the
    error is [RoomNoRight]. *)
Theorem JoinRoom_correct id n auth ctx rs :
  reachable id n auth ctx -> Forall valid_pattern (Auth_Rooms auth) -> Forall valid_room rs -> rs <> [] ->
  (Forall (covered ctx) rs ->
     exists ctx' news, JoinRoom range ctx rs = Ret (ctx', announcement ctx <$> news, None) /\
       (forall room, joined ctx' room <-> joined ctx room \/ room ∈ rs) /\
       NoDup news /\ (forall room, room ∈ news <-> room ∈ rs /\ ~ joined ctx room)) /\
  (~ Forall (covered ctx) rs -> JoinRoom range ctx rs = Ret (ctx, [], Some (EConf ROOM_NO_RIGHT))).
Proof.
  intros Hre Hp Hr Hne. destruct (rooms_reachable_ok _ _ _ _ Hre) as (_ & _ & Ea & Hok & _).
  rewrite <- Ea in Hp. unfold JoinRoom, wanted_rooms. destruct rs as [|r0 rs0] eqn:Ers; [done|].
  cbn [length Nat.eqb]. rewrite <- Ers in *. clear Hne.
  assert (forall c room, rooms_ok (rooms c) -> joined c room <-> is_Some (rooms c !! room)) as Hjoin.
  { intros c room Hc. unfold joined. split; [naive_solver|]. intros [info Hi]. exists info. split; [done|].
    by apply Hc in Hi as ->. }
  destruct (check_rights_spec ctx rs Hp Hr) as [[Hc E]|[Hc E]]; rewrite E; cbn [mbind run_bind]; split; try done.
  intros _. destruct (join_rooms_spec rs (rooms ctx) [] Hok) as (m & news & Ej & Hok' & Hnd & Hn & Hd).
  rewrite Ej. cbn [app]. exists (set_rooms ctx m), news.
  assert (forall room, joined (set_rooms ctx m) room <-> joined ctx room \/ room ∈ rs) as Hjm.
  { intros room. rewrite !Hjoin by done. cbn. apply Hd. }
  split; [|split; [done|split; [done|]]].
  - do 3 f_equal. assert (Forall (fun room => announce range (set_rooms ctx m) room = [announcement ctx room]) news) as Hall.
    { apply Forall_forall. intros room Hin. apply Hn in Hin as [Hin _].
      change (announcement ctx room) with (announcement (set_rooms ctx m) room). apply announce_spec; [done|apply Hjm; by right|].
      eapply Forall_forall in Hr; [|exact Hin]. intros Hz. subst room. apply Forall_cons in Hr as [[? _] _]. done. }
    clear -Hall. induction Hall as [|room news Hroom _ IH]; [done|]. cbn. rewrite Hroom. cbn. by f_equal.
  - intros room. rewrite Hn, Hjoin by done. rewrite <- eq_None_not_Some. done.
Qed.

(** C32. A client is only ever in rooms it is entitled to: each room of a
    reachable context is matched by a pattern of its token or is one of the
    star-free entries of the token; its join id is 1. *)
Theorem rooms_entitled id n auth ctx room :
  reachable id n auth ctx -> room ∈ Rooms range ctx -> entitled auth room /\ JoinId ctx room = 1%Z.
Proof.
  intros Hre Hin. destruct (rooms_reachable_ok _ _ _ _ Hre) as (_ & _ & _ & Hok & Hen).
  apply Rooms_spec in Hin. split; [|by apply joined_JoinId].
  destruct Hin as (info & Hi & _). apply Hen. eauto.
Qed.

(** [LeaveRoom] does not make the client leave: it announces the
    departure to the room, but the client is still in the room afterwards,
    still gets its messages, and joining again announces nothing, so the
    other clients are not told that it is there. *)
Theorem LeaveRoom_stays id n auth ctx room :
  reachable id n auth ctx -> joined ctx room -> room <> "" -> hasRoomRight ctx room = Ret true ->
  exists msg ctx', LeaveRoom range ctx [room] = (ctx', [msg]) /\
    StateLeave_SocketId msg = id /\ StateLeave_JoinId msg = 1%Z /\
    (exists r, StateLeave_Router msg = Some r /\ Room r = room) /\
    room ∈ Rooms range ctx' /\
    (forall M (H : RoomMessage M) (m : M) r, GetRouter (Some m) = Some r -> Room r = room -> matchRoom_ctx ctx' m = true) /\
    JoinRoom range ctx' [room] = Ret (ctx', [], None).
Proof.
  intros Hre Hj Hne Hr. destruct (rooms_reachable_ok _ _ _ _ Hre) as (Ei & _ & _ & Hok & _).
  pose proof Hj as (info & Hi & Hji). pose proof (Hok _ _ Hi) as Einfo.
  unfold LeaveRoom. cbn [leave_rooms]. rewrite Hi, Hji.
  assert (range _ (<[room := JoinId_ info]> ∅) = [(room, 1%Z)]) as ->.
  { apply Permutation_singleton_r. rewrite range_perm. rewrite Einfo. cbn. by rewrite insert_empty, map_to_list_singleton. }
  cbn [mbind list_bind app]. unfold clusterEmit. cbn [GetRouter StateLeaveMessage_room mbind option_bind StateLeave_Router Room room_router].
  rewrite bool_decide_eq_true_2 by done. eexists _, ctx. split; [reflexivity|]. cbn. split; [done|]. split; [done|].
  split; [eexists; split; [reflexivity|]; cbn; by destruct (decide _)|].
  split; [by apply Rooms_spec|]. split.
  - intros M HM m r Hm Hroom. unfold matchRoom_ctx. rewrite Hm, Hroom. rewrite bool_decide_eq_false_2 by done.
    by rewrite (proj1 (joined_JoinId _ _ Hok) Hj).
  - unfold JoinRoom, wanted_rooms. cbn [length Nat.eqb check_rights]. rewrite Hr. cbn [mbind run_bind join_rooms].
    rewrite Hi, Hji. cbn. by destruct ctx.
Qed.

(** [clusterEmit] gives the messager one copy of the message for the
    room the message names, or one for each room of the client; each copy is
    routed from this client and this node, and keeps its addressee. *)
Theorem clusterEmit_correct `{RoomMessageLaws M} ctx (m : M) :
  let routed room := Some (fixRouter (Router_CopyPlain (GetRouter (Some m))) room (Id ctx) (node ctx)) in
  let named := match GetRouter (Some m) with Some r => Room r | None => "" end in
  (fun c => GetRouter (Some c)) <$> clusterEmit range ctx m =
    (if decide (named = "") then routed <$> Rooms range ctx else [routed named]) /\
  (forall r, Some r ∈ ((fun c => GetRouter (Some c)) <$> clusterEmit range ctx m) ->
     NodeFrom r = node ctx /\ SocketFrom r = Id ctx /\
     (if decide (named = "") then joined ctx (Room r) else Room r = named)) /\
  NoDup (Rooms range ctx).
Proof.
  intros routed named.
  assert ((fun c => GetRouter (Some c)) <$> clusterEmit range ctx m =
    (if decide (named = "") then routed <$> Rooms range ctx else [routed named])) as E.
  { unfold clusterEmit. fold named. destruct (decide (named = "")) as [Hz|Hz].
    - rewrite bool_decide_eq_false_2 by tauto. rewrite <- list_fmap_compose. apply list_fmap_ext.
      intros _ room _. cbn. apply copy_fixed_router.
    - rewrite bool_decide_eq_true_2 by done. cbn [fmap list_fmap]. by rewrite copy_fixed_router. }
  split; [done|]. split; [|apply Rooms_NoDup]. rewrite E. intros r Hr. unfold routed in Hr.
  destruct (decide (named = "")) as [Hz|Hz].
  - apply list_elem_of_fmap in Hr as (room & [= ->] & Hin). cbn. split; [done|]. split; [done|].
    apply Rooms_spec in Hin. unfold named in Hz. destruct (GetRouter (Some m)) as [r|]; cbn.
    + rewrite decide_True by done. done.
    + rewrite decide_True by done. done.
  - apply list_elem_of_singleton in Hr as [= ->]. cbn. split; [done|]. split; [done|]. unfold named in *.
    destruct (GetRouter (Some m)) as [r|]; [|done]. cbn. by rewrite decide_False.
Qed.

(** ** Handlers *)

Definition in_room (ctx : SignalContext) (r : Router) : Prop := Room r <> "" /\ joined ctx (Room r).

(** The client gets the message, without the names of the nodes, when it
    is in the room and addressed, and nothing otherwise. *)
Definition forwarded {M} (P : Prop) (mk : client_value M -> client_event) (r : Router) `{RoomMessage M}
    (res : run (list client_event)) : Prop :=
  (P -> exists v, res = Ret [mk v] /\ hides_nodes r v) /\ (~ P -> res = Ret []).

Lemma matchRoom_ctx_spec `{RoomMessage M} ctx (m : M) r :
  rooms_ok (rooms ctx) -> GetRouter (Some m) = Some r -> matchRoom_ctx ctx m = true <-> in_room ctx r.
Proof using Type.
  intros Hok Hr. unfold matchRoom_ctx, in_room. rewrite Hr. case_bool_decide as Hz; [naive_solver|].
  destruct (Z.eqb_spec (JoinId ctx (Room r)) 0) as [E|E]; cbn.
  - split; [done|]. intros [_ Hj]. apply joined_JoinId in Hj; [|done]. rewrite Hj in E. done.
  - split; [|done]. intros _. split; [done|]. destruct (rooms ctx !! Room r) as [info|] eqn:Hi.
    + exists info. split; [done|]. by apply Hok in Hi as ->.
    + unfold JoinId in E. by rewrite Hi in E.
Qed.

Lemma forward_spec `{RoomMessageLaws M, !FlatMessage M} (P : Prop) (gate : bool) mk (m : M) r :
  GetRouter (Some m) = Some r -> (gate = true <-> P) ->
  forwarded P mk r (if negb gate then Ret [] else v ← ToClientMessage (Some m); Ret [mk v]).
Proof using Type.
  intros Hr HP. destruct (ToClientMessage_spec m r Hr) as (v & Hv & Hh). split.
  - intros Hp. apply HP in Hp as ->. cbn [negb]. rewrite Hv. cbn. eauto.
  - intros Hp. destruct gate; [exfalso; tauto|]. done.
Qed.

Lemma matchSocketTo_spec `{RoomMessage M} ctx (m : M) r strict :
  GetRouter (Some m) = Some r ->
  matchSocketTo ctx m strict = true <-> SocketTo r = Id ctx \/ (strict = false /\ SocketTo r = "").
Proof using Type.
  intros Hr. unfold matchSocketTo. rewrite Hr. destruct strict; rewrite ?orb_true_iff, !bool_decide_eq_true; naive_solver.
Qed.

(** The handlers forward a routed message to the client exactly when
    the client is in the message's room and, for pings, pongs and
    acknowledgements, is the addressee, or, for custom messages, is the
    addressee or nobody is; what is forwarded does not name the nodes of
    the cluster. *)
Theorem handlers_forward id n auth ctx r :
  reachable id n auth ctx ->
  (forall m, StateParticipant_Router m = Some r -> forwarded (in_room ctx r) CParticipantJoin r (AcceptParticipants ctx m)) /\
  (forall m, StateLeave_Router m = Some r -> forwarded (in_room ctx r) CParticipantLeave r (StateParticipantLeave ctx m)) /\
  (forall m, Ping_Router m = Some r ->
     forwarded (in_room ctx r /\ SocketTo r = id) CPing r (OnPingMessage ctx m)) /\
  (forall m, Pong_Router m = Some r ->
     forwarded (in_room ctx r /\ SocketTo r = id) CPong r (OnPongMessage ctx m)) /\
  (forall m, CustomAck_Router m = Some r ->
     forwarded (in_room ctx r /\ SocketTo r = id) CCustomAck r (OnCustomAckMessage ctx m)) /\
  (forall evt c, Custom_Router c = Some r ->
     forwarded (in_room ctx r /\ (SocketTo r = id \/ SocketTo r = "")) (CCustom ("custom:" +:+ evt)) r
       (OnCustomMessage ctx {| CustomCluster_Evt := evt; CustomCluster_Msg := Some c |})).
Proof using Type.
  intros Hre. destruct (rooms_reachable_ok _ _ _ _ Hre) as (Ei & _ & _ & Hok & _).
  assert (forall M (HM : RoomMessage M) (m : M) strict, GetRouter (Some m) = Some r ->
    matchRoom_ctx ctx m && matchSocketTo ctx m strict = true <->
    in_room ctx r /\ (SocketTo r = id \/ (strict = false /\ SocketTo r = ""))) as Hgate.
  { intros M HM m strict Hm. rewrite andb_true_iff, (matchRoom_ctx_spec _ _ _ Hok Hm), (matchSocketTo_spec _ _ _ _ Hm).
    by rewrite Ei. }
  split_and!; intros.
  - apply forward_spec; [done|]. by apply matchRoom_ctx_spec.
  - apply forward_spec; [done|]. by apply matchRoom_ctx_spec.
  - unfold OnPingMessage. rewrite <- negb_andb. apply forward_spec; [done|]. rewrite Hgate by done. naive_solver.
  - unfold OnPongMessage. rewrite <- negb_andb. apply forward_spec; [done|]. rewrite Hgate by done. naive_solver.
  - unfold OnCustomAckMessage. rewrite <- negb_andb. apply forward_spec; [done|]. rewrite Hgate by done. naive_solver.
  - unfold OnCustomMessage. rewrite <- negb_andb. cbn [CustomCluster_Msg CustomCluster_Evt].
    apply forward_spec; [done|]. rewrite Hgate by done. naive_solver.
Qed.

End Proofs.

(** ** Witnesses *)

Definition range0 (A : Type) (m : gmap string A) : list (string * A) := map_to_list m.

Lemma range0_perm A (m : gmap string A) : range0 A m ≡ₚ map_to_list m.
Proof. done. Qed.

Definition sample_auth : AuthInfo :=
  {| Usage := AUTH_USAGE; Auth_Key := "k"; UID := "u1"; UName := "ann"; Role := "user"; Auth_Rooms := ["a.*"; "lobby"];
     AutoJoin := false; auth_Timestamp := 0; Deadline := 300000; Nonce := 0 |}.

Definition sample_ctx : SignalContext := newSignalContext "s1" "n1" sample_auth.

(** The client in the room [a.x]. *)
Definition sample_in : SignalContext :=
  set_rooms sample_ctx {["a.x" := {| JoinId_ := 1; Joined := true |}]}.

Lemma sample_in_reachable : reachable range0 "s1" "n1" sample_auth sample_in.
Proof.
  eapply (reach_join range0 "s1" "n1" sample_auth sample_ctx ["a.x"]); [apply reach_new|].
  vm_compute. reflexivity.
Qed.

Example join_example :
  match JoinRoom range0 sample_ctx ["a.x"; "lobby"; "a.x"] with
  | Ret (ctx, msgs, None) => (Rooms range0 ctx, map StateParticipant_Router msgs)
  | _ => ([], [])
  end = (["a.x"; "lobby"],
         [Some (Build_Router "a.x" "n1" "" "s1" ""); Some (Build_Router "lobby" "n1" "" "s1" "")]).
Proof. vm_compute. reflexivity. Qed.

Example join_denied :
  JoinRoom range0 sample_ctx ["b.x"] = Ret (sample_ctx, [], Some (EConf ROOM_NO_RIGHT)).
Proof. vm_compute. reflexivity. Qed.

Lemma JoinRoom_correct_witness :
  exists ctx' news, JoinRoom range0 sample_ctx ["a.x"] = Ret (ctx', announcement sample_ctx <$> news, None) /\
    NoDup news /\ (forall room, room ∈ news <-> room ∈ ["a.x"] /\ ~ joined sample_ctx room).
Proof.
  destruct (JoinRoom_correct range0 "s1" "n1" sample_auth sample_ctx ["a.x"]) as [Hok _].
  - apply reach_new.
  - unfold valid_pattern. repeat constructor; discriminate.
  - unfold valid_room. repeat constructor; discriminate.
  - discriminate.
  - destruct Hok as (ctx' & news & E & _ & Hnd & Hn).
    + constructor; [|constructor]. exists "a.*". split; [left|].
      destruct (MatchRoom_spec "a.*" "a.x") as (b & Hm & Hb).
      * unfold valid_pattern. repeat constructor; discriminate.
      * unfold valid_room. repeat constructor; discriminate.
      * apply Hb. vm_compute in Hm. injection Hm as <-. reflexivity.
    + exists ctx', news. split; [exact E|]. split; [exact Hnd|exact Hn].
Defined.

Lemma rooms_entitled_witness : entitled sample_auth "a.x" /\ JoinId sample_in "a.x" = 1%Z.
Proof.
  apply (rooms_entitled range0 range0_perm "s1" "n1" sample_auth sample_in "a.x").
  - exact sample_in_reachable.
  - vm_compute. left.
Defined.

Lemma LeaveRoom_stays_witness :
  exists msg ctx', LeaveRoom range0 sample_in ["a.x"] = (ctx', [msg]) /\ StateLeave_JoinId msg = 1%Z /\
    "a.x" ∈ Rooms range0 ctx' /\ JoinRoom range0 ctx' ["a.x"] = Ret (ctx', [], None).
Proof.
  destruct (LeaveRoom_stays range0 range0_perm "s1" "n1" sample_auth sample_in "a.x")
    as (msg & ctx' & E & _ & J & _ & Hin & _ & Hj).
  - exact sample_in_reachable.
  - exists {| JoinId_ := 1; Joined := true |}. split; reflexivity.
  - discriminate.
  - vm_compute. reflexivity.
  - exists msg, ctx'. split; [exact E|]. split; [exact J|]. split; [exact Hin|exact Hj].
Defined.

Lemma clusterEmit_correct_witness :
  (fun c => GetRouter (Some c)) <$> clusterEmit range0 sample_in {| Ping_Router := None; Ping_MsgId := 7 |} =
    [Some (Build_Router "a.x" "n1" "" "s1" "")].
Proof.
  destruct (clusterEmit_correct range0 range0_perm sample_in {| Ping_Router := None; Ping_MsgId := 7 |}) as [E _].
  rewrite E. vm_compute. reflexivity.
Defined.

Lemma handlers_forward_witness :
  exists v, OnPingMessage sample_in {| Ping_Router := Some (Build_Router "a.x" "n2" "" "s2" "s1"); Ping_MsgId := 7 |}
    = Ret [CPing v] /\ hides_nodes (Build_Router "a.x" "n2" "" "s2" "s1") v.
Proof.
  destruct (handlers_forward range0 "s1" "n1" sample_auth sample_in (Build_Router "a.x" "n2" "" "s2" "s1")
    sample_in_reachable) as (_ & _ & Hping & _).
  apply (Hping {| Ping_Router := Some (Build_Router "a.x" "n2" "" "s2" "s1"); Ping_MsgId := 7 |}).
  - reflexivity.
  - split; [|reflexivity]. split; [discriminate|]. exists {| JoinId_ := 1; Joined := true |}. split; reflexivity.
Defined.
