(* ===== verification/Forwarding.v ===== *)
(** * Forwarding: a subscription across two nodes ([signal/model.go], [signal/router.go])

    How a track gets from a publisher to a subscriber on another node.  The subscription asks the room ([Want]); the
    publisher's context announces the publications that satisfy it ([State]); the subscription connects to
    the publisher's router, takes an accepter for each track and selects them ([Select]); the publisher's context
    then forwards what it reads to the router of the subscriber, whose address it knows from the setup datagram.  The
    messages travel in the room both clients are in; their delivery is [Cluster]. *)
From S2P Require Import Prelude Collection Pattern Messages Packets Routing RoutingInv RoutingAccept RoutingProps Publication Auth Rooms.
Local Open Scope string_scope.
Local Open Scope list_scope.

Section Code.
Context `{Uuid, Webrtc, MapOrder, RtpUnmarshal} (range : forall A, gmap string A -> list (string * A)).

(** ** The handlers of a context *)

(** [SignalContext.StateWant]: the copies given to the messager. *)
Definition ctx_StateWant (ctx : SignalContext) (addr : string) (ps : list Publication) (want : WantMessage) : run (list StateMessage) :=
  if negb (matchRoom_ctx ctx want) then Ret []
  else l ← StateWant addr ps want; Ret (l ≫= clusterEmit range ctx).

(** [SignalContext.AcceptTrack], for the subscriptions of the context in the order of [ForEach]. *)
Fixpoint accept_each (env : Env) (fuel : nat) (subs : list string) (w : World) (msg : StateMessage) : run World :=
  match subs with
  | [] => Ret w
  | sub :: subs => w ← Subscription_AcceptTrack env fuel w sub msg; accept_each env fuel subs w msg
  end.

Definition ctx_AcceptTrack (env : Env) (fuel : nat) (ctx : SignalContext) (subs : list string) (w : World) (msg : StateMessage) : run World :=
  if negb (matchRoom_ctx ctx msg) then Ret w else accept_each env fuel subs w msg.

(** [SignalContext.SatifySelect] *)
Definition ctx_SatifySelect (ctx : SignalContext) (s : Node) (pubs : gmap string Publication) (message : SelectMessage)
    (peer_err : option gerror) (tcs : list Transceiver) (fresh : nat) : run (Node * gmap string Publication) :=
  if negb (matchRoom_ctx ctx message) then Ret (s, pubs)
  else match pubs !! Select_PubId message with
       | None => Ret (s, pubs)
       | Some pub =>
           '(s, pub) ← Publication_SatifySelect s pub message peer_err tcs fresh;
           Ret (s, <[Select_PubId message := pub]> pubs)
       end.
End Code.

(** ** Properties *)

Section Proofs.
Context `{UuidLaws, WebrtcLaws, MapOrderLaws, RtpUnmarshal} (range : forall A, gmap string A -> list (string * A)).

(** A message that is not addressed to another room. *)
Definition for_room `{RoomMessage M} (m : M) (room : string) : Prop :=
  match GetRouter (Some m) with Some r => Room r = "" \/ Room r = room | None => True end.

(** The copy of such a message for a room is one a client in the room takes. *)
Lemma copy_room `{RoomMessageLaws M} (ctx : SignalContext) (m : M) room i n :
  for_room m room -> rooms_ok (rooms ctx) -> room <> "" -> joined ctx room ->
  matchRoom_ctx ctx (copy_fixed m room i n) = true.
Proof.
  intros Hm Hok Hr Hj. pose proof (copy_fixed_router m room i n) as Hc. unfold for_room in Hm.
  assert (Room (fixRouter (Router_CopyPlain (GetRouter (Some m))) room i n) = room) as E.
  { destruct (GetRouter (Some m)) as [r|]; cbn; [|by rewrite decide_True]. destruct Hm as [->| ->]; [by rewrite decide_True|by rewrite decide_False]. }
  eapply matchRoom_ctx_spec; [exact Hok|exact Hc|]. unfold in_room. by rewrite E.
Qed.

(** ** The select *)

Lemma accept_loop_neg env fuel sub ms : forall w tr w' nn' tr',
  accept_loop env fuel sub ms w true tr = Ret (w', nn', tr') -> nn' = true.
Proof.
  induction ms as [|m ms IH]; intros w tr w' nn' tr' Hr; cbn [accept_loop] in Hr; [by injection Hr|].
  destruct (get_sub w sub) as [s|]; [|done]. cbn [mbind run_bind] in Hr. destruct (tracks_of s !! _).
  - destruct (get_acc w _); [|done]. cbn [mbind run_bind] in Hr. by eapply IH.
  - destruct (Router_AcceptTrack _ _ _) as [[w1 a]|]; [|done]. cbn [mbind run_bind] in Hr. destruct (AddTrack_err _ _); [done|].
    destruct (get_acc _ _); [|done]. cbn [mbind run_bind] in Hr. destruct (get_sub _ _); [|done]. cbn [mbind run_bind] in Hr.
    destruct (BindSub _ _ _); [|done]. cbn [mbind run_bind] in Hr. by eapply IH.
Qed.

(** A subscription that held nothing selects what matched. *)
Lemma accept_selects env fuel w sub s msg m ms w' :
  inv w -> subs w !! sub = Some s -> tracks_of s = ∅ ->
  accept_matched env fuel w sub msg (m :: ms) = Ret w' ->
  router_id w' = router_id w /\
  EvSelect sub {| Select_Router := None; Select_PubId := State_PubId msg;
                  Select_TransportId := uuid_String (router_id w); Select_Tracks := m :: ms |} ∈ events w'.
Proof.
  intros I Hs Ht Hr. unfold accept_matched, get_sub in Hr. rewrite Hs in Hr. cbn [go_deref mbind run_bind] in Hr.
  destruct (makeSureExternelConn _ _ _) as [w1|] eqn:Hm; [|done]. cbn [mbind run_bind] in Hr.
  assert (router_id w1 = router_id w) as Hid.
  { revert Hm. unfold makeSureExternelConn. repeat case_match; intros E; try discriminate E; by injection E as <-. }
  destruct (accept_prefix _ _ _ _ _ _ I Hs Hm) as (Hs1 & I1 & S1 & _).
  destruct (makeSurePeer_err env); [done|]. rewrite Hs1 in Hr. cbn [go_deref mbind run_bind] in Hr.
  change (tracks_of (set_acceptedPubId s (State_PubId msg))) with (tracks_of s) in Hr.
  destruct (accept_loop _ _ _ _ _ _ _) as [[[w2 nn] tr]|] eqn:Hl; [|done]. cbn [mbind run_bind] in Hr.
  pose proof (accept_loop_spec _ _ _ _ _ _ _ _ _ _ _ I1 (lookup_insert_eq _ _ _) Hl) as (_ & R & _).
  assert (nn = true) as ->.
  { cbn [accept_loop] in Hl. unfold get_sub in Hl. cbn [put_sub set_subs subs] in Hl. rewrite lookup_insert_eq in Hl. cbn [go_deref mbind run_bind] in Hl.
    cbn [tracks_of set_acceptedTrack acceptedTrack default id] in Hl. rewrite Ht, lookup_empty in Hl.
    destruct (Router_AcceptTrack _ _ _) as [[w3 a]|]; [|done]. cbn [mbind run_bind] in Hl. destruct (AddTrack_err _ _); [done|].
    destruct (get_acc _ _); [|done]. cbn [mbind run_bind] in Hl. destruct (go_deref _); [|done]. cbn [mbind run_bind] in Hl.
    destruct (BindSub _ _ _); [|done]. cbn [mbind run_bind] in Hl. by eapply accept_loop_neg. }
  assert (router_id w2 = router_id w) as Hid2 by (unfold rest1 in R; cbn in R; congruence).
  injection Hr as <-. cbn. rewrite Hid2. split; [done|]. rewrite elem_of_app, elem_of_app. left. right. by apply list_elem_of_singleton.
Qed.

(** ** The publisher *)

(** A track whose remote track is among those of the peer connection. *)
Definition findable (tcs : list Transceiver) (pt : PublishedTrack) : Prop :=
  exists tr tc, findTracksRemoteByMidAndRid tcs (StreamId (pt_track pt)) (BindId (pt_track pt)) (Rid (pt_track pt)) = Ret (Some tr, tc).

(** What a select leaves of the node: all but the transports of the tracks and the next channel. *)
Definition same_node (s s' : Node) : Prop :=
  pool s' = pool s /\ queue s' = queue s /\ same_store (world s) (world s') /\ addrMap (world s') = addrMap (world s) /\
  router_id (world s') = router_id (world s) /\ events (world s') = events (world s).

Lemma same_node_trans s1 s2 s3 : same_node s1 s2 -> same_node s2 s3 -> same_node s1 s3.
Proof. intros (A1 & A2 & (A3 & A4 & A5) & A6 & A7 & A8) (B1 & B2 & (B3 & B4 & B5) & B6 & B7 & B8). unfold same_node, same_store. split_and!; congruence. Qed.

(** The transport is one of those of the track. *)
Definition sends_to (w : World) (g transport : string) : Prop := exists ts, track2transports w !! g = Some ts /\ transport ∈ ts.

Lemma PublishTrack_spec w g transport w' ch :
  PublishTrack w g transport = (w', ch) -> transport <> uuid_String (router_id w) ->
  sends_to w' g transport /\ (forall g' t', sends_to w g' t' -> sends_to w' g' t') /\
  same_store w w' /\ addrMap w' = addrMap w /\ router_id w' = router_id w /\ events w' = events w.
Proof.
  unfold PublishTrack. intros [= <- <-] Hne. rewrite bool_decide_eq_true_2 by done. cbn. split_and!; try done.
  - exists ({[transport]} ∪ default ∅ (track2transports w !! g)). cbn. rewrite lookup_insert_eq. split; [done|set_solver].
  - intros g' t' (ts & Hts & Hin). unfold sends_to. cbn. destruct (decide (g' = g)) as [->|Hg].
    + rewrite Hts, lookup_insert_eq. eexists. split; [done|]. cbn. set_solver.
    + rewrite lookup_insert_ne by done. eauto.
Qed.

(** Each selected track gets one more consumer, which forwards to the transport. *)
Definition selected_by (p p' : Publication) (w' : World) (transport g : string) : Prop :=
  exists pt pt' f ch, tracks p !! g = Some pt /\ tracks p' !! g = Some pt' /\ pt_track pt' = pt_track pt /\
    consumers pt' = consumers pt ++ [(f, Forward ch)] /\ sends_to w' g transport.

Lemma SatifySelect_track_spec s pt transport tcs fresh :
  findable tcs pt -> transport <> uuid_String (router_id (world s)) ->
  exists s' pt' ch, SatifySelect_track s false pt transport None tcs fresh = Ret (s', pt', true) /\ same_node s s' /\
    pt_track pt' = pt_track pt /\ consumers pt' = consumers pt ++ [(fresh, Forward ch)] /\
    sends_to (world s') (GlobalId (pt_track pt)) transport /\ (forall g t, sends_to (world s) g t -> sends_to (world s') g t).
Proof.
  intros (tr & tc & Hf) Hne. unfold SatifySelect_track. rewrite Hf, bind_ret_l.
  destruct (PublishTrack (world s) (GlobalId (pt_track pt)) transport) as [w ch] eqn:Hp.
  destruct (PublishTrack_spec _ _ _ _ _ Hp Hne) as (P1 & P2 & P3 & P4 & P5 & P6).
  unfold OnRTPPacket. destruct (length (consumers pt ++ [(fresh, Forward ch)]) =? 1)%nat;
    (eexists _, _, ch; split; [reflexivity|]; split_and!; try done; split_and!; done).
Qed.

Lemma satify_loop_spec transport tcs ts : forall s p fresh,
  NoDup (GlobalId <$> ts) -> pub_closed p = false -> transport <> uuid_String (router_id (world s)) ->
  (forall t, t ∈ ts -> exists pt, tracks p !! GlobalId t = Some pt /\ GlobalId (pt_track pt) = GlobalId t /\ findable tcs pt) ->
  exists s' p', satify_loop s p ts transport None tcs fresh = Ret (s', p') /\ same_node s s' /\
    (forall g t, sends_to (world s) g t -> sends_to (world s') g t) /\
    (forall g, g ∉ (GlobalId <$> ts) -> tracks p' !! g = tracks p !! g) /\
    (forall t, t ∈ ts -> selected_by p p' (world s') transport (GlobalId t)).
Proof.
  induction ts as [|t ts IH]; intros s p fresh Hn Hc Hne Hall; cbn [satify_loop].
  - exists s, p. split_and!; try done. intros t Ht. by apply not_elem_of_nil in Ht.
  - cbn [fmap list_fmap] in Hn. apply NoDup_cons in Hn as [Hni Hn]. destruct (Hall t) as (pt & Hpt & Hg & Hf); [left|]. rewrite Hpt, Hc.
    destruct (SatifySelect_track_spec s pt transport tcs fresh Hf Hne) as (s1 & pt1 & ch & -> & Hs1 & Ht1 & Hc1 & Hto & Hmono). rewrite bind_ret_l.
    set (p1 := set_tracks p (<[GlobalId t := pt1]> (tracks p))).
    destruct (IH s1 p1 (S fresh)) as (s2 & p2 & -> & Hs2 & Hmono2 & Hout & Hin); [done|done| | |].
    + destruct Hs1 as (_ & _ & _ & _ & -> & _). done.
    + intros t' Ht'. destruct (Hall t') as (pt' & Hpt' & Hrest); [by right|]. exists pt'. split; [|done]. cbn. rewrite lookup_insert_ne; [done|].
      intros E. apply Hni. rewrite E. apply list_elem_of_fmap. eauto.
    + exists s2, p2. split_and!; [done|by eapply same_node_trans|by auto| |].
      * intros g Hgn. cbn in Hgn. apply not_elem_of_cons in Hgn as [Hg1 Hg2]. rewrite Hout by done. cbn. by rewrite lookup_insert_ne.
      * intros t' Ht'. apply elem_of_cons in Ht' as [->|Ht'].
        -- exists pt, pt1, fresh, ch. split_and!; try done; [|by apply Hmono2; rewrite <- Hg].
           rewrite Hout by done. cbn. apply lookup_insert_eq.
        -- destruct (Hin t' Ht') as (q & q' & f & c & Q1 & Q2 & Q3 & Q4 & Q5). exists q, q', f, c. split_and!; try done.
           cbn in Q1. rewrite lookup_insert_ne in Q1; [done|]. intros E. apply Hni. rewrite E. apply list_elem_of_fmap. eauto.
Qed.

(** ** What is announced and what matches *)

Lemma StateWant_ret addr ps want me :
  Want_Pattern want = Some me -> Validate me = Ret None ->
  exists l, StateWant addr ps want = Ret l /\
    forall p ts, p ∈ ps -> State p want = Ret ts -> ts <> [] ->
      {| State_Router := None; State_PubId := pub_id p; State_Addr := addr; State_Tracks := ts |} ∈ l.
Proof.
  intros Hw Hv. induction ps as [|p ps (l & E & IH)]; cbn [StateWant].
  - exists []. split; [done|]. intros p ts Hp. by apply not_elem_of_nil in Hp.
  - destruct (State_spec p want me Hw Hv) as (ts & us & Hs & _). rewrite Hs, bind_ret_l, E, bind_ret_l. eexists. split; [done|].
    intros p' ts' [->|Hp']%elem_of_cons Hs' Hne.
    + rewrite Hs in Hs'. injection Hs' as <-. destruct ts; [done|]. left.
    + destruct (0 <? length ts)%nat; [right|]; by apply IH.
Qed.

(** The tracks of a publication have its keys as ids. *)
Definition keyed (p : Publication) : Prop := forall k pt, tracks p !! k = Some pt -> GlobalId (pt_track pt) = k.

Lemma bound_tracks_nodup p : keyed p -> NoDup (GlobalId <$> bound_tracks p).
Proof.
  intros Hk. unfold bound_tracks. rewrite <- list_fmap_compose.
  replace (_ <$> _) with (filter (fun kv => isBind kv.2 = true) (map_to_list (tracks p))).*1.
  - apply NoDup_fmap_fst.
    + intros x y1 y2 [_ Hy1]%list_elem_of_filter [_ Hy2]%list_elem_of_filter. apply elem_of_map_to_list in Hy1, Hy2. congruence.
    + apply NoDup_filter, NoDup_map_to_list.
  - apply list_fmap_ext. intros i [k pt] Hi. cbn. apply list_elem_of_lookup_2, list_elem_of_filter in Hi as [_ Hi].
    apply elem_of_map_to_list in Hi. by rewrite (Hk k pt Hi).
Qed.

(** Of the announced tracks, the subscription takes those of the types it requires; none is taken twice. *)
Lemma match_again p want me ts req :
  Want_Pattern want = Some me -> Want_ReqTypes want = [] -> Validate me = Ret None -> keyed p -> State p want = Ret ts ->
  exists ms us, match_tracks (Some me) ts req = Ret (ms, us) /\ NoDup (GlobalId <$> ms) /\ (forall t, t ∈ ms -> t ∈ bound_tracks p) /\
    forall t, t ∈ bound_tracks p -> sat me t ->
      (forall ty, ty = "video" \/ ty = "audio" -> ty ∈ req -> exists t', t' ∈ bound_tracks p /\ PubId t' = PubId t /\ sat me t' /\ Type_ t' = ty) ->
      t ∈ ms.
Proof.
  intros Hw Hr Hv Hk Hs. destruct (State_spec p want me Hw Hv) as (ts' & us' & Hs' & Hperm & Hin). rewrite Hs in Hs'. injection Hs' as <-.
  assert (forall t, t ∈ ts <-> t ∈ bound_tracks p /\ sat me t) as Hts.
  { intros t. rewrite Hin, Hr. split; [tauto|]. intros [? ?]. split_and!; try done. intros ty _ Hn. by apply not_elem_of_nil in Hn. }
  pose proof (bound_tracks_nodup p Hk) as Hn. rewrite <- Hperm, fmap_app in Hn. apply NoDup_app in Hn as (Hn & _ & _).
  destruct (MatchTracks_spec range_groups me ts req range_groups_perm Hv) as (ms & us & E & Hp & Hm).
  exists ms, us. split; [exact E|]. rewrite <- Hp, fmap_app in Hn. apply NoDup_app in Hn as (Hn & _ & _). split; [done|]. split.
  - intros t Ht. apply Hm in Ht as (Ht & _). by apply Hts in Ht as [? _].
  - intros t Hb Hsat Hty. apply Hm. split; [by apply Hts|]. split; [done|]. intros ty Ht Hreq. destruct (Hty ty Ht Hreq) as (t' & Hb' & ? & ? & ?).
    exists t'. split; [by apply Hts|done].
Qed.

(** ** The way of a packet *)

Lemma carries_n p g dg : carries p g dg -> n p = length dg.
Proof.
  intros (_ & Hd & Hw). unfold wire in Hw. destruct (decide (n p <= length (data p))) as [Hl|Hl].
  - change 0%Z with (Z.of_nat 0) in Hw. rewrite go_slice_ok in Hw by lia. injection Hw as <-. rewrite drop_0, Nat.sub_0_r, length_take. lia.
  - rewrite go_slice_panics in Hw by lia. done.
Qed.

(** A publisher whose router knows the address of the subscriber's. *)
Lemma read_sends env sp pt g id transport addr f ch data :
  inv (world sp) -> pool_ok (pool sp) -> GlobalId (pt_track pt) = g -> uuid_Parse g = Some id -> (f, Forward ch) ∈ consumers pt ->
  sends_to (world sp) g transport -> addrMap (world sp) !! transport = Some addr ->
  (forall a, ResolveUDPAddr_err env a = None) -> track_Write_err env = None ->
  0 < length data <= 1580 -> Unmarshal_ok data = true ->
  exists sp' pk w', consumes sp false pt (RData data) = Ret (sp', pt) /\ (ch, pk) ∈ queue sp' /\
    handle_packet env (world sp) pk = Ret w' /\ EvSend addr (datagram MAGIC_PACKET id data) ∈ events w'.
Proof.
  intros I Hp Hg Hid Hc (ts & Hts & Hin) Ha Hres Hwr Hl Hu. destruct (Parse_is_uuid _ _ Hid) as [Hl16 _].
  destruct (consumes_data_loop g id data pt (consumers pt) sp Hg Hu Hp Hid Hl) as (sp' & ps & E & _ & Hq & Hch & Hf & _).
  assert (ch ∈ ps.*1) as Hch'.
  { rewrite Hch. apply list_elem_of_omap. exists (Forward ch). split; [|done]. apply list_elem_of_fmap. by exists (f, Forward ch). }
  apply list_elem_of_fmap in Hch' as ([c pk] & -> & Hpk). rewrite Forall_forall in Hf. specialize (Hf _ Hpk).
  change (carries pk g (datagram MAGIC_PACKET id data)) in Hf.
  assert (n pk = length data + 20) as Hn by (rewrite (carries_n _ _ _ Hf), datagram_length, Hl16; cbn; lia).
  destruct (handle_packet_data env (world sp) pk g id data I Hf Hn Hl16 Hres Hwr) as (w' & Ew & Hev).
  exists sp', pk, w'. split_and!; [done|rewrite Hq; apply elem_of_app; by right|done|]. rewrite Hev. apply elem_of_app. right. apply elem_of_app. left.
  apply list_elem_of_fmap. exists addr. split; [done|]. apply list_elem_of_omap. exists transport. split; [|done]. rewrite Hts. cbn.
  rewrite range_set_perm. by apply elem_of_elements.
Qed.

(** ** From one node to the other *)

Context (range_perm : forall A (m : gmap string A), range A m ≡ₚ map_to_list m).

Lemma emitted_in_room `{RoomMessageLaws M} ctx (m : M) room :
  for_room m room -> joined ctx room -> copy_fixed m room (Id ctx) (node ctx) ∈ clusterEmit range ctx m.
Proof.
  intros Hm Hj. unfold clusterEmit. unfold for_room in Hm. set (r := match GetRouter (Some m) with Some r => Room r | None => "" end).
  assert (r = "" \/ r = room) as Hr by (subst r; destruct (GetRouter (Some m)); auto). case_bool_decide as E.
  - destruct Hr as [?| ->]; [done|]. left.
  - apply list_elem_of_fmap. exists room. split; [done|]. by apply Rooms_spec.
Qed.

(** The publisher's side: the context [cp] in the room, the bound tracks of the publication, and what its peer has. *)
Record publishing (tcs : list Transceiver) (cp : SignalContext) (room : string) (sp : Node) (pubs : gmap string Publication) (p : Publication)
    (g : string) (pt : PublishedTrack) : Prop := {
  pg_rooms : rooms_ok (rooms cp);
  pg_joined : joined cp room;
  pg_inv : inv (world sp);
  pg_pool : pool_ok (pool sp);
  pg_pub : pubs !! pub_id p = Some p;
  pg_id : pub_id p <> "";
  pg_open : pub_closed p = false;
  pg_keyed : keyed p;
  pg_found k pt : tracks p !! k = Some pt -> isBind pt = true -> findable tcs pt;
  pg_track : tracks p !! g = Some pt;
  pg_bound : isBind pt = true
}.

(** The subscriber's side: a new subscription of a context in the room, whose pattern the track satisfies. *)
Record subscribing (env : Env) (cq : SignalContext) (room : string) (wq : World) (sub : string) (s : Subscription) (me : PublicationPattern)
    (p : Publication) (pt : PublishedTrack) : Prop := {
  sg_rooms : rooms_ok (rooms cq);
  sg_joined : joined cq room;
  sg_inv : inv wq;
  sg_sub : subs wq !! sub = Some s;
  sg_open : closed s = false;
  sg_new : acceptedPubId s = "" /\ tracks_of s = ∅;
  sg_pattern : pattern s = Some me;
  sg_valid : Validate me = Ret None;
  sg_sat : sat me (pt_track pt);
  sg_types ty : ty = "video" \/ ty = "audio" -> ty ∈ reqTypes s ->
    exists t, t ∈ bound_tracks p /\ PubId t = PubId (pt_track pt) /\ sat me t /\ Type_ t = ty;
  sg_live : live wq (bound_tracks p);
  sg_acceptable : Forall (acceptable env) (bound_tracks p)
}.

Definition works (env : Env) : Prop :=
  makeSurePeer_err env = None /\ (forall a, DialUDP_err env a = None) /\ (forall a, ResolveUDPAddr_err env a = None) /\ track_Write_err env = None.

(** The request of a subscription, for the room it names or for all rooms of the client. *)
Definition want_of (wq : World) (named : string) (s : Subscription) : WantMessage :=
  {| Want_Router := Some (room_router named); Want_ReqTypes := []; Want_Pattern := pattern s; Want_TransportId := uuid_String (router_id wq) |}.
Definition state_of (p : Publication) (addr : string) (ts : list Track) : StateMessage :=
  {| State_Router := None; State_PubId := pub_id p; State_Addr := addr; State_Tracks := ts |}.

(** The request is answered with the track among the tracks. *)
Lemma want_answered env tcs cp cq room sp pubs ps p g pt wq sub s me addr named :
  publishing tcs cp room sp pubs p g pt -> subscribing env cq room wq sub s me p pt -> room <> "" -> named = "" \/ named = room -> p ∈ ps ->
  let want := copy_fixed (want_of wq named s) room (Id cq) (node cq) in
  exists states ts, ctx_StateWant range cp addr ps want = Ret states /\ State p want = Ret ts /\ pt_track pt ∈ ts /\
    copy_fixed (state_of p addr ts) room (Id cp) (node cp) ∈ states.
Proof.
  intros P S Hroom Hnm Hp want. subst want. set (want := copy_fixed (want_of wq named s) room (Id cq) (node cq)).
  assert (Want_Pattern want = Some me) as Hw by (change (Want_Pattern want) with (pattern s); apply S).
  unfold ctx_StateWant. unfold want at 1. rewrite (copy_room cp (want_of wq named s) room _ _) by (done || apply P). cbn [negb].
  destruct (StateWant_ret addr ps want me Hw (sg_valid _ _ _ _ _ _ _ _ _ S)) as (l & -> & Hl). rewrite bind_ret_l.
  destruct (State_spec p want me Hw (sg_valid _ _ _ _ _ _ _ _ _ S)) as (ts & us & Hs & _ & Hin).
  assert (pt_track pt ∈ ts) as Ht.
  { apply Hin. split; [apply bound_tracks_spec; exists g, pt; split_and!; [apply P|apply P|done]|]. split; [apply S|].
    intros ty _ Hn. by apply not_elem_of_nil in Hn. }
  eexists _, ts. split; [reflexivity|]. split_and!; [done|done|]. apply list_elem_of_bind. exists (state_of p addr ts). split.
  - apply emitted_in_room; [done|apply P].
  - apply Hl; [done|done|]. intros ->. by apply not_elem_of_nil in Ht.
Qed.

(** The announcement is accepted, and the track is among those selected. *)
Lemma state_accepted env tcs cp cq room sp pubs p g pt wq sub s me addr named ts i n :
  publishing tcs cp room sp pubs p g pt -> subscribing env cq room wq sub s me p pt -> works env -> room <> "" ->
  State p (copy_fixed (want_of wq named s) room (Id cq) (node cq)) = Ret ts ->
  exists wq' s' st ms, ctx_AcceptTrack env 1 cq [sub] wq (copy_fixed (state_of p addr ts) room i n) = Ret wq' /\
    inv wq' /\ subs wq' !! sub = Some s' /\ tracks_of s' !! g = Some st /\
    NoDup (GlobalId <$> ms) /\ (forall t, t ∈ ms -> t ∈ bound_tracks p) /\ pt_track pt ∈ ms /\
    EvSelect sub {| Select_Router := None; Select_PubId := pub_id p; Select_TransportId := uuid_String (router_id wq); Select_Tracks := ms |} ∈ events wq'.
Proof.
  intros P S (W1 & W2 & W3 & W4) Hroom Hs. set (sm := copy_fixed (state_of p addr ts) room i n).
  set (want := copy_fixed (want_of wq named s) room (Id cq) (node cq)) in Hs.
  assert (Want_Pattern want = Some me) as Hw by (change (Want_Pattern want) with (pattern s); apply S).
  destruct (match_again p want me ts (reqTypes s) Hw eq_refl (sg_valid _ _ _ _ _ _ _ _ _ S) (pg_keyed _ _ _ _ _ _ _ _ P) Hs)
    as (ms & us & Hm & Hnd & Hin & Hall).
  assert (pt_track pt ∈ ms) as Ht.
  { apply Hall; [apply bound_tracks_spec; exists g, pt; split_and!; [apply P|apply P|done]|apply S|apply (sg_types _ _ _ _ _ _ _ _ _ S)]. }
  pose proof (sg_inv _ _ _ _ _ _ _ _ _ S) as I. pose proof (sg_sub _ _ _ _ _ _ _ _ _ S) as Hsb. destruct (sg_new _ _ _ _ _ _ _ _ _ S) as [Hap Htr].
  unfold ctx_AcceptTrack. unfold sm at 1. rewrite (copy_room cq (state_of p addr ts) room i n) by (done || apply S). cbn [negb accept_each].
  assert (Subscription_AcceptTrack env 1 wq sub sm = accept_matched env 1 wq sub sm ms) as ->.
  { unfold Subscription_AcceptTrack, get_sub. rewrite Hsb. cbn [go_deref mbind run_bind]. rewrite (sg_open _ _ _ _ _ _ _ _ _ S).
    rewrite bool_decide_eq_false_2 by (rewrite Hap; naive_solver). rewrite (sg_pattern _ _ _ _ _ _ _ _ _ S).
    change (State_Tracks sm) with ts. rewrite Hm. cbn [mbind run_bind].
    change (State_PubId sm) with (pub_id p). rewrite bool_decide_eq_false_2 by (rewrite Hap; intros E; by apply (pg_id _ _ _ _ _ _ _ _ P)).
    destruct ms; [by apply not_elem_of_nil in Ht|done]. }
  destruct (accept_matched_total env 0 wq sub s sm ms I Hsb W1 (W2 _) (W3 _)) as (wq' & E).
  { intros m k x Hmm. apply (sg_live _ _ _ _ _ _ _ _ _ S). by apply Hin. }
  { apply Forall_forall. intros t Ht'. pose proof (sg_acceptable _ _ _ _ _ _ _ _ _ S) as Ha. rewrite Forall_forall in Ha. apply Ha. by apply Hin. }
  rewrite E, bind_ret_l. destruct (accept_matched_spec _ _ _ _ _ _ _ _ I Hsb (sg_open _ _ _ _ _ _ _ _ _ S) E) as (s' & (I' & Hsubs & _) & _ & Hdom).
  assert (g ∈ dom (tracks_of s')) as Hg.
  { rewrite Hdom. apply elem_of_union_r. unfold gids. apply elem_of_list_to_set, list_elem_of_fmap. exists (pt_track pt).
    split; [symmetry; apply (pg_keyed _ _ _ _ _ _ _ _ P); apply P|done]. }
  apply elem_of_dom in Hg as [st Hst]. destruct ms as [|m ms]; [by apply not_elem_of_nil in Ht|].
  destruct (accept_selects env 1 wq sub s sm m ms wq' I Hsb Htr E) as [_ Hev].
  exists wq', s', st, (m :: ms). split_and!; [done|done|by rewrite Hsubs, lookup_insert_eq|done|done|done|done|exact Hev].
Qed.

(** The select makes the publisher forward the track. *)
Lemma select_forwards tcs cp room sp pubs p g pt transport ms i n fresh :
  publishing tcs cp room sp pubs p g pt -> room <> "" -> transport <> uuid_String (router_id (world sp)) ->
  NoDup (GlobalId <$> ms) -> (forall t, t ∈ ms -> t ∈ bound_tracks p) -> pt_track pt ∈ ms ->
  let sel := {| Select_Router := None; Select_PubId := pub_id p; Select_TransportId := transport; Select_Tracks := ms |} in
  exists sp' p', ctx_SatifySelect cp sp pubs (copy_fixed sel room i n) None tcs fresh = Ret (sp', <[pub_id p := p']> pubs) /\
    same_node sp sp' /\ selected_by p p' (world sp') transport g.
Proof.
  intros P Hroom Hne Hnd Hin Ht sel. unfold ctx_SatifySelect. rewrite (copy_room cp sel room i n) by (done || apply P). cbn [negb].
  change (Select_PubId (copy_fixed sel room i n)) with (pub_id p). rewrite (pg_pub _ _ _ _ _ _ _ _ P). unfold Publication_SatifySelect.
  change (Select_Tracks (copy_fixed sel room i n)) with ms. change (Select_TransportId (copy_fixed sel room i n)) with transport.
  destruct (satify_loop_spec transport tcs ms sp p fresh Hnd (pg_open _ _ _ _ _ _ _ _ P) Hne) as (sp' & p' & -> & Hsame & _ & _ & Hsel).
  - intros t Hms. apply Hin, bound_tracks_spec in Hms as (k & pt' & Hk & Hb & <-). exists pt'. rewrite (pg_keyed _ _ _ _ _ _ _ _ P k pt' Hk).
    split_and!; [done|done|by eapply (pg_found _ _ _ _ _ _ _ _ P)].
  - rewrite bind_ret_l. exists sp', p'. split_and!; [done|done|]. rewrite <- (pg_keyed _ _ _ _ _ _ _ _ P g pt (pg_track _ _ _ _ _ _ _ _ P)). by apply Hsel.
Qed.

(** C2. A subscription on another node gets the track.  A context in the room has a publication with a bound track, and a new
    subscription of a context in the same room, on a node with another router, has a pattern the track satisfies.
    The request of the subscription is answered with an announcement of the track; accepting it gives the
    subscription an accepter for the track and selects it; the select makes the publisher forward it, with
    one more consumer.  Once the setup datagram of the subscriber's router has come, from any address, each
    RTP packet read from the track is sent to that address, and the datagram, when it arrives, is written to the
    accepter of the subscription, and to nothing else. *)
Theorem subscription_flows env tcs cp cq room sp pubs ps p g id pt wq sub s me named fresh :
  publishing tcs cp room sp pubs p g pt -> subscribing env cq room wq sub s me p pt -> works env ->
  room <> "" -> named = "" \/ named = room -> p ∈ ps -> uuid_Parse g = Some id -> uuid_String id = g -> is_uuid (router_id wq) ->
  uuid_String (router_id wq) <> uuid_String (router_id (world sp)) ->
  let want := copy_fixed (want_of wq named s) room (Id cq) (node cq) in
  exists states ts wq' s' st sel sp' p' pt' f ch,
    let state := copy_fixed (state_of p (router_addr (world sp)) ts) room (Id cp) (node cp) in
    want ∈ clusterEmit range cq (want_of wq named s) /\
    ctx_StateWant range cp (router_addr (world sp)) ps want = Ret states /\ state ∈ states /\
    ctx_AcceptTrack env 1 cq [sub] wq state = Ret wq' /\ subs wq' !! sub = Some s' /\ tracks_of s' !! g = Some st /\
    EvSelect sub sel ∈ events wq' /\
    ctx_SatifySelect cp sp pubs (copy_fixed sel room (Id cq) (node cq)) None tcs fresh = Ret (sp', <[pub_id p := p']> pubs) /\
    tracks p' !! g = Some pt' /\ consumers pt' = consumers pt ++ [(f, Forward ch)] /\
    forall addr, exists setup w, NewSetupPacketBuf (Some (router_id wq)) = Ret setup /\ handle_setup (world sp') setup 24 addr = Ret w /\
      forall data, 0 < length data <= 1580 -> Unmarshal_ok data = true ->
        exists sp2 pk w2 dg wq2, consumes (set_world sp' w) false pt' (RData data) = Ret (sp2, pt') /\ (ch, pk) ∈ queue sp2 /\
          handle_packet env w pk = Ret w2 /\ EvSend addr dg ∈ events w2 /\
          handle_external env wq' dg = Ret (wq2, false) /\ events wq2 = events wq' ++ [EvTrackWrite (st_accepter st) data].
Proof.
  intros P S W Hroom Hnm Hp Hid Hcan Hru Hne want. pose proof W as (W1 & W2 & W3 & W4).
  destruct (want_answered env tcs cp cq room sp pubs ps p g pt wq sub s me (router_addr (world sp)) named P S Hroom Hnm Hp) as (states & ts & E1 & Hs & _ & Hst).
  destruct (state_accepted env tcs cp cq room sp pubs p g pt wq sub s me (router_addr (world sp)) named ts (Id cp) (node cp) P S W Hroom Hs)
    as (wq' & s' & st & ms & E2 & I' & Hs' & Hg & Hnd & Hin & Ht & Hev).
  destruct (select_forwards tcs cp room sp pubs p g pt (uuid_String (router_id wq)) ms (Id cq) (node cq) fresh P Hroom Hne Hnd Hin Ht)
    as (sp' & p' & E3 & (Hpool & Hq & Hst' & Ham & Hri & Hevs) & pt0 & pt' & f & ch & Hpt0 & Hpt' & Htr & Hc & Hto).
  rewrite (pg_track _ _ _ _ _ _ _ _ P) in Hpt0. injection Hpt0 as <-.
  exists states, ts, wq', s', st.
  exists {| Select_Router := None; Select_PubId := pub_id p; Select_TransportId := uuid_String (router_id wq); Select_Tracks := ms |}, sp', p', pt', f, ch.
  cbv zeta. split; [apply emitted_in_room; [exact Hnm|apply S]|].
  do 9 (split; [eassumption|]). intros addr.
  destruct (setup_handshake env (world sp') wq (router_id wq) addr Hru) as (setup & _ & w & E4 & _ & E5 & Hmap & _).
  exists setup, w. split; [done|]. split; [done|]. intros data Hl Hu.
  assert (same_store (world sp') w /\ track2transports w = track2transports (world sp')) as [Hstw Htw].
  { revert E5. unfold handle_setup. intros E5. run_inv. repeat case_match; run_inv; done. }
  assert (inv w) as Iw by (eapply same_store_inv; [exact Hstw|]; eapply same_store_inv; [exact Hst'|apply P]).
  assert (GlobalId (pt_track pt') = g) as Hgid by (rewrite Htr; apply (pg_keyed _ _ _ _ _ _ _ _ P); apply P).
  destruct (read_sends env (set_world sp' w) pt' g id (uuid_String (router_id wq)) addr f ch data) as (sp2 & pk & w2 & C1 & C2 & C3 & C4); try done.
  - cbn. rewrite Hpool. apply P.
  - rewrite Hc. apply elem_of_app. right. by apply list_elem_of_singleton.
  - unfold sends_to. cbn. by rewrite Htw.
  - cbn. rewrite Hmap. apply lookup_insert_eq.
  - destruct (Parse_is_uuid _ _ Hid) as [Hl16 _].
    destruct (handle_external_data env wq' g id data I' Hl16 Hcan) as (wq2 & D1 & D2 & _); [by destruct data; cbn in Hl; [lia|]|done|].
    exists sp2, pk, w2, (datagram MAGIC_PACKET id data), wq2. do 5 (split; [done|]). rewrite D2. f_equal.
    destruct (inv_track _ (proj1 I') _ _ _ _ Hs' Hg) as (_ & Ha & x & Hx & Hop & _). unfold local_writes. by rewrite Ha, Hx, Hop.
Qed.
End Proofs.

(** ** Witnesses *)
Module Toy.

Definition rng (A : Type) : gmap string A -> list (string * A) := map_to_list.

Definition auth (uid : string) : AuthInfo := {| Usage := ""; Auth_Key := ""; UID := uid; UName := uid; Role := ""; Auth_Rooms := ["**"];
  AutoJoin := false; auth_Timestamp := 0; Deadline := 0; Nonce := 0 |}.
Definition in_rooms (id : string) (rs : list string) : SignalContext :=
  set_rooms (newSignalContext id ("node-" +:+ id) (auth id)) (list_to_map ((fun r => (r, {| JoinId_ := 1; Joined := true |})) <$> rs)).
Lemma in_rooms_ok id rs : rooms_ok (rooms (in_rooms id rs)).
Proof.
  intros room info Hi. cbn [rooms in_rooms set_rooms] in Hi. apply elem_of_list_to_map_2, list_elem_of_fmap in Hi as (r & E & _). by injection E.
Qed.

Definition alice : SignalContext := in_rooms "alice" ["room"].
Definition bob : SignalContext := in_rooms "bob" ["room"].

Definition pt : PublishedTrack :=
  {| pt_track := Sample.track; remote := Some (Pub.remote_track 1 Sample.stream); consumers := []; consumerChan := None |}.
Definition p : Publication := Pub.publication Sample.pub Sample.gid pt.
Definition sp : Node := {| world := NewRouter gid_bytes "pub:1"; pool := []; queue := []; recorded := [] |}.
Definition video : PublicationPattern := Sample.by_type "video".
Definition wq : World := Sample.subscribed video.

Lemma alice_publishes : publishing Pub.tcs alice "room" sp {[Sample.pub := p]} p Sample.gid pt.
Proof.
  split; try reflexivity; try done.
  - apply in_rooms_ok.
  - exists {| JoinId_ := 1; Joined := true |}. by split.
  - constructor.
  - intros k q Hq. change (({[Sample.gid := pt]} : gmap string PublishedTrack) !! k = Some q) in Hq. apply lookup_singleton_Some in Hq as [<- <-]. reflexivity.
  - intros k q Hq _. change (({[Sample.gid := pt]} : gmap string PublishedTrack) !! k = Some q) in Hq. apply lookup_singleton_Some in Hq as [_ <-]. eexists _, _. vm_compute. reflexivity.
Qed.

Lemma bob_subscribes :
  subscribing Sample.env bob "room" wq "s" (new_subscription "ctx" (Sample.sub_msg video)) video p pt.
Proof.
  assert (bound_tracks p = [Sample.track]) as Hb by (vm_compute; reflexivity).
  split; [| |apply sample_subscribed_inv|reflexivity|reflexivity|by split|reflexivity|vm_compute; reflexivity| | | |].
  - apply in_rooms_ok.
  - exists {| JoinId_ := 1; Joined := true |}. by split.
  - cbn. left.
  - intros ty _ Hn. cbn [reqTypes new_subscription Sample.sub_msg Sub_ReqTypes] in Hn. exfalso. exact (not_elem_of_nil _ Hn).
  - intros m k x _ Hk. cbn [track2accepters wq Sample.subscribed put_sub set_subs Sample.router0 NewRouter] in Hk. by rewrite lookup_empty in Hk.
  - rewrite Hb. constructor; [|constructor]. split; [reflexivity|]. eexists. vm_compute. reflexivity.
Qed.

Lemma zeros_uuid : is_uuid (router_id wq).
Proof. split; [reflexivity|]. repeat constructor; lia. Qed.

Lemma subscription_flows_witness :
  exists wq' st sp' pt' w pk w2 dg wq2,
    length (consumers pt') = 1%nat /\ handle_packet Sample.env w pk = Ret w2 /\ EvSend "sub:1" dg ∈ events w2 /\
    handle_external Sample.env wq' dg = Ret (wq2, false) /\ events wq2 = events wq' ++ [EvTrackWrite (st_accepter st) [128; 1]%Z] /\
    exists setup, handle_setup (world sp') setup 24 "sub:1" = Ret w.
Proof.
  destruct (subscription_flows rng (fun A m => reflexivity _) Sample.env Pub.tcs alice bob "room" sp {[Sample.pub := p]} [p] p Sample.gid gid_bytes pt
    wq "s" (new_subscription "ctx" (Sample.sub_msg video)) video "" 1) as
    (states & ts & wq' & s' & st & sel & sp' & p' & pt' & f & ch & _ & E1 & Hin & E2 & _ & _ & Hsel & E3 & Hp & Hc & Hall).
  - exact alice_publishes.
  - exact bob_subscribes.
  - repeat split.
  - discriminate.
  - left. reflexivity.
  - apply list_elem_of_here.
  - vm_compute. reflexivity.
  - vm_compute. reflexivity.
  - exact zeros_uuid.
  - vm_compute. discriminate.
  - destruct (Hall "sub:1") as (setup & w & _ & E4 & Hd). destruct (Hd [128; 1]%Z) as (sp2 & pk & w2 & dg & wq2 & _ & _ & E5 & E6 & E7 & E8); [cbn; lia|reflexivity|].
    exists wq', st, sp', pt', w, pk, w2, dg, wq2. split; [rewrite Hc; reflexivity|]. split; [exact E5|]. split; [exact E6|]. split; [exact E7|].
    split; [exact E8|]. exists setup. exact E4.
Defined.

(** Two clients that share two rooms: the select is emitted to both, the publisher takes both, and each RTP packet
    is forwarded twice. *)
Definition carol : SignalContext := in_rooms "carol" ["room"; "lobby"].
Definition dave : SignalContext := in_rooms "dave" ["room"; "lobby"].

Fixpoint each_state (msgs : list StateMessage) (w : World) : run World :=
  match msgs with [] => Ret w | m :: msgs => w ← ctx_AcceptTrack Sample.env 1 dave ["s"] w m; each_state msgs w end.
Fixpoint each_select (msgs : list SelectMessage) (fresh : nat) (s : Node) (pubs : gmap string Publication) : run (Node * gmap string Publication) :=
  match msgs with
  | [] => Ret (s, pubs)
  | m :: msgs => '(s, pubs) ← ctx_SatifySelect carol s pubs m None Pub.tcs fresh; each_select msgs (S fresh) s pubs
  end.
Definition selects (w : World) : list SelectMessage :=
  omap (fun e => match e with EvSelect _ m => Some m | _ => None end) (events w).

Lemma two_rooms_duplicate :
  (states ← ctx_StateWant rng carol "pub:1" [p] (copy_fixed (want_of wq "lobby" (new_subscription "ctx" (Sample.sub_msg video))) "lobby" "dave" "n");
   w ← each_state states wq;
   '(_, pubs) ← each_select (selects w ≫= clusterEmit rng dave) 1 sp {[Sample.pub := p]};
   Ret (length states, length (selects w), (fun q => length ∘ consumers <$> tracks q !! Sample.gid) <$> pubs !! Sample.pub)) =
  Ret (2, 1, Some (Some 2))%nat.
Proof. vm_compute. reflexivity. Qed.
End Toy.
