(* ===== verification/Session.v ===== *)
(** * Session: the life of a [SignalContext] ([signal/main.go], [signal/model.go], [signal/callback.go])

    [InitSignal] joins the rooms, asks the start callback, and enters the
    context into the registry, the messager and the signal; [Subscribe] and
    [Publish] serve requests of the client; [SelfClose] undoes all of it.  A
    node is the shared state they touch: the messager, the registry of
    contexts, the router with the subscriptions of all clients, and the
    context itself.  What leaves the node is a list of effects.  [InitSignal]
    is cut at its registration and at its handlers, since closing takes no
    mutex that it holds.  The answers of HTTP and of the connection are parameters. *)
From S2P Require Import Prelude GoStrings Encoding Auth Collection RoomPattern PatternMap Pattern Messages Messager Registry Config Templates.
From S2P Require Import Packets Routing RoutingInv RoutingProps Publication Rooms.
Local Open Scope string_scope.
Local Open Scope list_scope.

(** ** Callbacks *)

Definition CLOSE_CALLBACK_PREFIX : string := "/conference/close".

Definition CloseCallback (conf : ConferenceConfigure) (id : string) : string :=
  SignalExternalAddress conf +:+ CLOSE_CALLBACK_PREFIX +:+ "/" +:+ QueryEscape id.

Definition slash : Ascii.ascii := Ascii.ascii_of_nat 47.
Definition blank : Ascii.ascii := Ascii.ascii_of_nat 32.

(** The id the handler of the close callback is given for this url: the last segment of its unescaped path; with a slash in it no route matches. *)
Definition close_param (id : string) : option string :=
  p ← PathUnescape (QueryEscape id); if bool_decide (p = "") || has_char slash p then None else Some p.

Lemma close_param_ok id : id <> "" -> has_char slash id = false -> has_char blank id = false -> close_param id = Some id.
Proof.
  intros H0 H1 H2. unfold close_param. rewrite path_of_query. replace (String.string_of_list_ascii _) with id.
  - cbn [mbind option_bind]. by rewrite bool_decide_eq_false_2, H1.
  - clear H0 H1. induction id as [|c id IH]; [done|]. cbn in H2. destruct (decide _) as [|Hc]; [done|]. cbn. unfold plus_spaces at 1.
    rewrite (decide_False (P := c = _)) by done. by rewrite <- IH.
Qed.

(** The id is escaped for a query and not for a path: with a space or a slash in it, it does not arrive. *)
Lemma close_param_lost : close_param "a b" = Some "a+b" /\ close_param "a/b" = None.
Proof. by split. Qed.

(** The tags of a callback url; a tag that is none of them is left out. *)
Definition callback_tag (conf : ConferenceConfigure) (ctx : SignalContext) (tag : string) : string :=
  let a := Rooms.Auth ctx in
  if decide (tag = "key") then QueryEscape (Auth_Key a)
  else if decide (tag = "uid") then QueryEscape (Auth.UID a)
  else if decide (tag = "uname") then QueryEscape (UName a)
  else if decide (tag = "nonce") then Strconv.FormatInt (Nonce a)
  else if decide (tag = "usage") then QueryEscape (Usage a)
  else if decide (tag = "role") then QueryEscape (Role a)
  else if decide (tag = "closeCallback") then QueryEscape (CloseCallback conf (Rooms.Id ctx))
  else "".

Section Callback.
Context `{TemplateLib}.

(** The url of a callback. *)
Definition NewConferenceCallback (template : string) (conf : ConferenceConfigure) (ctx : SignalContext) : run string :=
  if decide (template = "") then Ret ""
  else ExecuteFuncString template (fun tag => Ret (inl (callback_tag conf ctx tag))).
End Callback.

Section Call.
(** [http.Get]: the status or the error. *)
Context (http_get : string -> Z + gerror).

Definition Call (url : string) : list string * (Z + gerror) :=
  if decide (url = "") then ([], inl 0%Z) else ([url], http_get url).
End Call.

(** ** Sending to the client *)

Section Emit.
(** [SendMsg] of attempt [i] under a context that has expired or not: its result, and whether the context
    has expired when it returns. *)
Context {A : Type} (SendMsg : nat -> bool -> (A + gerror) * bool).

(** The loop over the retries; the second component counts what was sent. *)
Fixpoint emit_loop (n i : nat) (expired : bool) : (A + gerror) * nat :=
  let '(r, expired) := SendMsg i expired in
  match r, n with
  | inr _, S n => emit_loop n (S i) expired
  | _, _ => (r, S i)
  end.

(** [_emit]: all attempts share one context. *)
Definition _emit (ack : bool) (retries : Z) : (A + gerror) * nat :=
  if ack then emit_loop (Z.to_nat (if (retries <? 0)%Z then 0 else retries)) 0 false
  else ((SendMsg 0 false).1, 1).

(** Once an attempt timed out, the others are sent all the same and none can succeed: the message is
    delivered as often as there are retries, and reported as failed. *)
Lemma retries_in_vain retries e :
  (0 <= retries)%Z -> SendMsg 0 false = (inr e, true) -> (forall i, exists e', SendMsg i true = (inr e', true)) ->
  exists e', _emit true retries = (inr e', S (Z.to_nat retries)).
Proof.
  intros Hr H0 Hx. unfold _emit. rewrite (proj2 (Z.ltb_ge retries 0)) by done.
  assert (forall n i, exists e', emit_loop n i true = (inr e', S (i + n)%nat)) as Hl.
  { induction n as [|n IH]; intros i; cbn; destruct (Hx i) as [e' ->]; [exists e'; by rewrite Nat.add_0_r|].
    destruct (IH (S i)) as [e'' ->]. exists e''. by rewrite Nat.add_succ_r. }
  destruct (Z.to_nat retries) as [|n]; cbn; rewrite H0; [by eexists|]. apply (Hl n 1).
Qed.
End Emit.

(** ** State *)

(** The goroutine a message of the cluster starts: a method of the context. *)
Inductive goroutine :=
  | GAcceptTrack (ctx : string) (m : StateMessage)
  | GStateWant (ctx : string) (m : WantMessage)
  | GSatifySelect (ctx : string) (m : SelectMessage)
  | GStateParticipants (ctx : string) (m : WantParticipantMessage)
  | GAcceptParticipants (ctx : string) (m : StateParticipantMessage)
  | GStateParticipantLeave (ctx : string) (m : StateLeaveMessage)
  | GOnPingMessage (ctx : string) (m : PingMessage)
  | GOnPongMessage (ctx : string) (m : PongMessage)
  | GOnCustomMessage (ctx : string) (m : CustomClusterMessage)
  | GOnCustomAckMessage (ctx : string) (m : CustomAckMessage).

Inductive effect :=
  | EAnnounce (m : StateParticipantMessage)
  | ELeave (m : StateLeaveMessage)
  | EWant (m : WantMessage)
  | EPing (m : PingMessage)
  | EPong (m : PongMessage)
  | EGet (url : string)
  | EReady (u : UserInfo)
  | EPeerClose
  | EPubClose (id : string)
  | ESignalClose.

(** [address] is the pointer of the context, [sig_evts] the events it handles;
    [sig_close_cb] tells whether the disconnection of the client closes it. *)
Record session := {
  address : nat; sctx_ : SignalContext; inited : bool; s_closed : bool; cancelled : bool;
  close_cb : option string; close_cb_disabled : bool; Peer : bool; peerClosed : bool;
  subscriptions : gset string; publications : gmap string Publication; sig_evts : list string; sig_close_cb : bool
}.

Section Node.
Context `{Uuid, Webrtc, MapOrder, TemplateLib}.

Record node := {
  messager : Messager (R := goroutine); registry : Global; world : World; sess : session; effects : list effect
}.

Definition set_sess (n : node) (s : session) : node :=
  {| messager := messager n; registry := registry n; world := world n; sess := s; effects := effects n |}.
Definition set_messager (n : node) (m : Messager) : node :=
  {| messager := m; registry := registry n; world := world n; sess := sess n; effects := effects n |}.
Definition set_registry (n : node) (g : Global) : node :=
  {| messager := messager n; registry := g; world := world n; sess := sess n; effects := effects n |}.
Definition set_world (n : node) (w : World) : node :=
  {| messager := messager n; registry := registry n; world := w; sess := sess n; effects := effects n |}.
Definition emit (n : node) (es : list effect) : node :=
  {| messager := messager n; registry := registry n; world := world n; sess := sess n; effects := effects n ++ es |}.

Definition with_ctx (s : session) (c : SignalContext) : session :=
  {| address := address s; sctx_ := c; inited := inited s; s_closed := s_closed s; cancelled := cancelled s;
     close_cb := close_cb s; close_cb_disabled := close_cb_disabled s; Peer := Peer s; peerClosed := peerClosed s;
     subscriptions := subscriptions s; publications := publications s; sig_evts := sig_evts s; sig_close_cb := sig_close_cb s |}.
Definition with_inited (s : session) : session :=
  {| address := address s; sctx_ := sctx_ s; inited := true; s_closed := s_closed s; cancelled := cancelled s;
     close_cb := close_cb s; close_cb_disabled := close_cb_disabled s; Peer := Peer s; peerClosed := peerClosed s;
     subscriptions := subscriptions s; publications := publications s; sig_evts := sig_evts s; sig_close_cb := sig_close_cb s |}.
Definition with_close_cb (s : session) (cb : option string) (disabled : bool) : session :=
  {| address := address s; sctx_ := sctx_ s; inited := inited s; s_closed := s_closed s; cancelled := cancelled s;
     close_cb := cb; close_cb_disabled := disabled; Peer := Peer s; peerClosed := peerClosed s;
     subscriptions := subscriptions s; publications := publications s; sig_evts := sig_evts s; sig_close_cb := sig_close_cb s |}.
Definition with_closed (s : session) (cl can pc : bool) : session :=
  {| address := address s; sctx_ := sctx_ s; inited := inited s; s_closed := cl; cancelled := can;
     close_cb := close_cb s; close_cb_disabled := close_cb_disabled s; Peer := Peer s; peerClosed := pc;
     subscriptions := subscriptions s; publications := publications s; sig_evts := sig_evts s; sig_close_cb := sig_close_cb s |}.
Definition with_subs (s : session) (x : gset string) (p : gmap string Publication) : session :=
  {| address := address s; sctx_ := sctx_ s; inited := inited s; s_closed := s_closed s; cancelled := cancelled s;
     close_cb := close_cb s; close_cb_disabled := close_cb_disabled s; Peer := Peer s; peerClosed := peerClosed s;
     subscriptions := x; publications := p; sig_evts := sig_evts s; sig_close_cb := sig_close_cb s |}.
Definition with_evts (s : session) (evts : list string) : session :=
  {| address := address s; sctx_ := sctx_ s; inited := inited s; s_closed := s_closed s; cancelled := cancelled s;
     close_cb := close_cb s; close_cb_disabled := close_cb_disabled s; Peer := Peer s; peerClosed := peerClosed s;
     subscriptions := subscriptions s; publications := publications s; sig_evts := sig_evts s ++ evts; sig_close_cb := true |}.

(** What the registry keeps of the context. *)
Definition self_of (s : session) : Registry.sctx :=
  {| ptr := address s; Registry.Id := Rooms.Id (sctx_ s); Registry.UID := Auth.UID (Rooms.Auth (sctx_ s)) |}.

(** ** Closing *)

Context (range : forall A, gmap string A -> list (string * A)).
Context (http_get : string -> Z + gerror).
Context (send_ready : UserInfo -> option gerror).
Context (conf : ConferenceConfigure).

(** The ten handlers are taken out of the messager. *)
Definition off_handlers (m : Messager (R := goroutine)) (id : string) (pats : list string) : run (Messager (R := goroutine)) :=
  m ← OffState id pats m;
  m ← OffWant id pats m;
  m ← OffSelect id pats m;
  m ← OffWantParticipant id pats m;
  m ← OffStateParticipant id pats m;
  m ← OffStateLeave id pats m;
  m ← OffPing id pats m;
  m ← OffPong id pats m;
  m ← OffCustom id pats m;
  OffCustomAck id pats m.

Definition on_handlers (m : Messager (R := goroutine)) (id : string) (pats : list string) : run (Messager (R := goroutine)) :=
  m ← OnState id (GAcceptTrack id) pats m;
  m ← OnWant id (GStateWant id) pats m;
  m ← OnSelect id (GSatifySelect id) pats m;
  m ← OnWantParticipant id (GStateParticipants id) pats m;
  m ← OnStateParticipant id (GAcceptParticipants id) pats m;
  m ← OnStateLeave id (GStateParticipantLeave id) pats m;
  m ← OnPing id (GOnPingMessage id) pats m;
  m ← OnPong id (GOnPongMessage id) pats m;
  m ← OnCustom id (GOnCustomMessage id) pats m;
  OnCustomAck id (GOnCustomAckMessage id) pats m.

(** The same calls one by one, for they take no mutex of the context. *)
Definition handler_calls (id : string) (pats : list string) : list (Messager (R := goroutine) -> run (Messager (R := goroutine))) :=
  [OnState id (GAcceptTrack id) pats; OnWant id (GStateWant id) pats; OnSelect id (GSatifySelect id) pats;
   OnWantParticipant id (GStateParticipants id) pats; OnStateParticipant id (GAcceptParticipants id) pats;
   OnStateLeave id (GStateParticipantLeave id) pats; OnPing id (GOnPingMessage id) pats; OnPong id (GOnPongMessage id) pats;
   OnCustom id (GOnCustomMessage id) pats; OnCustomAck id (GOnCustomAckMessage id) pats].

Fixpoint run_calls {A} (l : list (A -> run A)) (a : A) : run A :=
  match l with [] => Ret a | f :: l => a ← f a; run_calls l a end.

Definition closePeer (n : node) : node :=
  let s := sess n in
  if peerClosed s then n
  else emit (set_sess n (with_closed s (s_closed s) (cancelled s) true)) (if Peer s then [EPeerClose] else []).

(** [pub.Close] of each publication: out of the map, and its channel closed. *)
Fixpoint close_pubs (l : list (string * Publication)) (n : node) : run node :=
  match l with
  | [] => Ret n
  | (id, p) :: l =>
      let s := sess n in
      let n := set_sess n (with_subs s (subscriptions s) (delete (pub_id p) (publications s))) in
      if pub_closed p then go_panic (PMsg "close of closed channel") else close_pubs l (emit n [EPubClose id])
  end.

Fixpoint close_subs (l : list string) (w : World) : run World :=
  match l with [] => Ret w | sub :: l => w ← Subscription_Close w sub; close_subs l w end.

Definition SelfClose (disableCloseCallback : bool) (n : node) : run node :=
  if s_closed (sess n) then Ret n
  else
    let n := set_sess n (with_closed (sess n) true (cancelled (sess n)) (peerClosed (sess n))) in
    let '(ctx, leaves) := LeaveRoom range (sctx_ (sess n)) (Rooms range (sctx_ (sess n))) in
    let n := emit (set_sess n (with_ctx (sess n) ctx)) (ELeave <$> leaves) in
    let n := set_sess n (with_closed (sess n) true true (peerClosed (sess n))) in
    let n := if disableCloseCallback then set_sess n (with_close_cb (sess n) (close_cb (sess n)) true) else n in
    m ← off_handlers (messager n) (Rooms.Id ctx) (RoomPaterns ctx);
    let n := closePeer (set_messager n m) in
    n ← close_pubs (range _ (publications (sess n))) n;
    w ← close_subs (range_set (subscriptions (sess n))) (world n);
    let n := emit (set_world n w) [ESignalClose] in
    match close_cb_disabled (sess n), close_cb (sess n) with
    | false, Some url => Ret (emit (set_sess n (with_close_cb (sess n) None false)) (EGet <$> (Call http_get url).1))
    | _, _ => Ret n
    end.

(** [Global.CloseSignalContext] when the context found is this one. *)
Definition close_by_id (id : string) (disable : bool) (n : node) : run node :=
  '(g, c) ← CloseSignalContext (registry n) id;
  let n := set_registry n g in
  if decide (c = Some (self_of (sess n))) then SelfClose disable n else Ret n.

(** ** Opening *)

(** Up to the registration: the rooms, the start callback, the close callback. *)
Definition init_begin (n : node) : run (node * option (bool * option gerror)) :=
  let n := set_sess n (with_inited (sess n)) in
  '(n, err) ← (if AutoJoin (Rooms.Auth (sctx_ (sess n))) then
                 '(ctx, ms, err) ← JoinRoom range (sctx_ (sess n)) [];
                 Ret (emit (set_sess n (with_ctx (sess n) ctx)) (EAnnounce <$> ms), err)
               else Ret (n, None));
  match err with
  | Some e => n ← SelfClose true n; Ret (n, Some (true, Some e))
  | None =>
      url ← NewConferenceCallback (OnStart (Callback conf)) conf (sctx_ (sess n));
      let '(gets, st) := Call http_get url in
      let n := emit n (EGet <$> gets) in
      if match st with inl c => ((c =? 0) || (c =? 200))%Z | inr _ => false end then
        cb ← NewConferenceCallback (OnClose (Callback conf)) conf (sctx_ (sess n));
        Ret (set_sess n (with_close_cb (sess n) (Some cb) (close_cb_disabled (sess n))), None)
      else n ← SelfClose true n; Ret (n, Some (false, Some (EConf 1000)))
  end.

Definition init_register (n : node) : node := set_registry n (RegisterSignalContext (registry n) (self_of (sess n))).

Definition init_handlers (n : node) : run node :=
  m ← on_handlers (messager n) (Rooms.Id (sctx_ (sess n))) (RoomPaterns (sctx_ (sess n)));
  Ret (set_messager n m).

Definition handled_events : list string := ["join"; "leave"; "sdp"; "candidate"; "publish"; "subscribe"; "user-info"; "ping"; "pong"].

Definition init_finish (n : node) : node * (bool * option gerror) :=
  let n := set_sess n (with_evts (sess n) handled_events) in
  let u := MakeUserInfo range (sctx_ (sess n)) in
  match send_ready u with
  | None => (emit n [EReady u], (true, None))
  | Some e => (emit n [EReady u], (false, Some e))
  end.

(** [InitSignal]: whether it returns the context, and its error. *)
Definition InitSignal (n : node) : run (node * (bool * option gerror)) :=
  if inited (sess n) then Ret (n, (true, None))
  else
    '(n, early) ← init_begin n;
    match early with
    | Some r => Ret (n, r)
    | None => n ← init_handlers (init_register n); Ret (init_finish n)
    end.

(** ** Requests *)

Fixpoint new_sub_id (taken : gset string) (ids : list string) : run string :=
  match ids with [] => Abort NoFuel | id :: ids => if decide (id ∈ taken) then new_sub_id taken ids else Ret id end.

Definition SUB_NOT_EXIST : gerror := EConf 12000.

Definition want (n : node) (message : SubscribeMessage) : node :=
  emit n (EWant <$> clusterEmit range (sctx_ (sess n))
    {| Want_Router := Some (room_router (Sub_Room message)); Want_ReqTypes := []; Want_Pattern := Sub_Pattern message;
       Want_TransportId := uuid_String (router_id (world n)) |}).

(** [Subscribe] after the message was validated; [ids] are the random ids tried. *)
Definition subscribe_valid (n : node) (message : SubscribeMessage) (ids : list string) (err : option gerror)
    : run (node * string * option gerror) :=
  match err with
  | Some e => Ret (n, "", Some e)
  | None =>
      let s := sess n in
      if (Sub_Op message =? SUB_OP_ADD)%Z then
        subId ← new_sub_id (subscriptions s) ids;
        let n := set_sess n (with_subs s (subscriptions s ∪ {[subId]}) (publications s)) in
        let n := set_world n (put_sub (world n) subId (new_subscription (Rooms.Id (sctx_ s)) message)) in
        Ret (want n message, subId, None)
      else if (Sub_Op message =? SUB_OP_UPDATE)%Z then
        if decide (Sub_Id message ∈ subscriptions s) then
          w ← UpdatePattern (world n) (Sub_Id message) message;
          Ret (want (set_world n w) message, Sub_Id message, None)
        else Ret (n, "", Some SUB_NOT_EXIST)
      else if (Sub_Op message =? SUB_OP_REMOVE)%Z then
        if decide (Sub_Id message ∈ subscriptions s) then
          let n := set_sess n (with_subs s (subscriptions s ∖ {[Sub_Id message]}) (publications s)) in
          w ← Subscription_Close (world n) (Sub_Id message);
          Ret (set_world n w, Sub_Id message, None)
        else Ret (n, "", Some SUB_NOT_EXIST)
      else go_panic (PCode 10000000)
  end.

Definition Subscribe (n : node) (message : SubscribeMessage) (ids : list string) : run (node * string * option gerror) :=
  err ← SubscribeMessage_Validate message; subscribe_valid n message ids err.

Definition publish (n : node) (message : PublishMessage) (ids tids : list string) : run (node * string * option gerror) :=
  '(ps, id, err) ← Publish (publications (sess n)) message ids tids;
  Ret (set_sess n (with_subs (sess n) (subscriptions (sess n)) ps), id, err).

Definition join (n : node) (rs : list string) : run (node * option gerror) :=
  '(ctx, ms, err) ← JoinRoom range (sctx_ (sess n)) rs;
  Ret (emit (set_sess n (with_ctx (sess n) ctx)) (EAnnounce <$> ms), err).

Definition leave (n : node) (rs : list string) : node :=
  let '(ctx, ms) := LeaveRoom range (sctx_ (sess n)) rs in
  emit (set_sess n (with_ctx (sess n) ctx)) (ELeave <$> ms).

End Node.
