(* ===== verification/SessionProps.v ===== *)
(** * SessionProps: opening and closing a context

    What [SelfClose] releases, and that whatever happened between [InitSignal]
    and the closing, nothing of a closed context is left in the messager, the
    registry or the router. *)
From S2P Require Import Prelude GoStrings Auth Collection RoomPattern PatternMap Pattern Messages Messager Registry Config Templates.
From S2P Require Import Packets Routing RoutingInv RoutingProps Publication Rooms Session.
Local Open Scope string_scope.
Local Open Scope list_scope.

Abbreviation box M := (gmap string (messagerCallbackBox (R := goroutine) M)).

(** ** The handlers in the messager *)

(** A relation on the registries of all ten kinds. *)
Definition every_kind (P : forall M, PatternMap (box M) -> PatternMap (box M) -> Prop) (m m' : Messager (R := goroutine)) : Prop :=
  P _ (onStateCallbacks m) (onStateCallbacks m') /\ P _ (onWantCallbacks m) (onWantCallbacks m') /\
  P _ (onSelectCallbacks m) (onSelectCallbacks m') /\ P _ (onWantParticipantCallbacks m) (onWantParticipantCallbacks m') /\
  P _ (onStateParticipantCallbacks m) (onStateParticipantCallbacks m') /\ P _ (onStateLeaveCallbacks m) (onStateLeaveCallbacks m') /\
  P _ (onPingCallbacks m) (onPingCallbacks m') /\ P _ (onPongCallbacks m) (onPongCallbacks m') /\
  P _ (onCustomCallbacks m) (onCustomCallbacks m') /\ P _ (onCustomAckCallbacks m) (onCustomAckCallbacks m').

(** A property of the registries of all ten kinds. *)
Definition all_kinds (Q : forall M, PatternMap (box M) -> Prop) (m : Messager (R := goroutine)) : Prop :=
  Q _ (onStateCallbacks m) /\ Q _ (onWantCallbacks m) /\ Q _ (onSelectCallbacks m) /\ Q _ (onWantParticipantCallbacks m) /\
  Q _ (onStateParticipantCallbacks m) /\ Q _ (onStateLeaveCallbacks m) /\ Q _ (onPingCallbacks m) /\ Q _ (onPongCallbacks m) /\
  Q _ (onCustomCallbacks m) /\ Q _ (onCustomAckCallbacks m).

Lemma all_kinds_impl (Q Q' : forall M, PatternMap (box M) -> Prop) m :
  (forall M pm, Q M pm -> Q' M pm) -> all_kinds Q m -> all_kinds Q' m.
Proof. intros HQ (H1 & H2 & H3 & H4 & H5 & H6 & H7 & H8 & H9 & H10). repeat split; auto. Qed.

Lemma all_kinds_step (Q Q' : forall M, PatternMap (box M) -> Prop) (P : forall M, PatternMap (box M) -> PatternMap (box M) -> Prop) m m' :
  (forall M a b, Q M a -> P M a b -> Q' M b) -> all_kinds Q m -> every_kind P m m' -> all_kinds Q' m'.
Proof.
  intros HPQ (H1 & H2 & H3 & H4 & H5 & H6 & H7 & H8 & H9 & H10) (G1 & G2 & G3 & G4 & G5 & G6 & G7 & G8 & G9 & G10).
  repeat split; eauto.
Qed.

Definition removes (id : string) (pats : list string) (M : Type) (pm pm' : PatternMap (box M)) : Prop :=
  forall path i, registered pm' path i =
    if decide (i = id /\ path ∈ map (Split dot) pats) then None else registered pm path i.

Definition adds (id : string) (pats : list string) (M : Type) (pm pm' : PatternMap (box M)) : Prop :=
  exists f, forall path i, registered pm' path i =
    if decide (i = id /\ path ∈ map (Split dot) pats) then Some {| box_id := id; box_fun := f |} else registered pm path i.

Ltac pass_kind H :=
  let pm := fresh "pm" in let E := fresh "E" in let S := fresh "S" in
  destruct H as (pm & E & S); rewrite E; clear E; cbn [mbind run_bind set_callbacks callbacks State_kind Want_kind Select_kind WantParticipant_kind StateParticipant_kind StateLeave_kind Ping_kind Pong_kind Custom_kind CustomAck_kind onStateCallbacks onWantCallbacks
    onSelectCallbacks onWantParticipantCallbacks onStateParticipantCallbacks onStateLeaveCallbacks onPingCallbacks onPongCallbacks onCustomCallbacks
    onCustomAckCallbacks].

Lemma off_handlers_spec m id pats :
  Forall valid_pattern pats ->
  exists m', off_handlers m id pats = Ret m' /\ nodeName m' = nodeName m /\ kafka m' = kafka m /\ every_kind (removes id pats) m m'.
Proof.
  intros Hp. unfold off_handlers, OffState, OffWant, OffSelect, OffWantParticipant, OffStateParticipant, OffStateLeave, OffPing, OffPong,
    OffCustom, OffCustomAck, Off. cbn [callbacks State_kind].
  repeat match goal with |- context [offMessage ?pm id pats] => pass_kind (offMessage_spec pm id pats Hp) end.
  eexists. split; [reflexivity|]. split; [done|]. split; [done|]. by repeat split.
Qed.

Lemma on_handlers_spec m id pats :
  Forall valid_pattern pats ->
  exists m', on_handlers m id pats = Ret m' /\ nodeName m' = nodeName m /\ kafka m' = kafka m /\ every_kind (adds id pats) m m'.
Proof.
  intros Hp. unfold on_handlers, OnState, OnWant, OnSelect, OnWantParticipant, OnStateParticipant, OnStateLeave, OnPing, OnPong,
    OnCustom, OnCustomAck, On. cbn [callbacks State_kind].
  repeat match goal with |- context [onMessage ?pm id ?f pats] => pass_kind (onMessage_spec pm id f pats Hp) end.
  eexists. split; [reflexivity|]. split; [done|]. split; [done|]. repeat split; by eexists.
Qed.

(** [on_handlers] is its calls in order, and each adds handlers of this id under these patterns only. *)
Lemma on_handlers_calls m id pats : on_handlers m id pats = run_calls (handler_calls id pats) m.
Proof.
  unfold on_handlers, handler_calls. cbn [run_calls].
  repeat (match goal with |- (?r ≫= _) = (?r ≫= _) => destruct r; [|done]; cbn [mbind run_bind] end).
  by destruct (OnCustomAck _ _ _ _).
Qed.

Definition adds_or_keeps (id : string) (pats : list string) (M : Type) (pm pm' : PatternMap (box M)) : Prop :=
  adds id pats M pm pm' \/ pm' = pm.

Lemma handler_call_spec k f m id pats m' :
  Forall valid_pattern pats -> handler_calls id pats !! k = Some f -> f m = Ret m' -> every_kind (adds_or_keeps id pats) m m'.
Proof.
  intros Hp Hk. unfold handler_calls, OnState, OnWant, OnSelect, OnWantParticipant, OnStateParticipant, OnStateLeave, OnPing, OnPong,
    OnCustom, OnCustomAck in Hk.
  do 10 (destruct k as [|k]; [injection Hk as <-; unfold On; cbn [callbacks State_kind Want_kind Select_kind WantParticipant_kind
      StateParticipant_kind StateLeave_kind Ping_kind Pong_kind Custom_kind CustomAck_kind];
    match goal with |- context [onMessage ?pm id ?g pats] => pass_kind (onMessage_spec pm id g pats Hp) end;
    intros [= <-]; repeat split; try (by right); left; by eexists|]).
  done.
Qed.

(** ** The subscriptions and publications *)

Section Closing.
Context `{Uuid, Webrtc, MapOrderLaws, TemplateLib}.

(** What closing the subscriptions [l] does to an accepter: each that it serves gives one reference and its binding back. *)
Definition let_go (w w' : World) (l : list string) : Prop :=
  forall k x, accs w !! k = Some x -> exists x', accs w' !! k = Some x' /\
    ref_count x' = (ref_count x - Z.of_nat (length (filter (fun sub => sub_holds w sub k) l)))%Z /\
    bound x' ⊆ bound x /\ forall sub, sub ∈ l -> sub_holds w sub k -> sub ∉ bound x'.

Lemma let_go_cons w w1 w2 x s l :
  inv w -> subs w !! x = Some s -> x ∉ l -> subs w1 = <[x := closed_sub s]> (subs w) ->
  (forall k, (held_by s k -> accs w1 !! k = released x <$> accs w !! k) /\ (~ held_by s k -> accs w1 !! k = accs w !! k)) ->
  let_go w1 w2 l -> let_go w w2 (x :: l).
Proof.
  intros I Hs Hx S A Hl k y Hy.
  assert (forall sub, sub ∈ l -> (sub_holds w1 sub k <-> sub_holds w sub k)) as Hsame.
  { intros sub Hsub. unfold sub_holds. rewrite S, lookup_insert_ne; [done|]. by intros ->. }
  assert (filter (fun sub => sub_holds w1 sub k) l = filter (fun sub => sub_holds w sub k) l) as Ef.
  { clear - Hsame. induction l as [|a l IH]; [done|]. rewrite !filter_cons, IH by (intros sub Hi; apply Hsame; by right).
    apply decide_ext, Hsame. left. }
  assert (sub_holds w x k <-> held_by s k) as Hxk by (unfold sub_holds; by rewrite Hs).
  destruct (decide (held_by s k)) as [Hh|Hh].
  - destruct (Hl k (released x y)) as (x' & Hx' & Hr & Hb & Hn); [by rewrite (proj1 (A k) Hh), Hy|]. exists x'. split; [done|].
    rewrite filter_cons_True by (by apply Hxk). rewrite Ef in Hr. split; [|split].
    + rewrite Hr. cbn [length]. assert (ref_count (released x y) = ref_count y - 1)%Z; [|lia]. unfold released.
      destruct (Z.eqb_spec (ref_count y - 1) 0); cbn; lia.
    + etrans; [exact Hb|]. intros sub. apply released_bound.
    + intros sub [->|Hin]%elem_of_cons Hk.
      * intros Hin%Hb. unfold released in Hin. destruct (_ =? _)%Z; [by apply not_elem_of_empty in Hin|]. unfold bound at 1 in Hin. cbn in Hin. set_solver.
      * apply Hn; [done|]. by apply Hsame.
  - destruct (Hl k y) as (x' & Hx' & Hr & Hb & Hn); [by rewrite (proj2 (A k) Hh)|]. exists x'. split; [done|].
    rewrite filter_cons_False by (by rewrite Hxk). rewrite Ef in Hr. split; [done|]. split; [done|].
    intros sub [->|Hin]%elem_of_cons Hk; [by apply Hxk in Hk|]. apply Hn; [done|]. by apply Hsame.
Qed.

Lemma close_subs_spec l : forall w,
  inv w -> NoDup l -> (forall sub, sub ∈ l -> is_Some (subs w !! sub)) ->
  exists w', close_subs l w = Ret w' /\ inv w' /\ let_go w w' l /\
    forall sub, subs w' !! sub = if decide (sub ∈ l) then closed_sub <$> subs w !! sub else subs w !! sub.
Proof.
  induction l as [|x l IH]; intros w I Hnd Hl; cbn [close_subs].
  { exists w. split; [done|]. split; [done|]. split; [|intros sub; by rewrite decide_False by apply not_elem_of_nil].
    intros k x Hx. exists x. rewrite filter_nil. cbn. split; [done|]. split; [lia|]. split; [done|]. intros sub Hs. by apply not_elem_of_nil in Hs. }
  apply NoDup_cons in Hnd as [Hni Hnd].
  destruct (Hl x) as [s Hs]; [by left|]. destruct (Close_spec w x s I Hs) as (w1 & -> & I1 & _ & S1 & A1). cbn [mbind run_bind].
  destruct (IH w1 I1 Hnd) as (w2 & -> & I2 & G2 & S2).
  { intros sub Hsub. rewrite S1, lookup_insert_is_Some'. right. apply Hl. by right. }
  exists w2. split; [done|]. split; [done|]. split; [by eapply let_go_cons|]. intros sub. rewrite S2, S1.
  destruct (decide (sub = x)) as [->|Hne].
  - rewrite lookup_insert_eq, Hs, (decide_True (P := x ∈ x :: l)) by (by left). by case_decide.
  - rewrite lookup_insert_ne by done. destruct (decide (sub ∈ l)) as [Hi|Hi].
    + by rewrite decide_True by (by right).
    + rewrite decide_False; [done|]. by rewrite elem_of_cons; intros [->|?].
Qed.

Lemma close_pubs_spec l : forall n : node,
  (forall id p, (id, p) ∈ l -> pub_id p = id /\ pub_closed p = false) ->
  exists ps, close_pubs l n = Ret (emit (set_sess n (with_subs (sess n) (subscriptions (sess n)) ps)) (EPubClose <$> l.*1)) /\
    forall id, ps !! id = if decide (id ∈ l.*1) then None else publications (sess n) !! id.
Proof.
  induction l as [|[id p] l IH]; intros n Hl; cbn [close_pubs].
  - exists (publications (sess n)). split; [|intros id; by rewrite decide_False by apply not_elem_of_nil].
    destruct n as [m g w s es], s. unfold emit, set_sess, with_subs. cbn. by rewrite app_nil_r.
  - destruct (Hl id p) as [Hi Hc]; [by left|]. rewrite Hc, Hi.
    destruct (IH (emit (set_sess n (with_subs (sess n) (subscriptions (sess n)) (delete id (publications (sess n))))) [EPubClose id])) as (ps & -> & Hps).
    { intros id' p' Hin. apply Hl. by right. }
    exists ps. split; [unfold emit, set_sess, with_subs; cbn; by rewrite <- app_assoc|].
    intros id'. rewrite Hps. cbn. destruct (decide (id' = id)) as [->|Hne].
    + rewrite lookup_delete_eq, (decide_True (P := id ∈ id :: l.*1)) by (by left). by case_decide.
    + rewrite lookup_delete_ne by done. destruct (decide (id' ∈ l.*1)) as [Hin|Hin].
      * by rewrite decide_True by (by right).
      * rewrite decide_False; [done|]. by rewrite elem_of_cons; intros [->|?].
Qed.

Context (range : forall A, gmap string A -> list (string * A)).
Context (range_perm : forall A (m : gmap string A), range A m ≡ₚ map_to_list m).
Context (http_get : string -> Z + gerror).

(** What the operations keep: the router's invariant, and that the subscriptions
    and publications of the context are those of the router and open. *)
Record session_ok (n : node) : Prop := {
  so_world : inv (world n);
  so_pats : Forall valid_pattern (RoomPaterns (sctx_ (sess n)));
  so_subs sub : sub ∈ subscriptions (sess n) -> is_Some (subs (world n) !! sub);
  so_pubs id p : publications (sess n) !! id = Some p -> pub_id p = id /\ pub_closed p = false
}.

Definition runs_callback (disable : bool) (s : session) : list effect :=
  match disable || close_cb_disabled s, close_cb s with false, Some url => EGet <$> (Call http_get url).1 | _, _ => [] end.

(** The context after it was closed. *)
Definition closed_session (disable : bool) (s : session) : session :=
  {| address := address s; sctx_ := sctx_ s; inited := inited s; s_closed := true; cancelled := true;
     close_cb := if disable || close_cb_disabled s then close_cb s else None; close_cb_disabled := disable || close_cb_disabled s;
     Peer := Peer s; peerClosed := true; subscriptions := subscriptions s; publications := ∅;
     sig_evts := sig_evts s; sig_close_cb := sig_close_cb s |}.

Definition closing_effects (disable : bool) (s : session) : list effect :=
  (ELeave <$> (LeaveRoom range (sctx_ s) (Rooms range (sctx_ s))).2) ++ (if Peer s && negb (peerClosed s) then [EPeerClose] else []) ++
  (EPubClose <$> (range _ (publications s)).*1) ++ [ESignalClose] ++ runs_callback disable s.

Lemma all_pubs_closed (ps m : gmap string Publication) :
  (forall id, ps !! id = if decide (id ∈ (range _ m).*1) then None else m !! id) -> ps = ∅.
Proof.
  intros Hps. apply map_eq. intros id. rewrite Hps, lookup_empty. case_decide as Hid; [done|].
  destruct (m !! id) as [p|] eqn:E; [|done]. exfalso. apply Hid. rewrite list_elem_of_fmap. exists (id, p). split; [done|].
  rewrite range_perm. by apply elem_of_map_to_list.
Qed.

Lemma SelfClose_spec b (n : node) :
  session_ok n -> s_closed (sess n) = false ->
  exists n', SelfClose range http_get b n = Ret n' /\ registry n' = registry n /\ sess n' = closed_session b (sess n) /\
    effects n' = effects n ++ closing_effects b (sess n) /\
    every_kind (removes (Rooms.Id (sctx_ (sess n))) (RoomPaterns (sctx_ (sess n)))) (messager n) (messager n') /\ inv (world n') /\
    let_go (world n) (world n') (range_set (subscriptions (sess n))) /\
    forall sub, subs (world n') !! sub =
      if decide (sub ∈ subscriptions (sess n)) then closed_sub <$> subs (world n) !! sub else subs (world n) !! sub.
Proof.
  intros [I Hp Hs Hb] Hc. destruct n as [m g w s es]. cbn in *.
  destruct (off_handlers_spec m (Rooms.Id (sctx_ s)) (RoomPaterns (sctx_ s)) Hp) as (m' & Em & _ & _ & Hm).
  destruct (close_subs_spec (range_set (subscriptions s)) w I) as (w' & Ew & I' & Hgo & Hw).
  { rewrite range_set_perm. apply NoDup_elements. }
  { intros sub. rewrite range_set_perm, elem_of_elements. apply Hs. }
  destruct s as [ad ctx ini cl can cb dis pe pc sbs pbs ev scb]. cbn in *. subst cl.
  unfold SelfClose, LeaveRoom. cbn [sess s_closed]. unfold set_sess, with_closed, with_ctx, with_close_cb, emit. cbn -[close_pubs close_subs off_handlers Rooms].
  destruct b; cbn -[close_pubs close_subs off_handlers Rooms]; rewrite Em; cbn -[close_pubs close_subs Rooms].
  all: unfold closePeer, set_messager, set_sess, with_closed, emit; destruct pc; cbn -[close_pubs close_subs Rooms].
  all: match goal with |- context [close_pubs ?l ?n] => destruct (close_pubs_spec l n) as (ps & -> & Hps) end;
    [intros id p; rewrite range_perm, elem_of_map_to_list; apply Hb|].
  all: apply all_pubs_closed in Hps as ->; cbn -[close_subs Rooms]; rewrite Ew; unfold emit, set_world, set_sess, with_subs, with_close_cb, closing_effects, runs_callback, closed_session; cbn -[Rooms].
  all: assert (forall sub, subs w' !! sub = if decide (sub ∈ sbs) then closed_sub <$> subs w !! sub else subs w !! sub) as Hw'
    by (intros sub; rewrite Hw; apply decide_ext; by rewrite range_set_perm, elem_of_elements).
  all: destruct dis, cb as [url|], pe; cbn -[Rooms]; eexists; (split; [reflexivity|]); (split; [done|]); (split; [done|]);
    (split; [cbn -[Rooms]; by rewrite <- ?app_assoc, ?app_nil_r|]); (split; [exact Hm|]); (split; [exact I'|]); (split; [exact Hgo|exact Hw']).
Qed.

(** ** Reachable states *)

Context (send_ready : UserInfo -> option gerror).
Context (conf : ConferenceConfigure).

Definition own_id (n : node) : string := Rooms.Id (sctx_ (sess n)).

(** Requests are served while the connection is open, each to its end before the next, and the context is closed by its id.  In between, the router, the messager and the
    registry do what other clients make them do: subscriptions stay and are not opened again, other
    ids come and go. *)
Inductive rstep (n : node) : node -> Prop :=
  | st_join rs n' e : s_closed (sess n) = false -> join range n rs = Ret (n', e) -> rstep n n'
  | st_leave rs : s_closed (sess n) = false -> rstep n (leave range n rs)
  | st_subscribe msg ids n' id e :
      s_closed (sess n) = false -> (forall i, i ∈ ids -> i ∈ subscriptions (sess n) \/ subs (world n) !! i = None) ->
      Subscribe range n msg ids = Ret (n', id, e) -> rstep n n'
  | st_publish msg ids tids n' id e :
      s_closed (sess n) = false -> publish n msg ids tids = Ret (n', id, e) -> rstep n n'
  | st_close id b n' : close_by_id range http_get id b n = Ret n' -> rstep n n'
  | st_world w :
      inv w -> (forall sub s, subs (world n) !! sub = Some s -> exists s', subs w !! sub = Some s' /\ (closed s = true -> closed s' = true)) ->
      rstep n (set_world n w)
  | st_messager m :
      every_kind (fun M pm pm' => forall path, registered pm' path (own_id n) = registered pm path (own_id n)) (messager n) m ->
      rstep n (set_messager n m)
  | st_registry g :
      (forall live, holds (registry n) live ->
         exists live', holds g live' /\ forall c, Registry.Id c = own_id n -> (c ∈ live' <-> c ∈ live)) ->
      rstep n (set_registry n g).

(** With [InitSignal] run without interruption. *)
Inductive sstep (n : node) : node -> Prop :=
  | st_init n' r : InitSignal range http_get send_ready conf n = Ret (n', r) -> sstep n n'
  | st_step n' : rstep n n' -> sstep n n'.

(** No handler of the context is left in the messager. *)
Definition unheard (n : node) : Prop := all_kinds (fun M pm => forall path, registered pm path (own_id n) = None) (messager n).

(** Nothing of the context is left in the registry, and nothing of it is open. *)
Record clean (n : node) : Prop := {
  cl_registry : FindSignalContextById (registry n) (own_id n) = None;
  cl_user uid c : c ∈ FindSignalContextByUser (registry n) uid -> Registry.Id c <> own_id n;
  cl_subs sub : sub ∈ subscriptions (sess n) -> exists s, subs (world n) !! sub = Some s /\ closed s = true /\ tracks_of s = ∅;
  cl_pubs : publications (sess n) = ∅
}.

Record session_inv (n : node) : Prop := {
  si_ok : session_ok n;
  si_closed : s_closed (sess n) = true -> inited (sess n) = true /\ publications (sess n) = ∅ /\
    forall sub, sub ∈ subscriptions (sess n) -> exists s, subs (world n) !! sub = Some s /\ closed s = true;
  si_messager : all_kinds (fun M pm => forall path, is_Some (registered pm path (own_id n)) ->
    s_closed (sess n) = false /\ path ∈ map (Split dot) (RoomPaterns (sctx_ (sess n)))) (messager n);
  si_registry : exists live, holds (registry n) live /\
    forall c, c ∈ live -> Registry.Id c = own_id n -> c = self_of (sess n) /\ inited (sess n) = true /\ s_closed (sess n) = false
}.

Definition absent (n : node) : Prop :=
  exists live, holds (registry n) live /\ forall c, c ∈ live -> Registry.Id c <> own_id n.

(** What is left of the invariant when handlers are added after the closing. *)
Record hasty_inv (n : node) : Prop := {
  hi_ok : session_ok n;
  hi_closed : s_closed (sess n) = true;
  hi_left : publications (sess n) = ∅ /\ forall sub, sub ∈ subscriptions (sess n) -> exists s, subs (world n) !! sub = Some s /\ closed s = true;
  hi_registry : absent n
}.

Lemma session_hasty n : session_inv n -> s_closed (sess n) = true -> hasty_inv n.
Proof.
  intros [Hok Hc Hm (live & Hl & Hlive)] Hcl. destruct (Hc Hcl) as (_ & Hp & Hs). split; [done..|].
  exists live. split; [done|]. intros c Hin Hid. destruct (Hlive c Hin Hid) as (_ & _ & ?). congruence.
Qed.

Lemma inv_unheard n : session_inv n -> s_closed (sess n) = true -> unheard n.
Proof.
  intros [_ _ Hm _] Hcl. eapply all_kinds_impl; [|exact Hm]. cbn. intros M pm Hpm path.
  destruct (registered pm path (own_id n)) eqn:E; [|done]. destruct (Hpm path) as [? _]; [by rewrite E|congruence].
Qed.

Lemma hasty_clean n : hasty_inv n -> clean n.
Proof.
  intros [[I _ _ _] Hcl [Hp Hs] (live & Hl & Hlive)]. split; try done.
  - unfold FindSignalContextById. destruct (sig_map _ !! _) as [c|] eqn:E; [|done].
    apply (ho_id _ _ Hl) in E as [Hin Hid]. by destruct (Hlive c Hin).
  - intros uid c Hin Hid. rewrite (ho_user _ _ Hl uid) in Hin. apply list_elem_of_filter in Hin as [_ Hin].
    by destruct (Hlive c Hin).
  - intros sub Hsub. destruct (Hs sub Hsub) as (x & Hx & Hxc). exists x. split; [done|]. split; [done|]. by eapply (proj2 I).
Qed.

(** ** The steps keep the invariant *)

Lemma inv_frame (n n' : node) :
  messager n' = messager n -> registry n' = registry n -> world n' = world n -> self_of (sess n') = self_of (sess n) ->
  RoomPaterns (sctx_ (sess n')) = RoomPaterns (sctx_ (sess n)) -> s_closed (sess n') = s_closed (sess n) ->
  (inited (sess n) = true -> inited (sess n') = true) -> subscriptions (sess n') = subscriptions (sess n) ->
  publications (sess n') = publications (sess n) -> session_inv n -> session_inv n' /\ (absent n -> absent n').
Proof.
  intros Em Eg Ew Es Ep Ec Ei Eb Eq [[I1 I2 I3 I4] Hc Hm (live & Hl & Hlive)].
  assert (own_id n' = own_id n) as Eo by (unfold own_id; by injection Es).
  split; [split|].
  - split; rewrite ?Ew, ?Ep, ?Eb, ?Eq; done.
  - rewrite Ec, Eq, Eb, Ew. intros Hcl. destruct (Hc Hcl) as (? & ? & ?). auto.
  - rewrite Em, Eo, Ec, Ep. done.
  - exists live. rewrite Eg, Eo, Es, Ec. split; [done|]. intros c Hin Hid. destruct (Hlive c Hin Hid) as (? & ? & ?). auto.
  - intros (l & ?). exists l. by rewrite Eg, Eo.
Qed.

Lemma selfclose_inv b n n' :
  session_inv n -> inited (sess n) = true -> absent n -> SelfClose range http_get b n = Ret n' -> session_inv n' /\ s_closed (sess n') = true.
Proof.
  intros [Hok Hc Hm Hr] Hi (live & Hl & Hlive) Hs. destruct (s_closed (sess n)) eqn:Hcl.
  { unfold SelfClose in Hs. rewrite Hcl in Hs. injection Hs as <-. split; [|done]. by split; rewrite ?Hcl. }
  destruct (SelfClose_spec b n Hok Hcl) as (n1 & E & Eg & Es & _ & Em & Iw & _ & Hw). rewrite Hs in E. injection E as <-.
  assert (own_id n' = own_id n) as Eo by (unfold own_id; by rewrite Es).
  split; [split|by rewrite Es].
  - split; rewrite ?Es; cbn; [done|apply (so_pats _ Hok)| |by intros id p; rewrite lookup_empty].
    intros sub Hsub. rewrite Hw. destruct (so_subs _ Hok sub Hsub) as [x ->]. by case_decide.
  - rewrite Es. cbn. intros _. split; [done|]. split; [done|]. intros sub Hsub. rewrite Hw, decide_True by done.
    destruct (so_subs _ Hok sub Hsub) as [x ->]. by eexists.
  - rewrite Eo, Es. cbn. eapply all_kinds_step; [|apply Hm|exact Em]. cbn. intros M pm pm' Hpm Hrem path [x Hx]. rewrite Hrem in Hx.
    case_decide as Hd; [done|]. destruct (Hpm path) as [_ Hpath]; [by eexists|]. destruct Hd. by split.
  - exists live. rewrite Eg, Eo. split; [done|]. intros c Hin Hid. by destruct (Hlive c Hin).
Qed.

Lemma JoinRoom_frame c rs c' ms e :
  JoinRoom range c rs = Ret (c', ms, e) -> Rooms.Id c' = Rooms.Id c /\ Rooms.Auth c' = Rooms.Auth c.
Proof.
  unfold JoinRoom. intros Hj. apply bind_ret_inv in Hj as (r & _ & Hj). destruct r as [rs'|e']; [|by injection Hj as <- _ _].
  destruct (join_rooms _ _ _) as [m news]. by injection Hj as <- _ _.
Qed.

Lemma join_inv n rs n' e :
  join range n rs = Ret (n', e) -> session_inv n -> session_inv n' /\ (absent n -> absent n') /\
  s_closed (sess n') = s_closed (sess n) /\ inited (sess n') = inited (sess n).
Proof.
  intros Hj Hn. unfold join in Hj. apply bind_ret_inv in Hj as ([[c ms] e'] & Hj & Hr). injection Hr as <- <-.
  apply JoinRoom_frame in Hj as [E1 E2].
  destruct (inv_frame n (emit (set_sess n (with_ctx (sess n) c)) (EAnnounce <$> ms))) as [G1 G2]; try done.
  - unfold self_of. cbn. by rewrite E1, E2.
  - unfold RoomPaterns. cbn. by rewrite E2.
Qed.

Lemma init_begin_inv n n' r :
  session_inv n -> absent n -> init_begin range http_get conf n = Ret (n', r) ->
  session_inv n' /\ inited (sess n') = true /\ (r = None -> absent n' /\ s_closed (sess n') = s_closed (sess n)).
Proof.
  intros Hn Ha Hi. unfold init_begin in Hi.
  destruct (inv_frame n (set_sess n (with_inited (sess n)))) as [Hn1 Ha1]; try done. specialize (Ha1 Ha).
  set (n1 := set_sess n (with_inited (sess n))) in *.
  apply bind_ret_inv in Hi as ([n2 err] & Hj & Hi).
  assert (session_inv n2 /\ absent n2 /\ s_closed (sess n2) = s_closed (sess n1) /\ inited (sess n2) = inited (sess n1)) as (Hn2 & Ha2 & Hc2 & Hi2).
  { destruct (AutoJoin _); [|by injection Hj as <- <-]. change (join range n1 [] = Ret (n2, err)) in Hj.
    destruct (join_inv _ _ _ _ Hj Hn1) as (? & ? & ? & ?). auto. }
  assert (inited (sess n2) = true) as Hin by (by rewrite Hi2).
  assert (forall n3 (p : bool * option gerror), session_inv n3 -> absent n3 -> inited (sess n3) = true ->
    (n4 ← SelfClose range http_get true n3; Ret (n4, Some p)) = Ret (n', r) ->
    session_inv n' /\ inited (sess n') = true /\ (r = None -> absent n' /\ s_closed (sess n') = s_closed (sess n))) as Hfail.
  { intros n3 p Hn3 Ha3 Hi3 Hs. apply bind_ret_inv in Hs as (n4 & Hs & Hr). injection Hr as <- <-.
    destruct (selfclose_inv _ _ _ Hn3 Hi3 Ha3 Hs) as [Hn4 Hc4]. split; [done|]. split; [by apply (si_closed _ Hn4)|done]. }
  destruct err as [e|]; [by eapply Hfail|].
  apply bind_ret_inv in Hi as (url & _ & Hi). destruct (Call http_get url) as [gets st].
  destruct (inv_frame n2 (emit n2 (EGet <$> gets))) as [Hn3 Ha3]; try done. specialize (Ha3 Ha2).
  destruct (match st with inl c => _ | inr _ => false end); [|by eapply Hfail].
  apply bind_ret_inv in Hi as (cb & _ & Hi). injection Hi as <- <-.
  match goal with |- session_inv ?x /\ _ => destruct (inv_frame n2 x); done end.
Qed.

Lemma register_inv n :
  session_inv n -> absent n -> inited (sess n) = true -> s_closed (sess n) = false -> session_inv (init_register n).
Proof.
  intros [Hok Hc Hm Hr] (live & Hl & Hlive) Hi Hcl. split; [by destruct Hok|done|done|]. exists (live ++ [self_of (sess n)]). split.
  - apply register_holds; [done|]. rewrite list_elem_of_fmap. intros (c & Hid & Hin). by apply (Hlive c Hin).
  - intros c Hin Hid. rewrite elem_of_app, list_elem_of_singleton in Hin. destruct Hin as [Hin| ->]; [by destruct (Hlive c Hin)|done].
Qed.

Lemma handlers_inv n n' :
  session_inv n -> s_closed (sess n) = false -> init_handlers n = Ret n' -> session_inv n'.
Proof.
  intros [Hok Hc Hm Hr] Hcl Hh. unfold init_handlers in Hh. apply bind_ret_inv in Hh as (m & Em & Hh). injection Hh as <-.
  destruct (on_handlers_spec (messager n) (own_id n) _ (so_pats _ Hok)) as (m' & E & _ & _ & Hk).
  unfold own_id in E. rewrite E in Em. injection Em as <-.
  split; [by destruct Hok|done| |done]. cbn. eapply all_kinds_step; [|exact Hm|exact Hk]. cbn.
  intros M a b Ha (f & Hf) path Hs. split; [done|]. rewrite Hf in Hs. case_decide as Hd; [by destruct Hd|]. by apply Ha.
Qed.

Lemma init_inv n n' r : session_inv n -> InitSignal range http_get send_ready conf n = Ret (n', r) -> session_inv n'.
Proof.
  intros Hn Hi. unfold InitSignal in Hi. destruct (inited (sess n)) eqn:Ei; [by injection Hi as <- _|].
  assert (absent n) as Ha.
  { destruct (si_registry _ Hn) as (live & Hl & Hlive). exists live. split; [done|]. intros c Hin Hid.
    destruct (Hlive c Hin Hid) as (_ & ? & _). congruence. }
  assert (s_closed (sess n) = false) as Hcl.
  { destruct (s_closed (sess n)) eqn:E; [|done]. apply (si_closed _ Hn) in E as [? _]. congruence. }
  apply bind_ret_inv in Hi as ([n1 early] & Hb & Hi). destruct (init_begin_inv _ _ _ Hn Ha Hb) as (Hn1 & Hi1 & Hx).
  destruct early as [x|]; [by injection Hi as <- _|]. destruct (Hx eq_refl) as [Ha1 Hc1].
  apply bind_ret_inv in Hi as (n2 & Hh & Hi).
  assert (session_inv n2) as Hn2.
  { eapply handlers_inv; [by apply register_inv; [| |done|congruence]| |exact Hh]. cbn. congruence. }
  unfold init_finish in Hi. destruct (send_ready _); injection Hi as <- _; eapply inv_frame; try exact Hn2; done.
Qed.

(** An open context whose router and whose sets of subscriptions and publications changed. *)
Lemma open_inv n w sbs ps :
  s_closed (sess n) = false -> session_inv n -> inv w -> (forall sub, sub ∈ sbs -> is_Some (subs w !! sub)) ->
  (forall id p, ps !! id = Some p -> pub_id p = id /\ pub_closed p = false) ->
  session_inv (set_world (set_sess n (with_subs (sess n) sbs ps)) w).
Proof.
  intros Hcl [[_ Hp _ _] _ Hm Hr] I Hs Hb. split; [by split|cbn; congruence|done|done].
Qed.

Lemma UpdatePattern_subs w sub message w' :
  inv w -> UpdatePattern w sub message = Ret w' -> inv w' /\ exists s', subs w' = <[sub := s']> (subs w).
Proof.
  intros I Hr. pose proof Hr as Hr0. unfold UpdatePattern, get_sub in Hr.
  destruct (subs w !! sub) as [s|] eqn:Hs; [|done]. cbn [go_deref mbind run_bind] in Hr.
  destruct (match_tracks _ _ _) as [[ms us]|] eqn:Hm; [|done].
  destruct (UpdatePattern_spec _ _ _ _ _ _ I Hs Hm) as (w1 & s' & E & I' & _ & _ & S & _).
  rewrite E in Hr0. injection Hr0 as <-. eauto.
Qed.

Lemma new_sub_id_inv taken ids id : new_sub_id taken ids = Ret id -> id ∈ ids /\ id ∉ taken.
Proof using Type.
  induction ids as [|x ids IH]; cbn; [done|]. case_decide; [intros [? ?]%IH; split; [by right|done]|].
  intros [= <-]. split; [left|done].
Qed.

Lemma want_inv n msg : session_inv n -> session_inv (want range n msg).
Proof. intros Hn. by apply (inv_frame n). Qed.

Lemma subscribe_keeps n msg ids n' id e :
  s_closed (sess n) = false -> (forall i, i ∈ ids -> i ∈ subscriptions (sess n) \/ subs (world n) !! i = None) ->
  session_inv n -> Subscribe range n msg ids = Ret (n', id, e) -> session_inv n'.
Proof.
  intros Hcl Hfresh Hn Hs. pose proof (si_ok _ Hn) as [I Hp Hsub Hpub]. unfold Subscribe, subscribe_valid in Hs.
  apply bind_ret_inv in Hs as (err & _ & Hs). destruct err; [by injection Hs as <- _ _|].
  destruct (Sub_Op msg =? SUB_OP_ADD)%Z.
  { apply bind_ret_inv in Hs as (k & [Hk Hnk]%new_sub_id_inv & Hs). injection Hs as <- _ _. apply want_inv.
    destruct (Hfresh k Hk) as [?|Hno]; [done|]. apply open_inv; [done|done|by apply subscribe_inv| |done].
    intros sub [Hin| ->%elem_of_singleton]%elem_of_union; cbn; rewrite lookup_insert_is_Some'; [right; by apply Hsub|by left]. }
  destruct (Sub_Op msg =? SUB_OP_UPDATE)%Z.
  { case_decide; [|by injection Hs as <- _ _]. apply bind_ret_inv in Hs as (w & Hw & Hs). injection Hs as <- _ _. apply want_inv.
    destruct (UpdatePattern_subs _ _ _ _ I Hw) as [I' [s' S]].
    replace (set_world n w) with (set_world (set_sess n (with_subs (sess n) (subscriptions (sess n)) (publications (sess n)))) w)
      by (by destruct n as [? ? ? [] ?]).
    apply open_inv; [done|done|done| |done]. intros sub Hin. rewrite S, lookup_insert_is_Some'. right. by apply Hsub. }
  destruct (Sub_Op msg =? SUB_OP_REMOVE)%Z; [|done].
  case_decide as Hin; [|by injection Hs as <- _ _]. apply bind_ret_inv in Hs as (w & Hw & Hs). injection Hs as <- _ _. cbn in Hw.
  destruct (Hsub _ Hin) as [s0 Hs0]. destruct (Close_spec _ _ _ I Hs0) as (w' & E & I' & _ & S & _). rewrite E in Hw. injection Hw as <-.
  apply open_inv; [done|done|done| |done]. intros sub [Hs1 _]%elem_of_difference. rewrite S, lookup_insert_is_Some'. right. by apply Hsub.
Qed.

Lemma publish_keeps n msg ids tids n' id e :
  s_closed (sess n) = false -> session_inv n -> publish n msg ids tids = Ret (n', id, e) -> session_inv n'.
Proof.
  intros Hcl Hn Hs. pose proof (si_ok _ Hn) as [I Hp Hsub Hpub]. unfold publish in Hs.
  apply bind_ret_inv in Hs as ([[ps k] err] & Hs & Hr). injection Hr as <- _ _.
  replace (set_sess n (with_subs (sess n) (subscriptions (sess n)) ps)) with
    (set_world (set_sess n (with_subs (sess n) (subscriptions (sess n)) ps)) (world n)) by (by destruct n).
  apply open_inv; [done..|]. unfold Publish in Hs. destruct (PublishMessage_Validate msg); [by injection Hs as <- _ _|].
  destruct (Pub_Op msg =? PUB_OP_ADD)%Z.
  { apply bind_ret_inv in Hs as (pid & _ & Hs). injection Hs as <- _ _. intros id' p. rewrite lookup_insert_Some.
    intros [[<- <-]|[_ Hl]]; [done|]. by apply Hpub. }
  destruct (Pub_Op msg =? PUB_OP_REMOVE)%Z; [|done].
  destruct (publications (sess n) !! Pub_Id msg) as [p0|]; [|by injection Hs as <- _ _].
  destruct (pub_closed p0); [done|]. injection Hs as <- _ _. intros id' p [_ Hl]%lookup_delete_Some. by apply Hpub.
Qed.

Lemma close_by_id_inv id b n n' : session_inv n -> close_by_id range http_get id b n = Ret n' -> session_inv n'.
Proof.
  intros Hn Hs. destruct (si_registry _ Hn) as (live & Hl & Hlive). unfold close_by_id in Hs.
  destruct (close_holds _ _ id Hl) as (g & c & E & Hg & Hc). rewrite E in Hs. cbn [mbind run_bind] in Hs.
  assert (session_inv (set_registry n g)) as Hn1.
  { destruct Hn as [Hok Hcl Hm _]. split; [by destruct Hok|done|done|]. eexists. split; [exact Hg|].
    intros d [_ Hd]%list_elem_of_filter. by apply Hlive. }
  case_decide as Hself; [|by injection Hs as <-].
  assert (c = Some (self_of (sess n))) as Hc1 by exact Hself. rewrite Hc1 in Hc.
  assert (self_of (sess n) ∈ filter (fun c => Registry.Id c = id) live) as Hin.
  { destruct (filter (fun c => Registry.Id c = id) live) as [|d l]; [done|]. injection Hc as ->. left. }
  apply list_elem_of_filter in Hin as [Hid Hin]. destruct (Hlive _ Hin eq_refl) as (_ & Hi & Hcl).
  apply (selfclose_inv b (set_registry n g) n'); [done|done| |done]. exists (filter (fun c => Registry.Id c <> id) live).
  split; [exact Hg|]. intros d [Hd _]%list_elem_of_filter. by rewrite <- Hid in Hd.
Qed.

Lemma rstep_inv n n' : session_inv n -> rstep n n' -> session_inv n'.
Proof.
  intros Hn Hs. destruct Hs as [rs n' e Hc Hj|rs Hc|msg ids n' id e Hc Hf Hs|msg ids tids n' id e Hc Hp|id b n' Hc|w I Hw|m Hm|g Hg].
  - by destruct (join_inv _ _ _ _ Hj Hn).
  - by apply (inv_frame n).
  - by eapply subscribe_keeps.
  - by eapply publish_keeps.
  - by eapply close_by_id_inv.
  - destruct Hn as [[I0 Hp Hs Hb] Hc Hm Hr]. split; [split; try done|cbn|done|done].
    + intros sub [x Hx]%Hs. destruct (Hw sub x Hx) as (s' & ? & _). by exists s'.
    + intros Hcl. destruct (Hc Hcl) as (? & ? & Hsub). split; [done|]. split; [done|]. intros sub (x & Hx & Hxc)%Hsub.
      destruct (Hw sub x Hx) as (s' & ? & ?). eauto.
  - destruct Hn as [Hok Hc Hm0 Hr]. split; [by destruct Hok|done| |done].
    change (own_id (set_messager n m)) with (own_id n). cbn.
    eapply all_kinds_step; [|exact Hm0|exact Hm]. cbn. intros M a b Ha Hb path. rewrite (Hb path). apply Ha.
  - destruct Hn as [Hok Hc Hm (live & Hl & Hlive)]. split; [by destruct Hok|done|done|]. destruct (Hg live Hl) as (live' & Hl' & Hiff).
    exists live'. split; [done|]. intros c Hin Hid. apply Hlive; [|done]. by apply Hiff.
Qed.

Lemma sstep_inv n n' : session_inv n -> sstep n n' -> session_inv n'.
Proof. intros Hn [n1 r Hi|n1 Hs]; [by eapply init_inv|by eapply rstep_inv]. Qed.

(** A closed context stays closed, whatever others do. *)
Lemma rstep_hasty n n' : hasty_inv n -> rstep n n' -> hasty_inv n'.
Proof.
  intros [[I Hp Hs Hb] Hcl [Hpub Hsub] (live & Hl & Hlive)] Hst.
  destruct Hst as [rs n' e Hc Hj|rs Hc|msg ids n' id e Hc Hf Hs'|msg ids tids n' id e Hc Hp'|id b n' Hc|w Iw Hw|m Hm|g Hg]; try congruence.
  - unfold close_by_id in Hc. destruct (close_holds _ _ id Hl) as (g & c & E & Hg & _). rewrite E in Hc. cbn [mbind run_bind] in Hc.
    assert (n' = set_registry n g) as ->.
    { case_decide; [|by injection Hc as <-]. unfold SelfClose in Hc. cbn [sess set_registry] in Hc. rewrite Hcl in Hc. by injection Hc as <-. }
    split; [done..|]. eexists. split; [exact Hg|]. intros d [_ Hd]%list_elem_of_filter. by apply Hlive.
  - split; [split; try done|done| |by exists live].
    + intros sub [x Hx]%Hs. destruct (Hw sub x Hx) as (s' & ? & _). by exists s'.
    + split; [done|]. intros sub (x & Hx & Hxc)%Hsub. destruct (Hw sub x Hx) as (s' & ? & ?). eauto.
  - split; [done..|]. by exists live.
  - split; [done..|]. destruct (Hg live Hl) as (live' & Hl' & Hiff). exists live'. split; [done|].
    intros c Hin Hid. apply (Hlive c); [|done]. by apply Hiff.
Qed.

(** ** The life of a context, with [InitSignal] in its parts *)

(** How far [InitSignal] is: not called, up to the registration, registered with [k] of the ten handlers added, or returned. *)
Inductive stage := Before | Begun | Adding (k : nat) | Returned.

(** [hasty]: the context was closed before [InitSignal] returned. *)
Record life := { now : stage; nd : node; hasty : bool }.

Definition goes (st : stage) (n : node) (l : life) : life := {| now := st; nd := n; hasty := hasty l |}.

(** [InitSignal] and what else happens to the context, in any order; nothing is sent to the client before it has returned but what it sends itself. *)
Inductive lstep (l : life) : life -> Prop :=
  | ls_begin n' : now l = Before -> init_begin range http_get conf (nd l) = Ret (n', None) -> lstep l (goes Begun n' l)
  | ls_refuse n' r : now l = Before -> init_begin range http_get conf (nd l) = Ret (n', Some r) -> lstep l (goes Returned n' l)
  | ls_register : now l = Begun -> lstep l (goes (Adding 0) (init_register (nd l)) l)
  | ls_handler k f m :
      now l = Adding k -> handler_calls (own_id (nd l)) (RoomPaterns (sctx_ (sess (nd l)))) !! k = Some f -> f (messager (nd l)) = Ret m ->
      lstep l (goes (Adding (S k)) (set_messager (nd l) m) l)
  | ls_return : now l = Adding 10 -> lstep l (goes Returned (init_finish range send_ready (nd l)).1 l)
  | ls_other n' :
      rstep (nd l) n' ->
      lstep l {| now := now l; nd := n'; hasty := hasty l || (s_closed (sess n') && match now l with Returned => false | _ => true end) |}.

(** [InitSignal] without interruption is its parts. *)
Lemma InitSignal_parts n n' r :
  inited (sess n) = false -> InitSignal range http_get send_ready conf n = Ret (n', r) ->
  rtc lstep {| now := Before; nd := n; hasty := false |} {| now := Returned; nd := n'; hasty := false |}.
Proof.
  intros Hi. unfold InitSignal. rewrite Hi. intros Hr. apply bind_ret_inv in Hr as ([n1 early] & Hb & Hr). destruct early as [x|].
  { injection Hr as <- _. apply rtc_once. by eapply (ls_refuse {| now := Before; nd := n; hasty := false |}). }
  eapply rtc_l; [by eapply (ls_begin {| now := Before; nd := n; hasty := false |})|].
  eapply rtc_l; [by apply (ls_register (goes Begun n1 {| now := Before; nd := n; hasty := false |}))|]. cbn [goes now nd hasty].
  apply bind_ret_inv in Hr as (n2 & Hh & Hr). unfold init_handlers in Hh. apply bind_ret_inv in Hh as (m & Hm & Hh). injection Hh as <-.
  rewrite on_handlers_calls in Hm.
  assert (forall fs k n0, drop k (handler_calls (own_id n0) (RoomPaterns (sctx_ (sess n0)))) = fs -> run_calls fs (messager n0) = Ret m ->
    rtc lstep {| now := Adding k; nd := n0; hasty := false |} {| now := Adding (k + length fs); nd := set_messager n0 m; hasty := false |}) as Hrun.
  { clear. induction fs as [|f fs IH]; intros k n0 Hd Hm; cbn [run_calls length] in *.
    - injection Hm as <-. rewrite Nat.add_0_r. by destruct n0.
    - apply bind_ret_inv in Hm as (m1 & Hf & Hm).
      assert (handler_calls (own_id n0) (RoomPaterns (sctx_ (sess n0))) !! k = Some f) as Hk.
      { rewrite <- (Nat.add_0_r k), <- lookup_drop, Hd. done. }
      eapply rtc_l; [by apply (ls_handler {| now := Adding k; nd := n0; hasty := false |} k f m1)|].
      rewrite Nat.add_succ_r. apply (IH (S k) (set_messager n0 m1)); [|done]. apply drop_S in Hk. rewrite Hd in Hk. injection Hk as ->. done. }
  etrans; [apply (Hrun _ 0 (init_register n1) eq_refl Hm)|].
  apply rtc_once. injection Hr as Hr.
  pose proof (ls_return {| now := Adding 10; nd := set_messager (init_register n1) m; hasty := false |} eq_refl) as Hl.
  unfold goes in Hl. cbn [nd hasty] in Hl. rewrite Hr in Hl. exact Hl.
Qed.

(** Before it is registered a context is in use by nobody. *)
Definition not_yet (l : life) : Prop := hasty l = false /\ absent (nd l) /\ s_closed (sess (nd l)) = false.

Record life_inv (l : life) : Prop := {
  li_sess : if hasty l then hasty_inv (nd l) else session_inv (nd l);
  li_stage : match now l with
             | Before => not_yet l
             | Begun => not_yet l /\ inited (sess (nd l)) = true
             | Adding _ => hasty l = false -> s_closed (sess (nd l)) = false
             | Returned => True
             end
}.

(** Closing by id leaves a context alone that is not registered. *)
Lemma rstep_absent n n' : absent n -> s_closed (sess n) = false -> rstep n n' ->
  absent n' /\ s_closed (sess n') = false /\ (inited (sess n) = true -> inited (sess n') = true).
Proof.
  intros (live & Hl & Hlive) Hcl Hst.
  assert (forall n1, registry n1 = registry n -> own_id n1 = own_id n -> absent n1) as Hsame by (intros n1 E1 E2; exists live; by rewrite E1, E2).
  destruct Hst as [rs n' e Hc Hj|rs Hc|msg ids n' id e Hc Hf Hs'|msg ids tids n' id e Hc Hp'|id b n' Hc|w Iw Hw|m Hm|g Hg].
  - unfold join in Hj. apply bind_ret_inv in Hj as ([[c ms] e'] & Hj & Hr). injection Hr as <- <-. apply JoinRoom_frame in Hj as [E1 E2].
    split; [|done]. apply Hsame; [done|]. unfold own_id. by cbn.
  - split; [by apply Hsame|done].
  - unfold Subscribe, subscribe_valid in Hs'. apply bind_ret_inv in Hs' as (err & _ & Hs'). destruct err; [injection Hs' as <- _ _; by split; [apply Hsame|]|].
    case_match; [apply bind_ret_inv in Hs' as (? & _ & Hs'); injection Hs' as <- _ _; by split; [apply Hsame|]|].
    case_match; [case_decide; [apply bind_ret_inv in Hs' as (? & _ & Hs')|]; injection Hs' as <- _ _; by split; [apply Hsame|]|].
    case_match; [|done]. case_decide; [apply bind_ret_inv in Hs' as (? & _ & Hs')|]; injection Hs' as <- _ _; by split; [apply Hsame|].
  - unfold publish in Hp'. apply bind_ret_inv in Hp' as ([[ps k] err] & _ & Hr). injection Hr as <- _ _. by split; [apply Hsame|].
  - unfold close_by_id in Hc. destruct (close_holds _ _ id Hl) as (g & c & E & Hg & Hc'). rewrite E in Hc. cbn [mbind run_bind] in Hc.
    case_decide as Hself.
    + exfalso. cbn in Hself. rewrite Hself in Hc'. assert (self_of (sess n) ∈ filter (fun c => Registry.Id c = id) live) as Hin.
      { destruct (filter (fun c => Registry.Id c = id) live) as [|d l]; [done|]. injection Hc' as ->. left. }
      apply list_elem_of_filter in Hin as [_ Hin]. by apply (Hlive _ Hin).
    + injection Hc as <-. split; [|done]. eexists. split; [exact Hg|]. intros d [_ Hd]%list_elem_of_filter. by apply Hlive.
  - split; [by apply Hsame|done].
  - split; [by apply Hsame|done].
  - split; [|done]. destruct (Hg live Hl) as (live' & Hl' & Hiff). exists live'. split; [done|].
    intros c Hin Hid. apply (Hlive c); [|done]. by apply Hiff.
Qed.

Lemma life_step l l' : life_inv l -> lstep l l' -> life_inv l'.
Proof.
  intros [Hs Hst] Hl. destruct Hl as [n' Hn Hb|n' r Hn Hb|Hn|k f m Hn Hk Hf|Hn|n' Hr]; try rewrite Hn in Hst.
  - destruct Hst as (Hh & Ha & Hc). rewrite Hh in Hs. destruct (init_begin_inv _ _ _ Hs Ha Hb) as (Hs' & Hi & Hx). destruct (Hx eq_refl) as [Ha' Hc'].
    split; cbn [goes hasty nd now]; [by rewrite Hh|]. split; [|done]. split; [done|]. split; [done|]. cbn. congruence.
  - destruct Hst as (Hh & Ha & Hc). rewrite Hh in Hs. destruct (init_begin_inv _ _ _ Hs Ha Hb) as (Hs' & Hi & _).
    split; cbn [goes hasty nd now]; [by rewrite Hh|done].
  - destruct Hst as ((Hh & Ha & Hc) & Hi). rewrite Hh in Hs. split; cbn [goes hasty nd now]; [rewrite Hh; by apply register_inv|]. intros _. done.
  - split; cbn [goes hasty nd now]; [|done]. pose proof Hs as Hs0. destruct (hasty l).
    + by destruct Hs as [[I Hp Hsub Hb] ? ? ?].
    + specialize (Hst eq_refl). destruct Hs as [Hok Hc Hm Hg]. split; [by destruct Hok|done| |done].
      change (own_id (set_messager (nd l) m)) with (own_id (nd l)). cbn.
      eapply all_kinds_step; [|exact Hm|exact (handler_call_spec _ _ _ _ _ _ (so_pats _ Hok) Hk Hf)]. cbn.
      intros M a b Ha [(g & Hg')| ->] path Hx; [|by apply Ha]. split; [done|]. rewrite Hg' in Hx. case_decide as Hd; [by destruct Hd|]. by apply Ha.
  - split; cbn [goes hasty nd now]; [|done]. unfold init_finish. destruct (hasty l).
    + destruct Hs as [[I Hp Hsub Hb] ? ? ?]. by destruct (send_ready _).
    + destruct (send_ready _); eapply inv_frame; try exact Hs; done.
  - split; cbn [hasty nd now].
    + destruct (hasty l); cbn [orb]; [by eapply rstep_hasty|]. pose proof (rstep_inv _ _ Hs Hr) as Hs'.
      destruct (s_closed (sess n')) eqn:Ec; [|done]. by destruct (now l); [apply session_hasty..|].
    + destruct (now l); [| | |done].
      * destruct Hst as (Hh & Ha & Hc). destruct (rstep_absent _ _ Ha Hc Hr) as (Ha' & Hc' & _). split; [|done]. cbn. by rewrite Hh, Hc'.
      * destruct Hst as ((Hh & Ha & Hc) & Hi). destruct (rstep_absent _ _ Ha Hc Hr) as (Ha' & Hc' & Hi'). split; [|by apply Hi'].
        split; [cbn; by rewrite Hh, Hc'|done].
      * intros [_ Hx]%orb_false_iff. by rewrite andb_true_r in Hx.
Qed.

(** A context that was just made on a node where its id is not in use. *)
Record fresh_session (n : node) : Prop := {
  fs_world : inv (world n);
  fs_pats : Forall valid_pattern (RoomPaterns (sctx_ (sess n)));
  fs_new : subscriptions (sess n) = ∅ /\ publications (sess n) = ∅ /\ s_closed (sess n) = false;
  fs_messager : all_kinds (fun M pm => forall path, registered pm path (own_id n) = None) (messager n);
  fs_registry : absent n
}.

Lemma fresh_inv n : fresh_session n -> session_inv n.
Proof.
  intros [I Hp (Es & Eb & Ec) Hm (live & Hl & Hlive)]. split.
  - split; [done|done|intros sub; rewrite Es; set_solver|intros id p; by rewrite Eb, lookup_empty].
  - by rewrite Ec.
  - eapply all_kinds_impl; [|exact Hm]. cbn. intros M pm Hpm path. rewrite Hpm. by intros [? ?].
  - exists live. split; [done|]. intros c Hin Hid. by destruct (Hlive c Hin).
Qed.

Lemma reachable_session n0 n : fresh_session n0 -> rtc sstep n0 n -> session_inv n.
Proof. intros Hf%fresh_inv Hr. induction Hr as [|x y z Hs _ IH]; [done|]. apply IH. by eapply sstep_inv. Qed.

Lemma reachable_life n0 l : fresh_session n0 -> rtc lstep {| now := Before; nd := n0; hasty := false |} l -> life_inv l.
Proof.
  intros Hf Hr. remember {| now := Before; nd := n0; hasty := false |} as l0 eqn:E.
  assert (life_inv l0) as Hl0.
  { subst. split; cbn; [by apply fresh_inv|]. split; [done|]. split; [apply (fs_registry _ Hf)|]. by destruct (fs_new _ Hf) as (_ & _ & ?). }
  clear E Hf. induction Hr as [|x y z Hs _ IH]; [done|]. apply IH. by eapply life_step.
Qed.

Lemma close_own n b :
  session_inv n -> FindSignalContextById (registry n) (own_id n) = Some (self_of (sess n)) ->
  exists n', close_by_id range http_get (own_id n) b n = Ret n' /\ s_closed (sess n') = true /\ sctx_ (sess n') = sctx_ (sess n) /\
    let_go (world n) (world n') (range_set (subscriptions (sess n))).
Proof.
  intros Hn Hfind. destruct (si_registry _ Hn) as (live & Hl & Hlive). pose proof (proj1 (ho_id _ _ Hl _ _) Hfind) as [Hin Hid].
  destruct (Hlive _ Hin Hid) as (_ & _ & Hcl). unfold close_by_id.
  destruct (close_holds _ _ (own_id n) Hl) as (g & c & -> & Hg & Hc). cbn [mbind run_bind].
  assert (c = Some (self_of (sess n))) as ->.
  { assert (self_of (sess n) ∈ filter (fun c => Registry.Id c = own_id n) live) as Hf by (by apply list_elem_of_filter).
    destruct (filter (fun c => Registry.Id c = own_id n) live) as [|d l] eqn:Ef; [by inversion Hf|]. rewrite Hc. cbn. f_equal.
    assert (d ∈ filter (fun c => Registry.Id c = own_id n) live) as Hd by (rewrite Ef; left).
    apply list_elem_of_filter in Hd as [Hdi Hd]. by apply Hlive. }
  rewrite decide_True by done.
  destruct (SelfClose_spec b (set_registry n g)) as (n' & -> & _ & Es & _ & _ & _ & Hgo & _); [by destruct (si_ok _ Hn)|done|].
  exists n'. split; [done|]. by rewrite Es.
Qed.


(** [SelfClose], on any state of a context: it returns; the first time it tells the rooms, takes the
    handlers of the context and of nobody else out of the messager, closes the peer connection, each publication, each
    subscription of the context and no other, and the connection, in this order, and starts the close callback unless it
    is disabled; from then on it does nothing. *)
Theorem SelfClose_correct b n :
  session_ok n ->
  exists n', SelfClose range http_get b n = Ret n' /\ s_closed (sess n') = true /\ (forall b', SelfClose range http_get b' n' = Ret n') /\
    if s_closed (sess n) then n' = n
    else sess n' = closed_session b (sess n) /\ effects n' = effects n ++ closing_effects b (sess n) /\
      every_kind (removes (own_id n) (RoomPaterns (sctx_ (sess n)))) (messager n) (messager n') /\ inv (world n') /\
      forall sub, subs (world n') !! sub =
        if decide (sub ∈ subscriptions (sess n)) then closed_sub <$> subs (world n) !! sub else subs (world n) !! sub.
Proof.
  intros Hok. destruct (s_closed (sess n)) eqn:Hc.
  - exists n. unfold SelfClose. by rewrite Hc.
  - destruct (SelfClose_spec b n Hok Hc) as (n' & E & _ & Es & Ee & Em & I & _ & Hs). exists n'. split; [done|].
    assert (s_closed (sess n') = true) as Hc' by (by rewrite Es). split; [done|]. split; [|done].
    intros b'. unfold SelfClose. by rewrite Hc'.
Qed.

(** ** Where opening goes wrong *)

(** A failed [InitSignal] is not repeated: the next call finds the mark and reports success. *)
Lemma init_again n n' r :
  session_inv n -> absent n -> init_begin range http_get conf n = Ret (n', Some r) ->
  InitSignal range http_get send_ready conf n' = Ret (n', (true, None)).
Proof. intros Hn Ha Hi. destruct (init_begin_inv _ _ _ Hn Ha Hi) as (_ & Hi' & _). unfold InitSignal. by rewrite Hi'. Qed.

(** A context that is closed by its id after it was registered and before its handlers were: they are
    registered afterwards and stay. *)
Lemma close_during_init n b n1 n2 p ps :
  session_inv n -> absent n -> inited (sess n) = true -> s_closed (sess n) = false -> RoomPaterns (sctx_ (sess n)) = p :: ps ->
  close_by_id range http_get (own_id n) b (init_register n) = Ret n1 -> init_handlers n1 = Ret n2 ->
  s_closed (sess n2) = true /\ is_Some (registered (onStateCallbacks (messager n2)) (Split dot p) (own_id n)).
Proof.
  intros Hn Ha Hi Hcl Hp Hc1 Hc2. pose proof (register_inv n Hn Ha Hi Hcl) as Hn'.
  destruct (close_own (init_register n) b Hn') as (n1' & E & Hc & Ex & _).
  { unfold FindSignalContextById. cbn. apply lookup_insert_eq. }
  change (own_id (init_register n)) with (own_id n) in E. assert (n1' = n1) as -> by congruence.
  unfold init_handlers in Hc2. rewrite Ex in Hc2. apply bind_ret_inv in Hc2 as (m & Em & Hc2). injection Hc2 as <-. split; [done|].
  destruct (on_handlers_spec (messager n1) (own_id n) _ (so_pats _ (si_ok _ Hn))) as (m' & E' & _ & _ & (f & Hf) & _).
  unfold own_id in E'. cbn in Em. rewrite E' in Em. injection Em as <-. cbn. rewrite Hf, decide_True; [done|].
  split; [done|]. rewrite Hp. left.
Qed.
End Closing.

(** ** Witnesses *)
Module Toy.
Import Templates.Toy.

Definition ready_ok (u : UserInfo) : option gerror := None.
Definition http_ok (url : string) : Z + gerror := inl 200%Z.

Definition new_session : session :=
  {| address := 0; sctx_ := sample_ctx; inited := false; s_closed := false; cancelled := false; close_cb := None;
     close_cb_disabled := false; Peer := false; peerClosed := false; subscriptions := ∅; publications := ∅; sig_evts := []; sig_close_cb := false |}.

Definition node0 : node :=
  {| messager := NewMessager false "" None; registry := NewGlobal; world := Sample.router0; sess := new_session; effects := [] |}.

Lemma node0_fresh : fresh_session node0.
Proof.
  split; [apply NewRouter_inv| |done| |].
  - repeat constructor; by vm_compute.
  - repeat split; intros path; apply registered_new.
  - exists []. split; [apply new_holds|]. intros c Hc. by inversion Hc.
Qed.

Definition ids : list string := ["sub1"].
Definition request : SubscribeMessage :=
  {| Sub_Op := SUB_OP_ADD; Sub_Id := ""; Sub_ReqTypes := []; Sub_Pattern := Some (Sample.by_type "video"); Sub_Room := "a.x" |}.

Definition get {A} (d : A) (r : run A) : A := match r with Ret x => x | Abort _ => d end.
Definition opened : node := (get (node0, (true, None)) (InitSignal range0 http_ok ready_ok Config.debug_config node0)).1.
Definition subscribed : node := (get (opened, "", None) (Subscribe range0 opened request ids)).1.1.

Lemma run_subscribed : rtc (sstep range0 http_ok ready_ok Config.debug_config) node0 subscribed.
Proof.
  eapply rtc_l; [eapply (st_init _ _ _ _ node0 opened (true, None)); vm_compute; reflexivity|].
  eapply rtc_once, st_step, (st_subscribe _ _ opened request ids subscribed "sub1" None); [vm_compute; reflexivity| |vm_compute; reflexivity].
  intros i Hi. right. apply list_elem_of_singleton in Hi as ->. vm_compute. reflexivity.
Qed.

Lemma life_subscribed :
  rtc (lstep range0 http_ok ready_ok Config.debug_config) {| now := Before; nd := node0; hasty := false |}
    {| now := Returned; nd := subscribed; hasty := false |}.
Proof.
  etrans; [apply (InitSignal_parts range0 http_ok ready_ok Config.debug_config node0 opened (true, None)); vm_compute; reflexivity|].
  apply rtc_once. apply (ls_other range0 http_ok ready_ok Config.debug_config {| now := Returned; nd := opened; hasty := false |} subscribed).
  apply (st_subscribe _ _ opened request ids subscribed "sub1" None); [vm_compute; reflexivity| |vm_compute; reflexivity].
  intros i Hi. right. apply list_elem_of_singleton in Hi as ->. vm_compute. reflexivity.
Qed.


Lemma SelfClose_correct_witness :
  exists n', SelfClose range0 http_ok false subscribed = Ret n' /\ s_closed (sess n') = true.
Proof.
  destruct (SelfClose_correct range0 range0_perm http_ok false subscribed) as (n' & E & Hc & _).
  - apply si_ok, (reachable_session range0 range0_perm http_ok ready_ok Config.debug_config node0); [exact node0_fresh|exact run_subscribed].
  - exists n'. split; [exact E|exact Hc].
Defined.
End Toy.
