(* ===== verification/Admission.v ===== *)
(** * Admission: from a connection to a context in its rooms ([signal/websocket.go], [signal/socketio.go])

    What the two signal servers do with a new connection: they open its token
    ([Auth]), make a context for it and initialize it on the node ([Session]).
    Together with [Token] this is the whole way of a client, from the texts it
    asks a token for to its place in a room. *)
From S2P Require Import Prelude GoStrings Strconv Encoding Auth Token Collection RoomPattern PatternMap Pattern Messages Messager Registry Config Templates.
From S2P Require Import Packets Routing RoutingInv RoutingProps Publication Rooms Session SessionProps.
Local Open Scope string_scope.
Local Open Scope list_scope.

(** How the server leaves the connection. *)
Inductive connection :=
  | Refused                       (** 401, or the error given to [next] *)
  | Connected
  | Dropped (e : gerror)          (** the initialization failed and the connection is closed *)
  | Left (e : gerror).            (** the initialization failed and nothing more is done *)

Section Admission.
Context `{HC : Crypto} `{Uuid, Webrtc, MapOrder, TemplateLib}.
Context (range : forall A, gmap string A -> list (string * A)).
Context (http_get : string -> Z + gerror).
Context (send_ready : UserInfo -> option gerror).
Context (conf : ConferenceConfigure).

(** [newSignalContext], at address [addr]. *)
Definition new_session (addr : nat) (ctx : SignalContext) : session :=
  {| address := addr; sctx_ := ctx; inited := false; s_closed := false; cancelled := false; close_cb := None; close_cb_disabled := false;
     Session.Peer := false; Session.peerClosed := false; subscriptions := ∅; publications := ∅; sig_evts := []; sig_close_cb := false |}.

(** The context is made and initialized; the flag tells whether [InitSignal] returns it. *)
Definition open_context (addr : nat) (a : AuthInfo) (id : string) (n : Session.node) : run (Session.node * (bool * option gerror)) :=
  InitSignal range http_get send_ready conf (set_sess n (new_session addr (newSignalContext id (nodeName (messager n)) a))).

(** The handler of GET /ws; the upgrade of the connection succeeds. *)
Definition connect_ws (secret uuid : string) (authorization signal_id : option (list string)) (addr : nat) (n : Session.node) : run (Session.node * connection) :=
  r ← websocket_handler secret uuid authorization signal_id;
  match r with
  | None => Ret (n, Refused)
  | Some (a, id) => '(n, (_, err)) ← open_context addr a id n; Ret (n, match err with Some e => Dropped e | None => Connected end)
  end.

(** The authentication of Socket.IO and its handler of "connection": only a context that is returned is closed. *)
Definition connect_io (secret uuid : string) (now : Z) (auth : option (gmap string auth_value)) (addr : nat) (n : Session.node) : run (Session.node * connection) :=
  s ← SocketIOAuthHandler secret uuid now false auth;
  match s_data s with
  | None => Ret (n, Refused)
  | Some (a, id) =>
      '(n, (returned, err)) ← open_context addr a id n;
      Ret (n, match err with Some e => if (returned : bool) then Dropped e else Left e | None => Connected end)
  end.

(** ** Properties *)

Lemma refused_unchanged_ws secret uuid authorization signal_id addr n n' :
  connect_ws secret uuid authorization signal_id addr n = Ret (n', Refused) -> n' = n.
Proof using Type.
  unfold connect_ws. destruct (websocket_handler _ _ _ _) as [[[a id]|]|]; [|by intros [= <-]|done]. cbn. intros Hc.
  apply bind_ret_inv in Hc as ([n1 [b err]] & _ & Hc). destruct err; discriminate Hc.
Qed.

(** The callbacks of the operator let a context in. *)
Definition callbacks_agree (ctx : SignalContext) (gets : list string) : Prop :=
  exists start close st, NewConferenceCallback (OnStart (Callback conf)) conf ctx = Ret start /\ Call http_get start = (gets, inl st) /\
    (st = 0 \/ st = 200)%Z /\ NewConferenceCallback (OnClose (Callback conf)) conf ctx = Ret close.

Lemma room_no_star room : valid_room room -> Contains room "*" = false /\ valid_pattern room.
Proof using Type.
  intros Hv. unfold valid_room, valid_pattern in *. split.
  - change "*" with (String (Ascii.ascii_of_nat 42) ""). rewrite Contains_char. apply (Split_has_char_iff dot); [done|].
    eapply Forall_impl; [exact Hv|]. by intros p [_ ?].
  - eapply Forall_impl; [exact Hv|]. by intros p [? _].
Qed.

(** The context of a client whose token has one room and the right to join it at once. *)
Definition in_room_ctx (id node : string) (a : AuthInfo) (room : string) : SignalContext :=
  {| Rooms.Id := id; Rooms.Auth := a; Rooms.node := node; rooms := {[room := {| JoinId_ := 1; Joined := true |}]} |}.

Lemma auto_join id node a room :
  Auth_Rooms a = [room] -> valid_room room ->
  JoinRoom range (newSignalContext id node a) [] = Ret (in_room_ctx id node a room, [announcement (in_room_ctx id node a room) room], None).
Proof using Type.
  intros Hr Hv. destruct (room_no_star room Hv) as [Hs _]. unfold JoinRoom, wanted_rooms. cbn [length Nat.eqb]. unfold RoomPaterns. cbn [newSignalContext Rooms.Auth].
  rewrite Hr. replace (filter _ [room]) with [room] by (by rewrite filter_cons, decide_True). cbn [filter list_filter length Nat.eqb mbind run_bind join_rooms newSignalContext rooms].
  rewrite lookup_empty. cbn [app]. change (set_rooms _ _) with (in_room_ctx id node a room).
  cbn [mbind list_bind]. rewrite announce_spec; [done| | |].
  - intros r i. cbn. intros [_ <-]%lookup_singleton_Some. done.
  - eexists. cbn. by rewrite lookup_singleton_eq.
  - intros ->. unfold valid_room in Hv. cbn in Hv. apply Forall_cons in Hv as [[? _] _]. done.
Qed.

(** [InitSignal] up to the message that tells the client it is ready. *)
Lemma open_steps addr a id n room gets :
  Auth_Rooms a = [room] -> AutoJoin a = true -> valid_room room ->
  let ctx := in_room_ctx id (nodeName (messager n)) a room in
  callbacks_agree ctx gets ->
  exists n', open_context addr a id n = Ret (n', match send_ready (MakeUserInfo range ctx) with None => (true, None) | Some e => (false, Some e) end) /\
    sctx_ (sess n') = ctx /\ FindSignalContextById (registry n') id = Some (self_of (sess n')) /\ s_closed (sess n') = false /\
    effects n' = effects n ++ [EAnnounce (announcement ctx room)] ++ (EGet <$> gets) ++ [EReady (MakeUserInfo range ctx)] /\
    every_kind (adds id [room]) (messager n) (messager n').
Proof using Type.
  intros Hr Hj Hv ctx (start & close & st & E1 & E2 & Hst & E3). destruct (room_no_star room Hv) as [_ Hp].
  destruct (on_handlers_spec (messager n) id [room]) as (m' & Em & _ & _ & Hk); [by repeat constructor|].
  unfold open_context, InitSignal. cbn [sess set_sess new_session inited]. unfold init_begin.
  cbn [sess set_sess with_inited new_session sctx_ newSignalContext Rooms.Auth]. rewrite Hj.
  change {| Rooms.Id := id; Rooms.Auth := a; Rooms.node := nodeName (messager n); rooms := ∅ |} with (newSignalContext id (nodeName (messager n)) a).
  rewrite (auto_join _ _ _ room Hr Hv), !bind_ret_l. cbn [emit set_sess with_ctx sess sctx_]. fold ctx. rewrite E1, bind_ret_l, E2.
  replace ((st =? 0) || (st =? 200))%Z with true by (destruct Hst as [-> | ->]; done). rewrite E3, !bind_ret_l.
  unfold init_handlers. cbn [messager init_register set_registry emit set_sess sess with_close_cb with_ctx with_inited sctx_].
  change (Rooms.Id ctx) with id. change (RoomPaterns ctx) with (Auth_Rooms a). rewrite Hr, Em, !bind_ret_l.
  unfold init_finish. cbn [sess set_sess set_messager with_evts sctx_]. cbn. fold ctx.
  destruct (send_ready (MakeUserInfo range ctx)); (eexists; split; [done|]); cbn; (split; [done|]);
    (split; [unfold FindSignalContextById, RegisterSignalContext; cbn; by rewrite lookup_insert_eq|]); (split; [done|]);
    (split; [by rewrite <- !app_assoc|done]).
Qed.

(** When "ready" cannot be sent, Socket.IO leaves the context as it is: nobody
    closes it, it stays registered and in the room. *)
Lemma unready_stays secret uuid now auth s a id addr n room gets e :
  SocketIOAuthHandler secret uuid now false auth = Ret s -> s_data s = Some (a, id) ->
  Auth_Rooms a = [room] -> AutoJoin a = true -> valid_room room ->
  let ctx := in_room_ctx id (nodeName (messager n)) a room in
  callbacks_agree ctx gets -> send_ready (MakeUserInfo range ctx) = Some e ->
  exists n', connect_io secret uuid now auth addr n = Ret (n', Left e) /\ s_closed (sess n') = false /\
    FindSignalContextById (registry n') id = Some (self_of (sess n')).
Proof using Type.
  intros Hs Hd Hr Hj Hv ctx Hcb Hready. destruct (open_steps addr a id n room gets Hr Hj Hv Hcb) as (n1 & Hi & _ & Hf & Hcl & _).
  unfold connect_io. rewrite Hs, bind_ret_l, Hd, Hi. fold ctx. rewrite Hready. by eexists.
Qed.

End Admission.

(** ** Witness *)

Module Toy.
Import Templates.Toy.
#[local] Existing Instance Auth.Toy.crypto.
#[local] Existing Instance Auth.Toy.crypto_laws.

Definition bob : SignalContext := in_room_ctx "me" "" (identity 1000 "k" "u" "Bob & co" "a.x" "r" 7 true) "a.x".

End Toy.
