(* ===== verification/Negotiation.v ===== *)
(** * Negotiation: SDP and ICE candidates of a client ([signal/main.go], [signal/model.go])

    The goroutines that negotiate with one client share the peer connection, the candidates that came
    before the remote description, and two mutexes: [cand_mux] around the pending candidates and [neg_mux], which
    [StartNegotiate] takes and the change of the signaling state to stable gives back.  A goroutine is
    the point it has reached; [advance] runs it to its next access of shared state, so that every
    interleaving is a run.  What the peer connection answers is an argument of the step. *)
From S2P Require Import Prelude Errors.
Local Open Scope string_scope.
Local Open Scope list_scope.

Record CandidateMessage := { Op : string; Candidate : string }.
Record SdpMessage := { Type_ : string; Sdp : string; Mid : Z }.

Inductive SignalingState := SignalingStateStable | SignalingStateOther.

#[global] Instance SignalingState_eq_dec : EqDecision SignalingState.
Proof. solve_decision. Defined.

(** What the peer connection answers: [AddICECandidate]; [SetRemoteDescription], with its error, the state it leaves, whether it
    fails or not, and whether there is a remote description then; [CreateOffer] or [CreateAnswer] followed by
    [SetLocalDescription]; and the sending of the sdp message. *)
Record answers := {
  AddICECandidate : string -> option gerror;
  SetRemoteDescription : SdpMessage -> option gerror * SignalingState * bool;
  CreateAndSetLocal : SignalingState * string + gerror;
  sdp_sent : option gerror
}.

(** ** State *)

(** The points of the goroutines; the last argument of [Ended] is what it panicked with. *)
Inductive thread :=
  | CandStart (m : CandidateMessage)       (** reads the remote description *)
  | CandWait (m : CandidateMessage)        (** waits for [cand_mux] *)
  | CandHold (m : CandidateMessage)        (** holds [cand_mux] and found no remote description *)
  | CandAdd (m : CandidateMessage)
  | SdpStart (m : SdpMessage)
  | SdpRemote (m : SdpMessage)
  | SdpFlush (m : SdpMessage)              (** about to process the pending candidates *)
  | SdpAnswer (m : SdpMessage)
  | NegLock (mid : Z)                      (** waits for [neg_mux] *)
  | NegOffer (mid : Z)
  | StableTry                              (** the handler of the stable state *)
  | StableUnlock
  | Ended (r : option gerror).

(** [flawed]: the remote description was left by a call that failed. *)
Record peer := {
  neg_locked : bool; cand_holder : option nat; signaling : SignalingState; remote : bool; flawed : bool; currentSdpMsgId : Z;
  pendingCandidates : list CandidateMessage; given : list string; sent : list SdpMessage; threads : list thread
}.

Definition new_peer : peer :=
  {| neg_locked := false; cand_holder := None; signaling := SignalingStateStable; remote := false; flawed := false; currentSdpMsgId := 0;
     pendingCandidates := []; given := []; sent := []; threads := [] |}.

Definition set_thread (i : nat) (t : thread) (p : peer) : peer :=
  {| neg_locked := neg_locked p; cand_holder := cand_holder p; signaling := signaling p; remote := remote p; flawed := flawed p;
     currentSdpMsgId := currentSdpMsgId p; pendingCandidates := pendingCandidates p; given := given p; sent := sent p;
     threads := <[i := t]> (threads p) |}.
Definition set_neg (b : bool) (p : peer) : peer :=
  {| neg_locked := b; cand_holder := cand_holder p; signaling := signaling p; remote := remote p; flawed := flawed p;
     currentSdpMsgId := currentSdpMsgId p; pendingCandidates := pendingCandidates p; given := given p; sent := sent p; threads := threads p |}.
Definition set_cands (h : option nat) (l : list CandidateMessage) (g : list string) (p : peer) : peer :=
  {| neg_locked := neg_locked p; cand_holder := h; signaling := signaling p; remote := remote p; flawed := flawed p;
     currentSdpMsgId := currentSdpMsgId p; pendingCandidates := l; given := given p ++ g; sent := sent p; threads := threads p |}.
Definition set_sent (m : SdpMessage) (p : peer) : peer :=
  {| neg_locked := neg_locked p; cand_holder := cand_holder p; signaling := signaling p; remote := remote p; flawed := flawed p;
     currentSdpMsgId := currentSdpMsgId p; pendingCandidates := pendingCandidates p; given := given p; sent := sent p ++ [m]; threads := threads p |}.

(** A new signaling state starts the handler when it is stable. *)
Definition set_signaling (st : SignalingState) (r fl : bool) (p : peer) : peer :=
  {| neg_locked := neg_locked p; cand_holder := cand_holder p; signaling := st; remote := r; flawed := fl;
     currentSdpMsgId := currentSdpMsgId p; pendingCandidates := pendingCandidates p; given := given p; sent := sent p;
     threads := threads p ++ (if decide (st = SignalingStateStable) then [StableTry] else []) |}.

Definition set_remote (r fl : bool) (p : peer) : peer :=
  {| neg_locked := neg_locked p; cand_holder := cand_holder p; signaling := signaling p; remote := r; flawed := fl;
     currentSdpMsgId := currentSdpMsgId p; pendingCandidates := pendingCandidates p; given := given p; sent := sent p; threads := threads p |}.

(** ** The code *)

(** What is given to the peer connection: an empty candidate ends them. *)
Definition ice_of (m : CandidateMessage) : string := if decide (Op m = "add") then Candidate m else "".

Definition _processCandidateMsg (e : answers) (m : CandidateMessage) : option gerror := AddICECandidate e (ice_of m).

(** All pending candidates are given to the peer connection; the last error is returned. *)
Definition processPendingCandidateMsg (e : answers) (l : list CandidateMessage) : option gerror :=
  fold_left (fun err m => match _processCandidateMsg e m with Some x => Some x | None => err end) l None.

Definition unmatched (m : SdpMessage) (p : peer) : bool :=
  bool_decide (Type_ m = "answer") && negb (currentSdpMsgId p =? Mid m)%Z.

(** The steps of goroutine [i]; [None] when it waits for a mutex. *)

(** The handler of "candidate". *)
Definition cand_start (i : nat) (m : CandidateMessage) (p : peer) : run (option peer) :=
  Ret (Some (set_thread i (if remote p then CandAdd m else CandWait m) p)).
Definition cand_wait (i : nat) (m : CandidateMessage) (p : peer) : run (option peer) :=
  match cand_holder p with
  | Some _ => Ret None
  | None =>
      if remote p then Ret (Some (set_thread i (CandAdd m) p))
      else Ret (Some (set_thread i (CandHold m) (set_cands (Some i) (pendingCandidates p) [] p)))
  end.
Definition cand_hold (i : nat) (m : CandidateMessage) (p : peer) : run (option peer) :=
  Ret (Some (set_thread i (Ended None) (set_cands None (pendingCandidates p ++ [m]) [] p))).
Definition cand_add (e : answers) (i : nat) (m : CandidateMessage) (p : peer) : run (option peer) :=
  Ret (Some (set_thread i (Ended (_processCandidateMsg e m)) (set_cands (cand_holder p) (pendingCandidates p) [ice_of m] p))).

(** The handler of "sdp". *)
Definition sdp_start (i : nat) (m : SdpMessage) (p : peer) : run (option peer) :=
  let p' := set_neg true p in
  Ret (Some (if unmatched m p' then set_thread i (Ended None) p' else set_thread i (SdpRemote m) p')).
Definition sdp_remote (e : answers) (i : nat) (m : SdpMessage) (p : peer) : run (option peer) :=
  match SetRemoteDescription e m with
  | (Some _, st, r) =>
      let fl := r && (flawed p || negb (remote p)) in
      let p' := set_thread i (Ended None) p in
      Ret (Some (if decide (st = signaling p) then set_remote r fl p' else set_signaling st r fl p'))
  | (None, st, r) => Ret (Some (set_signaling st r false (set_thread i (SdpFlush m) p)))
  end.
Definition sdp_flush (e : answers) (i : nat) (m : SdpMessage) (p : peer) : run (option peer) :=
  match cand_holder p with
  | Some _ => Ret None
  | None =>
      let l := pendingCandidates p in
      let next := match processPendingCandidateMsg e l with
                  | Some x => Ended (Some x)
                  | None => if decide (Type_ m = "offer") then SdpAnswer m
                            else if decide (Type_ m = "answer") then Ended None else Ended (Some (EConf 1000))
                  end in
      Ret (Some (set_thread i next (set_cands None [] (ice_of <$> l) p)))
  end.
Definition sdp_answer (e : answers) (i : nat) (m : SdpMessage) (p : peer) : run (option peer) :=
  match CreateAndSetLocal e with
  | inr x => Ret (Some (set_thread i (Ended (Some x)) p))
  | inl (st, sdp) =>
      let p := set_sent {| Type_ := "answer"; Sdp := sdp; Mid := Mid m |} p in
      Ret (Some (set_signaling st (remote p) (flawed p) (set_thread i (Ended (sdp_sent e)) p)))
  end.

(** [StartNegotiate]. *)
Definition neg_lock (i : nat) (mid : Z) (p : peer) : run (option peer) :=
  if neg_locked p then Ret None else Ret (Some (set_thread i (NegOffer mid) (set_neg true p))).
Definition neg_offer (e : answers) (i : nat) (mid : Z) (p : peer) : run (option peer) :=
  match CreateAndSetLocal e with
  | inr x => Ret (Some (set_thread i (Ended (Some x)) p))
  | inl (st, sdp) =>
      let p := set_sent {| Type_ := "offer"; Sdp := sdp; Mid := mid |} p in
      Ret (Some (set_signaling st (remote p) (flawed p) (set_thread i (Ended (sdp_sent e)) p)))
  end.

(** The handler of the state of the signaling, when it is stable. *)
Definition stable_try (i : nat) (p : peer) : run (option peer) := Ret (Some (set_thread i StableUnlock (set_neg true p))).
Definition stable_unlock (i : nat) (p : peer) : run (option peer) :=
  if neg_locked p then Ret (Some (set_thread i (Ended None) (set_neg false p)))
  else go_panic (PMsg "fatal error: sync: unlock of unlocked mutex").

Definition advance (e : answers) (i : nat) (t : thread) (p : peer) : run (option peer) :=
  match t with
  | CandStart m => cand_start i m p
  | CandWait m => cand_wait i m p
  | CandHold m => cand_hold i m p
  | CandAdd m => cand_add e i m p
  | SdpStart m => sdp_start i m p
  | SdpRemote m => sdp_remote e i m p
  | SdpFlush m => sdp_flush e i m p
  | SdpAnswer m => sdp_answer e i m p
  | NegLock mid => neg_lock i mid p
  | NegOffer mid => neg_offer e i mid p
  | StableTry => stable_try i p
  | StableUnlock => stable_unlock i p
  | Ended _ => Ret None
  end.

Inductive start := StartCand (m : CandidateMessage) | StartSdp (m : SdpMessage) | StartNegotiate.

Definition begin (x : start) (p : peer) : peer :=
  let '(t, id) := match x with
                  | StartCand m => (CandStart m, currentSdpMsgId p)
                  | StartSdp m => (SdpStart m, currentSdpMsgId p)
                  | StartNegotiate => let id := i32 (currentSdpMsgId p + 2) in (NegLock id, id)
                  end in
  {| neg_locked := neg_locked p; cand_holder := cand_holder p; signaling := signaling p; remote := remote p; flawed := flawed p;
     currentSdpMsgId := id; pendingCandidates := pendingCandidates p; given := given p; sent := sent p; threads := threads p ++ [t] |}.

(** ** Runs *)

Inductive reach : list start -> peer -> Prop :=
  | reach_new : reach [] new_peer
  | reach_begin l x p : reach l p -> reach (l ++ [x]) (begin x p)
  | reach_step l p e i t p' : reach l p -> threads p !! i = Some t -> advance e i t p = Ret (Some p') -> reach l p'.

Definition received (l : list start) : list string := omap (fun x => match x with StartCand m => Some (ice_of m) | _ => None end) l.

Definition in_flight (t : thread) : list string :=
  match t with CandStart m | CandWait m | CandHold m | CandAdd m => [ice_of m] | _ => [] end.

Definition is_hold (t : thread) : Prop := match t with CandHold _ => True | _ => False end.
Definition is_flush (t : thread) : Prop := match t with SdpFlush _ => True | _ => False end.

Definition flushing (p : peer) : Prop := exists j t, threads p !! j = Some t /\ is_flush t.

Record peer_ok (l : list start) (p : peer) : Prop := {
  po_all : given p ++ (ice_of <$> pendingCandidates p) ++ (threads p ≫= in_flight) ≡ₚ received l;
  po_holder i t : threads p !! i = Some t -> is_hold t -> cand_holder p = Some i;
  po_held i : cand_holder p = Some i -> exists t, threads p !! i = Some t /\ is_hold t;
  po_flush : remote p = true -> flawed p = false -> pendingCandidates p <> [] \/ is_Some (cand_holder p) -> flushing p
}.

(** Moving one goroutine. *)
Lemma bind_insert (l : list thread) i t t' :
  l !! i = Some t -> (<[i := t']> l ≫= in_flight) ++ in_flight t ≡ₚ (l ≫= in_flight) ++ in_flight t'.
Proof.
  revert i. induction l as [|x l IH]; intros [|i] Hi; cbn in *; try done.
  - injection Hi as ->. rewrite <- !app_assoc. rewrite (Permutation_app_comm (in_flight t')). solve_Permutation.
  - rewrite <- !app_assoc. by rewrite (IH i Hi).
Qed.

(** One goroutine moves from [t] to [t'] and may start the handler of the stable state. *)
Lemma move_ok l p p' i t t' extra :
  peer_ok l p -> threads p !! i = Some t -> threads p' = <[i := t']> (threads p) ++ extra -> (extra = [] \/ extra = [StableTry]) ->
  given p' ++ (ice_of <$> pendingCandidates p') ++ in_flight t' ≡ₚ given p ++ (ice_of <$> pendingCandidates p) ++ in_flight t ->
  (is_hold t' <-> cand_holder p' = Some i) -> (forall j, j <> i -> cand_holder p' = Some j <-> cand_holder p = Some j) ->
  (remote p' = true -> flawed p' = false -> pendingCandidates p' <> [] \/ is_Some (cand_holder p') ->
     is_flush t' \/ ~ is_flush t /\ remote p = true /\ flawed p = false /\ (pendingCandidates p <> [] \/ is_Some (cand_holder p))) ->
  peer_ok l p'.
Proof.
  intros [H1 H2 H3 H4] Hi Ht Hx Hall Hh Hj Hf. pose proof (lookup_lt_Some _ _ _ Hi) as Hlt.
  assert (extra ≫= in_flight = []) as Hxf by (by destruct Hx as [-> | ->]).
  assert (forall j x, threads p' !! j = Some x -> (j = i /\ x = t') \/ (j <> i /\ threads p !! j = Some x) \/ x = StableTry) as Hinv.
  { intros j x. rewrite Ht. intros [Hl|[_ Hl]]%lookup_app_Some.
    - destruct (decide (j = i)) as [->|Hne]; [rewrite list_lookup_insert_eq in Hl by done; left; by injection Hl|].
      rewrite list_lookup_insert_ne in Hl by done. auto.
    - destruct Hx as [-> | ->]; [done|]. apply list_lookup_singleton_Some in Hl as [_ <-]. auto. }
  assert (forall j x, j <> i -> threads p !! j = Some x -> threads p' !! j = Some x) as Hkeep.
  { intros j x Hne Hl. rewrite Ht. apply lookup_app_l_Some. by rewrite list_lookup_insert_ne. }
  assert (threads p' !! i = Some t') as Hnew by (rewrite Ht; apply lookup_app_l_Some; by apply list_lookup_insert_eq).
  split.
  - rewrite <- H1, Ht, bind_app, Hxf, app_nil_r.
    apply (Permutation_app_inv_r (in_flight t)). rewrite <- !app_assoc, (bind_insert _ _ _ _ Hi).
    rewrite (Permutation_app_comm (threads p ≫= in_flight)).
    rewrite !(assoc_L (++)), <- (assoc_L (++) (given p')), Hall. rewrite <- !(assoc_L (++)). do 2 apply Permutation_app_head. apply Permutation_app_comm.
  - intros j x Hl Hx'. destruct (Hinv j x Hl) as [[-> ->]|[[Hne Hl']| ->]]; [by apply Hh| |done]. apply Hj; [done|]. by eapply H2.
  - intros j Hjh. destruct (decide (j = i)) as [->|Hne]; [exists t'; split; [done|]; by apply Hh|].
    apply Hj in Hjh; [|done]. destruct (H3 j Hjh) as (x & Hl & Hx'). eauto.
  - intros Hr Hw Hp. destruct (Hf Hr Hw Hp) as [Hfl|(Hnf & Hr0 & Hw0 & Hp0)]; [by exists i, t'|].
    destruct (H4 Hr0 Hw0 Hp0) as (j & x & Hl & Hx'). destruct (decide (j = i)) as [->|Hne]; [congruence|]. exists j, x. auto.
Qed.

Lemma signaling_extra (st : SignalingState) :
  (if decide (st = SignalingStateStable) then [StableTry] else []) = [] \/ (if decide (st = SignalingStateStable) then [StableTry] else []) = [StableTry].
Proof. case_decide; auto. Qed.

(** A goroutine that does not hold [cand_mux] and leaves the candidates alone. *)
Lemma plain_move l p p' i t t' extra :
  peer_ok l p -> threads p !! i = Some t -> threads p' = <[i := t']> (threads p) ++ extra -> (extra = [] \/ extra = [StableTry]) ->
  given p' = given p -> pendingCandidates p' = pendingCandidates p -> cand_holder p' = cand_holder p -> (remote p' = true -> flawed p' = false -> remote p = true /\ flawed p = false) ->
  in_flight t' = in_flight t -> ~ is_hold t -> ~ is_hold t' -> ~ is_flush t -> peer_ok l p'.
Proof.
  intros Hok Hi Ht Hx Eg Ep Eh Er Ef Hnh Hnh' Hnf. eapply move_ok; [exact Hok|exact Hi|exact Ht|exact Hx| | | |].
  - by rewrite Eg, Ep, Ef.
  - rewrite Eh. split; [done|]. intros Hh. destruct (po_held _ _ Hok i Hh) as (x & Hl & Hx'). congruence.
  - intros j _. by rewrite Eh.
  - rewrite Ep, Eh. intros Hr Hw Hp. destruct (Er Hr Hw). auto.
Qed.

Ltac plain Hok Hi Hnil :=
  eapply plain_move; [exact Hok|exact Hi|cbn; (apply Hnil || reflexivity)|(by left) || apply signaling_extra|..]; cbn; try done; try (by intros []).

Lemma advance_ok l e i t p p' :
  peer_ok l p -> threads p !! i = Some t -> advance e i t p = Ret (Some p') -> peer_ok l p'.
Proof.
  intros Hok Hi Ha.
  assert (forall t', <[i := t']> (threads p) = <[i := t']> (threads p) ++ []) as Hnil by (intros; by rewrite app_nil_r).
  assert (~ is_hold t -> cand_holder p <> Some i) as Hself.
  { intros Hnh Hh. destruct (po_held _ _ Hok i Hh) as (x & Hl & Hx). congruence. }
  destruct t as [m|m|m|m|m|m|m|m|mid|mid| | |r]; cbn [advance] in Ha;
    unfold cand_start, cand_wait, cand_hold, cand_add, sdp_start, sdp_remote, sdp_flush, sdp_answer, neg_lock, neg_offer, stable_try, stable_unlock in Ha.
  - injection Ha as <-. destruct (remote p); plain Hok Hi Hnil.
  - destruct (cand_holder p) as [h|] eqn:Eh; [done|]. destruct (remote p) eqn:Er; injection Ha as <-.
    + plain Hok Hi Hnil.
    + eapply move_ok; [exact Hok|exact Hi|cbn; apply Hnil|by left|cbn; by rewrite app_nil_r|done| |].
      * intros j Hne. cbn. rewrite Eh. split; [intros [= ->]; done|done].
      * cbn. congruence.
  - injection Ha as <-. pose proof (po_holder _ _ Hok _ _ Hi I) as Hh.
    eapply move_ok; [exact Hok|exact Hi|cbn; apply Hnil|by left| | | |].
    + cbn. by rewrite fmap_app, !app_nil_r.
    + done.
    + intros j Hne. cbn. rewrite Hh. split; [done|congruence].
    + cbn. intros Hr Hw _. right. split; [by intros []|]. split; [done|]. split; [done|]. right. by rewrite Hh.
  - injection Ha as <-. eapply move_ok; [exact Hok|exact Hi|cbn; apply Hnil|by left| | | |]; cbn.
    + rewrite app_nil_r, <- app_assoc. apply Permutation_app_head, Permutation_app_comm.
    + split; [done|]. apply Hself; by intros [].
    + done.
    + intros Hr Hw Hp. right. split; [by intros []|]. done.
  - injection Ha as <-. destruct (unmatched m (set_neg true p)).
    all: plain Hok Hi Hnil.
  - destruct (SetRemoteDescription e m) as [[[x|] st] r]; injection Ha as <-.
    + case_decide; plain Hok Hi Hnil; (intros ->; cbn; intros [-> Hr]%orb_false_iff; by destruct (remote p)).
    + eapply move_ok; [exact Hok|exact Hi|cbn; reflexivity|apply signaling_extra|done| |done|]; cbn.
      * split; [done|]. apply Hself; by intros [].
      * by left.
  - destruct (cand_holder p) as [h|] eqn:Eh; [done|]. injection Ha as <-.
    eapply move_ok; [exact Hok|exact Hi|cbn; apply Hnil|by left| | | |]; cbn.
    + rewrite <- app_assoc. apply Permutation_app_head. rewrite app_nil_r. apply Permutation_app_tail || idtac.
      destruct (processPendingCandidateMsg _ _); [by rewrite app_nil_r|]. repeat case_decide; by rewrite app_nil_r.
    + split; [|done]. destruct (processPendingCandidateMsg _ _); [done|]. by repeat case_decide.
    + intros j _. by rewrite Eh.
    + intros _ _ [?|[? ?]]; done.
  - destruct (CreateAndSetLocal e) as [[st sdp]|x]; injection Ha as <-.
    + plain Hok Hi Hnil.
    + plain Hok Hi Hnil.
  - destruct (neg_locked p); [done|]. injection Ha as <-.
    plain Hok Hi Hnil.
  - destruct (CreateAndSetLocal e) as [[st sdp]|x]; injection Ha as <-.
    + plain Hok Hi Hnil.
    + plain Hok Hi Hnil.
  - injection Ha as <-. plain Hok Hi Hnil.
  - destruct (neg_locked p); [|done]. injection Ha as <-.
    plain Hok Hi Hnil.
  - done.
Qed.

Lemma begin_ok l x p : peer_ok l p -> peer_ok (l ++ [x]) (begin x p).
Proof.
  intros [H1 H2 H3 H4]. unfold begin.
  destruct x as [m|m|]; cbn; (split; cbn;
    [rewrite bind_app; unfold received; rewrite omap_app; fold (received l); rewrite <- H1; cbn; by rewrite ?app_nil_r, <- ?app_assoc
    |intros i y [Hl|[_ Hl]]%lookup_app_Some; [by eapply H2|by apply list_lookup_singleton_Some in Hl as [_ <-]]
    |intros i Hi; destruct (H3 i Hi) as (y & Hl & Hy); exists y; split; [by apply lookup_app_l_Some|done]
    |intros Hr Hw Hp; destruct (H4 Hr Hw Hp) as (j & y & Hl & Hy); exists j, y; split; [by apply lookup_app_l_Some|done]]).
Qed.

Lemma reach_ok l p : reach l p -> peer_ok l p.
Proof.
  induction 1 as [|l x p _ IH|l p e i t p' _ IH Hi Ha]; [|by apply begin_ok|by eapply advance_ok].
  split; cbn; [done|by intros i t|done|done].
Qed.

(** C15. No ICE candidate is lost.  Whatever the interleaving of the goroutines and whatever the peer
    connection answers: each candidate a client sent is, exactly once, given to the peer connection, pending,
    or in the hands of its goroutine; once there is a remote description, other than one that a failing [SetRemoteDescription] left,
    and the goroutines have ended, all were given; and nobody waits for [cand_mux] in vain, since the goroutine that
    holds it can run.  (After a failure the pending candidates are not looked at: see [failed_remote_strands].) *)
Theorem candidates_delivered l p :
  reach l p ->
  given p ++ (ice_of <$> pendingCandidates p) ++ (threads p ≫= in_flight) ≡ₚ received l /\
  (remote p = true -> flawed p = false -> (forall t, t ∈ threads p -> exists r, t = Ended r) -> given p ≡ₚ received l) /\
  (forall i, cand_holder p = Some i -> exists t, threads p !! i = Some t /\ forall e, exists p', advance e i t p = Ret (Some p') /\ cand_holder p' = None).
Proof.
  intros Hr%reach_ok. destruct Hr as [H1 H2 H3 H4]. split; [done|]. split.
  - intros Hr Hw Hend. assert (threads p ≫= in_flight = []) as Ef.
    { clear -Hend. induction (threads p) as [|t ts IH]; [done|]. cbn. destruct (Hend t) as [r ->]; [left|]. cbn. apply IH. intros t Ht. apply Hend. by right. }
    assert (~ flushing p) as Hnf.
    { intros (j & t & Hl & Hf). destruct (Hend t) as [r ->]; [by eapply list_elem_of_lookup_2|done]. }
    destruct (pendingCandidates p) as [|m ms] eqn:Ep; [|by destruct Hnf; apply H4; [| |left]].
    rewrite Ef in H1. cbn in H1. by rewrite app_nil_r in H1.
  - intros i Hi. destruct (H3 i Hi) as (t & Hl & Ht). exists t. split; [done|]. intros e. destruct t; try done. by eexists.
Qed.

(** ** The mutex of the negotiations *)

Definition stable_peer : answers :=
  {| AddICECandidate _ := None; SetRemoteDescription _ := (None, SignalingStateOther, true);
     CreateAndSetLocal := inl (SignalingStateStable, "v=0"); sdp_sent := None |}.

(** An answer with a number that is not the last one leaves the mutex locked, with nobody to unlock it: the
    next negotiation waits for ever. *)
Lemma unmatched_answer_locks :
  exists p, reach [StartSdp {| Type_ := "answer"; Sdp := ""; Mid := 7 |}; StartNegotiate] p /\
    threads p = [Ended None; NegLock 2] /\ forall e, advance e 1 (NegLock 2) p = Ret None.
Proof.
  eexists. split.
  - apply (reach_begin [_]). eapply (reach_step _ _ stable_peer 0); [apply (reach_begin []); constructor|done|reflexivity].
  - split; [reflexivity|done].
Qed.

(** The steps of the goroutines in turn. *)
Fixpoint steps (e : answers) (is_ : list nat) (p : peer) : run (option peer) :=
  match is_ with
  | [] => Ret (Some p)
  | i :: is_ => match threads p !! i with
                | None => Ret None
                | Some t => r ← advance e i t p; match r with Some p => steps e is_ p | None => Ret None end
                end
  end.

Lemma steps_reach l e is_ : forall p p', reach l p -> steps e is_ p = Ret (Some p') -> reach l p'.
Proof.
  induction is_ as [|i is_ IH]; cbn; intros p p' Hr Hs; [by injection Hs as <-|].
  destruct (threads p !! i) as [t|] eqn:Hi; [|done]. apply bind_ret_inv in Hs as ([q|] & Ha & Hs); [|done].
  eapply IH; [|exact Hs]. by eapply reach_step.
Qed.

(** A [SetRemoteDescription] that fails after it has set the description, if the peer connection does that: the candidates that
    came before stay pending, while those that come later are added. *)
Definition stranded_start (m : CandidateMessage) : list start := [StartCand m; StartSdp {| Type_ := "offer"; Sdp := ""; Mid := 1 |}].
Definition failing_peer : answers :=
  {| AddICECandidate _ := None; SetRemoteDescription _ := (Some (EOther "failed"), SignalingStateOther, true);
     CreateAndSetLocal := inr (EOther "failed"); sdp_sent := None |}.

Lemma failed_remote_strands m :
  exists p, reach (stranded_start m) p /\ threads p = [Ended None; Ended None] /\ remote p = true /\ pendingCandidates p = [m] /\ given p = [].
Proof.
  destruct (steps failing_peer [0; 0; 0; 1; 1] (begin (StartSdp {| Type_ := "offer"; Sdp := ""; Mid := 1 |}) (begin (StartCand m) new_peer)))
    as [[p|]|] eqn:E; vm_compute in E; try done.
  exists p. split; [|by injection E as <-].
  eapply (steps_reach _ failing_peer [0; 0; 0; 1; 1]); [apply (reach_begin [_]), (reach_begin []); constructor|].
  rewrite <- E. vm_compute. reflexivity.
Qed.

(** Two offers of the client that are answered before the handlers of the stable state run: the second
    handler unlocks a mutex that is not locked, which ends the process. *)
Definition two_offers : list start :=
  [StartSdp {| Type_ := "offer"; Sdp := "a"; Mid := 1 |}; StartSdp {| Type_ := "offer"; Sdp := "b"; Mid := 3 |}].

Lemma double_unlock :
  exists p, reach two_offers p /\ threads p !! 3 = Some StableUnlock /\
    forall e, advance e 3 StableUnlock p = go_panic (PMsg "fatal error: sync: unlock of unlocked mutex").
Proof.
  destruct (steps stable_peer [0; 0; 0; 0; 1; 1; 1; 1; 2; 3; 2] (begin (StartSdp {| Type_ := "offer"; Sdp := "b"; Mid := 3 |})
    (begin (StartSdp {| Type_ := "offer"; Sdp := "a"; Mid := 1 |}) new_peer))) as [[p|]|] eqn:E; vm_compute in E; try done.
  exists p. split; [|by injection E as <-].
  eapply (steps_reach _ stable_peer [0; 0; 0; 0; 1; 1; 1; 1; 2; 3; 2]); [apply (reach_begin [_]), (reach_begin []); constructor|].
  rewrite <- E. vm_compute. reflexivity.
Qed.

(** ** Witness *)

Definition early : CandidateMessage := {| Op := "add"; Candidate := "candidate:1" |}.

(** A candidate that comes before the offer is given to the peer connection with it. *)
Lemma candidates_delivered_witness :
  exists p, reach [StartCand early; StartSdp {| Type_ := "offer"; Sdp := "a"; Mid := 1 |}] p /\ given p = ["candidate:1"] /\
    given p ≡ₚ received [StartCand early; StartSdp {| Type_ := "offer"; Sdp := "a"; Mid := 1 |}].
Proof.
  destruct (steps stable_peer [0; 0; 0; 1; 1; 1; 1; 2; 2]
    (begin (StartSdp {| Type_ := "offer"; Sdp := "a"; Mid := 1 |}) (begin (StartCand early) new_peer))) as [[p|]|] eqn:E; vm_compute in E; try discriminate.
  exists p. assert (reach [StartCand early; StartSdp {| Type_ := "offer"; Sdp := "a"; Mid := 1 |}] p) as Hr.
  { eapply (steps_reach _ stable_peer [0; 0; 0; 1; 1; 1; 1; 2; 2]); [apply (reach_begin [_]), (reach_begin []); constructor|].
    rewrite <- E. vm_compute. reflexivity. }
  split; [exact Hr|]. split; [by injection E as <-|].
  apply (candidates_delivered _ _ Hr); injection E as <-; [reflexivity|reflexivity|].
  intros t Ht. cbn in Ht. repeat (apply elem_of_cons in Ht as [->|Ht]; [by eexists|]). by inversion Ht.
Defined.
