(* ===== verification/PeerConn.v ===== *)
(** * PeerConn: the peer connection of a client ([signal/model.go])

    The codecs a recorded conference registers, the making and closing of the one peer connection of a signal
    context, what its handlers send to the client, and how its transceivers are named.  [makeSurePeer] and
    [closePeer] are called from many goroutines; [peerClosed] is read without the mutex first, so a goroutine is
    the point it has reached and every interleaving is a run.  [pion/webrtc] is outside: the peer a call makes is
    a number, and whether making it fails is an argument of the step. *)
From S2P Require Import Prelude GoStrings Strconv Collection Pattern Errors Negotiation Publication.
Local Open Scope Z_scope.
Local Open Scope string_scope.
Local Open Scope list_scope.

(** ** Codecs *)

Inductive RTPCodecType := RTPCodecTypeAudio | RTPCodecTypeVideo.
#[global] Instance RTPCodecType_eq_dec : EqDecision RTPCodecType.
Proof. solve_decision. Defined.

(** A capability with its payload type: the [RTPCodecParameters] of the registration. *)
Definition MakeRTPCodecCapability (mimeType : string) (clockRate channels : Z) (sdpFmtpLine : string) (feedback : option (list RTCPFeedback))
    (payloadType : Z) : RTPCodecParameters :=
  {| MimeType := mimeType; ClockRate := clockRate; Channels := channels; SdpFmtpLine := sdpFmtpLine; RtcpFeedback := feedback;
     PayloadType := payloadType |}.

Definition MimeTypeH264 : string := "video/H264".

Definition audio_codecs : list RTPCodecParameters :=
  [ MakeRTPCodecCapability "audio/opus" 48000 2 "minptime=10;useinbandfec=1" None 111;
    MakeRTPCodecCapability "audio/G722" 8000 0 "" None 9;
    MakeRTPCodecCapability "audio/PCMU" 8000 0 "" None 0;
    MakeRTPCodecCapability "audio/PCMA" 8000 0 "" None 8 ].

Definition videoRTCPFeedback : list RTCPFeedback :=
  [ {| FbType := "goog-remb"; Parameter_ := "" |}; {| FbType := "ccm"; Parameter_ := "fir" |};
    {| FbType := "nack"; Parameter_ := "" |}; {| FbType := "nack"; Parameter_ := "pli" |} ].

Definition video_codecs : list RTPCodecParameters :=
  [ MakeRTPCodecCapability MimeTypeH264 90000 0 "level-asymmetry-allowed=1;packetization-mode=1;profile-level-id=42001f" (Some videoRTCPFeedback) 102;
    MakeRTPCodecCapability "video/rtx" 90000 0 "apt=102" None 103;
    MakeRTPCodecCapability MimeTypeH264 90000 0 "level-asymmetry-allowed=1;packetization-mode=0;profile-level-id=42001f" (Some videoRTCPFeedback) 104;
    MakeRTPCodecCapability "video/rtx" 90000 0 "apt=104" None 105;
    MakeRTPCodecCapability MimeTypeH264 90000 0 "level-asymmetry-allowed=1;packetization-mode=1;profile-level-id=42e01f" (Some videoRTCPFeedback) 106;
    MakeRTPCodecCapability "video/rtx" 90000 0 "apt=106" None 107;
    MakeRTPCodecCapability MimeTypeH264 90000 0 "level-asymmetry-allowed=1;packetization-mode=0;profile-level-id=42e01f" (Some videoRTCPFeedback) 108;
    MakeRTPCodecCapability "video/rtx" 90000 0 "apt=108" None 109;
    MakeRTPCodecCapability MimeTypeH264 90000 0 "level-asymmetry-allowed=1;packetization-mode=1;profile-level-id=4d001f" (Some videoRTCPFeedback) 127;
    MakeRTPCodecCapability "video/rtx" 90000 0 "apt=127" None 125;
    MakeRTPCodecCapability MimeTypeH264 90000 0 "level-asymmetry-allowed=1;packetization-mode=0;profile-level-id=4d001f" (Some videoRTCPFeedback) 39;
    MakeRTPCodecCapability "video/rtx" 90000 0 "apt=39" None 40;
    MakeRTPCodecCapability MimeTypeH264 90000 0 "level-asymmetry-allowed=1;packetization-mode=1;profile-level-id=64001f" (Some videoRTCPFeedback) 112;
    MakeRTPCodecCapability "video/rtx" 90000 0 "apt=112" None 113 ].

(** What the server uses of the media engine. *)
Class MediaEngine (E : Type) := {
  RegisterCodec : E -> RTPCodecParameters -> RTPCodecType -> E + gerror;
  RegisterDefaultCodecs : E -> E + gerror;
  RegisterDefaultInterceptors : E -> option gerror
}.

Section Engine.
Context {E : Type} `{MediaEngine E}.

Fixpoint register_all (m : E) (l : list RTPCodecParameters) (typ : RTPCodecType) : E + gerror :=
  match l with
  | [] => inl m
  | codec :: l => match RegisterCodec m codec typ with inr err => inr err | inl m => register_all m l typ end
  end.

Definition RegisterLeastCodecs (m : E) : E + gerror :=
  match register_all m audio_codecs RTPCodecTypeAudio with
  | inr err => inr err
  | inl m => register_all m video_codecs RTPCodecTypeVideo
  end.

(** [createPeer]: the engine the peer is made with. [pli] and [new] are the errors of the interceptor
    and of [NewPeerConnection]; both are wrapped. *)
Definition createPeer (m : E) (record : bool) (pli new : option gerror) : E + gerror :=
  match (if record then RegisterLeastCodecs m else RegisterDefaultCodecs m) with
  | inr err => inr err
  | inl m =>
      match RegisterDefaultInterceptors m with
      | Some err => inr err
      | None =>
          match pli, new with
          | Some _, _ => inr (EOther "unable to create interval pli interceptor factory")
          | None, Some _ => inr (EOther "unable to create peer")
          | None, None => inl m
          end
      end
  end.
End Engine.

(** A codec is sent again with the payload type of a codec of the table. *)
Definition apt_of (c : RTPCodecParameters) : option Z :=
  if decide (MimeType c = "video/rtx") then
    if HasPrefix (SdpFmtpLine c) "apt=" then Atoi (String.substring 4 (String.length (SdpFmtpLine c) - 4) (SdpFmtpLine c)) else None
  else None.

(** Each retransmission follows the H264 codec it repeats. *)
Fixpoint rtx_pairs (l : list RTPCodecParameters) : bool :=
  match l with
  | [] => true
  | c :: r :: l => bool_decide (MimeType c = MimeTypeH264) && bool_decide (apt_of r = Some (PayloadType c)) && rtx_pairs l
  | [_] => false
  end.

Lemma codec_table_ok :
  NoDup (PayloadType <$> audio_codecs ++ video_codecs) /\
  Forall (fun c => 0 <= PayloadType c < 128) (audio_codecs ++ video_codecs) /\ rtx_pairs video_codecs = true.
Proof.
  split_and!; [apply (bool_decide_unpack _); vm_compute; exact I| |by vm_compute].
  apply (bool_decide_unpack _). vm_compute. exact I.
Qed.

(** An engine that refuses a payload type it has already, and nothing else. *)
Class EngineLaws (E : Type) `{MediaEngine E} (registered : E -> list (RTPCodecParameters * RTPCodecType)) : Prop := {
  register_new m c t : PayloadType c ∉ (PayloadType ∘ fst <$> registered m) ->
    exists m', RegisterCodec m c t = inl m' /\ registered m' = registered m ++ [(c, t)]
}.

Section EngineProps.
Context {E : Type} `{HE : EngineLaws E registered}.

Lemma register_all_new l t : forall m,
  NoDup ((PayloadType ∘ fst <$> registered m) ++ (PayloadType <$> l)) ->
  exists m', register_all m l t = inl m' /\ registered m' = registered m ++ ((fun c => (c, t)) <$> l).
Proof.
  induction l as [|c l IH]; intros m Hn; cbn [register_all fmap list_fmap].
  - exists m. by rewrite app_nil_r.
  - apply NoDup_app in Hn as Hn'. destruct Hn' as (_ & Hd & _).
    destruct (register_new m c t) as (m1 & -> & E1); [intros Hc; apply (Hd _ Hc); left|].
    destruct (IH m1) as (m2 & -> & E2).
    + rewrite E1, fmap_app. cbn. rewrite <- app_assoc. exact Hn.
    + exists m2. split; [done|]. rewrite E2, E1, <- app_assoc. done.
Qed.

(** An empty engine takes the whole table, in its order. *)
Lemma RegisterLeastCodecs_ok m :
  registered m = [] -> exists m', RegisterLeastCodecs m = inl m' /\
    registered m' = ((fun c => (c, RTPCodecTypeAudio)) <$> audio_codecs) ++ ((fun c => (c, RTPCodecTypeVideo)) <$> video_codecs).
Proof.
  intros Hm. destruct codec_table_ok as (Hn & _ & _). rewrite fmap_app in Hn. unfold RegisterLeastCodecs.
  destruct (register_all_new audio_codecs RTPCodecTypeAudio m) as (m1 & -> & E1); [rewrite Hm; by apply NoDup_app in Hn as (Hn & _ & _)|].
  destruct (register_all_new video_codecs RTPCodecTypeVideo m1) as (m2 & -> & E2).
  - rewrite E1, Hm. cbn [fmap list_fmap app]. by rewrite <- list_fmap_compose.
  - exists m2. split; [done|]. by rewrite E2, E1, Hm.
Qed.
End EngineProps.

(** ** Making and closing the peer *)

Definition ErrConnectionClosed : gerror := EOther "connection closed".

Inductive PeerConnectionState := PSNew | PSConnecting | PSConnected | PSDisconnected | PSFailed | PSClosed.
#[global] Instance PeerConnectionState_eq_dec : EqDecision PeerConnectionState.
Proof. solve_decision. Defined.

(** What the handlers of the peer do: a "candidate" message to the client, the metrics, and [ctx.Close()]. *)
Inductive peer_effect := SendCandidate (m : CandidateMessage) | BindTracks | ConnectStart | ConnectClose | CtxClose.

Inductive peer_event := IceCandidate (i : option string) | OnTrack | StateChange (pcs : PeerConnectionState).

Definition on_ice (i : option string) : CandidateMessage :=
  match i with None => {| Op := "end"; Candidate := "" |} | Some c => {| Op := "add"; Candidate := c |} end.

Definition on_state (pcs : PeerConnectionState) : list peer_effect :=
  if decide (pcs = PSConnected) then [ConnectStart]
  else if decide (pcs = PSClosed \/ pcs = PSFailed) then [ConnectClose; CtxClose]
  else [].

Definition handle_event (e : peer_event) : list peer_effect :=
  match e with
  | IceCandidate i => [SendCandidate (on_ice i)]
  | OnTrack => [BindTracks]
  | StateChange pcs => on_state pcs
  end.

(** [mustEmitWithAck]: a message that is not answered closes the context. *)
Definition mustEmitWithAck {any A : Type} (r : A + go_error any) (cause : string) : run (list (response any)) :=
  match r with inl _ => Ret [] | inr e => FatalErrorAndClose (PErr e) cause end.

(** The points of a call of [makeSurePeer], and of [closePeer]: the check without the mutex, the wait for it, and the
    part under it; [closePeer] sets the flag before it closes the peer. *)
Inductive point :=
  | MCheck | MLock | MIn | MDone (r : nat + gerror)
  | CCheck | CLock | CIn | CShut | CDone.

Record pconn := {
  Peer : option nat; peerClosed : bool; peer_mux : option nat; made : nat; wired : gset nat; shut : gset nat;
  fired : list peer_effect; points : list point
}.

Definition pconn0 : pconn :=
  {| Peer := None; peerClosed := false; peer_mux := None; made := 0; wired := ∅; shut := ∅; fired := []; points := [] |}.

Definition at_point (i : nat) (mux : option nat) (q : point) (c : pconn) : pconn :=
  {| Peer := Peer c; peerClosed := peerClosed c; peer_mux := mux; made := made c; wired := wired c; shut := shut c;
     fired := fired c; points := <[i := q]> (points c) |}.

(** The part of [makeSurePeer] under the mutex: [ans] is the error of [createPeer]. *)
Definition make_in (i : nat) (ans : option gerror) (c : pconn) : pconn :=
  if peerClosed c then at_point i None (MDone (inr ErrConnectionClosed)) c
  else match Peer c with
       | Some p => at_point i None (MDone (inl p)) c
       | None =>
           match ans with
           | Some e => at_point i None (MDone (inr e)) c
           | None =>
               {| Peer := Some (made c); peerClosed := peerClosed c; peer_mux := None; made := S (made c); wired := {[made c]} ∪ wired c;
                  shut := shut c; fired := fired c; points := <[i := MDone (inl (made c))]> (points c) |}
           end
       end.

Definition close_in (i : nat) (c : pconn) : pconn :=
  if peerClosed c then at_point i None CDone c
  else {| Peer := Peer c; peerClosed := true; peer_mux := peer_mux c; made := made c; wired := wired c; shut := shut c;
          fired := fired c; points := <[i := CShut]> (points c) |}.

Definition close_shut (i : nat) (c : pconn) : pconn :=
  match Peer c with
  | None => at_point i None CDone c
  | Some p => {| Peer := Peer c; peerClosed := peerClosed c; peer_mux := None; made := made c; wired := wired c ∖ {[p]};
                 shut := {[p]} ∪ shut c; fired := fired c; points := <[i := CDone]> (points c) |}
  end.

(** A step of call [i]; [None] when it waits for the mutex or has returned. *)
Definition call_step (i : nat) (ans : option gerror) (c : pconn) : option pconn :=
  match points c !! i with
  | Some MCheck => Some (if peerClosed c then at_point i (peer_mux c) (MDone (inr ErrConnectionClosed)) c else at_point i (peer_mux c) MLock c)
  | Some MLock => match peer_mux c with Some _ => None | None => Some (at_point i (Some i) MIn c) end
  | Some MIn => Some (make_in i ans c)
  | Some CCheck => Some (if peerClosed c then at_point i (peer_mux c) CDone c else at_point i (peer_mux c) CLock c)
  | Some CLock => match peer_mux c with Some _ => None | None => Some (at_point i (Some i) CIn c) end
  | Some CIn => Some (close_in i c)
  | Some CShut => Some (close_shut i c)
  | _ => None
  end.

Definition new_call (q : point) (c : pconn) : pconn :=
  {| Peer := Peer c; peerClosed := peerClosed c; peer_mux := peer_mux c; made := made c; wired := wired c; shut := shut c;
     fired := fired c; points := points c ++ [q] |}.

Definition fire (e : peer_event) (c : pconn) : pconn :=
  {| Peer := Peer c; peerClosed := peerClosed c; peer_mux := peer_mux c; made := made c; wired := wired c; shut := shut c;
     fired := fired c ++ handle_event e; points := points c |}.

(** What happens next: a call, a step of one, or an event of a peer whose handlers are set. *)
Inductive pmove : pconn -> pconn -> Prop :=
  | pm_make c : pmove c (new_call MCheck c)
  | pm_close c : pmove c (new_call CCheck c)
  | pm_step i ans c c' : call_step i ans c = Some c' -> pmove c c'
  | pm_event p e c : p ∈ wired c -> pmove c (fire e c).

Inductive cmove : pconn -> pconn -> Prop :=
  | cm_step i ans c c' : call_step i ans c = Some c' -> cmove c c'.

(** ** The invariant *)

Definition inside (q : point) : bool := match q with MIn | CIn | CShut => true | _ => false end.
Definition peers (c : pconn) : gset nat := match Peer c with Some p => {[p]} | None => ∅ end.

Record pc_ok (c : pconn) : Prop := {
  pk_holder i q : points c !! i = Some q -> inside q = true -> peer_mux c = Some i;
  pk_held i : peer_mux c = Some i -> exists q, points c !! i = Some q /\ inside q = true;
  pk_made : made c = match Peer c with Some _ => 1%nat | None => 0%nat end;
  pk_result i p : points c !! i = Some (MDone (inl p)) -> Peer c = Some p;
  pk_open : peerClosed c = false -> wired c = peers c /\ shut c = ∅;
  pk_shutting i : points c !! i = Some CShut -> peerClosed c = true /\ wired c = peers c /\ shut c = ∅;
  pk_closed : peerClosed c = true -> (forall i, points c !! i <> Some CShut) -> wired c = ∅ /\ shut c = peers c
}.

Lemma pc0_ok : pc_ok pconn0.
Proof. by split. Qed.

(** Steps outside the mutex. *)
Lemma at_point_outside i q0 q c :
  pc_ok c -> points c !! i = Some q0 -> inside q0 = false -> inside q = false -> (forall p, q <> MDone (inl p)) ->
  pc_ok (at_point i (peer_mux c) q c).
Proof.
  intros [K1 K2 K3 K4 K5 K6 K7] Hi H0 Hq Hr. split; cbn; try done.
  - intros j q' Hj Hin. apply lookup_put in Hj as [[<- <-]|[Hne Hj]]; [congruence|eauto].
  - intros j Hj. destruct (K2 j Hj) as (q1 & H1 & Hin). exists q1. split; [|done]. rewrite list_lookup_insert_ne; [done|]. intros ->. congruence.
  - intros j p Hj. apply lookup_put in Hj as [[<- E]|[Hne Hj]]; [by destruct (Hr p)|eauto].
  - intros j Hj. apply lookup_put in Hj as [[<- ->]|[Hne Hj]]; [done|]. by apply (K6 j).
  - intros Hc Hn. apply K7; [done|]. intros j Hj. apply (Hn j). rewrite list_lookup_insert_ne; [done|]. intros ->. rewrite Hj in Hi. by injection Hi as <-.
Qed.

(** Taking the mutex. *)
Lemma at_point_enter i q0 q c :
  pc_ok c -> points c !! i = Some q0 -> peer_mux c = None -> inside q = true -> q <> CShut -> pc_ok (at_point i (Some i) q c).
Proof.
  intros [K1 K2 K3 K4 K5 K6 K7] Hi H0 Hq Hs. assert (forall j q', points c !! j = Some q' -> inside q' = false) as Hout.
  { intros j q' Hj. destruct (inside q') eqn:E; [|done]. specialize (K1 j q' Hj E). congruence. }
  split; cbn; try done.
  - intros j q' Hj Hin. apply lookup_put in Hj as [[<- <-]|[Hne Hj]]; [done|]. rewrite (Hout j q' Hj) in Hin. done.
  - intros j [= <-]. exists q. split; [|done]. apply list_lookup_insert_eq. by eapply lookup_lt_Some.
  - intros j p Hj. apply lookup_put in Hj as [[<- ->]|[Hne Hj]]; [done|eauto].
  - intros j Hj. apply lookup_put in Hj as [[<- ->]|[Hne Hj]]; [done|]. by apply (K6 j).
  - intros Hc Hn. apply K7; [done|]. intros j Hj. specialize (Hout j _ Hj). done.
Qed.

(** The others are outside while one holds the mutex. *)
Lemma others_outside c i q0 j q :
  pc_ok c -> points c !! i = Some q0 -> inside q0 = true -> i <> j -> points c !! j = Some q -> inside q = false.
Proof.
  intros K Hi H0 Hne Hj. destruct (inside q) eqn:E; [|done]. pose proof (pk_holder c K i q0 Hi H0). pose proof (pk_holder c K j q Hj E). congruence.
Qed.

(** Giving the mutex back, with a new state of the peer. *)
Lemma leave_ok c i q0 q c' :
  pc_ok c -> points c !! i = Some q0 -> inside q0 = true -> points c' = <[i := q]> (points c) -> peer_mux c' = None -> inside q = false ->
  made c' = match Peer c' with Some _ => 1%nat | None => 0%nat end ->
  (forall p, Peer c = Some p -> Peer c' = Some p) -> (forall p, q = MDone (inl p) -> Peer c' = Some p) ->
  (peerClosed c' = false -> wired c' = peers c' /\ shut c' = ∅) -> (peerClosed c' = true -> wired c' = ∅ /\ shut c' = peers c') -> pc_ok c'.
Proof.
  intros K Hi H0 Ep Em Hq Hmade Hpeer Hres Hop Hcl.
  assert (forall j q', points c' !! j = Some q' -> inside q' = false) as Hout.
  { intros j q' Hj. rewrite Ep in Hj. apply lookup_put in Hj as [[<- <-]|[Hne Hj]]; [done|]. by apply (others_outside c i q0 j q'). }
  split; try done.
  - intros j q' Hj Hin. rewrite (Hout j q' Hj) in Hin. done.
  - intros j Hj. congruence.
  - intros j p Hj. rewrite Ep in Hj. apply lookup_put in Hj as [[<- Hr]|[Hne Hj]]; [by apply Hres|]. by apply Hpeer, (pk_result c K j).
  - intros j Hj. specialize (Hout j _ Hj). done.
  - intros Hc _. by apply Hcl.
Qed.

Lemma no_shut c i q0 : pc_ok c -> points c !! i = Some q0 -> inside q0 = true -> q0 <> CShut -> forall j, points c !! j <> Some CShut.
Proof.
  intros K Hi H0 Hne j Hj. destruct (decide (i = j)) as [<-|Hij]; [congruence|]. pose proof (others_outside c i q0 j CShut K Hi H0 Hij Hj). done.
Qed.

Lemma call_step_ok i ans c c' : pc_ok c -> call_step i ans c = Some c' -> pc_ok c'.
Proof.
  intros K. unfold call_step. destruct (points c !! i) as [q|] eqn:Hi; [|done]. destruct q; try done.
  - intros [= <-]. destruct (peerClosed c); by eapply at_point_outside.
  - destruct (peer_mux c) eqn:Hm; [done|]. intros [= <-]. by eapply at_point_enter.
  - intros [= <-]. pose proof (no_shut c i MIn K Hi eq_refl ltac:(done)) as Hns. unfold make_in. destruct (peerClosed c) eqn:Hc.
    { destruct (pk_closed c K Hc Hns). eapply (leave_ok c i MIn); cbn; try done; [by apply pk_made|congruence]. }
    destruct (pk_open c K Hc) as [Hw Hs]. pose proof (pk_made c K) as Hmade. destruct (Peer c) as [p|] eqn:Hp; [|destruct ans].
    + eapply (leave_ok c i MIn); cbn; try done; [by rewrite Hp|intros p' [= <-]; done|congruence].
    + eapply (leave_ok c i MIn); cbn; try done; [by rewrite Hp|congruence].
    + eapply (leave_ok c i MIn); cbn; try done.
      * by rewrite Hmade.
      * intros p E. congruence.
      * intros p [= <-]. done.
      * intros _. unfold peers. cbn. rewrite Hw, Hs. unfold peers. rewrite Hp. split; set_solver.
  - intros [= <-]. destruct (peerClosed c); by eapply at_point_outside.
  - destruct (peer_mux c) eqn:Hm; [done|]. intros [= <-]. by eapply at_point_enter.
  - intros [= <-]. pose proof (no_shut c i CIn K Hi eq_refl ltac:(done)) as Hns. unfold close_in. destruct (peerClosed c) eqn:Hc.
    { destruct (pk_closed c K Hc Hns). eapply (leave_ok c i CIn); cbn; try done; [by apply pk_made|congruence]. }
    destruct (pk_open c K Hc) as [Hw Hs]. pose proof (fun j q => others_outside c i CIn j q K Hi eq_refl) as Hout.
    pose proof (pk_holder c K i CIn Hi eq_refl) as Hm. assert (i < length (points c))%nat as Hl by (by eapply lookup_lt_Some).
    split; cbn; try done.
    + intros j q' Hj Hin. apply lookup_put in Hj as [[<- <-]|[Hne Hj]]; [done|]. by rewrite (Hout j q' Hne Hj) in Hin.
    + intros j Hj. assert (j = i) as -> by congruence. exists CShut. by rewrite list_lookup_insert_eq.
    + apply K.
    + intros j p Hj. apply lookup_put in Hj as [[_ ?]|[_ Hj]]; [done|]. by apply (pk_result c K j).
    + intros _ Hn. by destruct (Hn i); rewrite list_lookup_insert_eq.
  - intros [= <-]. destruct (pk_shutting c K i Hi) as (Hc & Hw & Hs). unfold close_shut. destruct (Peer c) as [p|] eqn:Hp.
    + eapply (leave_ok c i CShut); cbn; try done; [by rewrite (pk_made c K), Hp|intros; congruence|congruence|]. intros _. rewrite Hw, Hs. unfold peers. rewrite Hp. cbn.
      split; set_solver.
    + eapply (leave_ok c i CShut); cbn; try done; [by apply pk_made|]. intros _. unfold peers in *. cbn. rewrite Hp in *. by rewrite Hw, Hs.
Qed.

Lemma new_call_ok q c : pc_ok c -> q = MCheck \/ q = CCheck -> pc_ok (new_call q c).
Proof.
  intros [K1 K2 K3 K4 K5 K6 K7] Hq.
  assert (forall j q', (points c ++ [q]) !! j = Some q' -> points c !! j = Some q' \/ q' = q) as Hinv.
  { intros j q' Hj. apply lookup_app_Some in Hj as [Hj|[_ Hj]]; [by left|]. right. by apply list_lookup_singleton_Some in Hj as [_ <-]. }
  split; cbn; try done.
  - intros j q' Hj Hin. destruct (Hinv j q' Hj) as [Hj'| ->]; [eauto|]. by destruct Hq; subst.
  - intros j Hj. destruct (K2 j Hj) as (q' & Hj' & Hin). exists q'. split; [|done]. by apply lookup_app_l_Some.
  - intros j p Hj. destruct (Hinv j _ Hj) as [Hj'|E]; [eauto|]. destruct Hq; subst; done.
  - intros j Hj. destruct (Hinv j _ Hj) as [Hj'|E]; [eauto|]. destruct Hq; subst; done.
  - intros Hc Hn. apply K7; [done|]. intros j Hj. apply (Hn j). by apply lookup_app_l_Some.
Qed.

Lemma pmove_ok c c' : pc_ok c -> pmove c c' -> pc_ok c'.
Proof.
  intros K Hm. revert K. destruct Hm as [| |i ans c1 c2 Hs|p e c1 Hp]; intros K; [apply new_call_ok; auto..|exact (call_step_ok _ _ _ _ K Hs)|]. destruct K as [K1 K2 K3 K4 K5 K6 K7]. by split.
Qed.

Lemma peer_reachable_ok c : rtc pmove pconn0 c -> pc_ok c.
Proof.
  intros Hr. assert (forall a b, rtc pmove a b -> pc_ok a -> pc_ok b) as Hgen; [|by eapply Hgen, pc0_ok].
  clear. induction 1 as [|a b d Hs _ IH]; [done|]. intros Ha. by eapply IH, pmove_ok.
Qed.

(** ** After the flag is set *)

Record late (c0 c : pconn) : Prop := {
  la_closed : peerClosed c = true;
  la_peer : Peer c = Peer c0;
  la_made : made c = made c0;
  la_result i p : points c !! i = Some (MDone (inl p)) -> points c0 !! i = Some (MDone (inl p));
  la_wired : wired c ⊆ wired c0;
  la_fired : wired c0 = ∅ -> fired c = fired c0
}.

Lemma late_put c0 c i mux q w sh :
  late c0 c -> (forall p, q <> MDone (inl p)) -> w ⊆ wired c ->
  late c0 {| Peer := Peer c; peerClosed := true; peer_mux := mux; made := made c; wired := w; shut := sh; fired := fired c;
             points := <[i := q]> (points c) |}.
Proof.
  intros [L1 L2 L3 L4 L5 L6] Hq Hw. split; cbn; try done; [|by etrans].
  intros j p Hj. apply lookup_put in Hj as [[_ E]|[_ Hj]]; [by destruct (Hq p)|by apply L4].
Qed.

Lemma late_at c0 c i mux q : late c0 c -> (forall p, q <> MDone (inl p)) -> late c0 (at_point i mux q c).
Proof. intros L Hq. unfold at_point. rewrite (la_closed _ _ L). by apply late_put. Qed.

Lemma late_step c0 c c' : late c0 c -> pmove c c' -> late c0 c'.
Proof.
  intros L Hm. revert L. destruct Hm as [c|c|i ans c c' Hs|p e c Hp]; intros L.
  1,2: destruct L as [L1 L2 L3 L4 L5 L6]; split; cbn; try done; intros j p Hj;
    apply lookup_app_Some in Hj as [Hj|[_ Hj]]; [by apply L4|by apply list_lookup_singleton_Some in Hj as [_ ?]].
  - pose proof (la_closed _ _ L) as Hc. unfold call_step in Hs. destruct (points c !! i) as [q|]; [|done].
    destruct q; try done; [rewrite Hc in Hs|destruct (peer_mux c); [done|]| |rewrite Hc in Hs|destruct (peer_mux c); [done|]| |];
      injection Hs as <-; try (by apply late_at).
    + unfold make_in. rewrite Hc. by apply late_at.
    + unfold close_in. rewrite Hc. by apply late_at.
    + unfold close_shut. destruct (Peer c) eqn:Hp; [|by apply late_at]. rewrite Hc, <- Hp. apply late_put; [done|done|set_solver].
  - destruct L as [L1 L2 L3 L4 L5 L6]. split; cbn; try done. intros E. set_solver.
Qed.

Lemma late_refl c : peerClosed c = true -> late c c.
Proof. by split. Qed.

Lemma late_steps c c' : peerClosed c = true -> rtc pmove c c' -> late c c'.
Proof.
  intros Hc Hr. pose proof (late_refl c Hc) as L. revert L. generalize c at 1 3. intros c0.
  induction Hr as [|a b d Hs _ IH]; intros L; [done|]. apply IH; [|by eapply late_step]. apply (late_step c0 a b L Hs).
Qed.

(** C21. One peer connection per client, under every interleaving of calls of [makeSurePeer] and [closePeer] and of events of
    the peer.  At most one peer is made, and each call that succeeds returns it; two calls are never
    under the mutex together.  Once [peerClosed] is set no peer is made and no call succeeds that had not yet; and when
    the mutex is free then, the peer is closed, and nothing more is sent for it. *)
Theorem one_peer c :
  rtc pmove pconn0 c ->
  (made c <= 1)%nat /\ (forall i p, points c !! i = Some (MDone (inl p)) -> Peer c = Some p) /\
  (forall i j q r, points c !! i = Some q -> points c !! j = Some r -> inside q = true -> inside r = true -> i = j) /\
  (peerClosed c = true -> forall c', rtc pmove c c' ->
     made c' = made c /\ (forall i p, points c' !! i = Some (MDone (inl p)) -> points c !! i = Some (MDone (inl p))) /\
     (peer_mux c = None -> shut c = peers c /\ fired c' = fired c)).
Proof.
  intros Hr. pose proof (peer_reachable_ok c Hr) as K. split; [rewrite (pk_made c K); destruct (Peer c); lia|]. split; [apply (pk_result c K)|]. split.
  - intros i j q r Hi Hj Hq Hs. pose proof (pk_holder c K i q Hi Hq). pose proof (pk_holder c K j r Hj Hs). congruence.
  - intros Hc c' Hc'. pose proof (late_steps c c' Hc Hc') as L. split; [apply L|]. split; [apply L|]. intros Hm.
    assert (forall i, points c !! i <> Some CShut) as Hn by (intros i Hi; pose proof (pk_holder c K i CShut Hi eq_refl); congruence).
    destruct (pk_closed c K Hc Hn) as [Hw Hs]. split; [done|by apply L].
Qed.

(** ** Every call returns *)

Definition left_of (q : point) : nat :=
  match q with MCheck => 3 | MLock => 2 | MIn => 1 | MDone _ => 0 | CCheck => 4 | CLock => 3 | CIn => 2 | CShut => 1 | CDone => 0 end.
Definition total (c : pconn) : nat := sum_list (left_of <$> points c).

Lemma total_put c c' i q q' :
  points c !! i = Some q -> points c' = <[i := q']> (points c) -> (left_of q' < left_of q)%nat -> (total c' < total c)%nat.
Proof.
  intros Hi Hp Hl. unfold total. rewrite Hp. rewrite <- (take_drop_middle (points c) i q Hi) at 2.
  rewrite insert_take_drop by (by eapply lookup_lt_Some). rewrite !fmap_app, !fmap_cons, !sum_list_with_app. cbn. lia.
Qed.

Lemma call_step_less i ans c c' : call_step i ans c = Some c' -> (total c' < total c)%nat.
Proof.
  unfold call_step. destruct (points c !! i) as [q|] eqn:Hi; [|done].
  assert (forall c1 q', points c1 = <[i := q']> (points c) -> (left_of q' < left_of q)%nat -> (total c1 < total c)%nat) as Hput
    by (intros c1 q' Hp Hl; by eapply total_put).
  destruct q; try done.
  - intros [= <-]. destruct (peerClosed c); (eapply Hput; [done|cbn; lia]).
  - destruct (peer_mux c); [done|]. intros [= <-]. eapply Hput; [done|cbn; lia].
  - intros [= <-]. unfold make_in. destruct (peerClosed c); [|destruct (Peer c); [|destruct ans]]; (eapply Hput; [done|cbn; lia]).
  - intros [= <-]. destruct (peerClosed c); (eapply Hput; [done|cbn; lia]).
  - destruct (peer_mux c); [done|]. intros [= <-]. eapply Hput; [done|cbn; lia].
  - intros [= <-]. unfold close_in. destruct (peerClosed c); (eapply Hput; [done|cbn; lia]).
  - intros [= <-]. unfold close_shut. destruct (Peer c); (eapply Hput; [done|cbn; lia]).
Qed.

Lemma sum_pos (l : list nat) : (0 < sum_list l)%nat -> exists i n, l !! i = Some n /\ (0 < n)%nat.
Proof.
  induction l as [|[|n] l IH]; cbn; intros Hl; [lia| |].
  - destruct (IH Hl) as (i & n & Hi & Hn). by exists (S i), n.
  - exists 0%nat, (S n). split; [done|lia].
Qed.

(** While a call has not returned, one can go on: the one that holds the mutex, or else any. *)
Lemma can_go c ans : pc_ok c -> (0 < total c)%nat -> exists i c', call_step i ans c = Some c'.
Proof.
  intros K Ht. destruct (peer_mux c) as [h|] eqn:Hm.
  - destruct (pk_held c K h Hm) as (q & Hq & Hin). exists h. unfold call_step. rewrite Hq. destruct q; try done; by eexists.
  - apply sum_pos in Ht as (i & n & Hi & Hn). apply list_lookup_fmap_Some in Hi as (q & -> & Hi).
    exists i. unfold call_step. rewrite Hi, Hm. destruct q; cbn in Hn; try lia; by eexists.
Qed.

Definition returned (q : point) : Prop := match q with MDone _ | CDone => True | _ => False end.

Lemma total_zero c : total c = 0%nat -> Forall returned (points c).
Proof.
  unfold total. induction (points c) as [|q l IH]; intros Ht; constructor; cbn in Ht.
  - destruct q; cbn in Ht |- *; try done; lia.
  - apply IH. lia.
Qed.

Lemma cmoves_less n c c' : nsteps cmove n c c' -> (n + total c' <= total c)%nat.
Proof.
  induction 1 as [|n a b d Hs _ IH]; [lia|]. destruct Hs as [i ans a b Hs]. apply call_step_less in Hs. lia.
Qed.

Lemma all_return m : forall c, (total c <= m)%nat -> pc_ok c -> exists n c', nsteps cmove n c c' /\ Forall returned (points c').
Proof.
  induction m as [|m IH]; intros c Hm K; (destruct (decide (total c = 0%nat)) as [E|E]; [exists 0%nat, c; split; [constructor|by apply total_zero]|]).
  - lia.
  - destruct (can_go c None K ltac:(lia)) as (i & c1 & Hs). pose proof (call_step_less _ _ _ _ Hs) as Hl.
    destruct (IH c1 ltac:(lia) (call_step_ok _ _ _ _ K Hs)) as (n & c' & Hn & Hr). exists (S n), c'. split; [|done].
    econstructor; [by econstructor|done].
Qed.

(** C26. Every call of [makeSurePeer] and [closePeer] returns.  From any state that can be reached, the calls in progress make
    at most four steps each whatever the schedule, a state in which one has not returned is never stuck, however
    [createPeer] ends, and so they all return. *)
Theorem peer_calls_return c :
  rtc pmove pconn0 c ->
  (forall n c', nsteps cmove n c c' -> (n <= 4 * length (points c))%nat) /\
  (forall ans, ~ Forall returned (points c) -> exists i c', call_step i ans c = Some c') /\
  exists n c', nsteps cmove n c c' /\ Forall returned (points c').
Proof.
  intros Hr. pose proof (peer_reachable_ok c Hr) as K. split_and!.
  - intros n c' Hn. apply cmoves_less in Hn. enough (total c <= 4 * length (points c))%nat by lia. unfold total. clear.
    induction (points c) as [|q l IH]; cbn in *; [lia|]. destruct q; cbn in *; lia.
  - intros ans Hn. apply can_go; [done|]. destruct (decide (total c = 0%nat)) as [E|]; [|lia]. by destruct Hn; apply total_zero.
  - by eapply all_return.
Qed.

(** ** Naming a transceiver *)

(** The position and the transceiver with the sender. *)
Fixpoint find_sender (i : nat) (tcs : list (nat * Transceiver)) (sender : nat) : option (nat * Transceiver) :=
  match tcs with
  | [] => None
  | (s, tc) :: tcs => if decide (s = sender) then Some (i, tc) else find_sender (S i) tcs sender
  end.

Definition findTransiverBySender (tcs : list (nat * Transceiver)) (sender : nat) : option Transceiver * Z :=
  match find_sender 0 tcs sender with Some (i, tc) => (Some tc, Z.of_nat i) | None => (None, -1) end.

Definition getMidFromSender (tcs : list (nat * Transceiver)) (sender : nat) : string :=
  match findTransiverBySender tcs sender with
  | (Some tc, pos) => if decide (tc_Mid tc <> "") then tc_Mid tc else ("pos:" +:+ FormatInt pos)%string
  | (None, _) => ""
  end.

Lemma find_sender_spec tcs sender : forall i k tc,
  find_sender i tcs sender = Some (k, tc) -> (i <= k)%nat /\ tcs !! (k - i)%nat = Some (sender, tc).
Proof.
  induction tcs as [|[s t] tcs IH]; intros i k tc Hf; [done|]. cbn in Hf. case_decide as E.
  - injection Hf as <- <-. subst. split; [lia|]. by rewrite Nat.sub_diag.
  - destruct (IH (S i) k tc Hf) as [Hl Ht]. split; [lia|]. by replace (k - i)%nat with (S (k - S i)) by lia.
Qed.

(** [find_loop] stops at the first transceiver that is meant. *)
Lemma find_loop_at tcs pos sid mid rid : forall i k tc,
  tcs !! k = Some tc -> ((pos =? -1)%Z && bool_decide (tc_Mid tc = mid)) || (pos =? i + Z.of_nat k)%Z = true ->
  (forall j t, (j < k)%nat -> tcs !! j = Some t -> ((pos =? -1)%Z && bool_decide (tc_Mid t = mid)) || (pos =? i + Z.of_nat j)%Z = false) ->
  find_loop i tcs pos sid mid rid = (pick_track tc sid rid, Some tc).
Proof.
  induction tcs as [|t tcs IH]; intros i [|k] tc Hk Hm Hn; cbn in Hk; [done|done| |]; cbn [find_loop].
  - injection Hk as ->. rewrite Z.add_0_r in Hm. by rewrite Hm.
  - pose proof (Hn 0%nat t ltac:(lia) eq_refl) as H0. rewrite Z.add_0_r in H0. rewrite H0.
    apply (IH (i + 1) k tc Hk); [by replace (i + 1 + Z.of_nat k) with (i + Z.of_nat (S k)) by lia|].
    intros j t' Hj Ht. replace (i + 1 + Z.of_nat j) with (i + Z.of_nat (S j)) by lia. apply (Hn (S j)); [lia|done].
Qed.

(** The name [getMidFromSender] gives a transceiver is one [findTracksRemoteByMidAndRid] finds it with, by its mid once it
    has one and by its position before. *)
Theorem mid_roundtrip tcs sender k tc sid rid :
  find_sender 0 tcs sender = Some (k, tc) -> Z.of_nat k < 2 ^ 63 -> HasPrefix (tc_Mid tc) "pos:" = false ->
  (forall j s t, (j < k)%nat -> tcs !! j = Some (s, t) -> tc_Mid tc <> "" -> tc_Mid t <> tc_Mid tc) ->
  findTracksRemoteByMidAndRid (tcs.*2) sid (getMidFromSender tcs sender) rid = Ret (pick_track tc sid rid, Some tc).
Proof.
  intros Hf Hk Hp Hd. destruct (find_sender_spec tcs sender 0 k tc Hf) as [_ Hl]. rewrite Nat.sub_0_r in Hl.
  assert (tcs.*2 !! k = Some tc) as Hl2 by (by rewrite list_lookup_fmap, Hl).
  unfold getMidFromSender, findTransiverBySender, findTracksRemoteByMidAndRid. rewrite Hf. case_decide as Hm.
  - rewrite Hp, bind_ret_l. f_equal. apply find_loop_at with (k := k); [done|by rewrite bool_decide_eq_true_2|].
    intros j t Hj Ht. apply list_lookup_fmap_Some in Ht as ([s t'] & -> & Ht). cbn [snd]. rewrite bool_decide_eq_false_2 by (by eapply Hd).
    rewrite andb_false_r. cbn [orb]. apply Z.eqb_neq. lia.
  - unfold FormatInt. rewrite decide_False by lia.
    change (HasPrefix ("pos:" +:+ FormatUint (Z.of_nat k)) "pos:") with (HasPrefix (FormatUint (Z.of_nat k)) "").
    replace (HasPrefix (FormatUint (Z.of_nat k)) "") with true by (by destruct (FormatUint (Z.of_nat k))).
    change (drop_string 4 ("pos:" +:+ FormatUint (Z.of_nat k))) with (FormatUint (Z.of_nat k)). rewrite Atoi_FormatUint by lia. rewrite bind_ret_l.
    f_equal. apply find_loop_at with (k := k); [done|rewrite Z.add_0_l, Z.eqb_refl; apply orb_true_r|].
    intros j t Hj Ht. rewrite (proj2 (Z.eqb_neq _ _)) by lia. cbn. apply Z.eqb_neq. lia.
Qed.

(** ** The tracks of a publication *)

Section Tracks.
Context (Kind : TrackRemote -> RTPCodecType) (range : gmap string PublishedTrack -> list (string * PublishedTrack)).

Definition is_kind (k : RTPCodecType) (pt : PublishedTrack) : bool :=
  match remote pt with Some rt => bool_decide (Kind rt = k) | None => false end.

Definition Video (tracks : gmap string PublishedTrack) : option PublishedTrack :=
  snd <$> MapFindFirst range tracks (fun _ pt => is_kind RTPCodecTypeVideo pt).
Definition Audio (tracks : gmap string PublishedTrack) : option PublishedTrack :=
  snd <$> MapFindFirst range tracks (fun _ pt => is_kind RTPCodecTypeAudio pt).
End Tracks.

(** ** Witnesses *)
Module Toy.

(** A call that makes the peer, one that finds it, a candidate, and a close. *)
Fixpoint schedule (l : list nat) (c : pconn) : pconn :=
  match l with [] => c | i :: l => schedule l (default c (call_step i None c)) end.

Lemma schedule_steps l : forall c, rtc pmove c (schedule l c).
Proof.
  induction l as [|i l IH]; intros c; [done|]. cbn [schedule]. destruct (call_step i None c) as [c'|] eqn:Hs; [|apply IH].
  eapply rtc_l; [by eapply pm_step|apply IH].
Qed.

Definition c1 : pconn := new_call CCheck (new_call MCheck (new_call MCheck pconn0)).
Definition c2 : pconn := Eval vm_compute in schedule [0; 1; 0; 0; 1; 1]%nat c1.
Definition c3 : pconn := Eval vm_compute in fire (IceCandidate None) c2.
Definition c4 : pconn := Eval vm_compute in schedule [2; 2; 2; 2]%nat c3.

Lemma run_c1 : rtc pmove pconn0 c1.
Proof. do 2 (eapply rtc_l; [apply pm_make|]). eapply rtc_l; [apply pm_close|]. apply rtc_refl. Qed.

Lemma peer_run_c3 : rtc pmove pconn0 c3.
Proof.
  etrans; [exact run_c1|]. etrans; [apply (schedule_steps [0; 1; 0; 0; 1; 1]%nat)|].
  change (schedule [0; 1; 0; 0; 1; 1]%nat c1) with c2. apply rtc_once, (pm_event 0%nat (IceCandidate None) c2). apply (bool_decide_unpack _). by vm_compute.
Qed.

Lemma peer_run_c4 : rtc pmove pconn0 c4.
Proof. etrans; [exact peer_run_c3|]. apply (schedule_steps [2; 2; 2; 2]%nat). Qed.

Lemma one_peer_witness :
  points c4 = [MDone (inl 0%nat); MDone (inl 0%nat); CDone] /\ made c4 = 1%nat /\ shut c4 = peers c4 /\ fired c4 = [SendCandidate (on_ice None)].
Proof.
  destruct (one_peer c4 peer_run_c4) as (_ & _ & _ & Hl). destruct (Hl eq_refl c4 (rtc_refl _ _)) as (_ & _ & Hs).
  split; [reflexivity|]. split; [reflexivity|]. split; [exact (proj1 (Hs eq_refl))|reflexivity].
Defined.

Lemma peer_calls_return_witness : exists n c', nsteps cmove n c1 c' /\ Forall returned (points c').
Proof. destruct (peer_calls_return c1 run_c1) as (_ & _ & Hr). exact Hr. Defined.
End Toy.
