(* ===== verification/Metrics.v ===== *)
(** * Metrics: the counters of a node ([signal/prom.go])

    The eight collectors of [Metrics] as numbers, the operations that change
    them, a nil [*Metrics] when they are switched off, and the registration of
    the collectors by [NewMetrics] in the registry of the node.  The handlers of
    a peer connection drive the webrtc ones ([PeerConn]). *)
From S2P Require Import Prelude GoStrings Config PeerConn.
Local Open Scope string_scope.
Local Open Scope Z_scope.
Local Open Scope list_scope.

Record Metrics := {
  signalConnectsTotal : Z; signalDisconnectsTotal : Z; signalConnectingTotal : Z;
  webrtcConnectsTotal : Z; webrtcDisconnectsTotal : Z; webrtcConnectingTotal : Z;
  webrtcReadBytesTotal : Z; webrtcWriteBytesTotal : Z
}.

Definition OnSignalConnectStart (me : option Metrics) : option Metrics :=
  m ← me; Some {| signalConnectsTotal := signalConnectsTotal m + 1; signalDisconnectsTotal := signalDisconnectsTotal m;
                  signalConnectingTotal := signalConnectingTotal m + 1; webrtcConnectsTotal := webrtcConnectsTotal m;
                  webrtcDisconnectsTotal := webrtcDisconnectsTotal m; webrtcConnectingTotal := webrtcConnectingTotal m;
                  webrtcReadBytesTotal := webrtcReadBytesTotal m; webrtcWriteBytesTotal := webrtcWriteBytesTotal m |}.
Definition OnSignalConnectClose (me : option Metrics) : option Metrics :=
  m ← me; Some {| signalConnectsTotal := signalConnectsTotal m; signalDisconnectsTotal := signalDisconnectsTotal m + 1;
                  signalConnectingTotal := signalConnectingTotal m - 1; webrtcConnectsTotal := webrtcConnectsTotal m;
                  webrtcDisconnectsTotal := webrtcDisconnectsTotal m; webrtcConnectingTotal := webrtcConnectingTotal m;
                  webrtcReadBytesTotal := webrtcReadBytesTotal m; webrtcWriteBytesTotal := webrtcWriteBytesTotal m |}.
Definition OnWebrtcConnectStart (me : option Metrics) : option Metrics :=
  m ← me; Some {| signalConnectsTotal := signalConnectsTotal m; signalDisconnectsTotal := signalDisconnectsTotal m;
                  signalConnectingTotal := signalConnectingTotal m; webrtcConnectsTotal := webrtcConnectsTotal m + 1;
                  webrtcDisconnectsTotal := webrtcDisconnectsTotal m; webrtcConnectingTotal := webrtcConnectingTotal m + 1;
                  webrtcReadBytesTotal := webrtcReadBytesTotal m; webrtcWriteBytesTotal := webrtcWriteBytesTotal m |}.
Definition OnWebrtcConnectClose (me : option Metrics) : option Metrics :=
  m ← me; Some {| signalConnectsTotal := signalConnectsTotal m; signalDisconnectsTotal := signalDisconnectsTotal m;
                  signalConnectingTotal := signalConnectingTotal m; webrtcConnectsTotal := webrtcConnectsTotal m;
                  webrtcDisconnectsTotal := webrtcDisconnectsTotal m + 1; webrtcConnectingTotal := webrtcConnectingTotal m - 1;
                  webrtcReadBytesTotal := webrtcReadBytesTotal m; webrtcWriteBytesTotal := webrtcWriteBytesTotal m |}.
Definition OnWebrtcRtpRead (nBytes : Z) (me : option Metrics) : option Metrics :=
  m ← me; Some {| signalConnectsTotal := signalConnectsTotal m; signalDisconnectsTotal := signalDisconnectsTotal m;
                  signalConnectingTotal := signalConnectingTotal m; webrtcConnectsTotal := webrtcConnectsTotal m;
                  webrtcDisconnectsTotal := webrtcDisconnectsTotal m; webrtcConnectingTotal := webrtcConnectingTotal m;
                  webrtcReadBytesTotal := webrtcReadBytesTotal m + nBytes; webrtcWriteBytesTotal := webrtcWriteBytesTotal m |}.
Definition OnWebrtcRtpWrite (nBytes : Z) (me : option Metrics) : option Metrics :=
  m ← me; Some {| signalConnectsTotal := signalConnectsTotal m; signalDisconnectsTotal := signalDisconnectsTotal m;
                  signalConnectingTotal := signalConnectingTotal m; webrtcConnectsTotal := webrtcConnectsTotal m;
                  webrtcDisconnectsTotal := webrtcDisconnectsTotal m; webrtcConnectingTotal := webrtcConnectingTotal m;
                  webrtcReadBytesTotal := webrtcReadBytesTotal m; webrtcWriteBytesTotal := webrtcWriteBytesTotal m + nBytes |}.

(** ** Registration *)

(** [BuildFQName] *)
Definition fq_name (cfg : PrometheusConfigure) (name : string) : string :=
  Join "_" (filter (fun s => s <> "") [pr_Namespace cfg; pr_Subsystem cfg; name]).

Definition metric_names : list string :=
  ["signal_connects_total"; "signal_disconnects_total"; "signal_connecting_total"; "webrtc_connects_total"; "webrtc_disconnects_total";
   "webrtc_connecting_total"; "webrtc_read_bytes_total"; "webrtc_write_bytes_total"].

(** A registry: the names of its collectors, each with its constant labels.  A collector that is already there makes promauto panic. *)
Definition promauto (reg : list (string * string)) (name node : string) : run (list (string * string)) :=
  if decide ((name, node) ∈ reg) then go_panic (PMsg "duplicate metrics collector registration attempted") else Ret (reg ++ [(name, node)]).

Fixpoint register_names (reg : list (string * string)) (node : string) (names : list string) : run (list (string * string)) :=
  match names with [] => Ret reg | n :: names => reg ← promauto reg n node; register_names reg node names end.

Definition NewMetrics (reg : list (string * string)) (conf : ConferenceConfigure) : run (list (string * string) * option Metrics) :=
  let cfg := sg_Prometheus (Signal conf) in
  let nodeName := ClusterNodeName conf in
  reg ← register_names reg nodeName (fq_name cfg <$> metric_names);
  Ret (reg, Some {| signalConnectsTotal := 0; signalDisconnectsTotal := 0; signalConnectingTotal := 0; webrtcConnectsTotal := 0;
                    webrtcDisconnectsTotal := 0; webrtcConnectingTotal := 0; webrtcReadBytesTotal := 0; webrtcWriteBytesTotal := 0 |}).

Lemma register_names_ok node names : forall reg,
  NoDup names -> (forall n, n ∈ names -> (n, node) ∉ reg) -> register_names reg node names = Ret (reg ++ ((fun n => (n, node)) <$> names)).
Proof.
  induction names as [|n names IH]; intros reg Hn Hr; cbn; [by rewrite app_nil_r|]. apply NoDup_cons in Hn as [Hn0 Hn].
  unfold promauto. rewrite decide_False by (apply Hr; left). rewrite bind_ret_l, IH, <- app_assoc; [done|done|].
  intros n' Hn'. rewrite elem_of_app, list_elem_of_singleton. intros [Hc|[= ->]]; [|done]. eapply Hr; [by right|done].
Qed.

Lemma prefix_inj (p x y : string) : p +:+ x = p +:+ y -> x = y.
Proof. induction p as [|c p IH]; [done|]. rewrite !app_string_cons. intros [= H]. by apply IH. Qed.

Lemma fq_name_inj cfg x y : x <> "" -> y <> "" -> fq_name cfg x = fq_name cfg y -> x = y.
Proof.
  intros Hx Hy. unfold fq_name. rewrite !filter_cons. repeat (case_decide; try done); cbn [Join filter list_filter app]; intros H';
    repeat apply prefix_inj in H'; done.
Qed.

Lemma NewMetrics_names conf : NoDup (fq_name (sg_Prometheus (Signal conf)) <$> metric_names) /\ length metric_names = 8%nat.
Proof.
  split; [|done].
  assert (NoDup metric_names /\ Forall (fun s => s <> "") metric_names) as [Hm He] by (apply (bool_decide_unpack _); by vm_compute).
  induction metric_names as [|n l IH]; [constructor|]. apply NoDup_cons in Hm as [Hm0 Hm]. apply Forall_cons in He as [He0 He].
  cbn. constructor; [|by apply IH]. intros (n' & E & Hn')%list_elem_of_fmap. rewrite Forall_forall in He.
  apply fq_name_inj in E; [by subst n'|done|by apply He].
Qed.

(** The eight collectors do not clash, whatever namespace and subsystem are configured. *)
Lemma NewMetrics_ok conf :
  exists reg m, NewMetrics [] conf = Ret (reg, Some m) /\ length reg = 8%nat /\ NoDup reg.
Proof.
  destruct (NewMetrics_names conf) as [Hn _].
  unfold NewMetrics. rewrite register_names_ok by (done || intros; apply not_elem_of_nil). rewrite bind_ret_l. do 2 eexists. split; [done|]. split; [done|].
  cbn [app]. apply (NoDup_fmap_2 _). exact Hn.
Qed.

(** ** What is counted *)

Definition count_effect (me : option Metrics) (e : peer_effect) : option Metrics :=
  match e with ConnectStart => OnWebrtcConnectStart me | ConnectClose => OnWebrtcConnectClose me | _ => me end.
Definition counted (me : option Metrics) (l : list peer_effect) : option Metrics := foldl count_effect me l.

Inductive metric_op := MSignalStart | MSignalClose | MPeer (e : peer_effect) | MRead (n : Z) | MWrite (n : Z).
Definition metric_step (me : option Metrics) (o : metric_op) : option Metrics :=
  match o with
  | MSignalStart => OnSignalConnectStart me | MSignalClose => OnSignalConnectClose me | MPeer e => count_effect me e
  | MRead n => OnWebrtcRtpRead n me | MWrite n => OnWebrtcRtpWrite n me
  end.

(** The gauges are the differences of the counters, and switched-off metrics stay off. *)
Definition balanced (m : Metrics) : Prop :=
  signalConnectingTotal m = signalConnectsTotal m - signalDisconnectsTotal m /\
  webrtcConnectingTotal m = webrtcConnectsTotal m - webrtcDisconnectsTotal m.

Lemma metrics_balanced l : forall me,
  match me with
  | None => foldl metric_step me l = None
  | Some m => balanced m -> exists m', foldl metric_step me l = Some m' /\ balanced m'
  end.
Proof.
  unfold balanced. induction l as [|o l IH]; intros [m|]; [by exists m|done| |].
  - intros Hm. cbn [foldl]. destruct o as [| |[]| |]; cbn [metric_step count_effect OnSignalConnectStart OnSignalConnectClose OnWebrtcConnectStart
      OnWebrtcConnectClose OnWebrtcRtpRead OnWebrtcRtpWrite mbind option_bind]; apply (IH (Some _)); cbn; lia.
  - cbn [foldl]. replace (metric_step None o) with (@None Metrics) by (by destruct o as [| |[]| |]). apply (IH None).
Qed.

(** A peer that was connected and is closed with its context is never counted
    as disconnected: [closePeer] takes the handlers away before it closes the peer. *)
Definition connected_then_closed : pconn := Eval vm_compute in
  PeerConn.Toy.schedule [1; 1; 1; 1]%nat (new_call CCheck (fire (StateChange PSConnected) (PeerConn.Toy.schedule [0; 0; 0]%nat (new_call MCheck pconn0)))).

Definition no_metrics : Metrics :=
  {| signalConnectsTotal := 0; signalDisconnectsTotal := 0; signalConnectingTotal := 0; webrtcConnectsTotal := 0; webrtcDisconnectsTotal := 0;
     webrtcConnectingTotal := 0; webrtcReadBytesTotal := 0; webrtcWriteBytesTotal := 0 |}.

Lemma closed_peer_uncounted :
  points connected_then_closed = [MDone (inl 0%nat); CDone] /\ shut connected_then_closed = {[0%nat]} /\
  wired connected_then_closed = ∅ /\
  webrtcConnectingTotal <$> counted (Some no_metrics) (fired connected_then_closed) = Some 1.
Proof. split_and!; reflexivity. Qed.

(** A peer that connects again after an interruption is counted twice, and is closed once. *)
Lemma reconnect_counted_twice :
  webrtcConnectingTotal <$> counted (Some no_metrics) ([PSConnected; PSDisconnected; PSConnected; PSClosed] ≫= on_state) = Some 1.
Proof. reflexivity. Qed.

(** A peer that never connected and fails makes the gauge negative. *)
Lemma failed_negative :
  webrtcConnectingTotal <$> counted (Some no_metrics) ([PSConnecting; PSFailed] ≫= on_state) = Some (-1).
Proof. reflexivity. Qed.
