(* ===== verification/Server.v ===== *)
(** * Server: starting a node and stopping it ([entry/main.go], [signalserver/main.go], [authserver/main.go], [signal/global.go])

    What each server sets up before it serves, as the list of its effects in
    order together with the cause it ends with; the services a node connects to
    (sockets, MongoDB, the HTTP server) answer by arguments.  [entry.Run] starts
    the servers under one context ([Contexts]) and waits for it: its steps are
    interleaved with the ends of the servers. *)
From S2P Require Import Prelude GoStrings Collection Contexts Config Metrics.
Local Open Scope string_scope.
Local Open Scope Z_scope.
Local Open Scope list_scope.

(** ** The database *)

(** The credentials of the client's options: user and password. *)
Record mongo_opts := { mo_uri : string; mo_auth : option (string * string) }.
Record IndexModel := { ix_field : string; ix_order : Z; ix_name : string }.

(** The driver: the credentials of an url, connecting, and creating an index. *)
Record mongo_driver := {
  uri_auth : string -> option (string * string);
  Connect : mongo_opts -> option gerror;
  CreateOne : string * string -> IndexModel -> option gerror
}.

Record Mongo := { mongo_client : mongo_opts; recordCol : string * string; mongo_indexes : list IndexModel }.

Definition createMongoAuth (opt : mongo_opts) : mongo_opts :=
  {| mo_uri := mo_uri opt; mo_auth := match mo_auth opt with None => Some ("", "") | a => a end |}.
Definition set_user (u : string) (opt : mongo_opts) : mongo_opts :=
  let opt := createMongoAuth opt in {| mo_uri := mo_uri opt; mo_auth := (fun a => (u, a.2)) <$> mo_auth opt |}.
Definition set_pass (p : string) (opt : mongo_opts) : mongo_opts :=
  let opt := createMongoAuth opt in {| mo_uri := mo_uri opt; mo_auth := (fun a => (a.1, p)) <$> mo_auth opt |}.

Definition NewMongo (d : mongo_driver) (conf : ConferenceConfigure) : option Mongo + gerror :=
  let cfg := DBIndex (Record_ conf) in
  if rc_Enable (Record_ conf) && di_Enable cfg then
    let col := if decide (Collection cfg = "") then "record" else Collection cfg in
    let opt := {| mo_uri := MongoUrl cfg; mo_auth := uri_auth d (MongoUrl cfg) |} in
    let opt := if decide (di_User cfg <> "") then set_user (di_User cfg) opt else opt in
    let opt := if decide (di_Pass cfg <> "") then set_pass (di_Pass cfg) opt else opt in
    match Connect d opt with
    | Some _ => inr (EConf 1000)
    | None =>
        let c := (Database cfg, col) in
        let key := {| ix_field := "key"; ix_order := 1; ix_name := "key" |} in
        let start := {| ix_field := "start"; ix_order := -1; ix_name := "start" |} in
        match CreateOne d c key with
        | Some err => inr err
        | None =>
            match CreateOne d c start with
            | Some err => inr err
            | None => inl (Some {| mongo_client := opt; recordCol := c; mongo_indexes := [key; start] |})
            end
        end
    end
  else inl None.

(** A configured user or password replaces the one of the url, and leaves the other. *)
Lemma NewMongo_auth d conf m :
  NewMongo d conf = inl (Some m) ->
  let cfg := DBIndex (Record_ conf) in
  let a := default ("", "") (uri_auth d (MongoUrl cfg)) in
  mo_auth (mongo_client m) =
    (if decide (di_User cfg = "" /\ di_Pass cfg = "") then uri_auth d (MongoUrl cfg)
     else Some (if decide (di_User cfg = "") then a.1 else di_User cfg, if decide (di_Pass cfg = "") then a.2 else di_Pass cfg)) /\
  recordCol m = (Database cfg, if decide (Collection cfg = "") then "record" else Collection cfg).
Proof.
  unfold NewMongo. destruct (_ && _); [|done]. set (cfg := DBIndex (Record_ conf)). cbv zeta. destruct (Connect _ _); [done|].
  destruct (CreateOne _ _ _); [done|]. destruct (CreateOne _ _ _); [done|]. intros [= <-]. cbn [mongo_client recordCol]. split; [|done].
  unfold set_user, set_pass, createMongoAuth. cbn. destruct (uri_auth d (MongoUrl cfg)) as [[u p]|];
    destruct (decide (di_User cfg = "")) as [Hu|Hu], (decide (di_Pass cfg = "")) as [Hp|Hp];
    repeat (first [rewrite (decide_True (P := _ /\ _)) by done | rewrite (decide_False (P := _ /\ _)) by (by intros [])
      | rewrite (decide_True (P := _ <> _)) by done | rewrite (decide_False (P := _ <> _)) by (intros Hn; by apply Hn)]);
    cbn; rewrite ?Hu, ?Hp; done.
Qed.

(** ** The global state of a node *)

(** The router and the messager are made by [NewRouter] and [NewMessager]; each may fail. *)
Record Global_ (R M : Type) := {
  promReg : list (string * string); g_router : R; g_messager : M; g_metrics : option Metrics; g_mongo : option Mongo
}.
Arguments promReg {R M} _.
Arguments g_router {R M} _.
Arguments g_messager {R M} _.
Arguments g_metrics {R M} _.
Arguments g_mongo {R M} _.

Definition collectors (c : PrometheusConfigure) : list (string * string) :=
  if pr_Enable c && pr_GoCollectors c then [("process_collector", ""); ("go_collector", "")] else [].

Definition NewGlobal {R M : Type} (d : mongo_driver) (router : R + gerror) (messager : M + gerror) (conf : ConferenceConfigure) : run (Global_ R M + gerror) :=
  let reg := collectors (Prometheus conf) in
  match router with
  | inr _ => Ret (inr (EConf 1000))
  | inl r =>
      match messager with
      | inr _ => Ret (inr (EConf 1000))
      | inl ms =>
          '(reg, metrics) ← (if pr_Enable (sg_Prometheus (Signal conf)) then NewMetrics reg conf else Ret (reg, None));
          match NewMongo d conf with
          | inr _ => Ret (inr (EConf 1000))
          | inl mongo => Ret (inl {| promReg := reg; g_router := r; g_messager := ms; g_metrics := metrics; g_mongo := mongo |})
          end
      end
  end.

Lemma fq_names_NoDup conf : NoDup (fq_name (sg_Prometheus (Signal conf)) <$> metric_names).
Proof. destruct (NewMetrics_names conf) as [Hn _]. exact Hn. Qed.

(** Making the node fails with an error exactly when a service does; it never panics. *)
Lemma NewGlobal_correct {R M} d (router : R + gerror) (messager : M + gerror) conf :
  match router, messager, NewMongo d conf with
  | inl r, inl ms, inl mongo =>
      exists g, NewGlobal d router messager conf = Ret (inl g) /\ g_router g = r /\ g_messager g = ms /\ g_mongo g = mongo /\
        (is_Some (g_metrics g) <-> pr_Enable (sg_Prometheus (Signal conf)) = true)
  | _, _, _ => NewGlobal d router messager conf = Ret (inr (EConf 1000))
  end.
Proof.
  assert (exists reg m, (if pr_Enable (sg_Prometheus (Signal conf)) then NewMetrics (collectors (Prometheus conf)) conf
      else Ret (collectors (Prometheus conf), None)) = Ret (reg, m) /\ (is_Some m <-> pr_Enable (sg_Prometheus (Signal conf)) = true)) as (reg & m & E & Hm).
  { destruct (pr_Enable _); [|by do 2 eexists; split; [done|split; [intros []|]]]. unfold NewMetrics.
    rewrite register_names_ok by (apply fq_names_NoDup || (intros n _; unfold collectors; destruct (_ && _); [|apply not_elem_of_nil];
      rewrite !not_elem_of_cons; pose proof (GetNodeName_ne (Cluster conf)); split_and!; [by intros [= _ ?]..|apply not_elem_of_nil])).
    rewrite bind_ret_l. do 2 eexists. by split. }
  unfold NewGlobal. destruct router as [r|]; [|done]. destruct messager as [ms|]; [|done]. rewrite E, bind_ret_l.
  destruct (NewMongo d conf) as [mongo|]; [|done]. eexists. split; [done|]. by split_and!.
Qed.

(** ** The servers *)

Inductive effect :=
  | EMode (debug : bool)                                      (** the mode of gin *)
  | EListen (addr : string) (tls : option (string * string))  (** the HTTP server, with certificate and key *)
  | EUse (middleware : string)
  | ERoute (method path : string)
  | EMessagerRun                                              (** [go messager.Run(ctx)] *)
  | EHealth (threshold : Z) (path : string)
  | EServe.                                                   (** until the context ends or an error *)

(** How the libraries answer; [a_serve] is what serving ends with. *)
Record answers := { a_graceful : option gerror; a_global : option gerror; a_socketio : option gerror; a_serve : option gerror }.

Definition when (b : bool) (l : list effect) : list effect := if b then l else [].

Definition health (h : HealthyConfigure) : list effect := when (he_Enable h) [EHealth (u32 (FailureThreshold h)) (he_Path h)].

(** [signalserver.Run]: the effects and the cause given to [done]. *)
Definition signal_Run (conf : ConferenceConfigure) (ans : answers) : list effect * option gerror :=
  let sg := Signal conf in
  if negb (sg_Enable sg) then ([], None)
  else
    let mode := [EMode (gin_Debug sg)] in
    let tls := sg_Tls sg in
    if st_Enable tls && (bool_decide (st_Cert tls = "") || bool_decide (st_Key tls = "")) then (mode, Some (EConf 1000))
    else
      let listen := EListen (SignalListenAddress conf) (if st_Enable tls then Some (st_Cert tls, st_Key tls) else None) in
      match a_graceful ans with
      | Some err => (mode, Some err)
      | None =>
          let l := mode ++ [listen] ++ when (negb (gin_NoRequestLog sg)) [EUse "logger"] in
          match a_global ans with
          | Some err => (l, Some err)
          | None =>
              let l := l ++ when (PromEnable conf) [ERoute "GET" "/metrics"] ++ [ERoute "GET" "/debug/pprof"; EUse "errors"] ++
                       when (negb (bool_decide (sg_Cors sg = ""))) [EUse "cors"] in
              match a_socketio ans with
              | Some err => (l, Some err)
              | None =>
                  (l ++ [ERoute "GET" "/socket.io/"; ERoute "POST" "/socket.io/"; ERoute "GET" "/ws"; ERoute "GET" "/conference/close/:id";
                         EMessagerRun] ++ health (sg_Healthy sg) ++ [EServe], a_serve ans)
              end
          end
      end.

(** [authserver.Run]; the health check takes its settings from the signal server. *)
Definition auth_Run (conf : ConferenceConfigure) (serve : option gerror) : list effect * option gerror :=
  let au := AuthServer conf in
  if negb (au_Enable au) then ([], None)
  else
    let l := [EUse "logger"; EUse "recovery"; EUse "errors"] ++ when (negb (bool_decide (au_Cors au = ""))) [EUse "cors"] ++ [ERoute "GET" "/token"] ++
             when (he_Enable (au_Healthy au)) [EHealth (u32 (FailureThreshold (sg_Healthy (Signal conf)))) (he_Path (sg_Healthy (Signal conf)))] in
    let addr := au_Host au +:+ ":" +:+ Strconv.FormatInt (au_Port au) in
    if Ssl au then
      if bool_decide (CertPath au = "") || bool_decide (KeyPath au = "") then (l, Some (EConf 1000))
      else (l ++ [EListen addr (Some (CertPath au, KeyPath au)); EServe], serve)
    else (l ++ [EListen addr None; EServe], serve).

(** The settings of the auth server's own health check are not used. *)
Lemma auth_health_ignored conf serve th p :
  EHealth th p ∈ (auth_Run conf serve).1 -> th = u32 (FailureThreshold (sg_Healthy (Signal conf))) /\ p = he_Path (sg_Healthy (Signal conf)).
Proof.
  unfold auth_Run, when. intros Hin. repeat case_match; cbn in Hin; rewrite ?elem_of_app, ?elem_of_cons, ?elem_of_nil in Hin; naive_solver.
Qed.

(** A route is served under the middleware that was put up before it. *)
Fixpoint covered (mw : list string) (l : list effect) : list (string * list string) :=
  match l with
  | [] => []
  | EUse m :: l => covered (mw ++ [m]) l
  | ERoute _ path :: l => (path, mw) :: covered mw l
  | _ :: l => covered mw l
  end.

Lemma covered_app l1 l2 mw : covered mw (l1 ++ l2) = covered mw l1 ++ covered (mw ++ flat_map (fun e => match e with EUse m => [m] | _ => [] end) l1) l2.
Proof.
  revert mw. induction l1 as [|e l1 IH]; intros mw; cbn [app covered flat_map]; [by rewrite app_nil_r|]. destruct e; rewrite ?IH; try done.
  - by rewrite <- app_assoc.
Qed.

(** Every route of the clients and the operator is under the error handler, and under CORS when that is configured. *)
Lemma routes_covered conf ans path mw :
  (path, mw) ∈ covered [] (signal_Run conf ans).1 -> path <> "/metrics" -> path <> "/debug/pprof" ->
  "errors" ∈ mw /\ (sg_Cors (Signal conf) <> "" -> "cors" ∈ mw).
Proof.
  unfold signal_Run, health, when. intros Hin H1 H2. repeat case_match; try (cbn in Hin; rewrite ?elem_of_cons, ?elem_of_nil in Hin; naive_solver).
  all: cbn [fst] in Hin; rewrite ?covered_app in Hin; cbn in Hin; rewrite ?elem_of_app, ?elem_of_cons, ?elem_of_nil in Hin.
  all: destruct_and?; repeat match goal with H : negb (bool_decide _) = _ |- _ => apply negb_true_iff, bool_decide_eq_false in H || apply negb_false_iff, bool_decide_eq_true in H end.
  all: destruct_or?; simplify_eq/=; try done; (split; [set_solver|intros ?; done || set_solver]).
Qed.

(** ** [entry.Run] *)

(** The main goroutine: it starts the servers one after the other, calls [start], waits for the context, and returns, with a fatal log unless the cause is [context.Canceled]. *)
Inductive main_point := MStarting | MWaiting | MReturned (fatal : bool).
#[global] Instance main_point_eq_dec : EqDecision main_point.
Proof. solve_decision. Defined.

(** [ended] lists the servers that called [done], in order, with the cause and whether it was after [start]. *)
Record node := { actx : autoCancelContext; main : main_point; ended : list (nat * option gerror * bool) }.

Definition node0 : node := {| actx := WithAutoCancel; main := MStarting; ended := [] |}.

Definition is_started (p : main_point) : bool := match p with MStarting => false | _ => true end.

(** [context.Canceled] is the cause of a context cancelled with nil, and an error like others a server may end with: [Run] is fatal for any other cause. *)
Definition Canceled : gerror := EOther "context canceled".
Definition is_fatal (c : option gerror) : bool := negb (bool_decide (default Canceled c = Canceled)).

(** [outcomes] has for each server the cause it ends with, if it ends: the auth server, then the signal servers. *)
Inductive nstep (outcomes : list (option gerror)) : node -> node -> Prop :=
  | ns_spawn s :
      main s = MStarting -> (spawned (actx s) < length outcomes)%nat ->
      nstep outcomes s {| actx := (spawn (actx s)).1; main := MStarting; ended := ended s |}
  | ns_start s :
      main s = MStarting -> spawned (actx s) = length outcomes ->
      nstep outcomes s {| actx := start_ (actx s); main := MWaiting; ended := ended s |}
  | ns_done s k c ctx' :
      (k < spawned (actx s))%nat -> outcomes !! k = Some c -> k ∉ (ended s).*1.*1 -> done AutoCancelAny k c (actx s) = Ret ctx' ->
      nstep outcomes s {| actx := ctx'; main := main s; ended := ended s ++ [(k, c, is_started (main s))] |}
  | ns_return s c :
      main s = MWaiting -> self (actx s) = Some c ->
      nstep outcomes s {| actx := actx s; main := MReturned (is_fatal c); ended := ended s |}.

(** The servers of a configuration and the causes they end with. *)
Definition entry_Run (conf : ConferenceConfigure) (auth_serve : option gerror) (ans : nat -> answers) : run (list (option gerror)) :=
  cfgs ← Split_ conf;
  Ret ((auth_Run conf auth_serve).2 :: imap (fun i cfg => (signal_Run cfg (ans i)).2) cfgs).

(** The cause of the first server that ended after [start]. *)
Fixpoint first_late (l : list (nat * option gerror * bool)) : option (option gerror) :=
  match l with [] => None | (_, c, late) :: l => if (late : bool) then Some c else first_late l end.

Lemma first_late_snoc l k c b :
  first_late (l ++ [(k, c, b)]) = match first_late l with Some c' => Some c' | None => if (b : bool) then Some c else None end.
Proof.
  induction l as [|[[k' c'] b'] l IH]; cbn; [done|]. by destruct b'.
Qed.

Record node_ok (n : nat) (s : node) : Prop := {
  nk_spawned : (spawned (actx s) <= n)%nat;
  nk_started : start (actx s) = is_started (main s);
  nk_all : is_started (main s) = true -> spawned (actx s) = n;
  nk_children : length (children (actx s)) = spawned (actx s);
  nk_self : self (actx s) = first_late (ended s);
  nk_ended : NoDup (ended s).*1.*1 /\ Forall (fun k => k < spawned (actx s))%nat (ended s).*1.*1;
  nk_main f : main s = MReturned f -> exists c, first_late (ended s) = Some c /\ f = is_fatal c
}.

Lemma done_any k c a :
  exists a', done AutoCancelAny k c a = Ret a' /\ spawned a' = spawned a /\ start a' = start a /\ children a' = children a /\
    self a' = match self a with Some c' => Some c' | None => if start a then Some c else None end.
Proof.
  unfold done. rewrite bind_ret_l. cbn [orb start]. destruct (start a) eqn:Hs; eexists; (split; [done|]); cbn; rewrite ?Hs;
    split_and!; try done; by destruct (self a).
Qed.

Lemma start_nonempty a :
  length (children a) <> 0%nat ->
  start_ a = {| children := children a; start := true; cause := cause a; self := self a; spawned := spawned a; child_cause := child_cause a |}.
Proof. intros Hl%Nat.eqb_neq. unfold start_. cbn [children]. by rewrite Hl. Qed.

Lemma nstep_ok outcomes s s' : outcomes <> [] -> node_ok (length outcomes) s -> nstep outcomes s s' -> node_ok (length outcomes) s'.
Proof.
  intros Hne [H1 H2 H3 H4 H5 [H6 H6'] H7] Hst. destruct Hst as [s Hm Hk|s Hm Hk|s k c ctx' Hk Ho Hn Hd|s c Hm Hc].
  - rewrite Hm in *. split; cbn; try done; [rewrite length_app; cbn; lia|]. split; [done|]. eapply Forall_impl; [exact H6'|]. cbn. lia.
  - rewrite Hm in *. assert (length (children (actx s)) <> 0)%nat as Hl by (rewrite H4, Hk; by destruct outcomes).
    rewrite (start_nonempty _ Hl). split; cbn; try done.
  - destruct (done_any k c (actx s)) as (a' & E & E1 & E2 & E3 & E4). assert (ctx' = a') as -> by congruence.
    split; cbn; rewrite ?E1, ?E2, ?E3, ?E4; try done.
    + by rewrite first_late_snoc, H5, H2.
    + rewrite !fmap_app. cbn. split; [|apply Forall_app; split; [done|by repeat constructor]].
      apply NoDup_app. split; [done|]. split; [|apply NoDup_singleton]. intros j Hj ->%list_elem_of_singleton. done.
    + intros f Hf. destruct (H7 f Hf) as (c' & Hc' & ->). exists c'. rewrite first_late_snoc, Hc'. done.
  - split; cbn; try done; [by rewrite H2, Hm|intros _; apply H3; by rewrite Hm|]. intros f [= <-]. exists c. by rewrite <- H5.
Qed.

Lemma node_reachable outcomes s : outcomes <> [] -> rtc (nstep outcomes) node0 s -> node_ok (length outcomes) s.
Proof.
  intros Hne Hs. assert (node_ok (length outcomes) node0) as H0 by (split; cbn; try done; [lia|by repeat constructor]).
  revert H0. induction Hs as [|s1 s2 s3 Hst _ IH]; intros H0; [done|]. apply IH. by eapply nstep_ok.
Qed.

(** All servers have ended, none of them after [start]. *)
Definition all_early (n : nat) (s : node) : Prop := length (ended s) = n /\ Forall (fun x => x.2 = false) (ended s).

Lemma first_late_none l : first_late l = None <-> Forall (fun x => x.2 = false) l.
Proof.
  induction l as [|[[k c] b] l IH]; cbn; [by split|]. rewrite Forall_cons. cbn. destruct b; [by split; [|intros []]|]. rewrite IH. naive_solver.
Qed.

Lemma missing_below n (l : list nat) :
  NoDup l -> Forall (fun k => k < n)%nat l -> length l <> n -> exists k, (k < n)%nat /\ k ∉ l.
Proof.
  intros Hd Hl Hn. destruct (decide (Forall (fun k => k ∈ l) (seq 0 n))) as [Ha|Ha].
  - exfalso. apply Hn. rewrite Forall_forall in Hl, Ha. rewrite <- (length_seq n 0) at 1. apply Nat.le_antisymm; apply submseteq_length, NoDup_submseteq;
      [done|intros k Hk; apply elem_of_seq; apply Hl in Hk; lia|apply NoDup_seq|done].
  - apply not_Forall_Exists, Exists_exists in Ha as (k & Hk & Ha); [|apply _]. exists k. apply elem_of_seq in Hk. split; [lia|done].
Qed.

Lemma NoDup_full n (l : list nat) k : NoDup l -> Forall (fun k => k < n)%nat l -> length l = n -> (k < n)%nat -> k ∈ l.
Proof.
  intros Hd Hl Hn Hk. destruct (decide (k ∈ l)) as [|Hk']; [done|]. exfalso. rewrite Forall_forall in Hl.
  assert (k :: l ⊆+ seq 0 n) as Hsub.
  { apply NoDup_submseteq; [by constructor|]. intros j [->|Hj]%elem_of_cons; apply elem_of_seq; [lia|apply Hl in Hj; lia]. }
  apply submseteq_length in Hsub. cbn in Hsub. rewrite length_seq in Hsub. lia.
Qed.

Lemma step_or_over outcomes s :
  outcomes <> [] -> node_ok (length outcomes) s ->
  (exists s', nstep outcomes s s') \/ (exists f, main s = MReturned f) \/ (main s = MWaiting /\ all_early (length outcomes) s).
Proof.
  intros Hne [H1 H2 H3 H4 H5 [H6 H6'] H7]. destruct (main s) as [| |f] eqn:Hm; [| |by right; left; exists f].
  - left. destruct (decide (spawned (actx s) = length outcomes)) as [E|E]; [eexists; by apply ns_start|]. eexists. apply ns_spawn; [done|lia].
  - destruct (self (actx s)) as [c|] eqn:Hc; [left; eexists; by eapply ns_return|].
    specialize (H3 eq_refl). destruct (decide (length (ended s) = length outcomes)) as [E|E].
    + right. right. split; [done|]. split; [done|]. apply first_late_none. by rewrite <- H5.
    + left. destruct (missing_below (length outcomes) (ended s).*1.*1) as (k & Hk & Hn); [done|by rewrite H3 in H6'|by rewrite !length_fmap|].
      destruct (lookup_lt_is_Some_2 outcomes k Hk) as [c Ho]. destruct (done_any k c (actx s)) as (a' & E' & _).
      eexists. apply (ns_done outcomes s k c a'); [lia|done..].
Qed.

(** C36. Starting and stopping a node.  The outcomes are the causes with which the auth server
    and the signal servers of the configuration end, when they end.  In every interleaving of
    the main goroutine with the ends of servers, the context of the node is cancelled exactly
    when a server ended after [start], with the cause of the first such; [Run]
    returns only then, with a fatal log exactly when this cause is not [context.Canceled].  While it
    waits and no server has ended after [start], the end of any server that still runs makes it return; a
    server that ended before [start] does not, so that it waits for as long as the others serve, and for ever
    when all ended before [start]. *)
Theorem node_stops conf auth_serve ans outcomes s :
  entry_Run conf auth_serve ans = Ret outcomes -> rtc (nstep outcomes) node0 s ->
  self (actx s) = first_late (ended s) /\
  (forall f, main s = MReturned f -> exists c, first_late (ended s) = Some c /\ f = is_fatal c) /\
  (main s = MWaiting -> forall c, first_late (ended s) = Some c -> exists s', nstep outcomes s s' /\ main s' = MReturned (is_fatal c)) /\
  (main s = MWaiting -> first_late (ended s) = None -> forall k c, outcomes !! k = Some c -> k ∉ (ended s).*1.*1 ->
     exists s1 s2, nstep outcomes s s1 /\ ended s1 = ended s ++ [(k, c, true)] /\ nstep outcomes s1 s2 /\ main s2 = MReturned (is_fatal c)) /\
  ((forall s', ~ nstep outcomes s s') -> (exists f, main s = MReturned f) \/ (main s = MWaiting /\ all_early (length outcomes) s)).
Proof.
  intros He Hs. assert (outcomes <> []) as Hne.
  { unfold entry_Run in He. destruct (Split_ conf); [|done]. by injection He as <-. }
  destruct (node_reachable outcomes s Hne Hs) as [_ H2 H3 _ H5 _ H7].
  split_and!; [done|done| | |].
  - intros Hm c Hc. rewrite <- H5 in Hc. eexists. split; [by eapply ns_return|done].
  - intros Hm Hn k c Hk Hin. rewrite Hm in H2, H3. specialize (H3 eq_refl). pose proof (lookup_lt_Some _ _ _ Hk) as Hlt.
    destruct (done_any k c (actx s)) as (a' & E & _ & _ & _ & E4). rewrite H2, H5, Hn in E4. cbn in E4.
    exists {| actx := a'; main := main s; ended := ended s ++ [(k, c, is_started (main s))] |}. eexists.
    split; [apply (ns_done outcomes s k c a'); [lia|done..]|]. split; [cbn; by rewrite Hm|]. split; [by apply (ns_return outcomes _ c)|done].
  - intros Hn. destruct (step_or_over outcomes s Hne (node_reachable outcomes s Hne Hs)) as [[s' Hst]|Ho]; [by apply Hn in Hst|done].
Qed.

(** Nothing happens any more once all servers ended too early. *)
Lemma all_early_stuck outcomes s s' :
  outcomes <> [] -> rtc (nstep outcomes) node0 s -> main s = MWaiting -> all_early (length outcomes) s -> ~ nstep outcomes s s'.
Proof.
  intros Hne Hs Hm [Hl Hf] Hst. destruct (node_reachable outcomes s Hne Hs) as [_ _ H3 _ H5 [H6 H6'] _].
  assert (first_late (ended s) = None) as Hnone by (by apply first_late_none). rewrite Hm in H3. specialize (H3 eq_refl).
  destruct Hst as [s Hm'|s Hm'|s k c ctx' Hk Ho Hn Hd|s c _ Hc]; [congruence..| |congruence].
  apply Hn. rewrite H3 in *. eapply (NoDup_full (length outcomes)); rewrite ?length_fmap; done.
Qed.

(** ** Runs *)

(** A step by its name. *)
Inductive move := MvSpawn | MvStart | MvDone (k : nat) | MvReturn.

Definition nexec (outcomes : list (option gerror)) (m : move) (s : node) : option node :=
  match m with
  | MvSpawn =>
      if decide (main s = MStarting /\ spawned (actx s) < length outcomes)%nat
      then Some {| actx := (spawn (actx s)).1; main := MStarting; ended := ended s |} else None
  | MvStart =>
      if decide (main s = MStarting /\ spawned (actx s) = length outcomes)
      then Some {| actx := start_ (actx s); main := MWaiting; ended := ended s |} else None
  | MvDone k =>
      c ← outcomes !! k;
      if decide (k < spawned (actx s) /\ k ∉ (ended s).*1.*1)%nat then
        match done AutoCancelAny k c (actx s) with
        | Ret ctx' => Some {| actx := ctx'; main := main s; ended := ended s ++ [(k, c, is_started (main s))] |}
        | Abort _ => None
        end
      else None
  | MvReturn =>
      c ← self (actx s);
      if decide (main s = MWaiting) then Some {| actx := actx s; main := MReturned (is_fatal c); ended := ended s |} else None
  end.

Lemma nexec_step outcomes m s s' : nexec outcomes m s = Some s' -> nstep outcomes s s'.
Proof.
  destruct m as [| |k|]; cbn [nexec].
  - destruct (decide _) as [[Hm Hk]|]; [|done]. intros [= <-]. by apply ns_spawn.
  - destruct (decide _) as [[Hm Hk]|]; [|done]. intros [= <-]. by apply ns_start.
  - destruct (outcomes !! k) as [c|] eqn:Hc; [|done]. cbn [mbind option_bind]. destruct (decide _) as [[Hk Hn]|]; [|done].
    destruct (done AutoCancelAny k c (actx s)) as [ctx'|] eqn:Hd; [|done]. intros [= <-]. by apply ns_done.
  - destruct (self (actx s)) as [c|] eqn:Hc; [|done]. cbn. destruct (decide _) as [Hm|]; [|done]. intros [= <-]. by apply ns_return.
Qed.

Fixpoint nrun (outcomes : list (option gerror)) (ms : list move) (s : node) : option node :=
  match ms with [] => Some s | m :: ms => s ← nexec outcomes m s; nrun outcomes ms s end.

Lemma nrun_steps outcomes ms : forall s s', nrun outcomes ms s = Some s' -> rtc (nstep outcomes) s s'.
Proof.
  induction ms as [|m ms IH]; intros s s'; cbn; [by intros [= ->]|]. destruct (nexec outcomes m s) as [s1|] eqn:Hm; [|done]. cbn. intros Hr.
  eapply rtc_l; [by eapply nexec_step|by apply IH].
Qed.

(** The three replicas of a debugged cluster and the auth server, each serving until its address is taken. *)
Definition serving : answers := {| a_graceful := None; a_global := None; a_socketio := None; a_serve := Some (EOther "address already in use") |}.
Definition outcomes4 : list (option gerror) := Eval vm_compute in
  match entry_Run debug_config (Some (EOther "address already in use")) (fun _ => serving) with Ret l => l | Abort _ => [] end.
Definition stopped_node : node := Eval vm_compute in
  default node0 (nrun outcomes4 [MvSpawn; MvSpawn; MvDone 1; MvSpawn; MvSpawn; MvStart; MvDone 3; MvDone 0; MvReturn] node0).

Lemma node_stops_witness :
  entry_Run debug_config (Some (EOther "address already in use")) (fun _ => serving) = Ret outcomes4 /\
  rtc (nstep outcomes4) node0 stopped_node /\ first_late (ended stopped_node) = Some (Some (EOther "address already in use")) /\
  self (actx stopped_node) = first_late (ended stopped_node).
Proof.
  assert (entry_Run debug_config (Some (EOther "address already in use")) (fun _ => serving) = Ret outcomes4) as He by (vm_compute; reflexivity).
  assert (rtc (nstep outcomes4) node0 stopped_node) as Hr.
  { apply (nrun_steps _ [MvSpawn; MvSpawn; MvDone 1; MvSpawn; MvSpawn; MvStart; MvDone 3; MvDone 0; MvReturn]). vm_compute. reflexivity. }
  split; [exact He|]. split; [exact Hr|]. split; [reflexivity|].
  exact (proj1 (node_stops debug_config (Some (EOther "address already in use")) (fun _ => serving) outcomes4 stopped_node He Hr)).
Defined.

(** A node with the auth server disabled runs, or stops at once without a
    word: it depends on whether the goroutine of the auth server ends before
    [start] is called. *)
Lemma disabled_auth_race serve ans cfgs conf :
  au_Enable (AuthServer conf) = false -> Split_ conf = Ret cfgs -> length cfgs = 1%nat ->
  exists outcomes, entry_Run conf serve ans = Ret outcomes /\
    (exists s, rtc (nstep outcomes) node0 s /\ main s = MWaiting /\ self (actx s) = None /\ (ended s).*1.*1 = [0%nat]) /\
    (exists s, rtc (nstep outcomes) node0 s /\ main s = MReturned false).
Proof.
  intros Ha Hs Hl. destruct cfgs as [|cfg [|]]; [done| |done]. unfold entry_Run. rewrite Hs, bind_ret_l. unfold auth_Run. rewrite Ha. cbn [imap snd negb].
  eexists. split; [done|]. split.
  - eexists. split; [apply (nrun_steps _ [MvSpawn; MvDone 0; MvSpawn; MvStart]); reflexivity|done].
  - eexists. split; [apply (nrun_steps _ [MvSpawn; MvSpawn; MvStart; MvDone 0; MvReturn]); reflexivity|done].
Qed.
