(* ===== verification/Startup.v ===== *)
(** * Startup: loading the configuration and the start of the program ([config/main.go], [cmd/server/main.go])

    The configuration comes from files, from secret files and from the command
    line, through a library, which is a parameter: its store, the loading of
    files and flags into it, and its decoding. *)
From S2P Require Import Prelude Config Log Contexts Metrics Server.
Local Open Scope string_scope.
Local Open Scope list_scope.

(** The library: a store of keys, what the files and the flags hold, and the decoding into the configuration. *)
Class Loader (S C : Type) := {
  get : S -> string -> option string;
  file_has : string -> string -> option string;
  flag_has : string -> option string;
  LoadFiles : string -> S -> S + gerror;
  LoadExists : list string -> S -> S + gerror;
  LoadFlags : list string -> S -> S + gerror;
  Decode_ : S -> C + gerror
}.

(** What is loaded later replaces what was loaded before. *)
Definition over (new old : option string) : option string := match new with Some v => Some v | None => old end.
Fixpoint last_file {S C} `{Loader S C} (paths : list string) (k : string) : option string :=
  match paths with [] => None | p :: paths => over (last_file paths k) (file_has p k) end.

Class LoaderLaws (S C : Type) `{Loader S C} := {
  LoadFiles_get p s s' k : LoadFiles p s = inl s' -> get s' k = over (file_has p k) (get s k);
  LoadExists_get ps s s' k : LoadExists ps s = inl s' -> get s' k = over (last_file ps k) (get s k);
  LoadFlags_get keys s s' k : LoadFlags keys s = inl s' -> get s' k = over (if decide (k ∈ keys) then flag_has k else None) (get s k)
}.

Section Load.
Context {S C : Type} `{HL : LoaderLaws S C}.

Definition config_names (name : string) : list string :=
  [name +:+ ".yml"; name +:+ ".yaml"; name +:+ ".json"; name +:+ ".toml"; name +:+ ".ini"].

(** One of the two sources: the file the environment names, or those that exist. *)
Definition load_source (path : option string) (name : string) (s : S) : S + gerror :=
  match path with
  | Some p => if decide (p <> "") then LoadFiles p s else LoadExists (config_names name) s
  | None => LoadExists (config_names name) s
  end.

(** [env] is [os.LookupEnv]. *)
Definition InitConfig (env : string -> option string) (keys : list string) (conf_name secret_conf_name : string) (s : S) : C + gerror :=
  match load_source (env "CONF_CONFIG_PATH") conf_name s with
  | inr err => inr err
  | inl s =>
      match load_source (env "CONF_SECRET_PATH") secret_conf_name s with
      | inr err => inr err
      | inl s => match LoadFlags keys s with inr err => inr err | inl s => Decode_ s end
      end
  end.

Definition source_has (path : option string) (name k : string) : option string :=
  match path with
  | Some p => if decide (p <> "") then file_has p k else last_file (config_names name) k
  | None => last_file (config_names name) k
  end.

Lemma load_source_get path name s s' k : load_source path name s = inl s' -> get s' k = over (source_has path name k) (get s k).
Proof.
  unfold load_source, source_has. destruct path as [p|]; [destruct (decide (p <> ""))|]; intros Hl;
    first [by apply LoadFiles_get|by apply LoadExists_get].
Qed.

(** Flags come before secrets, secrets before the configuration. *)
Lemma config_precedence env keys conf_name secret_conf_name s c :
  InitConfig env keys conf_name secret_conf_name s = inl c ->
  exists s', Decode_ s' = inl c /\
    forall k, get s' k = over (if decide (k ∈ keys) then flag_has k else None)
      (over (source_has (env "CONF_SECRET_PATH") secret_conf_name k) (over (source_has (env "CONF_CONFIG_PATH") conf_name k) (get s k))).
Proof.
  unfold InitConfig. destruct (load_source _ conf_name s) as [s1|] eqn:H1; [|done]. destruct (load_source _ secret_conf_name s1) as [s2|] eqn:H2; [|done].
  destruct (LoadFlags keys s2) as [s3|] eqn:H3; [|done]. intros Hd. exists s3. split; [done|]. intros k.
  by rewrite (LoadFlags_get _ _ _ k H3), (load_source_get _ _ _ _ k H2), (load_source_get _ _ _ _ k H1).
Qed.
End Load.

(** ** [main] *)

(** What [main] gets to: the causes its servers end with, or the panic of a bad configuration.  [level] and [build] are zap's answers. *)
Definition main_ (conf : ConferenceConfigure + gerror) (level : string -> zap_level + gerror) (build : zap_config -> option gerror)
    (serve : option gerror) (ans : nat -> answers) : run (list (option gerror)) :=
  match conf with
  | inr _ => go_panic (PMsg "unable to init config")
  | inl conf =>
      match Validate conf with
      | Some _ => go_panic (PMsg "validate config failed")
      | None =>
          profile ← LogProfile conf;
          log_Init (level (Level (Log conf))) profile (lg_File (Log conf)) build;;
          entry_Run conf serve ans
      end
  end.

(** No server is started with an incomplete configuration. *)
Lemma main_validated conf level build serve ans l : main_ conf level build serve ans = Ret l -> exists c, conf = inl c /\ complete c.
Proof.
  unfold main_. destruct conf as [c|]; [|done]. destruct (Validate c) eqn:Hv; [done|]. intros _. exists c. split; [done|]. by apply Validate_none.
Qed.
