(* ===== verification/Client.v ===== *)
(** * Client: the state of the client library ([client/websocket.go])

    Who is in a room, as a client sees it, from join and leave messages that
    arrive in any order; the callbacks on joining and leaving; the
    acknowledgements a client waits for; and the channels pings are put on.
    Time is the argument [now], in nanoseconds.  A callback is a value of
    [Cb]; [keep cb p] is the answer of the callback, and the calls made are
    returned in order.  Join ids are unsigned; [event_ok] says so where it
    matters.  A mutex makes each operation one step. *)
From S2P Require Import Prelude GoStrings Collection Pattern Messages.
From Stdlib Require Import Sorting.Permutation.
Local Open Scope string_scope.
Local Open Scope list_scope.

(** ** Participants of a room *)

Definition ParticipantKey : Type := string * string.

Record LeavedInfo := { jid : Z; timestamp : Z }.

Record Participants := {
  participants : gmap ParticipantKey Participant;
  leaves : gmap ParticipantKey LeavedInfo
}.

Definition no_participants : Participants := {| participants := ∅; leaves := ∅ |}.

Definition key_of (p : Participant) : ParticipantKey := (P_Id p, P_SourceId p).

(** [time.Minute] *)
Definition Minute : Z := 60000000000.

(** The first entry of the user in the order [range]. *)
Definition FindOneByUser (range : gmap ParticipantKey Participant -> list (ParticipantKey * Participant))
    (p : Participants) (uid : string) : option Participant :=
  snd <$> head (filter (fun kv => kv.1.1 = uid) (range (participants p))).

Definition Clean (now : Z) (p : Participants) : Participants * bool :=
  let l := filter (fun kv => (now - timestamp kv.2 <= Minute)%Z) (leaves p) in
  ({| participants := participants p; leaves := l |},
   bool_decide (participants p = ∅) && bool_decide (l = ∅)).

Definition Add (p : Participants) (participant : Participant) : Participants * bool :=
  let key := key_of participant in
  let put l :=
    match participants p !! key with
    | Some pt =>
        if (P_JoinId pt <? P_JoinId participant)%Z
        then ({| participants := <[key := participant]> (participants p); leaves := l |}, true)
        else ({| participants := participants p; leaves := l |}, false)
    | None => ({| participants := <[key := participant]> (participants p); leaves := l |}, true)
    end in
  match leaves p !! key with
  | Some leaveInfo =>
      if (jid leaveInfo <? P_JoinId participant)%Z then put (delete key (leaves p)) else (p, false)
  | None => put (leaves p)
  end.

Definition Remove (now : Z) (p : Participants) (uid sid : string) (j : Z) : Participants * option Participant :=
  let key : ParticipantKey := (uid, sid) in
  let take l :=
    match participants p !! key with
    | Some pt =>
        if (P_JoinId pt <=? j)%Z
        then ({| participants := delete key (participants p); leaves := l |}, Some pt)
        else ({| participants := participants p; leaves := l |}, None)
    | None => ({| participants := participants p; leaves := l |}, None)
    end in
  let l := <[key := {| jid := j; timestamp := now |}]> (leaves p) in
  match leaves p !! key with
  | Some leaveInfo => if (jid leaveInfo <? j)%Z then take l else (p, None)
  | None => take l
  end.

(** ** The participants of all rooms, with the callbacks *)

Section Box.
Context {Cb : Type} (keep : Cb -> option Participant -> bool) (range_cbs : gmap Z Cb -> list (Z * Cb)).

Record ParticipantsBox := {
  box_participants : gmap string Participants;
  next_join_id : Z;
  join_chs : gmap string (gmap Z Cb);
  next_leave_id : Z;
  leave_cbs : gmap string (gmap Z Cb);
  iter : Z
}.

Definition mewParticipantsBox : ParticipantsBox :=
  {| box_participants := ∅; next_join_id := 0; join_chs := ∅; next_leave_id := 0; leave_cbs := ∅; iter := 0 |}.

(** [clean]: on every tenth call the expired leaves go, and the rooms left
    with nothing. *)
Definition clean (now : Z) (box : ParticipantsBox) : ParticipantsBox :=
  let i := i64 (iter box + 1) in
  let ps := if (Z.rem i 10 =? 0)%Z
            then omap (fun p => let '(p, empty) := Clean now p in if (empty : bool) then None else Some p) (box_participants box)
            else box_participants box in
  {| box_participants := ps; next_join_id := next_join_id box; join_chs := join_chs box;
     next_leave_id := next_leave_id box; leave_cbs := leave_cbs box; iter := i |}.

(** The calls of the callbacks of a room, in the order [range_cbs] in which the
    map is ranged over, and those that stay. *)
Definition run_cbs (cbs : gmap Z Cb) (p : option Participant) : gmap Z Cb * list (Cb * option Participant) :=
  (filter (fun kv => keep kv.2 p = true) cbs, (fun kv => (kv.2, p)) <$> range_cbs cbs).

Definition participant_of (msg : StateParticipantMessage) : Participant :=
  {| P_Id := StateParticipant_UserId msg; P_Name := StateParticipant_UserName msg;
     P_SourceId := StateParticipant_SocketId msg; P_JoinId := StateParticipant_JoinId msg |}.

Definition ProcessJoinCbs (box : ParticipantsBox) (msg : StateParticipantMessage)
    : ParticipantsBox * list (Cb * option Participant) :=
  let room := GetRoom (Some msg) in
  let participant := participant_of msg in
  let '(ps, added) := Add (default no_participants (box_participants box !! room)) participant in
  let rooms := <[room := ps]> (box_participants box) in
  let '(chs, calls) :=
    if (added : bool) then
      match join_chs box !! room with
      | Some cbs => let '(cbs, calls) := run_cbs cbs (Some participant) in (<[room := cbs]> (join_chs box), calls)
      | None => (join_chs box, [])
      end
    else (join_chs box, []) in
  ({| box_participants := rooms; next_join_id := next_join_id box; join_chs := chs;
      next_leave_id := next_leave_id box; leave_cbs := leave_cbs box; iter := iter box |}, calls).

(** The callbacks run whatever [Remove] answered. *)
Definition ProcessLeaveCbs (now : Z) (box : ParticipantsBox) (msg : StateLeaveMessage)
    : ParticipantsBox * list (Cb * option Participant) :=
  let room := GetRoom (Some msg) in
  let '(ps, participant) := Remove now (default no_participants (box_participants box !! room))
                              (StateLeave_UserId msg) (StateLeave_SocketId msg) (StateLeave_JoinId msg) in
  let box := clean now {| box_participants := <[room := ps]> (box_participants box); next_join_id := next_join_id box;
                          join_chs := join_chs box; next_leave_id := next_leave_id box;
                          leave_cbs := leave_cbs box; iter := iter box |} in
  let '(chs, calls) :=
    match leave_cbs box !! room with
    | Some cbs => let '(cbs, calls) := run_cbs cbs participant in (<[room := cbs]> (leave_cbs box), calls)
    | None => (leave_cbs box, [])
    end in
  ({| box_participants := box_participants box; next_join_id := next_join_id box; join_chs := join_chs box;
      next_leave_id := next_leave_id box; leave_cbs := chs; iter := iter box |}, calls).

Definition AddJoinCallback (box : ParticipantsBox) (room : string) (cb : Cb) : ParticipantsBox * Z :=
  let id := next_join_id box in
  ({| box_participants := box_participants box; next_join_id := i64 (id + 1);
      join_chs := <[room := <[id := cb]> (default ∅ (join_chs box !! room))]> (join_chs box);
      next_leave_id := next_leave_id box; leave_cbs := leave_cbs box; iter := iter box |}, id).

Definition RemoveJoinCallback (box : ParticipantsBox) (room : string) (id : Z) : ParticipantsBox :=
  {| box_participants := box_participants box; next_join_id := next_join_id box;
     join_chs := alter (delete id) room (join_chs box);
     next_leave_id := next_leave_id box; leave_cbs := leave_cbs box; iter := iter box |}.

Definition AddLeaveCallback (box : ParticipantsBox) (room : string) (cb : Cb) : ParticipantsBox * Z :=
  let id := next_leave_id box in
  ({| box_participants := box_participants box; next_join_id := next_join_id box; join_chs := join_chs box;
      next_leave_id := i64 (id + 1);
      leave_cbs := <[room := <[id := cb]> (default ∅ (leave_cbs box !! room))]> (leave_cbs box);
      iter := iter box |}, id).

Definition RemoveLeaveCallback (box : ParticipantsBox) (room : string) (id : Z) : ParticipantsBox :=
  {| box_participants := box_participants box; next_join_id := next_join_id box; join_chs := join_chs box;
     next_leave_id := next_leave_id box; leave_cbs := alter (delete id) room (leave_cbs box); iter := iter box |}.

Definition box_FindOneByUser (range : gmap ParticipantKey Participant -> list (ParticipantKey * Participant))
    (box : ParticipantsBox) (room uid : string) : option Participant :=
  box_participants box !! room ≫= fun p => FindOneByUser range p uid.

End Box.

(** ** Acknowledgements *)

(** [AckKey]: room, socket, message id; an entry is the waiting caller. *)
Definition AckKey : Type := string * string * Z.

Definition PushCustomAckMsgCh {W : Type} (m : gmap AckKey W) (room to : string) (id : Z) (ack_msg : W) : gmap AckKey W :=
  <[(room, to, id) := ack_msg]> m.

Definition PopCustomAckMsgCh {W : Type} (m : gmap AckKey W) (room from : string) (id : Z) : gmap AckKey W * option W :=
  match m !! (room, from, id) with
  | Some ch => (delete (room, from, id) m, Some ch)
  | None =>
      match m !! (room, "", id) with
      | Some ch => (delete (room, "", id) m, Some ch)
      | None => (m, None)
      end
  end.

(** ** Pings *)

(** [PingKey]: room and socket. *)
Definition PingKey : Type := string * string.

Definition subscribePingMsg {Ch : Type} (m : gmap PingKey (list Ch)) (room sid : string) (ch : Ch) : gmap PingKey (list Ch) :=
  match m !! (room, sid) with
  | Some chs => <[(room, sid) := chs ++ [ch]]> m
  | None => <[(room, sid) := [ch]]> m
  end.

Definition unsubscribePingMsg {Ch : Type} `{EqDecision Ch} (m : gmap PingKey (list Ch)) (room sid : string) (ch : Ch)
    : run (gmap PingKey (list Ch)) :=
  match m !! (room, sid) with
  | None => Ret m
  | Some chs =>
      '(_, chs) ← SliceRemoveByValue chs false ch;
      Ret (if (0 <? length chs)%nat then <[(room, sid) := chs]> m else delete (room, sid) m)
  end.

(** The channels a ping is put on; a channel holds one ping, and a send on a
    full one waits for its reader, which is not modelled. *)
Definition publishPingMsgs {Ch : Type} (m : gmap PingKey (list Ch)) (msg : PingMessage) : list Ch :=
  let r := default zero_router (GetRouter (Some msg)) in
  default [] (m !! (Room r, SocketFrom r)).

(** ** Convergence *)

(** The messages about one room. *)
Inductive presence :=
  | PJoin (p : Participant)
  | PLeave (uid sid : string) (j now : Z).

Definition apply_presence (ps : Participants) (e : presence) : Participants :=
  match e with
  | PJoin p => (Add ps p).1
  | PLeave uid sid j now => (Remove now ps uid sid j).1
  end.

Definition run_presence (tr : list presence) : Participants := fold_left apply_presence tr no_participants.

(** The highest join id announced, and the highest one left, for a key;
    -1 when there is none. *)
Definition join_of (key : ParticipantKey) (e : presence) : Z :=
  match e with PJoin p => if decide (key_of p = key) then P_JoinId p else -1 | PLeave _ _ _ _ => -1 end.
Definition leave_of (key : ParticipantKey) (e : presence) : Z :=
  match e with PJoin _ => -1 | PLeave uid sid j _ => if decide ((uid, sid) = key) then j else -1 end.

Definition highest (f : presence -> Z) (tr : list presence) : Z := foldr (fun e m => Z.max (f e) m) (-1)%Z tr.

Definition id_ok (e : presence) : Prop :=
  match e with PJoin p => (0 <= P_JoinId p)%Z | PLeave _ _ j _ => (0 <= j)%Z end.

(** The messages a client receives about the rooms it is in, a departure with
    the time of its arrival. *)
Inductive state_event :=
  | EJoin (msg : StateParticipantMessage)
  | ELeave (now : Z) (msg : StateLeaveMessage).

Definition presence_of (room : string) (e : state_event) : option presence :=
  match e with
  | EJoin msg => if decide (GetRoom (Some msg) = room) then Some (PJoin (participant_of msg)) else None
  | ELeave now msg =>
      if decide (GetRoom (Some msg) = room)
      then Some (PLeave (StateLeave_UserId msg) (StateLeave_SocketId msg) (StateLeave_JoinId msg) now)
      else None
  end.

Definition apply_event {Cb} (keep : Cb -> option Participant -> bool) (range_cbs : gmap Z Cb -> list (Z * Cb)) (box : ParticipantsBox (Cb := Cb)) (e : state_event)
    : ParticipantsBox :=
  match e with
  | EJoin msg => (ProcessJoinCbs keep range_cbs box msg).1
  | ELeave now msg => (ProcessLeaveCbs keep range_cbs now box msg).1
  end.

(** The join ids are not negative, and the departures arrive within a minute
    after [t0], the time for which [clean] keeps a departure. *)
Definition event_ok (t0 : Z) (e : state_event) : Prop :=
  match e with
  | EJoin msg => (0 <= StateParticipant_JoinId msg)%Z
  | ELeave now msg => (0 <= StateLeave_JoinId msg)%Z /\ (t0 <= now <= t0 + Minute)%Z
  end.

(** What the client knows of a room, and of a participant. *)
Definition room_view {Cb} (box : ParticipantsBox (Cb := Cb)) (room : string) : Participants :=
  default no_participants (box_participants box !! room).

Lemma highest_snoc f tr e : highest f (tr ++ [e]) = Z.max (highest f tr) (Z.max (f e) (-1)).
Proof. unfold highest. induction tr as [|x tr IH]; cbn; [lia|]. rewrite IH. lia. Qed.

Lemma highest_perm f tr tr' : tr ≡ₚ tr' -> highest f tr = highest f tr'.
Proof. unfold highest. induction 1; cbn; lia. Qed.

Lemma highest_ge f tr : (-1 <= highest f tr)%Z.
Proof. unfold highest. induction tr; cbn; lia. Qed.

(** What the maps hold for a key when the highest ids are [jm] and [lm]. *)
Definition key_inv (ps : Participants) (key : ParticipantKey) (jm lm : Z) : Prop :=
  match participants ps !! key with
  | Some pt => P_JoinId pt = jm /\ key_of pt = key /\ (lm < jm)%Z /\
      forall l, leaves ps !! key = Some l -> (jid l <= lm)%Z
  | None => (jm <= lm)%Z /\
      match leaves ps !! key with Some l => jid l = lm | None => lm = (-1)%Z end
  end.

Lemma Add_other ps p key :
  key_of p <> key -> participants (Add ps p).1 !! key = participants ps !! key /\ leaves (Add ps p).1 !! key = leaves ps !! key.
Proof.
  intros Hne. unfold Add. repeat case_match; cbn; rewrite ?lookup_insert_ne, ?lookup_delete_ne by done; done.
Qed.

Lemma Remove_other now ps uid sid j key :
  (uid, sid) <> key -> participants (Remove now ps uid sid j).1 !! key = participants ps !! key /\
    leaves (Remove now ps uid sid j).1 !! key = leaves ps !! key.
Proof.
  intros Hne. unfold Remove. repeat case_match; cbn; rewrite ?lookup_insert_ne, ?lookup_delete_ne by done; done.
Qed.

Lemma key_inv_ext ps ps' key jm lm :
  participants ps' !! key = participants ps !! key -> leaves ps' !! key = leaves ps !! key ->
  key_inv ps key jm lm -> key_inv ps' key jm lm.
Proof. unfold key_inv. by intros -> ->. Qed.

Lemma Add_key_inv ps p jm lm :
  (0 <= P_JoinId p)%Z -> (-1 <= lm)%Z ->
  key_inv ps (key_of p) jm lm -> key_inv (Add ps p).1 (key_of p) (Z.max jm (P_JoinId p)) lm.
Proof.
  intros Hj Hlm. unfold key_inv, Add.
  destruct (leaves ps !! key_of p) as [l|] eqn:Hl, (participants ps !! key_of p) as [pt|] eqn:Hp.
  - intros (E & Ek & Hlt & Hle). specialize (Hle l eq_refl). destruct (Z.ltb_spec (jid l) (P_JoinId p)) as [H1|H1].
    + destruct (Z.ltb_spec (P_JoinId pt) (P_JoinId p)); cbn.
      * rewrite lookup_insert_eq, lookup_delete_eq. split_and!; [lia|done|lia|done].
      * rewrite Hp, lookup_delete_eq. split_and!; [lia|done|lia|done].
    + cbn. rewrite Hp, Hl. split_and!; [lia|done|lia|]. intros l' [= <-]. done.
  - intros [Hle El]. destruct (Z.ltb_spec (jid l) (P_JoinId p)) as [H1|H1]; cbn.
    + rewrite lookup_insert_eq, lookup_delete_eq. split_and!; [lia|done|lia|done].
    + rewrite Hp, Hl. split; [lia|done].
  - intros (E & Ek & Hlt & _). destruct (Z.ltb_spec (P_JoinId pt) (P_JoinId p)); cbn.
    + rewrite lookup_insert_eq, Hl. split_and!; [lia|done|lia|done].
    + rewrite Hp, Hl. split_and!; [lia|done|lia|done].
  - intros [Hle El]. cbn. rewrite lookup_insert_eq, Hl. split_and!; [lia|done|lia|done].
Qed.

Lemma Remove_key_inv now ps uid sid j jm lm :
  (0 <= j)%Z -> (-1 <= lm)%Z ->
  key_inv ps (uid, sid) jm lm -> key_inv (Remove now ps uid sid j).1 (uid, sid) jm (Z.max lm j).
Proof.
  intros Hj Hlm. unfold key_inv, Remove. cbn zeta.
  set (key := (uid, sid) : ParticipantKey).
  destruct (leaves ps !! key) as [l|] eqn:Hl, (participants ps !! key) as [pt|] eqn:Hp.
  - intros (E & Ek & Hlt & Hle). specialize (Hle l eq_refl). destruct (Z.ltb_spec (jid l) j) as [H1|H1].
    + destruct (Z.leb_spec (P_JoinId pt) j); cbn.
      * rewrite lookup_delete_eq, lookup_insert_eq. cbn. lia.
      * rewrite Hp, lookup_insert_eq. split_and!; [done|done|lia|]. intros l' [= <-]. cbn. lia.
    + cbn. rewrite Hp, Hl. split_and!; [done|done|lia|]. intros l' [= <-]. lia.
  - intros [Hle El]. destruct (Z.ltb_spec (jid l) j) as [H1|H1]; cbn.
    + rewrite Hp, lookup_insert_eq. cbn. lia.
    + rewrite Hp, Hl. lia.
  - intros (E & Ek & Hlt & _). destruct (Z.leb_spec (P_JoinId pt) j); cbn.
    + rewrite lookup_delete_eq, lookup_insert_eq. cbn. lia.
    + rewrite Hp, lookup_insert_eq. split_and!; [done|done|lia|]. intros l' [= <-]. cbn. lia.
  - intros [Hle El]. cbn. rewrite Hp, lookup_insert_eq. cbn. lia.
Qed.

Lemma run_presence_inv tr key :
  Forall id_ok tr -> key_inv (run_presence tr) key (highest (join_of key) tr) (highest (leave_of key) tr).
Proof.
  unfold run_presence. induction tr as [|e tr IH] using rev_ind; intros Hok.
  - unfold key_inv. cbn. by rewrite !lookup_empty.
  - apply Forall_app in Hok as [Hok He]. specialize (IH Hok). inversion He as [|? ? Hid _]; subst.
    rewrite fold_left_app, !highest_snoc. cbn [fold_left].
    pose proof (highest_ge (join_of key) tr). pose proof (highest_ge (leave_of key) tr).
    destruct e as [p|uid sid j now]; cbn [apply_presence join_of leave_of id_ok] in *.
    + destruct (decide (key_of p = key)) as [<-|Hne].
      * replace (Z.max (highest (leave_of (key_of p)) tr) _) with (highest (leave_of (key_of p)) tr) by lia.
        rewrite (Z.max_l (P_JoinId p)) by lia. by apply Add_key_inv.
      * rewrite !Z.max_l by lia. destruct (Add_other (fold_left apply_presence tr no_participants) p key Hne).
        by eapply key_inv_ext.
    + destruct (decide ((uid, sid) = key)) as [<-|Hne].
      * replace (Z.max (highest (join_of (uid, sid)) tr) _) with (highest (join_of (uid, sid)) tr) by lia.
        rewrite (Z.max_l j) by lia. by apply Remove_key_inv.
      * rewrite !Z.max_l by lia.
        destruct (Remove_other now (fold_left apply_presence tr no_participants) uid sid j key Hne). by eapply key_inv_ext.
Qed.

Lemma presence_converge tr tr' key :
  Forall id_ok tr -> tr ≡ₚ tr' ->
  (is_Some (participants (run_presence tr) !! key) <->
     (highest (leave_of key) tr < highest (join_of key) tr)%Z) /\
  (forall p, participants (run_presence tr) !! key = Some p ->
     key_of p = key /\ P_JoinId p = highest (join_of key) tr) /\
  P_JoinId <$> participants (run_presence tr) !! key = P_JoinId <$> participants (run_presence tr') !! key.
Proof.
  intros Hok Hp. pose proof (run_presence_inv tr key Hok) as Hi.
  assert (Forall id_ok tr') as Hok' by (by rewrite <- Hp).
  pose proof (run_presence_inv tr' key Hok') as Hi'.
  rewrite <- (highest_perm _ _ _ Hp), <- (highest_perm (leave_of key) _ _ Hp) in Hi'. unfold key_inv in *.
  destruct (participants (run_presence tr) !! key) as [pt|], (participants (run_presence tr') !! key) as [pt'|].
  - destruct Hi as (E & Ek & Hlt & _), Hi' as (E' & _). split; [split; [done|eauto]|].
    split; [intros p [= <-]; done|]. cbn. congruence.
  - destruct Hi as (_ & _ & Hlt & _), Hi' as [Hle _]. lia.
  - destruct Hi' as (_ & _ & Hlt & _), Hi as [Hle _]. lia.
  - destruct Hi as [Hle _]. split; [|done]. split; [by intros [? ?] | lia].
Qed.

(** *** The box keeps, for each room, what the messages of the room say *)

Definition fresh (t0 : Z) (ps : Participants) : Prop :=
  forall key l, leaves ps !! key = Some l -> (t0 <= timestamp l)%Z.

Lemma Clean_fresh now t0 ps :
  fresh t0 ps -> (now <= t0 + Minute)%Z ->
  (Clean now ps).1 = ps /\ ((Clean now ps).2 = true -> ps = no_participants).
Proof.
  intros Hf Hn. destruct ps as [ps ls]. unfold Clean, fresh in *. cbn in *.
  assert (filter (fun kv : ParticipantKey * LeavedInfo => (now - timestamp kv.2 <= Minute)%Z) ls = ls) as ->.
  { apply map_filter_id. intros k l Hl. cbn. specialize (Hf k l Hl). lia. }
  split; [done|]. rewrite andb_true_iff, !bool_decide_eq_true. by intros [-> ->].
Qed.

Lemma clean_view {Cb} now t0 (box : ParticipantsBox (Cb := Cb)) room :
  (forall r, fresh t0 (room_view box r)) -> (now <= t0 + Minute)%Z -> room_view (clean now box) room = room_view box room.
Proof.
  intros Hf Hn. unfold clean. cbn [iter]. case_match; [|done]. unfold room_view in *. cbn [box_participants].
  specialize (Hf room). rewrite lookup_omap. destruct (box_participants box !! room) as [ps|]; [|done].
  cbn [from_option id] in *. destruct (Clean_fresh now t0 ps Hf Hn) as [E1 E2].
  destruct (Clean now ps) as [ps' e] eqn:E. cbn [fst snd] in *. subst ps'. cbn [mbind option_bind]. rewrite E.
  destruct e; [symmetry; by apply E2|done].
Qed.

Lemma presence_fresh t0 ps e :
  fresh t0 ps -> match e with PJoin _ => True | PLeave _ _ _ now => (t0 <= now)%Z end -> fresh t0 (apply_presence ps e).
Proof.
  intros Hf He key l. destruct e as [p|uid sid j now]; unfold apply_presence, Add, Remove; repeat case_match; cbn; try apply Hf;
    rewrite ?lookup_insert_Some, ?lookup_delete_Some; naive_solver.
Qed.

Lemma join_view {Cb} keep range_cbs (box : ParticipantsBox (Cb := Cb)) msg room :
  room_view (ProcessJoinCbs keep range_cbs box msg).1 room =
  if decide (GetRoom (Some msg) = room) then (Add (room_view box room) (participant_of msg)).1 else room_view box room.
Proof.
  unfold ProcessJoinCbs, room_view. destruct (Add _ _) as [ps added] eqn:E.
  destruct (if added then _ else _) as [chs calls]. cbn [fst box_participants].
  destruct (decide _) as [<-|Hne]; [by rewrite lookup_insert_eq, E | by rewrite lookup_insert_ne].
Qed.

Lemma leave_view {Cb} keep range_cbs now t0 (box : ParticipantsBox (Cb := Cb)) msg room :
  (forall r, fresh t0 (room_view box r)) -> (t0 <= now <= t0 + Minute)%Z ->
  room_view (ProcessLeaveCbs keep range_cbs now box msg).1 room =
  if decide (GetRoom (Some msg) = room)
  then (Remove now (room_view box room) (StateLeave_UserId msg) (StateLeave_SocketId msg) (StateLeave_JoinId msg)).1
  else room_view box room.
Proof.
  intros Hf Hn. unfold ProcessLeaveCbs. destruct (Remove _ _ _ _ _) as [ps pt] eqn:E.
  set (box1 := {| box_participants := <[GetRoom (Some msg) := ps]> (box_participants box) |}).
  assert (forall r, room_view box1 r = if decide (GetRoom (Some msg) = r)
    then (Remove now (room_view box r) (StateLeave_UserId msg) (StateLeave_SocketId msg) (StateLeave_JoinId msg)).1
    else room_view box r) as H1.
  { intros r. unfold room_view, box1. cbn [box_participants].
    destruct (decide _) as [<-|Hne]; [by rewrite lookup_insert_eq, E | by rewrite lookup_insert_ne]. }
  rewrite <- H1, <- (clean_view now t0 box1 room); [|intros r; rewrite H1; case_match; [|done]|lia].
  - unfold room_view. by repeat case_match.
  - apply (presence_fresh t0 (room_view box r) (PLeave _ _ _ _)); [done|lia].
Qed.

Lemma run_box_view {Cb} keep range_cbs t0 (box : ParticipantsBox (Cb := Cb)) tr room :
  (forall r, room_view box r = no_participants) -> Forall (event_ok t0) tr ->
  room_view (fold_left (apply_event keep range_cbs) tr box) room = run_presence (omap (presence_of room) tr).
Proof.
  intros Hb Hok. enough (forall r, room_view (fold_left (apply_event keep range_cbs) tr box) r = run_presence (omap (presence_of r) tr) /\
    fresh t0 (room_view (fold_left (apply_event keep range_cbs) tr box) r)) as H by apply H.
  induction tr as [|e tr IH] using rev_ind; intros r; [rewrite Hb; split; [done|by intros ? ? ?]|].
  apply Forall_app in Hok as [Hok He]. specialize (IH Hok). inversion He as [|? ? Hid _]; subst.
  rewrite fold_left_app, omap_app. unfold run_presence in *. rewrite fold_left_app, <- (proj1 (IH r)). cbn [fold_left].
  set (b := fold_left (apply_event keep range_cbs) tr box) in *.
  assert (room_view (apply_event keep range_cbs b e) r = fold_left apply_presence (omap (presence_of r) [e]) (room_view b r)) as ->.
  { destruct e as [msg|now msg]; cbn [apply_event omap list_omap presence_of].
    - rewrite join_view. by case_match.
    - rewrite (leave_view keep range_cbs now t0); [by case_match|apply IH|apply Hid]. }
  split; [done|]. destruct e as [msg|now msg]; cbn [omap list_omap presence_of]; destruct (decide _); try apply IH;
    (apply presence_fresh; [apply IH|try done; apply Hid]).
Qed.

Lemma presence_ids t0 room tr : Forall (event_ok t0) tr -> Forall id_ok (omap (presence_of room) tr).
Proof.
  induction 1 as [|e tr He _ IH]; [constructor|]. destruct e as [msg|now msg]; cbn in *;
    (destruct (decide _); [constructor; [cbn; lia|done]|done]).
Qed.

(** ** Properties *)

(** C14. Within the minute for which departures are remembered, and whatever
    callbacks are registered: however the join and leave messages of all rooms
    are ordered, delayed and repeated, a client is known as a participant of a
    room exactly when the highest join id announced for it there exceeds the
    highest one it left with, and then it is known with that join id; so two
    clients that got the same messages in different orders know the same
    participants, up to what is not in the key and the join id. *)
Theorem participants_converge {Cb} (keep : Cb -> option Participant -> bool) (range_cbs : gmap Z Cb -> list (Z * Cb)) (box : ParticipantsBox (Cb := Cb)) t0 tr tr' room key :
  box_participants box = ∅ -> Forall (event_ok t0) tr -> tr ≡ₚ tr' ->
  let known tr := participants (room_view (fold_left (apply_event keep range_cbs) tr box) room) !! key in
  let said := omap (presence_of room) tr in
  (is_Some (known tr) <-> (highest (leave_of key) said < highest (join_of key) said)%Z) /\
  (forall p, known tr = Some p -> key_of p = key /\ P_JoinId p = highest (join_of key) said) /\
  P_JoinId <$> known tr = P_JoinId <$> known tr'.
Proof.
  intros Hb Hok Hp. assert (Forall (event_ok t0) tr') as Hok' by (by rewrite <- Hp).
  assert (forall r, room_view box r = no_participants) as Hv by (intros r; unfold room_view; by rewrite Hb, lookup_empty).
  cbv beta zeta. rewrite !(run_box_view keep range_cbs t0) by done.
  apply (presence_converge _ _ key (presence_ids t0 room tr Hok)). by rewrite Hp.
Qed.

(** The acknowledgement of a message sent to a client, or to the whole
    room, finds the caller that waits for it exactly once: it is answered and
    its entry is gone; an answer for another room or message id finds nobody
    else's entry. *)
Theorem ack_found_once {W} (m : gmap AckKey W) room to from id a :
  m !! (room, to, id) = None -> m !! (room, from, id) = None -> m !! (room, "", id) = None -> to = from \/ to = "" ->
  PopCustomAckMsgCh (PushCustomAckMsgCh m room to id a) room from id = (m, Some a) /\
  PopCustomAckMsgCh m room from id = (m, None) /\
  forall room' from' id', (room', id') <> (room, id) ->
    (PopCustomAckMsgCh (PushCustomAckMsgCh m room to id a) room' from' id').2 = (PopCustomAckMsgCh m room' from' id').2.
Proof.
  intros Hn Hf He Hto. unfold PopCustomAckMsgCh, PushCustomAckMsgCh. split; [|split].
  - destruct (decide (to = from)) as [->|Hne].
    + rewrite lookup_insert_eq. by rewrite delete_insert_id.
    + destruct Hto as [Heq | ->]; [done|]. rewrite lookup_insert_ne by congruence. rewrite Hf, lookup_insert_eq.
      by rewrite delete_insert_id.
  - by rewrite Hf, He.
  - intros room' from' id' Hne. rewrite !lookup_insert_ne by congruence. by repeat case_match.
Qed.

(** ** Where the code does not do what it means to *)

(** A leave callback is called also when nobody left: here the client
    joined again before the message about its first departure arrived; the
    participant stays, and the callback is called with nil. *)
Theorem leave_callback_on_stale_leave :
  let joined := {| StateParticipant_Router := Some (Build_Router "r" "" "" "" ""); StateParticipant_UserId := "u";
    StateParticipant_UserName := "ann"; StateParticipant_SocketId := "s"; StateParticipant_JoinId := 2 |} in
  let left := {| StateLeave_Router := Some (Build_Router "r" "" "" "" ""); StateLeave_UserId := "u";
    StateLeave_SocketId := "s"; StateLeave_JoinId := 1 |} in
  let box := (ProcessJoinCbs (fun _ _ => true) map_to_list (AddLeaveCallback mewParticipantsBox "r" "cb").1 joined).1 in
  let '(box', calls) := ProcessLeaveCbs (fun _ _ => true) map_to_list 0 box left in
  calls = [("cb", None)] /\ is_Some (box_participants box' !! "r" ≫= fun p => participants p !! ("u", "s")).
Proof. vm_compute. split; [reflexivity|eauto]. Qed.

(** ** Witnesses *)

Definition ann_in (j : Z) : state_event :=
  EJoin {| StateParticipant_Router := Some (Build_Router "r" "" "" "" ""); StateParticipant_UserId := "u";
    StateParticipant_UserName := "ann"; StateParticipant_SocketId := "s"; StateParticipant_JoinId := j |}.
Definition ann_out (now j : Z) : state_event :=
  ELeave now {| StateLeave_Router := Some (Build_Router "r" "" "" "" ""); StateLeave_UserId := "u";
    StateLeave_SocketId := "s"; StateLeave_JoinId := j |}.

Lemma participants_converge_witness :
  let run tr := fold_left (apply_event (fun (_ : string) _ => true) map_to_list) tr mewParticipantsBox in
  is_Some (participants (room_view (run [ann_out 5 1; ann_in 2; ann_in 1]) "r") !! ("u", "s")) /\
  P_JoinId <$> participants (room_view (run [ann_out 5 1; ann_in 2; ann_in 1]) "r") !! ("u", "s") =
  P_JoinId <$> participants (room_view (run [ann_in 2; ann_out 5 1; ann_in 1]) "r") !! ("u", "s").
Proof.
  destruct (participants_converge (fun (_ : string) _ => true) map_to_list mewParticipantsBox 0 [ann_out 5 1; ann_in 2; ann_in 1]
    [ann_in 2; ann_out 5 1; ann_in 1] "r" ("u", "s")) as (Hs & _ & He).
  - reflexivity.
  - unfold Minute; repeat constructor; cbn; unfold Minute; lia.
  - constructor.
  - split; [apply Hs; vm_compute; reflexivity|exact He].
Defined.

Lemma ack_found_once_witness :
  PopCustomAckMsgCh (PushCustomAckMsgCh ∅ "r" "" 1 "caller") "r" "s" 1 = (∅, Some "caller").
Proof.
  apply (ack_found_once ∅ "r" "" "s" 1 "caller").
  - reflexivity.
  - reflexivity.
  - reflexivity.
  - right. reflexivity.
Defined.
