(* ===== verification/WaitPart.v ===== *)
(** * WaitPart: waiting for a participant ([client/websocket.go])

    [WaitParticipant] registers a callback, looks whether the participant is there, and otherwise waits until the
    callback closes its channel.  Calls of it, callbacks of the application, and the messages about a room interleave;
    each access of the participants is under their mutex and is one step. *)
From S2P Require Import Prelude GoStrings Collection Pattern Messages Client.
From Stdlib Require Import Sorting.Permutation.
Local Open Scope string_scope.
Local Open Scope list_scope.

(** The callbacks: that of the [i]th call, which waits for [uid], or one of the application. *)
Inductive jcb := WaitFor (i : nat) (uid : string) | AppCb (n : nat).
#[global] Instance jcb_eq_dec : EqDecision jcb.
Proof. solve_decision. Defined.

(** The points of a call: after the registration, in the [select], after it, and before and after the deferred
    [OffParticipantJoin] with the result. *)
Inductive wpoint := Checks | Waits | Looks | Offs (r : option Participant) | Back (r : option Participant).

Record waiter := { w_room : string; w_uid : string; w_id : Z; w_at : wpoint; w_open : bool }.
Record wsys := { box : ParticipantsBox (Cb := jcb); waiters : list waiter }.

Definition wsys0 : wsys := {| box := mewParticipantsBox; waiters := [] |}.

Section Wait.
(** What the callbacks of the application answer, and the orders of the maps. *)
Context (app_keep : nat -> option Participant -> bool) (range_cbs : gmap Z jcb -> list (Z * jcb)).
Context (range : gmap ParticipantKey Participant -> list (ParticipantKey * Participant)).

(** The answer of a callback: that of [WaitParticipant] is removed once it has closed its channel. *)
Definition keep (cb : jcb) (p : option Participant) : bool :=
  match cb, p with
  | WaitFor _ uid, Some p => bool_decide (P_Id p <> uid)
  | WaitFor _ _, None => true
  | AppCb n, p => app_keep n p
  end.

Definition set_at (x : wpoint) (w : waiter) : waiter :=
  {| w_room := w_room w; w_uid := w_uid w; w_id := w_id w; w_at := x; w_open := w_open w |}.
Definition close_ch (w : waiter) : waiter :=
  {| w_room := w_room w; w_uid := w_uid w; w_id := w_id w; w_at := w_at w; w_open := false |}.

(** The callbacks called with a participant. *)
Fixpoint close_all (p : Participant) (cbs : list jcb) (ws : list waiter) : run (list waiter) :=
  match cbs with
  | [] => Ret ws
  | WaitFor i uid :: cbs =>
      if decide (P_Id p = uid) then
        match ws !! i with
        | Some w => if w_open w then close_all p cbs (<[i := close_ch w]> ws) else go_panic (PMsg "close of closed channel")
        | None => go_panic PNilDeref
        end
      else close_all p cbs ws
  | AppCb _ :: cbs => close_all p cbs ws
  end.

(** The start of a call. *)
Definition wait_start (room uid : string) (s : wsys) : wsys :=
  let '(b, id) := AddJoinCallback (box s) room (WaitFor (length (waiters s)) uid) in
  {| box := b; waiters := waiters s ++ [{| w_room := room; w_uid := uid; w_id := id; w_at := Checks; w_open := true |}] |}.

Definition goto (i : nat) (x : wpoint) (w : waiter) (s : wsys) : wsys := {| box := box s; waiters := <[i := set_at x w]> (waiters s) |}.

(** A step of a call; [ctx] says that its context is done. [None] when it waits or has returned. *)
Definition wait_step (i : nat) (ctx : bool) (s : wsys) : option wsys :=
  w ← waiters s !! i;
  match w_at w with
  | Checks =>
      Some (match box_FindOneByUser range (box s) (w_room w) (w_uid w) with
            | Some p => goto i (Offs (Some p)) w s
            | None => goto i Waits w s
            end)
  | Waits => if ctx || negb (w_open w) then Some (goto i Looks w s) else None
  | Looks => Some (goto i (Offs (box_FindOneByUser range (box s) (w_room w) (w_uid w))) w s)
  | Offs r => Some {| box := RemoveJoinCallback (box s) (w_room w) (w_id w); waiters := <[i := set_at (Back r) w]> (waiters s) |}
  | Back _ => None
  end.

(** The handlers of "participant-join" and "participant-leave": a message that cannot be decoded is dropped. *)
Definition on_join (m : StateParticipantMessage + gerror) (s : wsys) : run wsys :=
  match m with
  | inr _ => Ret s
  | inl msg =>
      let '(b, calls) := ProcessJoinCbs keep range_cbs (box s) msg in
      ws ← close_all (participant_of msg) calls.*1 (waiters s);
      Ret {| box := b; waiters := ws |}
  end.
Definition on_leave (now : Z) (m : StateLeaveMessage + gerror) (s : wsys) : wsys :=
  match m with
  | inr _ => s
  | inl msg => {| box := (ProcessLeaveCbs keep range_cbs now (box s) msg).1; waiters := waiters s |}
  end.

(** The application registers a callback. *)
Definition app_on (room : string) (n : nat) (s : wsys) : wsys := {| box := (AddJoinCallback (box s) room (AppCb n)).1; waiters := waiters s |}.

(** What happens; the ids of callbacks do not wrap. *)
Inductive wmove (s : wsys) : run wsys -> Prop :=
  | wm_start room uid : (next_join_id (box s) < 2 ^ 63 - 1)%Z -> wmove s (Ret (wait_start room uid s))
  | wm_app room n : (next_join_id (box s) < 2 ^ 63 - 1)%Z -> wmove s (Ret (app_on room n s))
  | wm_step i ctx s' : wait_step i ctx s = Some s' -> wmove s (Ret s')
  | wm_join m : wmove s (on_join m s)
  | wm_leave now m : wmove s (Ret (on_leave now m s)).

Inductive wreach : wsys -> Prop :=
  | wr_nil : wreach wsys0
  | wr_step s s' : wreach s -> wmove s (Ret s') -> wreach s'.

(** ** The invariant *)

Context (range_cbs_perm : forall m, range_cbs m ≡ₚ map_to_list m) (range_perm : forall m, range m ≡ₚ map_to_list m).

(** What is registered for a room under an id. *)
Definition reg (b : ParticipantsBox (Cb := jcb)) (room : string) (id : Z) : option jcb := join_chs b !! room ≫= (.!! id).

Definition is_back (x : wpoint) : bool := match x with Back _ => true | _ => false end.
Definition result (x : wpoint) : option Participant := match x with Offs r | Back r => r | _ => None end.

(** Nobody of a room has the user id. *)
Definition absent (b : ParticipantsBox (Cb := jcb)) (room uid : string) : Prop :=
  forall sid, participants (room_view b room) !! (uid, sid) = None.

Record winv (s : wsys) : Prop := {
  wi_reg room id i uid : reg (box s) room id = Some (WaitFor i uid) ->
    exists w, waiters s !! i = Some w /\ w_room w = room /\ w_id w = id /\ w_uid w = uid /\ w_open w = true /\ is_back (w_at w) = false;
  wi_open i w : waiters s !! i = Some w -> w_open w = true -> is_back (w_at w) = false ->
    reg (box s) (w_room w) (w_id w) = Some (WaitFor i (w_uid w));
  wi_next room id cb : reg (box s) room id = Some cb -> (0 <= id < next_join_id (box s))%Z;
  wi_id i w : waiters s !! i = Some w -> (0 <= w_id w < next_join_id (box s))%Z;
  wi_uniq i j w v : waiters s !! i = Some w -> waiters s !! j = Some v -> w_id w = w_id v -> i = j;
  wi_bound : (0 <= next_join_id (box s) < 2 ^ 63)%Z;
  wi_waits i w : waiters s !! i = Some w -> w_at w = Waits -> w_open w = true -> absent (box s) (w_room w) (w_uid w);
  wi_result i w p : waiters s !! i = Some w -> result (w_at w) = Some p -> P_Id p = w_uid w;
  wi_keys room key p : participants (room_view (box s) room) !! key = Some p -> P_Id p = key.1
}.

Lemma winv0 : winv wsys0.
Proof using Type. by split. Qed.

(** ** Channels are closed once *)

Definition waits_of (cb : jcb) : option nat := match cb with WaitFor i _ => Some i | AppCb _ => None end.

Lemma waits_of_in i u (cbs : list jcb) : WaitFor i u ∈ cbs -> i ∈ omap waits_of cbs.
Proof using Type. intros Hi. apply list_elem_of_omap. by exists (WaitFor i u). Qed.

Lemma close_all_ok p (cbs : list jcb) : forall ws,
  NoDup (omap waits_of cbs) -> (forall i, WaitFor i (P_Id p) ∈ cbs -> exists w, ws !! i = Some w /\ w_open w = true) ->
  exists ws', close_all p cbs ws = Ret ws' /\
    (forall i, WaitFor i (P_Id p) ∈ cbs -> ws' !! i = close_ch <$> ws !! i) /\
    (forall i, WaitFor i (P_Id p) ∉ cbs -> ws' !! i = ws !! i).
Proof using Type.
  induction cbs as [|cb cbs IH]; intros ws Hn Ho; cbn [close_all].
  - exists ws. split; [done|]. split; [intros i Hi; by apply not_elem_of_nil in Hi|done].
  - assert (NoDup (omap waits_of cbs)) as Hn' by (destruct cb; cbn in Hn; [by apply NoDup_cons in Hn as [_ Hn]|done]).
    destruct (decide (cb = WaitFor (default 0 (waits_of cb)) (P_Id p))) as [E|E].
    + rewrite E. destruct cb as [i uid|n]; [|done]. cbn [waits_of default id] in *. injection E as ->. rewrite decide_True by done.
      cbn in Hn. apply NoDup_cons in Hn as [Hi _]. destruct (Ho i ltac:(left)) as (w & Hw & Hop). rewrite Hw, Hop.
      destruct (IH (<[i := close_ch w]> ws) Hn') as (ws' & -> & H1 & H2).
      { intros j Hj. rewrite list_lookup_insert_ne by (intros <-; by apply waits_of_in in Hj). apply Ho. by right. }
      exists ws'. split; [done|]. split.
      * intros j Hj. apply elem_of_cons in Hj as [[= ->]|Hj].
        -- rewrite H2 by (intros Hx; by apply waits_of_in in Hx). rewrite list_lookup_insert_eq by (by eapply lookup_lt_Some). by rewrite Hw.
        -- rewrite H1 by done. rewrite list_lookup_insert_ne; [done|]. intros <-. by apply waits_of_in in Hj.
      * intros j Hj. apply not_elem_of_cons in Hj as [Hne Hj]. rewrite H2 by done. rewrite list_lookup_insert_ne; [done|]. by intros <-.
    + assert (close_all p (cb :: cbs) ws = close_all p cbs ws) as Ec.
      { destruct cb as [i uid|n]; [|done]. cbn. rewrite decide_False; [done|]. intros <-. by apply E. }
      cbn [close_all] in Ec. rewrite Ec. destruct (IH ws Hn') as (ws' & -> & H1 & H2); [intros j Hj; apply Ho; by right|].
      exists ws'. split; [done|]. split.
      * intros j Hj. apply elem_of_cons in Hj as [<-|Hj]; [by destruct E|by apply H1].
      * intros j Hj. apply not_elem_of_cons in Hj as [_ Hj]. by apply H2.
Qed.

(** ** Registering and joining *)

Lemma reg_add b room cb room' id' :
  reg (AddJoinCallback b room cb).1 room' id' = if decide (room' = room /\ id' = next_join_id b) then Some cb else reg b room' id'.
Proof using Type.
  unfold reg, AddJoinCallback. cbn. destruct (decide (room' = room)) as [->|Hr].
  - rewrite lookup_insert_eq. cbn. destruct (decide (id' = next_join_id b)) as [->|Hi].
    + rewrite decide_True by done. by rewrite lookup_insert_eq.
    + rewrite decide_False by naive_solver. rewrite lookup_insert_ne by done. by destruct (join_chs b !! room).
  - rewrite decide_False by naive_solver. by rewrite lookup_insert_ne.
Qed.

Lemma reg_remove b room id room' id' :
  reg (RemoveJoinCallback b room id) room' id' = if decide (room' = room /\ id' = id) then None else reg b room' id'.
Proof using Type.
  unfold reg, RemoveJoinCallback. cbn. destruct (decide (room' = room)) as [->|Hr].
  - rewrite lookup_alter_eq. destruct (join_chs b !! room) as [m|]; cbn; [|by case_decide]. destruct (decide (id' = id)) as [->|Hi].
    + rewrite decide_True by done. by rewrite lookup_delete_eq.
    + rewrite decide_False by naive_solver. by rewrite lookup_delete_ne.
  - rewrite decide_False by naive_solver. by rewrite lookup_alter_ne.
Qed.

Lemma Add_participants ps p :
  participants (Add ps p).1 = if (Add ps p).2 then <[key_of p := p]> (participants ps) else participants ps.
Proof using Type. unfold Add. by repeat case_match. Qed.

Definition added (b : ParticipantsBox (Cb := jcb)) (msg : StateParticipantMessage) : bool :=
  (Add (room_view b (GetRoom (Some msg))) (participant_of msg)).2.

Lemma join_reg b msg room id :
  reg (ProcessJoinCbs keep range_cbs b msg).1 room id =
  if decide (room = GetRoom (Some msg) /\ added b msg = true)
  then cb ← reg b room id; if keep cb (Some (participant_of msg)) then Some cb else None
  else reg b room id.
Proof using Type.
  unfold ProcessJoinCbs, added, reg, room_view. destruct (Add _ _) as [ps ad]. cbn [snd]. destruct ad; [|by rewrite decide_False by naive_solver].
  destruct (join_chs b !! GetRoom (Some msg)) as [m|] eqn:Hm; cbn.
  - case_decide as E; [destruct E as [-> _]; rewrite lookup_insert_eq, Hm; cbn|rewrite lookup_insert_ne by naive_solver; done].
    rewrite map_lookup_filter. destruct (m !! id) as [cb|]; cbn; [|done]. case_guard as G; destruct (keep cb _); done.
  - case_decide as E; [|done]. destruct E as [-> _]. by rewrite Hm.
Qed.

Lemma join_calls b msg cb :
  cb ∈ (ProcessJoinCbs keep range_cbs b msg).2.*1 <-> added b msg = true /\ exists id, reg b (GetRoom (Some msg)) id = Some cb.
Proof using range_cbs_perm.
  unfold ProcessJoinCbs, added, reg, room_view. destruct (Add _ _) as [ps ad]. cbn [snd]. destruct ad.
  2:{ cbn. split; [intros Hx; by apply not_elem_of_nil in Hx|by intros [? _]]. }
  destruct (join_chs b !! GetRoom (Some msg)) as [m|]; cbn.
  2:{ split; [intros Hx; by apply not_elem_of_nil in Hx|intros (_ & id & Hx); done]. }
  rewrite <- list_fmap_compose, list_elem_of_fmap. split.
  - intros ([id c] & -> & Hx). split; [done|]. rewrite range_cbs_perm in Hx. apply elem_of_map_to_list in Hx. by exists id.
  - intros (_ & id & Hx). exists (id, cb). split; [done|]. rewrite range_cbs_perm. by apply elem_of_map_to_list.
Qed.

Lemma NoDup_omap {A B C} (f : B -> option C) (l : list (A * B)) :
  NoDup l.*1 -> (forall x y c, x ∈ l -> y ∈ l -> f x.2 = Some c -> f y.2 = Some c -> x.1 = y.1) -> NoDup (omap f l.*2).
Proof using Type.
  induction l as [|[a b] l IH]; cbn; intros Hn Hf; [constructor|]. apply NoDup_cons in Hn as [Ha Hn].
  assert (NoDup (omap f l.*2)) as Hl by (apply IH; [done|]; intros x y c Hx Hy; apply (Hf x y c); by right).
  destruct (f b) as [c|] eqn:Hb; [|done]. apply NoDup_cons. split; [|done]. intros Hc. apply list_elem_of_omap in Hc as (b' & Hb' & Hc).
  apply list_elem_of_fmap in Hb' as ([a' b''] & -> & Hin). apply Ha. assert (a = a') as ->.
  { apply (Hf (a, b) (a', b'') c); [by left|by right|done|done]. }
  by apply (list_elem_of_fmap_2 fst) in Hin.
Qed.

Lemma calls_nodup s msg : winv s -> NoDup (omap waits_of (ProcessJoinCbs keep range_cbs (box s) msg).2.*1).
Proof using range_cbs_perm.
  intros I. pose proof (fun id i u => wi_reg s I (GetRoom (Some msg)) id i u) as Hr. unfold reg in Hr.
  unfold ProcessJoinCbs. destruct (Add _ _) as [ps ad]. destruct ad; [|constructor].
  destruct (join_chs (box s) !! GetRoom (Some msg)) as [m|]; cbn in *; [|constructor].
  rewrite <- list_fmap_compose. change (NoDup (omap waits_of (range_cbs m).*2)). apply NoDup_omap.
  - rewrite range_cbs_perm. apply NoDup_fst_map_to_list.
  - intros [id1 [i1 u1|]] [id2 [i2 u2|]] c H1 H2 E1 E2; try done. cbn in *. assert (i2 = i1) as -> by congruence.
    rewrite range_cbs_perm in H1, H2. apply elem_of_map_to_list in H1, H2.
    destruct (Hr id1 i1 u1 H1) as (w & Hw & _ & Hid & _). destruct (Hr id2 i1 u2 H2) as (w' & Hw' & _ & Hid' & _). congruence.
Qed.

(** A departure takes participants away, and nothing else. *)
Lemma Remove_sub now ps uid sid j key p : participants (Remove now ps uid sid j).1 !! key = Some p -> participants ps !! key = Some p.
Proof using Type. unfold Remove. repeat case_match; cbn; rewrite ?lookup_delete_Some; naive_solver. Qed.

Lemma leave_sub now b msg room key p :
  participants (room_view (ProcessLeaveCbs keep range_cbs now b msg).1 room) !! key = Some p -> participants (room_view b room) !! key = Some p.
Proof using Type.
  unfold ProcessLeaveCbs. destruct (Remove _ _ _ _ _) as [ps q] eqn:E. set (b1 := {| box_participants := _ |}).
  assert (forall r, participants (room_view b1 r) !! key = Some p -> participants (room_view b r) !! key = Some p) as H1.
  { intros r. unfold b1, room_view. cbn. destruct (decide (GetRoom (Some msg) = r)) as [<-|Hr]; [|by rewrite lookup_insert_ne].
    rewrite lookup_insert_eq. cbn. intros Hp. eapply (Remove_sub now). rewrite E. exact Hp. }
  intros Hp. apply H1. revert Hp. unfold room_view at 1.
  assert (forall x y, participants (default no_participants (box_participants (let '(chs, calls) := x in
    ({| box_participants := box_participants (clean now b1); next_join_id := next_join_id (clean now b1); join_chs := join_chs (clean now b1);
        next_leave_id := next_leave_id (clean now b1); leave_cbs := chs; iter := iter (clean now b1) |}, calls) : _ * list (jcb * option Participant)).1 !! room)) !! key = y ->
    participants (default no_participants (box_participants (clean now b1) !! room)) !! key = y) as H2 by (by intros [] y).
  intros Hp. apply H2 in Hp. revert Hp. unfold clean, room_view. cbn [box_participants iter]. destruct (_ =? 0)%Z; [|done].
  rewrite lookup_omap. destruct (box_participants b1 !! room) as [ps1|]; cbn; [|done].
  destruct (_ && _); cbn; [by rewrite lookup_empty|done].
Qed.

Lemma leave_reg now b msg room id : reg (ProcessLeaveCbs keep range_cbs now b msg).1 room id = reg b room id.
Proof using Type. unfold ProcessLeaveCbs. destruct (Remove _ _ _ _ _). by case_match. Qed.
Lemma leave_next now b msg : next_join_id (ProcessLeaveCbs keep range_cbs now b msg).1 = next_join_id b.
Proof using Type. unfold ProcessLeaveCbs. destruct (Remove _ _ _ _ _). by case_match. Qed.
Lemma join_next b msg : next_join_id (ProcessJoinCbs keep range_cbs b msg).1 = next_join_id b.
Proof using Type. unfold ProcessJoinCbs. destruct (Add _ _) as [ps ad]. by repeat case_match. Qed.

Lemma find_spec b room uid :
  match box_FindOneByUser range b room uid with
  | Some p => exists sid, participants (room_view b room) !! (uid, sid) = Some p
  | None => absent b room uid
  end.
Proof using range_perm.
  unfold box_FindOneByUser, absent, room_view, FindOneByUser. destruct (box_participants b !! room) as [ps|]; cbn.
  2:{ intros sid. by rewrite lookup_empty. }
  destruct (filter _ _) as [|[[u sid] p] l] eqn:E; cbn.
  - intros sid. destruct (participants ps !! (uid, sid)) as [p|] eqn:Hp; [|done].
    match type of E with ?l = _ => assert ((uid, sid, p) ∈ l) as Hin end.
    { apply list_elem_of_filter. split; [done|]. rewrite range_perm. by apply elem_of_map_to_list. }
    rewrite E in Hin. by apply not_elem_of_nil in Hin.
  - match type of E with ?l = _ => assert ((u, sid, p) ∈ l) as Hin by (rewrite E; left) end.
    apply list_elem_of_filter in Hin as [Hu Hin]. cbn in Hu. subst u. rewrite range_perm in Hin. apply elem_of_map_to_list in Hin. by exists sid.
Qed.

(** ** Every step keeps the invariant *)

Lemma goto_inv i x w s :
  winv s -> waiters s !! i = Some w -> is_back (w_at w) = false -> is_back x = false ->
  (x = Waits -> absent (box s) (w_room w) (w_uid w)) -> (forall p, result x = Some p -> P_Id p = w_uid w) -> winv (goto i x w s).
Proof using Type.
  intros [J1 J2 J3 J4 J5 J6 J7 J8 J9] Hi Hb Hx Hw Hr. assert (i < length (waiters s))%nat as Hl by (by eapply lookup_lt_Some).
  split; cbn [goto box waiters]; try done.
  - intros room id j uid Hj. destruct (J1 room id j uid Hj) as (v & Hv & Ev). destruct (decide (i = j)) as [<-|Hij].
    + assert (v = w) as -> by congruence. exists (set_at x w). rewrite list_lookup_insert_eq by done. split; [done|]. cbn. destruct Ev as (E1 & E2 & E3 & E4 & _). by split_and!.
    + exists v. by rewrite list_lookup_insert_ne.
  - intros j v Hj Ho Hbv. apply lookup_put in Hj as [[<- <-]|[Hij Hj]]; [by apply (J2 i w)|by apply J2].
  - intros j v Hj. apply lookup_put in Hj as [[<- <-]|[Hij Hj]]; [by apply (J4 i w)|by apply (J4 j)].
  - intros j k v u Hj Hk E. apply lookup_put in Hj as [[<- <-]|[Hij Hj]]; apply lookup_put in Hk as [[<- <-]|[Hik Hk]]; cbn in E; [done|eauto..].
  - intros j v Hj Ha Ho. apply lookup_put in Hj as [[<- <-]|[Hij Hj]]; [by apply Hw|by apply (J7 j)].
  - intros j v p Hj Hp. apply lookup_put in Hj as [[<- <-]|[Hij Hj]]; [by apply Hr|by apply (J8 j)].
Qed.

Lemma off_inv i r w s :
  winv s -> waiters s !! i = Some w -> w_at w = Offs r ->
  winv {| box := RemoveJoinCallback (box s) (w_room w) (w_id w); waiters := <[i := set_at (Back r) w]> (waiters s) |}.
Proof using Type.
  intros [J1 J2 J3 J4 J5 J6 J7 J8 J9] Hi Ha. split; cbn [box waiters]; try done.
  - intros room id j uid Hj. rewrite reg_remove in Hj. case_decide as E; [done|]. destruct (J1 room id j uid Hj) as (v & Hv & <- & <- & Ev).
    assert (i <> j) as Hij by (intros <-; assert (v = w) as -> by congruence; by apply E). exists v. by rewrite list_lookup_insert_ne.
  - intros j v Hj Ho Hbv. apply lookup_put in Hj as [[<- <-]|[Hij Hj]]; [done|]. rewrite reg_remove, decide_False; [by apply J2|].
    intros [_ E]. by destruct Hij; apply (J5 i j w v).
  - intros room id cb Hr. rewrite reg_remove in Hr. case_decide; [done|]. by apply (J3 room id cb).
  - intros j v Hj. apply lookup_put in Hj as [[<- <-]|[Hij Hj]]; [by apply (J4 i w)|by apply (J4 j)].
  - intros j k v u Hj Hk E. apply lookup_put in Hj as [[<- <-]|[Hij Hj]]; apply lookup_put in Hk as [[<- <-]|[Hik Hk]]; cbn in E; [done|eauto..].
  - intros j v Hj Hv Ho. apply lookup_put in Hj as [[<- <-]|[Hij Hj]]; [done|by apply (J7 j)].
  - intros j v p Hj Hp. apply lookup_put in Hj as [[<- <-]|[Hij Hj]]; [apply (J8 i w); [done|by rewrite Ha]|by apply (J8 j)].
Qed.

Lemma wait_step_inv i ctx s s' : winv s -> wait_step i ctx s = Some s' -> winv s'.
Proof using range_perm.
  intros I Hs. unfold wait_step in Hs. destruct (waiters s !! i) as [w|] eqn:Hi; [|done]. cbn in Hs.
  pose proof (find_spec (box s) (w_room w) (w_uid w)) as Hf. destruct (w_at w) eqn:Ha; [| | | |done].
  - injection Hs as <-. destruct (box_FindOneByUser _ _ _ _) as [p|].
    + destruct Hf as (sid & Hp). apply goto_inv; try done; [by rewrite Ha|]. cbn. intros q [= <-]. by apply (wi_keys s I _ _ _ Hp).
    + by apply goto_inv; [| |rewrite Ha| | |].
  - destruct (ctx || _); [|done]. injection Hs as <-. by apply goto_inv; [| |rewrite Ha| | |].
  - injection Hs as <-. apply goto_inv; try done; [by rewrite Ha|]. cbn. intros q Hq. rewrite Hq in Hf. destruct Hf as (sid & Hp). by apply (wi_keys s I _ _ _ Hp).
  - injection Hs as <-. by apply off_inv.
Qed.

Lemma next_i64 s : winv s -> (next_join_id (box s) < 2 ^ 63 - 1)%Z -> i64 (next_join_id (box s) + 1) = (next_join_id (box s) + 1)%Z.
Proof using Type. intros I Hn. pose proof (wi_bound s I). unfold i64. rewrite Z.mod_small by lia. lia. Qed.

Lemma app_inv room n s : winv s -> (next_join_id (box s) < 2 ^ 63 - 1)%Z -> winv (app_on room n s).
Proof using Type.
  intros I Hn. pose proof (next_i64 s I Hn) as E64. destruct I as [J1 J2 J3 J4 J5 J6 J7 J8 J9]. unfold app_on.
  split; cbn [box waiters]; try done.
  - intros r id i uid Hr. rewrite reg_add in Hr. case_decide; [done|]. by apply J1.
  - intros i w Hi Ho Hb. rewrite reg_add, decide_False; [by apply J2|]. intros [_ E]. pose proof (J4 i w Hi). lia.
  - intros r id cb Hr. cbn [AddJoinCallback fst next_join_id]. rewrite E64. rewrite reg_add in Hr. case_decide as E; [destruct E as [_ ->]; lia|].
    pose proof (J3 r id cb Hr). lia.
  - intros i w Hi. cbn [AddJoinCallback fst next_join_id]. rewrite E64. pose proof (J4 i w Hi). lia.
  - cbn [AddJoinCallback fst next_join_id]. rewrite E64. lia.
Qed.

Lemma start_inv room uid s : winv s -> (next_join_id (box s) < 2 ^ 63 - 1)%Z -> winv (wait_start room uid s).
Proof using Type.
  intros I Hn. pose proof (next_i64 s I Hn) as E64. destruct I as [J1 J2 J3 J4 J5 J6 J7 J8 J9]. unfold wait_start. set (cb := WaitFor _ _).
  change (AddJoinCallback (box s) room cb) with ((AddJoinCallback (box s) room cb).1, next_join_id (box s)). cbv iota.
  set (w0 := {| w_room := room |}).
  assert (forall i w, (waiters s ++ [w0]) !! i = Some w -> waiters s !! i = Some w \/ (i = length (waiters s) /\ w = w0)) as Hinv.
  { intros i w Hi. apply lookup_app_Some in Hi as [Hi|[Hl Hi]]; [by left|]. apply list_lookup_singleton_Some in Hi as [Hz <-]. right. split; [lia|done]. }
  split; cbn [box waiters]; try done.
  - intros r id i u Hr. rewrite reg_add in Hr. case_decide as E.
    + destruct E as [-> ->]. injection Hr as <- <-. exists w0. split; [by apply list_lookup_middle|done].
    + destruct (J1 r id i u Hr) as (w & Hw & Ew). exists w. split; [by apply lookup_app_l_Some|done].
  - intros i w Hi Ho Hb. rewrite reg_add. destruct (Hinv i w Hi) as [Hi'|[-> ->]]; [|by rewrite decide_True].
    rewrite decide_False; [by apply J2|]. intros [_ E]. pose proof (J4 i w Hi'). lia.
  - intros r id c Hr. cbn [AddJoinCallback fst next_join_id]. rewrite E64. rewrite reg_add in Hr. case_decide as E; [destruct E as [_ ->]; lia|].
    pose proof (J3 r id c Hr). lia.
  - intros i w Hi. cbn [AddJoinCallback fst next_join_id]. rewrite E64. destruct (Hinv i w Hi) as [Hi'|[-> ->]]; [pose proof (J4 i w Hi'); lia|cbn; lia].
  - intros i j w v Hi Hj E. destruct (Hinv i w Hi) as [Hi'|[-> ->]], (Hinv j v Hj) as [Hj'|[-> ->]]; [eauto| | |done]; cbn in E.
    + pose proof (J4 i w Hi'). lia.
    + pose proof (J4 j v Hj'). lia.
  - cbn [AddJoinCallback fst next_join_id]. rewrite E64. lia.
  - intros i w Hi Ha Ho. destruct (Hinv i w Hi) as [Hi'|[-> ->]]; [by apply (J7 i)|done].
  - intros i w p Hi Hp. destruct (Hinv i w Hi) as [Hi'|[-> ->]]; [by apply (J8 i)|done].
Qed.

Lemma leave_inv now m s : winv s -> winv (on_leave now m s).
Proof using Type.
  destruct m as [msg|e]; [|done]. intros [J1 J2 J3 J4 J5 J6 J7 J8 J9]. unfold on_leave. split; cbn [box waiters].
  - intros r id i u. rewrite leave_reg. apply J1.
  - intros i w. rewrite leave_reg. apply J2.
  - intros r id cb. rewrite leave_reg, leave_next. apply J3.
  - intros i w. rewrite leave_next. apply J4.
  - done.
  - by rewrite leave_next.
  - intros i w Hi Ha Ho sid. destruct (participants _ !! _) as [p|] eqn:E; [|done]. apply leave_sub in E. discriminate (eq_trans (eq_sym E) (J7 i w Hi Ha Ho sid)).
  - done.
  - intros room key p Hp. apply leave_sub in Hp. by apply (J9 room).
Qed.

(** The participants of a room after an announcement. *)
Lemma join_lookup b msg room key p :
  participants (room_view (ProcessJoinCbs keep range_cbs b msg).1 room) !! key = Some p ->
  participants (room_view b room) !! key = Some p \/
  (room = GetRoom (Some msg) /\ added b msg = true /\ key = key_of (participant_of msg) /\ p = participant_of msg).
Proof using Type.
  rewrite join_view. case_decide as E; [|by left]. subst room. rewrite Add_participants. fold (added b msg). destruct (added b msg); [|by left].
  intros Hp. apply lookup_insert_Some in Hp as [[<- <-]|[_ Hp]]; [by right|by left].
Qed.

(** Who is called: a call that waits for the participant in its room. *)
Lemma hit_inv s msg i :
  winv s -> WaitFor i (P_Id (participant_of msg)) ∈ (ProcessJoinCbs keep range_cbs (box s) msg).2.*1 ->
  added (box s) msg = true /\ exists w, waiters s !! i = Some w /\ w_room w = GetRoom (Some msg) /\ w_uid w = P_Id (participant_of msg) /\ w_open w = true.
Proof using range_cbs_perm.
  intros I Hi. apply join_calls in Hi as (Ha & id & Hr). split; [done|]. destruct (wi_reg s I _ _ _ _ Hr) as (w & Hw & H1 & _ & H3 & H4 & _). by exists w.
Qed.

Lemma hit_intro s msg i w :
  winv s -> added (box s) msg = true -> waiters s !! i = Some w -> w_open w = true -> is_back (w_at w) = false -> w_room w = GetRoom (Some msg) ->
  w_uid w = P_Id (participant_of msg) -> WaitFor i (P_Id (participant_of msg)) ∈ (ProcessJoinCbs keep range_cbs (box s) msg).2.*1.
Proof using range_cbs_perm.
  intros I Ha Hw Ho Hb Hr Hu. apply join_calls. split; [done|]. exists (w_id w). rewrite <- Hr, <- Hu. by apply (wi_open s I).
Qed.

Lemma wait_join_inv m s : winv s -> exists s', on_join m s = Ret s' /\ winv s'.
Proof using range_cbs_perm.
  intros I. destruct m as [msg|e]; [|by exists s]. unfold on_join. pose proof (calls_nodup s msg I) as Hnd. pose proof (fun i => hit_inv s msg i I) as Hhit.
  pose proof (fun i w => hit_intro s msg i w I) as Hint. pose proof (join_reg (box s) msg) as Hreg. pose proof (join_lookup (box s) msg) as Hlook.
  pose proof (join_next (box s) msg) as Hnext. destruct (ProcessJoinCbs keep range_cbs (box s) msg) as [b calls]. cbn [fst snd] in *.
  set (p := participant_of msg) in *.
  destruct (close_all_ok p calls.*1 (waiters s) Hnd) as (ws & -> & Hin & Hout).
  { intros i Hi. destruct (Hhit i Hi) as (_ & w & Hw & _ & _ & Ho). by exists w. }
  rewrite bind_ret_l. eexists. split; [done|]. destruct I as [J1 J2 J3 J4 J5 J6 J7 J8 J9].
  assert (forall i w, ws !! i = Some w -> exists v, (waiters s !! i = Some v) /\ (w = v \/ w = close_ch v)) as Hback.
  { intros i w Hi. destruct (decide (WaitFor i (P_Id p) ∈ calls.*1)) as [Hh|Hh]; [|rewrite Hout in Hi by done; by exists w; auto].
    rewrite Hin in Hi by done. apply fmap_Some in Hi as (v & Hv & ->). exists v. auto. }
  assert (forall i w, ws !! i = Some w -> w_open w = true -> (WaitFor i (P_Id p) ∉ calls.*1) /\ (waiters s !! i = Some w)) as Hopen.
  { intros i w Hi Ho. destruct (decide (WaitFor i (P_Id p) ∈ calls.*1)) as [Hh|Hh]; [|split; [done|by rewrite <- Hout]].
    rewrite Hin in Hi by done. apply fmap_Some in Hi as (v & Hv & ->). done. }
  split; cbn [box waiters].
  - intros room id i uid Hr. assert (reg (box s) room id = Some (WaitFor i uid) /\ WaitFor i (P_Id p) ∉ calls.*1) as [Hr0 Hn].
    { rewrite Hreg in Hr. destruct (decide (room = GetRoom (Some msg) /\ added (box s) msg = true)) as [E|E].
      - destruct (reg (box s) room id) as [cb|] eqn:Hr0; [|done]. cbn in Hr. destruct (keep cb (Some p)) eqn:Hk; [|done]. injection Hr as ->. split; [done|].
        intros Hh. destruct (Hhit i Hh) as (_ & w & Hw & _ & Hu & _). destruct (J1 room id i uid Hr0) as (v & Hv & _ & _ & Huv & _).
        unfold keep in Hk. apply bool_decide_eq_true in Hk. congruence.
      - split; [done|]. intros Hh. destruct (Hhit i Hh) as (Ha & w & Hw & Hrw & _). destruct (J1 room id i uid Hr) as (v & Hv & Hrv & _).
        apply E. split; [congruence|done]. }
    destruct (J1 room id i uid Hr0) as (w & Hw & Ew). exists w. by rewrite Hout.
  - intros i w Hi Ho Hb. destruct (Hopen i w Hi Ho) as [Hn Hw]. pose proof (J2 i w Hw Ho Hb) as Hr. rewrite Hreg.
    destruct (decide (w_room w = GetRoom (Some msg) /\ added (box s) msg = true)) as [E|E]; [|done]. rewrite Hr. cbn. rewrite bool_decide_eq_true_2; [done|]. intros Hu. destruct E as [Er Ea]. apply Hn, (Hint i w); done.
  - intros room id cb Hr. rewrite Hnext. apply (J3 room id cb). rewrite Hreg in Hr.
    destruct (decide (room = GetRoom (Some msg) /\ added (box s) msg = true)); [|done].
    destruct (reg (box s) room id) as [c|]; [|done]. cbn in Hr. destruct (keep c _); [done|done].
  - intros i w Hi. rewrite Hnext. destruct (Hback i w Hi) as (v & Hv & [->| ->]); by apply (J4 i v).
  - intros i j w v Hi Hj E. destruct (Hback i w Hi) as (w' & Hw & Ew). destruct (Hback j v Hj) as (v' & Hv & Ev). apply (J5 i j w' v' Hw Hv).
    destruct Ew as [->| ->], Ev as [->| ->]; exact E.
  - by rewrite Hnext.
  - intros i w Hi Ha Ho sid. destruct (Hopen i w Hi Ho) as [Hn Hw]. destruct (participants _ !! _) as [q|] eqn:E; [|done]. exfalso.
    apply Hlook in E as [E|(Hr & Had & Hk & ->)]; [discriminate (eq_trans (eq_sym E) (J7 i w Hw Ha Ho sid))|].
    apply Hn, (Hint i w); try done; [by rewrite Ha|]. by injection Hk.
  - intros i w q Hi Hq. destruct (Hback i w Hi) as (v & Hv & [->| ->]); by apply (J8 i v).
  - intros room key q Hq. apply Hlook in Hq as [Hq|(_ & _ & -> & ->)]; [by apply (J9 room)|done].
Qed.

Lemma wmove_inv s r : winv s -> wmove s r -> exists s', r = Ret s' /\ winv s'.
Proof using range_cbs_perm range_perm.
  intros I [room uid Hn|room n Hn|i ctx s' Hs|msg|now msg].
  - eexists. split; [done|by apply start_inv].
  - eexists. split; [done|by apply app_inv].
  - eexists. split; [done|by eapply wait_step_inv].
  - by apply wait_join_inv.
  - eexists. split; [done|by apply leave_inv].
Qed.

Lemma wreach_inv s : wreach s -> winv s.
Proof using range_cbs_perm range_perm.
  induction 1 as [|s s' _ IH Hm]; [apply winv0|]. destruct (wmove_inv s _ IH Hm) as (s1 & [= <-] & I). done.
Qed.

(** A call on its own, until it waits or has returned. *)
Fixpoint alone (fuel i : nat) (s : wsys) : wsys :=
  match fuel with O => s | S fuel => match wait_step i false s with Some s' => alone fuel i s' | None => s end end.

Definition in_room (b : ParticipantsBox (Cb := jcb)) (room uid : string) (p : Participant) : Prop :=
  exists sid, participants (room_view b room) !! (uid, sid) = Some p.

Lemma find_there b room uid : ~ absent b room uid -> exists p, box_FindOneByUser range b room uid = Some p /\ in_room b room uid p.
Proof using range_perm.
  intros Ha. pose proof (find_spec b room uid) as Hf. destruct (box_FindOneByUser range b room uid) as [p|]; [|done]. by exists p.
Qed.

(** The two last steps of a call. *)
Lemma alone_offs fuel i w r s :
  waiters s !! i = Some w -> w_at w = Offs r -> waiters (alone (S (S fuel)) i s) !! i = Some (set_at (Back r) w).
Proof using Type.
  intros Hi Ha. cbn [alone]. unfold wait_step at 1. rewrite Hi. cbn [mbind option_bind]. rewrite Ha. unfold wait_step at 1.
  cbn [waiters]. rewrite list_lookup_insert_eq by (by eapply lookup_lt_Some). cbn [mbind option_bind set_at w_at waiters].
  by apply list_lookup_insert_eq; eapply lookup_lt_Some.
Qed.

(** Who looks while the user is in the room returns the user. *)
Lemma alone_looks fuel i w s :
  waiters s !! i = Some w -> w_at w = Looks \/ w_at w = Checks -> ~ absent (box s) (w_room w) (w_uid w) ->
  exists p, waiters (alone (S (S (S fuel))) i s) !! i = Some (set_at (Back (Some p)) w) /\ in_room (box s) (w_room w) (w_uid w) p.
Proof using range_perm.
  intros Hi Ha Hin. destruct (find_there _ _ _ Hin) as (p & Hp & Hr). exists p. split; [|done].
  pose proof (lookup_lt_Some _ _ _ Hi) as Hlt. remember (S (S fuel)) as n eqn:En. cbn [alone].
  assert (wait_step i false s = Some (goto i (Offs (Some p)) w s)) as ->.
  { unfold wait_step. rewrite Hi. cbn [mbind option_bind]. destruct Ha as [-> | ->]; by rewrite Hp. }
  subst n. rewrite (alone_offs fuel i (set_at (Offs (Some p)) w) (Some p)); [done| |done]. cbn. by apply list_lookup_insert_eq.
Qed.

(** C24. No join is missed.  Under every interleaving of calls of [WaitParticipant], of callbacks of the application and of the
    messages about a room: no step panics, so that no channel is closed twice; a call that has not looked for the last time while somebody with its user id is in its
    room does not block, and returns this participant within four steps of its own when the room does not change meanwhile; a call that blocks does so only while nobody with the
    user id is in its room; what a call returns is nil or has the user id, and one that has returned leaves no callback behind. *)
Theorem no_missed_join s :
  wreach s ->
  (forall r, wmove s r -> exists s', r = Ret s') /\
  (forall i w, waiters s !! i = Some w -> w_at w = Checks \/ w_at w = Waits \/ w_at w = Looks -> ~ absent (box s) (w_room w) (w_uid w) ->
     exists p, waiters (alone 4 i s) !! i = Some (set_at (Back (Some p)) w) /\ in_room (box s) (w_room w) (w_uid w) p) /\
  (forall i w, waiters s !! i = Some w -> w_at w = Waits ->
     (wait_step i false s = None <-> w_open w = true) /\ (wait_step i false s = None -> absent (box s) (w_room w) (w_uid w))) /\
  (forall i w p, waiters s !! i = Some w -> w_at w = Back (Some p) -> P_Id p = w_uid w) /\
  (forall i w room id, waiters s !! i = Some w -> is_back (w_at w) = true -> reg (box s) room id <> Some (WaitFor i (w_uid w))).
Proof using range_cbs_perm range_perm.
  intros Hr. pose proof (wreach_inv s Hr) as I. split; [|split; [|split; [|split]]].
  - intros r Hm. destruct (wmove_inv s r I Hm) as (s' & -> & _). by exists s'.
  - intros i w Hi Ha Hin. destruct Ha as [Ha|[Ha|Ha]]; [apply (alone_looks 1); auto| |apply (alone_looks 1); auto].
    assert (w_open w = false) as Hop by (destruct (w_open w) eqn:E; [by destruct Hin; apply (wi_waits s I i w)|done]).
    change (alone 4 i s) with (match wait_step i false s with Some s' => alone 3 i s' | None => s end).
    assert (wait_step i false s = Some (goto i Looks w s)) as -> by (unfold wait_step; rewrite Hi; cbn [mbind option_bind]; by rewrite Ha, Hop).
    apply (alone_looks 0 i (set_at Looks w) (goto i Looks w s)); [|by left|done]. cbn. apply list_lookup_insert_eq. by eapply lookup_lt_Some.
  - intros i w Hi Ha. assert (wait_step i false s = None <-> w_open w = true) as E.
    { unfold wait_step. rewrite Hi. cbn. rewrite Ha. by destruct (w_open w). }
    split; [done|]. intros Hn. by apply (wi_waits s I i w), E.
  - intros i w p Hi Ha. apply (wi_result s I i w); [done|]. by rewrite Ha.
  - intros i w room id Hi Hb Hg. destruct (wi_reg s I _ _ _ _ Hg) as (v & Hv & _ & _ & _ & _ & Hvb). congruence.
Qed.
End Wait.

(** ** Witness *)
Module Toy.
Definition keep_app (n : nat) (p : option Participant) : bool := true.
Definition bob_joins : StateParticipantMessage :=
  {| StateParticipant_Router := Some {| Room := "lobby"; NodeFrom := ""; NodeTo := ""; SocketFrom := ""; SocketTo := "" |};
     StateParticipant_UserId := "bob"; StateParticipant_UserName := "Bob"; StateParticipant_SocketId := "s1"; StateParticipant_JoinId := 1 |}.

(** A call that waits for bob, and returns once he has joined. *)
Definition s1 : wsys := Eval vm_compute in wait_start "lobby" "bob" wsys0.
Definition s2 : wsys := Eval vm_compute in default s1 (wait_step map_to_list 0 false s1).
Definition s3 : wsys := Eval vm_compute in match on_join keep_app map_to_list (inl bob_joins) s2 with Ret s => s | Abort _ => s2 end.
Definition s4 : wsys := Eval vm_compute in default s3 (wait_step map_to_list 0 false s3).
Definition s5 : wsys := Eval vm_compute in default s4 (wait_step map_to_list 0 false s4).
Definition s6 : wsys := Eval vm_compute in default s5 (wait_step map_to_list 0 false s5).

Lemma reach_s2 : wreach keep_app map_to_list map_to_list s2.
Proof.
  eapply wr_step; [eapply wr_step; [constructor|apply (wm_start _ _ _ _ "lobby" "bob"); by vm_compute]|]. apply (wm_step _ _ _ _ 0 false). by vm_compute.
Qed.

Lemma reach_s6 : wreach keep_app map_to_list map_to_list s6.
Proof.
  eapply wr_step; [eapply wr_step; [eapply wr_step; [eapply wr_step; [exact reach_s2|]|]|]|].
  - assert (Ret s3 = on_join keep_app map_to_list (inl bob_joins) s2) as -> by (by vm_compute). apply wm_join.
  - apply (wm_step _ _ _ _ 0 false s4). by vm_compute.
  - apply (wm_step _ _ _ _ 0 false s5). by vm_compute.
  - apply (wm_step _ _ _ _ 0 false s6). by vm_compute.
Qed.

Lemma no_missed_join_witness :
  absent (box s2) "lobby" "bob" /\ exists w p, waiters s6 = [w] /\ w_at w = Back (Some p) /\ P_Id p = "bob".
Proof.
  destruct (no_missed_join keep_app map_to_list map_to_list (fun m => reflexivity _) (fun m => reflexivity _) s2 reach_s2) as (_ & _ & Hw & _).
  destruct (no_missed_join keep_app map_to_list map_to_list (fun m => reflexivity _) (fun m => reflexivity _) s6 reach_s6) as (_ & _ & _ & Hb & _).
  split.
  - destruct (Hw 0 _ eq_refl eq_refl) as [_ Ha]. apply Ha. reflexivity.
  - eexists _, _. split; [reflexivity|]. split; [reflexivity|]. exact (Hb 0 _ _ eq_refl eq_refl).
Defined.
End Toy.
