(* ===== verification/CustomMsg.v ===== *)
(** * CustomMsg: custom messages between clients ([client/websocket.go], [signal/main.go])

    A client sends a custom message to another client of a room, or to all of them, and may wait for an
    acknowledgement.  Its way: [SendMessage] of the client library, the handler of its context on the
    server, the cluster, the context of the other client ([Rooms]), the callbacks of that client, and back.
    The client is the record of its waiting calls and callbacks.  [SendMessage] is cut where it waits.  What
    [mapstructure] decodes is a parameter, and so is the JSON of an error. *)
From S2P Require Import Prelude GoStrings Auth Collection RoomPattern PatternMap Pattern Messages Messager Rooms Client.
Local Open Scope string_scope.
Local Open Scope list_scope.

Class Decoder := {
  (** [mapstructure.Decode] of what a context sends to its client *)
  decode_Custom : client_value CustomMessage -> CustomMessage;
  decode_CustomAck : client_value CustomAckMessage -> CustomAckMessage;
  (** a [ConferenceError] as JSON, or the text of the error *)
  conf_error : Type;
  error_Marshal : conf_error -> string + string;
  error_Unmarshal : string -> conf_error + gerror
}.

(** Decoding the map of a message gives the message; entries that are not there stay empty. *)
Class DecoderLaws `{Decoder} : Prop := {
  decode_custom_map m : decode_Custom (ClientMap (strip_entry <$> CustomMessage_ToMap (Some m))) = with_router strip_node m;
  decode_ack_map (m : CustomAckMessage) v : ToClientMessage (Some m) = Ret v -> decode_CustomAck v = with_router strip_node m;
  error_roundtrip e s : error_Marshal e = inl s -> error_Unmarshal s = inl e
}.

Section Code.
Context `{Decoder}.

(** A waiting call is a number; [answered] has the acknowledgements that were delivered. *)
Record WebsocketSignal := {
  next_custom_msg_id : Z; notifiers : gmap AckKey nat; waiting : nat; answered : gmap nat CustomAckMessage;
  custom_msg_cbs : gmap string (list nat)
}.

Definition set_notifiers (c : WebsocketSignal) m := {| next_custom_msg_id := next_custom_msg_id c; notifiers := m; waiting := waiting c;
  answered := answered c; custom_msg_cbs := custom_msg_cbs c |}.

(** ** Sending *)

(** [SendMessage] up to the wait: the event and the message given to [SendMsg], and the call that waits. *)
Definition SendMessage_send (c : WebsocketSignal) (ack : bool) (evt content to room : string)
    : WebsocketSignal * (string * CustomMessage) * option nat :=
  let id := u32 (next_custom_msg_id c + 1) in
  let c1 := {| next_custom_msg_id := id;
               notifiers := if ack then PushCustomAckMsgCh (notifiers c) room to id (waiting c) else notifiers c;
               waiting := if ack then S (waiting c) else waiting c; answered := answered c; custom_msg_cbs := custom_msg_cbs c |} in
  (c1, ("custom:" +:+ evt,
        {| Custom_Router := Some {| Room := room; NodeFrom := ""; NodeTo := ""; SocketFrom := ""; SocketTo := to |};
           Custom_Content := content; Custom_MsgId := id; Custom_Ack := ack |}),
   if ack then Some (waiting c) else None).

(** What [SendMessage] returns once its acknowledgement is there. *)
Definition SendMessage_result (msg : CustomAckMessage) : string + (conf_error + gerror) :=
  if CustomAck_Err msg then
    match error_Unmarshal (CustomAck_Content msg) with inl ce => inr (inl ce) | inr _ => inr (inr (EConf 1000)) end
  else inl (CustomAck_Content msg).

(** ** Receiving *)

Definition OnMessage (c : WebsocketSignal) (evt : string) (cb : nat) : WebsocketSignal :=
  {| next_custom_msg_id := next_custom_msg_id c; notifiers := notifiers c; waiting := waiting c; answered := answered c;
     custom_msg_cbs := match custom_msg_cbs c !! evt with
                       | Some cbs => <[evt := cbs ++ [cb]]> (custom_msg_cbs c)
                       | None => <[evt := [cb]]> (custom_msg_cbs c)
                       end |}.

(** What a callback passes to its acknowledgement function. *)
Record ack_call := { ac_res : string; ac_err : option conf_error }.

(** The acknowledgement function given to a callback. *)
Definition custom_ack (msg : CustomMessage) (a : ack_call) : CustomAckMessage :=
  {| CustomAck_Router := Some {| Room := ""; NodeFrom := ""; NodeTo := ""; SocketFrom := "";
                                 SocketTo := SocketFrom (default zero_router (Custom_Router msg)) |};
     CustomAck_MsgId := Custom_MsgId msg;
     CustomAck_Content := match ac_err a with
                          | None => ac_res a
                          | Some e => match error_Marshal e with inl s => s | inr text => "unable to encode the custom ack err, " +:+ text end
                          end;
     CustomAck_Err := match ac_err a with Some _ => true | None => false end |}.

(** Running a callback: whether it stays, and its calls of the acknowledgement function, which is nil when none is asked for. *)
Variable invoke : nat -> CustomMessage -> bool * list ack_call.

Definition on_custom (c : WebsocketSignal) (evt : string) (msg : CustomMessage) : WebsocketSignal * list CustomAckMessage :=
  let runs := (fun cb => (cb, invoke cb msg)) <$> default [] (custom_msg_cbs c !! evt) in
  let new_cbs := (filter (fun r => r.2.1 = true) runs).*1 in
  ({| next_custom_msg_id := next_custom_msg_id c; notifiers := notifiers c; waiting := waiting c; answered := answered c;
      custom_msg_cbs := match new_cbs with [] => delete evt (custom_msg_cbs c) | _ => <[evt := new_cbs]> (custom_msg_cbs c) end |},
   if Custom_Ack msg then runs ≫= (fun r => custom_ack msg <$> r.2.2) else []).

(** An acknowledgement is given to the call that waits for it. *)
Definition on_custom_ack (c : WebsocketSignal) (msg : CustomAckMessage) : WebsocketSignal :=
  let r := default zero_router (CustomAck_Router msg) in
  match PopCustomAckMsgCh (notifiers c) (Room r) (SocketFrom r) (CustomAck_MsgId msg) with
  | (m, Some w) => {| next_custom_msg_id := next_custom_msg_id c; notifiers := m; waiting := waiting c;
                      answered := <[w := msg]> (answered c); custom_msg_cbs := custom_msg_cbs c |}
  | (_, None) => c
  end.

(** ** The server *)

Context (range : forall A, gmap string A -> list (string * A)).

(** The handlers [InitSignal] gives to [OnCustom] and [OnCustomAck]. *)
Definition server_custom (ctx : SignalContext) (evt : string) (msg : CustomMessage) : list CustomClusterMessage :=
  clusterEmit range ctx {| CustomCluster_Evt := evt; CustomCluster_Msg := Some msg |}.
Definition server_custom_ack (ctx : SignalContext) (msg : CustomAckMessage) : list CustomAckMessage := clusterEmit range ctx msg.

(** An acknowledgement that reaches a context, and then its client. *)
Definition deliver_ack (ctx : SignalContext) (c : WebsocketSignal) (msg : CustomAckMessage) : run WebsocketSignal :=
  es ← OnCustomAckMessage ctx msg;
  Ret (fold_left (fun c e => match e with CCustomAck v => on_custom_ack c (decode_CustomAck v) | _ => c end) es c).

Fixpoint deliver_acks (ctx : SignalContext) (c : WebsocketSignal) (l : list CustomAckMessage) : run WebsocketSignal :=
  match l with [] => Ret c | m :: l => c ← deliver_ack ctx c m; deliver_acks ctx c l end.
End Code.

(** ** Properties *)

(** The event of a text that starts with "custom:" ([evt[7:]]). *)
Definition custom_evt (s : string) : string := String.substring 7 (String.length s - 7) s.

Lemma custom_evt_app evt : custom_evt ("custom:" +:+ evt) = evt.
Proof.
  assert (forall p, String.substring (String.length p) (String.length (p +:+ evt) - String.length p) (p +:+ evt) = evt) as Hp.
  { induction p as [|a p IH]; [|exact IH].
    change ("" +:+ evt) with evt. rewrite Nat.sub_0_r. apply substring_full. }
  exact (Hp "custom:").
Qed.

Section Way.
Context `{DecoderLaws}.
Context (range : forall A, gmap string A -> list (string * A)).
Context (range_perm : forall A (m : gmap string A), range A m ≡ₚ map_to_list m).
Context (invoke : nat -> CustomMessage -> bool * list ack_call).

(** The copy of an acknowledgement from [b] to [a] that goes to a room. *)
Definition ack_copy (am : CustomAckMessage) (a b node room : string) : CustomAckMessage :=
  {| CustomAck_Router := Some {| Room := room; NodeFrom := node; NodeTo := ""; SocketFrom := b; SocketTo := a |};
     CustomAck_MsgId := CustomAck_MsgId am; CustomAck_Content := CustomAck_Content am; CustomAck_Err := CustomAck_Err am |}.

Lemma server_custom_ack_copies ctx msg x :
  server_custom_ack range ctx (custom_ack msg x) =
  ack_copy (custom_ack msg x) (SocketFrom (default zero_router (Custom_Router msg))) (Id ctx) (node ctx) <$> Rooms range ctx.
Proof. unfold server_custom_ack, clusterEmit. cbn. done. Qed.

Lemma deliver_ack_spec ctx c am b n room :
  deliver_ack ctx c (ack_copy am (Id ctx) b n room) =
  Ret (if matchRoom_ctx ctx (ack_copy am (Id ctx) b n room) then on_custom_ack c (with_router strip_node (ack_copy am (Id ctx) b n room)) else c).
Proof.
  unfold deliver_ack, OnCustomAckMessage.
  assert (matchSocketTo ctx (ack_copy am (Id ctx) b n room) true = true) as -> by (by eapply matchSocketTo_spec; [reflexivity|left]).
  rewrite orb_false_r.
  destruct (matchRoom_ctx ctx _); cbn [negb]; [|done].
  destruct (ToClientMessage (Some (ack_copy am (Id ctx) b n room))) as [v|] eqn:Ev; [|done].
  cbn [mbind run_bind fold_left]. by rewrite (decode_ack_map _ _ Ev).
Qed.

(** Popping an acknowledgement for a message that waits in [room] with the only call of number [id]. *)
Lemma pop_ack_spec (N : gmap AckKey nat) room to id w room' b :
  (forall k, k.2 = id -> N !! k = None) -> to = b \/ to = "" ->
  PopCustomAckMsgCh (<[(room, to, id) := w]> N) room' b id = if decide (room' = room) then (N, Some w) else (<[(room, to, id) := w]> N, None).
Proof.
  intros Hf Hto. unfold PopCustomAckMsgCh. destruct (decide (room' = room)) as [->|Hne].
  - destruct (decide (to = b)) as [->|Hnb].
    + rewrite lookup_insert_eq. by rewrite delete_insert_id by (by apply Hf).
    + destruct Hto as [?| ->]; [done|]. rewrite lookup_insert_ne by congruence. rewrite Hf, lookup_insert_eq by done.
      by rewrite delete_insert_id by (by apply Hf).
  - rewrite !lookup_insert_ne by congruence. by rewrite !Hf.
Qed.

Lemma pop_ack_none (N : gmap AckKey nat) room' b id : (forall k, k.2 = id -> N !! k = None) -> PopCustomAckMsgCh N room' b id = (N, None).
Proof. intros Hf. unfold PopCustomAckMsgCh. by rewrite !Hf. Qed.

Lemma deliver_others ctx c am b n rs :
  (forall k, k.2 = CustomAck_MsgId am -> notifiers c !! k = None) -> deliver_acks ctx c (ack_copy am (Id ctx) b n <$> rs) = Ret c.
Proof.
  intros Hf. induction rs as [|r rs IH]; [done|]. cbn [fmap list_fmap deliver_acks]. rewrite deliver_ack_spec. cbn [mbind run_bind].
  assert (on_custom_ack c (with_router strip_node (ack_copy am (Id ctx) b n r)) = c) as -> by (unfold on_custom_ack; cbn; by rewrite pop_ack_none).
  by destruct (matchRoom_ctx ctx _).
Qed.

Lemma deliver_copies ctx am b n rs room to w N : forall c,
  (forall k, k.2 = CustomAck_MsgId am -> N !! k = None) -> to = b \/ to = "" ->
  notifiers c = <[(room, to, CustomAck_MsgId am) := w]> N -> matchRoom_ctx ctx (ack_copy am (Id ctx) b n room) = true -> room ∈ rs ->
  exists c', deliver_acks ctx c (ack_copy am (Id ctx) b n <$> rs) = Ret c' /\ notifiers c' = N /\
    answered c' = <[w := with_router strip_node (ack_copy am (Id ctx) b n room)]> (answered c).
Proof.
  induction rs as [|r rs IH]; intros c Hf Hto Hc Hm Hin; [by inversion Hin|]. cbn [fmap list_fmap deliver_acks]. rewrite deliver_ack_spec.
  destruct (decide (r = room)) as [->|Hne].
  - rewrite Hm. unfold on_custom_ack at 1. cbn. rewrite Hc, pop_ack_spec, decide_True by done. rewrite deliver_others by done.
    eexists. split; [reflexivity|]. done.
  - assert (on_custom_ack c (with_router strip_node (ack_copy am (Id ctx) b n r)) = c) as ->
      by (unfold on_custom_ack; cbn; by rewrite Hc, pop_ack_spec, decide_False).
    assert (forall x : bool, (if x then c else c) = c) as -> by (by intros []). cbn [mbind run_bind].
    apply IH; try done. apply elem_of_cons in Hin as [->|Hin]; done.
Qed.

(** C18. A custom message and its answer.  A client that is in a room sends a message there to another
    client of the room, or to all, and waits.  Its context emits one message; the context of the other client
    forwards it with the sender's id; when a callback answers, the answer is emitted for every room of that
    client, and whatever rooms these are, the waiting call is answered exactly once, with what the callback
    said: its result, or its error. *)
Theorem custom_answered ctxA ctxB cA cB room to evt content cb stay x c1 sent w :
  rooms_ok (rooms ctxA) -> rooms_ok (rooms ctxB) -> joined ctxA room -> joined ctxB room -> room <> "" ->
  to = Id ctxB \/ to = "" -> (forall k, k.2 = u32 (next_custom_msg_id cA + 1) -> notifiers cA !! k = None) ->
  SendMessage_send cA true evt content to room = (c1, sent, Some w) ->
  let msg := {| Custom_Router := Some {| Room := room; NodeFrom := ""; NodeTo := ""; SocketFrom := Id ctxA; SocketTo := to |};
                Custom_Content := content; Custom_MsgId := u32 (next_custom_msg_id cA + 1); Custom_Ack := true |} in
  custom_msg_cbs cB !! evt = Some [cb] -> invoke cb msg = (stay, [x]) ->
  exists cm v ack c2 a,
    server_custom range ctxA (custom_evt sent.1) sent.2 = [cm] /\ OnCustomMessage ctxB cm = Ret [CCustom sent.1 v] /\ decode_Custom v = msg /\
    (on_custom invoke cB evt msg).2 = [ack] /\ deliver_acks ctxA c1 (server_custom_ack range ctxB ack) = Ret c2 /\
    notifiers c2 = notifiers cA /\ answered c2 = <[w := a]> (answered cA) /\
    match ac_err x with
    | None => SendMessage_result a = inl (ac_res x)
    | Some e => forall s, error_Marshal e = inl s -> SendMessage_result a = inr (inl e)
    end.
Proof.
  intros HA HB JA JB Hne Hto Hfresh Hs msg Hcb Hinv. injection Hs as <- <- <-. cbn [fst snd]. rewrite custom_evt_app.
  set (full := {| Custom_Router := Some {| Room := room; NodeFrom := node ctxA; NodeTo := ""; SocketFrom := Id ctxA; SocketTo := to |};
                  Custom_Content := content; Custom_MsgId := u32 (next_custom_msg_id cA + 1); Custom_Ack := true |}).
  set (cm := {| CustomCluster_Evt := evt; CustomCluster_Msg := Some full |}).
  assert (matchRoom_ctx ctxA (ack_copy (custom_ack msg x) (Id ctxA) (Id ctxB) (node ctxB) room) = true) as HmA
    by (by eapply matchRoom_ctx_spec; [exact HA|reflexivity|split]).
  destruct (deliver_copies ctxA (custom_ack msg x) (Id ctxB) (node ctxB) (Rooms range ctxB) room to (waiting cA) (notifiers cA)
    (SendMessage_send cA true evt content to room).1.1 Hfresh Hto) as (c2 & Ed & En & Ea); [reflexivity|exact HmA|by apply Rooms_spec|].
  exists cm, (ClientMap (strip_entry <$> CustomMessage_ToMap (Some full))), (custom_ack msg x), c2, (with_router strip_node (ack_copy (custom_ack msg x) (Id ctxA) (Id ctxB) (node ctxB) room)).
  split; [unfold server_custom, clusterEmit; cbn; rewrite bool_decide_eq_true_2 by done; unfold copy_fixed; cbn;
    unfold fix_router_field, fixRouter; cbn; by rewrite decide_False|].
  split.
  { unfold OnCustomMessage.
    assert (matchRoom_ctx ctxB cm = true) as -> by (by eapply matchRoom_ctx_spec; [exact HB|reflexivity|split]).
    assert (matchSocketTo ctxB cm false = true) as -> by (eapply matchSocketTo_spec; [reflexivity|]; cbn; tauto). reflexivity. }
  split; [apply decode_custom_map|].
  split; [unfold on_custom; rewrite Hcb; cbn; by rewrite Hinv|].
  split; [rewrite server_custom_ack_copies; exact Ed|]. split; [exact En|]. split; [exact Ea|].
  unfold SendMessage_result. cbn. destruct (ac_err x) as [e|]; [|done]. intros s0 Hm. by rewrite Hm, (error_roundtrip _ _ Hm).
Qed.
End Way.

(** ** Witness *)
Module Toy.
Definition str (m : gmap string gval) (k : string) : string := match m !! k with Some (GStr s) => s | _ => "" end.
Definition u32_ (m : gmap string gval) (k : string) : Z := match m !! k with Some (GU32 z) => z | _ => 0%Z end.
Definition flag (m : gmap string gval) (k : string) : bool := match m !! k with Some (GBool b) => b | _ => false end.
Definition router (m : gmap string gval) : option Router :=
  match m !! "router" with
  | Some (GMap (Some r)) => Some {| Room := str r "room"; NodeFrom := str r "nodeFrom"; NodeTo := str r "nodeTo";
                                    SocketFrom := str r "socketFrom"; SocketTo := str r "socketTo" |}
  | _ => None
  end.
Definition entries {M} (v : client_value M) : gmap string gval := match v with ClientMap (Some m) => m | _ => ∅ end.

#[local] Instance decoder : Decoder := {|
  decode_Custom v := let m := entries v in
    {| Custom_Router := router m; Custom_Content := str m "content"; Custom_MsgId := u32_ m "msgId"; Custom_Ack := flag m "ack" |};
  decode_CustomAck v := let m := entries v in
    {| CustomAck_Router := router m; CustomAck_MsgId := u32_ m "msgId"; CustomAck_Content := str m "content"; CustomAck_Err := flag m "err" |};
  conf_error := string; error_Marshal e := inl e; error_Unmarshal s := inl s
|}.

#[local] Instance decoder_laws : DecoderLaws.
Proof.
  split.
  - intros [[r|] c i a]; reflexivity.
  - intros [[r|] i c e] v [= <-]; reflexivity.
  - by intros e s [= ->].
Qed.

Definition alice : SignalContext := set_rooms (newSignalContext "a" "n1" sample_auth) {["lobby" := {| JoinId_ := 1; Joined := true |}]}.
Definition bob : SignalContext := set_rooms (newSignalContext "b" "n2" sample_auth)
  {["lobby" := {| JoinId_ := 1; Joined := true |}; "a.x" := {| JoinId_ := 1; Joined := true |}]}.
Definition client0 : WebsocketSignal :=
  {| next_custom_msg_id := 0; notifiers := ∅; waiting := 0; answered := ∅; custom_msg_cbs := ∅ |}.
Definition echo (cb : nat) (m : CustomMessage) : bool * list ack_call := (true, [{| ac_res := Custom_Content m; ac_err := None |}]).
Definition call : WebsocketSignal * (string * CustomMessage) * option nat := SendMessage_send client0 true "chat" "hello" "b" "lobby".

Lemma one_room_ok (m : gmap string RoomInfo) : map_Forall (fun _ i => i = {| JoinId_ := 1; Joined := true |}) m -> rooms_ok m.
Proof. intros Hm room info. apply Hm. Qed.

Lemma custom_answered_witness :
  exists c2 a, deliver_acks alice call.1.1 (server_custom_ack range0 bob
      {| CustomAck_Router := Some {| Room := ""; NodeFrom := ""; NodeTo := ""; SocketFrom := ""; SocketTo := "a" |};
         CustomAck_MsgId := 1; CustomAck_Content := "hello"; CustomAck_Err := false |}) = Ret c2 /\
    answered c2 = {[0 := a]} /\ SendMessage_result a = inl "hello".
Proof.
  destruct (custom_answered range0 range0_perm echo alice bob client0 (OnMessage client0 "chat" 0) "lobby" "b" "chat" "hello" 0 true
    {| ac_res := "hello"; ac_err := None |} call.1.1 call.1.2 0) as (cm & v & ack & c2 & a & _ & _ & _ & E & Ed & _ & Ea & Er).
  - apply one_room_ok, map_Forall_singleton. reflexivity.
  - apply one_room_ok, map_Forall_insert_2; [reflexivity|]. apply map_Forall_singleton. reflexivity.
  - eexists. split; reflexivity.
  - eexists. split; reflexivity.
  - discriminate.
  - left. reflexivity.
  - intros k _. reflexivity.
  - reflexivity.
  - reflexivity.
  - reflexivity.
  - exists c2, a. injection E as <-. split; [exact Ed|]. split; [exact Ea|exact Er].
Defined.
End Toy.
