(* ===== verification/Handlers.v ===== *)
(** * Handlers: the requests of a client ([InitSignal] of [signal/main.go])

    A request has its arguments, and an acknowledgement function or none.  A handler parses the
    arguments, runs an operation of [Session], and is answered by [FinallyResponse] of [Errors], which
    recovers from a panic.  "publish" and "subscribe" run in a goroutine of their own; the state of the
    model is the one at which it runs.  [mapstructure] and the texts of errors are parameters. *)
From S2P Require Import Prelude GoStrings Auth Collection RoomPattern PatternMap Pattern Messages Messager Registry Config Templates Errors.
From S2P Require Import Packets Routing RoutingInv RoutingProps Publication Rooms Session SessionProps.
Local Open Scope string_scope.
Local Open Scope list_scope.

(** What is sent back to the client. *)
Inductive reply :=
  | RText (s : string)
  | RPublishResult (id : string)
  | RSubscribeResult (id : string)
  | RUserInfo (u : UserInfo).

Abbreviation err_t := (go_error reply).
Abbreviation node_t := (Session.node).

(** [mapstructure.Decode] into each message, and the errors of the program by their codes. *)
Class Args (arg : Type) := {
  decode_Rooms : arg -> list string + err_t;
  decode_Publish : arg -> PublishMessage + err_t;
  decode_Subscribe : arg -> SubscribeMessage + err_t;
  decode_Ping : arg -> PingMessage + err_t;
  decode_Pong : arg -> PongMessage + err_t;
  error_of : Z -> ConferenceError reply
}.

(** [Decode] never returns an interface that holds a nil [*ConferenceError]. *)
Class ArgsLaws {arg} (A : Args arg) : Prop := {
  rooms_proper a e : decode_Rooms a = inr e -> proper (PErr e);
  publish_proper a e : decode_Publish a = inr e -> proper (PErr e);
  subscribe_proper a e : decode_Subscribe a = inr e -> proper (PErr e);
  ping_proper a e : decode_Ping a = inr e -> proper (PErr e);
  pong_proper a e : decode_Pong a = inr e -> proper (PErr e)
}.

(** ** The code *)

Definition too_many : err_t := EPtr (Some (mkError ERR_FATAL "too many parameter" None [] "" None)).
Definition too_little : err_t := EPtr (Some (mkError ERR_FATAL "too little parameter" None [] "" None)).

Definition parseArgs {arg X} (decode : arg -> X + err_t) (args : list arg) : X + err_t :=
  match args with
  | [] => inr too_little
  | [a] => decode a
  | _ => inr too_many
  end.

Inductive request := QJoin | QLeave | QPublish (ids tids : list string) | QSubscribe (ids : list string) | QUserInfo | QPing | QPong.

Section Code.
Context `{Uuid, Webrtc, MapOrder, TemplateLib, Args arg}.
Context (range : forall A, gmap string A -> list (string * A)).

Definition to_error (e : gerror) : err_t := match e with EConf c => EPtr (Some (error_of c)) | EOther text => EStd text end.

(** What [recover] returns. *)
Definition recovered (v : panic_value) : panicked reply :=
  match v with
  | PNilDeref => PErr (EStd "runtime error: invalid memory address or nil pointer dereference")
  | PIndex => PErr (EStd "runtime error: index out of range")
  | PCode c => PErr (EPtr (Some (error_of c)))
  | PMsg s => PErr (EStd s)
  end.

(** The body of a handler: what the operation does before its first write, which reads the state only, the rest of the operation, then [panic] of
    its error.  A panic before the first write leaves the state [n] the request found.  What a panic after it
    would leave is not known: it is the parameter [lost]. *)
Definition body {P X} (lost n : node_t) (before : run P) (rest : P -> run (node_t * X * option gerror)) (args : X -> list reply)
    : run (node_t * part (any := reply)) :=
  match before with
  | Abort (Panic v) => Ret (n, inr (recovered v))
  | Abort a => Abort a
  | Ret p =>
      match rest p with
      | Ret (n', x, None) => Ret (n', inl (args x))
      | Ret (n', _, Some e) => Ret (n', inr (PErr (to_error e)))
      | Abort (Panic v) => Ret (lost, inr (recovered v))
      | Abort a => Abort a
      end
  end.

(** [JoinRoom] after the rooms were checked, which is where it may panic. *)
Definition join_checked (n : node_t) (r : list string + gerror) : node_t * option gerror :=
  match r with
  | inr e => (emit (set_sess n (with_ctx (sess n) (sctx_ (sess n)))) [], Some e)
  | inl s_rooms =>
      let '(m, joined_rooms) := join_rooms (rooms (sctx_ (sess n))) [] s_rooms in
      let ctx := set_rooms (sctx_ (sess n)) m in
      (emit (set_sess n (with_ctx (sess n) ctx)) (EAnnounce <$> (joined_rooms ≫= announce range ctx)), None)
  end.

Definition in_place {X} (n : node_t) (ack : bool) (cause : string) (parsed : X + err_t) (run_ : X -> run (node_t * part))
    : run (node_t * list (response reply)) :=
  match parsed with
  | inr e => out ← handle_in_place (RText "ack") ack cause (Some e) (inl []); Ret (n, out)
  | inl x => '(n, p) ← run_ x; out ← handle_in_place (RText "ack") ack cause None p; Ret (n, out)
  end.

Definition in_goroutine {X} (n : node_t) (ack : bool) (cause : string) (parsed : X + err_t) (run_ : X -> run (node_t * part))
    : run (node_t * list (response reply)) :=
  match parsed with
  | inr e => out ← handle_async (RText "ack") ack cause (Some e) (inl []); Ret (n, out)
  | inl x => '(n, p) ← run_ x; out ← handle_async (RText "ack") ack cause None p; Ret (n, out)
  end.

Definition on_join (n : node_t) (ack : bool) (args : list arg) : run (node_t * list (response reply)) :=
  in_place n ack "join" (parseArgs decode_Rooms args) (fun rooms =>
    body n n (wanted_rooms (sctx_ (sess n)) rooms) (fun r => Ret ((join_checked n r).1, tt, (join_checked n r).2)) (fun _ => [])).

Definition on_leave (n : node_t) (ack : bool) (args : list arg) : run (node_t * list (response reply)) :=
  in_place n ack "leave" (parseArgs decode_Rooms args) (fun rooms => Ret (leave range n rooms, inl [])).

Definition on_publish (lost n : node_t) (ack : bool) (ids tids : list string) (args : list arg) : run (node_t * list (response reply)) :=
  in_goroutine n ack "publish" (parseArgs decode_Publish args) (fun msg =>
    body lost n (Ret tt) (fun _ => publish n msg ids tids) (fun id => [RPublishResult id])).

Definition on_subscribe (lost n : node_t) (ack : bool) (ids : list string) (args : list arg) : run (node_t * list (response reply)) :=
  in_goroutine n ack "subscribe" (parseArgs decode_Subscribe args) (fun msg =>
    body lost n (SubscribeMessage_Validate msg) (subscribe_valid range n msg ids) (fun id => [RSubscribeResult id])).

(** It does not look at its arguments. *)
Definition on_user_info (n : node_t) (ack : bool) : run (node_t * list (response reply)) :=
  in_place n ack "user-info" (inl tt) (fun _ => Ret (n, inl [RUserInfo (MakeUserInfo range (sctx_ (sess n)))])).

(** The router of a ping or pong names its addressee. *)
Definition addressed (r : option Router) : bool :=
  match r with None => false | Some r => negb (bool_decide (SocketTo r = "")) end.

Definition refuse (n : node_t) (text : string) : run (node_t * part (any := reply)) := Ret (n, inr (PErr (EStd text))).

Definition on_ping (n : node_t) (ack : bool) (args : list arg) : run (node_t * list (response reply)) :=
  in_place n false "ping" (parseArgs decode_Ping args) (fun msg =>
    if ack then refuse n "ping msg does not support ack"
    else if negb (addressed (Ping_Router msg)) then refuse n "ping msg require a router with valid socketTo attribute"
    else Ret (emit n (EPing <$> clusterEmit range (sctx_ (sess n)) msg), inl [])).

Definition on_pong (n : node_t) (ack : bool) (args : list arg) : run (node_t * list (response reply)) :=
  in_place n false "pong" (parseArgs decode_Pong args) (fun msg =>
    if ack then refuse n "pong msg does not support ack"
    else if negb (addressed (Pong_Router msg)) then refuse n "pong msg require a router with valid socketTo attribute"
    else Ret (emit n (EPong <$> clusterEmit range (sctx_ (sess n)) msg), inl [])).

Definition handle (lost n : node_t) (ack : bool) (q : request) (args : list arg) : run (node_t * list (response reply)) :=
  match q with
  | QJoin => on_join n ack args
  | QLeave => on_leave n ack args
  | QPublish ids tids => on_publish lost n ack ids tids args
  | QSubscribe ids => on_subscribe lost n ack ids args
  | QUserInfo => on_user_info n ack
  | QPing => on_ping n ack args
  | QPong => on_pong n ack args
  end.
End Code.

(** ** Properties *)

(** A computation that does not run for ever. *)
Definition finishes {A} (r : run A) : Prop := r <> Abort NoFuel.

Lemma finishes_bind {A B} (m : run A) (f : A -> run B) : finishes m -> (forall a, m = Ret a -> finishes (f a)) -> finishes (m ≫= f).
Proof. unfold finishes. destruct m as [a|[]]; cbn; auto; done. Qed.

Lemma MatchRoom_finishes p room : finishes (MatchRoom p room).
Proof.
  unfold finishes. destruct (CheckPattern_spec p) as [[Hp _]|[_ E]]; [|unfold MatchRoom; by rewrite E].
  destruct (CheckRoom_spec room) as [[Hr _]|[_ E]]; [by destruct (MatchRoom_spec p room Hp Hr) as (b & -> & _)|].
  unfold MatchRoom. apply finishes_bind; [|intros []; by rewrite E]. unfold CheckPattern. by repeat case_match.
Qed.

Lemma hasRoomRight_finishes ctx room : finishes (hasRoomRight ctx room).
Proof.
  unfold hasRoomRight. induction (RoomPaterns ctx) as [|p ps IH]; cbn; [done|].
  apply finishes_bind; [apply MatchRoom_finishes|]. by intros [].
Qed.

Lemma check_rights_finishes ctx rs : finishes (check_rights ctx rs).
Proof. induction rs as [|r rs IH]; cbn; [done|]. apply finishes_bind; [apply hasRoomRight_finishes|]. by intros []. Qed.

Lemma Validate_finishes (p : PublicationPattern) : finishes (Pattern.Validate p).
Proof.
  induction p as [op args cs IH] using pattern_ind.
  assert (finishes (first_error (fun c => match c with Some c => Pattern.Validate c | None => go_panic PNilDeref end) cs)) as Hf.
  { induction cs as [|[c|] cs IHc]; [done| |done]. apply (finishes_bind (Pattern.Validate c)); [apply IH; left|].
    intros [] _; [done|]. apply IHc. intros c' Hc'. apply IH. by right. }
  destruct op; cbn; unfold checkArgsNum; repeat case_match; done.
Qed.

Lemma answer_total ack_arg ack cause onlyErr (p : part (any := reply)) :
  (forall r, p = inr r -> proper r) ->
  exists out, answer ack_arg ack cause onlyErr p = Ret out /\
    match p with
    | inr _ => if ack then exists e, out = [RAck [] (Some e)]
               else exists m, out = [REmitError m; RClose] /\ em_Fatal m = true /\ em_Cause m = cause
    | inl args => out = if ack && negb onlyErr then [RAck (match args with [] => [ack_arg] | _ => args end) None] else []
    end.
Proof.
  intros Hp. destruct ack; [destruct (answer_ack ack_arg cause onlyErr p Hp) as (out & E & Ho)|destruct (answer_no_ack ack_arg cause onlyErr p Hp) as (out & E & Ho)];
    exists out; (split; [done|]); destruct p; [by destruct onlyErr|done..].
Qed.

(** Whether the body runs in place or in a goroutine, what it leaves is answered alike. *)
Lemma same_answer ack cause parse (p : part (any := reply)) :
  (forall r, p = inr r -> proper r) -> (forall e, parse = Some e -> proper (PErr e)) ->
  handle_async (RText "ack") ack cause parse p = handle_in_place (RText "ack") ack cause parse p.
Proof.
  intros Hb Hp. unfold handle_async, handle_in_place. destruct parse as [e|]; [done|]. destruct ack; cbn; by destruct (answer _ _ _ _ p).
Qed.

Section Proofs.
Context `{Uuid, Webrtc, MapOrderLaws, TemplateLib, Args arg}.
Context {AL : ArgsLaws (arg := arg) _}.
Context (range : forall A, gmap string A -> list (string * A)).

(** What a handler leaves, before it is answered. *)
Definition leaves (n n' : node_t) (ack : bool) (cause : string) (p : part (any := reply)) (r : run (node_t * list (response reply))) : Prop :=
  (forall x, p = inr x -> proper x) /\ exists out, answer (RText "ack") ack cause false p = Ret out /\ r = Ret (n', out).

Lemma in_place_leaves {X} n ack cause (parsed : X + err_t) run_ :
  (forall e, parsed = inr e -> proper (PErr e)) ->
  (forall x, parsed = inl x -> exists n' p, run_ x = Ret (n', p) /\ forall r, p = inr r -> proper r) ->
  exists n' p, leaves n n' ack cause p (in_place n ack cause parsed run_) /\
    leaves n n' ack cause p (in_goroutine n ack cause parsed run_) /\
    match parsed with inr e => n' = n /\ p = inr (PErr e) | inl x => run_ x = Ret (n', p) end.
Proof.
  intros He Hr. unfold in_place, in_goroutine. destruct parsed as [x|e].
  - destruct (Hr x eq_refl) as (n' & p & -> & Hp). exists n', p.
    destruct (answer_total (RText "ack") ack cause false p Hp) as (out & E & _). unfold leaves. cbn [mbind run_bind].
    rewrite same_answer by done. unfold handle_in_place. rewrite E. by repeat (split; [by eauto|]).
  - assert (forall r, @inr (list reply) (panicked reply) (PErr e) = inr r -> proper r) as Hp by (intros r [= <-]; by apply He).
    exists n, (inr (PErr e)). destruct (answer_total (RText "ack") ack cause false _ Hp) as (out & E & _). unfold leaves.
    rewrite same_answer by (try done; intros ? [= <-]; by apply He). unfold handle_in_place. rewrite E. by repeat (split; [by eauto|]).
Qed.

(** An operation that, unless it panics before its first write, returns, and changes nothing when it fails. *)
Definition sound_op {P X} (n : node_t) (before : run P) (rest : P -> run (node_t * X * option gerror)) : Prop :=
  finishes before /\ forall p, before = Ret p -> exists n' x e, rest p = Ret (n', x, e) /\ (is_Some e -> n' = n).

Lemma recovered_proper v : proper (recovered v).
Proof. by destruct v. Qed.

Lemma body_leaves {P X} lost n (before : run P) (rest : P -> run (node_t * X * option gerror)) args :
  sound_op n before rest ->
  exists n' p, body lost n before rest args = Ret (n', p) /\ (forall r, p = inr r -> proper r) /\
    match p with inl rs => exists x, before ≫= rest = Ret (n', x, None) /\ rs = args x | inr _ => n' = n end.
Proof.
  intros [Hf Hr]. unfold body. destruct before as [q|[v|]]; [| |done].
  - destruct (Hr q eq_refl) as (n' & x & [e|] & E & He); rewrite E.
    + exists n', (inr (PErr (to_error e))). split; [done|]. split; [by intros r [= <-]; destruct e|]. by apply He.
    + exists n', (inl (args x)). split; [done|]. split; [done|]. by exists x.
  - exists n, (inr (recovered v)). split; [done|]. split; [|done]. intros r [= <-]. apply recovered_proper.
Qed.

Lemma join_split n rs : join range n rs = (r ← wanted_rooms (sctx_ (sess n)) rs; Ret (join_checked range n r)).
Proof. unfold join, JoinRoom, join_checked. destruct (wanted_rooms _ _) as [[s_rooms|e]|]; cbn; [|done..]. by destruct (join_rooms _ _ _). Qed.

Lemma Subscribe_split n msg ids : Subscribe range n msg ids = (SubscribeMessage_Validate msg ≫= subscribe_valid range n msg ids).
Proof. done. Qed.

Lemma same_node (n : node_t) : emit (set_sess n (with_ctx (sess n) (sctx_ (sess n)))) [] = n.
Proof. destruct n as [? ? ? [] ?]. unfold emit. cbn. by rewrite app_nil_r. Qed.

Lemma body_join n rs :
  exists n' p, body n n (wanted_rooms (sctx_ (sess n)) rs) (fun r => Ret ((join_checked range n r).1, tt, (join_checked range n r).2)) (fun _ => []) = Ret (n', p) /\
    (forall r, p = inr r -> proper r) /\ match p with inl out => join range n rs = Ret (n', None) /\ out = [] | inr _ => n' = n end.
Proof.
  edestruct (body_leaves n n (wanted_rooms (sctx_ (sess n)) rs) (fun r => Ret ((join_checked range n r).1, tt, (join_checked range n r).2)) (fun _ => []))
    as (n' & p & E & Hp & Ho).
  { split.
    - unfold wanted_rooms. destruct (length rs =? 0)%nat; [by case_match|]. apply finishes_bind; [apply check_rights_finishes|]. by intros [].
    - intros r _. eexists _, _, _. split; [reflexivity|]. destruct r as [s_rooms|e]; cbn; [|intros _; apply same_node].
      destruct (join_rooms _ _ _). by intros []. }
  exists n', p. split; [exact E|]. split; [done|]. destruct p; [|done]. destruct Ho as ([] & Hj & ->). split; [|done].
  apply bind_ret_inv in Hj as (r & Hw & Hj). rewrite join_split, Hw, bind_ret_l. destruct (join_checked range n r). by injection Hj as -> ->.
Qed.

Lemma new_id_ret (ps : gmap string Publication) ids : (exists id, id ∈ ids /\ ps !! id = None) -> exists id, new_id ps ids = Ret id.
Proof.
  intros (id & Hid & Hno). induction ids as [|i ids IH]; [by inversion Hid|]. cbn. case_match; [|eauto].
  apply IH. apply elem_of_cons in Hid as [->|?]; [congruence|done].
Qed.

Lemma new_sub_id_ret taken ids : (exists id, id ∈ ids /\ id ∉ taken) -> exists id, new_sub_id taken ids = Ret id.
Proof.
  intros (id & Hid & Hno). induction ids as [|i ids IH]; [by inversion Hid|]. cbn. case_decide; [|eauto].
  apply IH. apply elem_of_cons in Hid as [->|?]; done.
Qed.

Lemma publish_sound n msg ids tids :
  session_ok n -> (exists id, id ∈ ids /\ publications (sess n) !! id = None) -> sound_op n (Ret tt) (fun _ => publish n msg ids tids).
Proof.
  intros [_ _ _ Hpub] Hid. split; [done|]. intros _ _. unfold publish, Publish. destruct (PublishMessage_Validate msg) as [e|] eqn:Hv.
  - rewrite bind_ret_l. eexists _, _, _. split; [reflexivity|]. intros _. by destruct n as [? ? ? [] ?].
  - destruct (Pub_Op msg =? PUB_OP_ADD)%Z eqn:Ea; [|destruct (Pub_Op msg =? PUB_OP_REMOVE)%Z eqn:Er].
    + destruct (new_id_ret _ _ Hid) as [id ->]. rewrite !bind_ret_l. eexists _, _, _. split; [reflexivity|]. by intros [].
    + destruct (publications (sess n) !! Pub_Id msg) as [p|] eqn:Hp.
      * rewrite (proj2 (Hpub _ _ Hp)), bind_ret_l. eexists _, _, _. split; [reflexivity|]. by intros [].
      * rewrite bind_ret_l. eexists _, _, _. split; [reflexivity|]. by intros [].
    + unfold PublishMessage_Validate in Hv. by rewrite Ea, Er in Hv.
Qed.

Lemma SubscribeMessage_Validate_finishes msg : finishes (SubscribeMessage_Validate msg).
Proof.
  assert (finishes (validate_pattern (Sub_Pattern msg))) as Hv.
  { apply finishes_bind; [by destruct (Sub_Pattern msg)|]. intros p _. apply Validate_finishes. }
  unfold SubscribeMessage_Validate. by repeat case_match.
Qed.

Lemma update_returns (n : node_t) msg :
  session_ok n -> Sub_Id msg ∈ subscriptions (sess n) -> validate_pattern (Sub_Pattern msg) = Ret None ->
  exists w, UpdatePattern (world n) (Sub_Id msg) msg = Ret w.
Proof.
  intros [I _ Hsub _] Hin Hv. destruct (Hsub _ Hin) as [s Hs]. unfold validate_pattern in Hv.
  destruct (Sub_Pattern msg) as [p|] eqn:Hp; [|done]. cbn in Hv.
  destruct (MatchTracks_spec range_groups p ((fun kv => pubTrack kv.2) <$> range_tracks (tracks_of s)) (Sub_ReqTypes msg))
    as (ms & us & E & _); [by apply range_groups_perm|done|].
  destruct (UpdatePattern_spec (world n) (Sub_Id msg) s msg ms us I Hs) as (w' & s' & -> & _); [by rewrite Hp|eauto].
Qed.

Lemma Subscribe_sound n msg ids :
  session_ok n -> (exists id, id ∈ ids /\ id ∉ subscriptions (sess n)) ->
  sound_op n (SubscribeMessage_Validate msg) (subscribe_valid range n msg ids).
Proof.
  intros Hok Hid. split; [apply SubscribeMessage_Validate_finishes|]. intros [e|] Hv; [by eexists _, _, _|]. unfold subscribe_valid.
  destruct (Sub_Op msg =? SUB_OP_ADD)%Z eqn:Ea; [|destruct (Sub_Op msg =? SUB_OP_UPDATE)%Z eqn:Eu; [|destruct (Sub_Op msg =? SUB_OP_REMOVE)%Z eqn:Er]].
  - destruct (new_sub_id_ret _ _ Hid) as [id ->]. rewrite bind_ret_l. eexists _, _, _. split; [reflexivity|]. by intros [].
  - case_decide as Hin; [|by eexists _, _, _]. destruct (update_returns n msg Hok Hin) as [w ->].
    { unfold SubscribeMessage_Validate in Hv. rewrite Ea, Eu in Hv. by case_match. }
    rewrite bind_ret_l. eexists _, _, _. split; [reflexivity|]. by intros [].
  - case_decide as Hin; [|by eexists _, _, _]. cbn. destruct Hok as [I _ Hsub _]. destruct (Hsub _ Hin) as [s Hs].
    destruct (Close_spec _ _ _ I Hs) as (w' & -> & _). rewrite bind_ret_l. eexists _, _, _. split; [reflexivity|]. by intros [].
  - unfold SubscribeMessage_Validate in Hv. by rewrite Ea, Eu, Er in Hv.
Qed.

(** What a successful request did. *)
Definition published (n : node_t) (msg : PublishMessage) (id : string) (n' : node_t) : Prop :=
  (Pub_Op msg = PUB_OP_ADD -> (publications (sess n) !! id = None) /\ is_Some (publications (sess n') !! id)) /\
  (Pub_Op msg = PUB_OP_REMOVE -> publications (sess n') !! Pub_Id msg = None).

Definition subscribed (n : node_t) (msg : SubscribeMessage) (id : string) (n' : node_t) : Prop :=
  (Sub_Op msg = SUB_OP_ADD -> (id ∉ subscriptions (sess n)) /\ (id ∈ subscriptions (sess n')) /\
     (subs (world n') !! id = Some (new_subscription (own_id n) msg))) /\
  (Sub_Op msg = SUB_OP_UPDATE -> id = Sub_Id msg /\ exists s, (subs (world n') !! id = Some s) /\ pattern s = Sub_Pattern msg) /\
  (Sub_Op msg = SUB_OP_REMOVE -> (Sub_Id msg ∉ subscriptions (sess n')) /\
     exists s, subs (world n') !! Sub_Id msg = Some s /\ closed s = true).

Lemma publish_did n msg ids tids n' id : publish n msg ids tids = Ret (n', id, None) -> published n msg id n'.
Proof.
  intros Hs. unfold publish in Hs. apply bind_ret_inv in Hs as ([[ps k] err] & Hs & Hr). injection Hr as <- <- ->.
  unfold Publish in Hs. case_match; [done|]. split; intros Eop; rewrite Eop in Hs; cbn in Hs.
  - apply bind_ret_inv in Hs as (pid & Hn & Hs). injection Hs as <- <-. split; [|cbn; rewrite lookup_insert_eq; eauto].
    induction ids as [|i ids IH]; [done|]. cbn in Hn. case_match; [by apply IH|]. by injection Hn as ->.
  - cbn. destruct (publications (sess n) !! Pub_Id msg) eqn:E; [|by injection Hs as <- _].
    case_match; [done|]. injection Hs as <- _. apply lookup_delete_eq.
Qed.

Lemma Subscribe_did n msg ids n' id : session_ok n -> Subscribe range n msg ids = Ret (n', id, None) -> subscribed n msg id n'.
Proof.
  intros [I _ Hsub _] Hs. unfold Subscribe, subscribe_valid in Hs. apply bind_ret_inv in Hs as ([e'|] & _ & Hs); [done|].
  split; [|split]; intros Eop; rewrite Eop in Hs; cbn in Hs.
  - apply bind_ret_inv in Hs as (pid & [_ Hn]%new_sub_id_inv & Hs). injection Hs as <- <-. split; [done|]. cbn. split; [set_solver|apply lookup_insert_eq].
  - case_decide as Hin; [|done]. apply bind_ret_inv in Hs as (w & Hw & Hs). injection Hs as <- <-. split; [done|].
    unfold UpdatePattern in Hw. apply bind_ret_inv in Hw as (? & _ & Hw). apply bind_ret_inv in Hw as ([? ?] & _ & Hw).
    apply bind_ret_inv in Hw as (? & _ & Hw). apply bind_ret_inv in Hw as (? & _ & Hw). injection Hw as <-. cbn. rewrite lookup_insert_eq. eauto.
  - case_decide as Hin; [|done]. apply bind_ret_inv in Hs as (w & Hw & Hs). injection Hs as <- <-. cbn. split; [set_solver|].
    cbn in Hw. destruct (Hsub _ Hin) as [s0 Hs0]. destruct (Close_spec _ _ _ I Hs0) as (w' & E & _ & _ & S & _). rewrite E in Hw.
    injection Hw as <-. rewrite S, lookup_insert_eq. eauto.
Qed.

(** [served q args n rs n']: the request [q] succeeded at [n], with the results [rs], and led to [n']. *)
Definition served (q : request) (args : list arg) (n : node_t) (rs : list reply) (n' : node_t) : Prop :=
  match q with
  | QJoin => exists a rooms, args = [a] /\ decode_Rooms a = inl rooms /\ join range n rooms = Ret (n', None) /\ rs = []
  | QLeave => exists a rooms, args = [a] /\ decode_Rooms a = inl rooms /\ n' = leave range n rooms /\ rs = []
  | QPublish ids tids => exists a msg id, args = [a] /\ decode_Publish a = inl msg /\
      publish n msg ids tids = Ret (n', id, None) /\ rs = [RPublishResult id] /\ published n msg id n'
  | QSubscribe ids => exists a msg id, args = [a] /\ decode_Subscribe a = inl msg /\
      Subscribe range n msg ids = Ret (n', id, None) /\ rs = [RSubscribeResult id] /\ subscribed n msg id n'
  | QUserInfo => n' = n /\ rs = [RUserInfo (MakeUserInfo range (sctx_ (sess n)))]
  | QPing => exists a msg, args = [a] /\ decode_Ping a = inl msg /\ addressed (Ping_Router msg) = true /\
      n' = emit n (EPing <$> clusterEmit range (sctx_ (sess n)) msg) /\ rs = []
  | QPong => exists a msg, args = [a] /\ decode_Pong a = inl msg /\ addressed (Pong_Router msg) = true /\
      n' = emit n (EPong <$> clusterEmit range (sctx_ (sess n)) msg) /\ rs = []
  end.

(** The random ids tried by a request: one of them is new, and none is an id of somebody else. *)
Definition new_ids (n : node_t) (q : request) : Prop :=
  match q with
  | QPublish ids _ => exists id, id ∈ ids /\ publications (sess n) !! id = None
  | QSubscribe ids => (exists id, id ∈ ids /\ id ∉ subscriptions (sess n)) /\
      forall i, i ∈ ids -> i ∈ subscriptions (sess n) \/ subs (world n) !! i = None
  | _ => True
  end.

(** Whether the handler of a request uses the acknowledgement function. *)
Definition acks (q : request) (ack : bool) : bool := match q with QPing | QPong => false | _ => ack end.
Definition event (q : request) : string :=
  match q with
  | QJoin => "join" | QLeave => "leave" | QPublish _ _ => "publish" | QSubscribe _ => "subscribe"
  | QUserInfo => "user-info" | QPing => "ping" | QPong => "pong"
  end.

Lemma parse_inv {X} (decode : arg -> X + err_t) args x : parseArgs decode args = inl x -> exists a, args = [a] /\ decode a = inl x.
Proof. destruct args as [|a [|? ?]]; [done| |done]. cbn. eauto. Qed.

Lemma parse_proper {X} (decode : arg -> X + err_t) args e :
  (forall a e, decode a = inr e -> proper (PErr e)) -> parseArgs decode args = inr e -> proper (PErr e).
Proof. destruct args as [|a [|? ?]]; cbn; [by intros _ [= <-]|eauto|by intros _ [= <-]]. Qed.

Lemma handled {X} n ack cause (decode : arg -> X + err_t) args run_ (S : X -> list reply -> node_t -> Prop) :
  (forall a e, decode a = inr e -> proper (PErr e)) ->
  (forall x, exists n' p, run_ x = Ret (n', p) /\ (forall r, p = inr r -> proper r) /\
     match p with inl rs => S x rs n' | inr _ => n' = n end) ->
  exists n' p, leaves n n' ack cause p (in_place n ack cause (parseArgs decode args) run_) /\
    leaves n n' ack cause p (in_goroutine n ack cause (parseArgs decode args) run_) /\
    match p with inl rs => exists a x, args = [a] /\ decode a = inl x /\ S x rs n' | inr _ => n' = n end.
Proof.
  intros Hd Hr. destruct (in_place_leaves n ack cause (parseArgs decode args) run_) as (n' & p & L1 & L2 & Hp).
  { intros e. by apply parse_proper. }
  { intros x _. destruct (Hr x) as (n' & p & ? & ? & _). eauto. }
  exists n', p. split; [exact L1|]. split; [exact L2|]. destruct (parseArgs decode args) as [x|e] eqn:Ep.
  - destruct (parse_inv _ _ _ Ep) as (a & Ha & Hx). destruct (Hr x) as (n1 & p1 & E & _ & HS). rewrite E in Hp. injection Hp as -> ->.
    destruct p; [by exists a, x|done].
  - by destruct Hp as [-> ->].
Qed.

(** The handlers of pings and pongs. *)
Lemma probe_leaves {X} n (ack : bool) cause (decode : arg -> X + err_t) args t1 t2 (rt : X -> option Router) (send : X -> node_t) :
  (forall a e, decode a = inr e -> proper (PErr e)) ->
  exists n' p, leaves n n' false cause p (in_place n false cause (parseArgs decode args) (fun msg =>
      if ack then refuse n t1 else if negb (addressed (rt msg)) then refuse n t2 else Ret (send msg, inl []))) /\
    match p with
    | inl rs => exists a msg, args = [a] /\ decode a = inl msg /\ ack = false /\ addressed (rt msg) = true /\ n' = send msg /\ rs = []
    | inr _ => n' = n
    end.
Proof.
  intros Hd. destruct (handled n false cause decode args (fun msg =>
      if ack then refuse n t1 else if negb (addressed (rt msg)) then refuse n t2 else Ret (send msg, inl []))
      (fun msg rs n' => ack = false /\ addressed (rt msg) = true /\ n' = send msg /\ rs = []) Hd) as (n' & p & L & _ & Hp).
  - intros x. destruct ack; [eexists _, _; split; [done|]; split; [by intros r [= <-]|done]|].
    destruct (addressed (rt x)) eqn:E; cbn; eexists _, _; (split; [done|]); (split; [by intros r [= <-]|done]).
  - by exists n', p.
Qed.

(** Handling a request is serving it or leaving the state as it was, and then answering. *)
Lemma handle_leaves lost n ack q args :
  session_ok n -> new_ids n q ->
  exists n' p, leaves n n' (acks q ack) (event q) p (handle range lost n ack q args) /\
    match p with inl rs => served q args n rs n' /\ (acks q ack = false -> ack = false) | inr _ => n' = n end.
Proof.
  intros Hok Hids. destruct q as [| |ids tids|ids| | |]; cbn [handle acks event].
  - destruct (handled n ack "join" decode_Rooms args _ (fun rooms rs n' => join range n rooms = Ret (n', None) /\ rs = []) rooms_proper
      (fun rooms => body_join n rooms)) as (n' & p & L & _ & Hp). exists n', p. split; [exact L|]. destruct p; [|done].
    split; [|done]. naive_solver.
  - destruct (handled n ack "leave" decode_Rooms args (fun rooms => Ret (leave range n rooms, inl []))
      (fun rooms rs n' => n' = leave range n rooms /\ rs = []) rooms_proper) as (n' & p & L & _ & Hp); [by intros rooms; exists (leave range n rooms), (inl [])|].
    exists n', p. split; [exact L|]. destruct p; [|done]. split; [|done]. naive_solver.
  - destruct (handled n ack "publish" decode_Publish args (fun msg => body lost n (Ret tt) (fun _ => publish n msg ids tids) (fun id => [RPublishResult id]))
      (fun msg rs n' => exists id, publish n msg ids tids = Ret (n', id, None) /\ rs = [RPublishResult id]) publish_proper) as (n' & p & _ & L & Hp).
    { intros msg. apply (body_leaves lost n (Ret tt) (fun _ => publish n msg ids tids)). by apply publish_sound. }
    exists n', p. split; [exact L|]. destruct p; [|done]. split; [|done].
    destruct Hp as (a & msg & -> & Ha & id & Hs & ->). exists a, msg, id. split_and!; try done. by eapply publish_did.
  - destruct (handled n ack "subscribe" decode_Subscribe args (fun msg => body lost n (SubscribeMessage_Validate msg) (subscribe_valid range n msg ids) (fun id => [RSubscribeResult id]))
      (fun msg rs n' => exists id, Subscribe range n msg ids = Ret (n', id, None) /\ rs = [RSubscribeResult id]) subscribe_proper) as (n' & p & _ & L & Hp).
    { intros msg. apply (body_leaves lost n (SubscribeMessage_Validate msg) (subscribe_valid range n msg ids)).
      apply Subscribe_sound; [done|apply Hids]. }
    exists n', p. split; [exact L|]. destruct p; [|done]. split; [|done].
    destruct Hp as (a & msg & -> & Ha & id & Hs & ->). exists a, msg, id. split_and!; try done. by eapply Subscribe_did.
  - exists n, (inl [RUserInfo (MakeUserInfo range (sctx_ (sess n)))]). split; [|done]. split; [done|]. by destruct ack; eexists.
  - destruct (probe_leaves n ack "ping" decode_Ping args "ping msg does not support ack" "ping msg require a router with valid socketTo attribute"
      Ping_Router (fun msg => emit n (EPing <$> clusterEmit range (sctx_ (sess n)) msg)) ping_proper) as (n' & p & L & Hp).
    exists n', p. split; [exact L|]. destruct p; [|done]. destruct Hp as (a & msg & -> & Ha & -> & Hd & -> & ->). split; [|done]. cbn. eauto 10.
  - destruct (probe_leaves n ack "pong" decode_Pong args "pong msg does not support ack" "pong msg require a router with valid socketTo attribute"
      Pong_Router (fun msg => emit n (EPong <$> clusterEmit range (sctx_ (sess n)) msg)) pong_proper) as (n' & p & L & Hp).
    exists n', p. split; [exact L|]. destruct p; [|done]. destruct Hp as (a & msg & -> & Ha & -> & Hd & -> & ->). split; [|done]. cbn. eauto 10.
Qed.

(** A request that was served keeps the invariant of the session. *)
Lemma served_inv q args n rs n' :
  s_closed (sess n) = false -> session_inv n -> new_ids n q -> served q args n rs n' -> session_inv n'.
Proof.
  intros Hc Hn Hids Hs. destruct q as [| |ids tids|ids| | |]; cbn in Hs.
  - destruct Hs as (_ & rooms & _ & _ & Hj & _). by destruct (join_inv _ _ _ _ _ Hj Hn).
  - destruct Hs as (_ & rooms & _ & _ & -> & _). by apply (inv_frame n).
  - destruct Hs as (_ & msg & id & _ & _ & Hp & _). by eapply publish_keeps.
  - destruct Hs as (_ & msg & id & _ & _ & Hs & _). destruct Hids as [_ Hf]. by eapply (subscribe_keeps range).
  - by destruct Hs as [-> _].
  - destruct Hs as (_ & msg & _ & _ & _ & -> & _). by apply (inv_frame n).
  - destruct Hs as (_ & msg & _ & _ & _ & -> & _). by apply (inv_frame n).
Qed.

End Proofs.

(** ** Witness *)
Module Toy.
Import Templates.Toy SessionProps.Toy.

(** Arguments that are already messages. *)
Inductive arg := ARooms (rooms : list string) | APublish (m : PublishMessage) | ASubscribe (m : SubscribeMessage) | AOther.
Definition wrong : err_t := EStd "expected a map".

#[local] Instance args : Args arg := {|
  decode_Rooms a := match a with ARooms l => inl l | _ => inr wrong end;
  decode_Publish a := match a with APublish m => inl m | _ => inr wrong end;
  decode_Subscribe a := match a with ASubscribe m => inl m | _ => inr wrong end;
  decode_Ping a := inr wrong; decode_Pong a := inr wrong;
  error_of c := mkError c "" None [] "" None
|}.

#[local] Instance args_laws : ArgsLaws args.
Proof. split; intros a e; cbn; try (by intros [= <-]); destruct a; cbn; intros He; try discriminate He; by injection He as <-. Qed.

Lemma opened_inv : session_inv opened.
Proof.
  apply (reachable_session range0 range0_perm http_ok ready_ok Config.debug_config node0); [exact node0_fresh|].
  eapply rtc_once, (st_init _ _ _ _ node0 opened (true, None)). vm_compute. reflexivity.
Qed.

End Toy.
