(* ===== verification/KeepAlive.v ===== *)
(** * KeepAlive: watching another client ([client/websocket.go], [client/signal.go])

    In active mode a goroutine pings another client of a room in rounds and waits for the pong of each; in
    passive mode it waits for the pings of the other.  What happened is told to a callback, which may end the
    watching.  The environment of a round is what arrives during it and how it ends; [select] takes what is
    ready first.  The passive channels are modelled with their mutex, step by step, since a ping is put on them while it is held. *)
From S2P Require Import Prelude Collection Messages Client.
Local Open Scope string_scope.
Local Open Scope list_scope.

Record KeepAliveContext := { Err : option gerror; TimeoutNum : Z; TimeoutDuration : Z }.

Definition new_ka : KeepAliveContext := {| Err := None; TimeoutNum := 0; TimeoutDuration := 0 |}.
Definition set_err (e : option gerror) (ka : KeepAliveContext) : KeepAliveContext :=
  {| Err := e; TimeoutNum := TimeoutNum ka; TimeoutDuration := TimeoutDuration ka |}.

(** ** Active mode *)

(** A callback registered for "pong": the variables it captures. *)
Record pong_cb := { pc_msg_id : Z; pc_sid : string; pc_room : string }.

(** The fields of the client that the rounds use; [pings] are the messages sent. *)
Record client := { ping_msg_id : Z; pong_cbs : list pong_cb; pings : list PingMessage }.

(** What arrives as a pong: the message, or the error of decoding it. *)
Definition arrival : Type := PongMessage + gerror.

Inductive pong_result := Keeps | Answers | Fails (e : gerror).

#[global] Instance pong_result_eq_dec : EqDecision pong_result.
Proof. solve_decision. Defined.

(** One call of a callback: what it does with its channels. *)
Definition call_pong (cb : pong_cb) (a : arrival) : pong_result :=
  match a with
  | inr e => Fails e
  | inl m =>
      let r := default zero_router (Pong_Router m) in
      if (Pong_MsgId m =? pc_msg_id cb)%Z && bool_decide (SocketFrom r = pc_sid cb) && bool_decide (Room r = pc_room cb)
      then Answers else Keeps
  end.

(** [msg_cbs.Run] for "pong": the callbacks that return true stay. *)
Definition on_pong (a : arrival) (c : client) : client :=
  {| ping_msg_id := ping_msg_id c; pong_cbs := filter (fun cb => call_pong cb a = Keeps) (pong_cbs c); pings := pings c |}.

(** How a wait ends when no pong ends it. *)
Inductive ending := Timeout (since : Z) | CtxDone | ClientDone.

(** The environment of a round: the result of sending, what arrives, how the wait ends, and how the pause ends. *)
Record round := { r_send : option gerror; r_arrivals : list arrival; r_ending : ending; r_pause : ending }.

(** The first [select], as long as its callback is not called for it. *)
Fixpoint wait_pong (cb : pong_cb) (l : list arrival) (c : client) : client * option (option gerror) :=
  match l with
  | [] => (c, None)
  | a :: l =>
      let c := on_pong a c in
      match call_pong cb a with
      | Keeps => wait_pong cb l c
      | Answers => (c, Some None)
      | Fails e => (c, Some (Some e))
      end
  end.

Section Loop.
Context (room sid : string) (errCb : KeepAliveContext -> bool).

(** The result of a part of a round: the context, what was told to the callback, and whether the goroutine goes on. *)
Definition told (ka : KeepAliveContext) : list KeepAliveContext * bool := ([ka], negb (errCb ka)).

(** An error is told and then forgotten. *)
Definition tell_err (e : gerror) (ka : KeepAliveContext) : KeepAliveContext * list KeepAliveContext * bool :=
  let ka := set_err (Some e) ka in
  let '(out, go) := told ka in
  (if go then set_err None ka else ka, out, go).

Definition tell_timeout (since : Z) (ka : KeepAliveContext) : KeepAliveContext * list KeepAliveContext * bool :=
  let ka := {| Err := Err ka; TimeoutNum := (TimeoutNum ka + 1)%Z; TimeoutDuration := (TimeoutDuration ka + since)%Z |} in
  let '(out, go) := told ka in (ka, out, go).

Definition reset (ka : KeepAliveContext) : KeepAliveContext := {| Err := Err ka; TimeoutNum := 0; TimeoutDuration := 0 |}.

Definition active_round (r : round) (c : client) (ka : KeepAliveContext) : client * KeepAliveContext * list KeepAliveContext * bool :=
  let msg_id := u32 (ping_msg_id c + 1) in
  let cb := {| pc_msg_id := msg_id; pc_sid := sid; pc_room := room |} in
  let ping := {| Ping_Router := Some {| Room := room; NodeFrom := ""; NodeTo := ""; SocketFrom := ""; SocketTo := sid |}; Ping_MsgId := msg_id |} in
  let c := {| ping_msg_id := msg_id; pong_cbs := pong_cbs c ++ [cb]; pings := pings c ++ (match r_send r with Some _ => [] | None => [ping] end) |} in
  let '(c, (ka, out, go)) :=
    match r_send r with
    | Some e => (c, tell_err e ka)
    | None =>
        match wait_pong cb (r_arrivals r) c with
        | (c, Some None) => (c, (reset ka, [], true))
        | (c, Some (Some e)) => (c, tell_err e ka)
        | (c, None) => (c, match r_ending r with Timeout since => tell_timeout since ka | _ => (ka, [], false) end)
        end
    end in
  (c, ka, out, go && match r_pause r with CtxDone => false | _ => true end).

(** The rounds until the goroutine ends. *)
Fixpoint active_loop (l : list round) (c : client) (ka : KeepAliveContext) : client * KeepAliveContext * list KeepAliveContext * bool :=
  match l with
  | [] => (c, ka, [], true)
  | r :: l =>
      let '(c, ka, out, go) := active_round r c ka in
      if (go : bool) then let '(c, ka, out', go) := active_loop l c ka in (c, ka, out ++ out', go) else (c, ka, out, false)
  end.

(** ** Passive mode *)

(** What the [select] of passive mode takes. *)
Inductive passive_event := Pinged | Ends (x : ending).

Definition passive_round (x : passive_event) (ka : KeepAliveContext) : KeepAliveContext * list KeepAliveContext * bool :=
  match x with
  | Pinged => (reset ka, [], true)
  | Ends (Timeout since) => tell_timeout since ka
  | Ends _ => (ka, [], false)
  end.

Fixpoint passive_rounds (l : list passive_event) (ka : KeepAliveContext) : KeepAliveContext * list KeepAliveContext * bool :=
  match l with
  | [] => (ka, [], true)
  | x :: l =>
      let '(ka, out, go) := passive_round x ka in
      if (go : bool) then let '(ka, out', go) := passive_rounds l ka in (ka, out ++ out', go) else (ka, out, false)
  end.

(** Where a passive watcher is: it waits for [ping_chs_mux] to take its channel, it watches, it waits for the
    mutex to give the channel back, or it is done. *)
Inductive passive_at := Subscribing | Watching | Unsubscribing | Stopped.

#[global] Instance passive_at_eq_dec : EqDecision passive_at.
Proof. solve_decision. Defined.

(** The channel of pings is taken before the first round and given back after the last, each time under
    [ping_chs_mux].  [got_in] and [got_out] tell whether the goroutine gets the mutex, and [meanwhile] is what
    the other goroutines do to the channels between. *)
Definition passive_loop {Ch : Type} `{EqDecision Ch} (got_in got_out : bool) (meanwhile : gmap PingKey (list Ch) -> gmap PingKey (list Ch))
    (m : gmap PingKey (list Ch)) (ch : Ch) (l : list passive_event) : run (gmap PingKey (list Ch) * KeepAliveContext * list KeepAliveContext * passive_at) :=
  if negb got_in then Ret (m, new_ka, [], Subscribing)
  else
    let m := meanwhile (subscribePingMsg m room sid ch) in
    let '(ka, out, go) := passive_rounds l new_ka in
    if (go : bool) then Ret (m, ka, out, Watching)
    else if negb got_out then Ret (m, ka, out, Unsubscribing)
    else m ← unsubscribePingMsg m room sid ch; Ret (m, ka, out, Stopped).
End Loop.

(** ** Properties *)

(** Whether the callback gives up at the count [n] after the rounds [ms], missed or not. *)
Fixpoint gives_up (k n : nat) (ms : list bool) : bool :=
  match ms with
  | [] => false
  | true :: ms => if (k <=? S n)%nat then true else gives_up k (S n) ms
  | false :: ms => gives_up k 0 ms
  end.

Lemma replicate_infix_nil (k n : nat) : n < k -> ~ exists pre post : list bool, replicate n true = pre ++ replicate k true ++ post.
Proof. intros Hn (pre & post & E). apply (f_equal length) in E. rewrite !length_app, !length_replicate in E. lia. Qed.

(** A missed round after [n] of them: [k] in a row are among them now, or there is one more. *)
Lemma gives_up_iff k ms : forall n,
  n < k -> gives_up k n ms = true <-> exists pre post, replicate n true ++ ms = pre ++ replicate k true ++ post.
Proof.
  induction ms as [|[] ms IH]; intros n Hn; cbn [gives_up].
  - rewrite app_nil_r. split; [done|]. intros Hx. by apply replicate_infix_nil in Hx.
  - assert (replicate n true ++ true :: ms = replicate (S n) true ++ ms) as ->.
    { rewrite replicate_S_end, <- app_assoc. done. }
    destruct (Nat.leb_spec k (S n)); [|by apply IH]. assert (k = S n) as -> by lia. split; [|done]. intros _. by exists [], ms.
  - rewrite IH by lia. cbn [replicate app]. split; intros (pre & post & E).
    + exists (replicate n true ++ false :: pre), post. by rewrite E, <- app_assoc.
    + assert (forall m pre, replicate m true ++ false :: ms = pre ++ replicate k true ++ post -> m < k ->
        exists pre', ms = pre' ++ replicate k true ++ post) as Hgo.
      { clear. induction m as [|m IH]; intros [|x pre] E Hm; cbn in E.
        - destruct k; [lia|]. discriminate E.
        - injection E as _ ->. by exists pre.
        - exfalso. change (replicate (S m) true ++ false :: ms = replicate k true ++ post) in E.
          apply (f_equal (lookup (S m))) in E. rewrite lookup_app_r, length_replicate, Nat.sub_diag in E by (rewrite length_replicate; lia).
          cbn in E. rewrite lookup_app_l, lookup_replicate_2 in E by (rewrite ?length_replicate; lia). discriminate E.
        - injection E as _ E. apply (IH pre); [done|lia]. }
      destruct (Hgo n pre E Hn) as [pre' ->]. by exists pre', post.
Qed.

Section Active.
Context (room sid : string) (k : nat).

(** A callback that gives up after [k] missed rounds. *)
Definition patience (ka : KeepAliveContext) : bool := (Z.of_nat k <=? TimeoutNum ka)%Z.

(** No pong answers the ping. *)
Definition missed (cb : pong_cb) (l : list arrival) : bool := forallb (fun a => bool_decide (call_pong cb a = Keeps)) l.

(** Which rounds are missed, after the ping [id]. *)
Fixpoint missed_rounds (id : Z) (l : list round) : list bool :=
  match l with
  | [] => []
  | r :: l => missed {| pc_msg_id := u32 (id + 1); pc_sid := sid; pc_room := room |} (r_arrivals r) :: missed_rounds (u32 (id + 1)) l
  end.

(** A round in which nothing fails and nobody ends the watching. *)
Record undisturbed (r : round) : Prop := {
  ud_send : r_send r = None;
  ud_pongs : Forall (fun a => exists m, a = inl m) (r_arrivals r);
  ud_end : exists since, r_ending r = Timeout since;
  ud_pause : r_pause r <> CtxDone
}.

Lemma wait_pong_spec cb l : forall c,
  Forall (fun a => exists m, a = inl m) l ->
  (wait_pong cb l c).2 = (if missed cb l then None else Some None) /\ ping_msg_id (wait_pong cb l c).1 = ping_msg_id c.
Proof.
  induction l as [|a l IH]; intros c Hl; [done|]. apply Forall_cons in Hl as [[m ->] Hl']. cbn [wait_pong missed forallb].
  destruct (call_pong cb (inl m)) eqn:E; cbn; [|done|].
  - apply (IH (on_pong (inl m) c) Hl').
  - unfold call_pong in E. by case_match.
Qed.

Lemma active_loop_spec rounds : forall c ka n,
  n < k -> Err ka = None -> TimeoutNum ka = Z.of_nat n -> Forall undisturbed rounds ->
  let ms := missed_rounds (ping_msg_id c) rounds in
  let '(_, ka', out, go) := active_loop room sid patience rounds c ka in
  go = negb (gives_up k n ms) /\ (go = false -> TimeoutNum ka' = Z.of_nat k /\ last out = Some ka') /\
  Forall (fun x => (0 < TimeoutNum x <= Z.of_nat k)%Z /\ Err x = None) out /\ (Forall (fun b => b = false) ms -> out = []).
Proof.
  induction rounds as [|r rounds IH]; intros c ka n Hn He Ht Hu; [done|].
  apply Forall_cons in Hu as [[Hs Ha [since Hd] Hp] Hu']. cbn [active_loop missed_rounds gives_up]. unfold active_round. rewrite Hs.
  set (cb := {| pc_msg_id := u32 (ping_msg_id c + 1); pc_sid := sid; pc_room := room |}).
  set (c1 := {| ping_msg_id := u32 (ping_msg_id c + 1); pong_cbs := pong_cbs c ++ [cb]; pings := _ |}).
  destruct (wait_pong_spec cb (r_arrivals r) c1 Ha) as [Hw Hi]. destruct (wait_pong cb (r_arrivals r) c1) as [c2 res]. cbn in Hw, Hi. subst res.
  assert (match r_pause r with CtxDone => false | _ => true end = true) as -> by (by destruct (r_pause r)).
  destruct (missed cb (r_arrivals r)).
  - rewrite Hd. unfold tell_timeout, told, patience. cbn [TimeoutNum]. rewrite Ht.
    destruct (Nat.leb_spec k (S n)) as [Hk|Hk].
    + rewrite (proj2 (Z.leb_le _ _)) by lia. cbn. split; [done|]. split; [split; [lia|done]|].
      split; [constructor; [split; [cbn; lia|done]|constructor]|]. by inversion 1.
    + rewrite (proj2 (Z.leb_gt _ _)) by lia. cbn [negb andb].
      specialize (IH c2 {| Err := Err ka; TimeoutNum := Z.of_nat n + 1; TimeoutDuration := TimeoutDuration ka + since |} (S n)).
      rewrite Hi in IH. cbn [ping_msg_id c1] in IH. destruct (active_loop _ _ _ _ _ _) as [[[c3 ka3] out3] go3].
      destruct IH as (Hg & Hl & Hf & Hno); [lia|done|cbn; lia|done|]. split; [done|]. split; [|split].
      * intros Hgo. destruct (Hl Hgo) as [? Hlast]. split; [done|]. cbn. destruct out3; [discriminate Hlast|exact Hlast].
      * cbn. constructor; [split; [cbn; lia|done]|done].
      * by inversion 1.
  - cbn [negb andb]. specialize (IH c2 (reset ka) 0%nat). rewrite Hi in IH. cbn [ping_msg_id c1] in IH.
    destruct (active_loop _ _ _ _ _ _) as [[[c3 ka3] out3] go3]. destruct IH as (Hg & Hl & Hf & Hno); [lia|done|done|done|].
    cbn. split; [done|]. split; [done|]. split; [done|]. intros Hm. inversion_clear Hm. by apply Hno.
Qed.

(** Passive mode: the waits that time out, and the same for them. *)
Definition timed_out (x : passive_event) : bool := match x with Ends (Timeout _) => true | _ => false end.

Lemma passive_rounds_spec l : forall ka n,
  n < k -> Err ka = None -> TimeoutNum ka = Z.of_nat n -> Forall (fun x => x = Pinged \/ timed_out x = true) l ->
  let '(ka', out, go) := passive_rounds patience l ka in
  go = negb (gives_up k n (timed_out <$> l)) /\ (go = false -> TimeoutNum ka' = Z.of_nat k /\ last out = Some ka') /\
  Forall (fun x => (0 < TimeoutNum x <= Z.of_nat k)%Z /\ Err x = None) out.
Proof.
  induction l as [|x l IH]; intros ka n Hn He Ht Hl; [done|]. apply Forall_cons in Hl as [Hx Hl]. cbn [passive_rounds fmap list_fmap gives_up].
  destruct x as [|[since| |]]; cbn [timed_out]; [| |by destruct Hx..].
  - cbn [passive_round]. specialize (IH (reset ka) 0%nat). destruct (passive_rounds _ _ _) as [[ka3 out3] go3].
    destruct IH as (Hg & Hl' & Hf); [lia|done|done|done|]. done.
  - cbn [passive_round]. unfold tell_timeout, told, patience. cbn [TimeoutNum]. rewrite Ht. destruct (Nat.leb_spec k (S n)) as [Hk|Hk].
    + rewrite (proj2 (Z.leb_le _ _)) by lia. cbn. split; [done|]. split; [split; [lia|done]|].
      constructor; [split; [cbn; lia|done]|constructor].
    + rewrite (proj2 (Z.leb_gt _ _)) by lia. cbn [negb].
      specialize (IH {| Err := Err ka; TimeoutNum := Z.of_nat n + 1; TimeoutDuration := TimeoutDuration ka + since |} (S n)).
      destruct (passive_rounds _ _ _) as [[ka3 out3] go3]. destruct IH as (Hg & Hl' & Hf); [lia|done|cbn; lia|done|].
      split; [done|]. split; [|cbn; constructor; [split; [cbn; lia|done]|done]].
      intros Hgo. destruct (Hl' Hgo) as [? Hlast]. split; [done|]. cbn. destruct out3; [discriminate Hlast|exact Hlast].
Qed.

(** Giving a channel back: it is no longer among those of its key, and nothing else changes. *)
Definition given_back {Ch : Type} `{EqDecision Ch} (m : gmap PingKey (list Ch)) (ch : Ch) (m' : gmap PingKey (list Ch)) : Prop :=
  default [] (m' !! (room, sid)) = filter (fun c => c <> ch) (default [] (m !! (room, sid))) /\
  forall key, key <> (room, sid) -> m' !! key = m !! key.

Lemma unsubscribe_spec {Ch : Type} `{EqDecision Ch} (m : gmap PingKey (list Ch)) (ch : Ch) :
  exists m', unsubscribePingMsg m room sid ch = Ret m' /\ given_back m ch m'.
Proof.
  unfold unsubscribePingMsg, given_back. destruct (m !! (room, sid)) as [chs|] eqn:E.
  - destruct (SliceRemove_correct chs false (fun _ => true) ch []) as (_ & -> & _). cbn [mbind run_bind].
    eexists. split; [reflexivity|]. cbn [default id]. unfold id. destruct (filter (fun v => v <> ch) chs) as [|c l]; cbn [length Nat.ltb Nat.leb].
    + rewrite lookup_delete_eq. split; [reflexivity|]. intros key Hk. by rewrite lookup_delete_ne.
    + rewrite lookup_insert_eq. split; [reflexivity|]. intros key Hk. by rewrite lookup_insert_ne.
  - eexists. split; [reflexivity|]. rewrite E. split; [reflexivity|]. intros key _. reflexivity.
Qed.

(** C19. Watching another client with a callback that gives up at [k] timeouts, when no ping fails to be sent, every
    pong decodes and neither the context nor the client ends.  In active mode, whatever pongs arrive, of other
    clients, rooms and earlier pings too: the watching ends exactly when [k] rounds in a row were missed, that
    is, when none of the pongs during them answers the ping of the round; the last report then counts [k]
    timeouts, and a client whose pings are all answered is never reported.  In passive mode, once the goroutine
    got [ping_chs_mux] to take its channel, it stops watching exactly when [k] waits in a row saw no ping, the last report counting
    [k] timeouts.  It then waits for the mutex, and only when it gets it the channel, and nothing else, is given
    back, whatever the other goroutines did to the channels.  ([ping_deadlock] is a run in which the mutex is
    never free again.) *)
Theorem keep_alive_detects {Ch : Type} `{EqDecision Ch} (c : client) (rounds : list round) (got_out : bool)
    (meanwhile : gmap PingKey (list Ch) -> gmap PingKey (list Ch)) (m : gmap PingKey (list Ch)) (ch : Ch) (events : list passive_event) :
  0 < k -> Forall undisturbed rounds -> Forall (fun x => x = Pinged \/ timed_out x = true) events ->
  (let '(_, ka, out, go) := active_loop room sid patience rounds c new_ka in
   let ms := missed_rounds (ping_msg_id c) rounds in
   (go = false <-> exists pre post, ms = pre ++ replicate k true ++ post) /\
   (go = false -> TimeoutNum ka = Z.of_nat k /\ last out = Some ka) /\ (Forall (fun b => b = false) ms -> out = [])) /\
  exists m' ka out at_, passive_loop room sid patience true got_out meanwhile m ch events = Ret (m', ka, out, at_) /\
    (at_ = Watching <-> ~ exists pre post, (timed_out <$> events) = pre ++ replicate k true ++ post) /\
    (at_ <> Watching -> TimeoutNum ka = Z.of_nat k /\ last out = Some ka /\ at_ = if got_out then Stopped else Unsubscribing) /\
    (let m1 := meanwhile (subscribePingMsg m room sid ch) in
     if bool_decide (at_ = Stopped) then given_back m1 ch m' else m' = m1).
Proof.
  intros Hk Hr He. split.
  - pose proof (active_loop_spec rounds c new_ka 0 Hk eq_refl eq_refl Hr) as Ha. cbv zeta in Ha |- *.
    destruct (active_loop room sid patience rounds c new_ka) as [[[c' ka] out] go]. destruct Ha as (-> & Hl & _ & Hno).
    split; [|done]. rewrite negb_false_iff. by apply gives_up_iff.
  - pose proof (passive_rounds_spec events new_ka 0 Hk eq_refl eq_refl He) as Hp. unfold passive_loop. cbn [negb].
    destruct (passive_rounds patience events new_ka) as [[ka out] go]. destruct Hp as (Hg & Hl & _).
    assert (go = true <-> ~ exists pre post, (timed_out <$> events) = pre ++ replicate k true ++ post) as Hiff.
    { pose proof (gives_up_iff k (timed_out <$> events) 0 Hk) as Hi. cbn [replicate app] in Hi. rewrite <- Hi, Hg.
      by destruct (gives_up _ _ _). }
    destruct go; [|destruct (Hl eq_refl) as [Ht Hlast]; destruct got_out; cbn [negb]].
    + eexists _, _, _, _. split; [reflexivity|]. split; [tauto|]. split; [done|]. by rewrite bool_decide_eq_false_2.
    + destruct (unsubscribe_spec (meanwhile (subscribePingMsg m room sid ch)) ch) as (m' & -> & Hb).
      exists m', ka, out, Stopped. split; [reflexivity|]. rewrite bool_decide_eq_true_2 by done.
      split; [split; [done|]; intros Hn; by apply Hiff in Hn|]. done.
    + exists (meanwhile (subscribePingMsg m room sid ch)), ka, out, Unsubscribing. split; [reflexivity|].
      rewrite bool_decide_eq_false_2 by done. split; [split; [done|]; intros Hn; by apply Hiff in Hn|]. done.
Qed.
End Active.

(** ** Where watching goes wrong *)

(** The callback of a missed round stays registered for ever. *)
Lemma pong_callbacks_leak room sid errCb rounds : forall c ka,
  (forall ka, errCb ka = false) -> Forall (fun r => r_arrivals r = [] /\ r_send r = None /\ r_pause r = Timeout 0 /\ exists d, r_ending r = Timeout d) rounds ->
  length (pong_cbs (active_loop room sid errCb rounds c ka).1.1.1) = (length (pong_cbs c) + length rounds)%nat.
Proof.
  induction rounds as [|r rounds IH]; intros c ka Hcb Hr; cbn [active_loop]; [cbn; lia|].
  apply Forall_cons in Hr as [(Ha & Hs & Hp & d & Hd) Hr]. unfold active_round. rewrite Hs, Ha, Hd, Hp. cbn [wait_pong].
  unfold tell_timeout, told. rewrite Hcb. cbn [negb andb].
  match goal with |- context [active_loop room sid errCb rounds ?c1 ?ka1] => specialize (IH c1 ka1 Hcb Hr); destruct (active_loop room sid errCb rounds c1 ka1) as [[[c3 ka3] out3] go3] end.
  cbn in IH |- *. rewrite IH, length_app. cbn. lia.
Qed.

(** When the client has ended, the pause of a round ends at once and the goroutine does not: as long as the
    callback does not stop it, it goes round without waiting. *)
Lemma ended_client_spins room sid errCb e n : forall c ka,
  (forall ka, errCb ka = false) ->
  let r := {| r_send := Some e; r_arrivals := []; r_ending := ClientDone; r_pause := ClientDone |} in
  let '(_, _, out, go) := active_loop room sid errCb (replicate n r) c ka in go = true /\ length out = n.
Proof.
  induction n as [|n IH]; intros c ka Hcb r; [done|]. cbn [replicate active_loop]. unfold active_round, r. cbn [r_send r_pause].
  unfold tell_err, told. rewrite Hcb. cbn [negb andb].
  match goal with |- context [active_loop room sid errCb _ ?c1 ?ka1] => specialize (IH c1 ka1 Hcb) end. cbv zeta in IH.
  destruct (active_loop room sid errCb _ _ _) as [[[c3 ka3] out3] go3]. by destruct IH as [-> <-].
Qed.

(** *** The channels of pings and their mutex

    The goroutines of one peer's pings, each of which puts its ping on the channels of that peer and then
    sends the pong, and of the watchers, which read one channel each. *)
Inductive pthread :=
  | PubLock (msg : PingMessage)
  | PubSend (todo : list nat) (msg : PingMessage)
  | PubPong (msg : PingMessage)
  | Watch (ch : nat)
  | InCb (ch : nat)
  | UnsubLock (ch : nat)
  | Over.

(** [mux] is the goroutine that holds [ping_chs_mux]; a channel has room for one ping. *)
Record pings_state := { mux : option nat; ping_chs : list nat; buf : gmap nat PingMessage; pthreads : list pthread; pongs : list PingMessage }.

(** What a goroutine may do when it has a choice: a wait may time out, and the callback stops the watching or not. *)
Inductive choice := Proceeds | TimesOut | Stops.

Definition goto (i : nat) (t : pthread) (h : option nat) (c : list nat) (b : gmap nat PingMessage) (p : list PingMessage) (s : pings_state) : pings_state :=
  {| mux := h; ping_chs := c; buf := b; pthreads := <[i := t]> (pthreads s); pongs := p |}.

Definition pstep (x : choice) (i : nat) (s : pings_state) : option pings_state :=
  let stay t := goto i t (mux s) (ping_chs s) (buf s) (pongs s) s in
  match pthreads s !! i, x with
  | Some (PubLock msg), Proceeds =>
      match mux s with None => Some (goto i (PubSend (ping_chs s) msg) (Some i) (ping_chs s) (buf s) (pongs s) s) | Some _ => None end
  | Some (PubSend [] msg), Proceeds => Some (goto i (PubPong msg) None (ping_chs s) (buf s) (pongs s) s)
  | Some (PubSend (ch :: l) msg), Proceeds =>
      match buf s !! ch with
      | None => Some (goto i (PubSend l msg) (mux s) (ping_chs s) (<[ch := msg]> (buf s)) (pongs s) s)
      | Some _ => None
      end
  | Some (PubPong msg), Proceeds => Some (goto i Over (mux s) (ping_chs s) (buf s) (pongs s ++ [msg]) s)
  | Some (Watch ch), Proceeds =>
      match buf s !! ch with Some _ => Some (goto i (Watch ch) (mux s) (ping_chs s) (delete ch (buf s)) (pongs s) s) | None => None end
  | Some (Watch ch), TimesOut => Some (stay (InCb ch))
  | Some (InCb ch), Proceeds => Some (stay (Watch ch))
  | Some (InCb ch), Stops => Some (stay (UnsubLock ch))
  | Some (UnsubLock ch), Proceeds =>
      match mux s with None => Some (goto i Over None (filter (fun c => c <> ch) (ping_chs s)) (buf s) (pongs s) s) | Some _ => None end
  | _, _ => None
  end.

Definition psteps (l : list (choice * nat)) (s : pings_state) : option pings_state :=
  fold_left (fun s x => s ← s; pstep x.1 x.2 s) l (Some s).

(** Three pings, the second and third while the callback of the only watcher runs: the second is put on the
    full channel with the mutex held, the callback stops the watching, which needs the mutex, and nothing of this
    peer moves again.  The client sends no pong any more. *)
Lemma ping_deadlock m1 m2 m3 :
  exists s, psteps [(TimesOut, 0); (Proceeds, 1); (Proceeds, 1); (Proceeds, 1); (Proceeds, 1); (Proceeds, 2); (Stops, 0)]
      {| mux := None; ping_chs := [0]; buf := ∅; pthreads := [Watch 0; PubLock m1; PubLock m2; PubLock m3]; pongs := [] |} = Some s /\
    pongs s = [m1] /\ (pthreads s = [UnsubLock 0; Over; PubSend [0] m2; PubLock m3]) /\ forall x i, pstep x i s = None.
Proof.
  eexists. split; [reflexivity|]. split; [reflexivity|]. split; [reflexivity|].
  intros x i. do 4 (destruct i as [|i]; [by destruct x|]). by destruct x.
Qed.

(** ** Witness *)

(** Three rounds: an answer, and two in which only the late pong of the first ping and one of another room arrive. *)
Definition pong (id : Z) (room : string) : arrival :=
  inl {| Pong_Router := Some {| Room := room; NodeFrom := ""; NodeTo := ""; SocketFrom := "b"; SocketTo := "a" |}; Pong_MsgId := id |}.
Definition plain_round (l : list arrival) : round := {| r_send := None; r_arrivals := l; r_ending := Timeout 5; r_pause := Timeout 5 |}.
Definition three_rounds : list round := [plain_round [pong 1 "lobby"]; plain_round [pong 1 "lobby"]; plain_round [pong 3 "other"]].
Definition client0 : client := {| ping_msg_id := 0; pong_cbs := []; pings := [] |}.

Lemma keep_alive_detects_witness :
  (active_loop "lobby" "b" (patience 2) three_rounds client0 new_ka).2 = false /\
  missed_rounds "lobby" "b" 0 three_rounds = [false] ++ replicate 2 true ++ [] /\
  exists m ka out, passive_loop "lobby" "b" (patience 2) true true (fun m => m) ∅ 0 [Pinged; Ends (Timeout 5); Ends (Timeout 5)]
    = Ret (m, ka, out, Stopped).
Proof.
  destruct (keep_alive_detects "lobby" "b" 2 (Ch := nat) client0 three_rounds true (fun m => m) ∅ 0 [Pinged; Ends (Timeout 5); Ends (Timeout 5)]) as [Ha Hp].
  - lia.
  - repeat constructor; cbn; try discriminate; eauto.
  - constructor; [by left|]. constructor; [by right|]. constructor; [by right|constructor].
  - destruct (active_loop "lobby" "b" (patience 2) three_rounds client0 new_ka) as [[[c ka] out] go]. cbn [snd].
    split; [apply Ha; exists [false], []; vm_compute; reflexivity|]. split; [vm_compute; reflexivity|].
    destruct Hp as (m' & ka' & out' & at_ & E & Hw & Hn & _). exists m', ka', out'. rewrite E. do 3 f_equal.
    apply Hn. intros ->. apply (proj1 Hw eq_refl). exists [false], []. reflexivity.
Defined.
