(* ===== verification/ClientMsgs.v ===== *)
(** * ClientMsgs: the other handlers of the client, and a ping and its pong ([client/websocket.go])

    What [accessSignal] registers for "ready" and "ping", the small methods around the connection, and the way
    of a ping from one client through the two contexts to another client, and of its pong back. *)
From S2P Require Import Prelude GoStrings Auth Collection RoomPattern PatternMap Pattern Messages Messager MsgCbs Rooms Client KeepAlive.
Local Open Scope string_scope.
Local Open Scope list_scope.

(** ** Messages with one argument *)

Section OnMsg.
Context {any : Type} (any_nil : any).

Definition args2arg (args : list any) : any := hd any_nil args.

(** [onMsg]: the callback [MsgCbs] is given, and what its acknowledgement function passes on: a nil function is called
    when no answer is wanted. *)
Definition onMsg (cb : bool -> any -> outcome) (ack : bool) (args : list any) : outcome := cb ack (args2arg args).
Definition my_ack {E : Type} (ack : option (list any -> option E -> unit)) (arg : any) (err : option E) : run unit :=
  match ack with Some f => Ret (f [arg] err) | None => go_panic PNilDeref end.
End OnMsg.

(** ** The user *)

Record client_user := { cu_info : option UserInfo; cu_rooms : list string; ready_closed : bool }.

(** The handler of "ready": it is called once, and closes the channel also for a message it cannot decode. *)
Definition on_ready (msg : UserInfo + gerror) (c : client_user) : run (client_user * bool) :=
  if ready_closed c then go_panic (PMsg "close of closed channel")
  else match msg with
       | inr _ => Ret ({| cu_info := cu_info c; cu_rooms := cu_rooms c; ready_closed := true |}, false)
       | inl u =>
           Ret ({| cu_info := Some {| UI_SocketId := UI_SocketId u; UI_Key := UI_Key u; UI_UserId := UI_UserId u; UI_UserName := UI_UserName u;
                                      UI_Role := UI_Role u; UI_Rooms := [] |};
                   cu_rooms := UI_Rooms u; ready_closed := true |}, false)
       end.

Definition client_Id (c : client_user) : string := match cu_info c with Some u => UI_SocketId u | None => "" end.

(** [UserInfo(ctx)]: [access] is the result of [accessSignal]. *)
Definition client_UserInfo {S : Type} (access : S + gerror) (c : client_user) : option UserInfo + gerror :=
  match access with inr e => inr e | inl _ => inl (cu_info c) end.

(** [NewWebsocketClient]: the timeout it keeps. *)
Definition client_timeout (conf_Timeout : Z) : Z := if (conf_Timeout =? 0)%Z then 1000000000%Z else 0%Z.

(** A timeout that is configured is not kept. *)
Lemma timeout_lost t : t <> 0%Z -> client_timeout t = 0%Z.
Proof. intros Ht. unfold client_timeout. by rewrite (proj2 (Z.eqb_neq _ _)). Qed.

(** [MakeSureId] *)
Definition MakeSureId {S : Type} (access : S + gerror) (c : client_user) : string + gerror :=
  match access with inr e => inr e | inl _ => inl (client_Id c) end.

(** ** A room *)

(** The callback [OnMessage] of a roomed signal registers. *)
Definition roomed_cb (room : string) (cb : string -> string -> string -> bool) (content r from to : string) : bool :=
  if decide (r = room) then cb content from to else true.

(** ** Ping and pong *)

(** What the handler of "ping" sends back. *)
Definition pong_of (msg : PingMessage) : PongMessage :=
  let r := default zero_router (Ping_Router msg) in
  {| Pong_Router := Some {| Room := Room r; NodeFrom := ""; NodeTo := ""; SocketFrom := ""; SocketTo := SocketFrom r |};
     Pong_MsgId := Ping_MsgId msg |}.

(** The handler of "ping", with the decoded message, apart from the channels of [publishPingMsgs]: the pong it sends. *)
Definition client_on_ping (m : PingMessage + gerror) : list PongMessage := match m with inl msg => [pong_of msg] | inr _ => [] end.

(** [mapstructure.Decode] of what a context sends to its client. *)
Class PingDecoder := {
  decode_ping : client_value PingMessage -> PingMessage;
  decode_pong : client_value PongMessage -> PongMessage
}.
Class PingDecoderLaws `{PingDecoder} : Prop := {
  decode_ping_map (m : PingMessage) v : ToClientMessage (Some m) = Ret v -> decode_ping v = with_router strip_node m;
  decode_pong_map (m : PongMessage) v : ToClientMessage (Some m) = Ret v -> decode_pong v = with_router strip_node m
}.

Section PingPong.
Context `{PingDecoderLaws} (range : forall A, gmap string A -> list (string * A)).

Definition ping_msg (room to : string) (id : Z) : PingMessage :=
  {| Ping_Router := Some {| Room := room; NodeFrom := ""; NodeTo := ""; SocketFrom := ""; SocketTo := to |}; Ping_MsgId := id |}.

(** The message of a context for a room: its node and its socket are filled in. *)
Definition from_ctx (ctx : SignalContext) (room to : string) : Router :=
  {| Room := room; NodeFrom := node ctx; NodeTo := ""; SocketFrom := Id ctx; SocketTo := to |}.

Lemma emit_ping ctx room to id :
  room <> "" -> clusterEmit range ctx (ping_msg room to id) = [{| Ping_Router := Some (from_ctx ctx room to); Ping_MsgId := id |}].
Proof using Type.
  intros Hr. unfold clusterEmit. cbn. rewrite bool_decide_eq_true_2 by done. unfold copy_fixed. cbn. unfold fix_router_field, fixRouter. cbn.
  by rewrite decide_False.
Qed.

Lemma emit_pong ctx room to id :
  room <> "" ->
  clusterEmit range ctx {| Pong_Router := Some {| Room := room; NodeFrom := ""; NodeTo := ""; SocketFrom := ""; SocketTo := to |}; Pong_MsgId := id |} =
  [{| Pong_Router := Some (from_ctx ctx room to); Pong_MsgId := id |}].
Proof using Type.
  intros Hr. unfold clusterEmit. cbn. rewrite bool_decide_eq_true_2 by done. unfold copy_fixed. cbn. unfold fix_router_field, fixRouter. cbn.
  by rewrite decide_False.
Qed.

(** A context forwards what is for its room and its socket. *)
Lemma forward_ping ctx other room id :
  rooms_ok (rooms ctx) -> joined ctx room -> room <> "" ->
  exists v, OnPingMessage ctx {| Ping_Router := Some (from_ctx other room (Id ctx)); Ping_MsgId := id |} = Ret [CPing v] /\
    decode_ping v = {| Ping_Router := Some (strip_node (from_ctx other room (Id ctx))); Ping_MsgId := id |}.
Proof using Type*.
  intros Hok Hj Hr. unfold OnPingMessage. set (m := {| Ping_Router := _ |}).
  assert (matchRoom_ctx ctx m = true) as -> by (by eapply matchRoom_ctx_spec; [exact Hok|reflexivity|split]).
  assert (matchSocketTo ctx m true = true) as -> by (eapply matchSocketTo_spec; [reflexivity|]; by left).
  cbn [negb orb]. destruct (ToClientMessage (Some m)) as [v|] eqn:Ev; [|done]. exists v. split; [done|]. by rewrite (decode_ping_map _ _ Ev).
Qed.

Lemma forward_pong ctx other room id :
  rooms_ok (rooms ctx) -> joined ctx room -> room <> "" ->
  exists v, OnPongMessage ctx {| Pong_Router := Some (from_ctx other room (Id ctx)); Pong_MsgId := id |} = Ret [CPong v] /\
    decode_pong v = {| Pong_Router := Some (strip_node (from_ctx other room (Id ctx))); Pong_MsgId := id |}.
Proof using Type*.
  intros Hok Hj Hr. unfold OnPongMessage. set (m := {| Pong_Router := _ |}).
  assert (matchRoom_ctx ctx m = true) as -> by (by eapply matchRoom_ctx_spec; [exact Hok|reflexivity|split]).
  assert (matchSocketTo ctx m true = true) as -> by (eapply matchSocketTo_spec; [reflexivity|]; by left).
  cbn [negb orb]. destruct (ToClientMessage (Some m)) as [v|] eqn:Ev; [|done]. exists v. split; [done|]. by rewrite (decode_pong_map _ _ Ev).
Qed.

(** A ping is answered.  Two clients are in a room.  The ping a round of the active [KeepAlive] sends reaches the other client
    through both contexts; its handler sends a pong, which comes back through both; and it ends the wait of that round: nothing
    is told to the caller, and the count of timeouts starts again. *)
Theorem ping_answered ctxA ctxB c ka room errCb r :
  rooms_ok (rooms ctxA) -> rooms_ok (rooms ctxB) -> joined ctxA room -> joined ctxB room -> room <> "" ->
  let id := u32 (ping_msg_id c + 1) in
  exists pm v q qm v',
    clusterEmit range ctxA (ping_msg room (Id ctxB) id) = [pm] /\ OnPingMessage ctxB pm = Ret [CPing v] /\
    client_on_ping (inl (decode_ping v)) = [q] /\ clusterEmit range ctxB q = [qm] /\ OnPongMessage ctxA qm = Ret [CPong v'] /\
    (r_send r = None -> r_arrivals r = [inl (decode_pong v')] -> r_pause r <> CtxDone ->
     exists c', active_round room (Id ctxB) errCb r c ka = (c', reset ka, [], true) /\ pings c' = pings c ++ [ping_msg room (Id ctxB) id]).
Proof using Type*.
  intros HA HB JA JB Hr id. destruct (forward_ping ctxB ctxA room id HB JB Hr) as (v & Ev & Dv).
  destruct (forward_pong ctxA ctxB room id HA JA Hr) as (v' & Ev' & Dv').
  exists {| Ping_Router := Some (from_ctx ctxA room (Id ctxB)); Ping_MsgId := id |}, v, (pong_of (decode_ping v)),
    {| Pong_Router := Some (from_ctx ctxB room (Id ctxA)); Pong_MsgId := id |}, v'.
  split; [by apply emit_ping|]. split; [exact Ev|]. split; [done|]. split; [rewrite Dv; by apply emit_pong|]. split; [exact Ev'|].
  intros Hs Ha Hp. unfold active_round. rewrite Hs, Ha, Dv'. unfold wait_pong, call_pong. cbn. fold id. rewrite Z.eqb_refl.
  rewrite !bool_decide_eq_true_2 by done. cbn. eexists. split; [by destruct (r_pause r)|done].
Qed.
End PingPong.

(** ** Witness *)
Module Toy.
Definition un {M} (v : client_value M) : gmap string gval := match v with ClientMap (Some m) => m | _ => ∅ end.
Definition str (m : gmap string gval) (k : string) : string := match m !! k with Some (GStr s) => s | _ => "" end.
Definition num (m : gmap string gval) (k : string) : Z := match m !! k with Some (GU32 z) => z | _ => 0%Z end.
Definition router (m : gmap string gval) : option Router :=
  match m !! "router" with
  | Some (GMap (Some r)) => Some {| Room := str r "room"; NodeFrom := str r "nodeFrom"; NodeTo := str r "nodeTo";
                                    SocketFrom := str r "socketFrom"; SocketTo := str r "socketTo" |}
  | _ => None
  end.

#[local] Instance decoder : PingDecoder := {|
  decode_ping v := {| Ping_Router := router (un v); Ping_MsgId := num (un v) "msgId" |};
  decode_pong v := {| Pong_Router := router (un v); Pong_MsgId := num (un v) "msgId" |}
|}.

#[local] Instance decoder_laws : PingDecoderLaws.
Proof. split; intros [[r|] i] v [= <-]; reflexivity. Qed.

Definition in_lobby (id : string) : SignalContext :=
  set_rooms (newSignalContext id "n1" sample_auth) {["lobby" := {| JoinId_ := 1; Joined := true |}]}.

Lemma in_lobby_ok id : rooms_ok (rooms (in_lobby id)) /\ joined (in_lobby id) "lobby".
Proof.
  split; [|by eexists]. intros room info Hi. cbn in Hi. apply lookup_singleton_Some in Hi as [_ <-]. done.
Qed.

Definition client0 : client := {| ping_msg_id := 0; pong_cbs := []; pings := [] |}.
Definition range0 (A : Type) (m : gmap string A) : list (string * A) := map_to_list m.

Lemma ping_answered_witness :
  exists pm v, clusterEmit range0 (in_lobby "a") (ping_msg "lobby" "b" 1) = [pm] /\ OnPingMessage (in_lobby "b") pm = Ret [CPing v].
Proof.
  destruct (ping_answered range0 (in_lobby "a") (in_lobby "b") client0 new_ka "lobby" (fun _ => true)
    {| r_send := None; r_arrivals := []; r_ending := CtxDone; r_pause := Timeout 5 |}
    (proj1 (in_lobby_ok "a")) (proj1 (in_lobby_ok "b")) (proj2 (in_lobby_ok "a")) (proj2 (in_lobby_ok "b"))) as (pm & v & q & qm & v' & E1 & E2 & _).
  - discriminate.
  - exists pm, v. split; [exact E1|exact E2].
Defined.
End Toy.
