(* ===== verification/ClientConn.v ===== *)
(** * ClientConn: the connection of a client ([client/websocket.go])

    Callers share one WebSocket signal, which the first of them makes ([accessSignal]); when it is closed
    the next call makes another.  The fields are shared between goroutines and partly read or written
    without the mutex, so a call is cut into its atomic steps.  What the network answers is an argument of each step.
    The calls that use the connection are functions of its result. *)
From S2P Require Import Prelude Collection Messages.
Local Open Scope string_scope.
Local Open Scope list_scope.

(** What [accessSignal] returns: a pointer to a signal, nil included, or an error. *)
Definition result : Type := option nat + gerror.

(** The goroutine of a call, by what it does next. *)
Inductive caller :=
  | Enter                       (** lock [signal_mux] and look *)
  | Found                       (** there was a signal: read it and return *)
  | Joins                       (** somebody makes one: read [signal_init_ch] *)
  | Waits (ch : option nat)     (** wait on the channel that was read *)
  | Makes                       (** make the signal and set its handlers *)
  | Dials (s : nat)
  | Awaits (s : nat)            (** wait for "ready" *)
  | Unflags (r : result)        (** the deferred function: [signal_init_flag = false] *)
  | Wakes (r : result)          (** and closes the channel *)
  | Returned (r : result).

(** [live] are the signals that were made and not closed; [handlers] counts the callbacks registered for each event. *)
Record conn := {
  signal : option nat; init_flag : bool; init_ch : option nat; closed_chs : gset nat; fresh : nat;
  live : gset nat; user_info : bool; handlers : nat; callers : list caller
}.

Definition conn0 : conn :=
  {| signal := None; init_flag := false; init_ch := None; closed_chs := ∅; fresh := 0; live := ∅; user_info := false; handlers := 0; callers := [] |}.

Definition put_caller (i : nat) (t : caller) (c : conn) : conn :=
  {| signal := signal c; init_flag := init_flag c; init_ch := init_ch c; closed_chs := closed_chs c; fresh := fresh c;
     live := live c; user_info := user_info c; handlers := handlers c; callers := <[i := t]> (callers c) |}.

(** ** The steps of [accessSignal] *)

Definition access_enter (i : nat) (c : conn) : conn :=
  match signal c with
  | Some _ => put_caller i Found c
  | None =>
      if init_flag c then put_caller i Joins c
      else {| signal := None; init_flag := true; init_ch := Some (fresh c); closed_chs := closed_chs c; fresh := S (fresh c);
              live := live c; user_info := user_info c; handlers := handlers c; callers := <[i := Makes]> (callers c) |}
  end.

(** The signal with its handlers; "ready" and the other messages are registered once more on the client. *)
Definition access_make (i : nat) (c : conn) : conn :=
  {| signal := Some (fresh c); init_flag := init_flag c; init_ch := init_ch c; closed_chs := closed_chs c; fresh := S (fresh c);
     live := live c ∪ {[fresh c]}; user_info := user_info c; handlers := S (handlers c); callers := <[i := Dials (fresh c)]> (callers c) |}.

(** How the wait for "ready" ends. *)
Inductive awaited := IsReady (decoded : bool) | NotReady (e : gerror).

Definition access_ready (i : nat) (a : awaited) (c : conn) : conn :=
  match a with
  | NotReady e => put_caller i (Unflags (inr e)) c
  | IsReady decoded =>
      let known := user_info c || decoded in
      let r := if known then inl (signal c) else inr (EOther "failed to get user info") in
      {| signal := signal c; init_flag := init_flag c; init_ch := init_ch c; closed_chs := closed_chs c; fresh := fresh c;
         live := live c; user_info := known; handlers := handlers c; callers := <[i := Unflags r]> (callers c) |}
  end.

Definition access_unflag (i : nat) (r : result) (c : conn) : conn :=
  {| signal := signal c; init_flag := false; init_ch := init_ch c; closed_chs := closed_chs c; fresh := fresh c;
     live := live c; user_info := user_info c; handlers := handlers c; callers := <[i := Wakes r]> (callers c) |}.

Definition access_wake (i : nat) (r : result) (c : conn) : run conn :=
  match init_ch c with
  | None => go_panic (PMsg "close of nil channel")
  | Some ch =>
      if decide (ch ∈ closed_chs c) then go_panic (PMsg "close of closed channel")
      else Ret {| signal := signal c; init_flag := init_flag c; init_ch := None; closed_chs := closed_chs c ∪ {[ch]}; fresh := fresh c;
                  live := live c; user_info := user_info c; handlers := handlers c; callers := <[i := Returned r]> (callers c) |}
  end.

(** The handler of the end of a connection. *)
Definition on_close (s : nat) (c : conn) : conn :=
  {| signal := None; init_flag := init_flag c; init_ch := init_ch c; closed_chs := closed_chs c; fresh := fresh c;
     live := live c ∖ {[s]}; user_info := user_info c; handlers := handlers c; callers := callers c |}.

Definition new_call (c : conn) : conn :=
  {| signal := signal c; init_flag := init_flag c; init_ch := init_ch c; closed_chs := closed_chs c; fresh := fresh c;
     live := live c; user_info := user_info c; handlers := handlers c; callers := callers c ++ [Enter] |}.

(** What happens next: a call, a step of a goroutine, with what it is told, or the end of a connection. *)
Inductive move :=
  | Calls
  | Steps (i : nat)
  | Dialled (i : nat) (err : option gerror)
  | Readied (i : nat) (a : awaited)
  | GivesUp (i : nat) (e : gerror)
  | Closes (s : nat).

(** [None] when the move is not possible, a goroutine that waits included. *)
Definition conn_step (x : move) (c : conn) : run (option conn) :=
  match x with
  | Calls => Ret (Some (new_call c))
  | Steps i =>
      match callers c !! i with
      | Some Enter => Ret (Some (access_enter i c))
      | Some Found => Ret (Some (put_caller i (Returned (inl (signal c))) c))
      | Some Joins => Ret (Some (put_caller i (Waits (init_ch c)) c))
      | Some (Waits (Some ch)) => Ret (if decide (ch ∈ closed_chs c) then Some (put_caller i Enter c) else None)
      | Some Makes => Ret (Some (access_make i c))
      | Some (Unflags r) => Ret (Some (access_unflag i r c))
      | Some (Wakes r) => c ← access_wake i r c; Ret (Some c)
      | _ => Ret None
      end
  | Dialled i err =>
      match callers c !! i with
      | Some (Dials s) => Ret (Some (put_caller i (match err with Some e => Unflags (inr e) | None => Awaits s end) c))
      | _ => Ret None
      end
  | Readied i a => match callers c !! i with Some (Awaits _) => Ret (Some (access_ready i a c)) | _ => Ret None end
  | GivesUp i e => match callers c !! i with Some (Waits _) => Ret (Some (put_caller i (Returned (inr e)) c)) | _ => Ret None end
  | Closes s => Ret (if decide (s ∈ live c) then Some (on_close s c) else None)
  end.

(** ** The calls that use the connection *)

Section Calls.
(** [SendMsg] of a signal: the results or the error. *)
Context {arg res : Type} (SendMsg : nat -> bool -> string -> arg -> list res + gerror).

(** A nil signal is dereferenced. *)
Definition sendMsg (access : result) (ack : bool) (evt : string) (a : arg) : run (option res + gerror) :=
  match access with
  | inr e => Ret (inr e)
  | inl None => go_panic PNilDeref
  | inl (Some s) =>
      match SendMsg s ack evt a with
      | inr e => Ret (inr e)
      | inl [] => Ret (inl None)
      | inl (r :: _) => Ret (inl (Some r))
      end
  end.

(** [rooms_msg] makes the message of a list of rooms. *)
Context (rooms_msg : list string -> arg).

(** The new list of rooms of the client, and the error. *)
Definition Join (rooms rs : list string) (access : result) : run (list string * option gerror) :=
  r ← sendMsg access true "join" (rooms_msg rs);
  match r with inr e => Ret (rooms, Some e) | inl _ => Ret (SliceAppendNoRepeat rooms rs, None) end.

Definition Leave (rooms rs : list string) (access : result) : run (list string * option gerror) :=
  r ← sendMsg access true "leave" (rooms_msg rs);
  match r with
  | inr e => Ret (rooms, Some e)
  | inl _ => '(_, rooms) ← SliceRemoveByValues rooms false rs; Ret (rooms, None)
  end.
End Calls.

Definition GetRooms (rooms : list string) (access : result) : list string + gerror :=
  match access with inr e => inr e | inl _ => inl rooms end.

Definition IsInRoom (rooms : list string) (room : string) (access : result) : bool + gerror :=
  match access with inr e => inr e | inl _ => inl (bool_decide (room ∈ rooms)) end.

Definition Roomed (rooms : list string) (room : string) (access : result) : string + gerror :=
  match IsInRoom rooms room access with
  | inr e => inr e
  | inl false => inr (EOther "not in room")
  | inl true => inl room
  end.

(** ** Properties *)

Inductive reach : conn -> Prop :=
  | reach_new : reach conn0
  | reach_move c x c' : reach c -> conn_step x c = Ret (Some c') -> reach c'.

(** A goroutine that makes a connection. *)
Definition connecting (t : caller) : bool :=
  match t with Makes | Dials _ | Awaits _ | Unflags _ => true | _ => false end.

Definition count (l : list caller) : nat := length (filter (fun t => connecting t = true) l).

Record conn_ok (c : conn) : Prop := {
  co_one : count (callers c) = if init_flag c then 1 else 0;
  co_live : live c = match signal c with Some s => {[s]} | None => ∅ end;
  co_makes i : callers c !! i = Some Makes -> signal c = None;
  co_own i s : callers c !! i = Some (Dials s) \/ callers c !! i = Some (Awaits s) -> signal c = Some s \/ signal c = None
}.

Lemma count_insert l i t t' :
  l !! i = Some t -> (count (<[i := t']> l) + (if connecting t then 1 else 0) = count l + (if connecting t' then 1 else 0))%nat.
Proof.
  unfold count. revert i. induction l as [|x l IH]; intros [|i] Hi; [done|done| |].
  - injection Hi as ->. change (<[0 := t']> (t :: l)) with (t' :: l). rewrite !filter_cons.
    destruct (connecting t), (connecting t'); repeat case_decide; cbn; done || lia.
  - change (<[S i := t']> (x :: l)) with (x :: <[i := t']> l). specialize (IH i Hi). rewrite !filter_cons. case_decide; cbn; lia.
Qed.

Lemma one_at_a_time c i j t t' :
  conn_ok c -> callers c !! i = Some t -> callers c !! j = Some t' -> connecting t = true -> connecting t' = true -> i = j.
Proof.
  intros Hok Hi Hj Ht Ht'. destruct (decide (i = j)) as [|Hne]; [done|]. exfalso.
  pose proof (count_insert _ _ _ (Returned (inr (EConf 0))) Hi) as H1. rewrite Ht in H1. cbn in H1.
  pose proof (count_insert (<[i := Returned (inr (EConf 0))]> (callers c)) j t' (Returned (inr (EConf 0)))) as H2.
  rewrite list_lookup_insert_ne in H2 by done. specialize (H2 Hj). rewrite Ht' in H2. cbn in H2.
  pose proof (co_one _ Hok) as H3. destruct (init_flag c); lia.
Qed.

(** What a caller needs of the signal at its next step. *)
Definition needs (t : caller) (sg : option nat) : Prop :=
  match t with Makes => sg = None | Dials s | Awaits s => sg = Some s \/ sg = None | _ => True end.

Lemma co_needs c i t : conn_ok c -> callers c !! i = Some t -> needs t (signal c).
Proof. intros Hok Hi. destruct t; try done; cbn; [by eapply co_makes|eapply co_own; eauto|eapply co_own; eauto]. Qed.

Lemma caller_moves c c' i t t' :
  conn_ok c -> callers c !! i = Some t -> callers c' = <[i := t']> (callers c) ->
  ((if init_flag c' then 1 else 0) + (if connecting t then 1 else 0) = (if init_flag c then 1 else 0) + (if connecting t' then 1 else 0))%nat ->
  live c' = match signal c' with Some s => {[s]} | None => ∅ end ->
  signal c' = signal c \/ connecting t = true -> needs t' (signal c') -> conn_ok c'.
Proof.
  intros Hok Hi Hc Hn Hl Hs Ht'.
  assert (forall j u, callers c' !! j = Some u -> needs u (signal c')) as Hall.
  { intros j u Hj. rewrite Hc in Hj. destruct (decide (i = j)) as [->|Hne].
    - rewrite list_lookup_insert_eq in Hj by (by eapply lookup_lt_Some). by injection Hj as <-.
    - rewrite list_lookup_insert_ne in Hj by done. destruct Hs as [->|Hs]; [by eapply co_needs|].
      destruct (connecting u) eqn:Hu; [|by destruct u]. by destruct (Hne (one_at_a_time _ _ _ _ _ Hok Hi Hj Hs Hu)). }
  split; [|done|intros j Hj; exact (Hall j _ Hj)|intros j s [Hj|Hj]; exact (Hall j _ Hj)].
  rewrite Hc. pose proof (count_insert _ _ _ t' Hi) as Hcount. rewrite (co_one _ Hok) in Hcount. lia.
Qed.

(** The side conditions of a step. *)
Ltac step_ok := cbn; repeat match goal with H : signal _ = _ |- _ => rewrite H | H : init_flag _ = _ |- _ => rewrite H end; first [done | by left | by right | by case_match].

Lemma conn_step_ok c x c' : conn_ok c -> conn_step x c = Ret (Some c') -> conn_ok c'.
Proof.
  intros Hok Hs. destruct x as [|i|i err|i a|i e|s]; cbn [conn_step] in Hs.
  - injection Hs as <-. destruct Hok as [H1 H2 H3 H4].
    assert (forall j u, u <> Enter -> (callers c ++ [Enter]) !! j = Some u -> callers c !! j = Some u) as Hj.
    { intros j u Hu Hj. apply lookup_app_Some in Hj as [?|[_ Hj]]; [done|]. apply list_lookup_singleton_Some in Hj as [_ <-]. done. }
    split; cbn; [|done| |].
    + unfold count. rewrite filter_app, length_app. cbn. unfold count in H1. rewrite H1. by destruct (init_flag c).
    + intros j Hm. by eapply H3, Hj.
    + intros j s [Hm|Hm]; apply (H4 j); [left|right]; by apply Hj.
  - destruct (callers c !! i) as [t|] eqn:Hi; [|done]. pose proof (co_needs _ _ _ Hok Hi) as Hneed. pose proof (co_live _ Hok) as Hl. pose proof (co_one _ Hok) as H1.
    destruct t as [| | |[ch|]| |s|s|r|r|r]; try done.
    + injection Hs as <-. unfold access_enter. destruct (signal c) as [s|] eqn:Es.
      * eapply (caller_moves c _ i Enter Found); by step_ok.
      * destruct (init_flag c) eqn:Ef.
        -- eapply (caller_moves c _ i Enter Joins); rewrite ?Ef; by step_ok.
        -- eapply (caller_moves c _ i Enter Makes); rewrite ?Ef; by step_ok.
    + injection Hs as <-. eapply (caller_moves c _ i Found); by step_ok.
    + injection Hs as <-. eapply (caller_moves c _ i Joins); by step_ok.
    + case_decide; [|done]. injection Hs as <-. eapply (caller_moves c _ i (Waits (Some ch))); by step_ok.
    + injection Hs as <-. cbn in Hneed. eapply (caller_moves c _ i Makes (Dials (fresh c))); try done; cbn; [|by right|by left].
      rewrite Hl, Hneed. by rewrite left_id_L by apply _.
    + injection Hs as <-. eapply (caller_moves c _ i (Unflags r)); try done; cbn; [|by left].
      pose proof (count_insert _ _ _ Enter Hi) as Hc. cbn in Hc. destruct (init_flag c); lia.
    + unfold access_wake in Hs. destruct (init_ch c) as [ch|]; [|done]. case_decide; [done|]. injection Hs as <-.
      eapply (caller_moves c _ i (Wakes r)); by step_ok.
  - destruct (callers c !! i) as [[]|] eqn:Hi; try done. injection Hs as <-. pose proof (co_needs _ _ _ Hok Hi) as Hneed.
    destruct err; (eapply caller_moves; [exact Hok|exact Hi|reflexivity|cbn; by destruct (init_flag c)|apply Hok|by left|done]).
  - destruct (callers c !! i) as [[]|] eqn:Hi; try done. injection Hs as <-.
    destruct a; (eapply caller_moves; [exact Hok|exact Hi|reflexivity|cbn; by destruct (init_flag c)|apply Hok|by left|done]).
  - destruct (callers c !! i) as [[]|] eqn:Hi; try done. injection Hs as <-.
    eapply caller_moves; [exact Hok|exact Hi|reflexivity|cbn; by destruct (init_flag c)|apply Hok|by left|done].
  - case_decide as Hin; [|done]. injection Hs as <-. destruct Hok as [H1 H2 H3 H4]. split; cbn; [done| |done|by right].
    rewrite H2 in Hin |- *. destruct (signal c); set_solver.
Qed.

Lemma reach_conn_ok c : reach c -> conn_ok c.
Proof.
  induction 1 as [|c x c' _ IH Hs]; [|by eapply conn_step_ok]. split; [done|done|done|]. intros i s [Hi|Hi]; done.
Qed.

(** What a call returns, from the moment this is settled. *)
Definition given (t : caller) : option result :=
  match t with Unflags r | Wakes r | Returned r => Some r | _ => None end.

Lemma given_moves (l : list caller) i t t' j r :
  l !! i = Some t -> <[i := t']> l !! j ≫= given = Some r -> l !! j ≫= given = Some r \/ (j = i /\ given t' = Some r).
Proof.
  intros Hi Hj. destruct (decide (i = j)) as [->|Hne].
  - rewrite list_lookup_insert_eq in Hj by (by eapply lookup_lt_Some). by right.
  - rewrite list_lookup_insert_ne in Hj by done. by left.
Qed.

(** A step settles what a call is given, or leaves it as it was. *)
Lemma step_given c x c' i o :
  conn_step x c = Ret (Some c') -> callers c' !! i ≫= given = Some (inl o) ->
  callers c !! i ≫= given = Some (inl o) \/ (callers c !! i ≫= given = None /\ o = signal c').
Proof.
  intros Hs Hg. destruct x as [|j|j err|j a|j e|s]; cbn [conn_step] in Hs.
  - injection Hs as <-. cbn in Hg. destruct (decide (i < length (callers c))%nat) as [Ht|Hn].
    + left. by rewrite lookup_app_l in Hg.
    + rewrite lookup_app_r in Hg by lia. by destruct (i - length (callers c))%nat.
  - destruct (callers c !! j) as [t|] eqn:Hj; [|done]. destruct t as [| | |[ch|]| |s|s|r|r|r]; try done.
    + injection Hs as <-. unfold access_enter in Hg. repeat case_match; cbn in Hg; apply (given_moves _ _ _ _ _ _ Hj) in Hg as [?|[_ ?]]; by auto.
    + injection Hs as <-. cbn in Hg. apply (given_moves _ _ _ _ _ _ Hj) in Hg as [?|[-> [= <-]]]; [by left|right]. by rewrite Hj.
    + injection Hs as <-. cbn in Hg. apply (given_moves _ _ _ _ _ _ Hj) in Hg as [?|[_ ?]]; by auto.
    + case_decide; [|done]. injection Hs as <-. cbn in Hg. apply (given_moves _ _ _ _ _ _ Hj) in Hg as [?|[_ ?]]; by auto.
    + injection Hs as <-. cbn in Hg. apply (given_moves _ _ _ _ _ _ Hj) in Hg as [?|[_ ?]]; by auto.
    + injection Hs as <-. cbn in Hg. apply (given_moves _ _ _ _ _ _ Hj) in Hg as [?|[-> ?]]; [by left|left]. by rewrite Hj.
    + unfold access_wake in Hs. destruct (init_ch c) as [ch|]; [|done]. case_decide; [done|]. injection Hs as <-. cbn in Hg.
      apply (given_moves _ _ _ _ _ _ Hj) in Hg as [?|[-> ?]]; [by left|left]. by rewrite Hj.
  - destruct (callers c !! j) as [[]|] eqn:Hj; try done. injection Hs as <-. cbn in Hg. destruct err;
      apply (given_moves _ _ _ _ _ _ Hj) in Hg as [?|[_ ?]]; by auto.
  - destruct (callers c !! j) as [[]|] eqn:Hj; try done. injection Hs as <-. unfold access_ready in Hg. destruct a as [dec|e]; cbn in Hg;
      apply (given_moves _ _ _ _ _ _ Hj) in Hg as [?|[-> Hr]]; [by left| |by left|done].
    right. rewrite Hj. split; [done|]. cbn in Hr. case_match; [by injection Hr as <-|done].
  - destruct (callers c !! j) as [[]|] eqn:Hj; try done. injection Hs as <-. cbn in Hg. apply (given_moves _ _ _ _ _ _ Hj) in Hg as [?|[_ ?]]; by auto.
  - case_decide; [|done]. injection Hs as <-. by left.
Qed.

(** C20. One connection.  Whatever calls, failures and closed connections interleave: at most one goroutine
    makes a connection at a time; of the signals that were made at most one is not closed, and the client holds exactly this one;
    while a goroutine dials or waits for "ready", no other is open.  What a call without error is given is, at the moment this is settled,
    the signal the client holds, and later the same; it is nil when that one was just closed (see [nil_signal_returned]), and
    a signal that was not dialled when the dial failed (see [failed_dial_kept]). *)
Theorem one_connection c :
  reach c ->
  (forall i j t t', callers c !! i = Some t -> callers c !! j = Some t' -> connecting t = true -> connecting t' = true -> i = j) /\
  (init_flag c = true <-> exists i t, callers c !! i = Some t /\ connecting t = true) /\
  live c = match signal c with Some s => {[s]} | None => ∅ end /\
  (forall i s, callers c !! i = Some (Dials s) \/ callers c !! i = Some (Awaits s) -> live c ⊆ {[s]}) /\
  (forall x c' i o, conn_step x c = Ret (Some c') -> callers c' !! i ≫= given = Some (inl o) ->
     callers c !! i ≫= given = Some (inl o) \/
     (callers c !! i ≫= given = None /\ live c' = match o with Some s => {[s]} | None => ∅ end)).
Proof.
  intros Hok%reach_conn_ok. split; [intros; by eapply one_at_a_time|]. split; [|split; [apply Hok|split]].
  - pose proof (co_one _ Hok) as H1. unfold count in H1. split.
    + intros Hf. rewrite Hf in H1. destruct (filter (fun t => connecting t = true) (callers c)) as [|t l] eqn:E; [done|].
      assert (t ∈ filter (fun t => connecting t = true) (callers c)) as Hin by (rewrite E; left).
      apply list_elem_of_filter in Hin as [Ht [i Hi]%list_elem_of_lookup]. eauto.
    + intros (i & t & Hi & Ht). destruct (init_flag c); [done|]. apply nil_length_inv in H1.
      assert (t ∈ filter (fun t => connecting t = true) (callers c)) as Hin.
      { apply list_elem_of_filter. split; [done|]. apply list_elem_of_lookup. eauto. }
      rewrite H1 in Hin. by inversion Hin.
  - intros i s Hi. rewrite (co_live _ Hok). destruct (co_own _ Hok i s Hi) as [-> | ->]; set_solver.
  - intros x c' i o Hs Hg. destruct (step_given _ _ _ _ _ Hs Hg) as [?|[? ->]]; [by left|right]. split; [done|].
    apply (conn_step_ok _ _ _ Hok Hs).
Qed.

Lemma SliceAppendNoRepeat_spec (rs : list string) : forall rooms room, room ∈ SliceAppendNoRepeat rooms rs <-> room ∈ rooms \/ room ∈ rs.
Proof.
  induction rs as [|r rs IH]; intros rooms room; cbn [SliceAppendNoRepeat]; [set_solver|]. rewrite IH. case_bool_decide; set_solver.
Qed.

(** The rooms of the client follow the requests that succeed, and only these. *)
Lemma rooms_followed {arg res : Type} (SendMsg : nat -> bool -> string -> arg -> list res + gerror) msg rooms rs s :
  (forall rooms' e, Join SendMsg msg rooms rs (inl (Some s)) = Ret (rooms', e) ->
     match e with None => forall room, IsInRoom rooms' room (inl (Some s)) = inl true <-> room ∈ rooms \/ room ∈ rs | Some _ => rooms' = rooms end) /\
  (forall rooms' e, Leave SendMsg msg rooms rs (inl (Some s)) = Ret (rooms', e) ->
     match e with None => forall room, IsInRoom rooms' room (inl (Some s)) = inl true <-> room ∈ rooms /\ room ∉ rs | Some _ => rooms' = rooms end).
Proof.
  split; intros rooms' e Hj.
  - unfold Join in Hj. apply bind_ret_inv in Hj as ([r|e'] & _ & Hj); injection Hj as <- <-; [|done]. intros room. unfold IsInRoom.
    rewrite <- SliceAppendNoRepeat_spec. split; [by intros [= ?%bool_decide_eq_true]|]. intros Hr. by rewrite bool_decide_eq_true_2.
  - unfold Leave in Hj. apply bind_ret_inv in Hj as ([r|e'] & _ & Hj); [|by injection Hj as <- <-].
    destruct (SliceRemove_correct rooms false (fun _ => true) "" rs) as (_ & _ & E & _). rewrite E in Hj. injection Hj as <- <-.
    intros room. unfold IsInRoom. split.
    + intros [= Hr%bool_decide_eq_true]. apply list_elem_of_filter in Hr. tauto.
    + intros Hr. rewrite bool_decide_eq_true_2; [done|]. apply list_elem_of_filter. tauto.
Qed.

(** ** Where connecting goes wrong *)

Definition moves (l : list move) (c : conn) : run (option conn) :=
  fold_left (fun r x => c ← r; match c with Some c => conn_step x c | None => Ret None end) l (Ret (Some c)).

Lemma moves_reach l : forall c c', reach c -> moves l c = Ret (Some c') -> reach c'.
Proof.
  assert (forall l, fold_left (fun (r : run (option conn)) x => c ← r; match c with Some c => conn_step x c | None => Ret None end) l (Ret None) = Ret None) as Hnone.
  { clear. induction l; done. }
  assert (forall l x, fold_left (fun (r : run (option conn)) x => c ← r; match c with Some c => conn_step x c | None => Ret None end) l (Abort x) = Abort x) as Habort.
  { clear. induction l; done. }
  unfold moves. induction l as [|x l IH]; intros c c' Hr Hm; cbn [fold_left] in Hm; [by injection Hm as <-|].
  cbn [mbind run_bind] in Hm. destruct (conn_step x c) as [[c1|]|a] eqn:E; [|by rewrite Hnone in Hm|by rewrite Habort in Hm].
  eapply IH; [|exact Hm]. by eapply reach_move.
Qed.

(** The first call connects. *)
Definition connects : list move := [Calls; Steps 0; Steps 0; Dialled 0 None; Readied 0 (IsReady true); Steps 0; Steps 0].
(** The first call fails to dial. *)
Definition dial_fails : list move := [Calls; Steps 0; Steps 0; Dialled 0 (Some (EOther "refused")); Steps 0; Steps 0].

(** A connection that ends between the look and the reading of it: the call succeeds with nil. *)
Lemma nil_signal_returned :
  exists c, moves (connects ++ [Calls; Steps 1; Closes 1; Steps 1]) conn0 = Ret (Some c) /\ callers c !! 1 = Some (Returned (inl None)).
Proof. eexists. split; vm_compute; reflexivity. Qed.

(** A call that joins the making of a connection and reads the channel after it is gone waits on nil: no
    step of another goroutine wakes it. *)
Lemma waits_on_nil :
  (exists c, moves [Calls; Calls; Steps 0; Steps 1; Steps 0; Dialled 0 None; Readied 0 (IsReady true); Steps 0; Steps 0; Steps 1] conn0 = Ret (Some c) /\
     callers c !! 1 = Some (Waits None) /\ (signal c = Some 1)) /\
  forall c, callers c !! 1 = Some (Waits None) -> conn_step (Steps 1) c = Ret None.
Proof.
  split; [eexists; split_and!; vm_compute; reflexivity|]. intros c Hc. cbn. by rewrite Hc.
Qed.

(** A failed dial leaves its signal behind: the next call is given a signal that was never connected. *)
Lemma failed_dial_kept :
  exists c, moves (dial_fails ++ [Calls; Steps 1; Steps 1]) conn0 = Ret (Some c) /\
    callers c = [Returned (inr (EOther "refused")); Returned (inl (Some 1))].
Proof. eexists. split; vm_compute; reflexivity. Qed.

(** Each connection registers the handlers of the client once more: after a reconnection a message is
    handled twice. *)
Lemma handlers_doubled :
  exists c, moves (connects ++ [Closes 1; Calls; Steps 1; Steps 1; Dialled 1 None; Readied 1 (IsReady true)]) conn0 = Ret (Some c) /\ handlers c = 2.
Proof. eexists. split; vm_compute; reflexivity. Qed.

(** The deferred function takes no mutex: between its two lines another call may begin a connection, whose
    channel it closes; the other then closes nil and panics. *)
Lemma wake_race :
  moves [Calls; Steps 0; Steps 0; Dialled 0 None; Readied 0 (IsReady true); Steps 0; Closes 1; Calls; Steps 1; Steps 0;
         Steps 1; Dialled 1 None; Readied 1 (IsReady true); Steps 1; Steps 1] conn0 = go_panic (PMsg "close of nil channel").
Proof. vm_compute. reflexivity. Qed.

(** ** Witness *)
Definition dialling : list move := connects ++ [Closes 1; Calls; Steps 1; Calls; Steps 2; Steps 1].
Definition dialling_conn : conn := match moves dialling conn0 with Ret (Some c) => c | _ => conn0 end.

Definition readied_conn : conn := match conn_step (Readied 1 (IsReady true)) (put_caller 1 (Awaits 3) dialling_conn) with Ret (Some c) => c | _ => conn0 end.

Lemma one_connection_witness :
  (callers dialling_conn !! 1 = Some (Dials 3) /\ live dialling_conn ⊆ {[3]}) /\
  callers readied_conn !! 1 ≫= given = Some (inl (Some 3)) /\ live readied_conn = {[3]}.
Proof.
  assert (reach dialling_conn) as Hr by (apply (moves_reach dialling conn0); [constructor|vm_compute; reflexivity]).
  split.
  - destruct (one_connection dialling_conn Hr) as (_ & _ & _ & Hl & _). split; [vm_compute; reflexivity|]. apply (Hl 1 3). left. vm_compute. reflexivity.
  - assert (reach (put_caller 1 (Awaits 3) dialling_conn)) as Hr1.
    { apply (reach_move dialling_conn (Dialled 1 None)); [exact Hr|]. vm_compute. reflexivity. }
    destruct (one_connection _ Hr1) as (_ & _ & _ & _ & Hg).
    destruct (Hg (Readied 1 (IsReady true)) readied_conn 1 (Some 3)) as [Hx|[_ Hx]].
    + vm_compute. reflexivity.
    + vm_compute. reflexivity.
    + exfalso. vm_compute in Hx. discriminate Hx.
    + split; [vm_compute; reflexivity|]. exact Hx.
Defined.
