(* ===== verification/RtpStats.v ===== *)
(** * RtpStats: counting lost packets ([signal/rtp.go])

    A ring of the last headers, by sequence number, with [int16] positions, and a second ring of those that left it.
    A header is its sequence number.  The mutex is held by [Push] and is not reentrant, so a call of [Push] from
    itself waits for ever. *)
From S2P Require Import Prelude.
Local Open Scope Z_scope.
Local Open Scope list_scope.

Record rtpStats := {
  pkgs : list (option Z); head : Z; tail : Z;
  drops : list (option Z); drops_head : Z; drops_tail : Z; all : Z; lost : Z
}.

Definition NewRtpStats (cap : nat) : rtpStats :=
  {| pkgs := replicate cap None; head := 0; tail := 0; drops := replicate cap None; drops_head := 0; drops_tail := 0; all := 0; lost := 0 |}.

Definition set_ring (p : list (option Z)) (h t : Z) (s : rtpStats) : rtpStats :=
  {| pkgs := p; head := h; tail := t; drops := drops s; drops_head := drops_head s; drops_tail := drops_tail s; all := all s; lost := lost s |}.

Definition capacity (s : rtpStats) : Z := i16 (Z.of_nat (length (pkgs s))).
Definition dropsCapacity (s : rtpStats) : Z := i16 (Z.of_nat (length (drops s))).

(** The remainder of Go, which panics for 0, and is moved to the positive side. *)
Definition step_pos (pos offset cap : Z) : run Z :=
  if cap =? 0 then go_panic (PMsg "integer divide by zero")
  else let r := Z.rem (i16 (pos + offset)) cap in Ret (if r <? 0 then i16 (r + cap) else r).

Definition stepHead (s : rtpStats) (offset : Z) : run rtpStats := h ← step_pos (head s) offset (capacity s); Ret (set_ring (pkgs s) h (tail s) s).
Definition stepTail (s : rtpStats) (offset : Z) : run rtpStats := t ← step_pos (tail s) offset (capacity s); Ret (set_ring (pkgs s) (head s) t s).

Definition ring_size (h t cap : Z) : Z := if h <? t then i16 (t - h) else i16 (i16 (t + cap) - h).
Definition size (s : rtpStats) : Z := ring_size (head s) (tail s) (capacity s).
Definition dorpsSize (s : rtpStats) : Z := ring_size (drops_head s) (drops_tail s) (dropsCapacity s).
Definition full (s : rtpStats) : bool := size s =? i16 (capacity s - 1).
Definition empty (s : rtpStats) : bool := head s =? tail s.
Definition dropsFull (s : rtpStats) : bool := dorpsSize s =? i16 (dropsCapacity s - 1).
Definition hasSpace (s : rtpStats) (space : Z) : bool := space <=? i16 (i16 (capacity s - 1) - size s).

(** A slot: an index out of range panics. *)
Definition slot (l : list (option Z)) (i : Z) : run (option Z) :=
  if i <? 0 then go_panic PIndex else match l !! Z.to_nat i with Some x => Ret x | None => go_panic PIndex end.
Definition put_slot (l : list (option Z)) (i : Z) (x : option Z) : run (list (option Z)) :=
  if (i <? 0) || (Z.of_nat (length l) <=? i) then go_panic PIndex else Ret (<[Z.to_nat i := x]> l).

Definition oldestPkg (s : rtpStats) : run (option Z) := if empty s then Ret None else slot (pkgs s) (head s).
Definition latestPkg (s : rtpStats) : run (option Z) :=
  if empty s then Ret None
  else let i := i16 (tail s - 1) in slot (pkgs s) (if i <? 0 then i16 (i + capacity s) else i).

(** [.SequenceNumber] of a pointer. *)
Definition seq_of (h : run (option Z)) : run Z := x ← h; match x with Some n => Ret n | None => go_panic PNilDeref end.

Definition drop (s : rtpStats) : run rtpStats :=
  if empty s then Ret s
  else
    pkg ← slot (pkgs s) (head s);
    ps ← put_slot (pkgs s) (head s) None;
    s ← stepHead (set_ring ps (head s) (tail s) s) 1;
    let cap := dropsCapacity s in
    if dropsFull s then
      ds ← put_slot (drops s) (drops_head s) pkg;
      Ret {| pkgs := pkgs s; head := head s; tail := tail s; drops := ds; drops_head := Z.rem (i16 (drops_head s + 1)) cap;
             drops_tail := Z.rem (i16 (drops_tail s + 1)) cap; all := i32 (all s + 1); lost := match pkg with Some _ => lost s | None => i32 (lost s + 1) end |}
    else
      ds ← put_slot (drops s) (drops_tail s) pkg;
      Ret {| pkgs := pkgs s; head := head s; tail := tail s; drops := ds; drops_head := drops_head s;
             drops_tail := Z.rem (i16 (drops_tail s + 1)) cap; all := all s; lost := lost s |}.

(** How [Push] ends: it returns nil, or the error of a buffer that is no packet, or it calls itself and waits for its own
    mutex. *)
Inductive pushed := Done (s : rtpStats) | BadRtp (s : rtpStats) | Deadlock.

(** The loop that makes room: [offset] is computed anew each time. *)
Fixpoint make_room (fuel : nat) (offset : rtpStats -> run Z) (finish : rtpStats -> Z -> run rtpStats) (s : rtpStats) : run pushed :=
  match fuel with
  | O => Abort NoFuel
  | S fuel =>
      off ← offset s;
      if hasSpace s (i16 off) then s ← finish s off; Ret (Done s)
      else s ← drop s; if empty s then Ret Deadlock else make_room fuel offset finish s
  end.

Definition push_old (seq : Z) (s : rtpStats) (off : Z) : run rtpStats :=
  s ← stepHead s (i16 (- i16 off)); ps ← put_slot (pkgs s) (head s) (Some seq); Ret (set_ring ps (head s) (tail s) s).
Definition push_new (seq : Z) (s : rtpStats) (off : Z) : run rtpStats :=
  s ← stepTail s (i16 off);
  ps ← put_slot (pkgs s) (if 1 <=? tail s then tail s - 1 else tail s + capacity s - 1) (Some seq);
  Ret (set_ring ps (head s) (tail s) s).

(** [Push] of a packet with a sequence number; [fuel] bounds the loop. *)
Definition push_seq (fuel : nat) (seq : Z) (s : rtpStats) : run pushed :=
  if empty s then ps ← put_slot (pkgs s) (head s) (Some seq); s ← stepTail (set_ring ps (head s) (tail s) s) 1; Ret (Done s)
  else
    oldest ← seq_of (oldestPkg s);
    if seq <? oldest then make_room fuel (fun s => o ← seq_of (oldestPkg s); Ret (u16 (o - seq))) (push_old seq) s
    else
      latest ← seq_of (latestPkg s);
      if latest <? seq then make_room fuel (fun s => l ← seq_of (latestPkg s); Ret (u16 (seq - l))) (push_new seq) s
      else
        let i := Z.rem (i16 (head s + i16 (u16 (seq - oldest)))) (capacity s) in
        x ← slot (pkgs s) i;
        match x with
        | None => ps ← put_slot (pkgs s) i (Some seq); Ret (Done (set_ring ps (head s) (tail s) s))
        | Some _ => Ret (Done s)
        end.

(** [header] is the sequence number [Unmarshal] finds, if the buffer has one. *)
Definition Push (fuel : nat) (header : option Z) (s : rtpStats) : run pushed :=
  match header with Some seq => push_seq fuel seq s | None => Ret (BadRtp s) end.

(** ** Properties *)

(** Positions are inside their rings, and positions and sums of two stay in an [int16]. *)
Record wf (s : rtpStats) : Prop := {
  wf_cap : 2 <= Z.of_nat (length (pkgs s)) < 16384;
  wf_head : 0 <= head s < Z.of_nat (length (pkgs s));
  wf_tail : 0 <= tail s < Z.of_nat (length (pkgs s));
  wf_dcap : 2 <= Z.of_nat (length (drops s)) < 16384;
  wf_dhead : 0 <= drops_head s < Z.of_nat (length (drops s));
  wf_dtail : 0 <= drops_tail s < Z.of_nat (length (drops s))
}.

(** The number of slots from the oldest to the latest. *)
Definition count (s : rtpStats) : Z :=
  if head s <=? tail s then tail s - head s else tail s + Z.of_nat (length (pkgs s)) - head s.

Lemma i16_small z : -32768 <= z < 32768 -> i16 z = z.
Proof. intros Hz. unfold i16. rewrite Z.mod_small by lia. lia. Qed.

Lemma i16_range z : -32768 <= i16 z < 32768.
Proof. unfold i16. pose proof (Z.mod_pos_bound (z + 32768) 65536). lia. Qed.

Lemma step_pos_ok pos offset cap : 0 < cap < 16384 -> exists r, step_pos pos offset cap = Ret r /\ 0 <= r < cap.
Proof.
  intros Hc. unfold step_pos. rewrite (proj2 (Z.eqb_neq cap 0)) by lia. eexists. split; [done|].
  pose proof (Z.rem_bound_abs (i16 (pos + offset)) cap ltac:(lia)) as Hr.
  destruct (Z.ltb_spec (Z.rem (i16 (pos + offset)) cap) 0); [rewrite i16_small by lia|]; lia.
Qed.

Lemma put_slot_ok l i x : 0 <= i < Z.of_nat (length l) -> put_slot l i x = Ret (<[Z.to_nat i := x]> l).
Proof. intros Hi. unfold put_slot. rewrite (proj2 (Z.ltb_ge i 0)), (proj2 (Z.leb_gt _ i)) by lia. done. Qed.

Lemma slot_ok l i : 0 <= i < Z.of_nat (length l) -> exists x, slot l i = Ret x.
Proof.
  intros Hi. unfold slot. rewrite (proj2 (Z.ltb_ge i 0)) by lia. destruct (lookup_lt_is_Some_2 l (Z.to_nat i)) as [x ->]; [lia|]. by exists x.
Qed.

Lemma next_pos pos cap : 0 <= pos < cap -> 2 <= cap < 16384 -> Z.rem (i16 (pos + 1)) cap = if pos + 1 =? cap then 0 else pos + 1.
Proof.
  intros Hp Hc. rewrite i16_small by lia. destruct (Z.eqb_spec (pos + 1) cap) as [->|]; [by rewrite Z.rem_same by lia|]. apply Z.rem_small. lia.
Qed.

(** [drop] takes the oldest slot off. *)
Lemma drop_ok s : wf s -> empty s = false -> exists s', drop s = Ret s' /\ wf s' /\ count s' = count s - 1.
Proof.
  intros [Hcap Hh Ht Hdc Hdh Hdt] He. unfold empty in He. apply Z.eqb_neq in He. unfold drop, empty. rewrite (proj2 (Z.eqb_neq _ _)) by done.
  destruct (slot_ok (pkgs s) (head s) Hh) as [pkg ->]. rewrite bind_ret_l, put_slot_ok, bind_ret_l by done.
  unfold stepHead, step_pos, capacity. cbn [pkgs head tail set_ring]. rewrite length_insert, (i16_small (Z.of_nat (length (pkgs s)))) by lia.
  rewrite (proj2 (Z.eqb_neq _ 0)) by lia. rewrite bind_ret_l, next_pos by lia.
  set (h := if head s + 1 =? _ then 0 else head s + 1).
  assert (0 <= h < Z.of_nat (length (pkgs s))) as Hh' by (unfold h; destruct (Z.eqb_spec (head s + 1) (Z.of_nat (length (pkgs s)))); lia).
  rewrite (proj2 (Z.ltb_ge h 0)) by lia. rewrite bind_ret_l.
  assert (forall ps dh dt ds al lo, length ps = length (pkgs s) -> length ds = length (drops s) -> 0 <= dh < Z.of_nat (length (drops s)) ->
    0 <= dt < Z.of_nat (length (drops s)) ->
    let s' := {| pkgs := ps; head := h; tail := tail s; drops := ds; drops_head := dh; drops_tail := dt; all := al; lost := lo |} in
    wf s' /\ count s' = count s - 1) as Hwf.
  { intros ps dh dt ds al lo Ep Ed H1 H2. split; [split; cbn; lia|]. unfold count. cbn. rewrite Ep.
    assert (h = 0 /\ head s + 1 = Z.of_nat (length (pkgs s)) \/ h = head s + 1) as Hc
      by (unfold h; destruct (Z.eqb_spec (head s + 1) (Z.of_nat (length (pkgs s)))); auto).
    destruct (Z.leb_spec h (tail s)), (Z.leb_spec (head s) (tail s)); lia. }
  assert (forall p, 0 <= p < Z.of_nat (length (drops s)) -> 0 <= Z.rem (i16 (p + 1)) (Z.of_nat (length (drops s))) < Z.of_nat (length (drops s))) as Hn.
  { intros p Hp. rewrite next_pos by lia. destruct (Z.eqb_spec (p + 1) (Z.of_nat (length (drops s)))); lia. }
  unfold dropsFull, dropsCapacity, set_ring. cbn [drops drops_head drops_tail pkgs head tail all lost]. rewrite (i16_small (Z.of_nat (length (drops s)))) by lia.
  clearbody h. destruct (_ =? _); rewrite put_slot_ok, bind_ret_l by lia; (eexists; split; [done|]); apply Hwf; rewrite ?length_insert; auto; lia.
Qed.

Lemma count_pos s : wf s -> empty s = false -> 0 < count s.
Proof.
  intros [Hcap Hh Ht _ _ _] He. unfold empty in He. apply Z.eqb_neq in He. unfold count. destruct (Z.leb_spec (head s) (tail s)); lia.
Qed.

Lemma wf_ring s ps h t :
  wf s -> length ps = length (pkgs s) -> 0 <= h < Z.of_nat (length (pkgs s)) -> 0 <= t < Z.of_nat (length (pkgs s)) -> wf (set_ring ps h t s).
Proof. intros [Hcap Hh Ht Hdc Hdh Hdt] E H1 H2. split; cbn; rewrite ?E; done. Qed.

Lemma cap_ok s : wf s -> capacity s = Z.of_nat (length (pkgs s)).
Proof. intros W. unfold capacity. apply i16_small. pose proof (wf_cap s W). lia. Qed.

Lemma push_old_ok seq s off : wf s -> exists s', push_old seq s off = Ret s' /\ wf s'.
Proof.
  intros W. unfold push_old, stepHead. rewrite cap_ok by done. pose proof (wf_cap s W) as Hc. pose proof (wf_tail s W) as Ht.
  destruct (step_pos_ok (head s) (i16 (- i16 off)) (Z.of_nat (length (pkgs s)))) as (h & -> & Hh); [lia|]. rewrite !bind_ret_l. cbn [pkgs head tail set_ring].
  rewrite put_slot_ok, bind_ret_l by done. eexists. split; [done|]. by apply (wf_ring s); [|rewrite length_insert|..].
Qed.

Lemma push_new_ok seq s off : wf s -> exists s', push_new seq s off = Ret s' /\ wf s'.
Proof.
  intros W. unfold push_new, stepTail. rewrite cap_ok by done. pose proof (wf_cap s W) as Hc. pose proof (wf_head s W) as Hh.
  destruct (step_pos_ok (tail s) (i16 off) (Z.of_nat (length (pkgs s)))) as (t & -> & Ht); [lia|]. rewrite !bind_ret_l. unfold capacity. cbn [pkgs head tail set_ring].
  rewrite i16_small by lia. rewrite put_slot_ok, bind_ret_l by (destruct (Z.leb_spec 1 t); lia). eexists. split; [done|].
  by apply (wf_ring s); [|rewrite length_insert|..].
Qed.

(** Whatever the offsets, the loop ends: a slot is taken off each time. *)
Lemma make_room_ok offset finish : (forall s off, wf s -> exists s', finish s off = Ret s' /\ wf s') -> (forall s, offset s <> Abort NoFuel) ->
  forall fuel s, wf s -> empty s = false -> count s <= Z.of_nat fuel ->
  make_room fuel offset finish s <> Abort NoFuel /\ forall s', make_room fuel offset finish s = Ret (Done s') -> wf s'.
Proof.
  intros Hf Ho. induction fuel as [|fuel IH]; intros s W He Hc; [pose proof (count_pos s W He); lia|]. cbn [make_room].
  specialize (Ho s). destruct (offset s) as [off|a]; [|by split; [intros [= ->]|]]. rewrite bind_ret_l. destruct (hasSpace s (i16 off)).
  - destruct (Hf s off W) as (s' & -> & W'). rewrite bind_ret_l. split; [done|]. by intros s'' [= <-].
  - destruct (drop_ok s W He) as (s' & -> & W' & Hn). rewrite bind_ret_l. destruct (empty s') eqn:He'; [by split|]. apply IH; [done|done|lia].
Qed.

Lemma seq_of_ends h : h <> Abort NoFuel -> seq_of h <> Abort NoFuel.
Proof. intros Hh. unfold seq_of. destruct h as [[n|]|a]; cbn; [done|done|]. by intros [= ->]. Qed.

Lemma slot_ends l i : slot l i <> Abort NoFuel.
Proof. unfold slot. destruct (_ <? _); [done|]. by destruct (l !! _). Qed.

Lemma oldest_ends s : seq_of (oldestPkg s) <> Abort NoFuel.
Proof. apply seq_of_ends. unfold oldestPkg. destruct (empty s); [done|apply slot_ends]. Qed.
Lemma latest_ends s : seq_of (latestPkg s) <> Abort NoFuel.
Proof. apply seq_of_ends. unfold latestPkg. destruct (empty s); [done|apply slot_ends]. Qed.

Lemma count_le s : wf s -> count s <= Z.of_nat (length (pkgs s)).
Proof. intros [Hcap Hh Ht _ _ _]. unfold count. destruct (Z.leb_spec (head s) (tail s)); lia. Qed.

(** The loop of [Push] takes no more iterations than there are slots, and a [Push] that returns keeps every position
    inside its ring.  It need not return: see [gap_deadlocks] and [hole_panics]. *)
Theorem Push_wf header s :
  wf s -> Push (length (pkgs s)) header s <> Abort NoFuel /\ forall s', Push (length (pkgs s)) header s = Ret (Done s') -> wf s'.
Proof.
  intros W. pose proof W as [Hcap Hh Ht _ _ _]. destruct header as [seq|]; [|by split]. cbn [Push]. unfold push_seq. destruct (empty s) eqn:He.
  - rewrite put_slot_ok, bind_ret_l by done. unfold stepTail, capacity. cbn [pkgs head tail set_ring]. rewrite length_insert, i16_small by lia.
    destruct (step_pos_ok (tail s) 1 (Z.of_nat (length (pkgs s)))) as (t & -> & Ht'); [lia|]. rewrite !bind_ret_l. split; [done|].
    intros s' [= <-]. by apply (wf_ring (set_ring _ _ _ s)); [apply (wf_ring s); [|rewrite length_insert|..]|cbn..]; cbn; rewrite ?length_insert.
  - pose proof (oldest_ends s) as Ho. destruct (seq_of (oldestPkg s)) as [oldest|a]; [|by split; [intros [= ->]|]]. rewrite bind_ret_l.
    destruct (seq <? oldest).
    { apply make_room_ok; [intros; by apply push_old_ok| |done|done|by apply count_le].
      intros s0. pose proof (oldest_ends s0). destruct (seq_of (oldestPkg s0)); [done|]. by intros [= ->]. }
    pose proof (latest_ends s) as Hl. destruct (seq_of (latestPkg s)) as [latest|a]; [|by split; [intros [= ->]|]]. rewrite bind_ret_l.
    destruct (latest <? seq).
    { apply make_room_ok; [intros; by apply push_new_ok| |done|done|by apply count_le].
      intros s0. pose proof (latest_ends s0). destruct (seq_of (latestPkg s0)); [done|]. by intros [= ->]. }
    set (i := Z.rem _ _). pose proof (slot_ends (pkgs s) i) as Hs. destruct (slot (pkgs s) i) as [x|a] eqn:Hx; [|by split; [intros [= ->]|]]. rewrite bind_ret_l.
    destruct x; [split; [done|]; by intros s' [= <-]|]. unfold put_slot. destruct (_ || _); [by split|]. rewrite bind_ret_l. split; [done|]. intros s' [= <-].
    by apply (wf_ring s); [|rewrite length_insert|..].
Qed.

(** ** What goes wrong *)

Definition pushes (cap : nat) (l : list Z) : run pushed :=
  fold_left (fun r seq => x ← r; match x with Done s => Push cap (Some seq) s | x => Ret x end) l (Ret (Done (NewRtpStats cap))).

(** A gap as long as the ring empties it, and [Push] waits for the mutex it holds. *)
Lemma gap_deadlocks : pushes 4 [1; 100] = Ret Deadlock.
Proof. reflexivity. Qed.

(** An old packet makes [drop] uncover a packet that was never there. *)
Lemma hole_panics : pushes 4 [3; 5; 2] = go_panic PNilDeref.
Proof. reflexivity. Qed.

(** After 65535 comes 0, which is taken for an older packet: the ring is empty then. *)
Lemma wrap_empties : exists s, pushes 4 [65535; 0] = Ret (Done s) /\ empty s = true.
Proof. eexists. split; reflexivity. Qed.

(** An empty ring has the size of a full one and more. *)
Lemma empty_size s : wf s -> empty s = true -> size s = capacity s.
Proof.
  intros W He. unfold empty in He. apply Z.eqb_eq in He. pose proof (wf_cap s W). pose proof (wf_tail s W). unfold size, ring_size. rewrite cap_ok by done.
  rewrite He, (proj2 (Z.ltb_ge _ _)) by lia. rewrite (i16_small (tail s + _)) by lia. rewrite i16_small; lia.
Qed.

Lemma NewRtpStats_wf cap : 2 <= Z.of_nat cap < 16384 -> wf (NewRtpStats cap).
Proof. intros Hc. split; cbn; rewrite length_replicate; lia. Qed.

Lemma Push_wf_witness : exists s', Push 4 (Some 7) (NewRtpStats 4) = Ret (Done s') /\ wf s'.
Proof.
  destruct (Push_wf (Some 7) (NewRtpStats 4) (NewRtpStats_wf 4 ltac:(cbn; lia))) as [_ Hw]. eexists. split; [reflexivity|]. apply Hw. reflexivity.
Defined.
