(* ===== verification/RouterServer.v ===== *)
(** * RouterServer: the calls of the router ([signal/router.go])

    [Router.mu] guards the UDP server of the node, the connections to the other nodes and the tables of published
    tracks.  [makeSureServer] reads [r.server] without the mutex first, and [makeSureExternelConn] calls [Addr], and so
    [makeSureServer], twice: before it takes the mutex, and for a log line while it holds it.  A call is the point it
    has reached, every interleaving of calls is a run, and what a call does under the mutex is the operation of
    [Routing]: the calls are linearised by the mutex. *)
From S2P Require Import Prelude Packets Routing.
Local Open Scope string_scope.
Local Open Scope list_scope.

Section Router.
Context `{Webrtc}.

(** ** Calls *)

Inductive op :=
  | OAddr
  | OPublish (trackId transportId : string)
  | ORemove (trackId : string)
  | OExternal (addr : string)
  | OCloser (addr : string) (conn : nat).

Inductive result :=
  | RAddr (addr : string)
  | RChan (c : nat)
  | RUnit
  | RConn (conn : option nat)
  | RPanic.

(** [PCheck], [PLock] and [PIn] are [makeSureServer]: the read without the mutex, the wait for it, the part under it.
    [BLock] and [BIn] are the rest of the call.  [XCheck] and [XLock] are [makeSureServer] again, as
    [makeSureExternelConn] calls it for its log line, and [XStore] is the end of that function. *)
Inductive point :=
  | PCheck | PLock | PIn
  | BLock | BIn
  | XCheck (addr : string) (env : Env) (conn : nat) | XLock (addr : string) (env : Env) (conn : nat)
  | XStore (addr : string) (env : Env) (conn : nat)
  | Done (r : result).

(** What the network answers: to [makeSureServer], and to the dialling of an address. *)
Record answer := { resolve_err : option gerror; listen_err : option gerror; net : Env }.

Definition server_err (a : answer) : option gerror :=
  match resolve_err a with Some e => Some e | None => listen_err a end.

(** [server] is the socket of the node, [bound] the number of sockets opened, [running] those read from.  [log] has, in
    the order of the mutex, the calls that have been under it, with the answers they got and their results. *)
Record rstate := {
  server : option nat; bound : nat; running : list nat; r_mu : option nat; world : World;
  log : list (nat * op * Env * result); calls : list (op * point)
}.

Definition rstate0 (w : World) : rstate :=
  {| server := None; bound := 0; running := []; r_mu := None; world := w; log := []; calls := [] |}.

Definition goto (i : nat) (o : op) (mu : option nat) (q : point) (c : rstate) : rstate :=
  {| server := server c; bound := bound c; running := running c; r_mu := mu; world := world c; log := log c;
     calls := <[i := (o, q)]> (calls c) |}.

(** Where a call goes on after [makeSureServer] has returned, whatever it returned: [Addr] and [PublishTrack]
    ignore the error. *)
Definition after_server (w : World) (o : op) : point :=
  match o with
  | OAddr => Done (RAddr (router_addr w))
  | OExternal addr => if bool_decide (router_addr w = addr) then Done (RConn None) else BLock
  | _ => BLock
  end.

(** [makeSureServer] under the mutex. *)
Definition makeSureServer_in (i : nat) (o : op) (a : answer) (c : rstate) : rstate :=
  match server c, server_err a with
  | Some _, _ | None, Some _ => goto i o None (after_server (world c) o) c
  | None, None =>
      {| server := Some (bound c); bound := S (bound c); running := running c ++ [bound c]; r_mu := None;
         world := world c; log := log c; calls := <[i := (o, after_server (world c) o)]> (calls c) |}
  end.

(** The end of a call under the mutex. *)
Definition finish (i : nat) (o : op) (env : Env) (w : World) (r : result) (c : rstate) : rstate :=
  {| server := server c; bound := bound c; running := running c; r_mu := None; world := w;
     log := log c ++ [(i, o, env, r)]; calls := <[i := (o, Done r)]> (calls c) |}.

(** [makeSureExternelConn] up to its log line. *)
Definition external_in (i : nat) (addr : string) (env : Env) (c : rstate) : rstate :=
  let o := OExternal addr in
  match externalTransports (world c) !! addr with
  | Some conn => finish i o env (world c) (RConn (Some conn)) c
  | None =>
      match ResolveUDPAddr_err env addr, DialUDP_err env addr with
      | Some _, _ | None, Some _ => finish i o env (world c) RPanic c
      | None, None =>
          {| server := server c; bound := bound c; running := running c; r_mu := r_mu c;
             world := emit (world c) (EvDial addr); log := log c;
             calls := <[i := (o, XCheck addr env (length (events (world c))))]> (calls c) |}
      end
  end.

Definition store (addr : string) (conn : nat) (w : World) : World :=
  set_external w (<[addr := conn]> (externalTransports w)).

(** The rest of a call under the mutex. *)
Definition body (i : nat) (o : op) (a : answer) (c : rstate) : rstate :=
  match o with
  | OAddr => goto i o None (Done (RAddr (router_addr (world c)))) c
  | OPublish t tr => let '(w, ch) := PublishTrack (world c) t tr in finish i o (net a) w (RChan ch) c
  | ORemove t => finish i o (net a) (RemoveTrack (world c) t) RUnit c
  | OExternal addr => external_in i addr (net a) c
  | OCloser addr conn => finish i o (net a) (closer (world c) addr conn) RUnit c
  end.

(** A step of call [i]; [None] when it waits for the mutex or has returned. *)
Definition step_call (i : nat) (a : answer) (c : rstate) : option rstate :=
  match calls c !! i with
  | None => None
  | Some (o, q) =>
      match q with
      | PCheck => Some (goto i o (r_mu c) (if bool_decide (is_Some (server c)) then after_server (world c) o else PLock) c)
      | PLock => match r_mu c with Some _ => None | None => Some (goto i o (Some i) PIn c) end
      | PIn => Some (makeSureServer_in i o a c)
      | BLock => match r_mu c with Some _ => None | None => Some (goto i o (Some i) BIn c) end
      | BIn => Some (body i o a c)
      | XCheck addr env conn =>
          Some (goto i o (r_mu c) (if bool_decide (is_Some (server c)) then XStore addr env conn else XLock addr env conn) c)
      | XLock _ _ _ => None (* a Go mutex is not reentrant, and the call holds it: [rk_holder] *)
      | XStore addr env conn => Some (finish i o env (store addr conn (world c)) (RConn (Some conn)) c)
      | Done _ => None
      end
  end.

(** Where a call starts: [RemoveTrack] and [closer] do not need the server. *)
Definition entry_point (o : op) : point :=
  match o with ORemove _ | OCloser _ _ => BLock | _ => PCheck end.

Definition new_call (o : op) (c : rstate) : rstate :=
  {| server := server c; bound := bound c; running := running c; r_mu := r_mu c; world := world c; log := log c;
     calls := calls c ++ [(o, entry_point o)] |}.

(** What happens next: a call, or a step of one.  [fails] says whether opening the server may fail. *)
Inductive rmove (fails : bool) : rstate -> rstate -> Prop :=
  | rm_call o c : rmove fails c (new_call o c)
  | rm_step i a c c' : (fails = false -> server_err a = None) -> step_call i a c = Some c' -> rmove fails c c'.

Inductive smove : rstate -> rstate -> Prop :=
  | sm_step i a c c' : server_err a = None -> step_call i a c = Some c' -> smove c c'.

(** ** The operations one after the other *)

Definition run_op (o : op) (env : Env) (w : World) : World * result :=
  match o with
  | OAddr => (w, RAddr (router_addr w))
  | OPublish t tr => let '(w', ch) := PublishTrack w t tr in (w', RChan ch)
  | ORemove t => (RemoveTrack w t, RUnit)
  | OExternal addr =>
      match makeSureExternelConn env w addr with
      | Ret w' => (w', RConn (if bool_decide (router_addr w = addr) then None else externalTransports w' !! addr))
      | Abort _ => (w, RPanic)
      end
  | OCloser addr conn => (closer w addr conn, RUnit)
  end.

Fixpoint replay (w : World) (l : list (nat * op * Env * result)) : World :=
  match l with [] => w | (_, o, env, _) :: l => replay (run_op o env w).1 l end.

(** The results are those of the operations one after the other. *)
Fixpoint results_ok (w : World) (l : list (nat * op * Env * result)) : Prop :=
  match l with [] => True | (_, o, env, r) :: l => (run_op o env w).2 = r /\ results_ok (run_op o env w).1 l end.

Definition indices (l : list (nat * op * Env * result)) : list nat := (fun e => e.1.1.1) <$> l.

Lemma replay_app w l l' : replay w (l ++ l') = replay (replay w l) l'.
Proof. revert w. induction l as [|[[[i o] env] r] l IH]; intros w; cbn; [done|apply IH]. Qed.

Lemma results_ok_app w l l' : results_ok w (l ++ l') <-> results_ok w l /\ results_ok (replay w l) l'.
Proof. revert w. induction l as [|[[[i o] env] r] l IH]; intros w; cbn; [tauto|]. rewrite IH. tauto. Qed.

Lemma run_op_addr o env w : router_addr (run_op o env w).1 = router_addr w.
Proof.
  destruct o; cbn; try done.
  - unfold PublishTrack. by case_bool_decide.
  - unfold makeSureExternelConn. repeat case_match; simplify_eq; done.
  - unfold closer. by case_bool_decide.
Qed.

Lemma replay_addr w l : router_addr (replay w l) = router_addr w.
Proof. revert w. induction l as [|[[[i o] env] r] l IH]; intros w; cbn; [done|]. by rewrite IH, run_op_addr. Qed.

(** ** The invariant *)

Definition inside (q : point) : bool :=
  match q with PIn | BIn | XCheck _ _ _ | XLock _ _ _ | XStore _ _ _ => true | _ => false end.

(** What a call that has dialled has: the address, the answers, and the number of its connection. *)
Definition dialling (q : point) : option (string * Env * nat) :=
  match q with XCheck a e n | XLock a e n | XStore a e n => Some (a, e, n) | _ => None end.

(** A call that need not take the mutex for itself. *)
Definition own (w0 : World) (o : op) : bool :=
  match o with OAddr => true | OExternal addr => bool_decide (router_addr w0 = addr) | _ => false end.

Definition own_result (w0 : World) (o : op) : result :=
  match o with OAddr => RAddr (router_addr w0) | _ => RConn None end.

Definition at_body (q : point) : bool := match q with BLock | BIn | XCheck _ _ _ | XLock _ _ _ | XStore _ _ _ => true | _ => false end.

Definition dial_ok (w0 : World) (c : rstate) (o : op) (d : string * Env * nat) : Prop :=
  let w := replay w0 (log c) in
  o = OExternal d.1.1 /\ world c = emit w (EvDial d.1.1) /\ d.2 = length (events w) /\
  externalTransports w !! d.1.1 = None /\ ResolveUDPAddr_err d.1.2 d.1.1 = None /\ DialUDP_err d.1.2 d.1.1 = None.

Record rs_ok (w0 : World) (c : rstate) : Prop := {
  rk_holder i o q : calls c !! i = Some (o, q) -> inside q = true -> r_mu c = Some i;
  rk_held i : r_mu c = Some i -> exists o q, calls c !! i = Some (o, q) /\ inside q = true;
  rk_addr : router_addr (world c) = router_addr w0;
  rk_world : (forall i o q, calls c !! i = Some (o, q) -> dialling q = None) -> world c = replay w0 (log c);
  rk_dial i o q d : calls c !! i = Some (o, q) -> dialling q = Some d -> dial_ok w0 c o d;
  rk_body i o q : calls c !! i = Some (o, q) -> at_body q = true -> own w0 o = false;
  rk_results : results_ok w0 (log c);
  rk_nodup : NoDup (indices (log c));
  rk_logged i o env r : (i, o, env, r) ∈ log c -> calls c !! i = Some (o, Done r);
  rk_done i o r : calls c !! i = Some (o, Done r) ->
    (own w0 o = true /\ r = own_result w0 o) \/ (own w0 o = false /\ exists env, (i, o, env, r) ∈ log c);
  rk_bound : bound c = match server c with Some _ => 1 | None => 0 end%nat;
  rk_running : running c = match server c with Some s => [s] | None => [] end
}.

Lemma rs0_ok w0 : rs_ok w0 (rstate0 w0).
Proof. split; cbn; try done; [constructor|intros i o env r Hl; by apply elem_of_nil in Hl]. Qed.

(** How the mutex changes hands when a call goes from one point to the next. *)
Definition hand_over (i : nat) (q0 q : point) (mu mu' : option nat) : Prop :=
  (mu' = mu /\ inside q = inside q0) \/ (mu = None /\ mu' = Some i /\ inside q = true) \/
  (mu = Some i /\ mu' = None /\ inside q = false).

Section Preserved.
Context (w0 : World).
Implicit Types (c : rstate) (q : point).

Lemma mutex_put c i o q0 q mu' l' :
  rs_ok w0 c -> calls c !! i = Some (o, q0) -> l' = <[i := (o, q)]> (calls c) -> hand_over i q0 q (r_mu c) mu' ->
  (forall j o' q', l' !! j = Some (o', q') -> inside q' = true -> mu' = Some j) /\
  (forall j, mu' = Some j -> exists o' q', l' !! j = Some (o', q') /\ inside q' = true).
Proof.
  intros K Hi -> Hh. pose proof (rk_holder _ _ K) as K1. pose proof (rk_held _ _ K) as K2. pose proof (lookup_lt_Some _ _ _ Hi) as Hl. split.
  - intros j o' q' Hj Hin. apply lookup_put in Hj as [[<- [= <- <-]]|[Hne Hj]].
    + destruct Hh as [[-> Eq]|[(_ & -> & _)|(_ & _ & Eq)]]; [|done|congruence]. apply (K1 i o q0 Hi). congruence.
    + pose proof (K1 j o' q' Hj Hin) as Hm. destruct Hh as [[-> _]|[(E & _)|(E & _)]]; congruence.
  - intros j Hj. destruct (decide (j = i)) as [->|Hne].
    + exists o, q. split; [by rewrite list_lookup_insert_eq|]. destruct Hh as [[-> Eq]|[(_ & _ & ?)|(_ & -> & _)]]; [|done|done].
      destruct (K2 i Hj) as (o' & q' & Hq & Hin). rewrite Hi in Hq. injection Hq as <- <-. congruence.
    + rewrite list_lookup_insert_ne by done. destruct Hh as [[-> _]|[(_ & -> & _)|(_ & -> & _)]]; [by apply K2|congruence|done].
Qed.

(** A step that leaves the tables and the log alone. *)
Lemma put_ok c c' i o q0 q :
  rs_ok w0 c -> calls c !! i = Some (o, q0) -> (forall r, q0 <> Done r) ->
  calls c' = <[i := (o, q)]> (calls c) -> world c' = world c -> log c' = log c -> hand_over i q0 q (r_mu c) (r_mu c') ->
  dialling q = dialling q0 -> (at_body q = true -> own w0 o = false) ->
  (forall r, q = Done r -> own w0 o = true /\ r = own_result w0 o) ->
  bound c' = match server c' with Some _ => 1 | None => 0 end%nat -> running c' = match server c' with Some s => [s] | None => [] end ->
  rs_ok w0 c'.
Proof.
  intros K Hi H0 Hp Hw Hl Hh Hd Hb Hr Hbo Hru. destruct (mutex_put c i o q0 q _ _ K Hi Hp Hh) as [M1 M2].
  assert (forall j e, calls c !! j = Some e -> j = i -> e = (o, q0)) as Hold by (intros j e Hj ->; congruence).
  destruct K as [K1 K2 K3 K4 K5 K6 K7 K8 K9 K10 K11 K12]. split; try done; rewrite ?Hw, ?Hl; try done.
  - intros Hn. apply K4. intros j o' q' Hj. destruct (decide (j = i)) as [->|Hne].
    + rewrite Hi in Hj. injection Hj as <- <-. rewrite <- Hd. apply (Hn i o). rewrite Hp. apply list_lookup_insert_eq. by eapply lookup_lt_Some.
    + apply (Hn j o'). rewrite Hp. by rewrite list_lookup_insert_ne.
  - intros j o' q' d Hj Hq. rewrite Hp in Hj. apply lookup_put in Hj as [[<- [= <- <-]]|[Hne Hj]].
    + rewrite Hd in Hq. pose proof (K5 i o q0 d Hi Hq) as Hk. unfold dial_ok in *. rewrite Hw, Hl. done.
    + pose proof (K5 j o' q' d Hj Hq) as Hk. unfold dial_ok in *. rewrite Hw, Hl. done.
  - intros j o' q' Hj Hq. rewrite Hp in Hj. apply lookup_put in Hj as [[<- [= <- <-]]|[Hne Hj]]; [by apply Hb|by eapply K6].
  - intros j o' env r Hin. apply K9 in Hin. rewrite Hp, list_lookup_insert_ne; [done|]. intros <-. rewrite Hi in Hin. injection Hin as _ E. by apply (H0 r).
  - intros j o' r Hj. rewrite Hp in Hj. apply lookup_put in Hj as [[<- [= <- E]]|[Hne Hj]]; [left; by apply Hr|by apply K10].
Qed.

(** While a call is under the mutex no other has dialled. *)
Lemma only_dialler c i o q j o' q' :
  rs_ok w0 c -> calls c !! i = Some (o, q) -> inside q = true -> calls c !! j = Some (o', q') -> dialling q' <> None -> j = i.
Proof.
  intros K Hi Hq Hj Hd. pose proof (rk_holder _ _ K i o q Hi Hq) as E1.
  assert (inside q' = true) as Hin by (by destruct q'). pose proof (rk_holder _ _ K j o' q' Hj Hin). congruence.
Qed.

(** The end of a call: what it did is its operation on the tables. *)
Lemma finish_ok c i o q0 env w r :
  rs_ok w0 c -> calls c !! i = Some (o, q0) -> inside q0 = true -> own w0 o = false ->
  run_op o env (replay w0 (log c)) = (w, r) -> rs_ok w0 (finish i o env w r c).
Proof.
  intros K Hi Hq Ho Hrun. pose proof (rk_holder _ _ K i o q0 Hi Hq) as Hm.
  destruct (mutex_put c i o q0 (Done r) None _ K Hi eq_refl) as [M1 M2]; [right; right; done|].
  assert (forall j o' q', <[i := (o, Done r)]> (calls c) !! j = Some (o', q') -> dialling q' = None) as Hnd.
  { intros j o' q' Hj. apply lookup_put in Hj as [[<- [= <- <-]]|[Hne Hj]]; [done|]. destruct (dialling q') eqn:E; [|done].
    destruct Hne. symmetry. by apply (only_dialler c i o q0 j o' q' K); [| | |congruence]. }
  assert (i ∉ indices (log c)) as Hni.
  { intros Hin. apply list_elem_of_fmap in Hin as ([[[k o'] env'] r'] & E & Hin). cbn in E. subst k. apply (rk_logged _ _ K) in Hin.
    rewrite Hi in Hin. injection Hin as _ ->. done. }
  destruct K as [K1 K2 K3 K4 K5 K6 K7 K8 K9 K10 K11 K12]. split; cbn [calls r_mu world log bound running server finish]; try done.
  - replace w with (run_op o env (replay w0 (log c))).1 by (by rewrite Hrun). by rewrite run_op_addr, replay_addr.
  - intros _. rewrite replay_app. cbn. by rewrite Hrun.
  - intros j o' q' d Hj Hd. rewrite (Hnd j o' q' Hj) in Hd. done.
  - intros j o' q' Hj Hb. apply lookup_put in Hj as [[<- [= <- <-]]|[Hne Hj]]; [done|by eapply K6].
  - apply results_ok_app. split; [done|]. cbn. by rewrite Hrun.
  - unfold indices. rewrite fmap_app. apply NoDup_app. split; [done|]. split; [|apply NoDup_singleton].
    intros j Hj Hj'. apply list_elem_of_singleton in Hj'. cbn in Hj'. by subst.
  - intros j o' env' r' Hin. apply elem_of_app in Hin as [Hin|Hin].
    + rewrite list_lookup_insert_ne; [by eapply K9|]. intros <-. apply Hni. apply list_elem_of_fmap. by exists (i, o', env', r').
    + apply list_elem_of_singleton in Hin as [= -> -> -> ->]. apply list_lookup_insert_eq. by eapply lookup_lt_Some.
  - intros j o' r' Hj. apply lookup_put in Hj as [[<- [= <- <-]]|[Hne Hj]].
    + right. split; [done|]. exists env. apply elem_of_app. right. by apply list_elem_of_singleton.
    + destruct (K10 j o' r' Hj) as [?|[? [env' ?]]]; [by left|]. right. split; [done|]. exists env'. apply elem_of_app. by left.
Qed.

(** Under the mutex, and not dialling, the tables are those of the log. *)
Lemma world_at_body c i o q :
  rs_ok w0 c -> calls c !! i = Some (o, q) -> inside q = true -> dialling q = None -> world c = replay w0 (log c).
Proof.
  intros K Hi Hq Hd. apply (rk_world _ _ K). intros j o' q' Hj. destruct (dialling q') eqn:E; [|done].
  assert (j = i) as -> by (by apply (only_dialler c i o q j o' q' K); [| | |congruence]). congruence.
Qed.

Lemma world_idle c : rs_ok w0 c -> r_mu c = None -> world c = replay w0 (log c).
Proof.
  intros K Hm. apply (rk_world _ _ K). intros i o q Hi. destruct (dialling q) eqn:Hd; [|done].
  assert (inside q = true) as Hin by (by destruct q). pose proof (rk_holder _ _ K i o q Hi Hin). congruence.
Qed.

Lemma external_in_ok c i addr env :
  rs_ok w0 c -> calls c !! i = Some (OExternal addr, BIn) -> rs_ok w0 (external_in i addr env c).
Proof.
  intros K Hi. pose proof (world_at_body c i _ _ K Hi eq_refl eq_refl) as Hw. pose proof (rk_body _ _ K i _ _ Hi eq_refl) as Ho.
  pose proof Ho as Hne. cbn in Hne. rewrite <- (rk_addr _ _ K), Hw in Hne.
  unfold external_in. destruct (externalTransports (world c) !! addr) as [conn|] eqn:He.
  { apply (finish_ok c i _ BIn); [done|done|done|done|]. cbn. unfold makeSureExternelConn. rewrite <- Hw in *. rewrite Hne.
    rewrite bool_decide_eq_true_2 by (by rewrite He). by rewrite He. }
  assert (bool_decide (is_Some (externalTransports (world c) !! addr)) = false) as Hb by (by rewrite He).
  destruct (ResolveUDPAddr_err env addr) eqn:Hr; [|destruct (DialUDP_err env addr) eqn:Hd].
  1, 2: apply (finish_ok c i _ BIn); [done|done|done|done|]; cbn; unfold makeSureExternelConn; rewrite <- Hw in *; by rewrite Hne, Hb, Hr, ?Hd.
  destruct (mutex_put c i (OExternal addr) BIn (XCheck addr env (length (events (world c)))) (r_mu c) _ K Hi eq_refl) as [M1 M2]; [by left|].
  pose proof (fun j o' q' => only_dialler c i _ _ j o' q' K Hi eq_refl) as Hod.
  destruct K as [K1 K2 K3 K4 K5 K6 K7 K8 K9 K10 K11 K12]. split; cbn [calls r_mu world log bound running server]; try done.
  - intros Hn. exfalso. specialize (Hn i (OExternal addr) (XCheck addr env (length (events (world c))))).
    rewrite list_lookup_insert_eq in Hn by (by eapply lookup_lt_Some). by specialize (Hn eq_refl).
  - intros j o' q' d Hj Hq. apply lookup_put in Hj as [[<- [= <- <-]]|[Hx Hj]].
    + injection Hq as <-. unfold dial_ok. cbn. rewrite <- Hw. done.
    + destruct Hx. symmetry. apply (Hod j o' q' Hj). congruence.
  - intros j o' q' Hj Hq. apply lookup_put in Hj as [[<- [= <- <-]]|[Hx Hj]]; [done|by eapply K6].
  - intros j o' env' r Hin. apply K9 in Hin. rewrite list_lookup_insert_ne; [done|]. intros ->. congruence.
  - intros j o' r Hj. apply lookup_put in Hj as [[_ Hj]|[Hx Hj]]; [by injection Hj|by apply K10].
Qed.

Lemma body_ok c i o a : rs_ok w0 c -> calls c !! i = Some (o, BIn) -> rs_ok w0 (body i o a c).
Proof.
  intros K Hi. pose proof (world_at_body c i _ _ K Hi eq_refl eq_refl) as Hw. pose proof (rk_body _ _ K i _ _ Hi eq_refl) as Ho.
  destruct o as [|t tr|t|addr|addr conn]; cbn [body]; [done| | |by apply external_in_ok|].
  - destruct (PublishTrack (world c) t tr) as [w ch] eqn:Hp. apply (finish_ok c i _ BIn); [done|done|done|done|]. unfold run_op. by rewrite <- Hw, Hp.
  - apply (finish_ok c i _ BIn); [done|done|done|done|]. cbn. by rewrite <- Hw.
  - apply (finish_ok c i _ BIn); [done|done|done|done|]. cbn. by rewrite <- Hw.
Qed.

Lemma after_server_ok c o :
  rs_ok w0 c -> let q := after_server (world c) o in
  inside q = false /\ dialling q = None /\ (at_body q = true -> own w0 o = false) /\
  (forall r, q = Done r -> own w0 o = true /\ r = own_result w0 o).
Proof.
  intros K. cbn zeta. pose proof (rk_addr _ _ K) as Ha. destruct o as [| | |addr|]; cbn [after_server own own_result]; try by split_and!.
  - rewrite Ha. split_and!; try done. by intros r [= <-].
  - rewrite Ha. case_bool_decide; split_and!; try done. by intros r [= <-].
Qed.

Lemma store_ok c i o addr env conn :
  rs_ok w0 c -> calls c !! i = Some (o, XStore addr env conn) ->
  rs_ok w0 (finish i o env (store addr conn (world c)) (RConn (Some conn)) c).
Proof.
  intros K Hi. destruct (rk_dial _ _ K i o _ _ Hi eq_refl) as (-> & Hw & Hc & He & Hr & Hd). cbn in *.
  pose proof (rk_body _ _ K i _ _ Hi eq_refl) as Ho. pose proof Ho as Hne. cbn in Hne. rewrite <- (replay_addr w0 (log c)) in Hne.
  apply (finish_ok c i _ (XStore addr env conn)); [done|done|done|done|]. cbn. unfold makeSureExternelConn.
  rewrite Hne, bool_decide_eq_false_2, Hr, Hd by (rewrite He; by intros []). rewrite Hw, Hc. cbn. by rewrite lookup_insert_eq.
Qed.

Lemma step_call_ok i a c c' : rs_ok w0 c -> step_call i a c = Some c' -> rs_ok w0 c'.
Proof.
  intros K. unfold step_call. destruct (calls c !! i) as [[o q]|] eqn:Hi; [|done]. destruct (after_server_ok c o K) as (A1 & A2 & A3 & A4).
  pose proof (rk_bound _ _ K) as Hb. pose proof (rk_running _ _ K) as Hr. pose proof (rk_body _ _ K i o _ Hi) as Ho.
  pose proof (rk_holder _ _ K i o _ Hi) as Hh.
  destruct q as [| | | | |addr env conn|addr env conn|addr env conn|r]; try done.
  - intros [= <-]. case_bool_decide; (eapply put_ok; [exact K|exact Hi| |reflexivity| | | | | | | |]; try done; left; by rewrite ?A1).
  - destruct (r_mu c) eqn:Hm; [done|]. intros [= <-]. eapply put_ok; [exact K|exact Hi| |reflexivity| | | | | | | |]; try done. right; left. by rewrite Hm.
  - intros [= <-]. specialize (Hh eq_refl). unfold makeSureServer_in.
    destruct (server c) eqn:Hs; [|destruct (server_err a) eqn:Ha];
      (eapply put_ok; [exact K|exact Hi| |reflexivity| | | | | | | |]; cbn; rewrite ?Hs, ?Hr, ?Hb; try done; right; right; by rewrite A1).
  - destruct (r_mu c) eqn:Hm; [done|]. intros [= <-]. eapply put_ok; [exact K|exact Hi| |reflexivity| | | | | | | |]; try done. right; left. by rewrite Hm.
  - intros [= <-]. by apply body_ok.
  - intros [= <-]. case_bool_decide; (eapply put_ok; [exact K|exact Hi| |reflexivity| | | | | | | |]; try done; by left).
  - intros [= <-]. by apply store_ok.
Qed.

Lemma new_rcall_ok o c : rs_ok w0 c -> rs_ok w0 (new_call o c).
Proof.
  intros [K1 K2 K3 K4 K5 K6 K7 K8 K9 K10 K11 K12].
  assert (forall j o' q, calls (new_call o c) !! j = Some (o', q) -> calls c !! j = Some (o', q) \/ (o' = o /\ q = entry_point o)) as Hn.
  { intros j o' q Hj. cbn in Hj. apply lookup_app_Some in Hj as [Hj|[_ Hj]]; [by left|]. apply list_lookup_singleton_Some in Hj as [_ [= -> ->]]. by right. }
  assert (inside (entry_point o) = false /\ dialling (entry_point o) = None /\ (at_body (entry_point o) = true -> own w0 o = false) /\
    (forall r, entry_point o <> Done r)) as (E1 & E2 & E3 & E4) by (by destruct o).
  split; cbn [r_mu world log bound running server]; try done.
  - intros j o' q Hj Hq. apply Hn in Hj as [Hj|[-> ->]]; [by eapply K1|congruence].
  - intros j Hj. destruct (K2 j Hj) as (o' & q & Hq & Hin). exists o', q. split; [|done]. by apply lookup_app_l_Some.
  - intros Hd. apply K4. intros j o' q Hj. apply (Hd j o'). by apply lookup_app_l_Some.
  - intros j o' q d Hj Hq. apply Hn in Hj as [Hj|[-> ->]]; [by eapply K5|congruence].
  - intros j o' q Hj Hq. apply Hn in Hj as [Hj|[-> ->]]; [by eapply K6|by apply E3].
  - intros j o' env r Hin. apply lookup_app_l_Some. by eapply K9.
  - intros j o' r Hj. apply Hn in Hj as [Hj|[-> Hq]]; [by apply K10|by destruct (E4 r)].
Qed.

Lemma rs_reachable_ok fails c : rtc (rmove fails) (rstate0 w0) c -> rs_ok w0 c.
Proof.
  intros Hr. assert (rs_ok w0 (rstate0 w0)) as K by apply rs0_ok. revert K. induction Hr as [|c1 c2 c3 Hm _ IH]; intros K; [done|].
  apply IH. destruct Hm as [o c1|i a c1 c2 _ Hs]; [by apply new_rcall_ok|by eapply step_call_ok].
Qed.
End Preserved.

(** ** Linearisability *)

Lemma step_call_log i a c c' : step_call i a c = Some c' -> log c `prefix_of` log c'.
Proof.
  unfold step_call. destruct (calls c !! i) as [[o q]|]; [|done].
  destruct q; try done; try (destruct (r_mu c); [done|]); intros [= <-]; try done; try by apply prefix_app_r.
  - unfold makeSureServer_in. by destruct (server c), (server_err a).
  - destruct o as [|t tr|t|addr|addr conn]; cbn [body]; [done| |by apply prefix_app_r| |by apply prefix_app_r].
    + destruct (PublishTrack (world c) t tr). by apply prefix_app_r.
    + unfold external_in. repeat case_match; try done; by apply prefix_app_r.
Qed.

Lemma rmoves_log fails c c' : rtc (rmove fails) c c' -> log c `prefix_of` log c'.
Proof.
  induction 1 as [|c1 c2 c3 Hm _ IH]; [done|]. etrans; [|exact IH].
  destruct Hm as [o c1|i a c1 c2 _ Hs]; [done|by eapply step_call_log].
Qed.

(** The connections dialled to an address, and the ends of connections to it. *)
Definition is_dial (addr : string) (e : event) : bool :=
  match e with EvDial a => bool_decide (a = addr) | _ => false end.
Definition dials (addr : string) (w : World) : nat := length (List.filter (is_dial addr) (events w)).

Definition is_closer (addr : string) (e : nat * op * Env * result) : bool :=
  match e.1.1.2 with OCloser a _ => bool_decide (a = addr) | _ => false end.
Definition closers (addr : string) (l : list (nat * op * Env * result)) : nat := length (List.filter (is_closer addr) l).

Definition room (addr : string) (w : World) : nat := match externalTransports w !! addr with Some _ => 0 | None => 1 end.

Lemma dials_emit addr w e : dials addr (emit w e) = (dials addr w + if is_dial addr e then 1 else 0)%nat.
Proof. unfold dials. cbn. rewrite List.filter_app, length_app. cbn. by destruct (is_dial addr e). Qed.

Lemma run_op_dials addr o env w i r :
  (dials addr (run_op o env w).1 + room addr (run_op o env w).1 <= dials addr w + room addr w + closers addr [(i, o, env, r)])%nat.
Proof.
  destruct o as [|t tr|t|a|a conn]; cbn [run_op]; try (cbn; lia).
  - unfold PublishTrack, dials, room. case_bool_decide; cbn; lia.
  - unfold dials, room. cbn. lia.
  - unfold makeSureExternelConn. case_bool_decide; [cbn; lia|]. case_bool_decide as Hs; [cbn; lia|].
    destruct (ResolveUDPAddr_err env a); [cbn; lia|]. destruct (DialUDP_err env a); [cbn; lia|]. cbn [fst].
    change (dials addr (set_external (emit w (EvDial a)) _)) with (dials addr (emit w (EvDial a))). rewrite dials_emit. cbn [is_dial].
    unfold room. cbn. case_bool_decide as E.
    + subst. rewrite lookup_insert_eq. destruct (externalTransports w !! addr); [by destruct Hs|lia].
    + rewrite lookup_insert_ne by done. lia.
  - cbn [fst]. unfold closer, closers, is_closer. cbn. case_bool_decide as Hc; [|case_bool_decide; cbn; lia]. unfold dials, room. cbn.
    case_bool_decide as E; [cbn; destruct (delete _ _ !! _), (externalTransports w !! addr); lia|]. rewrite lookup_delete_ne by done. cbn. lia.
Qed.

Lemma replay_dials addr l : forall w,
  (dials addr (replay w l) + room addr (replay w l) <= dials addr w + room addr w + closers addr l)%nat.
Proof.
  induction l as [|[[[i o] env] r] l IH]; intros w; cbn [replay]; [cbn; lia|]. specialize (IH (run_op o env w).1).
  pose proof (run_op_dials addr o env w i r) as Hr. unfold closers in *. cbn [List.filter] in *. destruct (is_closer _ _); cbn in *; lia.
Qed.

Lemma world_dials w0 c addr :
  rs_ok w0 c -> (dials addr (world c) <= dials addr w0 + room addr w0 + closers addr (log c))%nat.
Proof.
  intros K. pose proof (replay_dials addr (log c) w0) as Hr.
  destruct (r_mu c) as [i|] eqn:Hm.
  - destruct (rk_held _ _ K i Hm) as (o & q & Hi & Hin). destruct (dialling q) as [d|] eqn:Hd.
    + destruct (rk_dial _ _ K i o q d Hi Hd) as (_ & -> & _ & He & _). rewrite dials_emit. cbn [is_dial].
      case_bool_decide as E; [|lia]. unfold room in Hr at 1. rewrite <- E, He in Hr. rewrite <- E. lia.
    + rewrite (world_at_body w0 c i o q K Hi Hin Hd). lia.
  - rewrite (world_idle w0 c K Hm). lia.
Qed.

(** C3. The calls of the router are linearised by its mutex, whatever their interleaving and whether its server opens or
    not.  The tables are those that the operations of [Routing] give one after the other, in the order of the mutex,
    and each returns to its caller what it returns there; each call that returned is one of them, once, unless it
    needs no table ([Addr], and a connection to the node itself); a call that returned stays before those made after
    it.  At most one socket is opened for the node, and it is read; to an address one connection is dialled, and
    one more for each that ended. *)
Theorem router_linearizable (w0 : World) (fails : bool) (c : rstate) :
  rtc (rmove fails) (rstate0 w0) c ->
  (r_mu c = None -> world c = replay w0 (log c)) /\ results_ok w0 (log c) /\ NoDup (indices (log c)) /\
  (forall i o r, calls c !! i = Some (o, Done r) ->
     (own w0 o = true /\ r = own_result w0 o) \/ (own w0 o = false /\ exists env, (i, o, env, r) ∈ log c)) /\
  (forall i o env r, (i, o, env, r) ∈ log c -> calls c !! i = Some (o, Done r)) /\
  (forall c', rtc (rmove fails) c c' -> log c `prefix_of` log c') /\
  (bound c <= 1)%nat /\ running c = match server c with Some s => [s] | None => [] end /\
  (forall addr, dials addr (world c) <= dials addr w0 + room addr w0 + closers addr (log c))%nat.
Proof.
  intros Hr. pose proof (rs_reachable_ok w0 fails c Hr) as K. split_and!.
  - by apply world_idle.
  - apply K.
  - apply K.
  - apply (rk_done _ _ K).
  - apply (rk_logged _ _ K).
  - intros c' Hc'. by eapply rmoves_log.
  - rewrite (rk_bound _ _ K). destruct (server c); lia.
  - apply K.
  - intros addr. by apply world_dials.
Qed.

(** ** Every call returns *)

(** A call past its first [makeSureServer] has a server. *)
Definition ready (c : rstate) : Prop :=
  forall i o q, calls c !! i = Some (o, q) -> entry_point o = PCheck -> at_body q = true -> is_Some (server c).

Lemma step_shape i a c c' :
  step_call i a c = Some c' -> exists o q q', calls c !! i = Some (o, q) /\ calls c' = <[i := (o, q')]> (calls c) /\
    (is_Some (server c) -> is_Some (server c')) /\
    (server_err a = None -> at_body q' = true -> at_body q = true \/ is_Some (server c')).
Proof.
  unfold step_call. destruct (calls c !! i) as [[o q]|] eqn:Hi; [|done]. intros Hs. exists o, q.
  destruct q as [| | | | |addr env conn|addr env conn|addr env conn|r]; try done; try (destruct (r_mu c); [done|]); injection Hs as <-.
  all: try (eexists; split_and!; [done|reflexivity|done|by auto]).
  - eexists. split_and!; [done|reflexivity|done|]. case_bool_decide; [by right|done].
  - unfold makeSureServer_in. destruct (server c) eqn:Hs; [|destruct (server_err a) eqn:Ha];
      (eexists; split_and!; [done|reflexivity|by cbn; eauto|by cbn; eauto]).
  - destruct o as [|t tr|t|a0|a0 conn]; cbn [body]; [| destruct (PublishTrack (world c) t tr) | |unfold external_in; repeat case_match|];
      (eexists; split_and!; [done|reflexivity|done|by auto]).
Qed.

Lemma ready_step i a c c' : ready c -> server_err a = None -> step_call i a c = Some c' -> ready c'.
Proof.
  intros Hr Ha Hs. destruct (step_shape i a c c' Hs) as (o & q & q' & Hi & Hc & Hm & Hb). intros j o' q1 Hj Ho Hq.
  rewrite Hc in Hj. apply lookup_put in Hj as [[<- [= <- <-]]|[Hne Hj]]; [|by eapply Hm, Hr].
  destruct (Hb Ha Hq) as [Hq0|?]; [|done]. by eapply Hm, Hr.
Qed.

Lemma ready_moves c c' : rtc (rmove false) c c' -> ready c -> ready c'.
Proof.
  induction 1 as [|c1 c2 c3 Hm _ IH]; intros Hr; [done|]. apply IH. destruct Hm as [o c1|i a c1 c2 Ha Hs].
  - intros j o' q Hj Ho Hq. cbn [calls new_call server] in *. apply lookup_app_Some in Hj as [Hj|[_ Hj]]; [by eapply Hr|].
    apply list_lookup_singleton_Some in Hj as [_ [= <- <-]]. by rewrite Ho in Hq.
  - eapply ready_step; [done|by apply Ha|done].
Qed.

Definition left_of (q : point) : nat :=
  match q with
  | PCheck => 7 | PLock => 6 | PIn => 5 | BLock => 4 | BIn => 3 | XCheck _ _ _ => 2 | XLock _ _ _ => 1 | XStore _ _ _ => 1 | Done _ => 0
  end.
Definition total (c : rstate) : nat := sum_list ((fun p => left_of p.2) <$> calls c).

Lemma rtotal_put c c' i o q q' :
  calls c !! i = Some (o, q) -> calls c' = <[i := (o, q')]> (calls c) -> (left_of q' < left_of q)%nat -> (total c' < total c)%nat.
Proof.
  intros Hi Hp Hl. unfold total. rewrite Hp. rewrite <- (take_drop_middle (calls c) i (o, q) Hi) at 2.
  rewrite insert_take_drop by (by eapply lookup_lt_Some). rewrite !fmap_app, !fmap_cons, !sum_list_with_app. cbn. lia.
Qed.

Lemma after_server_left w o : (left_of (after_server w o) <= 4)%nat.
Proof. destruct o; cbn; try lia. case_bool_decide; cbn; lia. Qed.

Lemma step_less i a c c' : step_call i a c = Some c' -> (total c' < total c)%nat.
Proof.
  unfold step_call. destruct (calls c !! i) as [[o q]|] eqn:Hi; [|done]. pose proof (after_server_left (world c) o) as Hl.
  assert (forall c1 q', calls c1 = <[i := (o, q')]> (calls c) -> (left_of q' < left_of q)%nat -> (total c1 < total c)%nat) as Hput
    by (intros c1 q' Hp Hq; by eapply rtotal_put).
  destruct q as [| | | | |addr env conn|addr env conn|addr env conn|r]; try done; try (destruct (r_mu c); [done|]); intros [= <-].
  all: try (eapply Hput; [reflexivity|cbn; lia]).
  - eapply Hput; [reflexivity|]. case_bool_decide; cbn; lia.
  - unfold makeSureServer_in. destruct (server c); [|destruct (server_err a)]; (eapply Hput; [reflexivity|cbn; lia]).
  - destruct o as [|t tr|t|a0|a0 conn]; cbn [body]; [| destruct (PublishTrack (world c) t tr) | |unfold external_in; repeat case_match|];
      (eapply Hput; [reflexivity|cbn; lia]).
  - eapply Hput; [reflexivity|]. case_bool_decide; cbn; lia.
Qed.

Definition returned (p : op * point) : Prop := match p.2 with Done _ => True | _ => False end.

Lemma not_returned c : ~ Forall returned (calls c) -> exists i o q, calls c !! i = Some (o, q) /\ ~ returned (o, q).
Proof.
  induction (calls c) as [|[o q] l IH]; intros Hn; [by destruct Hn|]. destruct q as [| | | | | | | |r].
  9: destruct IH as (i & o' & q' & Hi & Hq); [intros Hl; apply Hn; by constructor|by exists (S i), o', q'].
  all: eexists 0%nat, o, _; split; [reflexivity|by intros []].
Qed.

(** A call waits for itself only when the server is missing. *)
Lemma ready_no_self_lock w0 c i o addr env conn :
  rs_ok w0 c -> ready c -> calls c !! i = Some (o, XCheck addr env conn) -> is_Some (server c).
Proof. intros K Hr Hi. destruct (rk_dial _ _ K i o _ _ Hi eq_refl) as (-> & _). by eapply (Hr i). Qed.

(** No call waits for the mutex it holds. *)
Definition unlocked (c : rstate) : Prop := forall i o addr env conn, calls c !! i <> Some (o, XLock addr env conn).

Lemma unlocked_step w0 i a c c' : rs_ok w0 c -> ready c -> unlocked c -> step_call i a c = Some c' -> unlocked c'.
Proof.
  intros K Hr Hu. unfold step_call. destruct (calls c !! i) as [[o q]|] eqn:Hi; [|done].
  assert (forall c1 q', calls c1 = <[i := (o, q')]> (calls c) -> (forall addr env conn, q' <> XLock addr env conn) -> unlocked c1) as Hput.
  { intros c1 q' Hp Hq j o' addr env conn Hj. rewrite Hp in Hj. apply lookup_put in Hj as [[<- [= <- E]]|[_ Hj]]; [by eapply Hq|by eapply Hu]. }
  assert (forall addr env conn, after_server (world c) o <> XLock addr env conn) as Ha by (intros; destruct o; cbn; try done; by case_bool_decide).
  destruct q as [| | | | |addr env conn|addr env conn|addr env conn|r]; try done; try (destruct (r_mu c); [done|]); intros [= <-].
  all: try (eapply Hput; [reflexivity|done]).
  - eapply Hput; [reflexivity|]. by case_bool_decide.
  - unfold makeSureServer_in. destruct (server c); [|destruct (server_err a)]; (eapply Hput; [reflexivity|done]).
  - destruct o as [|t tr|t|a0|a0 conn]; cbn [body]; [| destruct (PublishTrack (world c) t tr) | |unfold external_in; repeat case_match|];
      (eapply Hput; [reflexivity|done]).
  - rewrite bool_decide_eq_true_2 by (by eapply ready_no_self_lock). eapply Hput; [reflexivity|done].
Qed.

Record live (w0 : World) (c : rstate) : Prop := { lv_ok : rs_ok w0 c; lv_ready : ready c; lv_unlocked : unlocked c }.

Lemma live_step w0 i a c c' : live w0 c -> server_err a = None -> step_call i a c = Some c' -> live w0 c'.
Proof. intros [K Hr Hu] Ha Hs. split; [by eapply step_call_ok|by eapply ready_step|by eapply unlocked_step]. Qed.

Lemma live_reachable w0 c : rtc (rmove false) (rstate0 w0) c -> live w0 c.
Proof.
  intros Hr. assert (live w0 (rstate0 w0)) as L by (split; [apply rs0_ok|by intros ????|by intros ?????]). revert L.
  induction Hr as [|c1 c2 c3 Hm _ IH]; intros L; [done|]. apply IH. destruct Hm as [o c1|i a c1 c2 Ha Hs]; [|by eapply live_step; [|apply Ha|]].
  destruct L as [K Hr Hu]. split; [by apply new_rcall_ok|by eapply ready_moves; [apply rtc_once; apply rm_call|]|].
  intros i o' addr env conn Hi. cbn in Hi. apply lookup_app_Some in Hi as [Hi|[_ Hi]]; [by eapply Hu|].
  apply list_lookup_singleton_Some in Hi as [_ Hi]. by destruct o.
Qed.

Lemma router_can_go w0 c a : live w0 c -> ~ Forall returned (calls c) -> exists i c', step_call i a c = Some c'.
Proof.
  intros [K Hr Hu] Hn. destruct (r_mu c) as [h|] eqn:Hm.
  - destruct (rk_held _ _ K h Hm) as (o & q & Hq & Hin). exists h. unfold step_call. rewrite Hq. destruct q; try done; try by eexists.
    by destruct (Hu _ _ _ _ _ Hq).
  - destruct (not_returned c Hn) as (i & o & q & Hi & Hq). exists i. unfold step_call. rewrite Hi, Hm. destruct q; try (by destruct Hq); try by eexists.
    by destruct (Hu _ _ _ _ _ Hi).
Qed.

Lemma smoves_less n c c' : nsteps smove n c c' -> (n + total c' <= total c)%nat.
Proof. induction 1 as [|n c1 c2 c3 Hs _ IH]; [lia|]. destruct Hs as [i a c1 c2 _ Hs]. apply step_less in Hs. lia. Qed.

Lemma returned_all c : Forall returned (calls c) \/ ~ Forall returned (calls c).
Proof.
  induction (calls c) as [|[o q] l [IH|IH]]; [by left| |].
  - destruct q; try (right; intros Hl; by inversion_clear Hl). left. by constructor.
  - right. intros Hl. inversion_clear Hl. done.
Qed.

Lemma router_all_return w0 a m : server_err a = None -> forall c, (total c <= m)%nat -> live w0 c ->
  exists n c', nsteps smove n c c' /\ Forall returned (calls c').
Proof.
  intros Ha. induction m as [|m IH]; intros c Hm L; (destruct (returned_all c) as [Hd|Hd]; [exists 0%nat, c; split; [constructor|done]|]);
    destruct (router_can_go w0 c a L Hd) as (i & c1 & Hs); pose proof (step_less _ _ _ _ Hs) as Hl; [lia|].
  destruct (IH c1 ltac:(lia) (live_step _ _ _ _ _ L Ha Hs)) as (n & c' & Hn & Hr). exists (S n), c'. split; [|done].
  econstructor; [by econstructor|done].
Qed.

Lemma total_bound c : (total c <= 7 * length (calls c))%nat.
Proof. unfold total. induction (calls c) as [|[o q] l IH]; cbn in *; [lia|]. destruct q; cbn in *; lia. Qed.

(** C25. Every call of the router returns when its server can be opened.  However the calls interleave and whatever dialling
    answers, those in progress make at most seven steps each, a state in which one has not returned is never stuck,
    and so they all return. *)
Theorem router_calls_return (w0 : World) (c : rstate) :
  rtc (rmove false) (rstate0 w0) c ->
  (forall n c', nsteps smove n c c' -> (n <= 7 * length (calls c))%nat) /\
  (forall a, ~ Forall returned (calls c) -> exists i c', step_call i a c = Some c') /\
  (forall a, server_err a = None -> exists n c', nsteps smove n c c' /\ Forall returned (calls c')).
Proof.
  intros Hr. pose proof (live_reachable w0 c Hr) as L. split_and!.
  - intros n c' Hn. apply smoves_less in Hn. pose proof (total_bound c). lia.
  - intros a Hn. by eapply router_can_go.
  - intros a Ha. by eapply (router_all_return w0 a (total c)).
Qed.

(** ** A server that cannot be opened *)

Definition waits (q : point) : bool := match q with PLock | BLock | XLock _ _ _ => true | _ => false end.

(** A call that has dialled while there is no server waits for the mutex it holds: it never returns, nor does any call
    that waits for the mutex. *)
Theorem self_lock_for_ever w0 fails c c' i o addr env conn :
  rs_ok w0 c -> calls c !! i = Some (o, XLock addr env conn) -> rtc (rmove fails) c c' ->
  calls c' !! i = Some (o, XLock addr env conn) /\ r_mu c' = Some i /\
  (forall j p q, calls c !! j = Some (p, q) -> waits q = true -> calls c' !! j = Some (p, q)).
Proof.
  intros K Hi Hr. revert K Hi. induction Hr as [c|c1 c2 c3 Hm _ IH]; intros K Hi.
  { split_and!; [done|by apply (rk_holder _ _ K i o _ Hi)|done]. }
  pose proof (rk_holder _ _ K i o _ Hi eq_refl) as Hmu.
  assert (forall j p q, calls c1 !! j = Some (p, q) -> waits q = true -> calls c2 !! j = Some (p, q)) as Hw.
  { intros j p q Hj Hq. destruct Hm as [o' c1|k a c1 c2 _ Hs]; [by apply lookup_app_l_Some|].
    destruct (step_shape k a c1 c2 Hs) as (p' & q' & q2 & Hk & -> & _). rewrite list_lookup_insert_ne; [done|]. intros ->.
    rewrite Hk in Hj. injection Hj as -> ->. unfold step_call in Hs. rewrite Hk, Hmu in Hs. by destruct q. }
  assert (rs_ok w0 c2) as K2 by (destruct Hm as [o' c1|k a c1 c2 _ Hs]; [by apply new_rcall_ok|by eapply step_call_ok]).
  destruct (IH K2 (Hw i o _ Hi eq_refl)) as (H1 & H2 & H3). split_and!; [done|done|]. intros j p q Hj Hq. apply H3; [by apply Hw|done].
Qed.
End Router.

(** ** The loops over the sockets *)

Section Loops.
Context `{Webrtc} `{MapOrder}.

(** What a read of a socket gives. *)
Inductive udp_read := RBytes (s : list Z) | REOF | RError (e : gerror).

(** The loop over a connection to another node, on what has been read so far; [true] once it has ended.  The signal
    to the loop of the setups is dropped: no packet carries both magics. *)
Fixpoint external_loop (env : Env) (w : World) (addr : string) (conn : nat) (l : list udp_read) : run (World * bool) :=
  match l with
  | [] => Ret (w, false)
  | REOF :: _ => Ret (closer w addr conn, true)
  | RError e :: _ => error_panic e
  | RBytes s :: l => '(w, _) ← handle_external env w s; external_loop env w addr conn l
  end.

(** The first loop of [Router.run]: a read that fails is logged, and the next one made.  A datagram is the buffer it
    was read into, its length and its sender. *)
Fixpoint setup_loop (w : World) (l : list (list Z * Z * string + gerror)) : run World :=
  match l with
  | [] => Ret w
  | inr _ :: l => setup_loop w l
  | inl (buf, n, addr) :: l => w ← handle_setup w buf n addr; setup_loop w l
  end.

(** Only the end of the stream, which a datagram socket does not have, ends the loop over a connection; any error of
    a read before it ends the process. *)
Lemma external_loop_error env addr conn e l' l : forall w,
  Forall (fun r => exists s, r = RBytes s) l ->
  exists x, external_loop env w addr conn (l ++ RError e :: l') = Abort x.
Proof.
  induction l as [|r l IH]; intros w Hl; cbn [external_loop app].
  - by eexists.
  - apply Forall_cons in Hl as [[s ->] Hl]. destruct (handle_external env w s) as [[w1 b]|x]; [|by exists x]. by apply IH.
Qed.

(** A node goes on serving setups whatever reads fail. *)
Lemma setup_loop_errors l : forall w,
  setup_loop w l = setup_loop w (List.filter (fun r => match r with inl _ => true | inr _ => false end) l).
Proof.
  induction l as [|[[[buf n] addr]|e] l IH]; intros w; cbn [setup_loop List.filter]; [done| |apply IH].
  destruct (handle_setup w buf n addr) as [w1|x]; [apply IH|done].
Qed.
End Loops.

(** ** Witnesses *)
Module Toy.

#[export] Instance toy_webrtc : Webrtc := {
  LocalTrack := string * string; NewTrackLocalStaticRTP _ id sid := inl (id, sid); track_ID := fst; track_StreamID := snd
}.

Definition env : Env := {| makeSurePeer_err := None; AddTrack_err _ := None; sender_of _ := 0;
  getMidFromSender _ := "0"; DialUDP_err _ := None; ResolveUDPAddr_err _ := None; track_Write_err := None |}.
Definition yes : answer := {| resolve_err := None; listen_err := None; net := env |}.
Definition no : answer := {| resolve_err := None; listen_err := Some (EOther "address already in use"); net := env |}.

Definition w0 : World := NewRouter [] "10.0.0.1:4000".

Fixpoint schedule (a : answer) (l : list nat) (c : rstate) : rstate :=
  match l with [] => c | i :: l => schedule a l (default c (step_call i a c)) end.

Lemma schedule_moves a fails l : (fails = false -> server_err a = None) -> forall c, rtc (rmove fails) c (schedule a l c).
Proof.
  intros Ha. induction l as [|i l IH]; intros c; [done|]. cbn [schedule]. destruct (step_call i a c) as [c'|] eqn:Hs; [|apply IH].
  eapply rtc_l; [by eapply rm_step|apply IH].
Qed.

(** Two calls that need the same connection, a published track, a removed one. *)
Definition c1 : rstate :=
  new_call (ORemove "t") (new_call (OPublish "t" "node2") (new_call (OExternal "10.0.0.2:4000") (new_call (OExternal "10.0.0.2:4000") (rstate0 w0)))).
Definition order : list nat := [0; 1; 2; 0; 0; 1; 1; 0; 0; 1; 0; 2; 2; 0; 3; 2; 2; 2; 3; 3; 1; 1; 1; 2; 2; 2; 2]%nat.
Definition c2 : rstate := Eval vm_compute in schedule yes order c1.
Definition d2 : rstate := Eval vm_compute in schedule no [0; 0; 0; 0; 0; 0]%nat c1.

Lemma run1 fails : rtc (rmove fails) (rstate0 w0) c1.
Proof. do 4 (eapply rtc_l; [apply rm_call|]). apply rtc_refl. Qed.

Lemma run2 fails : rtc (rmove fails) (rstate0 w0) c2.
Proof. etrans; [apply run1|]. by apply (schedule_moves yes fails order). Qed.

Lemma router_linearizable_witness :
  calls c2 = [(OExternal "10.0.0.2:4000", Done (RConn (Some 0%nat))); (OExternal "10.0.0.2:4000", Done (RConn (Some 0%nat)));
              (OPublish "t" "node2", Done (RChan 0)); (ORemove "t", Done RUnit)] /\
  bound c2 = 1%nat /\ world c2 = replay w0 (log c2) /\ (dials "10.0.0.2:4000" (world c2) <= 1)%nat.
Proof.
  destruct (router_linearizable w0 true c2 (run2 true)) as (Hw & _ & _ & _ & _ & _ & _ & _ & Hd).
  split; [reflexivity|]. split; [reflexivity|]. split; [exact (Hw eq_refl)|]. exact (Hd "10.0.0.2:4000").
Defined.

Lemma router_calls_return_witness : exists n c', nsteps smove n c1 c' /\ Forall returned (calls c').
Proof. destruct (router_calls_return w0 c1 (run1 false)) as (_ & _ & Hr). exact (Hr yes eq_refl). Defined.

(** When the port of the router is taken, the first connection to another node locks the router for ever. *)
Lemma router_locks_up :
  exists c, rtc (rmove true) (rstate0 w0) c /\ server c = None /\
    calls c !! 0%nat = Some (OExternal "10.0.0.2:4000", XLock "10.0.0.2:4000" env 0) /\
    forall c', rtc (rmove true) c c' -> r_mu c' = Some 0%nat /\ calls c' !! 3%nat = Some (ORemove "t", BLock).
Proof.
  exists d2. assert (rtc (rmove true) (rstate0 w0) d2) as Hr.
  { etrans; [apply run1|]. by apply (schedule_moves no true [0; 0; 0; 0; 0; 0]%nat). }
  split_and!; [done|reflexivity|reflexivity|]. intros c' Hc'.
  destruct (self_lock_for_ever w0 true d2 c' 0 (OExternal "10.0.0.2:4000") "10.0.0.2:4000" env 0 (rs_reachable_ok w0 true d2 Hr) eq_refl Hc') as (_ & Hm & Hw).
  split; [done|]. by apply (Hw 3%nat (ORemove "t") BLock).
Qed.
End Toy.
