(* ===== verification/Cluster.v ===== *)
(** * Cluster: the messages of the nodes of a cluster ([signal/messager.go], [signal/kafka.go])

    Every node has a [Messager] and reads all partitions of the topics in a consumer group of its own, named after the
    node.  A message emitted at a node is given to that node's own handlers at once, and is written as a record to the
    partition of its room; each node's workers are given the records of a partition as [KafkaGroup] says, and hand each to the
    handler of its topic.  The broker is outside: which partition the key of a record belongs to is a parameter. *)
From S2P Require Import Prelude GoStrings PatternMap Messages Messager Kafka KafkaGroup.
Local Open Scope string_scope.
Local Open Scope list_scope.

(** ** Wiring: the options [NewMessager] gives to the client *)

Section Wiring.
Context {R : Type} (range : forall A : Type, gmap string A -> list (string * A)) (cs : Codecs).

(** The fields of a Kafka client the options set. *)
Record client_fields := {
  group : string; topics : list string; f_workers : option (list (string * (krecord -> run (list R)))); logger : bool
}.
Definition no_fields : client_fields := {| group := ""; topics := []; f_workers := None; logger := false |}.

(** What an option adds to the options of the library. *)
Inductive hook := WithHooks | WithLogger.

Definition KafkaOpt : Type := client_fields -> list hook -> client_fields * list hook.

Definition KafkaOptGroup (g : string) : KafkaOpt := fun c opts =>
  ({| group := g; topics := topics c; f_workers := f_workers c; logger := logger c |}, opts).
Definition KafkaOptTopics (ts : list string) : KafkaOpt := fun c opts =>
  ({| group := group c; topics := ts; f_workers := f_workers c; logger := logger c |}, opts).
Definition KafkaOptWorkers (ws : list (string * (krecord -> run (list R)))) : KafkaOpt := fun c opts =>
  ({| group := group c; topics := topics c; f_workers := Some ws; logger := logger c |}, opts).
Definition KafkaOptPromReg (enable : bool) : KafkaOpt := fun c opts => (c, if enable then opts ++ [WithHooks] else opts).
Definition KafkaOptLogger : KafkaOpt := fun c opts =>
  ({| group := group c; topics := topics c; f_workers := f_workers c; logger := true |}, opts ++ [WithLogger]).

Definition apply_opts (copts : list KafkaOpt) (c : client_fields) (opts : list hook) : client_fields * list hook :=
  fold_left (fun x copt => copt x.1 x.2) copts (c, opts).

Definition topic_names : list string :=
  [TOPIC_STATE; TOPIC_WANT; TOPIC_SELECT; TOPIC_WANT_PARTICIPANT; TOPIC_STATE_PARTICIPANT; TOPIC_STATE_LEAVE;
   TOPIC_PING; TOPIC_PONG; TOPIC_CUSTOM; TOPIC_CUSTOM_ACK].

Definition handlers (m : Messager (R := R)) : list (krecord -> run (list R)) :=
  [onTopicState range (codec_State cs) m; onTopicWant range (codec_Want cs) m; onTopicSelect range (codec_Select cs) m;
   onTopicWantParticipant range (codec_WantParticipant cs) m; onTopicStateParticipant range (codec_StateParticipant cs) m;
   onTopicStateLeave range (codec_StateLeave cs) m; onTopicPing range (codec_Ping cs) m; onTopicPong range (codec_Pong cs) m;
   onTopicCustom range (codec_Custom cs) m; onTopicCustomAck range (codec_CustomAck cs) m].

(** The options of [NewMessager], for a cluster node with a Kafka configuration. *)
Definition messager_opts (prom : bool) (k : Messager.KafkaClient) (m : Messager (R := R)) : list KafkaOpt :=
  let ts := MakeKafkaTopic k <$> topic_names in
  [KafkaOptPromReg prom; KafkaOptGroup (nodeName m); KafkaOptTopics ts; KafkaOptWorkers (zip ts (handlers m))].

(** The worker of a topic. *)
Fixpoint assoc {A} (l : list (string * A)) (k : string) : option A :=
  match l with [] => None | (k', a) :: l => if decide (k' = k) then Some a else assoc l k end.
Definition worker_of (c : client_fields) (topic : string) : option (krecord -> run (list R)) := ws ← f_workers c; assoc ws topic.

Lemma topic_names_nodup : NoDup topic_names.
Proof. apply (bool_decide_unpack _). by vm_compute. Qed.

(** A node subscribes, in a group of its own name, to ten different topics; each has a worker, which treats the records
    of its topic as [dispatch] does. *)
Lemma messager_wiring prom k (m : Messager (R := R)) :
  kafka m = Some k -> let c := (apply_opts (messager_opts prom k m) no_fields []).1 in
  group c = nodeName m /\ NoDup (topics c) /\
  forall t, t ∈ topics c -> exists w, worker_of c t = Some w /\ forall r, Topic r = t -> w r = dispatch range cs m r.
Proof.
  intros Hk c. split; [done|]. split.
  { change (topics c) with (MakeKafkaTopic k <$> topic_names). apply NoDup_fmap_2_strong; [|apply topic_names_nodup].
    intros x y _ _ He. by apply (MakeTopic_inj k). }
  intros t Ht. change (topics c) with (MakeTopic (Some k) <$> topic_names) in Ht. rewrite <- Hk in Ht.
  change (worker_of c t) with (assoc (zip (MakeTopic (Some k) <$> topic_names) (handlers m)) t). rewrite <- Hk.
  apply list_elem_of_fmap in Ht as (n & -> & Hn).
  assert (forall a b, a <> b -> MakeTopic (kafka m) a <> MakeTopic (kafka m) b) as Hne by (intros a b Hab; rewrite Hk; by intros ?%MakeTopic_inj).
  unfold topic_names in Hn. repeat (apply elem_of_cons in Hn as [->|Hn]); [..|by apply not_elem_of_nil in Hn];
    (eexists; split; [cbn [topic_names fmap list_fmap handlers zip zip_with assoc];
       repeat (rewrite decide_False by (apply Hne; discriminate)); rewrite decide_True by done; reflexivity|]);
    intros r Hr; unfold dispatch; rewrite Hr; repeat (rewrite bool_decide_false by (apply Hne; discriminate));
    by rewrite bool_decide_true.
Qed.
End Wiring.

(** ** Calls on a client that may be nil *)

(** [Produce] and [Check]: without a client nothing is done; otherwise the library answers. *)
Definition Produce {C} (s : option C) (ProduceSync : C -> krecord -> option gerror) (r : krecord) : option gerror :=
  match s with None => None | Some cl => ProduceSync cl r end.
Definition Check {C} (s : option C) (Ping : C -> option gerror) : option gerror :=
  match s with None => None | Some cl => Ping cl end.

(** What a poll gives. *)
Inductive fetch (A : Type) := ClientClosed | Cancelled | Fetches (l : list (tp * (list A + gerror))).
Arguments ClientClosed {A}. Arguments Cancelled {A}. Arguments Fetches {A} _.

(** The loop over the partitions of a poll: what is left when the channel of one is full and the poll waits. *)
Fixpoint each_partition {A} (l : list (tp * (list A + gerror))) (k : Kafka.KafkaClient A) : run (Kafka.KafkaClient A * list (tp * (list A + gerror))) :=
  match l with
  | [] => Ret (k, [])
  | (_, inr _) :: l => each_partition l k
  | (x, inl batch) :: l' =>
      o ← poll_partition x batch k;
      match o with None => Ret (k, l) | Some k => each_partition l' k end
  end.

(** [Poll], on the polls so far: [true] once it has returned; it waits at a full channel. *)
Fixpoint Poll {A} (fs : list (fetch A)) (k : Kafka.KafkaClient A) : run (Kafka.KafkaClient A * bool) :=
  match fs with
  | [] => Ret (k, false)
  | ClientClosed :: _ | Cancelled :: _ => Ret (k, true)
  | Fetches l :: fs =>
      '(k, rest) ← each_partition l k;
      match rest with [] => Poll fs k | _ => Ret (k, false) end
  end.

Definition fetched {A} (f : fetch A) : list tp := match f with Fetches l => l.*1 | _ => [] end.

Lemma each_partition_ret {A} (l : list (tp * (list A + gerror))) : forall k : Kafka.KafkaClient A,
  Forall (fun x => is_Some (consumers k !! x)) l.*1 ->
  exists k' rest, each_partition l k = Ret (k', rest) /\ (forall x, is_Some (consumers k' !! x) <-> is_Some (consumers k !! x)).
Proof.
  induction l as [|[x [batch|e]] l IH]; intros k Hl; cbn [each_partition].
  - by exists k, [].
  - cbn in Hl. apply Forall_cons in Hl as [[s Hs] Hl]. unfold poll_partition. rewrite Hs. cbn [go_deref]. rewrite !bind_ret_l.
    destruct (5 <=? length (recs s))%nat; [by exists k, ((x, inl batch) :: l)|].
    edestruct IH as (k' & rest & -> & Hk'); [|exists k', rest; split; [done|]].
    + eapply Forall_impl; [exact Hl|]. intros y Hy. cbn. destruct (decide (y = x)) as [->|]; [by rewrite lookup_insert_eq|by rewrite lookup_insert_ne].
    + intros y. rewrite Hk'. cbn. destruct (decide (y = x)) as [->|]; [rewrite lookup_insert_eq, Hs; by split|by rewrite lookup_insert_ne].
  - apply Forall_cons in Hl as [_ Hl]. by apply IH.
Qed.

(** While only assigned partitions are polled the loop does not panic, whatever the polls give. *)
Lemma Poll_safe {A} (fs : list (fetch A)) : forall k : Kafka.KafkaClient A,
  Forall (fun f => Forall (fun x => is_Some (consumers k !! x)) (fetched f)) fs -> exists k' b, Poll fs k = Ret (k', b).
Proof.
  induction fs as [|f fs IH]; intros k Hf; cbn [Poll]; [by eexists _, _|]. apply Forall_cons in Hf as [Hf Hfs].
  destruct f as [| |l]; [by eexists _, _..|]. destruct (each_partition_ret l k Hf) as (k' & rest & -> & Hk). rewrite bind_ret_l.
  destruct rest; [|by eexists _, _]. apply IH. eapply Forall_impl; [exact Hfs|]. intros f Hx. eapply Forall_impl; [exact Hx|]. intros y. apply Hk.
Qed.

(** ** The cluster *)

Section Cluster.
Context {R : Type} (range : forall A : Type, gmap string A -> list (string * A)) (cs : Codecs).
(** The broker: the partition of a record. *)
Context (partition : krecord -> nat).

(** A record, with the node it comes from and the message it was made of. *)
Record entry := { from : string; e_msg : AnyMessage; e_rec : krecord }.

(** A node: its messager, its view of each partition, what its workers did with each record they were given, and what
    its own emissions started. *)
Record node := {
  msgr : Messager (R := R); parts : list (part (R := entry)); ran : list (entry * run (list R)); sent : list (AnyMessage * list R)
}.

Definition append_to (q : nat) (e : entry) (n : node) : node :=
  {| msgr := msgr n;
     parts := alter (fun p => {| plog := plog p ++ [e]; committed := committed p; holder := holder p; past := past p; lossless := lossless p |}) q (parts n);
     ran := ran n; sent := sent n |}.

Definition add_sent (x : AnyMessage * list R) (n : node) : node :=
  {| msgr := msgr n; parts := parts n; ran := ran n; sent := sent n ++ [x] |}.

Definition set_msgr (m : Messager) (n : node) : node := {| msgr := m; parts := parts n; ran := ran n; sent := sent n |}.

(** The workers of a node are given records. *)
Definition work (m : Messager (R := R)) (e : entry) : entry * run (list R) := (e, dispatch range cs m (e_rec e)).
Definition read_part (q : nat) (p : part) (new : list entry) (n : node) : node :=
  {| msgr := msgr n; parts := <[q := p]> (parts n); ran := ran n ++ (work (msgr n) <$> new); sent := sent n |}.

Definition cluster0 (npart : nat) (ms : list Messager) : list node :=
  (fun m => {| msgr := m; parts := replicate npart part0; ran := []; sent := [] |}) <$> ms.

(** What happens next: a node emits, and the broker takes the record or refuses it; handlers are registered or removed; a
    partition is assigned, polled, consumed, committed, revoked or lost at a node. *)
Inductive cstep (c : list node) : list node -> Prop :=
  | CEmit i n msg produce em r :
      c !! i = Some n -> Emit range cs produce (msgr n) msg = Ret em -> em_produced em = Some r -> em_err em = None ->
      partition r < length (parts n) ->
      cstep c (append_to (partition r) {| from := nodeName (msgr n); e_msg := em_msg em; e_rec := r |} <$>
               <[i := add_sent (em_msg em, em_spawned em) n]> c)
  | CEmitFails i n msg produce em e :
      c !! i = Some n -> Emit range cs produce (msgr n) msg = Ret em -> em_err em = Some e ->
      cstep c (<[i := add_sent (em_msg em, em_spawned em) n]> c)
  | CRegister `{KindLaws R M} i n (op : reg_op M) m :
      c !! i = Some n -> run_ops [op] (msgr n) = Ret m -> nodeName m = nodeName (msgr n) -> kafka m = kafka (msgr n) ->
      cstep c (<[i := set_msgr m n]> c)
  | CRead i n q p p' new :
      c !! i = Some n -> parts n !! q = Some p -> gstep p p' -> plog p' = plog p ->
      concat (all_sessions p').*2 = concat (all_sessions p).*2 ++ new ->
      cstep c (<[i := read_part q p' new n]> c).

(** ** The invariant *)

(** What the record of a message does at any node with the Kafka configuration [k]. *)
Definition entry_ok (k : Messager.KafkaClient) (e : entry) : Prop :=
  forall m : Messager (R := R), kafka m = Some k ->
    dispatch range cs m (e_rec e) = if decide (nodeName m = from e) then Ret [] else consume_any range m (e_msg e).

(** What a worker of a node with the messager [m] is to do with a record: nothing when the node wrote it, otherwise what
    the message starts among the handlers registered at [m]. *)
Definition answer (m : Messager (R := R)) (e : entry) : entry * run (list R) :=
  (e, if decide (nodeName m = from e) then Ret [] else consume_any range m (e_msg e)).

Definition of_part (q : nat) (l : list entry) : list entry := filter (fun e => partition (e_rec e) = q) l.

Record node_ok (k : Messager.KafkaClient) (logs : list (list entry)) (name : string) (n : node) : Prop := {
  no_kafka : kafka (msgr n) = Some k;
  no_name : nodeName (msgr n) = name;
  no_parts q p : parts n !! q = Some p -> part_ok p /\ logs !! q = Some (plog p);
  no_len : length (parts n) = length logs;
  no_given q p : parts n !! q = Some p -> of_part q (ran n).*1 = concat (all_sessions p).*2
}.

Definition emitted_by (c : list node) (e : entry) : Prop :=
  exists i n x, c !! i = Some n /\ nodeName (msgr n) = from e /\ x ∈ sent n /\ x.1 = e_msg e.

Record logged_ok (k : Messager.KafkaClient) (c : list node) (q : nat) (e : entry) : Prop := {
  lo_entry : entry_ok k e;
  lo_part : partition (e_rec e) = q;
  lo_room : exists r, any_router (e_msg e) = Some r /\ Room r = Key (e_rec e) /\ NodeFrom r = from e;
  lo_from : emitted_by c e
}.

Record cluster_ok (k : Messager.KafkaClient) (names : list string) (logs : list (list entry)) (c : list node) : Prop := {
  co_nodes i n : c !! i = Some n -> exists name, names !! i = Some name /\ node_ok k logs name n;
  co_len : length c = length names;
  co_logs q l : logs !! q = Some l -> Forall (logged_ok k c q) l
}.

Context (codecs : codecs_ok cs) (k : Messager.KafkaClient).

Lemma emitted_mono c i n n' e :
  c !! i = Some n -> nodeName (msgr n') = nodeName (msgr n) -> sent n ⊆ sent n' -> emitted_by c e -> emitted_by (<[i := n']> c) e.
Proof using Type.
  intros Hi Hn Hs (j & m & x & Hj & Hf & Hx & He). destruct (decide (j = i)) as [->|Hne].
  - rewrite Hi in Hj. injection Hj as <-. exists i, n', x. rewrite list_lookup_insert_eq by (by eapply lookup_lt_Some). split_and!; [done|congruence|by apply Hs|done].
  - exists j, m, x. by rewrite list_lookup_insert_ne.
Qed.

(** One node changes, and nothing is written. *)
Lemma put_node_ok names logs c i n n' :
  cluster_ok k names logs c -> c !! i = Some n -> nodeName (msgr n') = nodeName (msgr n) -> sent n ⊆ sent n' ->
  (forall name, node_ok k logs name n -> node_ok k logs name n') -> cluster_ok k names logs (<[i := n']> c).
Proof using Type.
  intros [K1 K2 K3] Hi Hn Hs Hok. split; [|by rewrite length_insert|].
  - intros j m Hj. apply lookup_put in Hj as [[<- <-]|[_ Hj]]; [|by apply K1]. destruct (K1 i n Hi) as (name & ? & ?). exists name. auto.
  - intros q l Hl. eapply Forall_impl; [by apply K3|]. intros e [L1 L2 L3 L4]. split; [done|done|done|by eapply emitted_mono].
Qed.

Lemma alter_Some {A} (f : A -> A) (l : list A) q q' x :
  alter f q l !! q' = Some x -> (q' = q /\ exists y, l !! q = Some y /\ x = f y) \/ (q <> q' /\ l !! q' = Some x).
Proof using Type.
  rewrite list_lookup_alter. destruct (decide (q = q')) as [<-|]; [|auto]. intros (y & Hy & ->)%fmap_Some. eauto.
Qed.

Lemma append_node_ok logs name n q e :
  node_ok k logs name n -> node_ok k (alter (fun l => l ++ [e]) q logs) name (append_to q e n).
Proof using Type.
  intros [N1 N2 N3 N4 N6]. split; cbn; [done|done| |by rewrite !length_alter|].
  - intros q' p' Hp. apply alter_Some in Hp as [(-> & p & Hp & ->)|[Hne Hp]]; destruct (N3 _ _ Hp) as [P L].
    + split; [by apply produce_ok|]. rewrite list_lookup_alter_eq, L. done.
    + split; [done|]. by rewrite list_lookup_alter_ne.
  - intros q' p' Hp. apply alter_Some in Hp as [(-> & p & Hp & ->)|[Hne Hp]]; [|by apply N6].
    unfold all_sessions. cbn. by apply (N6 q p).
Qed.

Lemma emitted_append c q e x : emitted_by c x -> emitted_by (append_to q e <$> c) x.
Proof using Type. intros (i & n & y & Hi & Hf & Hy & He). exists i, (append_to q e n), y. by rewrite list_lookup_fmap, Hi. Qed.

(** A record is written. *)
Lemma append_ok names logs c q e :
  cluster_ok k names logs c -> logged_ok k c q e -> cluster_ok k names (alter (fun l => l ++ [e]) q logs) (append_to q e <$> c).
Proof using Type.
  intros [K1 K2 K3] He. split; [|by rewrite length_fmap|].
  - intros i n' Hi. apply list_lookup_fmap_Some in Hi as (n & -> & Hi). destruct (K1 i n Hi) as (name & ? & ?). exists name. split; [done|by apply append_node_ok].
  - assert (forall q' x, logged_ok k c q' x -> logged_ok k (append_to q e <$> c) q' x) as Hm
      by (intros q' x [L1 L2 L3 L4]; split; [done|done|done|by apply emitted_append]).
    intros q' l Hl. apply alter_Some in Hl as [(-> & l0 & Hl & ->)|[Hne Hl]].
    + apply Forall_app. split; [eapply Forall_impl; [by apply K3|auto]|]. constructor; [by apply Hm|done].
    + eapply Forall_impl; [by apply K3|auto].
Qed.

Lemma given_in_log (p : part (R := entry)) e : part_ok p -> e ∈ concat (all_sessions p).*2 -> e ∈ plog p.
Proof using Type.
  intros [P1 P2 _ _] Hin. apply list_elem_of_In, in_concat in Hin as (l & Hl & Hin). apply list_elem_of_In in Hl, Hin.
  assert (exists b, slice (plog p) b l) as [b Hs].
  { apply list_elem_of_fmap in Hl as ([b l'] & -> & Hl). exists b. apply elem_of_app in Hl as [Hl|Hl].
    - rewrite Forall_forall in P1. by apply (P1 _ Hl).
    - destruct (holder p) as [[b' s]|]; [|by apply not_elem_of_nil in Hl]. apply list_elem_of_singleton in Hl as [= -> ->].
      destruct (P2 b' s eq_refl) as (Q1 & Q2 & Q3 & _). by apply session_processed. }
  unfold slice in Hs. rewrite Hs in Hin. apply list_elem_of_lookup_1 in Hin as [i Hi]. apply lookup_take_Some in Hi as [Hi _]. rewrite lookup_drop in Hi. by apply list_elem_of_lookup_2 in Hi.
Qed.

Lemma of_part_app q l l' : of_part q (l ++ l') = of_part q l ++ of_part q l'.
Proof using Type. apply filter_app. Qed.

Lemma of_part_same q q' l : Forall (fun e => partition (e_rec e) = q) l -> of_part q' l = if decide (q' = q) then l else [].
Proof using Type.
  intros Hl. unfold of_part. induction Hl as [|e l He Hl IH]; [by case_decide|]. rewrite filter_cons, IH, He.
  destruct (decide (q' = q)) as [->|Hne]; [by rewrite decide_True|by rewrite decide_False by auto].
Qed.

Lemma worked m l : (work m <$> l).*1 = l.
Proof using Type. induction l as [|e l IH]; [done|]. cbn. by f_equal. Qed.

Lemma new_logged names logs c i n q p p' new :
  cluster_ok k names logs c -> c !! i = Some n -> parts n !! q = Some p -> gstep p p' -> plog p' = plog p ->
  concat (all_sessions p').*2 = concat (all_sessions p).*2 ++ new -> Forall (logged_ok k c q) new.
Proof using Type.
  intros K Hi Hq Hst Hl Hnew. destruct (co_nodes _ _ _ _ K i n Hi) as (name & _ & N). destruct (no_parts _ _ _ _ N q p Hq) as [P L].
  apply Forall_forall. intros e He. pose proof (co_logs _ _ _ _ K q _ L) as HL. rewrite Forall_forall in HL. apply HL. rewrite <- Hl.
  apply given_in_log; [by eapply gstep_ok|]. rewrite Hnew. apply elem_of_app. by right.
Qed.

Lemma read_ok names logs c i n q p p' new :
  cluster_ok k names logs c -> c !! i = Some n -> parts n !! q = Some p -> gstep p p' -> plog p' = plog p ->
  concat (all_sessions p').*2 = concat (all_sessions p).*2 ++ new -> cluster_ok k names logs (<[i := read_part q p' new n]> c).
Proof using Type.
  intros K Hi Hq Hst Hl Hnew. pose proof (new_logged _ _ _ _ _ _ _ _ _ K Hi Hq Hst Hl Hnew) as Hlog.
  apply put_node_ok with n; [done|done|done|done|]. intros name [N1 N2 N3 N4 N6].
  destruct (N3 q p Hq) as [P L]. assert (part_ok p') as P' by (by eapply gstep_ok).
  split; cbn [msgr parts ran read_part]; [done|done| |by rewrite length_insert|].
  - intros q' x Hx. apply lookup_put in Hx as [[<- <-]|[_ Hx]]; [|by apply N3]. split; [done|]. by rewrite Hl.
  - intros q' x Hx. rewrite fmap_app, of_part_app, worked.
    rewrite (of_part_same q q' new) by (eapply Forall_impl; [exact Hlog|]; by intros e []).
    apply lookup_put in Hx as [[<- <-]|[Hne Hx]].
    + rewrite decide_True by done. by rewrite (N6 q p Hq), Hnew.
    + rewrite decide_False by done. rewrite app_nil_r. by apply N6.
Qed.

(** In a step the workers of a node do with the records they are given what the handlers registered then say. *)
Lemma step_answers names logs c c' i n n' :
  cluster_ok k names logs c -> cstep c c' -> c !! i = Some n -> c' !! i = Some n' ->
  exists new, ran n' = ran n ++ (answer (msgr n) <$> new).
Proof using Type.
  intros K Hst Hi Hi'. assert (ran n' = ran n -> exists new, ran n' = ran n ++ (answer (msgr n) <$> new)) as Hsame
    by (intros ->; exists []; by rewrite app_nil_r).
  destruct Hst as [j m msg produce em r Hj He Hp Hno Hlt|j m msg produce em e Hj He Hf|M ? ? ? j m op x Hj Hop Hn Hk|j m q p p' new Hj Hq Hst Hl Hnew].
  - apply list_lookup_fmap_Some in Hi' as (n1 & -> & Hi'). apply Hsame. cbn.
    apply lookup_put in Hi' as [[<- <-]|[_ Hi']]; cbn; congruence.
  - apply Hsame. apply lookup_put in Hi' as [[<- <-]|[_ Hi']]; cbn; congruence.
  - apply Hsame. apply lookup_put in Hi' as [[<- <-]|[_ Hi']]; cbn; congruence.
  - apply lookup_put in Hi' as [[<- <-]|[_ Hi']]; [|apply Hsame; congruence]. assert (m = n) as -> by congruence.
    exists new. cbn [ran read_part]. f_equal. destruct (co_nodes _ _ _ _ K _ n Hi) as (name & _ & N).
    pose proof (new_logged _ _ _ _ _ _ _ _ _ K Hi Hq Hst Hl Hnew) as Hlog. apply list_fmap_ext. intros y e He.
    rewrite Forall_lookup in Hlog. unfold work, answer. f_equal. apply (lo_entry _ _ _ _ (Hlog _ _ He)), (no_kafka _ _ _ _ N).
Qed.

Lemma cstep_ok names logs c c' : cluster_ok k names logs c -> cstep c c' ->
  exists logs', cluster_ok k names logs' c' /\ (forall q l, logs !! q = Some l -> exists l', logs' !! q = Some l' /\ l `prefix_of` l').
Proof using codecs.
  intros K Hst. destruct Hst as [i n msg produce em r Hi He Hp Hno Hlt|i n msg produce em e Hi He Hf|M ? ? ? i n op m Hi Hop Hn Hk|i n q p p' new Hi Hq Hst Hl Hnew].
  - destruct (co_nodes _ _ _ _ K i n Hi) as (name & _ & N).
    assert (cluster_ok k names logs (<[i := add_sent (em_msg em, em_spawned em) n]> c)) as K1.
    { apply put_node_ok with n; [done|done|done|by apply list_subseteq_app_l|]. intros nm [N1 N2 N3 N4 N6]. by split. }
    destruct (Emit_record range cs produce (msgr n) msg em r codecs He Hp) as (_ & _ & Hr & Hd).
    eexists. split; [apply append_ok; [exact K1|]|].
    + split; [|done|exact Hr|].
      * intros m Hm. cbn. apply Hd. by rewrite (no_kafka _ _ _ _ N).
      * exists i, (add_sent (em_msg em, em_spawned em) n), (em_msg em, em_spawned em).
        rewrite list_lookup_insert_eq by (by eapply lookup_lt_Some). split_and!; [done|done| |done]. apply elem_of_app. right. by apply list_elem_of_singleton.
    + intros q l Hl. rewrite list_lookup_alter. case_decide as E; [subst; rewrite Hl; eexists; split; [done|by apply prefix_app_r]|by eexists].
  - exists logs. split; [|by eauto]. apply put_node_ok with n; [done|done|done|by apply list_subseteq_app_l|]. intros nm [N1 N2 N3 N4 N6]. by split.
  - exists logs. split; [|by eauto]. apply put_node_ok with n; [done|done|done|done|]. intros nm [N1 N2 N3 N4 N6]. split; cbn; congruence || done.
  - exists logs. split; [by eapply read_ok|by eauto].
Qed.

Lemma cluster0_ok npart ms :
  Forall (fun m => kafka m = Some k) ms -> cluster_ok k (nodeName <$> ms) (replicate npart []) (cluster0 npart ms).
Proof using Type.
  intros Hms. split; [|by unfold cluster0; rewrite !length_fmap|].
  - intros i n Hi. apply list_lookup_fmap_Some in Hi as (m & -> & Hi). exists (nodeName m). split; [by rewrite list_lookup_fmap, Hi|].
    rewrite Forall_lookup in Hms. split; cbn; [by eapply Hms|done| |by rewrite !length_replicate|].
    + intros q p Hq. apply lookup_replicate in Hq as [-> Hq]. split; [by apply reachable_part_ok|by rewrite lookup_replicate].
    + intros q p Hq. apply lookup_replicate in Hq as [-> _]. done.
  - intros q l Hl. apply lookup_replicate in Hl as [-> _]. done.
Qed.

Lemma reachable_cluster_ok npart ms c :
  Forall (fun m => kafka m = Some k) ms -> rtc cstep (cluster0 npart ms) c -> exists logs, cluster_ok k (nodeName <$> ms) logs c.
Proof using codecs.
  intros Hms Hr. assert (exists logs, cluster_ok k (nodeName <$> ms) logs (cluster0 npart ms)) as Hok by (eexists; by apply cluster0_ok).
  revert Hok. induction Hr as [|c1 c2 c3 Hst _ IH]; intros Hok; [done|]. apply IH. destruct Hok as [logs Hok].
  destruct (cstep_ok _ _ _ _ Hok Hst) as (logs' & ? & _). by exists logs'.
Qed.

(** ** A node catches up *)

Lemma gstep_log (p p' : part (R := entry)) : rtc gstep p p' -> plog p `prefix_of` plog p'.
Proof using Type.
  induction 1 as [|x y z Hs _ IH]; [done|]. etrans; [|exact IH]. destruct (gstep_extends x y Hs) as [(r & -> & _)|[-> _]]; [by apply prefix_app_r|done].
Qed.

Lemma read_steps c i n q p p' :
  c !! i = Some n -> parts n !! q = Some p -> rtc gstep p p' -> plog p' = plog p ->
  exists c' n', rtc cstep c c' /\ c' !! i = Some n' /\ parts n' !! q = Some p' /\ msgr n' = msgr n /\ length (parts n') = length (parts n).
Proof using Type.
  intros Hi Hq Hr. revert c n Hi Hq. induction Hr as [p|p1 p2 p3 Hs Hr IH]; intros c n Hi Hq Hl; [by exists c, n|].
  assert (plog p2 = plog p1) as Hl2.
  { pose proof (gstep_log _ _ Hr) as H23. destruct (gstep_extends p1 p2 Hs) as [(r & E & _)|[E _]]; [|done].
    apply prefix_length in H23. rewrite E, Hl, length_app in H23. cbn in H23. lia. }
  destruct (gstep_extends p1 p2 Hs) as [(r & E & _)|[_ [new Hnew]]].
  { apply (f_equal length) in E. rewrite Hl2, length_app in E. cbn in E. lia. }
  set (n1 := read_part q p2 new n). assert (cstep c (<[i := n1]> c)) as Hst by (by eapply CRead).
  destruct (IH (<[i := n1]> c) n1) as (c' & n' & R1 & R2 & R3 & R4 & R5).
  - apply list_lookup_insert_eq. by eapply lookup_lt_Some.
  - cbn. apply list_lookup_insert_eq. by eapply lookup_lt_Some.
  - congruence.
  - exists c', n'. split_and!; [by eapply rtc_l|done|done|by rewrite R4|]. rewrite R5. cbn. by rewrite length_insert.
Qed.

Lemma session_slice (p : part (R := entry)) b l : part_ok p -> (b, l) ∈ all_sessions p -> slice (plog p) b l.
Proof using Type.
  intros [P1 P2 _ _] Hin. apply elem_of_app in Hin as [Hin|Hin]; [rewrite Forall_forall in P1; by apply (P1 _ Hin)|].
  destruct (holder p) as [[b' s]|]; [|by apply not_elem_of_nil in Hin]. apply list_elem_of_singleton in Hin as [= -> ->].
  destruct (P2 b' s eq_refl) as (Q1 & Q2 & Q3 & _). by apply session_processed.
Qed.

(** A record that some session covers was given to a worker. *)
Lemma covered_given (p : part (R := entry)) i e : part_ok p -> covered p (S i) -> plog p !! i = Some e -> e ∈ concat (all_sessions p).*2.
Proof using Type.
  intros P Hc Hi. destruct (Hc i ltac:(lia)) as (b & l & Hin & Hb). pose proof (session_slice p b l P Hin) as Hs. unfold slice in Hs.
  apply list_elem_of_In, in_concat. exists l. split; apply list_elem_of_In.
  - apply list_elem_of_fmap. by exists (b, l).
  - apply (list_elem_of_lookup_2 _ (i - b)). rewrite Hs, lookup_take by lia. rewrite decide_True by lia. rewrite lookup_drop. by replace (b + (i - b)) with i by lia.
Qed.

Lemma caught_up (p : part (R := entry)) b s e :
  part_ok p -> holder p = Some (b, s) -> b + length (processed s) = length (plog p) -> e ∈ plog p -> e ∈ concat (all_sessions p).*2.
Proof using Type.
  intros P Hh Hb He. apply list_elem_of_lookup_1 in He as [i Hi]. apply (covered_given p i e P); [|done].
  destruct (po_holder p P b s Hh) as (_ & _ & _ & _ & Hc). apply (covered_session p b (processed s)); [done|by apply in_holder|].
  apply lookup_lt_Some in Hi. lia.
Qed.

Lemma node_catches_up names logs c i n q p :
  cluster_ok k names logs c -> c !! i = Some n -> parts n !! q = Some p ->
  exists c' n' p', rtc cstep c c' /\ c' !! i = Some n' /\ parts n' !! q = Some p' /\ plog p' = plog p /\ forall e, e ∈ plog p -> e ∈ (ran n').*1.
Proof using codecs.
  intros K Hi Hq. destruct (co_nodes _ _ _ _ K i n Hi) as (name & Hname & N). destruct (no_parts _ _ _ _ N q p Hq) as [P L].
  destruct (catch_up p P) as (p' & b & s & Hr & Hl & Hh & Hb).
  destruct (read_steps c i n q p p' Hi Hq Hr Hl) as (c' & n' & R1 & R2 & R3 & _ & _). exists c', n', p'. split_and!; try done. intros e He.
  assert (exists logs', cluster_ok k names logs' c') as [logs' K'].
  { clear - K R1 codecs. revert logs K. induction R1 as [c|c1 c2 c3 Hst _ IH]; intros logs K; [by exists logs|].
    destruct (cstep_ok _ _ _ _ K Hst) as (l2 & K2 & _). by eapply IH. }
  destruct (co_nodes _ _ _ _ K' i n' R2) as (name' & _ & N'). pose proof (no_given _ _ _ _ N' q p' R3) as Hg.
  assert (e ∈ of_part q (ran n').*1) as Hin.
  { rewrite Hg. apply (caught_up p' b s); [by apply (no_parts _ _ _ _ N' q)|done|by rewrite Hl|by rewrite Hl]. }
  unfold of_part in Hin. by apply list_elem_of_filter in Hin as [_ Hin].
Qed.

(** C16. Messages reach every node of a cluster.  However emissions, registrations and rebalances interleave, the nodes have
    one log per partition: each record in it comes from a message a node emitted, whose own handlers were started then.
    As long as a node lost no partition and no commit failed, its workers were given the records of a partition in
    the order of the log, each once.  Whenever the workers of a node are given records, a record that the node itself wrote starts
    nothing, and any other starts exactly what its message starts among the handlers registered at the node at that moment;
    nothing else is run.  And a node can always go on until its workers were given every record of the log. *)
Theorem cluster_delivers npart (ms : list (Messager (R := R))) c :
  Forall (fun m => kafka m = Some k) ms -> rtc cstep (cluster0 npart ms) c ->
  (forall i n q p, c !! i = Some n -> parts n !! q = Some p ->
     (lossless p = true -> exists m, of_part q (ran n).*1 = take m (plog p) /\ committed p <= m) /\
     (forall j n' p', c !! j = Some n' -> parts n' !! q = Some p' -> plog p' = plog p) /\
     (forall e, e ∈ plog p -> exists j n' gs, c !! j = Some n' /\ nodeName (msgr n') = from e /\ (e_msg e, gs) ∈ sent n') /\
     (exists c' n' p', rtc cstep c c' /\ c' !! i = Some n' /\ parts n' !! q = Some p' /\ plog p' = plog p /\
        forall e, e ∈ plog p -> e ∈ (ran n').*1)) /\
  (forall c' i n n', cstep c c' -> c !! i = Some n -> c' !! i = Some n' ->
     exists new, ran n' = ran n ++ ((fun e => (e, if decide (nodeName (msgr n) = from e) then Ret []
                                                  else consume_any range (msgr n) (e_msg e))) <$> new)).
Proof using codecs.
  intros Hms Hr. destruct (reachable_cluster_ok npart ms c Hms Hr) as [logs K]. split.
  - intros i n q p Hi Hq. destruct (co_nodes _ _ _ _ K i n Hi) as (name & _ & N). destruct (no_parts _ _ _ _ N q p Hq) as [P L]. split_and!.
    + intros Hl. rewrite (no_given _ _ _ _ N q p Hq). by apply lossless_prefix.
    + intros j n' p' Hj Hq'. destruct (co_nodes _ _ _ _ K j n' Hj) as (name' & _ & N'). destruct (no_parts _ _ _ _ N' q p' Hq') as [_ L']. congruence.
    + intros e He. pose proof (co_logs _ _ _ _ K q _ L) as HL. rewrite Forall_forall in HL. destruct (HL e He) as [_ _ _ (j & n' & [m gs] & Hj & Hf & Hx & Hm)].
      cbn in Hm. subst m. by exists j, n', gs.
    + by eapply node_catches_up.
  - intros c' i n n' Hst Hi Hi'. by eapply step_answers.
Qed.
End Cluster.

(** ** Witness *)
Module Toy.

Definition rng (A : Type) : gmap string A -> list (string * A) := map_to_list.
Definition kc : Messager.KafkaClient := {| TopicPrefix := "" |}.
Definition cs : Codecs := ping_codecs (a_ping "a.b" "n1").
Definition m1 : Messager (R := nat) := NewMessager true "n1" (Some kc).
Definition m2 : Messager (R := nat) :=
  match run_ops [OpOn "h1" (fun _ : PingMessage => 7%nat) ["a.*"]] (NewMessager true "n2" (Some kc)) with Ret m => m | Abort _ => m1 end.
Definition rec : krecord := {| Key := "a.b"; Topic := "cluster_ping"; Value := [1%Z] |}.
Definition ping1 : entry := {| from := "n1"; e_msg := AnyPing (a_ping "a.b" "n1"); e_rec := rec |}.
Definition to0 (r : krecord) : nat := 0%nat.

(** Node [n1] emits a ping; node [n2] is assigned the partition, polls it and consumes. *)
Definition s1 : session := {| polled := [ping1]; processed := []; marked := []; recs := [[ping1]] |}.
Definition s2 : session := {| polled := [ping1]; processed := [ping1]; marked := [ping1]; recs := [] |}.
Definition p_new (h : option (nat * session)) : part (R := entry) :=
  {| plog := [ping1]; committed := 0; holder := h; past := []; lossless := true |}.
Definition node1 : node (R := nat) := {| msgr := m1; parts := [p_new None]; ran := []; sent := [(AnyPing (a_ping "a.b" "n1"), [])] |}.
Definition node2 (h : option (nat * session)) (l : list (entry * run (list nat))) : node (R := nat) :=
  {| msgr := m2; parts := [p_new h]; ran := l; sent := [] |}.
Definition c1 : list node := [node1; node2 None []].
Definition c2 : list node := [node1; node2 (Some (0, new_session)) []].
Definition c3 : list node := [node1; node2 (Some (0, s1)) []].
Definition c4 : list node := [node1; node2 (Some (0, s2)) [(ping1, Ret [7%nat])]].

Lemma cs_ok : codecs_ok cs.
Proof. split; try by intros ?? [=]. intros m b. cbn. by case_decide; intros [= <-]; subst. Qed.

Lemma cluster_run3 : rtc (cstep rng cs to0) (cluster0 1 [m1; m2]) c3.
Proof.
  eapply rtc_l with c1.
  { apply (CEmit rng cs to0 (cluster0 1 [m1; m2]) 0 {| msgr := m1; parts := [part0]; ran := []; sent := [] |} (AnyPing (a_ping "a.b" "")) (fun _ => None)
      {| em_msg := AnyPing (a_ping "a.b" "n1"); em_spawned := []; em_produced := Some rec; em_err := None |} rec); vm_compute; try reflexivity. }
  eapply rtc_l with c2.
  { apply (CRead rng cs to0 c1 1 (node2 None []) 0 (p_new None) (p_new (Some (0, new_session))) []); try reflexivity. by apply (GAssign (p_new None)). }
  apply rtc_once.
  apply (CRead rng cs to0 c2 1 (node2 (Some (0, new_session)) []) 0 (p_new (Some (0, new_session))) (p_new (Some (0, s1))) []); try reflexivity.
  by apply (GPoll (p_new (Some (0, new_session))) 0 new_session s1 5).
Qed.

Lemma cluster_consumes : cstep rng cs to0 c3 c4.
Proof.
  apply (CRead rng cs to0 c3 1 (node2 (Some (0, s1)) []) 0 (p_new (Some (0, s1))) (p_new (Some (0, s2))) [ping1]); try reflexivity.
  by apply (GConsume (p_new (Some (0, s1))) 0 s1 s2).
Qed.

(** The ping of [n1] starts the handler registered at [n2], once. *)
Lemma cluster_delivers_witness :
  (exists m, of_part to0 0 [] = take m [ping1] /\ 0 <= m) /\
  consume_any rng m2 (AnyPing (a_ping "a.b" "n1")) = Ret [7%nat].
Proof.
  destruct (cluster_delivers rng cs to0 cs_ok kc 1 [m1; m2] c3) as [Hp Hr].
  - repeat constructor.
  - exact cluster_run3.
  - split.
    + exact (proj1 (Hp 1%nat _ 0%nat _ eq_refl eq_refl) eq_refl).
    + destruct (Hr c4 1%nat _ _ cluster_consumes eq_refl eq_refl) as [new E]. cbn in E.
      destruct new as [|e new]; [discriminate E|]. injection E as <- E _. rewrite decide_False in E by discriminate. by symmetry.
Defined.
End Toy.
