(* ===== verification/Facade.v ===== *)
(** * Facade: the interfaces of the client library and their implementation ([client/client.go], [client/signal.go], [client/websocket.go])

    [Signal] and [Client] are the interfaces the library offers; [WebsocketClient] forwards to a [Signal], and
    [RoomedWebsocketSignal] is a signal with its room filled in.  [WebsocketSignal] is the one implementation:
    each of its calls goes through [accessSignal], which dials when there is no connection.  Here the calls come
    one after the other ([ClientConn] has their interleavings), and the other end of the connection is a
    [SignalServer]; the last section makes the node of [Session], with its handlers, one. *)
From S2P Require Import Prelude GoStrings Strconv Encoding Auth Token Collection RoomPattern PatternMap Pattern Messages Messager Registry Config Templates Errors.
From S2P Require Import Packets Routing RoutingInv RoutingProps Publication Rooms Session SessionProps Handlers Admission.
From S2P Require Import Client CustomMsg ClientMsgs ClientConn.
Local Open Scope string_scope.
Local Open Scope list_scope.

(** ** What the surroundings of a call decide *)

(** A request is not sent, or handled by the server without the client learning of it, or answered. *)
Inductive delivery := Unsent (e : gerror) | Lost (e : gerror) | Answered.

(** [e_dial] and [e_ready] are the errors that end the dialling and the wait for "ready". *)
Record env := { e_uuid : string; e_dial : option gerror; e_ready : option gerror; e_send : delivery }.

(** ** The interfaces *)

(** What [SendMessage] gives to the connection, and the call that waits for the acknowledgement. *)
Definition sent : Type := (string * CustomMessage) * option nat.

Class Signal (St : Type) := {
  sig_Id : St -> string;
  sig_MakesureConnect : env -> string -> St -> run (St * option gerror);
  sig_SendMessage : env -> bool -> string -> string -> string -> string -> St -> run (St * (sent + gerror));
  sig_OnMessage : string -> nat -> St -> St;
  sig_SetCloseCb : nat -> St -> St;
  sig_Join : env -> list string -> St -> run (St * option gerror);
  sig_Leave : env -> list string -> St -> run (St * option gerror);
  sig_UserInfo : env -> St -> run (St * (option UserInfo + gerror));
  sig_GetRooms : env -> St -> run (St * (list string + gerror));
  sig_IsInRoom : env -> string -> St -> run (St * (bool + gerror));
  sig_KeepAlive : env -> string -> string -> Z -> St -> run (St * option gerror);
  sig_Roomed : env -> string -> St -> run (St * (string + gerror))
}.

(** The type of a client is the type of its state. *)
Class ClientI (C : Type) := {
  Id : C -> string;
  MakeSureId : env -> C -> run (C * (string + gerror));
  MakeSureConnect : env -> string -> C -> run (C * option gerror);
  OnMessage : string -> nat -> C -> C;
  SendMessage : env -> bool -> string -> string -> string -> string -> C -> run (C * (sent + gerror));
  SetCloseCb : nat -> C -> C;
  Join : env -> list string -> C -> run (C * option gerror);
  Leave : env -> list string -> C -> run (C * option gerror);
  UserInfo_ : env -> C -> run (C * (option UserInfo + gerror));
  IsInRoom : env -> string -> C -> run (C * (bool + gerror));
  GetRooms : env -> C -> run (C * (list string + gerror));
  KeepAlive : env -> string -> string -> Z -> C -> run (C * option gerror);
  Roomed : env -> string -> C -> run (C * (string + gerror))
}.

(** ** [WebsocketClient] *)

Record WebsocketClient (St : Type) := { cl_signal : St; cl_timeout : Z }.
Arguments cl_signal {_}.
Arguments cl_timeout {_}.

Section Forwarding.
Context {St : Type} `{Signal St}.

Definition on_signal {X} (f : St -> run (St * X)) (c : WebsocketClient St) : run (WebsocketClient St * X) :=
  '(s, x) ← f (cl_signal c); Ret ({| cl_signal := s; cl_timeout := cl_timeout c |}, x).
Definition set_signal (f : St -> St) (c : WebsocketClient St) : WebsocketClient St := {| cl_signal := f (cl_signal c); cl_timeout := cl_timeout c |}.

Definition client_MakeSureId (e : env) (c : WebsocketClient St) : run (WebsocketClient St * (string + gerror)) :=
  '(c, err) ← on_signal (sig_MakesureConnect e "") c;
  Ret (c, match err with Some err => inr err | None => inl (sig_Id (cl_signal c)) end).

Definition client_of_signal : ClientI (WebsocketClient St) := {|
  Id c := sig_Id (cl_signal c);
  MakeSureId := client_MakeSureId;
  MakeSureConnect e socket_id := on_signal (sig_MakesureConnect e socket_id);
  OnMessage evt cb := set_signal (sig_OnMessage evt cb);
  SendMessage e ack evt content to room := on_signal (sig_SendMessage e ack evt content to room);
  SetCloseCb cb := set_signal (sig_SetCloseCb cb);
  Join e rooms := on_signal (sig_Join e rooms);
  Leave e rooms := on_signal (sig_Leave e rooms);
  UserInfo_ e := on_signal (sig_UserInfo e);
  IsInRoom e room := on_signal (sig_IsInRoom e room);
  GetRooms e := on_signal (sig_GetRooms e);
  KeepAlive e room uid mode := on_signal (sig_KeepAlive e room uid mode);
  Roomed e room := on_signal (sig_Roomed e room)
|}.
#[global] Existing Instance client_of_signal.
End Forwarding.

(** ** The other end of the connection *)

(** What comes of a dial: "ready", a refusal of the handshake, or a connection that is closed before "ready". *)
Inductive opening := OReady (u : UserInfo) | ORefused (e : gerror) | ODropped.

(** The headers "Authorization" and "Signal-Id", and the requests "join" and "leave". *)
Class SignalServer (Sv : Type) := {
  sv_open : option (list string) -> option (list string) -> Sv -> run (Sv * opening);
  sv_join : list string -> Sv -> run (Sv * option gerror);
  sv_leave : list string -> Sv -> run (Sv * option gerror);
  sv_ok : Sv -> Prop;
  sv_in : Sv -> string -> Prop
}.

(** A server promises what "ready" says, and that a request that fails changes no membership. *)
Class SignalServerLaws (Sv : Type) `{SignalServer Sv} : Prop := {
  open_law a i sv sv' u : sv_open a i sv = Ret (sv', OReady u) -> sv_ok sv' /\ forall room, room ∈ UI_Rooms u <-> sv_in sv' room;
  join_law rs sv sv' err : sv_ok sv -> sv_join rs sv = Ret (sv', err) -> sv_ok sv' /\
    match err with
    | None => forall room, (sv_in sv room \/ room ∈ rs -> sv_in sv' room) /\ (rs <> [] -> sv_in sv' room -> sv_in sv room \/ room ∈ rs)
    | Some _ => forall room, sv_in sv' room <-> sv_in sv room
    end;
  leave_law rs sv sv' err : sv_ok sv -> sv_leave rs sv = Ret (sv', err) -> sv_ok sv' /\
    match err with
    | None => forall room, sv_in sv room -> room ∉ rs -> sv_in sv' room
    | Some _ => forall room, sv_in sv' room <-> sv_in sv room
    end
}.

(** ** [WebsocketSignal] *)

(** [link] is the field [signal]; [online] that this signal was dialled and told it is ready; [spawned] are the
    goroutines of [KeepAlive], [closes] the calls of the close callback. *)
Record wsig (Sv : Type) := {
  conf_Token : string; link : option nat; serial : nat; user : client_user; customs : CustomMsg.WebsocketSignal;
  participants : ParticipantsBox (Cb := nat); close_cb : option nat; closes : list nat; spawned : list (string * string * Z);
  online : bool; server : Sv
}.
Arguments conf_Token {_}.
Arguments link {_}.
Arguments serial {_}.
Arguments user {_}.
Arguments customs {_}.
Arguments participants {_}.
Arguments close_cb {_}.
Arguments closes {_}.
Arguments spawned {_}.
Arguments online {_}.
Arguments server {_}.

Section WebsocketSignal.
Context `{SignalServer Sv}.

Definition NewWebsocketSignal (token : string) (sv : Sv) : wsig Sv :=
  {| conf_Token := token; link := None; serial := 0; user := {| cu_info := None; cu_rooms := []; ready_closed := false |};
     customs := {| next_custom_msg_id := 0; notifiers := ∅; waiting := 0; answered := ∅; CustomMsg.custom_msg_cbs := ∅ |};
     participants := mewParticipantsBox; close_cb := None; closes := []; spawned := []; online := false; server := sv |}.

(** The fields of the connection. *)
Definition set_conn (l : option nat) (k : nat) (u : client_user) (b : bool) (sv : Sv) (s : wsig Sv) : wsig Sv :=
  {| conf_Token := conf_Token s; link := l; serial := k; user := u; customs := customs s; participants := participants s;
     close_cb := close_cb s; closes := closes s; spawned := spawned s; online := b; server := sv |}.
Definition set_customs (c : CustomMsg.WebsocketSignal) (s : wsig Sv) : wsig Sv :=
  {| conf_Token := conf_Token s; link := link s; serial := serial s; user := user s; customs := c; participants := participants s;
     close_cb := close_cb s; closes := closes s; spawned := spawned s; online := online s; server := server s |}.
Definition set_participants (b : ParticipantsBox (Cb := nat)) (s : wsig Sv) : wsig Sv :=
  {| conf_Token := conf_Token s; link := link s; serial := serial s; user := user s; customs := customs s; participants := b;
     close_cb := close_cb s; closes := closes s; spawned := spawned s; online := online s; server := server s |}.
Definition set_rooms_ (rooms : list string) (s : wsig Sv) : wsig Sv :=
  set_conn (link s) (serial s) {| cu_info := cu_info (user s); cu_rooms := rooms; ready_closed := ready_closed (user s) |} (online s) (server s) s.
Definition set_server (sv : Sv) (s : wsig Sv) : wsig Sv := set_conn (link s) (serial s) (user s) (online s) sv s.
Definition set_close (cb : option nat) (cs : list nat) (s : wsig Sv) : wsig Sv :=
  {| conf_Token := conf_Token s; link := link s; serial := serial s; user := user s; customs := customs s; participants := participants s;
     close_cb := cb; closes := cs; spawned := spawned s; online := online s; server := server s |}.
Definition add_goroutine (g : string * string * Z) (s : wsig Sv) : wsig Sv :=
  {| conf_Token := conf_Token s; link := link s; serial := serial s; user := user s; customs := customs s; participants := participants s;
     close_cb := close_cb s; closes := closes s; spawned := spawned s ++ [g]; online := online s; server := server s |}.

(** The headers of the handshake. *)
Definition dial_headers (token socket_id uuid : string) : option (list string) * option (list string) :=
  (Some [token], Some [if decide (socket_id <> "") then socket_id else uuid]).

(** [OnClose] of the connection. *)
Definition connection_closed (s : wsig Sv) : wsig Sv :=
  let s := set_conn None (serial s) (user s) false (server s) s in
  match close_cb s with Some cb => set_close (Some cb) (closes s ++ [cb]) s | None => s end.

(** The callback for "ready" is registered anew, with a channel of its own. *)
Definition new_ready_ch (u : client_user) : client_user := {| cu_info := cu_info u; cu_rooms := cu_rooms u; ready_closed := false |}.

(** The field [signal] is set before the dial, and stays when dialling or the wait for "ready" fails. *)
Definition accessSignal (e : env) (socket_id : string) (s : wsig Sv) : run (wsig Sv * result) :=
  match link s with
  | Some k => Ret (s, inl (Some k))
  | None =>
      let k := serial s in
      let s := set_conn (Some k) (S k) (new_ready_ch (user s)) false (server s) s in
      match e_dial e with
      | Some err => Ret (s, inr err)
      | None =>
          let '(authorization, signal_id) := dial_headers (conf_Token s) socket_id (e_uuid e) in
          '(sv, o) ← sv_open authorization signal_id (server s);
          let s := set_server sv s in
          match o, e_ready e with
          | ORefused err, _ => Ret (s, inr err)
          | ODropped, _ => Ret (connection_closed s, inr (EOther "ready timeout"))
          | OReady _, Some err => Ret (s, inr err)
          | OReady u, None =>
              '(u, _) ← on_ready (inl u) (user s);
              Ret (set_conn (Some k) (S k) u true (server s) s,
                   match cu_info u with Some _ => inl (Some k) | None => inr (EOther "failed to get user info") end)
          end
      end
  end.

Definition access_error (r : result) : option gerror := match r with inr e => Some e | inl _ => None end.

Definition ws_MakesureConnect (e : env) (socket_id : string) (s : wsig Sv) : run (wsig Sv * option gerror) :=
  '(s, r) ← accessSignal e socket_id s; Ret (s, access_error r).

(** A request over the connection: the state of the server after it, and what the caller is told. *)
Definition request (e : env) (op : Sv -> run (Sv * option gerror)) (r : result) (s : wsig Sv) : run (wsig Sv * (list unit + gerror)) :=
  match r, e_send e with
  | inr err, _ | _, Unsent err => Ret (s, inr err)
  | inl _, Lost err => '(sv, _) ← op (server s); Ret (set_server sv s, inr err)
  | inl _, Answered => '(sv, err) ← op (server s); Ret (set_server sv s, match err with Some err => inr err | None => inl [tt] end)
  end.

Definition ws_Join (e : env) (rs : list string) (s : wsig Sv) : run (wsig Sv * option gerror) :=
  '(s, r) ← accessSignal e "" s;
  '(s, answer) ← request e (sv_join rs) r s;
  '(rooms, err) ← ClientConn.Join (fun _ _ _ _ => answer) (fun rs => rs) (cu_rooms (user s)) rs r;
  Ret (set_rooms_ rooms s, err).

Definition ws_Leave (e : env) (rs : list string) (s : wsig Sv) : run (wsig Sv * option gerror) :=
  '(s, r) ← accessSignal e "" s;
  '(s, answer) ← request e (sv_leave rs) r s;
  '(rooms, err) ← ClientConn.Leave (fun _ _ _ _ => answer) (fun rs => rs) (cu_rooms (user s)) rs r;
  Ret (set_rooms_ rooms s, err).

(** The message is sent without looking at the error of [SendMsg]. *)
Definition ws_SendMessage (e : env) (ack : bool) (evt content to room : string) (s : wsig Sv) : run (wsig Sv * (sent + gerror)) :=
  '(s, r) ← accessSignal e "" s;
  match r with
  | inr err => Ret (s, inr err)
  | inl None => go_panic PNilDeref
  | inl (Some _) => let '(c, m, w) := SendMessage_send (customs s) ack evt content to room in Ret (set_customs c s, inl (m, w))
  end.

(** The mode is looked at in the goroutine. *)
Definition ws_KeepAlive (e : env) (room sid : string) (mode : Z) (s : wsig Sv) : run (wsig Sv * option gerror) :=
  '(s, err) ← ws_MakesureConnect e "" s;
  match err with Some err => Ret (s, Some err) | None => Ret (add_goroutine (room, sid, mode) s, None) end.

Inductive keep_alive_loop := ActiveLoop | PassiveLoop.
Definition keep_alive_body (mode : Z) : run keep_alive_loop :=
  if (mode =? 1)%Z then Ret ActiveLoop else if (mode =? 2)%Z then Ret PassiveLoop else go_panic (PMsg "invalid keep alive mode").

Definition websocket_signal : Signal (wsig Sv) := {|
  sig_Id s := client_Id (user s);
  sig_MakesureConnect := ws_MakesureConnect;
  sig_SendMessage := ws_SendMessage;
  sig_OnMessage evt cb s := set_customs (CustomMsg.OnMessage (customs s) evt cb) s;
  sig_SetCloseCb cb s := set_close (Some cb) (closes s) s;
  sig_Join := ws_Join;
  sig_Leave := ws_Leave;
  sig_UserInfo e s := '(s, r) ← accessSignal e "" s; Ret (s, client_UserInfo r (user s));
  sig_GetRooms e s := '(s, r) ← accessSignal e "" s; Ret (s, ClientConn.GetRooms (cu_rooms (user s)) r);
  sig_IsInRoom e room s := '(s, r) ← accessSignal e "" s; Ret (s, ClientConn.IsInRoom (cu_rooms (user s)) room r);
  sig_KeepAlive := ws_KeepAlive;
  sig_Roomed e room s := '(s, r) ← accessSignal e "" s; Ret (s, ClientConn.Roomed (cu_rooms (user s)) room r)
|}.
#[global] Existing Instance websocket_signal.

Definition NewWebsocketClient (token : string) (conf_Timeout : Z) (sv : Sv) : WebsocketClient (wsig Sv) :=
  {| cl_signal := NewWebsocketSignal token sv; cl_timeout := client_timeout conf_Timeout |}.

(** ** [RoomedWebsocketSignal] *)

Record RoomedWebsocketSignal := { GetRoom : string }.
Definition newRoomedWebsocketSignal (room : string) : RoomedWebsocketSignal := {| GetRoom := room |}.

Definition roomed_SendMessage (rs : RoomedWebsocketSignal) (e : env) (ack : bool) (evt content to : string) (s : wsig Sv) : run (wsig Sv * (sent + gerror)) :=
  sig_SendMessage e ack evt content to (GetRoom rs) s.
Definition roomed_KeepAlive (rs : RoomedWebsocketSignal) (e : env) (uid : string) (mode : Z) (s : wsig Sv) : run (wsig Sv * option gerror) :=
  sig_KeepAlive e (GetRoom rs) uid mode s.
Definition OffParticipantJoin (rs : RoomedWebsocketSignal) (id : Z) (s : wsig Sv) : wsig Sv :=
  set_participants (RemoveJoinCallback (participants s) (GetRoom rs) id) s.
Definition OnParticipantLeave (rs : RoomedWebsocketSignal) (cb : nat) (s : wsig Sv) : wsig Sv * Z :=
  let '(b, id) := AddLeaveCallback (participants s) (GetRoom rs) cb in (set_participants b s, id).
Definition OffParticipantLeave (rs : RoomedWebsocketSignal) (id : Z) (s : wsig Sv) : wsig Sv :=
  set_participants (RemoveLeaveCallback (participants s) (GetRoom rs) id) s.
End WebsocketSignal.

(** ** Runs of a client *)

Inductive call :=
  | CConnect (socket_id : string) | CMakeSureId | CUserInfo | CGetRooms | CIsInRoom (room : string) | CRoomed (room : string)
  | CJoin (rs : list string) | CLeave (rs : list string)
  | CSend (ack : bool) (evt content to room : string) | COnMessage (evt : string) (cb : nat) | CSetCloseCb (cb : nat)
  | CKeepAlive (room uid : string) (mode : Z)
  | CClosed.                    (** the connection ends *)

Section Runs.
Context `{SignalServer Sv}.

Definition state_of {X} (r : run (WebsocketClient (wsig Sv) * X)) : run (WebsocketClient (wsig Sv)) := '(c, _) ← r; Ret c.

Definition do_call (e : env) (x : call) (c : WebsocketClient (wsig Sv)) : run (WebsocketClient (wsig Sv)) :=
  match x with
  | CConnect socket_id => state_of (MakeSureConnect e socket_id c)
  | CMakeSureId => state_of (MakeSureId e c)
  | CUserInfo => state_of (UserInfo_ e c)
  | CGetRooms => state_of (GetRooms e c)
  | CIsInRoom room => state_of (IsInRoom e room c)
  | CRoomed room => state_of (Roomed e room c)
  | CJoin rs => state_of (Join e rs c)
  | CLeave rs => state_of (Leave e rs c)
  | CSend ack evt content to room => state_of (SendMessage e ack evt content to room c)
  | COnMessage evt cb => Ret (OnMessage evt cb c)
  | CSetCloseCb cb => Ret (SetCloseCb cb c)
  | CKeepAlive room uid mode => state_of (KeepAlive e room uid mode c)
  | CClosed => Ret (set_signal connection_closed c)
  end.

(** The answer to a "leave" is not lost. *)
Definition leave_answered (e : env) (x : call) : Prop :=
  match x with CLeave _ => match e_send e with Lost _ => False | _ => True end | _ => True end.

(** The calls after which the client knows all its rooms: rooms to join are named, and no room is left. *)
Definition exact_call (e : env) (x : call) : bool :=
  match x with
  | CLeave _ => false
  | CJoin rs => negb (bool_decide (rs = [])) && match e_send e with Lost _ => false | _ => true end
  | _ => true
  end.

Inductive client_reach (c0 : WebsocketClient (wsig Sv)) : bool -> WebsocketClient (wsig Sv) -> Prop :=
  | cr_new : client_reach c0 true c0
  | cr_call exact c e x c' :
      client_reach c0 exact c -> do_call e x c = Ret c' -> leave_answered e x -> client_reach c0 (exact && exact_call e x) c'.

(** What the client knows of its rooms while it is connected. *)
Definition agrees (exact : bool) (s : wsig Sv) : Prop :=
  online s = true ->
  sv_ok (server s) /\ (forall room, room ∈ cu_rooms (user s) -> sv_in (server s) room) /\
  (exact = true -> forall room, sv_in (server s) room -> room ∈ cu_rooms (user s)).

Lemma agrees_le b b' s : (b' = true -> b = true) -> agrees b s -> agrees b' s.
Proof. intros Hb Ha Ho. destruct (Ha Ho) as (? & ? & ?). split_and!; auto. Qed.

Lemma agrees_same b s s' :
  online s' = online s -> server s' = server s -> cu_rooms (user s') = cu_rooms (user s) -> agrees b s -> agrees b s'.
Proof. unfold agrees. intros -> -> ->. done. Qed.

Lemma offline_agrees b s : online s = false -> agrees b s.
Proof. intros Ho Ho'. congruence. Qed.

Context {L : SignalServerLaws Sv}.

Lemma access_agrees b e socket_id s s' r : agrees b s -> accessSignal e socket_id s = Ret (s', r) -> agrees b s'.
Proof.
  intros Ha. unfold accessSignal. destruct (link s) as [k|]; [by intros [= <- _]|].
  destruct (e_dial e) as [err|]; [intros [= <- _]; by apply offline_agrees|]. cbn [dial_headers].
  intros Hr. apply bind_ret_inv in Hr as ([sv o] & Hopen & Hr). destruct o as [u|err|]; [|by injection Hr as <- _; apply offline_agrees|].
  - destruct (e_ready e) as [err|]; [injection Hr as <- _; by apply offline_agrees|].
    cbn in Hr. injection Hr as <- _. intros _. cbn. destruct (open_law _ _ _ _ _ Hopen) as [Hok Hu]. split; [done|]. split; intros; by apply Hu.
  - injection Hr as <- _. apply offline_agrees. unfold connection_closed. by destruct (close_cb _).
Qed.

(** A request whose answer the client follows. *)
Lemma request_agrees b b' e op upd r s s1 answer :
  agrees b s -> (b' = true -> b = true) ->
  (forall sv sv' err, sv_ok sv -> op sv = Ret (sv', err) -> sv_ok sv' /\
     match err with
     | None => forall rooms, (forall room, room ∈ rooms -> sv_in sv room) ->
         (forall room, room ∈ upd rooms -> sv_in sv' room) /\
         (b' = true -> (forall room, sv_in sv room -> room ∈ rooms) -> forall room, sv_in sv' room -> room ∈ upd rooms)
     | Some _ => forall room, sv_in sv' room <-> sv_in sv room
     end) ->
  (forall err, e_send e = Lost err -> b' = false /\ forall sv sv' err room, sv_ok sv -> op sv = Ret (sv', err) -> sv_in sv room -> sv_in sv' room) ->
  request e op r s = Ret (s1, answer) ->
  match answer with inr _ => agrees b' s1 | inl _ => agrees b' (set_rooms_ (upd (cu_rooms (user s1))) s1) end.
Proof using Type.
  intros Ha Hb Hop Hlost. unfold request. destruct r as [k|err]; [|intros [= <- <-]; by eapply agrees_le]. destruct (e_send e) as [err|err|] eqn:Es.
  - intros [= <- <-]. by eapply agrees_le.
  - intros Hr. apply bind_ret_inv in Hr as ([sv err'] & Hsv & Hr). injection Hr as <- <-. destruct (Hlost err eq_refl) as [-> Hin].
    intros Ho. cbn in *. destruct (Ha Ho) as (Hok & Hs & _). split; [by eapply Hop|]. split; [|done]. intros room Hroom. eapply Hin; eauto.
  - intros Hr. apply bind_ret_inv in Hr as ([sv err'] & Hsv & Hr). injection Hr as <- <-.
    destruct err' as [err'|]; intros Ho; cbn in *; destruct (Ha Ho) as (Hok & Hs & He); destruct (Hop _ _ _ Hok Hsv) as [Hok' Hin]; (split; [done|]).
    + split; [intros room Hroom; by apply Hin, Hs|]. intros Hb' room Hroom. by apply He, Hin; auto.
    + destruct (Hin _ Hs) as [H1 H2]. split; [done|]. intros Hb'. auto.
Qed.

Lemma join_agrees b e rs s s' err :
  agrees b s -> ws_Join e rs s = Ret (s', err) -> agrees (b && exact_call e (CJoin rs)) s'.
Proof.
  intros Ha Hj. unfold ws_Join in Hj. apply bind_ret_inv in Hj as ([s1 r] & Hacc & Hj). apply bind_ret_inv in Hj as ([s2 answer] & Hreq & Hj).
  apply (access_agrees b) in Hacc; [|done].
  pose proof (request_agrees b (b && exact_call e (CJoin rs)) e (sv_join rs) (fun rooms => SliceAppendNoRepeat rooms rs) r s1 s2 answer Hacc) as Hq.
  apply bind_ret_inv in Hj as ([rooms err'] & Hjoin & Hj). injection Hj as <- _.
  assert (match answer with inr _ => agrees (b && exact_call e (CJoin rs)) s2
    | inl _ => agrees (b && exact_call e (CJoin rs)) (set_rooms_ (SliceAppendNoRepeat (cu_rooms (user s2)) rs) s2) end) as Hag.
  { apply Hq; [by intros [? _]%andb_prop| | |done].
    - intros sv sv' e0 Hok Hsv. destruct (join_law _ _ _ _ Hok Hsv) as [Hok' Hin]. split; [done|]. destruct e0; [done|].
      intros rooms' Hrs. split; [intros room Hr|intros Hr Hall room Hroom].
      + apply Hin. apply SliceAppendNoRepeat_spec in Hr as [Hr|Hr]; [left; by apply Hrs|by right].
      + apply SliceAppendNoRepeat_spec. apply andb_prop in Hr as [_ [Hne%negb_true_iff%bool_decide_eq_false _]%andb_prop].
        destruct (proj2 (Hin room) Hne Hroom); [left; by apply Hall|by right].
    - intros err0 Es. cbn [exact_call]. rewrite Es, !andb_false_r. split; [done|]. intros sv sv' e0 room Hok Hsv Hroom.
      destruct (join_law _ _ _ _ Hok Hsv) as [_ Hin]. destruct e0; [by apply Hin|apply Hin; by left]. }
  unfold ClientConn.Join, ClientConn.sendMsg in Hjoin. destruct r as [[k|]|e1]; [|done|].
  - destruct answer as [[|x l]|e1]; cbn in Hjoin; injection Hjoin as <- _; [done..|]. by eapply agrees_same; [..|exact Hag].
  - cbn in Hjoin. injection Hjoin as <- _. cbn in Hreq. injection Hreq as <- <-. by eapply agrees_same; [..|exact Hag].
Qed.

Lemma leave_agrees b e rs s s' err :
  agrees b s -> leave_answered e (CLeave rs) -> ws_Leave e rs s = Ret (s', err) -> agrees false s'.
Proof.
  intros Ha Hans Hj. unfold ws_Leave in Hj. apply bind_ret_inv in Hj as ([s1 r] & Hacc & Hj). apply bind_ret_inv in Hj as ([s2 answer] & Hreq & Hj).
  apply (access_agrees b) in Hacc; [|done]. apply bind_ret_inv in Hj as ([rooms err'] & Hleave & Hj). injection Hj as <- _.
  pose proof (request_agrees b false e (sv_leave rs) (fun rooms => filter (fun x => x ∉ rs) rooms) r s1 s2 answer Hacc) as Hag.
  assert (match answer with inr _ => agrees false s2 | inl _ => agrees false (set_rooms_ (filter (fun x => x ∉ rs) (cu_rooms (user s2))) s2) end) as Hag'.
  { apply Hag; [done| | |done].
    - intros sv sv' e0 Hok Hsv. destruct (leave_law _ _ _ _ Hok Hsv) as [Hok' Hin]. split; [done|]. destruct e0; [done|].
      intros rooms' Hrs. split; [|done]. intros room [Hn Hr]%list_elem_of_filter. apply Hin; [by apply Hrs|done].
    - intros err0 Es. cbn [leave_answered] in Hans. by rewrite Es in Hans. }
  unfold ClientConn.Leave, ClientConn.sendMsg in Hleave. destruct r as [[k|]|e1]; [|done|].
  - destruct (SliceRemove_correct (cu_rooms (user s2)) false (fun _ => true) "" rs) as (_ & _ & E & _).
    destruct answer as [[|x l]|e1]; cbn [mbind run_bind] in Hleave; [rewrite E in Hleave; injection Hleave as <- _; exact Hag'..|].
    injection Hleave as <- _. by eapply agrees_same; [..|exact Hag'].
  - cbn in Hleave. injection Hleave as <- _. cbn in Hreq. injection Hreq as <- <-. by eapply agrees_same; [..|exact Hag'].
Qed.

Lemma state_of_inv {X} (f : wsig Sv -> run (wsig Sv * X)) c c' :
  state_of (on_signal f c) = Ret c' -> exists x, f (cl_signal c) = Ret (cl_signal c', x).
Proof using Type.
  unfold state_of, on_signal. intros Hs. apply bind_ret_inv in Hs as ([c1 x] & Hs & Hr). injection Hr as <-.
  apply bind_ret_inv in Hs as ([s y] & Hs & Hr). injection Hr as <- <-. eauto.
Qed.

(** The calls that only look. *)
Lemma reads_agree {X} b e socket_id (g : wsig Sv -> result -> X) c c' :
  agrees b (cl_signal c) -> state_of (on_signal (fun s => '(s, r) ← accessSignal e socket_id s; Ret (s, g s r)) c) = Ret c' -> agrees b (cl_signal c').
Proof.
  intros Ha Hc. apply state_of_inv in Hc as [x Hc]. apply bind_ret_inv in Hc as ([s r] & Hc & Hr). injection Hr as <- _. by eapply access_agrees.
Qed.

(** Every call goes through [accessSignal], and touches the rooms only to join and leave. *)
Lemma call_agrees b e x c c' :
  agrees b (cl_signal c) -> leave_answered e x -> do_call e x c = Ret c' -> agrees (b && exact_call e x) (cl_signal c').
Proof.
  intros Ha Hl. destruct x; cbn [do_call exact_call]; rewrite ?andb_true_r; intros Hc.
  - by eapply (reads_agree b e socket_id (fun s => access_error)).
  - unfold state_of in Hc. cbn in Hc. unfold client_MakeSureId in Hc. apply bind_ret_inv in Hc as ([c1 y] & Hc & Hr). injection Hr as <-.
    apply bind_ret_inv in Hc as ([c2 err] & Hc & Hr). injection Hr as <- _. unfold on_signal in Hc. apply bind_ret_inv in Hc as ([s o] & Hc & Hr).
    injection Hr as <- _. cbn in *. unfold ws_MakesureConnect in Hc. apply bind_ret_inv in Hc as ([s' r] & Hc & Hr). injection Hr as <- _.
    by eapply access_agrees.
  - by eapply (reads_agree b e "" (fun s r => client_UserInfo r (user s))).
  - by eapply (reads_agree b e "" (fun s r => ClientConn.GetRooms (cu_rooms (user s)) r)).
  - by eapply (reads_agree b e "" (fun s r => ClientConn.IsInRoom (cu_rooms (user s)) room r)).
  - by eapply (reads_agree b e "" (fun s r => ClientConn.Roomed (cu_rooms (user s)) room r)).
  - apply state_of_inv in Hc as [x Hc]. by eapply join_agrees.
  - apply state_of_inv in Hc as [x Hc]. rewrite andb_false_r. by eapply leave_agrees.
  - apply state_of_inv in Hc as [x Hc]. cbn in Hc. unfold ws_SendMessage in Hc. apply bind_ret_inv in Hc as ([s r] & Hc & Hr).
    apply (access_agrees b) in Hc; [|done]. destruct r as [[k|]|err]; [|done|by injection Hr as <- _].
    cbn in Hr. injection Hr as <- _. by eapply agrees_same; [..|exact Hc].
  - injection Hc as <-. by eapply agrees_same; [..|exact Ha].
  - injection Hc as <-. by eapply agrees_same; [..|exact Ha].
  - apply state_of_inv in Hc as [x Hc]. cbn in Hc. unfold ws_KeepAlive, ws_MakesureConnect in Hc. apply bind_ret_inv in Hc as ([s err] & Hc & Hr).
    apply bind_ret_inv in Hc as ([s1 r] & Hc & Hr1). injection Hr1 as <- <-. apply (access_agrees b) in Hc; [|done].
    destruct (access_error r); injection Hr as <- _; [done|]. by eapply agrees_same; [..|exact Hc].
  - injection Hc as <-. apply offline_agrees. cbn. unfold connection_closed. by destruct (close_cb _).
Qed.

Lemma reach_agrees token timeout sv exact c :
  client_reach (NewWebsocketClient token timeout sv) exact c -> agrees exact (cl_signal c).
Proof.
  induction 1 as [|exact c e x c' _ IH Hc Hl]; [by apply offline_agrees|by eapply call_agrees].
Qed.

(** The result of a call that only looks is that of the field it reads, after [accessSignal]. *)
Lemma reads_inv {X} e socket_id (g : wsig Sv -> result -> X) (c c' : WebsocketClient (wsig Sv)) x :
  on_signal (fun s => '(s, r) ← accessSignal e socket_id s; Ret (s, g s r)) c = Ret (c', x) ->
  exists r, accessSignal e socket_id (cl_signal c) = Ret (cl_signal c', r) /\ x = g (cl_signal c') r.
Proof using Type.
  unfold on_signal. intros Hs. apply bind_ret_inv in Hs as ([s y] & Hs & Hr). injection Hr as <- <-.
  apply bind_ret_inv in Hs as ([s' r] & Hs & Hr). injection Hr as <- <-. eauto.
Qed.

Lemma IsInRoom_inv e room c c' b :
  IsInRoom e room c = Ret (c', inl b) -> (exists r, accessSignal e "" (cl_signal c) = Ret (cl_signal c', r)) /\ b = bool_decide (room ∈ cu_rooms (user (cl_signal c'))).
Proof using Type.
  intros Hi. apply (reads_inv e "" (fun s r => ClientConn.IsInRoom (cu_rooms (user s)) room r)) in Hi as (r & Hr & Hb).
  split; [by exists r|]. destruct r; [by injection Hb as <-|done].
Qed.

Lemma Roomed_inv e room c c' r0 :
  Roomed e room c = Ret (c', inl r0) ->
  (exists r, accessSignal e "" (cl_signal c) = Ret (cl_signal c', r)) /\ r0 = room /\ room ∈ cu_rooms (user (cl_signal c')).
Proof using Type.
  intros Hi. apply (reads_inv e "" (fun s r => ClientConn.Roomed (cu_rooms (user s)) room r)) in Hi as (r & Hr & Hb).
  split; [by exists r|]. unfold ClientConn.Roomed, ClientConn.IsInRoom in Hb. destruct r; [|done]. case_bool_decide; [|done]. by injection Hb as ->.
Qed.

(** What a roomed signal sends names its room. *)
Lemma roomed_sends rs e ack evt content to s s' m w :
  roomed_SendMessage rs e ack evt content to s = Ret (s', inl (m, w)) ->
  exists r, Custom_Router m.2 = Some r /\ Room r = GetRoom rs /\ SocketTo r = to /\ Custom_Content m.2 = content.
Proof using Type.
  intros Hs. cbn in Hs. unfold ws_SendMessage in Hs. apply bind_ret_inv in Hs as ([s1 r] & _ & Hs). destruct r as [[k|]|err]; [|done|done].
  cbn in Hs. injection Hs as _ <- _. by eexists.
Qed.

(** C7. What a client says of its rooms is true.  After any calls of a new client, and connections that ended in between,
    with no answer to a "leave" lost: while the client is connected, a room it says it is in is one the server has it in, and a roomed
    signal it gives out is of such a room and sends to this room only.  When in addition the rooms to join were always named, no answer to a "join" was lost
    and no room was left, it says so of every room the server has it in. *)
Theorem client_rooms_agree token timeout sv exact c e room :
  client_reach (NewWebsocketClient token timeout sv) exact c ->
  (forall c' b, IsInRoom e room c = Ret (c', inl b) -> online (cl_signal c') = true ->
     (b = true -> sv_in (server (cl_signal c')) room) /\ (exact = true -> sv_in (server (cl_signal c')) room -> b = true)) /\
  (forall c' r, Roomed e room c = Ret (c', inl r) -> online (cl_signal c') = true ->
     sv_in (server (cl_signal c')) room /\
     forall e2 ack evt content to s2 m w, roomed_SendMessage (newRoomedWebsocketSignal r) e2 ack evt content to (cl_signal c') = Ret (s2, inl (m, w)) ->
       exists rt, Custom_Router m.2 = Some rt /\ Room rt = room /\ SocketTo rt = to /\ Custom_Content m.2 = content).
Proof.
  intros Hre%reach_agrees. split.
  - intros c' b Hi Ho. apply IsInRoom_inv in Hi as [[r Hacc] ->]. apply (access_agrees exact) in Hacc; [|done].
    destruct (Hacc Ho) as (_ & Hs & He). rewrite bool_decide_eq_true. auto.
  - intros c' r0 Hi Ho. apply Roomed_inv in Hi as [[r Hacc] [-> Hin]]. apply (access_agrees exact) in Hacc; [|done].
    split; [by apply (Hacc Ho)|]. intros e2 ack evt content to s2 m w Hs. by apply (roomed_sends (newRoomedWebsocketSignal room)) in Hs.
Qed.
End Runs.

(** ** The node as the server *)

Section Node.
Context `{HC : Crypto} `{Uuid, Webrtc, MapOrderLaws, TemplateLib, Args arg}.
Context {AL : ArgsLaws (arg := arg) _}.
Context (range : forall A, gmap string A -> list (string * A)) (range_perm : forall A (m : gmap string A), range A m ≡ₚ map_to_list m).
Context (http_get : string -> Z + gerror) (send_ready : UserInfo -> option gerror) (conf : ConferenceConfigure) (secret uuid : string) (addr : nat).
(** The message the client sends is the one the server decodes. *)
Context (rooms_msg : list string -> arg) (rooms_msg_law : forall rs, decode_Rooms (rooms_msg rs) = inl rs).

(** The error of an acknowledgement. *)
Definition ack_error (out : list (response reply)) : option gerror :=
  match out with RAck _ (Some e) :: _ => Some (EConf (Code e)) | _ => None end.

Definition node_open (a i : option (list string)) (n : Session.node) : run (Session.node * opening) :=
  '(n, o) ← connect_ws range http_get send_ready conf secret uuid a i addr n;
  Ret (n, match o with
          | Connected => OReady (MakeUserInfo range (sctx_ (sess n)))
          | Refused => ORefused (EOther "websocket: bad handshake")
          | Dropped _ | Left _ => ODropped
          end).
Definition node_join (rs : list string) (n : Session.node) : run (Session.node * option gerror) :=
  '(n, out) ← on_join range n true [rooms_msg rs]; Ret (n, ack_error out).
Definition node_leave (rs : list string) (n : Session.node) : run (Session.node * option gerror) :=
  '(n, out) ← on_leave range n true [rooms_msg rs]; Ret (n, ack_error out).

#[local] Instance node_server : SignalServer Session.node := {|
  sv_open := node_open; sv_join := node_join; sv_leave := node_leave;
  sv_ok n := rooms_ok (rooms (sctx_ (sess n)));
  sv_in n := joined (sctx_ (sess n))
|}.

Lemma ok_joined ctx room : rooms_ok (rooms ctx) -> joined ctx room <-> is_Some (rooms ctx !! room).
Proof.
  intros Hc. unfold joined. split; [naive_solver|]. intros [info Hi]. exists info. split; [done|]. by apply Hc in Hi as ->.
Qed.

(** What [JoinRoom] does to a context in any good state. *)
Lemma JoinRoom_rooms ctx rs ctx' ms err :
  rooms_ok (rooms ctx) -> JoinRoom range ctx rs = Ret (ctx', ms, err) ->
  rooms_ok (rooms ctx') /\
  match err with
  | None => forall room, (joined ctx room \/ room ∈ rs -> joined ctx' room) /\ (rs <> [] -> joined ctx' room -> joined ctx room \/ room ∈ rs)
  | Some _ => ctx' = ctx
  end.
Proof.
  intros Hok Hj. apply JoinRoom_inv in Hj as [(-> & _ & [e ->])|(-> & sr & m & news & Hw & Hj & -> & _)]; [done|].
  destruct (join_rooms_spec sr (rooms ctx) [] Hok) as (m' & news' & E & Hok' & _ & _ & Hd). rewrite Hj in E. injection E as -> _.
  split; [done|]. intros room. rewrite !ok_joined by done. change (rooms (set_rooms ctx m')) with m'. rewrite Hd.
  assert (rs = [] \/ sr = rs) as [-> | ->].
  { unfold wanted_rooms in Hw. destruct rs; [by left|]. right. cbn [length Nat.eqb] in Hw. apply bind_ret_inv in Hw as ([e|] & _ & Hw); [done|by injection Hw]. }
  - split; [|done]. intros [?|Hin]; [by left|by inversion Hin].
  - split; [done|]. intros _ ?. done.
Qed.

Lemma join_rooms_change n rs n' err :
  rooms_ok (rooms (sctx_ (sess n))) -> join range n rs = Ret (n', err) ->
  exists ms, JoinRoom range (sctx_ (sess n)) rs = Ret (sctx_ (sess n'), ms, err).
Proof.
  intros Hok Hj. unfold join in Hj. apply bind_ret_inv in Hj as ([[ctx ms] err'] & Hj & Hr). injection Hr as <- <-. by exists ms.
Qed.

(** A connection that is let in has the rooms its context joined at once. *)
Lemma open_rooms a i n n' :
  connect_ws range http_get send_ready conf secret uuid a i addr n = Ret (n', Connected) -> rooms_ok (rooms (sctx_ (sess n'))).
Proof.
  unfold connect_ws. intros Hc. apply bind_ret_inv in Hc as ([[au id]|] & _ & Hc); [|done].
  apply bind_ret_inv in Hc as ([n1 [ret err]] & Ho & Hc). destruct err as [e|]; [done|]. injection Hc as <-.
  unfold open_context, InitSignal in Ho. cbn [sess set_sess Admission.new_session inited] in Ho.
  apply bind_ret_inv in Ho as ([n2 early] & Hb & Ho).
  assert (early = None /\ rooms_ok (rooms (sctx_ (sess n2)))) as [-> Hok].
  { unfold init_begin in Hb. apply bind_ret_inv in Hb as ([n3 e3] & Hj & Hb).
    assert (rooms_ok (rooms (sctx_ (sess n3)))) as Hok3.
    { cbn [sess set_sess with_inited sctx_ Admission.new_session] in Hj. destruct (AutoJoin _); [|by injection Hj as <- _].
      apply bind_ret_inv in Hj as ([[ctx ms] e4] & Hj & Hr). injection Hr as <- _. cbn. by apply JoinRoom_rooms in Hj as [? _]. }
    destruct e3 as [e3|].
    - apply bind_ret_inv in Hb as (n4 & _ & Hb). by injection Hb as <- <-.
    - apply bind_ret_inv in Hb as (url & _ & Hb). destruct (Call http_get url) as [gets st].
      match type of Hb with (if ?b then _ else _) = _ => destruct b end.
      + apply bind_ret_inv in Hb as (cb & _ & Hb). by injection Hb as <- <-.
      + apply bind_ret_inv in Hb as (n4 & _ & Hb). by injection Hb as <- <-. }
  unfold init_handlers in Ho. apply bind_ret_inv in Ho as (n3 & Hh & Ho). apply bind_ret_inv in Hh as (m & _ & Hh). injection Hh as <-.
  unfold init_finish in Ho. by destruct (send_ready _); injection Ho as <- _.
Qed.

(** A handler that is answered says in its answer whether it failed. *)
Lemma acked n n' cause p r n1 out :
  Handlers.leaves n n' true cause p r -> r = Ret (n1, out) -> n1 = n' /\ match p with inl _ => ack_error out = None | inr _ => is_Some (ack_error out) end.
Proof.
  intros (Hp & out' & Ha & ->) [= <- <-]. split; [done|].
  destruct (answer_total (RText "ack") true cause false p Hp) as (out2 & E & Ho). rewrite E in Ha. injection Ha as <-.
  destruct p; [by rewrite Ho|]. destruct Ho as [e ->]. by eexists.
Qed.

#[local] Instance node_server_laws : SignalServerLaws Session.node.
Proof using AL range_perm rooms_msg_law.
  split.
  - intros a i n n' u Ho. cbn in Ho. unfold node_open in Ho. apply bind_ret_inv in Ho as ([n1 o] & Hc & Ho).
    destruct o; try done. injection Ho as <- <-. split; [by eapply open_rooms|]. intros room. by apply Rooms_spec.
  - intros rs n n' err Hok Hj. cbn in Hok, Hj. unfold node_join in Hj. apply bind_ret_inv in Hj as ([n1 out] & Hj & Hr). injection Hr as <- <-.
    destruct (handled n true "join" decode_Rooms [rooms_msg rs] _ (fun rooms rp n' => join range n rooms = Ret (n', None) /\ rp = [])
      rooms_proper (fun rooms => body_join range n rooms)) as (n2 & p & L & _ & Hp).
    destruct (acked _ _ _ _ _ _ _ L Hj) as [-> He]. destruct p as [rp|v].
    + rewrite He. destruct Hp as (a & rooms & [= <-] & Ha & Hjn & _). rewrite rooms_msg_law in Ha. injection Ha as <-.
      destruct (join_rooms_change _ _ _ _ Hok Hjn) as [ms HJ]. exact (JoinRoom_rooms _ _ _ _ _ Hok HJ).
    + destruct He as [e ->]. by subst n2.
  - intros rs n n' err Hok Hl. cbn in Hok, Hl. unfold node_leave in Hl. apply bind_ret_inv in Hl as ([n1 out] & Hl & Hr). injection Hr as <- <-.
    destruct (handled n true "leave" decode_Rooms [rooms_msg rs] (fun rooms => Ret (leave range n rooms, inl []))
      (fun rooms rp n' => n' = leave range n rooms /\ rp = []) rooms_proper) as (n2 & p & L & _ & Hp); [by intros rooms; exists (leave range n rooms), (inl [])|].
    destruct (acked _ _ _ _ _ _ _ L Hl) as [-> He]. destruct p as [rp|v].
    + rewrite He. destruct Hp as (a & rooms & _ & _ & -> & _). split; [exact Hok|]. intros room Hroom _. exact Hroom.
    + destruct He as [e ->]. by subst n2.
Qed.

(** The headers the client dials with let it in under the id it asks for, or a fresh one. *)
Lemma dial_admitted {HL : CryptoLaws} nonce a t socket_id fresh_id :
  nonce_ok nonce -> utf8_info a -> Encode secret nonce a = Ret (inl t) ->
  let '(authorization, signal_id) := dial_headers t socket_id fresh_id in
  websocket_handler secret uuid authorization signal_id = Ret (Some (a, if decide (socket_id = "") then fresh_id else socket_id)).
Proof using Type.
  intros Hn Hu He. unfold dial_headers. cbv beta iota. rewrite (websocket_opens secret uuid nonce a t _ Hn Hu He). destruct (decide (socket_id <> "")), (decide (socket_id = "")); naive_solver.
Qed.
End Node.

(** ** Witness, and where the client is wrong *)
Module Toy.
Import Templates.Toy.
#[local] Existing Instance Auth.Toy.crypto.
#[local] Existing Instance Auth.Toy.crypto_laws.
#[local] Existing Instance Handlers.Toy.args.
#[local] Existing Instance Handlers.Toy.args_laws.

#[local] Instance toy_server : SignalServer Session.node :=
  node_server range0 SessionProps.Toy.http_ok SessionProps.Toy.ready_ok Config.debug_config "secret" "x" 1 Handlers.Toy.ARooms.
#[local] Instance toy_server_laws : SignalServerLaws Session.node.
Proof. apply node_server_laws; [exact range0_perm|reflexivity]. Qed.

Definition token (autoJoin : bool) : string := match GetToken Token.Toy.get "http://auth" "k" "u" "Bob & co" "a.x" "r" 7 autoJoin with inl t => t | inr _ => "" end.
Definition token_join : string := Eval vm_compute in token true.
Definition token_later : string := Eval vm_compute in token false.

Definition good : env := {| e_uuid := "me"; e_dial := None; e_ready := None; e_send := Answered |}.
Definition cut_off : env := {| e_uuid := "me"; e_dial := Some (EOther "refused"); e_ready := None; e_send := Answered |}.

Definition client_t : Type := WebsocketClient (wsig Session.node).
Definition after (c : run client_t) (ex : env * call) : run client_t := c ← c; do_call ex.1 ex.2 c.
Definition runs (c : client_t) (l : list (env * call)) : run client_t := fold_left after l (Ret c).
Definition or_else (c : client_t) (r : run client_t) : client_t := match r with Ret c => c | Abort _ => c end.

Definition later : client_t := NewWebsocketClient token_later 0 SessionProps.Toy.node0.
Definition joined_ : client_t := Eval vm_compute in or_else later (do_call good (CJoin ["a.x"]) later).
Definition at_once : client_t := NewWebsocketClient token_join 0 SessionProps.Toy.node0.

Definition answer_of {X} (r : run (client_t * X)) : option X := match r with Ret (_, x) => Some x | Abort _ => None end.

(** A client that joins a room is in it, for itself and for the server. *)
Lemma client_rooms_agree_witness :
  IsInRoom good "a.x" joined_ = Ret (joined_, inl true) /\ joined (sctx_ (sess (server (cl_signal joined_)))) "a.x" /\
  exists s m w, roomed_SendMessage (newRoomedWebsocketSignal "a.x") good true "chat" "hello" "bob" (cl_signal joined_) = Ret (s, inl (m, w)) /\
    exists rt, Custom_Router m.2 = Some rt /\ Room rt = "a.x".
Proof.
  assert (client_reach later true joined_) as Hre.
  { change true with (true && exact_call good (CJoin ["a.x"])). apply (cr_call later true later good (CJoin ["a.x"]) joined_).
    - apply cr_new.
    - vm_compute. reflexivity.
    - constructor. }
  destruct (client_rooms_agree token_later 0 SessionProps.Toy.node0 true joined_ good "a.x" Hre) as [H1 H2].
  assert (IsInRoom good "a.x" joined_ = Ret (joined_, inl true)) as Hi by (vm_compute; reflexivity).
  split; [exact Hi|]. split; [apply (H1 joined_ true Hi); reflexivity|].
  destruct (H2 joined_ "a.x") as [_ H3]; [vm_compute; reflexivity|reflexivity|].
  eexists _, _, _. split; [reflexivity|]. destruct (H3 good true "chat" "hello" "bob" _ _ _ eq_refl) as (rt & E & Er & _).
  exists rt. split; [exact E|exact Er].
Defined.

(** Joining without naming a room joins the rooms of the token, and the client does not know it. *)
Lemma join_all_unknown :
  (answer_of (Join good [] later) = Some None) /\
  let c := or_else later (do_call good (CJoin []) later) in
  bool_decide (JoinId (sctx_ (sess (server (cl_signal c)))) "a.x" = 1%Z) = true /\ answer_of (IsInRoom good "a.x" c) = Some (inl false).
Proof. vm_compute. done. Qed.

(** A client whose connection ended, and which could not connect again, says it is in the rooms it was in. *)
Lemma offline_says_in :
  answer_of (IsInRoom cut_off "a.x" (or_else at_once (runs at_once [(good, CConnect "me"); (good, CClosed)]))) = Some (inr (EOther "refused")) /\
  let c := or_else at_once (runs at_once [(good, CConnect "me"); (good, CClosed); (cut_off, CIsInRoom "a.x")]) in
  online (cl_signal c) = false /\ answer_of (IsInRoom cut_off "a.x" c) = Some (inl true).
Proof. vm_compute. done. Qed.
End Toy.
